(* ===== verification/_CoqProject ===== *)
-Q . S2P
Prelude.v
Bytes.v
Crc.v
Core.v
ClockModel.v
Framing.v
Application.v
Adxl355.v
Measurement.v
MeasurementWire.v
Identity.v
ConfigurationWire.v
LifecycleWire.v
CommissioningWire.v
ObservationWire.v
WireContracts.v
Transaction.v
NodeSession.v
MeasurementTransfer.v
CaptureWindow.v
CaptureWal.v
CaptureCodec.v
CaptureRecovery.v
CaptureManifest.v
CaptureReader.v
SegmentNames.v
CaptureSink.v
CaptureSegments.v
SegmentRecovery.v
SegmentStream.v
Scheduler.v
StreamRecovery.v
Persistence.v
WalStorage.v
BoundedWriter.v
GroupedWriter.v
CaptureRepository.v
SafeState.v
Handshake.v
ControlOperation.v
LifecycleOperation.v
ConfigurationOperation.v
CommissioningOperation.v
OperationRetries.v
ChannelAgent.v
AgentHistory.v
ChannelPort.v
ChannelEndpoint.v
ChannelRuntime.v
RuntimeHistory.v
RuntimeSelection.v
RuntimeEffects.v
NodeMetrics.v
MeasurementCoordinator.v
CoordinatorTransfers.v
CoordinatorSteps.v
CoordinatorServices.v
CoordinatorHistory.v
SyncChannel.v
PersistenceExecutor.v
