(* ===== verification/Prelude.v ===== *)
(** * Sensor System host v2: a verification library (root file)

    Sensor nodes on half-duplex RS485 channels sample a vibration sensor into a
    bounded journal; the Rust host pulls the samples, proves to itself that the
    stream has no silent hole and makes every record durable before it lets a
    node release it. The host is three crates under src/host_v2/crates:
    sensor-core (identities, cursors, clocks), sensor-protocol (framing and the
    wire messages) and sensor-host (channels, sessions and storage). This library
    translates their deterministic core into executable definitions and proves
    what makes it correct. Files, functions and constructors keep the names of
    the source where one namespace allows it; a prefix tells the rest apart.

    ** How code becomes definitions

    - A fallible function returns an [outcome]: [Ok], [Err], or [Panic] for a
      slice index out of range, an [unwrap]/[expect] on the wrong variant, a
      [debug_assert] that fails or an unchecked operator that overflows. Theorems
      that exclude [Panic] hold for debug and release builds alike.
    - A method on [&mut self] is an [st]: the state is threaded through every
      outcome, because a method may have changed [self] when it returns an error.
    - A machine integer is a [Z] and its Rust type a range ([u8] .. [u128]);
      [checked_], [saturating_] and [wrapping_] operations are written out; byte
      buffers are lists of bytes with Rust's indexing. [Typed] collects what a
      value satisfies by its type alone, and theorems assume nothing else of
      their inputs.
    - The compiled code outside the repository is a parameter: byte devices
      ([ByteDevice]), monotonic clocks ([MonotonicClock]), files and directories
      with injected faults, each with its documented behaviour as a law and with a
      concrete instance in a witness.

    ** The parts and their files

    Domain core (sensor-core): [Core] (identity.rs, sample.rs, rate.rs, gap.rs,
    continuity.rs, delivery.rs), [ClockModel] (time.rs).

    Protocol (sensor-protocol): [Crc] and [Framing] (framing.rs), [Application]
    (application.rs, version.rs; the codec interface [WireCodec]), [Adxl355],
    [Measurement] and [MeasurementWire], [Identity], [ConfigurationWire],
    [LifecycleWire], [CommissioningWire], [ObservationWire] (time, telemetry and
    diagnostics), [WireContracts] (the codec laws of all services).

    The channel (sensor-host), from the wire up: [Transaction] (one
    request/response exchange with deadline and quarantine), [NodeSession] (the
    delivery state machine of one node), [MeasurementTransfer] (a session on its
    way through the channel), [Handshake], [LifecycleOperation],
    [ConfigurationOperation] and [CommissioningOperation] (logical operations,
    sharing the interface [LogicalOperation] of [ControlOperation]; [OperationRetries]
    applies its theorem), [ChannelAgent] (the owner of all of these on one
    channel) with [AgentHistory] (its invariant), [ChannelPort] (bytes and
    frames), [ChannelEndpoint] (agent, port and clock composed), [Scheduler]
    (which node is served next), [SafeState] (bringing a node to a quiescent
    state).

    The work of a channel (sensor-host): [ChannelRuntime] (channel_runtime.rs: the
    table of nodes and periodic services, what is due and what is dispatched) with
    [RuntimeHistory] (its invariant), [RuntimeSelection] (what is selected) and
    [RuntimeEffects] (what a call leaves alone, for its client); [NodeMetrics]
    (node_metrics.rs: the counters the channel thread publishes);
    [MeasurementCoordinator] (measurement_coordinator.rs: the owner of the delivery
    sessions, between runtime, agent and storage). [CoordinatorTransfers],
    [CoordinatorSteps] and [CoordinatorServices] say what its calls do to a
    transfer and to its books, [CoordinatorHistory] composes them.

    Storage (sensor-host): [CaptureWindow] (the ledger of capture windows),
    [CaptureWal] (the log: records, batches, sink), [CaptureCodec] (its bytes),
    [CaptureRecovery] (replay after a crash), [CaptureSink] (faults and crashes),
    [CaptureManifest], [CaptureReader] and [SegmentNames], [CaptureSegments],
    [SegmentRecovery] and [SegmentStream] (a stream as a directory of segments),
    [Persistence] (the sink interfaces), [WalStorage] (the log behind the sink
    interface), [BoundedWriter] and [GroupedWriter] (the persistence workers),
    [SyncChannel] (std::sync::mpsc) and [PersistenceExecutor] (the storage thread),
    [CaptureRepository] (routing and group commit over streams), [StreamRecovery]
    (agreeing with a node after a restart).

    [Prelude] and [Bytes] hold the shared notions, lemmas, hint databases ([rust],
    [len], [st]) and tactics.

    ** What the theorems show

    - Delivery: a session and a transfer, under any calls and any response bytes,
      are traces of an abstract delivery contract (evidence tiles the stream, its
      record is handed to storage at most once, and it is released only when durable).
    - The channel: every exchange completes at most once with its own response;
      the agent never violates its invariants, loses, duplicates or reorders a
      transfer; operations are retried with one command; the port loses no byte;
      the endpoint is exactly its agent and its port driven together.
    - The work of a channel: the runtime accounts for every dispatch it hands out
      and serves due work; the coordinator's books agree with it over any history,
      the session of every node is in exactly one place, and a shutdown drain reads
      exactly the nodes it set out to read; a reader of the metrics that races the
      channel thread never sees a mixed snapshot.
    - The wire: frames round-trip, the decoder equals segmentation at delimiters
      and resynchronises, error bursts of up to 32 bits are caught by the checksum,
      and all message codecs are exact and canonical.
    - Storage: recovery accepts exactly the logs the sink writes, plus a torn tail;
      acknowledged records survive host crashes under any fault of the disk; the
      windows and segments of a stream partition it, each with the counters of its
      own records; handing evidence to the log is atomic; workers and repositories account for
      every record exactly once; the storage thread keeps that under every
      interleaving with its owner, and its shutdown ends; interfaces are refined by
      their instances.
    - Policies: the scheduler equals its specification, safe-state convergence
      terminates, clock estimates are sound.

    ** Crashes, faults and bounds

    A file is its content, a synced prefix and the faults that the coming writes
    and syncs will hit (a failed write may leave a part of its bytes). A host
    crash keeps of each file some prefix that is at least the synced one;
    directory entries are durable once created, and distinct streams have distinct
    directories. Offsets are bounded by 2^63 bytes and ordinals by 2^64
    ([sized], [fits], [stream_fits]); beyond them the source overflows. Fuel, where
    a loop is not structural, is the length of the data it consumes or the size of
    the directory, and the theorems show that it never runs out. Times and clock
    readings are arbitrary unless a theorem says otherwise; the histories of a
    channel runtime ask that [recover_node], which clears the current dispatch
    unconditionally, is called only while there is none and that nodes are resumed
    or replaced only at rest ([runtime_allowed]); those of a coordinator ask that
    the times of its calls do not run backwards, that its
    recovery calls name the recovery under way, and that the events passed to a
    periodic service come from its node (control operations are submitted only
    while the channel recovers or is quiescent). The shared metrics are one memory
    read in program order: reorderings that the atomics' orderings permit are not
    modelled.

    ** Not modelled

    Locks, and threads other than the storage thread of [PersistenceExecutor] (the
    grouped worker is modelled as the deterministic core its thread runs); the channel worker's loop, its command queues, mode
    changes and start-up; discovery; time and telemetry recording, which
    repeat the pattern of the measurement log (only the records and the submitter
    interfaces the coordinator uses are there); retention, archive and export
    tools; configuration parsing (serde), sockets, signals and command lines;
    floating-point conversions and Display implementations; the simulation bus;
    the C++ firmware of the nodes, which is the environment here; the legacy
    Python host, scripts and hardware. *)

From stdpp Require Export base list numbers option.
From Stdlib Require Export ZArith Lia.

#[global] Open Scope Z_scope.

(** ** Results of fallible Rust code

    [Ok] and [Err] are the two constructors of Rust's [Result]; [Panic] is the
    third outcome of a Rust call: a slice index out of range, an [unwrap] or
    [expect] on the wrong variant, or an unchecked [+] / [-] that overflows
    its type (the debug profile panics there, the release profile wraps; a
    theorem that a call is not [Panic] makes both profiles agree). *)
Inductive outcome (E A : Type) : Type :=
| Ok (a : A)
| Err (e : E)
| Panic.
Arguments Ok {E A} a.
Arguments Err {E A} e.
Arguments Panic {E A}.

#[export] Instance outcome_eq_dec {E A : Type} `{EqDecision E, EqDecision A} :
  EqDecision (outcome E A).
Proof. solve_decision. Defined.

(** [?] on a [Result]: the error and the panic propagate. *)
#[export] Instance outcome_ret {E : Type} : MRet (outcome E) := fun A a => Ok a.
#[export] Instance outcome_bind {E : Type} : MBind (outcome E) :=
  fun A B f m =>
    match m with
    | Ok a => f a
    | Err e => Err e
    | Panic => Panic
    end.
#[export] Instance outcome_fmap {E : Type} : FMap (outcome E) :=
  fun A B f m =>
    match m with
    | Ok a => Ok (f a)
    | Err e => Err e
    | Panic => Panic
    end.

(** [Result::map_err]. *)
Definition map_err {E F A : Type} (f : E -> F) (m : outcome E A) : outcome F A :=
  match m with
  | Ok a => Ok a
  | Err e => Err (f e)
  | Panic => Panic
  end.

(** [Option::ok_or]. *)
Definition ok_or {E A : Type} (o : option A) (e : E) : outcome E A :=
  match o with
  | Some a => Ok a
  | None => Err e
  end.

(** [Option::expect] and [Option::unwrap]. *)
Definition expect {E A : Type} (o : option A) : outcome E A :=
  match o with
  | Some a => Ok a
  | None => Panic
  end.

(** [Option::is_some]. *)
Definition is_some {A : Type} (o : option A) : bool :=
  match o with
  | Some _ => true
  | None => false
  end.

(** [Result::ok]. *)
Definition outcome_ok {E A : Type} (m : outcome E A) : option A :=
  match m with
  | Ok a => Some a
  | _ => None
  end.

(** The outcome a caller can handle: anything but a panic. *)
Definition no_panic {E A : Type} (m : outcome E A) : Prop := m <> Panic.

(** ** Stateful code

    A Rust method on [&mut self] that returns a [Result] may already have
    changed [self] when it returns an error, so the state is threaded through
    every outcome. *)
Definition st (S E A : Type) : Type := S -> outcome E A * S.

#[export] Instance st_ret {S E : Type} : MRet (st S E) := fun A a s => (Ok a, s).
#[export] Instance st_bind {S E : Type} : MBind (st S E) :=
  fun A B f m s =>
    match m s with
    | (Ok a, s') => f a s'
    | (Err e, s') => (Err e, s')
    | (Panic, s') => (Panic, s')
    end.

Definition get {S E : Type} : st S E S := fun s => (Ok s, s).
Definition gets {S E A : Type} (f : S -> A) : st S E A := fun s => (Ok (f s), s).
Definition modify {S E : Type} (f : S -> S) : st S E unit := fun s => (Ok tt, f s).
Definition throw {S E A : Type} (e : E) : st S E A := fun s => (Err e, s).
(** A call that does not touch the state. *)
Definition lift {S E A : Type} (m : outcome E A) : st S E A := fun s => (m, s).
(** A call of a method of a field, with the error converted by [From]. *)
Definition zoom {S T E F A : Type} (view : S -> T) (set : T -> S -> S) (conv : E -> F)
    (m : st T E A) : st S F A :=
  fun s => let '(r, t) := m (view s) in (map_err conv r, set t s).

(** ** Machine integers

    An unsigned integer of the source is a [Z]; its Rust type is the range. *)
Definition unsigned (w z : Z) : Prop := 0 <= z < 2 ^ w.
Abbreviation u8 := (unsigned 8).
Abbreviation u16 := (unsigned 16).
Abbreviation u32 := (unsigned 32).
Abbreviation u64 := (unsigned 64).
Abbreviation u128 := (unsigned 128).
Definition signed (w z : Z) : Prop := - 2 ^ (w - 1) <= z < 2 ^ (w - 1).
Abbreviation i16 := (signed 16).
Abbreviation i32 := (signed 32).
Abbreviation i128 := (signed 128).

#[export] Instance unsigned_dec (w z : Z) : Decision (unsigned w z).
Proof. unfold unsigned. apply _. Defined.
#[export] Instance signed_dec (w z : Z) : Decision (signed w z).
Proof. unfold signed. apply _. Defined.

Definition U16_MAX : Z := 2 ^ 16 - 1.
Definition U32_MAX : Z := 2 ^ 32 - 1.
Definition U64_MAX : Z := 2 ^ 64 - 1.

(** [checked_add], [checked_sub], [checked_mul] of a [w]-bit unsigned type. *)
Definition checked_add (w a b : Z) : option Z :=
  if a + b <? 2 ^ w then Some (a + b) else None.
Definition checked_sub (a b : Z) : option Z :=
  if b <=? a then Some (a - b) else None.
Definition checked_mul (w a b : Z) : option Z :=
  if a * b <? 2 ^ w then Some (a * b) else None.
(** [checked_add] and [checked_mul] of a [w]-bit signed type. *)
Definition checked_signed (w z : Z) : option Z :=
  if decide (signed w z) then Some z else None.
(** [saturating_add], [saturating_sub], [saturating_mul], [wrapping_add]. *)
Definition saturating_add (w a b : Z) : Z := Z.min (a + b) (2 ^ w - 1).
Definition saturating_sub (a b : Z) : Z := Z.max (a - b) 0.
Definition saturating_mul (w a b : Z) : Z := Z.min (a * b) (2 ^ w - 1).
Definition wrapping_add (w a b : Z) : Z := (a + b) mod 2 ^ w.
(** [!z] of a [w]-bit unsigned type. *)
Definition bit_not (w z : Z) : Z := Z.lxor z (2 ^ w - 1).
(** [abs_diff] and [div_ceil] of an unsigned type. *)
Definition abs_diff (a b : Z) : Z := Z.abs (a - b).
Definition div_ceil (a b : Z) : Z := (a + b - 1) / b.
(** The unchecked operators [+] and [-] of a [w]-bit unsigned type. *)
Definition add {E : Type} (w a b : Z) : outcome E Z := expect (checked_add w a b).
Definition sub {E : Type} (a b : Z) : outcome E Z := expect (checked_sub a b).

(** What a value of a Rust type satisfies by its type alone: every integer
    field lies in the range of its declared type. *)
Class Typed (A : Type) : Type := typed : A -> Prop.
#[export] Hint Mode Typed ! : typeclass_instances.

(** ** Automation shared by the components *)

(** [rust]: lemmas that close side goals (panic freedom above all);
    [len]: rewriting with the lengths of byte buffers (see [Bytes]);
    [st]: evaluation of stateful code, one operation at a time. *)
Create HintDb rust.
Create Rewrite HintDb len.
Create Rewrite HintDb st.

Ltac unfold_ints :=
  unfold unsigned, signed, U16_MAX, U32_MAX, U64_MAX in *;
  change (2 ^ 8) with 256 in *; change (2 ^ 16) with 65536 in *;
  change (2 ^ 32) with 4294967296 in *;
  change (2 ^ 64) with 18446744073709551616 in *.

(** Linear arithmetic over machine integers. *)
Ltac ilia := unfold_ints; lia.

(** The same with the equations of [/] and [mod] by constants. *)
Ltac dlia := unfold_ints; Z.to_euclidean_division_equations; lia.

(** The ranges of a concrete value. *)
Ltac typed_by_compute :=
  repeat (exact I || apply List.Forall_nil || apply List.Forall_cons || split); vm_compute; congruence.

(** Splits on the guard of one [if] or the scrutinee of one [match] of the
    goal, innermost first, keeping the equation. *)
Ltac split_guard :=
  match goal with
  | |- context [match ?x with _ => _ end] =>
      lazymatch x with
      | context [match _ with _ => _ end] => fail
      | _ => first [is_var x; destruct x | let H := fresh "Hg" in destruct x eqn:H]
      end
  end.

(** The same on a hypothesis. *)
Ltac split_guard_in H :=
  match type of H with
  | context [match ?x with _ => _ end] =>
      lazymatch x with
      | context [match _ with _ => _ end] => fail
      | _ => first [is_var x; destruct x | let G := fresh "Hg" in destruct x eqn:G]
      end
  end.

(** Boolean tests of the code become propositions. *)
Ltac to_prop :=
  repeat match goal with
  | H : bool_decide _ = true |- _ => apply bool_decide_eq_true in H
  | H : bool_decide _ = false |- _ => apply bool_decide_eq_false in H
  | H : (_ || _)%bool = true |- _ => apply orb_true_iff in H
  | H : (_ || _)%bool = false |- _ => apply orb_false_iff in H; destruct H
  | H : (_ && _)%bool = true |- _ => apply andb_true_iff in H; destruct H
  | H : (_ && _)%bool = false |- _ => apply andb_false_iff in H
  | H : negb _ = true |- _ => apply negb_true_iff in H
  | H : negb _ = false |- _ => apply negb_false_iff in H
  | H : (_ <? _) = true |- _ => apply Z.ltb_lt in H
  | H : (_ <? _) = false |- _ => apply Z.ltb_ge in H
  | H : (_ <=? _) = true |- _ => apply Z.leb_le in H
  | H : (_ <=? _) = false |- _ => apply Z.leb_gt in H
  | H : (_ =? _) = true |- _ => apply Z.eqb_eq in H
  | H : (_ =? _) = false |- _ => apply Z.eqb_neq in H
  end.

(** Runs a hypothesis [m = r] through every guard of [m], discarding the
    branches whose outcome differs from [r]. *)
Ltac run_in H :=
  repeat (split_guard_in H; try discriminate H); try (injection H as H); to_prop.

(** Exposes the state passing of a stateful call in a hypothesis, then runs it
    through its guards. *)
Ltac st_unfold H :=
  cbv beta iota delta [mbind st_bind mret st_ret get gets modify throw lift zoom map_err
    outcome_bind outcome_ret ok_or expect fst snd negb] in H.

Ltac st_eval :=
  cbv beta iota delta [mbind st_bind mret st_ret get gets modify throw lift zoom map_err
    outcome_bind outcome_ret ok_or expect fst snd negb].

Ltac st_run H :=
  st_unfold H; repeat (split_guard_in H; try discriminate H; st_unfold H); to_prop.

(** ** Lemmas about outcomes and machine arithmetic *)

Section Outcome.
Context {E F A B : Type}.

Lemma outcome_bind_Ok (m : outcome E A) (f : A -> outcome E B) (b : B) :
  (m ≫= f) = Ok b <-> exists a, m = Ok a /\ f a = Ok b.
Proof. destruct m as [a|e|]; cbn; naive_solver. Qed.

Lemma outcome_bind_Err (m : outcome E A) (f : A -> outcome E B) (e : E) :
  (m ≫= f) = Err e <-> m = Err e \/ exists a, m = Ok a /\ f a = Err e.
Proof. destruct m as [a|e'|]; cbn; naive_solver. Qed.

Lemma no_panic_bind (m : outcome E A) (f : A -> outcome E B) :
  no_panic m -> (forall a, m = Ok a -> no_panic (f a)) -> no_panic (m ≫= f).
Proof. unfold no_panic. destruct m as [a|e|]; cbn; naive_solver. Qed.

Lemma no_panic_fmap (g : A -> B) (m : outcome E A) :
  no_panic m -> no_panic (g <$> m).
Proof. unfold no_panic. destruct m; cbn; naive_solver. Qed.

Lemma no_panic_map_err (g : E -> F) (m : outcome E A) :
  no_panic m -> no_panic (map_err g m).
Proof. unfold no_panic. destruct m; cbn; naive_solver. Qed.

Lemma map_err_Ok (g : E -> F) (m : outcome E A) (a : A) :
  map_err g m = Ok a <-> m = Ok a.
Proof. destruct m; cbn; naive_solver. Qed.

Lemma no_panic_ok_or (o : option A) (e : E) : no_panic (ok_or o e).
Proof. unfold no_panic. destruct o; cbn; naive_solver. Qed.

Lemma no_panic_Ok (a : A) : no_panic (Ok a : outcome E A).
Proof. unfold no_panic. congruence. Qed.

Lemma no_panic_Err (e : E) : no_panic (Err e : outcome E A).
Proof. unfold no_panic. congruence. Qed.
End Outcome.

(** One step of a stateful computation, as rewriting rules. *)
Section Stateful.
Context {S E A B : Type}.
Implicit Types (s : S) (k : A -> st S E B).

Lemma st_bind_ret (a : A) k s : (mret a ≫= k) s = k a s.
Proof. done. Qed.
Lemma st_bind_lift_Ok (a : A) k s : (lift (Ok a) ≫= k) s = k a s.
Proof. done. Qed.
Lemma st_bind_lift_Err (e : E) k s : (lift (Err e) ≫= k) s = (Err e, s).
Proof. done. Qed.
Lemma st_bind_throw (e : E) k s : (throw e ≫= k) s = (Err e, s).
Proof. done. Qed.
Lemma st_bind_get (k : S -> st S E B) s : (get ≫= k) s = k s s.
Proof. done. Qed.
Lemma st_bind_gets (f : S -> A) k s : (gets f ≫= k) s = k (f s) s.
Proof. done. Qed.
Lemma st_bind_modify (f : S -> S) (k : unit -> st S E B) s : (modify f ≫= k) s = k tt (f s).
Proof. done. Qed.
Lemma st_ret_eq (a : A) s : (mret a : st S E A) s = (Ok a, s).
Proof. done. Qed.
Lemma st_throw_eq (e : E) s : (throw e : st S E A) s = (Err e, s).
Proof. done. Qed.
Lemma st_modify_eq (f : S -> S) s : (modify f : st S E unit) s = (Ok tt, f s).
Proof. done. Qed.
Lemma st_bind_assoc {C : Type} (m : st S E C) (f : C -> st S E A) k s :
  ((m ≫= f) ≫= k) s = (m ≫= fun c => f c ≫= k) s.
Proof. cbv [mbind st_bind]. by destruct (m s) as [[]]. Qed.
(** The result of a call followed by a pure function of its value. *)
Lemma st_bind_pure (m : st S E A) (g : A -> B) s r s' :
  (m ≫= fun a => mret (g a)) s = (r, s') ->
  exists r0, m s = (r0, s') /\ r = match r0 with Ok a => Ok (g a) | Err e => Err e | Panic => Panic end.
Proof. cbv [mbind st_bind mret st_ret]. destruct (m s) as [[] s1]; naive_solver. Qed.
End Stateful.

Lemma checked_add_Some (w a b c : Z) :
  checked_add w a b = Some c <-> c = a + b /\ a + b < 2 ^ w.
Proof. unfold checked_add. destruct (Z.ltb_spec (a + b) (2 ^ w)); naive_solver lia. Qed.

Lemma checked_add_None (w a b : Z) : checked_add w a b = None <-> 2 ^ w <= a + b.
Proof. unfold checked_add. destruct (Z.ltb_spec (a + b) (2 ^ w)); naive_solver lia. Qed.

Lemma checked_sub_Some (a b c : Z) : checked_sub a b = Some c <-> c = a - b /\ b <= a.
Proof. unfold checked_sub. destruct (Z.leb_spec b a); naive_solver lia. Qed.

Lemma checked_mul_Some (w a b c : Z) :
  checked_mul w a b = Some c <-> c = a * b /\ a * b < 2 ^ w.
Proof. unfold checked_mul. destruct (Z.ltb_spec (a * b) (2 ^ w)); naive_solver lia. Qed.

Lemma checked_add_ok (w a b : Z) : a + b < 2 ^ w -> checked_add w a b = Some (a + b).
Proof. intros. by apply checked_add_Some. Qed.

Lemma checked_sub_ok (a b : Z) : b <= a -> checked_sub a b = Some (a - b).
Proof. intros. by apply checked_sub_Some. Qed.

Lemma add_ok {E : Type} (w a b : Z) : a + b < 2 ^ w -> add (E:=E) w a b = Ok (a + b).
Proof. intros. unfold add. by rewrite checked_add_ok. Qed.

Lemma sub_ok {E : Type} (a b : Z) : b <= a -> sub (E:=E) a b = Ok (a - b).
Proof. intros. unfold sub. by rewrite checked_sub_ok. Qed.

Lemma checked_signed_Some (w z c : Z) :
  checked_signed w z = Some c <-> c = z /\ signed w z.
Proof. unfold checked_signed. case_decide; naive_solver. Qed.

Lemma div_ceil_spec (a b : Z) : 0 < b -> b * (div_ceil a b - 1) < a <= b * div_ceil a b.
Proof.
  intros Hb. unfold div_ceil.
  pose proof (Z.div_mod (a + b - 1) b ltac:(lia)) as Hd.
  pose proof (Z.mod_pos_bound (a + b - 1) b Hb). nia.
Qed.

#[export] Hint Resolve no_panic_Ok no_panic_Err no_panic_ok_or no_panic_map_err
  no_panic_fmap : rust.
#[export] Hint Rewrite @st_bind_ret @st_bind_lift_Ok @st_bind_lift_Err @st_bind_throw @st_bind_get
  @st_bind_gets @st_bind_modify @st_ret_eq @st_throw_eq @st_modify_eq @st_bind_assoc : st.
