(* ===== verification/Bytes.v ===== *)
(** * Byte buffers and little-endian integers

    Slices and arrays of bytes as [list byte], with the panics of Rust's
    indexing; [to_le_bytes] and [from_le_bytes] as coqutil's [le_split] and
    [le_combine]; and the rewriting that carries the wire codecs' proofs:
    sequential writes into a buffer ([put_next]) and reads from a
    concatenation of segments of known length ([slice_skip], [slice_here]). *)

From S2P Require Export Prelude.
From coqutil Require Export Byte.
From coqutil Require Import Word.LittleEndianList.

From Stdlib Require Strings.Byte.

Abbreviation bytes := (list byte).

#[export] Instance byte_eq_dec : EqDecision byte := Strings.Byte.byte_eq_dec.

(** The value of a byte as a [u8], and a [u8] (or a cast to one) as a byte. *)
Abbreviation b2z := byte.unsigned.
Abbreviation z2b := byte.of_Z.

(** [uN::to_le_bytes] ([iN::to_le_bytes] on a negative value), [n] bytes. *)
Definition to_le_bytes (n : nat) (z : Z) : bytes := le_split n z.
(** [uN::from_le_bytes]. *)
Definition from_le_bytes (l : bytes) : Z := le_combine l.
(** [iN::from_le_bytes]: two's complement of the width of [l]. *)
Definition from_le_bytes_signed (l : bytes) : Z :=
  let w := 8 * Z.of_nat (length l) in
  let z := le_combine l in
  if z <? 2 ^ (w - 1) then z else z - 2 ^ w.

(** Literal bytes, for the golden vectors of contracts/golden. *)
Definition literal (l : list Z) : bytes := map z2b l.

(** [[0; n]]. *)
Definition zeros (n : nat) : bytes := repeat Byte.x00 n.

Section Access.
Context {E : Type}.

(** [&l[a..b]]. *)
Definition slice (a b : nat) (l : bytes) : outcome E bytes :=
  if ((a <=? b) && (b <=? length l))%nat then Ok (firstn (b - a) (skipn a l)) else Panic.

(** [&l[a..]]. *)
Definition slice_from (a : nat) (l : bytes) : outcome E bytes := slice a (length l) l.

(** [l[i]], as a [u8]. *)
Definition index (i : nat) (l : bytes) : outcome E Z :=
  match l !! i with
  | Some b => Ok (b2z b)
  | None => Panic
  end.

(** [buffer[a..b].copy_from_slice(&src)]. *)
Definition put (a b : nat) (src buffer : bytes) : outcome E bytes :=
  if ((a <=? b) && (b <=? length buffer) && (length src =? b - a))%nat
  then Ok (firstn a buffer ++ src ++ skipn b buffer) else Panic.

(** [buffer[i] = v]. *)
Definition put1 (i : nat) (v : Z) (buffer : bytes) : outcome E bytes :=
  put i (S i) [z2b v] buffer.

(** A call on [&mut buffer[a..b]]. *)
Definition with_slice (a b : nat) (f : bytes -> outcome E bytes) (buffer : bytes)
    : outcome E bytes :=
  s ← slice a b buffer; s ← f s; put a b s buffer.

Definition read_u16 (input : bytes) (offset : nat) : outcome E Z :=
  from_le_bytes <$> slice offset (offset + 2) input.
Definition read_u32 (input : bytes) (offset : nat) : outcome E Z :=
  from_le_bytes <$> slice offset (offset + 4) input.
Definition read_u64 (input : bytes) (offset : nat) : outcome E Z :=
  from_le_bytes <$> slice offset (offset + 8) input.
Definition read_i32 (input : bytes) (offset : nat) : outcome E Z :=
  from_le_bytes_signed <$> slice offset (offset + 4) input.
Definition read_i16 (input : bytes) (offset : nat) : outcome E Z :=
  from_le_bytes_signed <$> slice offset (offset + 2) input.
End Access.

(** ** Lengths known by type *)

Class KnownLength (l : bytes) (n : nat) : Prop := known_length : length l = n.
#[export] Hint Mode KnownLength ! - : typeclass_instances.

Lemma length_to_le_bytes (n : nat) (z : Z) : length (to_le_bytes n z) = n.
Proof. apply length_le_split. Qed.

Lemma length_zeros (n : nat) : length (zeros n) = n.
Proof. apply repeat_length. Qed.

Lemma skipn_zeros (n m : nat) : skipn n (zeros m) = zeros (m - n).
Proof. revert m. induction n as [|n IH]; intros [|m]; cbn; auto. Qed.

#[export] Instance known_length_le (n : nat) (z : Z) : KnownLength (to_le_bytes n z) n.
Proof. apply length_to_le_bytes. Qed.
#[export] Instance known_length_nil : KnownLength [] 0.
Proof. reflexivity. Qed.
#[export] Instance known_length_cons (b : byte) (l : bytes) (n : nat) `{!KnownLength l n} :
  KnownLength (b :: l) (S n).
Proof. red. cbn. f_equal. apply known_length. Qed.
#[export] Instance known_length_app (l k : bytes) (n m : nat)
  `{!KnownLength l n, !KnownLength k m} : KnownLength (l ++ k) (n + m).
Proof. red. rewrite length_app. f_equal; apply known_length. Qed.
#[export] Hint Extern 1 (KnownLength _ _) => assumption : typeclass_instances.

#[export] Hint Rewrite length_to_le_bytes length_zeros @length_app @length_take
  @length_drop @length_cons @length_nil : len.

(** ** Little-endian integers *)

Lemma from_to_le_bytes (n : nat) (w z : Z) :
  w = 8 * Z.of_nat n -> unsigned w z -> from_le_bytes (to_le_bytes n z) = z.
Proof.
  intros -> Hz. unfold from_le_bytes, to_le_bytes. rewrite le_combine_split.
  rewrite Z.mul_comm. apply Z.mod_small. exact Hz.
Qed.

Lemma to_from_le_bytes (n : nat) (l : bytes) :
  length l = n -> to_le_bytes n (from_le_bytes l) = l.
Proof. apply split_le_combine'. Qed.

Lemma from_le_bytes_range (n : nat) (w : Z) (l : bytes) :
  length l = n -> w = 8 * Z.of_nat n -> unsigned w (from_le_bytes l).
Proof. intros <- ->. apply le_combine_bound. Qed.

Lemma b2z_range (b : byte) : u8 (b2z b).
Proof. apply byte.unsigned_range. Qed.

Lemma b2z_z2b (z : Z) : u8 z -> b2z (z2b z) = z.
Proof. intros Hz. rewrite byte.unsigned_of_Z. apply Z.mod_small, Hz. Qed.

Lemma z2b_b2z (b : byte) : z2b (b2z b) = b.
Proof. apply byte.of_Z_unsigned. Qed.

Lemma from_to_le_bytes_signed (n : nat) (w z : Z) :
  (0 < n)%nat -> w = 8 * Z.of_nat n -> signed w z ->
  from_le_bytes_signed (to_le_bytes n z) = z.
Proof.
  intros Hn -> Hz. unfold from_le_bytes_signed. cbv zeta.
  rewrite length_to_le_bytes. unfold to_le_bytes. rewrite le_combine_split.
  rewrite (Z.mul_comm (Z.of_nat n)). set (w := 8 * Z.of_nat n) in *.
  assert (Hw : 2 ^ w = 2 * 2 ^ (w - 1)).
  { rewrite <- Z.pow_succ_r by lia. f_equal. lia. }
  unfold signed in Hz. destruct (Z.ltb_spec z 0) as [Hneg|Hpos].
  - replace (z mod 2 ^ w) with (z + 2 ^ w).
    + case_match; to_prop; lia.
    + apply (Z.mod_unique _ _ (-1)); lia.
  - rewrite Z.mod_small by lia. case_match; to_prop; lia.
Qed.

Lemma to_from_le_bytes_signed (n : nat) (l : bytes) :
  length l = n -> to_le_bytes n (from_le_bytes_signed l) = l.
Proof.
  intros Hl. rewrite <- (to_from_le_bytes n l Hl) at 2.
  unfold to_le_bytes, from_le_bytes_signed, from_le_bytes. cbv zeta. rewrite Hl.
  destruct (_ <? _); [done|].
  rewrite le_split_mod, (Z.mul_comm 8).
  replace (le_combine l - 2 ^ (Z.of_nat n * 8))
    with (le_combine l + (-1) * 2 ^ (Z.of_nat n * 8)) by lia.
  rewrite Z.mod_add by (apply Z.pow_nonzero; lia).
  rewrite <- le_split_mod. done.
Qed.

Lemma from_le_bytes_signed_range (n : nat) (w : Z) (l : bytes) :
  (0 < n)%nat -> length l = n -> w = 8 * Z.of_nat n -> signed w (from_le_bytes_signed l).
Proof.
  intros Hn Hl ->. pose proof (from_le_bytes_range n _ l Hl eq_refl) as Hr.
  unfold from_le_bytes_signed, from_le_bytes, unsigned, signed in *. cbv zeta.
  rewrite Hl. set (w := 8 * Z.of_nat n) in *.
  assert (Hw : 2 ^ w = 2 * 2 ^ (w - 1)).
  { rewrite <- Z.pow_succ_r by lia. f_equal. lia. }
  case_match; to_prop; lia.
Qed.

Lemma take_to_le_bytes (m n : nat) (z : Z) :
  (m <= n)%nat -> firstn m (to_le_bytes n z) = to_le_bytes m z.
Proof.
  revert n z. induction m as [|m IH]; intros [|n] z Hle; try (exfalso; lia); try reflexivity.
  change (z2b z :: firstn m (to_le_bytes n (Z.shiftr z 8))
          = z2b z :: to_le_bytes m (Z.shiftr z 8)).
  f_equal. apply IH. lia.
Qed.

Lemma to_le_bytes_1 (z : Z) : to_le_bytes 1 z = [z2b z].
Proof. reflexivity. Qed.

Lemma from_le_bytes_nil : from_le_bytes [] = 0.
Proof. reflexivity. Qed.

(** A byte and a shifted word have no bit in common. *)
Lemma byte_land_shiftl (b : byte) (z : Z) : Z.land (b2z b) (Z.shiftl z 8) = 0.
Proof.
  apply Z.bits_inj'. intros n Hn. rewrite Z.land_spec, Z.bits_0. destruct (Z.ltb_spec n 8).
  - rewrite Z.shiftl_spec_low by done. apply andb_false_r.
  - apply andb_false_intro1. pose proof (b2z_range b) as Hb. unfold unsigned in Hb.
    destruct (decide (b2z b = 0)) as [->|]; [apply Z.bits_0|].
    apply Z.bits_above_log2; [lia|].
    apply (Z.lt_le_trans _ 8); [|lia]. apply Z.log2_lt_pow2; lia.
Qed.

Lemma from_le_bytes_cons (b : byte) (l : bytes) :
  from_le_bytes (b :: l) = b2z b + 256 * from_le_bytes l.
Proof.
  change (from_le_bytes (b :: l)) with (Z.lor (b2z b) (Z.shiftl (from_le_bytes l) 8)).
  pose proof (byte_land_shiftl b (from_le_bytes l)) as Hland.
  rewrite <- Z.lxor_lor, <- Z.add_nocarry_lxor by done. rewrite Z.shiftl_mul_pow2 by lia.
  change (2 ^ 8) with 256. lia.
Qed.

(** ** Reads *)

Section Reads.
Context {E : Type}.

Lemma slice_Ok (a b : nat) (l : bytes) :
  (a <= b)%nat -> (b <= length l)%nat ->
  slice (E:=E) a b l = Ok (firstn (b - a) (skipn a l)).
Proof.
  intros Ha Hb. unfold slice.
  rewrite (proj2 (Nat.leb_le a b) Ha), (proj2 (Nat.leb_le _ _) Hb). done.
Qed.

Lemma slice_inv (a b : nat) (l s : bytes) :
  slice (E:=E) a b l = Ok s ->
  (a <= b)%nat /\ (b <= length l)%nat /\ s = firstn (b - a) (skipn a l) /\
  length s = (b - a)%nat.
Proof.
  unfold slice. destruct (_ && _)%bool eqn:H; [|done]. intros [= <-].
  apply andb_true_iff in H as [H1%Nat.leb_le H2%Nat.leb_le].
  split_and!; auto. rewrite length_take, length_drop. lia.
Qed.

Lemma slice_skip (a b n : nat) (l k : bytes) `{!KnownLength l n} :
  ((n <=? a) && (a <=? b))%nat = true ->
  slice (E:=E) a b (l ++ k) = slice (a - n) (b - n) k.
Proof.
  intros [Hn%Nat.leb_le Hab%Nat.leb_le]%andb_true_iff.
  pose proof (known_length (l:=l)) as Hl. unfold slice. rewrite length_app, Hl.
  rewrite (proj2 (Nat.leb_le a b) Hab), (proj2 (Nat.leb_le (a - n) (b - n))) by lia.
  cbn [andb]. replace (b - n <=? length k)%nat with (b <=? n + length k)%nat.
  2: { destruct (Nat.leb_spec b (n + length k)), (Nat.leb_spec (b - n) (length k)); auto; lia. }
  destruct (Nat.leb_spec b (n + length k)); [|done].
  rewrite drop_app_ge by lia. rewrite Hl. f_equal. f_equal. lia.
Qed.

Lemma slice_here (n b : nat) (l k : bytes) `{!KnownLength l n} :
  (b =? n)%nat = true -> slice (E:=E) 0 b (l ++ k) = Ok l.
Proof.
  intros ->%Nat.eqb_eq. pose proof (known_length (l:=l)) as Hl.
  rewrite slice_Ok by (rewrite ?length_app; lia). rewrite drop_0, Nat.sub_0_r.
  rewrite <- Hl. by rewrite take_app_length.
Qed.

Lemma slice_whole (n b : nat) (l : bytes) `{!KnownLength l n} :
  (b =? n)%nat = true -> slice (E:=E) 0 b l = Ok l.
Proof.
  intros Hb. pose proof (slice_here n b l [] Hb) as H. by rewrite app_nil_r in H.
Qed.

Lemma slice_from_app (n : nat) (l k : bytes) :
  length l = n -> slice_from (E:=E) n (l ++ k) = Ok k.
Proof.
  intros <-. unfold slice_from. rewrite slice_Ok by (rewrite ?length_app; lia).
  rewrite drop_app_length, length_app. f_equal. apply take_ge. lia.
Qed.

Lemma index_skip (i n : nat) (l k : bytes) `{!KnownLength l n} :
  (n <=? i)%nat = true -> index (E:=E) i (l ++ k) = index (i - n) k.
Proof.
  intros Hn%Nat.leb_le. pose proof (known_length (l:=l)) as Hl. unfold index.
  rewrite lookup_app_r by lia. by rewrite Hl.
Qed.

Lemma index_here (b : byte) (k : bytes) : index (E:=E) 0 (b :: k) = Ok (b2z b).
Proof. reflexivity. Qed.

Lemma index_Ok (i : nat) (l : bytes) :
  (i < length l)%nat -> exists b, l !! i = Some b /\ index (E:=E) i l = Ok (b2z b).
Proof.
  intros Hi. destruct (lookup_lt_is_Some_2 l i Hi) as [b Hb].
  exists b. unfold index. by rewrite Hb.
Qed.

Lemma index_inv (i : nat) (l : bytes) (z : Z) :
  index (E:=E) i l = Ok z -> exists b, l !! i = Some b /\ z = b2z b.
Proof. unfold index. destruct (l !! i); naive_solver. Qed.

(** *** What a successful read says of the bytes *)

Lemma fmap_slice_inv (n a b : nat) (f : bytes -> Z) (l : bytes) (z : Z) :
  b = (a + n)%nat -> f <$> slice (E:=E) a b l = Ok z ->
  exists s, length s = n /\ s = firstn n (skipn a l) /\ z = f s.
Proof.
  intros -> H. destruct (slice a (a + n) l) as [s| |] eqn:Hs; try discriminate H.
  injection H as <-. apply slice_inv in Hs as (_ & _ & Hs & Hl). exists s.
  replace (a + n - a)%nat with n in * by lia. done.
Qed.

Lemma read_u16_inv (l : bytes) (o : nat) (z : Z) :
  read_u16 (E:=E) l o = Ok z -> u16 z /\ to_le_bytes 2 z = firstn 2 (skipn o l).
Proof.
  intros (s & Hl & Hs & ->)%(fmap_slice_inv 2); [|done]. rewrite <- Hs, to_from_le_bytes by done.
  split; [by apply (from_le_bytes_range 2)|done].
Qed.

Lemma read_u32_inv (l : bytes) (o : nat) (z : Z) :
  read_u32 (E:=E) l o = Ok z -> u32 z /\ to_le_bytes 4 z = firstn 4 (skipn o l).
Proof.
  intros (s & Hl & Hs & ->)%(fmap_slice_inv 4); [|done]. rewrite <- Hs, to_from_le_bytes by done.
  split; [by apply (from_le_bytes_range 4)|done].
Qed.

Lemma read_u64_inv (l : bytes) (o : nat) (z : Z) :
  read_u64 (E:=E) l o = Ok z -> u64 z /\ to_le_bytes 8 z = firstn 8 (skipn o l).
Proof.
  intros (s & Hl & Hs & ->)%(fmap_slice_inv 8); [|done]. rewrite <- Hs, to_from_le_bytes by done.
  split; [by apply (from_le_bytes_range 8)|done].
Qed.

Lemma read_i32_inv (l : bytes) (o : nat) (z : Z) :
  read_i32 (E:=E) l o = Ok z -> i32 z /\ to_le_bytes 4 z = firstn 4 (skipn o l).
Proof.
  intros (s & Hl & Hs & ->)%(fmap_slice_inv 4); [|done].
  rewrite <- Hs, to_from_le_bytes_signed by done.
  split; [by apply (from_le_bytes_signed_range 4); [lia| |]|done].
Qed.

Lemma read_i16_inv (l : bytes) (o : nat) (z : Z) :
  read_i16 (E:=E) l o = Ok z -> i16 z /\ to_le_bytes 2 z = firstn 2 (skipn o l).
Proof.
  intros (s & Hl & Hs & ->)%(fmap_slice_inv 2); [|done].
  rewrite <- Hs, to_from_le_bytes_signed by done.
  split; [by apply (from_le_bytes_signed_range 2); [lia| |]|done].
Qed.

Lemma index_u8_inv (i : nat) (l : bytes) (z : Z) :
  index (E:=E) i l = Ok z -> u8 z /\ [z2b z] = firstn 1 (skipn i l).
Proof.
  intros (b & Hb & ->)%index_inv. split; [apply b2z_range|]. rewrite z2b_b2z.
  rewrite (drop_S l b i Hb). done.
Qed.

(** *** No panic when the range is inside the slice *)

Lemma slice_no_panic (a b : nat) (l : bytes) :
  (a <= b)%nat -> (b <= length l)%nat -> no_panic (slice (E:=E) a b l).
Proof. intros. rewrite slice_Ok by done. apply no_panic_Ok. Qed.

Lemma index_no_panic (i : nat) (l : bytes) :
  (i < length l)%nat -> no_panic (index (E:=E) i l).
Proof. intros Hi. destruct (index_Ok i l Hi) as (b & _ & ->). apply no_panic_Ok. Qed.

Lemma read_u16_no_panic (l : bytes) (o : nat) :
  (o + 2 <= length l)%nat -> no_panic (read_u16 (E:=E) l o).
Proof. intros. apply no_panic_fmap, slice_no_panic; lia. Qed.
Lemma read_u32_no_panic (l : bytes) (o : nat) :
  (o + 4 <= length l)%nat -> no_panic (read_u32 (E:=E) l o).
Proof. intros. apply no_panic_fmap, slice_no_panic; lia. Qed.
Lemma read_u64_no_panic (l : bytes) (o : nat) :
  (o + 8 <= length l)%nat -> no_panic (read_u64 (E:=E) l o).
Proof. intros. apply no_panic_fmap, slice_no_panic; lia. Qed.
Lemma read_i32_no_panic (l : bytes) (o : nat) :
  (o + 4 <= length l)%nat -> no_panic (read_i32 (E:=E) l o).
Proof. intros. apply no_panic_fmap, slice_no_panic; lia. Qed.
Lemma read_i16_no_panic (l : bytes) (o : nat) :
  (o + 2 <= length l)%nat -> no_panic (read_i16 (E:=E) l o).
Proof. intros. apply no_panic_fmap, slice_no_panic; lia. Qed.
End Reads.

#[export] Hint Resolve slice_no_panic index_no_panic read_u16_no_panic
  read_u32_no_panic read_u64_no_panic read_i32_no_panic read_i16_no_panic : rust.

(** ** Sequential writes *)

Section Writes.
Context {E : Type}.

Lemma put_next (a b : nat) (src pre rest : bytes) :
  length pre = a -> length src = (b - a)%nat -> (a <= b)%nat ->
  (b <= a + length rest)%nat ->
  put (E:=E) a b src (pre ++ rest) = Ok ((pre ++ src) ++ skipn (b - a) rest).
Proof.
  intros Ha Hs Hab Hb. unfold put.
  rewrite (proj2 (Nat.leb_le a b) Hab). rewrite length_app.
  rewrite (proj2 (Nat.leb_le _ _)) by lia. rewrite (proj2 (Nat.eqb_eq _ _)) by lia.
  cbn [andb]. rewrite take_app_le, take_ge by lia. rewrite drop_app_ge by lia.
  by rewrite Ha, <- app_assoc.
Qed.

Lemma put_first (b : nat) (src rest : bytes) :
  length src = b -> (b <= length rest)%nat ->
  put (E:=E) 0 b src rest = Ok (src ++ skipn b rest).
Proof.
  intros Hs Hb. pose proof (put_next 0 b src [] rest) as H. cbn in H.
  rewrite Nat.sub_0_r in H. apply H; lia.
Qed.

Lemma length_put (a b : nat) (src buffer out : bytes) :
  put (E:=E) a b src buffer = Ok out -> length out = length buffer.
Proof.
  unfold put. destruct (_ && _)%bool eqn:H; [|done]. intros [= <-].
  apply andb_true_iff in H as [[H1 H2]%andb_true_iff H3].
  apply Nat.leb_le in H1, H2. apply Nat.eqb_eq in H3.
  rewrite !length_app, length_take, length_drop. lia.
Qed.
End Writes.

Lemma slice_at {E : Type} (pre mid post : bytes) (a b : nat) :
  length pre = a -> b = (a + length mid)%nat ->
  slice (E:=E) a b (pre ++ mid ++ post) = Ok mid.
Proof.
  intros <- ->. rewrite slice_Ok by (rewrite ?length_app; lia). f_equal.
  rewrite drop_app_length. replace (length pre + length mid - length pre)%nat with (length mid) by lia.
  apply take_app_length.
Qed.

Lemma slice_front {E : Type} (mid post : bytes) (b : nat) :
  b = length mid -> slice (E:=E) 0 b (mid ++ post) = Ok mid.
Proof. intros ->. apply (slice_at []); done. Qed.

Lemma index_at {E : Type} (pre post : bytes) (x : byte) (i : nat) :
  length pre = i -> index (E:=E) i (pre ++ x :: post) = Ok (b2z x).
Proof. intros <-. unfold index. by rewrite list_lookup_middle. Qed.

Lemma put1_at {E : Type} (pre rest : bytes) (x : byte) (v : Z) (n : nat) :
  length pre = n -> put1 (E:=E) n v (pre ++ x :: rest) = Ok (pre ++ z2b v :: rest).
Proof.
  intros <-. unfold put1, put. rewrite length_app. cbn [length].
  rewrite (proj2 (Nat.leb_le (length pre) (S (length pre)))) by lia.
  rewrite (proj2 (Nat.leb_le (S (length pre)) _)) by lia.
  rewrite (proj2 (Nat.eqb_eq 1 _)) by lia. cbn [andb].
  rewrite take_app_length, drop_app_ge by lia.
  replace (S (length pre) - length pre)%nat with 1%nat by lia. done.
Qed.

Lemma with_slice_at {E : Type} (a b : nat) (f : bytes -> outcome E bytes) (pre mid post new : bytes) :
  length pre = a -> length mid = (b - a)%nat -> (a <= b)%nat -> f mid = Ok new ->
  length new = length mid ->
  with_slice a b f (pre ++ mid ++ post) = Ok (pre ++ new ++ post).
Proof.
  intros Ha Hm Hab Hf Hn. unfold with_slice.
  rewrite slice_Ok by (rewrite ?length_app; lia). rewrite drop_app_ge by lia.
  replace (a - length pre)%nat with 0%nat by lia. rewrite drop_0, take_app_le, take_ge by lia.
  cbn [mbind outcome_bind]. rewrite Hf. cbn [mbind outcome_bind].
  rewrite put_next by (rewrite ?length_app; lia). rewrite drop_app_ge by lia.
  replace (b - a - length mid)%nat with 0%nat by lia. by rewrite drop_0, <- app_assoc.
Qed.

(** Side conditions about lengths. *)
Ltac len := autorewrite with len; cbn [length Nat.add Nat.sub] in *; lia.

(** Runs one write of an encoder whose buffer is [written ++ rest]. *)
Ltac put_step :=
  first
    [ rewrite put_first by len
    | rewrite put_next by len ];
  cbn [mbind outcome_bind]; rewrite ?skipn_skipn; cbn [Nat.add Nat.sub].

(** Runs the reads of a decoder over a concatenation of known segments. *)
Ltac read_step :=
  first
    [ rewrite slice_here by (vm_compute; reflexivity)
    | rewrite slice_whole by (vm_compute; reflexivity)
    | rewrite slice_skip by (vm_compute; reflexivity)
    | rewrite index_skip by (vm_compute; reflexivity)
    | rewrite index_here ];
  cbn [Nat.sub fmap outcome_fmap mbind outcome_bind].

(** A list of known length becomes an explicit list of bytes. *)
Ltac explicit_bytes l H :=
  repeat (destruct l as [|? l]; [discriminate H|]; cbn [length] in H; apply Nat.succ_inj in H);
  destruct l; [|discriminate H]; clear H.

(** The codecs' proofs keep integers of the wire folded. *)
#[global] Arguments from_le_bytes : simpl never.
#[global] Arguments from_le_bytes_signed : simpl never.
#[global] Arguments to_le_bytes : simpl never.
#[global] Arguments byte.unsigned : simpl never.
#[global] Arguments byte.of_Z : simpl never.

(** Reserved bytes that are all zero. *)
Lemma zero_bytes (n : nat) (l : bytes) :
  length l = n -> existsb (fun b => negb (b2z b =? 0)) l = false -> l = zeros n.
Proof.
  intros <-. induction l as [|b l IH]; [done|]. cbn [existsb length].
  intros [Hb Hl]%orb_false_iff. rewrite (IH Hl) at 1. unfold zeros. cbn [repeat]. f_equal.
  rewrite <- (z2b_b2z b). by destruct (Z.eqb_spec (b2z b) 0) as [->|].
Qed.
