(* ===== verification/Crc.v ===== *)
(** * CRC-32C (crates/sensor-protocol/src/framing.rs, [crc32c])

    The bit-serial checksum that protects every frame on the wire and every
    record of the capture log, and the error-detection guarantee the two
    formats rely on: two byte strings of equal length that differ only inside
    a window of at most four consecutive bytes never have the same CRC. *)

From S2P Require Import Bytes.
From coqutil Require Import Word.LittleEndianList.

Definition CRC_POLYNOMIAL : Z := 0x82f63b78.

(** One round of the inner loop. *)
Definition crc_round (crc : Z) : Z :=
  let mask := (0 - Z.land crc 1) mod 2 ^ 32 in
  Z.lxor (Z.shiftr crc 1) (Z.land CRC_POLYNOMIAL mask).

(** The body of the outer loop. *)
Definition crc_absorb (crc : Z) (b : byte) : Z :=
  Nat.iter 8 crc_round (Z.lxor crc (b2z b)).

Definition crc32c (l : bytes) : Z :=
  Z.lxor (fold_left crc_absorb l U32_MAX) U32_MAX.

Lemma crc_absorb_eq (s : Z) (b : byte) :
  crc_absorb s b = Nat.iter 8 crc_round (Z.lxor s (b2z b)).
Proof. reflexivity. Qed.


(** ** The register as a linear feedback shift register *)

Lemma u32_lxor (x y : Z) : u32 x -> u32 y -> u32 (Z.lxor x y).
Proof.
  intros Hx Hy. unfold unsigned in *.
  assert (0 <= Z.lxor x y) by (apply Z.lxor_nonneg; lia). split; [done|].
  destruct (decide (Z.lxor x y = 0)) as [->|Hne]; [lia|].
  apply Z.log2_lt_pow2; [lia|].
  eapply Z.le_lt_trans; [apply Z.log2_lxor; lia|].
  apply Z.max_lub_lt.
  - destruct (decide (x = 0)) as [->|]; [cbn; lia|]. apply Z.log2_lt_pow2; lia.
  - destruct (decide (y = 0)) as [->|]; [cbn; lia|]. apply Z.log2_lt_pow2; lia.
Qed.

Lemma crc_round_eq (x : Z) :
  crc_round x = Z.lxor (Z.shiftr x 1) (if Z.odd x then CRC_POLYNOMIAL else 0).
Proof.
  unfold crc_round. f_equal.
  change 1 with (Z.ones 1) at 1. rewrite Z.land_ones by lia.
  change (2 ^ 1) with 2. rewrite Zmod_odd. destruct (Z.odd x); reflexivity.
Qed.

(** From here on rounds and bytes are handled by their equations only. *)
#[global] Opaque crc_round crc_absorb.

Lemma u32_crc_round (x : Z) : u32 x -> u32 (crc_round x).
Proof.
  intros Hx. rewrite crc_round_eq. apply u32_lxor.
  - rewrite Z.shiftr_div_pow2 by lia. unfold unsigned in *.
    change (2 ^ 1) with 2. split; [apply Z.div_pos; lia|]. apply Z.div_lt_upper_bound; lia.
  - destruct (Z.odd x); vm_compute; intuition congruence.
Qed.

Lemma odd_lxor (x y : Z) : Z.odd (Z.lxor x y) = xorb (Z.odd x) (Z.odd y).
Proof. rewrite <- !Z.bit0_odd. apply Z.lxor_spec. Qed.

Lemma crc_round_lxor (x y : Z) :
  crc_round (Z.lxor x y) = Z.lxor (crc_round x) (crc_round y).
Proof.
  rewrite !crc_round_eq, Z.shiftr_lxor, odd_lxor.
  destruct (Z.odd x), (Z.odd y); cbn [xorb]; rewrite ?Z.lxor_0_r; try apply Z.lxor_assoc;
    apply Z.bits_inj'; intros n Hn; rewrite !Z.lxor_spec;
    destruct (Z.testbit _ _), (Z.testbit _ _), (Z.testbit CRC_POLYNOMIAL n); done.
Qed.

Lemma u32_testbit_31_shiftr (x : Z) : u32 x -> Z.testbit (Z.shiftr x 1) 31 = false.
Proof.
  intros Hx. rewrite Z.shiftr_spec by lia. change (31 + 1) with 32.
  destruct (decide (x = 0)) as [->|]; [apply Z.bits_0|].
  apply Z.bits_above_log2; unfold unsigned in *; [lia|]. apply Z.log2_lt_pow2; lia.
Qed.

Lemma crc_round_bit_31 (x : Z) : u32 x -> Z.testbit (crc_round x) 31 = Z.odd x.
Proof.
  intros Hx. rewrite crc_round_eq, Z.lxor_spec, u32_testbit_31_shiftr by done.
  destruct (Z.odd x); reflexivity.
Qed.

Lemma crc_round_inj (x y : Z) : u32 x -> u32 y -> crc_round x = crc_round y -> x = y.
Proof.
  intros Hx Hy Heq.
  assert (Hodd : Z.odd x = Z.odd y).
  { rewrite <- (crc_round_bit_31 x), <- (crc_round_bit_31 y) by done. by rewrite Heq. }
  rewrite !crc_round_eq, Hodd in Heq.
  assert (Hs : Z.shiftr x 1 = Z.shiftr y 1).
  { apply (f_equal (fun z => Z.lxor z (if Z.odd y then CRC_POLYNOMIAL else 0))) in Heq.
    by rewrite !Z.lxor_assoc, !Z.lxor_nilpotent, !Z.lxor_0_r in Heq. }
  rewrite !Z.shiftr_div_pow2 in Hs by lia. change (2 ^ 1) with 2 in Hs.
  rewrite (Z.div_mod x 2), (Z.div_mod y 2) by lia. by rewrite Hs, !Zmod_odd, Hodd.
Qed.

(** *** Several rounds *)

Lemma u32_rounds (n : nat) (x : Z) : u32 x -> u32 (Nat.iter n crc_round x).
Proof. intros Hx. induction n as [|n IH]; [done|]. rewrite Nat.iter_succ. auto using u32_crc_round. Qed.

Lemma rounds_lxor (n : nat) (x y : Z) :
  Nat.iter n crc_round (Z.lxor x y) = Z.lxor (Nat.iter n crc_round x) (Nat.iter n crc_round y).
Proof. induction n as [|n IH]; [done|]. by rewrite !Nat.iter_succ, IH, crc_round_lxor. Qed.

Lemma rounds_inj (n : nat) (x y : Z) :
  u32 x -> u32 y -> Nat.iter n crc_round x = Nat.iter n crc_round y -> x = y.
Proof.
  intros Hx Hy. induction n as [|n IH]; [done|]. rewrite !Nat.iter_succ. intros Heq. apply IH.
  apply crc_round_inj; auto using u32_rounds.
Qed.

(** A register whose low [n] bits are clear is only shifted. *)
Lemma rounds_shiftl (n : nat) (x : Z) :
  Nat.iter n crc_round (Z.shiftl x (Z.of_nat n)) = x.
Proof.
  revert x. induction n as [|n IH]; intros x; [apply Z.shiftl_0_r|].
  rewrite Nat.iter_succ_r, crc_round_eq.
  replace (Z.shiftl x (Z.of_nat (S n))) with (Z.shiftl (Z.shiftl x (Z.of_nat n)) 1).
  2: { rewrite Z.shiftl_shiftl by lia. f_equal. lia. }
  rewrite Z.shiftr_shiftl_l by lia. change (1 - 1) with 0. rewrite Z.shiftl_0_r.
  replace (Z.odd (Z.shiftl (Z.shiftl x (Z.of_nat n)) 1)) with false.
  - rewrite Z.lxor_0_r. apply IH.
  - rewrite <- Z.bit0_odd, Z.shiftl_spec_low by lia. done.
Qed.

(** ** Whole bytes *)

Lemma u32_b2z (b : byte) : u32 (b2z b).
Proof. pose proof (b2z_range b). ilia. Qed.

Lemma u32_crc_absorb (s : Z) (b : byte) : u32 s -> u32 (crc_absorb s b).
Proof. intros Hs. rewrite crc_absorb_eq. apply u32_rounds, u32_lxor; auto using u32_b2z. Qed.

Lemma fold_left_cons {A B : Type} (f : A -> B -> A) (b : B) (l : list B) (s : A) :
  fold_left f (b :: l) s = fold_left f l (f s b).
Proof. reflexivity. Qed.

Lemma u32_crc_fold (l : bytes) (s : Z) : u32 s -> u32 (fold_left crc_absorb l s).
Proof. revert s. induction l as [|b l IH]; intros s Hs; [done|]. rewrite fold_left_cons. auto using u32_crc_absorb. Qed.

Lemma u32_U32_MAX : u32 U32_MAX.
Proof. ilia. Qed.

Lemma crc32c_range (l : bytes) : u32 (crc32c l).
Proof. apply u32_lxor; [apply u32_crc_fold|]; apply u32_U32_MAX. Qed.

Lemma crc_fold_state_inj (l : bytes) (s t : Z) :
  u32 s -> u32 t -> fold_left crc_absorb l s = fold_left crc_absorb l t -> s = t.
Proof.
  revert s t. induction l as [|b l IH]; intros s t Hs Ht; [done|]. rewrite !fold_left_cons. intros Heq.
  apply IH in Heq; auto using u32_crc_absorb. rewrite !crc_absorb_eq in Heq.
  apply rounds_inj in Heq; auto using u32_lxor, u32_b2z.
  apply (f_equal (fun z => Z.lxor z (b2z b))) in Heq.
  by rewrite !Z.lxor_assoc, !Z.lxor_nilpotent, !Z.lxor_0_r in Heq.
Qed.

Lemma le_cons_lxor (b : byte) (w : bytes) :
  le_combine (b :: w) = Z.lxor (b2z b) (Z.shiftl (le_combine w) 8).
Proof.
  change (le_combine (b :: w)) with (Z.lor (b2z b) (Z.shiftl (le_combine w) 8)).
  symmetry. apply Z.lxor_lor, byte_land_shiftl.
Qed.

(** Absorbing a word byte by byte is one injection of the little-endian word
    into the register followed by all the rounds. *)
Lemma crc_fold_word (w : bytes) (s : Z) :
  fold_left crc_absorb w s = Nat.iter (8 * length w) crc_round (Z.lxor s (le_combine w)).
Proof.
  revert s. induction w as [|b w IH]; intros s.
  - cbn. by rewrite Z.lxor_0_r.
  - rewrite fold_left_cons. cbn [length]. rewrite IH, crc_absorb_eq, le_cons_lxor.
    replace (8 * S (length w))%nat with (8 * length w + 8)%nat by lia.
    rewrite Nat.iter_add. f_equal.
    rewrite <- Z.lxor_assoc, (rounds_lxor 8 (Z.lxor s (b2z b))). f_equal. symmetry.
    apply (rounds_shiftl 8).
Qed.

Lemma le_combine_u32 (w : bytes) : (length w <= 4)%nat -> u32 (le_combine w).
Proof.
  intros Hw. pose proof (le_combine_bound w) as Hb. unfold unsigned.
  split; [lia|]. eapply Z.lt_le_trans; [apply Hb|]. apply Z.pow_le_mono_r; lia.
Qed.

(** Every damage confined to at most four consecutive bytes changes the
    register for good. *)
Lemma crc_fold_burst (pre w1 w2 post : bytes) (s : Z) :
  u32 s -> length w1 = length w2 -> (length w1 <= 4)%nat -> w1 <> w2 ->
  fold_left crc_absorb (pre ++ w1 ++ post) s <> fold_left crc_absorb (pre ++ w2 ++ post) s.
Proof.
  intros Hs Hlen H4 Hne Heq. rewrite !fold_left_app in Heq.
  set (t := fold_left crc_absorb pre s) in *.
  assert (Ht : u32 t) by (by apply u32_crc_fold).
  apply crc_fold_state_inj in Heq; [|by apply u32_crc_fold..].
  rewrite !crc_fold_word, <- Hlen in Heq.
  apply rounds_inj in Heq; [|apply u32_lxor; [done|apply le_combine_u32; lia]..].
  apply (f_equal (Z.lxor t)) in Heq.
  rewrite <- !Z.lxor_assoc, !Z.lxor_nilpotent, !Z.lxor_0_l in Heq.
  by apply Hne, le_combine_inj.
Qed.

Lemma crc32c_burst_ne (pre w1 w2 post : bytes) :
  length w1 = length w2 -> (length w1 <= 4)%nat -> w1 <> w2 ->
  crc32c (pre ++ w1 ++ post) <> crc32c (pre ++ w2 ++ post).
Proof.
  intros Hlen H4 Hne Heq. unfold crc32c in Heq.
  apply (crc_fold_burst pre w1 w2 post U32_MAX); auto using u32_U32_MAX.
  apply (f_equal (fun z => Z.lxor z U32_MAX)) in Heq.
  by rewrite !Z.lxor_assoc, !Z.lxor_nilpotent, !Z.lxor_0_r in Heq.
Qed.

(** *** Bursts of bits

    The bits of a byte string in the order in which a serial line sends them,
    the least significant of each byte first, are those of its little-endian
    value. Two strings of one length differ in a burst when their first and last
    differing bits are less than 32 bits apart. *)
Definition bit_burst (l l' : bytes) : Prop :=
  length l = length l' /\
  exists d k, 0 < d < 2 ^ 32 /\ 0 <= k /\ Z.lxor (from_le_bytes l) (from_le_bytes l') = Z.shiftl d k.

Lemma crc_fold_bit_burst (l l' : bytes) (s : Z) :
  bit_burst l l' -> fold_left crc_absorb l s <> fold_left crc_absorb l' s.
Proof.
  unfold bit_burst, from_le_bytes. intros (Hlen & d & k & Hd & Hk & Hx) Heq.
  assert (Hwide : k < 8 * Z.of_nat (length l)).
  { pose proof (le_combine_bound l) as H1. pose proof (le_combine_bound l') as H2. rewrite <- Hlen in H2.
    apply Z.nle_gt. intros Hge.
    assert (Z.testbit (Z.shiftl d k) (k + Z.log2 d) = true) as Hbit.
    { rewrite Z.shiftl_spec by (pose proof (Z.log2_nonneg d); lia).
      replace (k + Z.log2 d - k) with (Z.log2 d) by lia. apply Z.bit_log2. lia. }
    rewrite <- Hx, Z.lxor_spec in Hbit. pose proof (Z.log2_nonneg d) as Hlog.
    assert (Hhigh : forall x, 0 <= x < 2 ^ (8 * Z.of_nat (length l)) -> Z.testbit x (k + Z.log2 d) = false).
    { intros x Hb. destruct (decide (x = 0)) as [->|]; [apply Z.bits_0|]. apply Z.bits_above_log2; [lia|].
      assert (Z.log2 x < 8 * Z.of_nat (length l)) by (apply Z.log2_lt_pow2; [lia|apply Hb]). lia. }
    by rewrite !Hhigh in Hbit. }
  rewrite !crc_fold_word, <- Hlen in Heq.
  assert (Hzero : Nat.iter (8 * length l) crc_round (Z.shiftl d k) = 0).
  { rewrite <- Hx. replace (Z.lxor (le_combine l) (le_combine l')) with
      (Z.lxor (Z.lxor s (le_combine l)) (Z.lxor s (le_combine l'))).
    - by rewrite rounds_lxor, Heq, Z.lxor_nilpotent.
    - apply Z.bits_inj'. intros n _. rewrite !Z.lxor_spec.
      by destruct (Z.testbit s n), (Z.testbit (le_combine l) n), (Z.testbit (le_combine l') n). }
  replace (8 * length l)%nat with ((8 * length l - Z.to_nat k) + Z.to_nat k)%nat in Hzero by lia.
  rewrite Nat.iter_add in Hzero. rewrite <- (Z2Nat.id k) in Hzero at 3 by lia. rewrite rounds_shiftl in Hzero.
  assert (H0 : forall n, Nat.iter n crc_round 0 = 0).
  { intros n. pose proof (rounds_shiftl n 0) as H. by rewrite Z.shiftl_0_l in H. }
  rewrite <- (H0 (8 * length l - Z.to_nat k)%nat) in Hzero.
  apply rounds_inj in Hzero; unfold unsigned in *; lia.
Qed.

(** ** A checksum stored behind its data *)

(** Checksummed data all leave the register in the same state. *)
Lemma crc_residue (l : bytes) :
  fold_left crc_absorb (l ++ to_le_bytes 4 (crc32c l)) U32_MAX = Nat.iter 32 crc_round U32_MAX.
Proof.
  rewrite fold_left_app, crc_fold_word, length_to_le_bytes. change (8 * 4)%nat with 32%nat.
  f_equal. fold (from_le_bytes (to_le_bytes 4 (crc32c l))).
  rewrite (from_to_le_bytes 4 32) by (done || apply crc32c_range). unfold crc32c.
  by rewrite <- Z.lxor_assoc, Z.lxor_nilpotent, Z.lxor_0_l.
Qed.


(** Checksummed data damaged in a burst are not checksummed. *)
Lemma crc_trailer_bit_burst (l l' raw : bytes) :
  bit_burst (l ++ to_le_bytes 4 (crc32c l)) raw -> raw <> l' ++ to_le_bytes 4 (crc32c l').
Proof.
  intros Hb ->. apply (crc_fold_bit_burst _ _ U32_MAX) in Hb. by rewrite !crc_residue in Hb.
Qed.

(** Damage inside a window of four bytes, over the data, the stored checksum or
    both, never yields checksummed data. *)
Lemma crc_trailer_burst (l l' pre w1 w2 post : bytes) :
  l ++ to_le_bytes 4 (crc32c l) = pre ++ w1 ++ post ->
  length w1 = length w2 -> (length w1 <= 4)%nat -> w1 <> w2 ->
  l' ++ to_le_bytes 4 (crc32c l') <> pre ++ w2 ++ post.
Proof.
  intros Hl Hlen H4 Hne Hl'. apply (crc_fold_burst pre w1 w2 post U32_MAX); auto using u32_U32_MAX.
  by rewrite <- Hl, <- Hl', !crc_residue.
Qed.
