(* ===== verification/Core.v ===== *)
(** * The domain core (crates/sensor-core: identity, sample, rate, gap,
      continuity, delivery)

    Newtypes over integers ([BootEpoch], [SampleSequence], [SequenceCursor],
    [SampleAxis], [SampleRate]) are the integers; a [HardwareId] is its eight
    bytes. The delivery cursors of one host session are a state machine whose
    operations return the state with every outcome. *)

From S2P Require Export Bytes.

Abbreviation HardwareId := bytes.
Abbreviation BootEpoch := Z.
Abbreviation SampleSequence := Z.
Abbreviation SequenceCursor := Z.
Abbreviation SampleAxis := Z.
Abbreviation SampleRate := Z.

(** [[u8; 8]]. *)
Definition hardware_id_typed (h : HardwareId) : Prop := length h = 8%nat.

(** ** Sequence positions *)

(** [SampleSequence::checked_add] and [SequenceCursor::checked_advance]. *)
Definition sequence_checked_add (s : SampleSequence) (count : Z) : option SampleSequence :=
  checked_add 64 s count.
Definition checked_advance (c : SequenceCursor) (count : Z) : option SequenceCursor :=
  checked_add 64 c count.

(** ** Sample axes *)

Definition SAMPLE_AXIS_MIN : Z := -8388608.
Definition SAMPLE_AXIS_MAX : Z := 8388607.

Inductive SampleAxisError := OutsideSigned24Bit (value : Z).

Definition sample_axis_new (value : Z) : outcome SampleAxisError SampleAxis :=
  if (value <? SAMPLE_AXIS_MIN) || (SAMPLE_AXIS_MAX <? value)
  then Err (OutsideSigned24Bit value) else Ok value.

Record SampleAxes := mkAxes { ax : SampleAxis; ay : SampleAxis; az : SampleAxis }.

#[export] Instance SampleAxes_eq_dec : EqDecision SampleAxes.
Proof. solve_decision. Defined.

(** An axis only exists through [sample_axis_new]. *)
Definition axis_typed (v : SampleAxis) : Prop := SAMPLE_AXIS_MIN <= v <= SAMPLE_AXIS_MAX.
#[export] Instance SampleAxes_typed : Typed SampleAxes :=
  fun s => axis_typed (ax s) /\ axis_typed (ay s) /\ axis_typed (az s).

(** ** Sample rates, in nanohertz *)

Definition HZ_4000 : SampleRate := 4000000000000.
Definition HZ_2000 : SampleRate := 2000000000000.
Definition HZ_1000 : SampleRate := 1000000000000.
Definition HZ_500 : SampleRate := 500000000000.
Definition HZ_250 : SampleRate := 250000000000.
Definition HZ_125 : SampleRate := 125000000000.
Definition HZ_62_5 : SampleRate := 62500000000.
Definition HZ_31_25 : SampleRate := 31250000000.
Definition HZ_15_625 : SampleRate := 15625000000.
Definition HZ_7_8125 : SampleRate := 7812500000.
Definition HZ_3_90625 : SampleRate := 3906250000.

Inductive SampleRateError := RateZero | RateOverflow | ZeroDivisor | InexactDivision.

#[export] Instance SampleRateError_eq_dec : EqDecision SampleRateError.
Proof. solve_decision. Defined.

Definition from_nanohertz (value : Z) : outcome SampleRateError SampleRate :=
  if value =? 0 then Err RateZero else Ok value.

Definition from_microhertz (value : Z) : outcome SampleRateError SampleRate :=
  match checked_mul 64 value 1000 with
  | Some value => from_nanohertz value
  | None => Err RateOverflow
  end.

Definition from_millihertz (value : Z) : outcome SampleRateError SampleRate :=
  match checked_mul 64 value 1000000 with
  | Some value => from_nanohertz value
  | None => Err RateOverflow
  end.

Definition from_hertz (value : Z) : outcome SampleRateError SampleRate :=
  match checked_mul 64 value 1000000000 with
  | Some value => from_nanohertz value
  | None => Err RateOverflow
  end.

Definition exact_period_nanoseconds (rate : SampleRate) : option Z :=
  if 1000000000000000000 mod rate =? 0 then Some (1000000000000000000 / rate) else None.

Definition divided_by (rate : SampleRate) (divisor : Z) : outcome SampleRateError SampleRate :=
  if divisor =? 0 then Err ZeroDivisor
  else if negb (rate mod divisor =? 0) then Err InexactDivision
  else from_nanohertz (rate / divisor).

(** ** Gaps *)

Inductive GapReason := UnknownDiscontinuity | SourceLoss | IngressOverflow | JournalOverflow.

#[export] Instance GapReason_eq_dec : EqDecision GapReason.
Proof. solve_decision. Defined.

Record Gap := mkGap {
  gap_hardware_id : HardwareId;
  gap_boot_epoch : BootEpoch;
  first_missing : SampleSequence;
  missing_count : Z;
  gap_reason : GapReason
}.

#[export] Instance Gap_eq_dec : EqDecision Gap.
Proof. solve_decision. Defined.

Inductive GapError := GapEmpty | GapSequenceOverflow.

Definition gap_new (hardware_id : HardwareId) (boot_epoch : BootEpoch)
    (first count : Z) (reason : GapReason) : outcome GapError Gap :=
  if count =? 0 then Err GapEmpty
  else match sequence_checked_add first count with
  | None => Err GapSequenceOverflow
  | Some _ => Ok (mkGap hardware_id boot_epoch first count reason)
  end.

(** [self.missing_count - 1] and the [expect] both panic off the contract. *)
Definition last_missing (g : Gap) : outcome GapError SampleSequence :=
  n ← sub (missing_count g) 1; expect (sequence_checked_add (first_missing g) n).

#[export] Instance Gap_typed : Typed Gap := fun g =>
  hardware_id_typed (gap_hardware_id g) /\ u64 (gap_boot_epoch g) /\
  u64 (first_missing g) /\ u64 (missing_count g).

(** What [gap_new] establishes. *)
Definition gap_valid (g : Gap) : Prop :=
  typed g /\ missing_count g <> 0 /\ u64 (first_missing g + missing_count g).

(** ** Continuity breaks *)

Inductive ContinuityBreakReason :=
| BreakUnknown | SensorOverflow | SensorReadUncertain | InvalidTiming | ProcessingReset.

#[export] Instance ContinuityBreakReason_eq_dec : EqDecision ContinuityBreakReason.
Proof. solve_decision. Defined.

Record ContinuityBreak := mkBreak {
  break_hardware_id : HardwareId;
  break_boot_epoch : BootEpoch;
  break_at : SequenceCursor;
  break_reason : ContinuityBreakReason
}.

#[export] Instance ContinuityBreak_eq_dec : EqDecision ContinuityBreak.
Proof. solve_decision. Defined.

Inductive ContinuityBreakError := BreakSequenceOverflow.

Definition continuity_break_new (hardware_id : HardwareId) (boot_epoch : BootEpoch)
    (at_ : SequenceCursor) (reason : ContinuityBreakReason)
    : outcome ContinuityBreakError ContinuityBreak :=
  match checked_advance at_ 1 with
  | None => Err BreakSequenceOverflow
  | Some _ => Ok (mkBreak hardware_id boot_epoch at_ reason)
  end.

Definition break_end {E : Type} (b : ContinuityBreak) : outcome E SequenceCursor :=
  expect (checked_advance (break_at b) 1).

#[export] Instance ContinuityBreak_typed : Typed ContinuityBreak := fun b =>
  hardware_id_typed (break_hardware_id b) /\ u64 (break_boot_epoch b) /\ u64 (break_at b).

(** What [continuity_break_new] establishes. *)
Definition break_valid (b : ContinuityBreak) : Prop := typed b /\ u64 (break_at b + 1).

(** ** Delivery cursors *)

Record DeliveryCursors := mkCursors {
  received : SequenceCursor;
  durable : SequenceCursor;
  released : SequenceCursor
}.

#[export] Instance DeliveryCursors_eq_dec : EqDecision DeliveryCursors.
Proof. solve_decision. Defined.

Inductive CursorError :=
| EmptyChunk
| EmptyGap
| NonContiguous (expected received : SampleSequence)
| SequenceOverflow
| DurableRegression
| DurableAheadOfReceived
| ReleasedRegression
| ReleasedAheadOfDurable.

#[export] Instance CursorError_eq_dec : EqDecision CursorError.
Proof. solve_decision. Defined.

Definition cursors_empty : DeliveryCursors := mkCursors 0 0 0.

Definition cursors_new (received durable released : SequenceCursor)
    : outcome CursorError DeliveryCursors :=
  if received <? durable then Err DurableAheadOfReceived
  else if durable <? released then Err ReleasedAheadOfDurable
  else Ok (mkCursors received durable released).

Definition set_received (c : SequenceCursor) (self : DeliveryCursors) : DeliveryCursors :=
  mkCursors c (durable self) (released self).

Definition accept_contiguous (first count : Z) : st DeliveryCursors CursorError SequenceCursor :=
  fun self =>
    if count =? 0 then (Err EmptyChunk, self)
    else if negb (first =? received self) then (Err (NonContiguous (received self) first), self)
    else match checked_advance (received self) count with
    | None => (Err SequenceOverflow, self)
    | Some c => (Ok c, set_received c self)
    end.

Definition account_gap (first count : Z) : st DeliveryCursors CursorError SequenceCursor :=
  fun self =>
    if count =? 0 then (Err EmptyGap, self)
    else if negb (first =? received self) then (Err (NonContiguous (received self) first), self)
    else match checked_advance (received self) count with
    | None => (Err SequenceOverflow, self)
    | Some c => (Ok c, set_received c self)
    end.

Definition account_continuity_break (at_ : SequenceCursor)
    : st DeliveryCursors CursorError SequenceCursor :=
  fun self =>
    if negb (at_ =? received self) then (Err (NonContiguous (received self) at_), self)
    else match checked_advance (received self) 1 with
    | None => (Err SequenceOverflow, self)
    | Some c => (Ok c, set_received c self)
    end.

Definition mark_durable (cursor : SequenceCursor) : st DeliveryCursors CursorError unit :=
  fun self =>
    if cursor <? durable self then (Err DurableRegression, self)
    else if received self <? cursor then (Err DurableAheadOfReceived, self)
    else (Ok tt, mkCursors (received self) cursor (released self)).

Definition mark_released (cursor : SequenceCursor) : st DeliveryCursors CursorError unit :=
  fun self =>
    if cursor <? released self then (Err ReleasedRegression, self)
    else if durable self <? cursor then (Err ReleasedAheadOfDurable, self)
    else (Ok tt, mkCursors (received self) (durable self) cursor).

(** ** Properties of the core *)

(** The product invariant [released <= durable <= received], within [u64]. *)
Definition cursors_wf (c : DeliveryCursors) : Prop :=
  0 <= released c <= durable c /\ durable c <= received c < 2 ^ 64.

(** One call on the cursors of a session. *)
Inductive CursorOp :=
| OpAccept (first count : Z)
| OpGap (first count : Z)
| OpBreak (at_ : SequenceCursor)
| OpDurable (cursor : SequenceCursor)
| OpReleased (cursor : SequenceCursor).

(** The integer arguments of a call have their Rust types. *)
#[export] Instance CursorOp_typed : Typed CursorOp := fun op =>
  match op with
  | OpAccept f n => u64 f /\ u16 n
  | OpGap f n => u64 f /\ u64 n
  | OpBreak c | OpDurable c | OpReleased c => u64 c
  end.

(** The call, with the range [(first, count)] it accounted for, if any. *)
Definition cursor_step (op : CursorOp) (c : DeliveryCursors) : list (Z * Z) * DeliveryCursors :=
  match op with
  | OpAccept f n =>
      let '(r, c') := accept_contiguous f n c in
      (match r with Ok _ => [(f, n)] | _ => [] end, c')
  | OpGap f n =>
      let '(r, c') := account_gap f n c in
      (match r with Ok _ => [(f, n)] | _ => [] end, c')
  | OpBreak f =>
      let '(r, c') := account_continuity_break f c in
      (match r with Ok _ => [(f, 1)] | _ => [] end, c')
  | OpDurable d => ([], snd (mark_durable d c))
  | OpReleased d => ([], snd (mark_released d c))
  end.

Fixpoint cursor_run (ops : list CursorOp) (c : DeliveryCursors)
    : list (Z * Z) * DeliveryCursors :=
  match ops with
  | [] => ([], c)
  | op :: ops =>
      let '(r, c1) := cursor_step op c in
      let '(rs, c2) := cursor_run ops c1 in
      (r ++ rs, c2)
  end.

(** The ranges follow each other from [a] to [b] with no hole and no overlap. *)
Fixpoint tiles (a : Z) (ranges : list (Z * Z)) (b : Z) : Prop :=
  match ranges with
  | [] => a = b
  | (f, n) :: rest => f = a /\ 0 < n /\ tiles (a + n) rest b
  end.

Lemma tiles_app (a b c : Z) (r s : list (Z * Z)) :
  tiles a r b -> tiles b s c -> tiles a (r ++ s) c.
Proof.
  revert a. induction r as [|[f n] r IH]; intros a; cbn; [by intros ->|].
  intros (-> & Hn & Hr) Hs. auto.
Qed.

Lemma cursor_step_sound (op : CursorOp) (c c' : DeliveryCursors) (r : list (Z * Z)) :
  typed op -> cursors_wf c -> cursor_step op c = (r, c') ->
  cursors_wf c' /\ tiles (received c) r (received c') /\
  received c <= received c' /\ durable c <= durable c' /\ released c <= released c'.
Proof.
  intros Ht Hc Hs. unfold cursors_wf in *.
  destruct op; cbn in Ht; unfold cursor_step, accept_contiguous, account_gap,
    account_continuity_break, mark_durable, mark_released, checked_advance, checked_add in Hs;
    repeat (split_guard_in Hs; cbn in Hs); injection Hs as <- <-; to_prop; cbn;
    unfold_ints; repeat split; try (subst; lia); naive_solver lia.
Qed.

(** A break, gap or chunk that was validated has an end inside [u64]. *)
Lemma break_end_valid {E : Type} (b : ContinuityBreak) :
  break_valid b -> break_end (E:=E) b = Ok (break_at b + 1).
Proof.
  intros (Ht & Hb). unfold break_end, checked_advance.
  rewrite checked_add_ok by ilia. done.
Qed.

Lemma gap_new_Ok (h : HardwareId) (e f n : Z) (r : GapReason) (g : Gap) :
  gap_new h e f n r = Ok g <-> g = mkGap h e f n r /\ n <> 0 /\ f + n < 2 ^ 64.
Proof.
  unfold gap_new, sequence_checked_add, checked_add.
  destruct (Z.eqb_spec n 0), (Z.ltb_spec (f + n) (2 ^ 64)); naive_solver lia.
Qed.

Lemma continuity_break_new_Ok (h : HardwareId) (e a : Z) (r : ContinuityBreakReason) b :
  continuity_break_new h e a r = Ok b <-> b = mkBreak h e a r /\ a + 1 < 2 ^ 64.
Proof.
  unfold continuity_break_new, checked_advance, checked_add.
  destruct (Z.ltb_spec (a + 1) (2 ^ 64)); naive_solver lia.
Qed.

Lemma gap_new_intro (h : HardwareId) (e f n : Z) (r : GapReason) :
  n <> 0 -> f + n < 2 ^ 64 -> gap_new h e f n r = Ok (mkGap h e f n r).
Proof. intros. by apply gap_new_Ok. Qed.

Lemma continuity_break_new_intro (h : HardwareId) (e a : Z) (r : ContinuityBreakReason) :
  a + 1 < 2 ^ 64 -> continuity_break_new h e a r = Ok (mkBreak h e a r).
Proof. intros. by apply continuity_break_new_Ok. Qed.

(** [Gap::new] validates the range that [last_missing] computes. *)
Lemma last_missing_valid (g : Gap) :
  gap_valid g -> last_missing g = Ok (first_missing g + missing_count g - 1).
Proof.
  intros ((_ & _ & Hf & Hn) & Hne & Hs). unfold last_missing, sequence_checked_add.
  rewrite sub_ok by ilia. cbn [mbind outcome_bind].
  rewrite checked_add_ok by ilia. cbn [expect]. f_equal. lia.
Qed.

(** Exact division is multiplication read backwards. *)
Lemma divided_by_Ok (rate divisor r : Z) :
  0 <= rate -> 0 <= divisor ->
  divided_by rate divisor = Ok r <-> 0 < divisor /\ 0 < r /\ rate = r * divisor.
Proof.
  intros Hr Hd. unfold divided_by, from_nanohertz.
  destruct (Z.eqb_spec divisor 0); [naive_solver lia|].
  destruct (Z.eqb_spec (rate mod divisor) 0) as [Hm|Hm]; cbn [negb].
  - assert (He : rate = rate / divisor * divisor) by (pose proof (Z.div_mod rate divisor); lia).
    assert (0 <= rate / divisor) by (apply Z.div_pos; lia).
    destruct (Z.eqb_spec (rate / divisor) 0).
    + split; [done|]. intros (_ & Hp & ->). rewrite Z.div_mul in * by lia. lia.
    + split; [intros [= <-]; lia|]. intros (_ & Hp & ->). by rewrite Z.div_mul by lia.
  - split; [done|]. intros (_ & _ & ->). by rewrite Z.mod_mul in Hm by lia.
Qed.

(** C27. Delivery accounting: over every sequence of cursor calls, in any
    order and with any arguments of their Rust types, the cursors keep
    [released <= durable <= received] inside [u64], none of them ever moves
    backwards, and the ranges accepted as samples, gaps or breaks tile the
    stream from the initial to the final [received] cursor with no hole and no
    overlap. *)
Theorem delivery_cursors_accounted (ops : list CursorOp) (c : DeliveryCursors) :
  Forall typed ops -> cursors_wf c ->
  let '(ranges, c') := cursor_run ops c in
  cursors_wf c' /\ tiles (received c) ranges (received c') /\
  durable c <= durable c' /\ released c <= released c'.
Proof.
  intros Ht. revert c. induction Ht as [|op ops Hop _ IH]; intros c Hc; cbn [cursor_run].
  { repeat split; auto; try lia; apply Hc. }
  destruct (cursor_step op c) as [r c1] eqn:Hs.
  destruct (cursor_step_sound op c c1 r Hop Hc Hs) as (Hc1 & Ht1 & _ & Hd1 & Hr1).
  specialize (IH c1 Hc1). destruct (cursor_run ops c1) as [rs c2].
  destruct IH as (Hc2 & Ht2 & Hd2 & Hr2). split_and!; eauto using tiles_app; lia.
Qed.

Lemma delivery_cursors_accounted_witness :
  let ops := [OpAccept 0 32; OpDurable 32; OpGap 32 3; OpReleased 40; OpReleased 32; OpBreak 35] in
  cursor_run ops cursors_empty = ([(0, 32); (32, 3); (35, 1)], mkCursors 36 32 32) /\
  cursors_wf (mkCursors 36 32 32).
Proof.
  set (ops := [OpAccept 0 32; OpDurable 32; OpGap 32 3; OpReleased 40; OpReleased 32; OpBreak 35]).
  assert (H : let '(ranges, c') := cursor_run ops cursors_empty in
              cursors_wf c' /\ tiles 0 ranges (received c') /\
              0 <= durable c' /\ 0 <= released c').
  { apply (delivery_cursors_accounted ops cursors_empty).
    - repeat constructor; cbn; ilia.
    - unfold cursors_wf; cbn; lia. }
  split; [reflexivity|apply H].
Defined.
