(* ===== verification/ClockModel.v ===== *)
(** * The node clock model (crates/sensor-core/src/time.rs)

    Four-timestamp observations, their midpoints and uncertainty, and the
    bounded two-anchor model that maps node time to host time. [u64]
    subtractions are unchecked in the source ([sub]); the products are taken
    in [u128] and [i128] with checked multiplication. *)

From S2P Require Import Core.

Record ClockObservation := mkObservation {
  obs_boot_epoch : BootEpoch;
  host_send_us : Z;
  node_receive_us : Z;
  node_send_us : Z;
  host_receive_us : Z
}.

Inductive ClockObservationError :=
| ObsZeroBootEpoch | HostClockRegressed | NodeClockRegressed | ProcessingExceedsRoundTrip.

Definition clock_observation_new (boot_epoch host_send node_receive node_send host_receive : Z)
    : outcome ClockObservationError ClockObservation :=
  if boot_epoch =? 0 then Err ObsZeroBootEpoch
  else if host_receive <? host_send then Err HostClockRegressed
  else if node_send <? node_receive then Err NodeClockRegressed
  else
    let host_elapsed := host_receive - host_send in
    let node_processing := node_send - node_receive in
    if host_elapsed <? node_processing then Err ProcessingExceedsRoundTrip
    else Ok (mkObservation boot_epoch host_send node_receive node_send host_receive).

(** The errors of the model's operations. *)
Inductive ClockModelError :=
| InvalidPolicy
| ZeroBootEpoch
| BootEpochMismatch
| ObservationTooUncertain
| NonMonotonicObservation
| DriftOutOfRange
| ModelNotLocked
| HoldoverExpired
| ArithmeticOverflow.

#[export] Instance ClockModelError_eq_dec : EqDecision ClockModelError.
Proof. solve_decision. Defined.

Abbreviation clock := (outcome ClockModelError).

Definition midpoint (first second : Z) : clock Z :=
  d ← sub second first; add 64 first (d / 2).

Definition host_midpoint_us (o : ClockObservation) : clock Z :=
  midpoint (host_send_us o) (host_receive_us o).

Definition node_midpoint_us (o : ClockObservation) : clock Z :=
  midpoint (node_receive_us o) (node_send_us o).

Definition path_delay_us (o : ClockObservation) : clock Z :=
  h ← sub (host_receive_us o) (host_send_us o);
  n ← sub (node_send_us o) (node_receive_us o);
  sub h n.

Definition uncertainty_us (o : ClockObservation) : clock Z :=
  d ← path_delay_us o; mret (div_ceil d 2).

Record ClockModelPolicy := mkPolicy {
  max_observation_uncertainty_us : Z;
  minimum_anchor_separation_us : Z;
  maximum_drift_ppm : Z;
  maximum_holdover_us : Z
}.

Definition policy_validate (p : ClockModelPolicy) : clock ClockModelPolicy :=
  if (max_observation_uncertainty_us p =? 0) || (minimum_anchor_separation_us p =? 0)
     || (maximum_drift_ppm p =? 0) || (maximum_holdover_us p =? 0)
  then Err InvalidPolicy else Ok p.

Record ClockAnchor := mkAnchor {
  anchor_node_us : Z;
  anchor_host_us : Z;
  anchor_uncertainty_us : Z
}.

(** [impl From<ClockObservation> for ClockAnchor]. *)
Definition anchor_from (o : ClockObservation) : clock ClockAnchor :=
  n ← node_midpoint_us o;
  h ← host_midpoint_us o;
  u ← uncertainty_us o;
  mret (mkAnchor n h u).

Inductive ClockModelState := Acquiring | Locked | Holdover.

#[export] Instance ClockModelState_eq_dec : EqDecision ClockModelState.
Proof. solve_decision. Defined.

Record ClockEstimate := mkEstimate {
  host_monotonic_us : Z;
  est_uncertainty_us : Z;
  est_state : ClockModelState
}.

Record ClockModel := mkModel {
  model_boot_epoch : BootEpoch;
  policy : ClockModelPolicy;
  first_anchor : option ClockAnchor;
  second_anchor : option ClockAnchor
}.

Definition clock_model_new (boot_epoch : BootEpoch) (p : ClockModelPolicy) : clock ClockModel :=
  if boot_epoch =? 0 then Err ZeroBootEpoch
  else p' ← policy_validate p; mret (mkModel boot_epoch p' None None).

Definition model_state (m : ClockModel) : ClockModelState :=
  if is_some (second_anchor m) then Locked else Acquiring.

Definition mul_div_ceil (value multiplier divisor : Z) : clock Z :=
  product ← ok_or (checked_mul 128 value multiplier) ArithmeticOverflow;
  let rounded := div_ceil product divisor in
  if decide (u64 rounded) then Ok rounded else Err ArithmeticOverflow.

Definition validate_drift (first second : ClockAnchor) (maximum_drift_ppm : Z) : clock unit :=
  node_delta ← sub (anchor_node_us second) (anchor_node_us first);
  host_delta ← sub (anchor_host_us second) (anchor_host_us first);
  let difference := abs_diff node_delta host_delta in
  allowed ← mul_div_ceil node_delta maximum_drift_ppm 1000000;
  if allowed <? difference then Err DriftOutOfRange else Ok tt.

(** The [/] of [i128] truncates towards zero and panics on a zero divisor. *)
Definition interpolate (first second : ClockAnchor) (node_us : Z) : clock Z :=
  node_delta ← sub (anchor_node_us second) (anchor_node_us first);
  host_delta ← sub (anchor_host_us second) (anchor_host_us first);
  let relative := node_us - anchor_node_us first in
  product ← ok_or (checked_signed 128 (relative * host_delta)) ArithmeticOverflow;
  mapped_delta ← (if node_delta =? 0 then Panic else Ok (Z.quot product node_delta));
  mapped ← ok_or (checked_signed 128 (anchor_host_us first + mapped_delta)) ArithmeticOverflow;
  if decide (u64 mapped) then Ok mapped else Err ArithmeticOverflow.

Definition set_anchors (first second : option ClockAnchor) (m : ClockModel) : ClockModel :=
  mkModel (model_boot_epoch m) (policy m) first second.

Definition observe (observation : ClockObservation) : st ClockModel ClockModelError unit :=
  fun self =>
    if negb (obs_boot_epoch observation =? model_boot_epoch self)
    then (Err BootEpochMismatch, self)
    else match anchor_from observation with
    | Panic => (Panic, self)
    | Err e => (Err e, self)
    | Ok candidate =>
      if max_observation_uncertainty_us (policy self) <? anchor_uncertainty_us candidate
      then (Err ObservationTooUncertain, self)
      else match first_anchor self with
      | None => (Ok tt, set_anchors (Some candidate) (second_anchor self) self)
      | Some first =>
        let latest := default first (second_anchor self) in
        if (anchor_node_us candidate <=? anchor_node_us latest)
           || (anchor_host_us candidate <=? anchor_host_us latest)
        then (Err NonMonotonicObservation, self)
        else if (negb (is_some (second_anchor self)))
           && (anchor_node_us candidate - anchor_node_us first
                 <? minimum_anchor_separation_us (policy self))
        then
          if anchor_uncertainty_us candidate <? anchor_uncertainty_us first
          then (Ok tt, set_anchors (Some candidate) (second_anchor self) self)
          else (Ok tt, self)
        else
          let baseline := default first (second_anchor self) in
          match validate_drift baseline candidate (maximum_drift_ppm (policy self)) with
          | Panic => (Panic, self)
          | Err e => (Err e, self)
          | Ok _ => (Ok tt, set_anchors (Some baseline) (Some candidate) self)
          end
      end
    end.

Definition estimate (self : ClockModel) (node_us : Z) : clock ClockEstimate :=
  match first_anchor self, second_anchor self with
  | Some first, Some second =>
    let outside_us :=
      if node_us <? anchor_node_us first then anchor_node_us first - node_us
      else saturating_sub node_us (anchor_node_us second) in
    if maximum_holdover_us (policy self) <? outside_us then Err HoldoverExpired
    else
      host ← interpolate first second node_us;
      drift_growth ← mul_div_ceil outside_us (maximum_drift_ppm (policy self)) 1000000;
      uncertainty ← ok_or (checked_add 64
        (Z.max (anchor_uncertainty_us first) (anchor_uncertainty_us second)) drift_growth)
        ArithmeticOverflow;
      mret (mkEstimate host uncertainty (if outside_us =? 0 then Locked else Holdover))
  | _, _ => Err ModelNotLocked
  end.

(** ** Well-formedness *)

#[export] Instance ClockObservation_typed : Typed ClockObservation := fun o =>
  u64 (obs_boot_epoch o) /\ u64 (host_send_us o) /\ u64 (node_receive_us o) /\
  u64 (node_send_us o) /\ u64 (host_receive_us o).

(** What [clock_observation_new] establishes. *)
Definition observation_valid (o : ClockObservation) : Prop :=
  typed o /\ host_send_us o <= host_receive_us o /\ node_receive_us o <= node_send_us o /\
  node_send_us o - node_receive_us o <= host_receive_us o - host_send_us o.

#[export] Instance ClockModelPolicy_typed : Typed ClockModelPolicy := fun p =>
  u64 (max_observation_uncertainty_us p) /\ u64 (minimum_anchor_separation_us p) /\
  u32 (maximum_drift_ppm p) /\ u64 (maximum_holdover_us p).

#[export] Instance ClockAnchor_typed : Typed ClockAnchor := fun a =>
  u64 (anchor_node_us a) /\ u64 (anchor_host_us a) /\ u64 (anchor_uncertainty_us a).

(** The second anchor is later than the first on both clocks, and the two
    clocks agree over that baseline within the drift the policy allows. *)
Definition anchors_ok (p : ClockModelPolicy) (first second : ClockAnchor) : Prop :=
  anchor_node_us first < anchor_node_us second /\
  anchor_host_us first < anchor_host_us second /\
  Z.abs ((anchor_node_us second - anchor_node_us first)
         - (anchor_host_us second - anchor_host_us first))
  <= div_ceil ((anchor_node_us second - anchor_node_us first) * maximum_drift_ppm p) 1000000.

Definition model_wf (m : ClockModel) : Prop :=
  typed (policy m) /\
  match first_anchor m, second_anchor m with
  | None, None => True
  | Some a, None => typed a /\ anchor_uncertainty_us a <= max_observation_uncertainty_us (policy m)
  | Some a, Some b =>
      typed a /\ typed b /\ anchors_ok (policy m) a b /\
      anchor_uncertainty_us a <= max_observation_uncertainty_us (policy m) /\
      anchor_uncertainty_us b <= max_observation_uncertainty_us (policy m)
  | None, Some _ => False
  end.

(** ** Lemmas *)

Lemma midpoint_ok (a b : Z) : u64 a -> u64 b -> a <= b -> midpoint a b = Ok (a + (b - a) / 2).
Proof.
  intros Ha Hb Hab. unfold midpoint. rewrite sub_ok by done. cbn [mbind outcome_bind].
  rewrite add_ok; [done|]. dlia.
Qed.

Lemma div_ceil_bounds (a b : Z) : 0 <= a -> 0 < b -> 0 <= div_ceil a b <= a.
Proof.
  intros Ha Hb. unfold div_ceil. split; [apply Z.div_pos; lia|].
  apply Z.lt_succ_r, Z.div_lt_upper_bound; nia.
Qed.

Lemma anchor_from_ok (o : ClockObservation) :
  observation_valid o ->
  exists a, anchor_from o = Ok a /\ typed a /\
    node_receive_us o <= anchor_node_us a <= node_send_us o /\
    host_send_us o <= anchor_host_us a <= host_receive_us o.
Proof.
  intros ((He & Hs & Hr & Hn & Hh) & H1 & H2 & H3).
  unfold anchor_from, node_midpoint_us, host_midpoint_us, uncertainty_us, path_delay_us.
  rewrite !midpoint_ok by done. cbn [mbind outcome_bind].
  rewrite !sub_ok by done. cbn [mbind outcome_bind]. rewrite sub_ok by done.
  cbn [mbind outcome_bind mret outcome_ret]. eexists. split; [reflexivity|].
  pose proof (div_ceil_bounds
    (host_receive_us o - host_send_us o - (node_send_us o - node_receive_us o)) 2) as Hd.
  unfold typed, ClockAnchor_typed, unsigned in *. cbn. repeat split; dlia.
Qed.

Lemma mul_div_ceil_Ok (v m d r : Z) :
  mul_div_ceil v m d = Ok r -> r = div_ceil (v * m) d /\ u64 r.
Proof.
  unfold mul_div_ceil. destruct (checked_mul 128 v m) as [p|] eqn:Hp; cbn; [|done].
  apply checked_mul_Some in Hp as [-> _]. case_decide; [|done]. naive_solver.
Qed.

Lemma mul_div_ceil_no_panic (v m d : Z) : no_panic (mul_div_ceil v m d).
Proof.
  unfold mul_div_ceil. apply no_panic_bind; [apply no_panic_ok_or|].
  intros p _. case_decide; auto with rust.
Qed.

Lemma validate_drift_ok (p : ClockModelPolicy) (a b : ClockAnchor) :
  anchor_node_us a <= anchor_node_us b -> anchor_host_us a <= anchor_host_us b ->
  validate_drift a b (maximum_drift_ppm p) = Ok tt ->
  Z.abs ((anchor_node_us b - anchor_node_us a) - (anchor_host_us b - anchor_host_us a))
  <= div_ceil ((anchor_node_us b - anchor_node_us a) * maximum_drift_ppm p) 1000000.
Proof.
  intros Hn Hh. unfold validate_drift. rewrite !sub_ok by done. cbn [mbind outcome_bind].
  destruct (mul_div_ceil _ _ _) as [r| |] eqn:Hm; cbn; try done.
  apply mul_div_ceil_Ok in Hm as [-> _]. case_match; [done|]. to_prop.
  unfold abs_diff in *. done.
Qed.

Lemma validate_drift_no_panic (a b : ClockAnchor) (d : Z) :
  anchor_node_us a <= anchor_node_us b -> anchor_host_us a <= anchor_host_us b ->
  no_panic (validate_drift a b d).
Proof.
  intros Hn Hh. unfold validate_drift. rewrite !sub_ok by done. cbn [mbind outcome_bind].
  apply no_panic_bind; [apply mul_div_ceil_no_panic|]. intros r _. case_match; auto with rust.
Qed.

(** *** Observing *)

Lemma observe_sound (o : ClockObservation) (m m' : ClockModel) r :
  model_wf m -> observation_valid o -> observe o m = (r, m') ->
  no_panic r /\ model_wf m' /\ policy m' = policy m /\
  model_boot_epoch m' = model_boot_epoch m /\ (r <> Ok tt -> m' = m).
Proof.
  intros Hwf Ho Hr. unfold observe in Hr.
  destruct (anchor_from_ok o Ho) as (a & Ha & Hta & _). rewrite Ha in Hr.
  destruct (negb (obs_boot_epoch o =? model_boot_epoch m)); [by injection Hr as <- <-|].
  destruct (max_observation_uncertainty_us (policy m) <? anchor_uncertainty_us a) eqn:Hu;
    [by injection Hr as <- <-|]. to_prop.
  destruct m as [e p f s]. destruct Hwf as (Hp & Hwf). cbn in *.
  destruct f as [f|]; [|destruct s; [done|]; injection Hr as <- <-; by split_and!].
  destruct ((_ <=? _) || _) eqn:Hm; [by injection Hr as <- <-|]. to_prop.
  destruct (negb _ && _) eqn:Hsep.
  { destruct s as [s|]; [done|]. split_guard_in Hr; injection Hr as <- <-; by split_and!. }
  set (base := default f s) in *.
  assert (Hb : typed base /\ anchor_uncertainty_us base <= max_observation_uncertainty_us p).
  { unfold base. destruct s; cbn; tauto. }
  pose proof (validate_drift_no_panic base a (maximum_drift_ppm p)
    ltac:(lia) ltac:(lia)) as Hnp.
  destruct (validate_drift base a (maximum_drift_ppm p)) as [[]|er|] eqn:Hv; [| |done];
    injection Hr as <- <-; split_and!; try done.
  split; [done|]. cbn [policy first_anchor second_anchor set_anchors].
  split_and!; try tauto. unfold anchors_ok.
  pose proof (validate_drift_ok p base a ltac:(lia) ltac:(lia) Hv). lia.
Qed.

(** The observations of one session, in order; a rejected one is skipped. *)
Definition observe_all (os : list ClockObservation) (m : ClockModel) : ClockModel :=
  fold_left (fun m o => snd (observe o m)) os m.

Lemma observe_all_wf (os : list ClockObservation) (m : ClockModel) :
  Forall observation_valid os -> model_wf m -> model_wf (observe_all os m).
Proof.
  intros Hos. revert m. induction Hos as [|o os Ho _ IH]; intros m Hm; [done|].
  apply IH. destruct (observe o m) as [r m'] eqn:Hr. by eapply observe_sound.
Qed.

(** *** Estimating *)

Lemma interpolate_Ok (a b : ClockAnchor) (n h : Z) :
  anchor_node_us a < anchor_node_us b -> anchor_host_us a < anchor_host_us b ->
  interpolate a b n = Ok h ->
  h = anchor_host_us a + Z.quot ((n - anchor_node_us a) * (anchor_host_us b - anchor_host_us a))
                                (anchor_node_us b - anchor_node_us a).
Proof.
  intros Hn Hh. unfold interpolate. rewrite !sub_ok by lia. cbn [mbind outcome_bind].
  destruct (checked_signed 128 (_ * _)) as [p|] eqn:Hp; cbn; [|done].
  apply checked_signed_Some in Hp as [-> _].
  destruct (Z.eqb_spec (anchor_node_us b - anchor_node_us a) 0); [lia|]. cbn.
  destruct (checked_signed 128 _) as [q|] eqn:Hq; cbn; [|done].
  apply checked_signed_Some in Hq as [-> _]. case_decide; [|done]. by intros [= <-].
Qed.

Lemma interpolate_no_panic (a b : ClockAnchor) (n : Z) :
  anchor_node_us a < anchor_node_us b -> anchor_host_us a < anchor_host_us b ->
  no_panic (interpolate a b n).
Proof.
  intros Hn Hh. unfold interpolate. rewrite !sub_ok by lia. cbn [mbind outcome_bind].
  apply no_panic_bind; [apply no_panic_ok_or|]. intros p _.
  destruct (Z.eqb_spec (anchor_node_us b - anchor_node_us a) 0); [lia|]. cbn.
  apply no_panic_bind; [apply no_panic_ok_or|]. intros q _. case_decide; auto with rust.
Qed.

(** How far a node time lies outside the anchors, in the node's microseconds. *)
Definition holdover_age (a b : ClockAnchor) (n : Z) : Z :=
  Z.max 0 (Z.max (anchor_node_us a - n) (n - anchor_node_us b)).

(** The uncertainty of the worse anchor, grown by the allowed drift over the holdover, rounded up. *)
Definition stated_uncertainty (p : ClockModelPolicy) (a b : ClockAnchor) (n : Z) : Z :=
  Z.max (anchor_uncertainty_us a) (anchor_uncertainty_us b) +
  div_ceil (holdover_age a b n * maximum_drift_ppm p) 1000000.

Lemma estimate_age (m : ClockModel) (a b : ClockAnchor) (n : Z) :
  first_anchor m = Some a -> second_anchor m = Some b -> anchor_node_us a < anchor_node_us b ->
  estimate m n =
    (if maximum_holdover_us (policy m) <? holdover_age a b n then Err HoldoverExpired
     else host ← interpolate a b n;
       drift_growth ← mul_div_ceil (holdover_age a b n) (maximum_drift_ppm (policy m)) 1000000;
       uncertainty ← ok_or (checked_add 64
         (Z.max (anchor_uncertainty_us a) (anchor_uncertainty_us b)) drift_growth)
         ArithmeticOverflow;
       mret (mkEstimate host uncertainty (if holdover_age a b n =? 0 then Locked else Holdover))).
Proof.
  intros Ha Hb Hab. unfold estimate. rewrite Ha, Hb.
  replace (if n <? anchor_node_us a then _ else _) with (holdover_age a b n); [done|].
  unfold holdover_age, saturating_sub. destruct (Z.ltb_spec n (anchor_node_us a)); lia.
Qed.

Lemma estimate_Ok (m : ClockModel) (n : Z) (e : ClockEstimate) :
  model_wf m -> estimate m n = Ok e ->
  exists a b, first_anchor m = Some a /\ second_anchor m = Some b /\
    typed a /\ typed b /\ anchors_ok (policy m) a b /\
    host_monotonic_us e = anchor_host_us a +
      Z.quot ((n - anchor_node_us a) * (anchor_host_us b - anchor_host_us a))
             (anchor_node_us b - anchor_node_us a) /\
    est_uncertainty_us e = stated_uncertainty (policy m) a b n /\
    holdover_age a b n <= maximum_holdover_us (policy m) /\
    (est_state e = Locked <-> anchor_node_us a <= n <= anchor_node_us b).
Proof.
  intros (Hp & Hwf) He.
  destruct (first_anchor m) as [a|] eqn:Hfa, (second_anchor m) as [b|] eqn:Hfb;
    try (by unfold estimate in He; rewrite Hfa, ?Hfb in He).
  destruct Hwf as (Ha & Hb & Hok & _). pose proof Hok as (Hn & Hh & _).
  rewrite (estimate_age m a b n Hfa Hfb Hn) in He.
  destruct (Z.ltb_spec (maximum_holdover_us (policy m)) (holdover_age a b n)) as [|Hage]; [done|].
  destruct (interpolate a b n) as [h| |] eqn:Hi; cbn in He; try done.
  destruct (mul_div_ceil _ _ _) as [g| |] eqn:Hg; cbn in He; try done.
  destruct (checked_add 64 _ g) as [u|] eqn:Hc; cbn in He; [|done].
  injection He as <-. cbn [host_monotonic_us est_uncertainty_us est_state].
  exists a, b. split_and!; try done.
  - by apply interpolate_Ok.
  - apply checked_add_Some in Hc as [-> _]. by apply mul_div_ceil_Ok in Hg as [-> _].
  - clear - Hn. destruct (Z.eqb_spec (holdover_age a b n) 0); unfold holdover_age in *;
      split; intros; (done || lia).
Qed.

Lemma quot_mul_between (r h n : Z) : 0 < n -> 0 < h -> 0 <= r <= n -> 0 <= Z.quot (r * h) n <= h.
Proof.
  intros Hn Hh Hr. rewrite Z.quot_div_nonneg by nia. split; [apply Z.div_pos; nia|].
  apply Z.div_le_upper_bound; nia.
Qed.

(** Rounding down never leaves the drift allowance. *)
Lemma quot_drift (r h n d : Z) :
  0 < n -> 0 < h -> 0 <= r <= n -> Z.abs (n - h) <= d -> Z.abs (Z.quot (r * h) n - r) <= d.
Proof.
  intros Hn Hh Hr Hd. rewrite Z.quot_div_nonneg by nia.
  pose proof (Z.div_mod (r * h) n ltac:(lia)). pose proof (Z.mod_pos_bound (r * h) n Hn).
  set (q := r * h / n) in *. assert (Heq : n * (q - r) = r * (h - n) - (r * h) mod n) by lia.
  apply Z.abs_le. assert (- (n * d) <= r * (h - n) <= n * d) by nia. split; nia.
Qed.

(** C31. The clock model never panics, never changes on a rejected observation,
    and stays well formed over every sequence of valid observations: the
    second anchor is later than the first on both clocks and the measured
    drift between them is within the policy's bound. *)
Theorem clock_observations_sound (p : ClockModelPolicy) (epoch : Z) (m0 : ClockModel)
    (os : list ClockObservation) (o : ClockObservation) :
  typed p -> clock_model_new epoch p = Ok m0 -> Forall observation_valid os ->
  observation_valid o ->
  let m := observe_all os m0 in
  model_wf m /\
  let '(r, m') := observe o m in
  no_panic r /\ model_wf m' /\ policy m' = policy m /\
  model_boot_epoch m' = model_boot_epoch m /\ (r <> Ok tt -> m' = m).
Proof.
  intros Hp H0 Hos Ho m. assert (Hm : model_wf m).
  { apply observe_all_wf; [done|]. unfold clock_model_new, policy_validate in H0.
    destruct (epoch =? 0); [done|]. destruct (_ || _); [done|]. injection H0 as <-. done. }
  split; [done|]. destruct (observe o m) as [r m'] eqn:Hr. by eapply observe_sound.
Qed.

(** C32. Host-time estimates of a locked model are sound: no node time makes
    [estimate] panic; the estimate lies on the line through the two anchors,
    rounded towards the first, in holdover as well, so the anchors are mapped
    exactly; between them the
    estimate lies between the anchors' host times and deviates from the node's
    own elapsed time by no more than the drift the policy allows; the estimate
    never decreases as node time grows (holdover included). The reported
    uncertainty is the larger of the anchors' uncertainties, plus the drift the
    policy allows over the time the node time lies outside the anchors, rounded
    up to a microsecond; outside for longer than the holdover limit there is no
    estimate. *)
Theorem clock_estimates_sound (m : ClockModel) (n1 n2 : Z) (e1 e2 : ClockEstimate) :
  model_wf m -> n1 <= n2 -> estimate m n1 = Ok e1 -> estimate m n2 = Ok e2 ->
  (forall n, no_panic (estimate m n)) /\
  host_monotonic_us e1 <= host_monotonic_us e2 /\
  exists a b, first_anchor m = Some a /\ second_anchor m = Some b /\
    est_uncertainty_us e1 = stated_uncertainty (policy m) a b n1 /\
    host_monotonic_us e1 = anchor_host_us a +
      Z.quot ((n1 - anchor_node_us a) * (anchor_host_us b - anchor_host_us a))
             (anchor_node_us b - anchor_node_us a) /\
    (forall n, maximum_holdover_us (policy m) < holdover_age a b n -> estimate m n = Err HoldoverExpired) /\
    (n1 = anchor_node_us a -> host_monotonic_us e1 = anchor_host_us a) /\
    (n1 = anchor_node_us b -> host_monotonic_us e1 = anchor_host_us b) /\
    (est_state e1 = Locked <-> anchor_node_us a <= n1 <= anchor_node_us b) /\
    (est_state e1 = Locked ->
       anchor_host_us a <= host_monotonic_us e1 <= anchor_host_us b /\
       Z.abs (host_monotonic_us e1 - (anchor_host_us a + (n1 - anchor_node_us a)))
       <= div_ceil ((anchor_node_us b - anchor_node_us a)
                    * maximum_drift_ppm (policy m)) 1000000).
Proof.
  intros Hwf Hle He1 He2.
  destruct (estimate_Ok m n1 e1 Hwf He1) as (a & b & Ha & Hb & _ & _ & Hok & H1 & Hu & _ & Hst).
  destruct (estimate_Ok m n2 e2 Hwf He2) as (a' & b' & Ha' & Hb' & _ & _ & _ & H2 & _).
  rewrite Ha in Ha'. rewrite Hb in Hb'. injection Ha' as <-. injection Hb' as <-.
  pose proof Hok as (Hn & Hh & Hd). set (nd := anchor_node_us b - anchor_node_us a) in *.
  set (hd := anchor_host_us b - anchor_host_us a) in *. split_and!.
  - intros n. unfold estimate. rewrite Ha, Hb. case_match; [auto with rust|].
    apply no_panic_bind; [by apply interpolate_no_panic|]. intros h _.
    apply no_panic_bind; [apply mul_div_ceil_no_panic|]. intros g _.
    apply no_panic_bind; [apply no_panic_ok_or|]. intros u _. apply no_panic_Ok.
  - rewrite H1, H2. apply Z.add_le_mono_l, Z.quot_le_mono; [lia|]. nia.
  - exists a, b. split_and!; try done.
    + intros n Hage. rewrite (estimate_age m a b n Ha Hb) by lia.
      by rewrite (proj2 (Z.ltb_lt _ _) Hage).
    + intros ->. rewrite H1, Z.sub_diag, Z.mul_0_l, Z.quot_0_l; lia.
    + intros ->. rewrite H1. fold nd. rewrite Z.mul_comm, Z.quot_mul; lia.
    + intros Hl%Hst. rewrite H1.
      pose proof (quot_mul_between (n1 - anchor_node_us a) hd nd
        ltac:(lia) ltac:(lia) ltac:(lia)).
      pose proof (quot_drift (n1 - anchor_node_us a) hd nd _ ltac:(lia) ltac:(lia) ltac:(lia) Hd).
      subst nd hd. lia.
Qed.

(** *** The two theorems on a model locked by two real observations *)

Definition sample_policy : ClockModelPolicy := mkPolicy 100 1000000 100 60000000.
Definition sample_observation (node host delay : Z) : ClockObservation :=
  mkObservation 7 (host - delay / 2) node node (host + delay - delay / 2).
Definition sample_observations : list ClockObservation :=
  [sample_observation 1000000 5000000 20; sample_observation 2000000 6000050 10].
Definition sample_model : ClockModel := observe_all sample_observations (mkModel 7 sample_policy None None).

Lemma sample_observations_valid : Forall observation_valid sample_observations.
Proof. repeat constructor; vm_compute; intuition congruence. Qed.

Lemma clock_observations_sound_witness :
  clock_model_new 7 sample_policy = Ok (mkModel 7 sample_policy None None) /\
  model_state sample_model = Locked /\ model_wf sample_model.
Proof.
  split; [reflexivity|]. split; [reflexivity|].
  refine (proj1 (clock_observations_sound sample_policy 7 (mkModel 7 sample_policy None None)
    sample_observations (sample_observation 3000000 7000000 10) _ _ _ _)).
  - vm_compute; intuition congruence.
  - reflexivity.
  - apply sample_observations_valid.
  - vm_compute; intuition congruence.
Defined.

Lemma clock_estimates_sound_witness :
  estimate sample_model 1500000 = Ok (mkEstimate 5500025 10 Locked) /\
  estimate sample_model 2500000 = Ok (mkEstimate 6500075 60 Holdover) /\ 5500025 <= 6500075.
Proof.
  split; [reflexivity|]. split; [reflexivity|].
  refine (proj1 (proj2 (clock_estimates_sound sample_model 1500000 2500000
    (mkEstimate 5500025 10 Locked) (mkEstimate 6500075 60 Holdover) _ _ _ _))).
  - vm_compute; intuition congruence.
  - lia.
  - reflexivity.
  - reflexivity.
Defined.
