(* ===== verification/Framing.v ===== *)
(** * Framing v3 (crates/sensor-protocol/src/framing.rs)

    COBS-delimited, CRC-protected frames of at most 512 payload bytes and the
    incremental stream decoder. Buffers are arrays with Rust's indexing; the
    two COBS loops keep the source's read and write indices and are related
    to a recursive specification [cobs]. *)

From S2P Require Import Core.
From S2P Require Export Crc.

Definition FRAMING_VERSION : Z := 3.
Definition HOST_ADDRESS : Z := 0.
Definition COMMISSIONING_ADDRESS : Z := 254.
Definition BROADCAST_ADDRESS : Z := 255.
Definition HEADER_BYTES : nat := 10.
Definition CRC_BYTES : nat := 4.
Definition MAX_PAYLOAD_BYTES : nat := 512.
Definition MAX_RAW_FRAME_BYTES : nat := HEADER_BYTES + MAX_PAYLOAD_BYTES + CRC_BYTES.
Definition MAX_COBS_BODY_BYTES : nat :=
  MAX_RAW_FRAME_BYTES + Z.to_nat (div_ceil (Z.of_nat MAX_RAW_FRAME_BYTES) 254).
Definition MAX_WIRE_FRAME_BYTES : nat := MAX_COBS_BODY_BYTES + 1.

Inductive FrameRole := Request | Response.

#[export] Instance FrameRole_eq_dec : EqDecision FrameRole.
Proof. solve_decision. Defined.

Inductive FrameError :=
| PayloadTooLarge
| EncodedFrameTooLarge
| MalformedCobs
| FrameTooShort
| UnsupportedVersion (version : Z)
| InvalidRole (role : Z)
| InvalidRoute
| CrcMismatch.

#[export] Instance FrameError_eq_dec : EqDecision FrameError.
Proof. solve_decision. Defined.

Abbreviation framing := (outcome FrameError).

(** [self.role as u8] and [FrameRole::from_wire]. *)
Definition role_to_wire (role : FrameRole) : Z :=
  match role with Request => 1 | Response => 2 end.

Definition role_from_wire (value : Z) : framing FrameRole :=
  match value with
  | 1 => Ok Request
  | 2 => Ok Response
  | _ => Err (InvalidRole value)
  end.

(** [payload] is the fixed array, [payload_len] its used prefix. *)
Record Frame := mkFrame {
  frame_role : FrameRole;
  destination : Z;
  source : Z;
  service : Z;
  message : Z;
  transaction_id : Z;
  frame_payload_buffer : bytes;
  payload_len : nat
}.

#[export] Instance Frame_eq_dec : EqDecision Frame.
Proof. solve_decision. Defined.

Definition validate_route (role : FrameRole) (destination source : Z) : framing unit :=
  let valid :=
    match role with
    | Request => (source =? HOST_ADDRESS) && negb (destination =? HOST_ADDRESS)
    | Response => (destination =? HOST_ADDRESS) && negb (source =? HOST_ADDRESS)
                  && negb (source =? BROADCAST_ADDRESS)
    end in
  if valid then Ok tt else Err InvalidRoute.

Definition frame_new (role : FrameRole) (destination source service message transaction_id : Z)
    (payload : bytes) : framing Frame :=
  _ ← validate_route role destination source;
  if (MAX_PAYLOAD_BYTES <? length payload)%nat then Err PayloadTooLarge
  else
    owned_payload ← put 0 (length payload) payload (zeros MAX_PAYLOAD_BYTES);
    Ok (mkFrame role destination source service message transaction_id owned_payload
          (length payload)).

(** [Frame::payload]. *)
Definition frame_payload (f : Frame) : framing bytes :=
  slice 0 (payload_len f) (frame_payload_buffer f).

(** ** COBS *)

(** The loop of [cobs_encode]: [code] counts the current block plus one, and
    [code_index] is where it will be written. *)
Fixpoint cobs_encode_loop (input output : bytes) (code_index write_index : nat) (code : Z)
    : framing (nat * bytes) :=
  match input with
  | [] => output ← put1 code_index code output; Ok (write_index, output)
  | byte :: input =>
      if b2z byte =? 0 then
        output ← put1 code_index code output;
        cobs_encode_loop input output write_index (write_index + 1) 1
      else
        output ← put1 write_index (b2z byte) output;
        code ← add 8 code 1;
        if code =? 0xff then
          output ← put1 code_index code output;
          cobs_encode_loop input output (write_index + 1) (write_index + 2) 1
        else cobs_encode_loop input output code_index (write_index + 1) code
  end.

Definition cobs_encode (input output : bytes) : framing (nat * bytes) :=
  cobs_encode_loop input output 0 1 1.

(** The loop of [cobs_decode]; each turn consumes its code byte, so the length
    of the input bounds the turns ([fuel]; running out counts as a panic). *)
Fixpoint cobs_decode_loop (fuel : nat) (input output : bytes) (read_index write_index : nat)
    : framing (nat * bytes) :=
  if (length input <=? read_index)%nat then Ok (write_index, output)
  else match fuel with
  | O => Panic
  | S fuel =>
      code ← index read_index input;
      if code =? 0 then Err MalformedCobs
      else
        let read_index := (read_index + 1)%nat in
        let count := (Z.to_nat code - 1)%nat in
        if ((length input <? read_index + count) || (length output <? write_index + count))%nat
        then Err MalformedCobs
        else
          block ← slice read_index (read_index + count) input;
          output ← put write_index (write_index + count) block output;
          let read_index := (read_index + count)%nat in
          let write_index := (write_index + count)%nat in
          if negb (code =? 0xff) && (read_index <? length input)%nat then
            if (write_index =? length output)%nat then Err MalformedCobs
            else
              output ← put1 write_index 0 output;
              cobs_decode_loop fuel input output read_index (write_index + 1)
          else cobs_decode_loop fuel input output read_index write_index
  end.

Definition cobs_decode (input output : bytes) : framing (nat * bytes) :=
  cobs_decode_loop (length input) input output 0 0.

(** ** Encoding and decoding one frame *)

(** [Frame::encode]: the number of bytes written and the output array. *)
Definition frame_encode (f : Frame) (output : bytes) : framing (nat * bytes) :=
  raw ← put1 0 FRAMING_VERSION (zeros MAX_RAW_FRAME_BYTES);
  raw ← put1 1 (role_to_wire (frame_role f)) raw;
  raw ← put1 2 (destination f) raw;
  raw ← put1 3 (source f) raw;
  raw ← put1 4 (service f) raw;
  raw ← put1 5 (message f) raw;
  raw ← put 6 10 (to_le_bytes 4 (transaction_id f)) raw;
  payload ← frame_payload f;
  raw ← put HEADER_BYTES (HEADER_BYTES + payload_len f) payload raw;
  let crc_offset := (HEADER_BYTES + payload_len f)%nat in
  covered ← slice 0 crc_offset raw;
  raw ← put crc_offset (crc_offset + CRC_BYTES) (to_le_bytes 4 (crc32c covered)) raw;
  body ← slice 0 (crc_offset + CRC_BYTES) raw;
  '(encoded_len, output) ← cobs_encode body output;
  output ← put1 encoded_len 0 output;
  Ok ((encoded_len + 1)%nat, output).

Definition decode_body (encoded : bytes) : framing Frame :=
  '(raw_len, raw) ← cobs_decode encoded (zeros MAX_RAW_FRAME_BYTES);
  if (raw_len <? HEADER_BYTES + CRC_BYTES)%nat then Err FrameTooShort
  else
    version ← index 0 raw;
    if negb (version =? FRAMING_VERSION) then Err (UnsupportedVersion version)
    else
      r1 ← index 1 raw; role ← role_from_wire r1;
      r2 ← index 2 raw; r3 ← index 3 raw;
      _ ← validate_route role r2 r3;
      let crc_offset := (raw_len - CRC_BYTES)%nat in
      crc_bytes ← slice crc_offset raw_len raw;
      covered ← slice 0 crc_offset raw;
      if negb (crc32c covered =? from_le_bytes crc_bytes) then Err CrcMismatch
      else
        tid ← slice 6 10 raw;
        r4 ← index 4 raw; r5 ← index 5 raw;
        payload ← slice HEADER_BYTES crc_offset raw;
        frame_new role r2 r3 r4 r5 (from_le_bytes tid) payload.

(** ** The stream decoder *)

Record StreamDecoder := mkDecoder {
  encoded : bytes;
  encoded_len : nat;
  discarding : bool
}.

Definition decoder_new : StreamDecoder := mkDecoder (zeros MAX_COBS_BODY_BYTES) 0 false.

(** [StreamDecoder::push]: [Some event] when the byte completed a candidate. *)
Definition push (b : byte) (d : StreamDecoder)
    : framing (option (framing Frame)) * StreamDecoder :=
  if negb (b2z b =? 0) then
    if discarding d then (Ok None, d)
    else if (encoded_len d =? length (encoded d))%nat then
      (Ok None, mkDecoder (encoded d) 0 true)
    else match put1 (encoded_len d) (b2z b) (encoded d) with
    | Ok buffer => (Ok None, mkDecoder buffer (encoded_len d + 1) (discarding d))
    | Err e => (Err e, d)
    | Panic => (Panic, d)
    end
  else if discarding d then
    (Ok (Some (Err EncodedFrameTooLarge)), mkDecoder (encoded d) (encoded_len d) false)
  else if (encoded_len d =? 0)%nat then (Ok None, d)
  else match slice 0 (encoded_len d) (encoded d) with
  | Ok body =>
      match decode_body body with
      | Panic => (Panic, d)
      | result => (Ok (Some result), mkDecoder (encoded d) 0 (discarding d))
      end
  | Err e => (Err e, d)
  | Panic => (Panic, d)
  end.

Definition discard_partial (d : StreamDecoder) : StreamDecoder :=
  mkDecoder (encoded d) 0 false.

(** Feeds a byte string; the events in order, or [None] after a panic. *)
Fixpoint push_all (l : bytes) (d : StreamDecoder) : option (list (framing Frame) * StreamDecoder) :=
  match l with
  | [] => Some ([], d)
  | b :: l =>
      match push b d with
      | (Ok event, d) =>
          '(events, d) ← push_all l d;
          Some (match event with Some e => e :: events | None => events end, d)
      | _ => None
      end
  end.

(** ** The COBS specification *)

(** [blk] holds the non-zero bytes of the block in progress. *)
Fixpoint cobs (blk input : bytes) : bytes :=
  match input with
  | [] => z2b (Z.of_nat (length blk) + 1) :: blk
  | b :: input =>
      if b2z b =? 0 then (z2b (Z.of_nat (length blk) + 1) :: blk) ++ cobs [] input
      else if (length blk =? 253)%nat then (z2b 255 :: blk ++ [b]) ++ cobs [] input
      else cobs (blk ++ [b]) input
  end.

(** A byte that may appear between two frame delimiters. *)
Definition visible (b : byte) : Prop := b2z b <> 0.

Lemma cobs_length_ge (blk input : bytes) :
  (length blk < 254)%nat -> (length blk + length input < length (cobs blk input))%nat.
Proof.
  revert blk. induction input as [|b input IH]; intros blk Hb; cbn [cobs length]; [lia|].
  destruct (_ =? 0); [|destruct (Nat.eqb_spec (length blk) 253)].
  - cbn [app length]. rewrite length_app. specialize (IH []). cbn [length] in IH. lia.
  - cbn [app length]. rewrite !length_app. specialize (IH []). cbn [length] in *. lia.
  - specialize (IH (blk ++ [b])). rewrite length_app in IH. cbn [length] in IH. lia.
Qed.

Lemma cobs_length_le (blk input : bytes) :
  (length blk < 254)%nat ->
  254 * Z.of_nat (length (cobs blk input)) <= 255 * (Z.of_nat (length blk) + Z.of_nat (length input)) + 254.
Proof.
  revert blk. induction input as [|b input IH]; intros blk Hb; cbn [cobs length]; [lia|].
  destruct (_ =? 0); [|destruct (Nat.eqb_spec (length blk) 253)].
  - cbn [app length]. rewrite length_app. specialize (IH []). cbn [length] in IH. lia.
  - cbn [app length]. rewrite !length_app. specialize (IH []). cbn [length] in *. lia.
  - specialize (IH (blk ++ [b])). rewrite length_app in IH. cbn [length] in IH. lia.
Qed.

Lemma visible_code (n : nat) : (n < 254)%nat -> visible (z2b (Z.of_nat n + 1)).
Proof. intros. unfold visible. rewrite b2z_z2b by ilia. lia. Qed.

Lemma cobs_visible (blk input : bytes) :
  (length blk < 254)%nat -> Forall visible blk -> Forall visible (cobs blk input).
Proof.
  revert blk. induction input as [|b input IH]; intros blk Hb Hv; cbn [cobs].
  - constructor; auto using visible_code.
  - destruct (Z.eqb_spec (b2z b) 0); [|destruct (Nat.eqb_spec (length blk) 253)].
    + constructor; [by apply visible_code|]. apply Forall_app; split; [done|].
      apply IH; cbn; auto with lia.
    + constructor; [done|]. repeat (apply Forall_app; split); auto.
      apply IH; cbn; auto with lia.
    + apply IH; [rewrite length_app; cbn; lia|]. apply Forall_app; split; auto.
Qed.

Lemma cobs_encode_loop_spec (input done rest blk : bytes) (x : byte) :
  (length blk < 254)%nat ->
  (length (cobs blk input) <= 1 + length blk + length rest)%nat ->
  cobs_encode_loop input (done ++ x :: blk ++ rest) (length done)
      (length done + 1 + length blk) (Z.of_nat (length blk) + 1) =
    Ok ((length done + length (cobs blk input))%nat,
        done ++ cobs blk input ++ skipn (length (cobs blk input) - 1 - length blk) rest).
Proof.
  revert done rest blk x. induction input as [|b input IH]; intros done rest blk x Hb Hfit;
    cbn [cobs_encode_loop cobs] in *.
  - rewrite put1_at by done. cbn [mbind outcome_bind length app]. f_equal. f_equal; [lia|].
    do 3 f_equal. by replace (S (length blk) - 1 - length blk)%nat with 0%nat by lia.
  - destruct (Z.eqb_spec (b2z b) 0); [|destruct (Nat.eqb_spec (length blk) 253) as [H253|H253]].
    + rewrite put1_at by done. cbn [mbind outcome_bind].
      cbn [app length] in Hfit |- *. rewrite length_app in Hfit |- *.
      pose proof (cobs_length_ge [] input ltac:(cbn; lia)).
      destruct rest as [|y rest]; [cbn [length] in *; lia|].
      specialize (IH (done ++ z2b (Z.of_nat (length blk) + 1) :: blk) rest [] y).
      rewrite !length_app in IH. cbn [length app] in IH.
      change (Z.of_nat 0 + 1) with 1 in IH.
      rewrite <- !app_assoc in IH. cbn [app] in IH.
      replace (length done + S (length blk) + 1 + 0)%nat
        with (length done + 1 + length blk + 1)%nat in IH by lia.
      replace (length done + S (length blk))%nat with (length done + 1 + length blk)%nat in IH by lia.
      rewrite IH by (cbn [length] in *; lia). f_equal. f_equal; [lia|].
      rewrite <- !app_assoc. do 4 f_equal.
      replace (S (length blk + length (cobs [] input)) - 1 - length blk)%nat
        with (S (length (cobs [] input) - 1 - 0)) by lia. done.
    + cbn [app length] in Hfit. rewrite !length_app in Hfit. cbn [length] in Hfit.
      pose proof (cobs_length_ge [] input ltac:(cbn; lia)).
      destruct rest as [|y [|z rest]]; [cbn [length] in *; lia..|].
      replace (done ++ x :: blk ++ y :: z :: rest) with ((done ++ x :: blk) ++ y :: z :: rest)
        by (by rewrite <- app_assoc).
      rewrite put1_at by (rewrite length_app; cbn; lia). cbn [mbind outcome_bind].
      rewrite add_ok by lia. cbn [mbind outcome_bind]. rewrite z2b_b2z.
      rewrite (proj2 (Z.eqb_eq _ _)) by lia. rewrite <- app_assoc. cbn [app].
      rewrite put1_at by done. cbn [mbind outcome_bind].
      specialize (IH (done ++ z2b 255 :: blk ++ [b]) rest [] z).
      rewrite !length_app in IH. cbn [length app] in IH. rewrite !length_app in IH.
      cbn [length] in IH. change (Z.of_nat 0 + 1) with 1 in IH.
      replace (length done + S (length blk + 1) + 1 + 0)%nat
        with (length done + 1 + length blk + 2)%nat in IH by lia.
      replace (length done + S (length blk + 1))%nat
        with (length done + 1 + length blk + 1)%nat in IH by lia.
      rewrite <- !app_assoc in IH. cbn [app] in IH. rewrite <- !app_assoc in IH. cbn [app] in IH.
      replace (Z.of_nat (length blk) + 1 + 1) with 255 by lia.
      rewrite IH by (cbn [length] in *; lia). cbn [app length].
      rewrite !length_app. cbn [length]. f_equal. f_equal; [lia|].
      rewrite <- ?app_assoc. cbn [app]. rewrite <- ?app_assoc. cbn [app]. do 5 f_equal.
      match goal with |- context [skipn ?n (y :: z :: rest)] =>
        replace n with (S (S (length (cobs [] input) - 1 - 0))) by lia end. done.
    + pose proof (cobs_length_ge (blk ++ [b]) input) as Hge. rewrite length_app in Hge.
      cbn [length] in Hge. specialize (Hge ltac:(lia)).
      destruct rest as [|y rest]; [cbn [length] in *; lia|].
      replace (done ++ x :: blk ++ y :: rest) with ((done ++ x :: blk) ++ y :: rest)
        by (by rewrite <- app_assoc).
      rewrite put1_at by (rewrite length_app; cbn; lia). cbn [mbind outcome_bind].
      rewrite add_ok by lia. cbn [mbind outcome_bind]. rewrite z2b_b2z.
      rewrite (proj2 (Z.eqb_neq _ _)) by lia.
      specialize (IH done rest (blk ++ [b]) x). rewrite !length_app in IH. cbn [length] in IH.
      rewrite <- !app_assoc in IH |- *. cbn [app] in IH |- *.
      replace (length done + 1 + length blk + 1)%nat
        with (length done + 1 + (length blk + 1))%nat by lia.
      replace (Z.of_nat (length blk) + 1 + 1) with (Z.of_nat (length blk + 1) + 1) by lia.
      rewrite IH by (cbn [length] in *; lia). f_equal. f_equal. do 2 f_equal.
      match goal with |- _ = skipn ?n (y :: rest) =>
        replace n with (S (length (cobs (blk ++ [b]) input) - 1 - (length blk + 1))) by lia end.
      done.
Qed.

(** [cobs_encode] writes the specification at the front of its buffer. *)
Lemma cobs_encode_spec (input output : bytes) :
  (length (cobs [] input) <= length output)%nat ->
  cobs_encode input output =
    Ok (length (cobs [] input), cobs [] input ++ skipn (length (cobs [] input)) output).
Proof.
  intros Hfit. pose proof (cobs_length_ge [] input ltac:(cbn; lia)).
  destruct output as [|x rest]; [cbn in *; lia|]. unfold cobs_encode.
  pose proof (cobs_encode_loop_spec input [] rest [] x) as H'. cbn [length app] in H'.
  change (Z.of_nat 0 + 1) with 1 in H'. cbn [Nat.add] in H'.
  rewrite H' by (cbn [length] in *; lia). f_equal. f_equal. f_equal.
  match goal with |- _ = skipn ?n _ => replace n with (S (n - 1 - 0)) at 2 by lia end. done.
Qed.

(** The three shapes of an encoding: the final block, a block closed by a
    zero of the input, and a full block of 254 bytes. *)
Inductive cobs_view (blk input : bytes) : Prop :=
| view_last :
    (length (blk ++ input) < 254)%nat ->
    cobs blk input = z2b (Z.of_nat (length (blk ++ input)) + 1) :: blk ++ input ->
    cobs_view blk input
| view_zero (n tail : bytes) (z : byte) :
    input = n ++ z :: tail -> b2z z = 0 -> (length (blk ++ n) < 254)%nat ->
    cobs blk input = z2b (Z.of_nat (length (blk ++ n)) + 1) :: (blk ++ n) ++ cobs [] tail ->
    cobs_view blk input
| view_full (n tail : bytes) :
    input = n ++ tail -> length (blk ++ n) = 254%nat ->
    cobs blk input = z2b 255 :: (blk ++ n) ++ cobs [] tail ->
    cobs_view blk input.

Lemma cobs_view_all (blk input : bytes) : (length blk < 254)%nat -> cobs_view blk input.
Proof.
  revert blk. induction input as [|b input IH]; intros blk Hb.
  - apply view_last; rewrite app_nil_r; done.
  - cbn [cobs]. destruct (Z.eqb_spec (b2z b) 0) as [H0|H0];
      [|destruct (Nat.eqb_spec (length blk) 253) as [H253|H253]].
    + apply (view_zero _ _ [] input b); rewrite ?app_nil_r; cbn [cobs]; auto.
      by rewrite H0.
    + apply (view_full _ _ [b] input); [done|rewrite length_app; cbn; lia|].
      cbn [cobs]. rewrite (proj2 (Z.eqb_neq _ _) H0), H253. done.
    + assert (Heq : cobs blk (b :: input) = cobs (blk ++ [b]) input).
      { cbn [cobs]. by rewrite (proj2 (Z.eqb_neq _ _) H0), (proj2 (Nat.eqb_neq _ _) H253). }
      assert (Hb' : (length (blk ++ [b]) < 254)%nat) by (rewrite length_app; cbn; lia).
      destruct (IH _ Hb') as [Hl He|n tail z -> Hz Hl He|n tail -> Hl He];
        rewrite <- (app_assoc blk [b]) in Hl, He; cbn [app] in Hl, He.
      * apply view_last; [done|]. by rewrite Heq.
      * apply (view_zero _ _ (b :: n) tail z); rewrite ?Heq; auto.
      * apply (view_full _ _ (b :: n) tail); rewrite ?Heq; auto.
Qed.

Lemma cobs_not_nil (blk input : bytes) : cobs blk input <> [].
Proof.
  revert blk. induction input as [|b input IH]; intros blk; cbn [cobs]; [done|].
  repeat case_match; cbn [app]; auto.
Qed.

(** One turn of the decoding loop on a block whose code byte announces it. *)
Lemma cobs_decode_turn (fuel : nat) (pre blk tail outpre rest : bytes) (code : byte) :
  b2z code = Z.of_nat (length blk) + 1 ->
  (length blk <= length rest)%nat ->
  (tail <> [] -> length blk < 254 -> length blk < length rest)%nat ->
  let wr := (length outpre + length blk)%nat in
  let rd := (length pre + 1 + length blk)%nat in
  cobs_decode_loop (S fuel) (pre ++ (code :: blk) ++ tail) (outpre ++ rest) (length pre) (length outpre) =
    (if bool_decide (tail <> []) && (length blk <? 254)%nat then
       cobs_decode_loop fuel (pre ++ (code :: blk) ++ tail)
         ((outpre ++ blk ++ [z2b 0]) ++ skipn (S (length blk)) rest) rd (wr + 1)
     else
       cobs_decode_loop fuel (pre ++ (code :: blk) ++ tail)
         ((outpre ++ blk) ++ skipn (length blk) rest) rd wr).
Proof.
  intros Hc Hfit Hz wr rd.
  assert (Hlen : length (pre ++ (code :: blk) ++ tail) = (rd + length tail)%nat).
  { rewrite !length_app. cbn [length]. unfold rd. lia. }
  cbn [cobs_decode_loop]. rewrite Hlen.
  rewrite (proj2 (Nat.leb_gt _ _)) by (unfold rd; lia).
  cbn [app]. rewrite index_at by done. cbn [mbind outcome_bind]. rewrite Hc.
  rewrite (proj2 (Z.eqb_neq _ _)) by lia.
  replace (Z.to_nat (Z.of_nat (length blk) + 1) - 1)%nat with (length blk) by lia.
  fold rd wr. rewrite length_app.
  rewrite (proj2 (Nat.ltb_ge (rd + length tail) rd)) by lia.
  rewrite (proj2 (Nat.ltb_ge (length outpre + length rest) wr)) by (unfold wr; lia).
  cbn [orb].
  replace (pre ++ code :: blk ++ tail) with ((pre ++ [code]) ++ blk ++ tail)
    by (by rewrite <- app_assoc).
  rewrite (slice_at (pre ++ [code]) blk tail) by (unfold rd; rewrite ?length_app; cbn; lia).
  cbn [mbind outcome_bind]. rewrite put_next by (unfold wr; lia). cbn [mbind outcome_bind].
  replace (wr - length outpre)%nat with (length blk) by (unfold wr; lia).
  rewrite <- (app_assoc pre [code]). cbn [app]. case_bool_decide as Ht; cbn [andb].
  - rewrite (proj2 (Nat.ltb_lt rd (rd + length tail))) by (destruct tail; [done|cbn; lia]).
    destruct (Nat.ltb_spec (length blk) 254).
    + rewrite (proj2 (Z.eqb_neq _ _)) by lia. cbn [negb andb].
      assert (Hlt : (length blk < length rest)%nat) by auto.
      rewrite !length_app, length_drop, (proj2 (Nat.eqb_neq wr _)) by (unfold wr; lia).
      destruct (skipn (length blk) rest) as [|y rest'] eqn:Hs.
      { apply (f_equal length) in Hs. rewrite length_drop in Hs. cbn in Hs. lia. }
      rewrite put1_at by (rewrite length_app; done). cbn [mbind outcome_bind].
      replace (skipn (S (length blk)) rest) with rest'.
      2: { change (S (length blk)) with (1 + length blk)%nat.
           rewrite Nat.add_comm, <- drop_drop, Hs. done. }
      by rewrite <- !app_assoc.
    + destruct (Z.eqb_spec (Z.of_nat (length blk) + 1) 255); cbn [negb andb]; [done|].
      pose proof (b2z_range code). ilia.
  - subst tail. cbn [length]. rewrite Nat.add_0_r, Nat.ltb_irrefl.
    rewrite andb_false_r. done.
Qed.

Lemma cobs_decode_loop_spec (n : nat) (input pre outpre rest : bytes) (fuel : nat) :
  (length input <= n)%nat -> (length (cobs [] input) <= fuel)%nat ->
  (length input <= length rest)%nat ->
  cobs_decode_loop fuel (pre ++ cobs [] input) (outpre ++ rest) (length pre) (length outpre) =
    Ok ((length outpre + length input)%nat, outpre ++ input ++ skipn (length input) rest).
Proof.
  revert input pre outpre rest fuel. induction n as [n IH] using (well_founded_induction lt_wf).
  intros input pre outpre rest fuel Hn Hfuel Hfit.
  assert (Hend : forall fuel l k r w, (length l <= r)%nat -> cobs_decode_loop fuel l k r w = Ok (w, k)).
  { intros [|f] l k r w Hl; cbn [cobs_decode_loop]; by rewrite (proj2 (Nat.leb_le _ _) Hl). }
  destruct (cobs_view_all [] input) as [Hl He|m tail z Hi Hz Hl He|m tail Hi Hl He];
    [cbn; lia|..]; cbn [app] in *.
  - rewrite He in *. destruct fuel as [|fuel]; [cbn in *; lia|].
    pose proof (cobs_decode_turn fuel pre input [] outpre rest
                  (z2b (Z.of_nat (length input) + 1))) as Ht.
    rewrite b2z_z2b in Ht by ilia. rewrite app_nil_r in Ht.
    rewrite Ht by (try done; lia). cbn [andb bool_decide]. rewrite bool_decide_eq_false_2 by naive_solver.
    cbn [andb]. rewrite Hend by (rewrite length_app; cbn [length]; lia).
    by rewrite <- app_assoc.
  - rewrite He in *. subst input. destruct fuel as [|fuel]; [cbn in *; lia|].
    rewrite !length_app in *. cbn [length] in *. rewrite !length_app in *.
    pose proof (cobs_length_ge [] tail ltac:(cbn; lia)) as Hge.
    pose proof (cobs_decode_turn fuel pre m (cobs [] tail) outpre rest
                  (z2b (Z.of_nat (length m) + 1))) as Ht.
    rewrite b2z_z2b in Ht by ilia. cbn [app] in Ht.
    rewrite Ht by (try done; lia). clear Ht.
    rewrite bool_decide_eq_true_2 by apply cobs_not_nil.
    rewrite (proj2 (Nat.ltb_lt _ _)) by lia. cbn [andb].
    specialize (IH (length tail) ltac:(lia) tail (pre ++ z2b (Z.of_nat (length m) + 1) :: m)
                  (outpre ++ m ++ [z2b 0]) (skipn (S (length m)) rest) fuel).
    rewrite !length_app, length_drop in IH. cbn [length] in IH.
    rewrite <- (app_assoc pre) in IH. cbn [app] in IH.
    replace (length pre + S (length m))%nat with (length pre + 1 + length m)%nat in IH by lia.
    replace (length outpre + (length m + 1))%nat with (length outpre + length m + 1)%nat in IH by lia.
    rewrite IH by lia. replace z with (z2b 0) by (rewrite <- Hz; apply z2b_b2z).
    f_equal. f_equal; [lia|]. rewrite <- !app_assoc. cbn [app]. do 4 f_equal.
    rewrite drop_drop. f_equal. lia.
  - rewrite He in *. subst input. destruct fuel as [|fuel]; [cbn in *; lia|].
    rewrite !length_app in *. cbn [length] in *. rewrite !length_app in *.
    pose proof (cobs_length_ge [] tail ltac:(cbn; lia)) as Hge.
    pose proof (cobs_decode_turn fuel pre m (cobs [] tail) outpre rest (z2b 255)) as Ht.
    rewrite b2z_z2b in Ht by ilia. cbn [app] in Ht.
    rewrite Ht by lia. clear Ht.
    rewrite (proj2 (Nat.ltb_ge _ _)) by lia. rewrite andb_false_r.
    specialize (IH (length tail) ltac:(lia) tail (pre ++ z2b 255 :: m)
                  (outpre ++ m) (skipn (length m) rest) fuel).
    rewrite !length_app, length_drop in IH. cbn [length] in IH.
    rewrite <- (app_assoc pre) in IH. cbn [app] in IH.
    replace (length pre + S (length m))%nat with (length pre + 1 + length m)%nat in IH by lia.
    rewrite IH by lia. f_equal. f_equal; [lia|]. rewrite <- !app_assoc. do 3 f_equal.
    rewrite drop_drop. done.
Qed.

Lemma cobs_decode_cobs (input output : bytes) :
  (length input <= length output)%nat ->
  cobs_decode (cobs [] input) output = Ok (length input, input ++ skipn (length input) output).
Proof.
  intros Hfit. unfold cobs_decode.
  apply (cobs_decode_loop_spec (length input) input [] [] output); lia.
Qed.

(** ** Total decoding *)

(** [cobs_decode] never panics, keeps the output array's length and reports a
    length inside it. *)
Lemma cobs_decode_loop_total (fuel : nat) (input output : bytes) (rd wr : nat) :
  (length input <= rd + fuel)%nat -> (wr <= length output)%nat ->
  match cobs_decode_loop fuel input output rd wr with
  | Ok (n, out) => (n <= length output)%nat /\ length out = length output
  | Err e => e = MalformedCobs
  | Panic => False
  end.
Proof.
  revert output rd wr. induction fuel as [|fuel IH]; intros output rd wr Hf Hw;
    cbn [cobs_decode_loop]; destruct (Nat.leb_spec (length input) rd) as [Hend|Hmore]; try lia; auto.
  destruct (index_Ok (E:=FrameError) rd input Hmore) as (b & _ & ->). cbn [mbind outcome_bind].
  destruct (_ =? 0); [done|].
  set (count := (Z.to_nat (b2z b) - 1)%nat).
  destruct (Nat.ltb_spec (length input) (rd + 1 + count)) as [|Hin]; [done|].
  destruct (Nat.ltb_spec (length output) (wr + count)) as [|Hout]; [done|]. cbn [orb].
  rewrite slice_Ok by lia. cbn [mbind outcome_bind].
  destruct (put _ _ _ output) as [out| |] eqn:Hput; [|exfalso..]; cbn [mbind outcome_bind].
  2, 3: unfold put in Hput; rewrite length_take, length_drop in Hput;
        rewrite (proj2 (Nat.leb_le wr _)), (proj2 (Nat.leb_le _ (length output))),
          (proj2 (Nat.eqb_eq _ _)) in Hput by lia; discriminate Hput.
  pose proof (length_put _ _ _ _ _ Hput) as Hl.
  assert (Hnext : forall out' wr', length out' = length output -> (wr' <= length output)%nat ->
    match cobs_decode_loop fuel input out' (rd + 1 + count) wr' with
    | Ok (n, out) => (n <= length output)%nat /\ length out = length output
    | Err e => e = MalformedCobs
    | Panic => False
    end).
  { intros out' wr' Ho Hw'. rewrite <- Ho. apply IH; lia. }
  destruct (_ && _)%bool; [|apply Hnext; lia].
  destruct (Nat.eqb_spec (wr + count) (length out)); [done|].
  destruct (put1 _ _ out) as [out'| |] eqn:Hput1; [|exfalso..]; cbn [mbind outcome_bind].
  - apply Hnext; [|lia]. rewrite <- Hl. by apply length_put in Hput1.
  - unfold put1, put in Hput1. rewrite (proj2 (Nat.leb_le _ (S _))), (proj2 (Nat.leb_le _ (length out))),
      (proj2 (Nat.eqb_eq _ _)) in Hput1 by (cbn [length]; lia). discriminate Hput1.
  - unfold put1, put in Hput1. rewrite (proj2 (Nat.leb_le _ (S _))), (proj2 (Nat.leb_le _ (length out))),
      (proj2 (Nat.eqb_eq _ _)) in Hput1 by (cbn [length]; lia). discriminate Hput1.
Qed.

Lemma cobs_decode_total (input output : bytes) :
  match cobs_decode input output with
  | Ok (n, out) => (n <= length output)%nat /\ length out = length output
  | Err e => e = MalformedCobs
  | Panic => False
  end.
Proof. apply cobs_decode_loop_total; lia. Qed.

(** ** Frames *)

(** The header of a frame on the wire, and the raw frame under the COBS layer. *)
Definition frame_header (f : Frame) : bytes :=
  [z2b FRAMING_VERSION; z2b (role_to_wire (frame_role f)); z2b (destination f);
   z2b (Framing.source f); z2b (service f); z2b (message f)]
  ++ to_le_bytes 4 (transaction_id f).
Definition frame_raw (f : Frame) (payload : bytes) : bytes :=
  frame_header f ++ payload ++ to_le_bytes 4 (crc32c (frame_header f ++ payload)).

(** A value [Frame::new] can return: a valid route, and the payload at the front
    of a zeroed array; [frame_wf]: with the fields in the ranges of their types. *)
Definition frame_built (f : Frame) (payload : bytes) : Prop :=
  frame_new (frame_role f) (destination f) (Framing.source f) (service f) (message f)
    (transaction_id f) payload = Ok f.
Definition frame_wf (f : Frame) (payload : bytes) : Prop :=
  u8 (destination f) /\ u8 (Framing.source f) /\ u8 (service f) /\ u8 (message f) /\
  u32 (transaction_id f) /\ frame_built f payload.

Lemma frame_new_spec (role : FrameRole) (d s sv m t : Z) (payload : bytes) :
  frame_new role d s sv m t payload =
    match validate_route role d s with
    | Ok _ => if (512 <? length payload)%nat then Err PayloadTooLarge
              else Ok (mkFrame role d s sv m t
                         (payload ++ zeros (512 - length payload)) (length payload))
    | Err e => Err e
    | Panic => Panic
    end.
Proof.
  unfold frame_new. destruct (validate_route _ _ _); cbn [mbind outcome_bind]; auto.
  change MAX_PAYLOAD_BYTES with 512%nat. destruct (Nat.ltb_spec 512 (length payload)); [done|].
  rewrite put_first by (rewrite ?length_zeros; lia). cbn [mbind outcome_bind].
  by rewrite skipn_zeros.
Qed.

Lemma validate_route_no_panic (role : FrameRole) (d s : Z) : no_panic (validate_route role d s).
Proof. unfold validate_route. destruct role; destruct (_ && _)%bool; auto with rust. Qed.

Lemma frame_new_no_panic (role : FrameRole) (d s sv m t : Z) (payload : bytes) :
  no_panic (frame_new role d s sv m t payload).
Proof.
  rewrite frame_new_spec. pose proof (validate_route_no_panic role d s).
  destruct (validate_route _ _ _); [destruct (_ <? _)%nat| |contradiction]; auto with rust.
Qed.

Lemma frame_new_inv (role : FrameRole) (d s sv m t : Z) (payload : bytes) (f : Frame) :
  frame_new role d s sv m t payload = Ok f ->
  validate_route role d s = Ok tt /\ (length payload <= 512)%nat /\
  f = mkFrame role d s sv m t (payload ++ zeros (512 - length payload)) (length payload).
Proof.
  rewrite frame_new_spec. destruct (validate_route _ _ _) as [[]| |]; try discriminate.
  destruct (Nat.ltb_spec 512 (length payload)); [discriminate|]. intros [= <-]. auto with lia.
Qed.

Lemma frame_payload_new (role : FrameRole) (d s sv m t : Z) (payload : bytes) (f : Frame) :
  frame_new role d s sv m t payload = Ok f -> frame_payload f = Ok payload.
Proof.
  intros (_ & Hl & ->)%frame_new_inv. unfold frame_payload. cbn [payload_len frame_payload_buffer].
  apply (slice_here (length payload)); [done|apply Nat.eqb_refl].
Qed.

Lemma length_frame_header (f : Frame) : length (frame_header f) = 10%nat.
Proof. unfold frame_header. by rewrite length_app, length_to_le_bytes. Qed.
#[export] Instance known_length_frame_header (f : Frame) : KnownLength (frame_header f) 10.
Proof. apply length_frame_header. Qed.

Lemma length_frame_raw (f : Frame) (payload : bytes) :
  length (frame_raw f payload) = (14 + length payload)%nat.
Proof. unfold frame_raw. rewrite !length_app, length_frame_header, length_to_le_bytes. lia. Qed.

(** The header as the encoder writes it, one array element at a time. *)
Lemma frame_encode_header {A : Type} (f : Frame) (raw : bytes) (k : bytes -> framing A) :
  (10 <= length raw)%nat ->
  (raw ← put1 0 FRAMING_VERSION raw;
   raw ← put1 1 (role_to_wire (frame_role f)) raw;
   raw ← put1 2 (destination f) raw;
   raw ← put1 3 (Framing.source f) raw;
   raw ← put1 4 (service f) raw;
   raw ← put1 5 (message f) raw;
   raw ← put 6 10 (to_le_bytes 4 (transaction_id f)) raw;
   k raw) = k (frame_header f ++ skipn 10 raw).
Proof.
  intros Hraw. do 10 (destruct raw as [|? raw]; [exfalso; cbn in Hraw; lia|]). reflexivity.
Qed.

(** The bytes [Frame::encode] puts on the wire. *)
Definition frame_wire (f : Frame) (payload : bytes) : bytes := cobs [] (frame_raw f payload).

Lemma frame_wire_visible (f : Frame) (payload : bytes) : Forall visible (frame_wire f payload).
Proof. apply cobs_visible; [cbn; lia|constructor]. Qed.

Lemma frame_wf_built (f : Frame) (payload : bytes) : frame_wf f payload -> frame_built f payload.
Proof. by intros (_ & _ & _ & _ & _ & Hnew). Qed.

Lemma frame_built_payload (f : Frame) (payload : bytes) :
  frame_built f payload ->
  (length payload <= 512)%nat /\ payload_len f = length payload /\ frame_payload f = Ok payload.
Proof.
  intros Hnew. pose proof (frame_payload_new _ _ _ _ _ _ _ _ Hnew) as Hp.
  apply frame_new_inv in Hnew as (_ & Hl & Hf). split_and!; auto. by rewrite Hf.
Qed.

Lemma frame_wire_length (f : Frame) (payload : bytes) :
  frame_built f payload -> (0 < length (frame_wire f payload) <= 529)%nat.
Proof.
  intros (Hl & _ & _)%frame_built_payload. unfold frame_wire.
  pose proof (cobs_length_ge [] (frame_raw f payload) ltac:(cbn; lia)).
  pose proof (cobs_length_le [] (frame_raw f payload) ltac:(cbn; lia)) as Hle.
  rewrite length_frame_raw in *. cbn [length] in *. lia.
Qed.

Lemma frame_encode_spec (f : Frame) (payload output : bytes) :
  frame_built f payload -> length output = MAX_WIRE_FRAME_BYTES ->
  frame_encode f output =
    Ok ((length (frame_wire f payload) + 1)%nat,
        (frame_wire f payload ++ [z2b 0]) ++ skipn (length (frame_wire f payload) + 1) output).
Proof.
  intros Hwf Hout. pose proof (frame_wire_length f payload Hwf) as Hwire.
  apply frame_built_payload in Hwf as (Hl & Hplen & Hp). unfold frame_encode.
  change MAX_RAW_FRAME_BYTES with 526%nat. change HEADER_BYTES with 10%nat.
  change CRC_BYTES with 4%nat. change MAX_WIRE_FRAME_BYTES with 530%nat in Hout.
  rewrite frame_encode_header by (rewrite length_zeros; lia).
  rewrite Hp, Hplen. cbn [mbind outcome_bind]. rewrite skipn_zeros.
  rewrite put_next by (rewrite ?length_frame_header, ?length_zeros; lia).
  cbn [mbind outcome_bind]. cbv zeta. rewrite skipn_zeros.
  rewrite (slice_front (frame_header f ++ payload)) by
    (rewrite ?length_app, ?length_frame_header; cbn; lia).
  cbn [mbind outcome_bind].
  rewrite put_next by (rewrite ?length_app, ?length_frame_header, ?length_to_le_bytes, ?length_zeros; lia).
  cbn [mbind outcome_bind].
  rewrite (slice_front (((frame_header f ++ payload) ++ to_le_bytes 4 (crc32c (frame_header f ++ payload))))) by
    (rewrite ?length_app, ?length_frame_header, ?length_to_le_bytes; cbn; lia).
  cbn [mbind outcome_bind]. rewrite <- app_assoc.
  change (frame_header f ++ payload ++ to_le_bytes 4 (crc32c (frame_header f ++ payload)))
    with (frame_raw f payload).
  rewrite cobs_encode_spec by (change (cobs [] (frame_raw f payload)) with (frame_wire f payload); lia).
  change (cobs [] (frame_raw f payload)) with (frame_wire f payload).
  cbn [mbind outcome_bind]. set (w := frame_wire f payload) in *.
  rewrite <- drop_drop.
  destruct (skipn (length w) output) as [|x rest] eqn:Hs.
  { apply (f_equal length) in Hs. rewrite length_drop, Hout in Hs. cbn [length] in Hs. lia. }
  rewrite put1_at by done. cbn [mbind outcome_bind skipn]. by rewrite <- app_assoc.
Qed.

(** ** Decoding accepts exactly the raw frames *)

(** What [decode_body] computes once the raw frame is cut into its fields. *)
Lemma decode_body_fields (body tidb payload crcb tail : bytes) (b0 b1 b2 b3 b4 b5 : byte) :
  let header := [b0; b1; b2; b3; b4; b5] ++ tidb in
  length tidb = 4%nat -> length crcb = 4%nat ->
  cobs_decode body (zeros MAX_RAW_FRAME_BYTES) =
    Ok ((14 + length payload)%nat, (header ++ payload ++ crcb) ++ tail) ->
  decode_body body =
    (if negb (b2z b0 =? FRAMING_VERSION) then Err (UnsupportedVersion (b2z b0))
     else
       role ← role_from_wire (b2z b1);
       _ ← validate_route role (b2z b2) (b2z b3);
       if negb (crc32c (header ++ payload) =? from_le_bytes crcb) then Err CrcMismatch
       else frame_new role (b2z b2) (b2z b3) (b2z b4) (b2z b5) (from_le_bytes tidb) payload).
Proof.
  intros header Ht Hc Hcobs. unfold decode_body. rewrite Hcobs. cbn [mbind outcome_bind].
  change HEADER_BYTES with 10%nat. change CRC_BYTES with 4%nat.
  rewrite (proj2 (Nat.ltb_ge _ _)) by lia.
  assert (Hh : length header = 10%nat) by (unfold header; rewrite length_app, Ht; done).
  cbv zeta. rewrite <- app_assoc.
  replace (14 + length payload - 4)%nat with (10 + length payload)%nat by lia.
  assert (H0 : slice (E:=FrameError) 0 (10 + length payload) (header ++ (payload ++ crcb) ++ tail)
               = Ok (header ++ payload)).
  { rewrite <- app_assoc, app_assoc. apply slice_front. rewrite length_app, Hh. done. }
  assert (H1 : slice (E:=FrameError) (10 + length payload) (14 + length payload)
                 (header ++ (payload ++ crcb) ++ tail) = Ok crcb).
  { rewrite <- app_assoc, app_assoc. apply slice_at; rewrite ?length_app; lia. }
  assert (H2 : slice (E:=FrameError) 10 (10 + length payload)
                 (header ++ (payload ++ crcb) ++ tail) = Ok payload).
  { rewrite <- app_assoc. by apply slice_at. }
  assert (H3 : slice (E:=FrameError) 6 10 (header ++ (payload ++ crcb) ++ tail) = Ok tidb).
  { unfold header. rewrite <- app_assoc. apply (slice_at [b0; b1; b2; b3; b4; b5]); [done|lia]. }
  rewrite H0, H1, H2, H3. reflexivity.
Qed.

(** Every string of at least 14 bytes has that shape. *)
Lemma raw_fields (n : nat) (raw : bytes) :
  (14 <= n <= length raw)%nat ->
  exists b0 b1 b2 b3 b4 b5 tidb payload crcb tail,
    length tidb = 4%nat /\ length crcb = 4%nat /\ n = (14 + length payload)%nat /\
    raw = (([b0; b1; b2; b3; b4; b5] ++ tidb) ++ payload ++ crcb) ++ tail.
Proof.
  intros [Hn Hraw].
  do 10 (destruct raw as [|? raw]; [exfalso; cbn in Hraw; lia|]). cbn [length] in Hraw.
  match goal with |- context [?a :: ?b :: ?c :: ?d :: ?e :: ?f :: ?g :: ?h :: ?i :: ?j :: raw] =>
    exists a, b, c, d, e, f, [g; h; i; j] end.
  exists (firstn (n - 14) raw), (firstn 4 (skipn (n - 14) raw)), (skipn 4 (skipn (n - 14) raw)).
  rewrite !length_take, length_drop. split_and!; [done|lia|lia|].
  cbn [app]. do 10 f_equal. by rewrite <- app_assoc, !take_drop.
Qed.

Lemma role_from_wire_inv (z : Z) (role : FrameRole) :
  role_from_wire z = Ok role -> role_to_wire role = z.
Proof. unfold role_from_wire. repeat case_match; try discriminate; intros [= <-]; done. Qed.

Lemma role_to_from_wire (role : FrameRole) :
  role_from_wire (b2z (z2b (role_to_wire role))) = Ok role.
Proof. by destruct role. Qed.

Lemma role_from_wire_no_panic (z : Z) : no_panic (role_from_wire z).
Proof. unfold role_from_wire. repeat case_match; auto with rust. Qed.

Lemma frame_wf_header (f : Frame) (payload : bytes) :
  frame_wf f payload ->
  b2z (z2b (destination f)) = destination f /\ b2z (z2b (Framing.source f)) = Framing.source f /\
  b2z (z2b (service f)) = service f /\ b2z (z2b (message f)) = message f /\
  from_le_bytes (to_le_bytes 4 (transaction_id f)) = transaction_id f.
Proof.
  intros (? & ? & ? & ? & ? & _). split_and!; rewrite ?b2z_z2b; auto.
  by apply (from_to_le_bytes 4 32).
Qed.

(** [decode_body] inverts the raw frame of a well-formed frame, whatever COBS
    body carries it. *)
Lemma decode_body_raw (f : Frame) (payload body tail : bytes) :
  frame_wf f payload ->
  cobs_decode body (zeros MAX_RAW_FRAME_BYTES) =
    Ok (length (frame_raw f payload), frame_raw f payload ++ tail) ->
  decode_body body = Ok f.
Proof.
  intros Hwf Hcobs. pose proof (frame_wf_header _ _ Hwf) as (Hd & Hs & Hsv & Hm & Ht).
  destruct Hwf as (_ & _ & _ & _ & _ & Hnew).
  rewrite length_frame_raw in Hcobs.
  erewrite decode_body_fields; [|apply length_to_le_bytes| |exact Hcobs].
  2: apply length_to_le_bytes.
  rewrite Hd, Hs, Hsv, Hm, Ht, role_to_from_wire. cbn [mbind outcome_bind].
  change (negb (b2z (z2b FRAMING_VERSION) =? FRAMING_VERSION)) with false. cbv iota.
  pose proof (frame_new_inv _ _ _ _ _ _ _ _ Hnew) as (-> & _ & _). cbn [mbind outcome_bind].
  rewrite (from_to_le_bytes 4 32) by (done || apply crc32c_range).
  unfold frame_header. by rewrite Z.eqb_refl.
Qed.

Lemma decode_body_inv (body : bytes) (f : Frame) :
  decode_body body = Ok f ->
  exists payload tail,
    frame_wf f payload /\
    cobs_decode body (zeros MAX_RAW_FRAME_BYTES) =
      Ok (length (frame_raw f payload), frame_raw f payload ++ tail).
Proof.
  intros Hok. pose proof (cobs_decode_total body (zeros MAX_RAW_FRAME_BYTES)) as Htot.
  destruct (cobs_decode body _) as [[n raw]|e|] eqn:Hcobs; [|unfold decode_body in Hok; rewrite Hcobs in Hok; discriminate Hok..].
  rewrite length_zeros in Htot. destruct Htot as [Hn Hraw].
  destruct (Nat.ltb_spec n 14) as [Hshort|Hlong].
  { unfold decode_body in Hok. rewrite Hcobs in Hok. cbn [mbind outcome_bind] in Hok.
    change (HEADER_BYTES + CRC_BYTES)%nat with 14%nat in Hok.
    rewrite (proj2 (Nat.ltb_lt _ _) Hshort) in Hok. discriminate Hok. }
  destruct (raw_fields n raw) as (b0 & b1 & b2 & b3 & b4 & b5 & tidb & payload & crcb & tail &
    Ht & Hc & -> & ->); [lia|].
  rewrite (decode_body_fields _ _ _ _ _ _ _ _ _ _ _ Ht Hc Hcobs) in Hok.
  destruct (Z.eqb_spec (b2z b0) FRAMING_VERSION) as [Hv|]; [|discriminate Hok]. cbn [negb] in Hok.
  apply outcome_bind_Ok in Hok as (role & Hrole%role_from_wire_inv & Hok).
  apply outcome_bind_Ok in Hok as ([] & Hroute & Hok).
  destruct (Z.eqb_spec (crc32c (([b0; b1; b2; b3; b4; b5] ++ tidb) ++ payload)) (from_le_bytes crcb))
    as [Hcrc|]; [|discriminate Hok]. cbn [negb] in Hok.
  pose proof (frame_new_inv _ _ _ _ _ _ _ _ Hok) as (_ & Hl & Hf).
  assert (Hheader : frame_header f = [b0; b1; b2; b3; b4; b5] ++ tidb).
  { rewrite Hf. unfold frame_header. cbn [frame_role destination Framing.source service message transaction_id].
    by rewrite <- Hv, Hrole, !z2b_b2z, to_from_le_bytes. }
  exists payload, tail. split.
  - rewrite Hf in Hok |- *. unfold frame_wf.
    cbn [frame_role destination Framing.source service message transaction_id].
    split_and!; auto using b2z_range. by apply (from_le_bytes_range 4).
  - unfold frame_raw. rewrite Hheader, Hcrc, to_from_le_bytes by done.
    rewrite !length_app, Ht, Hc. cbn [length].
    replace (6 + 4 + (length payload + 4))%nat with (14 + length payload)%nat by lia. done.
Qed.

Lemma decode_body_no_panic (body : bytes) : no_panic (decode_body body).
Proof.
  pose proof (cobs_decode_total body (zeros MAX_RAW_FRAME_BYTES)) as Htot.
  destruct (cobs_decode body _) as [[n raw]|e|] eqn:Hcobs; [|unfold decode_body; rewrite Hcobs; done|done].
  rewrite length_zeros in Htot. destruct Htot as [Hn Hraw].
  destruct (Nat.ltb_spec n 14) as [Hshort|Hlong].
  { unfold decode_body. rewrite Hcobs. cbn [mbind outcome_bind].
    change (HEADER_BYTES + CRC_BYTES)%nat with 14%nat.
    by rewrite (proj2 (Nat.ltb_lt _ _) Hshort). }
  destruct (raw_fields n raw) as (b0 & b1 & b2 & b3 & b4 & b5 & tidb & payload & crcb & tail &
    Ht & Hc & -> & ->); [lia|].
  rewrite (decode_body_fields _ _ _ _ _ _ _ _ _ _ _ Ht Hc Hcobs).
  destruct (negb _); [done|]. apply no_panic_bind; [apply role_from_wire_no_panic|intros role _].
  apply no_panic_bind; [apply validate_route_no_panic|intros _ _].
  destruct (negb _); [done|]. apply frame_new_no_panic.
Qed.

Lemma decode_body_wire (f : Frame) (payload : bytes) :
  frame_wf f payload -> decode_body (frame_wire f payload) = Ok f.
Proof.
  intros Hwf. pose proof (frame_built_payload _ _ (frame_wf_built _ _ Hwf)) as (Hl & _ & _).
  eapply decode_body_raw; [done|]. apply cobs_decode_cobs.
  rewrite length_frame_raw, length_zeros. change MAX_RAW_FRAME_BYTES with 526%nat. lia.
Qed.

(** ** The stream decoder implements segmentation at the delimiter *)

(** What the bytes [seg] between two delimiters mean. *)
Definition segment_event (seg : bytes) : option (framing Frame) :=
  if (length seg =? 0)%nat then None
  else if (MAX_COBS_BODY_BYTES <? length seg)%nat then Some (Err EncodedFrameTooLarge)
  else Some (decode_body seg).

(** The events of a byte stream, [seg] being the segment already begun. *)
Fixpoint stream_events (seg l : bytes) : list (framing Frame) :=
  match l with
  | [] => []
  | b :: l =>
      if b2z b =? 0 then
        match segment_event seg with Some e => [e] | None => [] end ++ stream_events [] l
      else stream_events (seg ++ [b]) l
  end.

(** The segment still open at the end of the stream. *)
Fixpoint open_segment (seg l : bytes) : bytes :=
  match l with
  | [] => seg
  | b :: l => open_segment (if b2z b =? 0 then [] else seg ++ [b]) l
  end.

(** The decoder holds the open segment, or only remembers that it is too long. *)
Definition decoder_holds (d : StreamDecoder) (seg : bytes) : Prop :=
  length (encoded d) = MAX_COBS_BODY_BYTES /\
  if discarding d then encoded_len d = 0%nat /\ (MAX_COBS_BODY_BYTES < length seg)%nat
  else encoded_len d = length seg /\ exists rest, encoded d = seg ++ rest.

Lemma decoder_holds_new : decoder_holds decoder_new [].
Proof. split; [apply length_zeros|]. split; [done|]. by exists (encoded decoder_new). Qed.

Lemma discard_partial_holds (d : StreamDecoder) (seg : bytes) :
  decoder_holds d seg -> decoder_holds (discard_partial d) [].
Proof. intros [Hl _]. split; [done|]. split; [done|]. by exists (encoded d). Qed.

Lemma push_visible (b : byte) (d : StreamDecoder) (seg : bytes) :
  visible b -> decoder_holds d seg ->
  exists d', push b d = (Ok None, d') /\ decoder_holds d' (seg ++ [b]).
Proof.
  intros Hb [Hl Hd]. unfold push. rewrite (proj2 (Z.eqb_neq _ _) Hb). cbn [negb].
  unfold decoder_holds. destruct (discarding d) eqn:Hdisc.
  - eexists. split; [done|]. split; [done|]. rewrite Hdisc, length_app. cbn [length]. lia.
  - destruct Hd as (Hn & rest & Hrest). rewrite Hl, Hn.
    destruct (Nat.eqb_spec (length seg) MAX_COBS_BODY_BYTES) as [Hfull|Hroom].
    + eexists. split; [done|]. cbn [encoded discarding encoded_len]. split; [done|].
      rewrite length_app. cbn [length]. lia.
    + rewrite Hrest in Hl |- *. rewrite length_app in Hl.
      destruct rest as [|y rest]; [cbn [length] in Hl; lia|].
      rewrite put1_at, z2b_b2z by done. eexists. split; [done|].
      cbn [encoded discarding encoded_len]. rewrite !length_app. cbn [length] in *.
      split; [done|]. split; [done|]. exists rest. by rewrite <- app_assoc.
Qed.

Lemma push_delimiter (b : byte) (d : StreamDecoder) (seg : bytes) :
  b2z b = 0 -> decoder_holds d seg ->
  exists d', push b d = (Ok (segment_event seg), d') /\ decoder_holds d' [].
Proof.
  intros Hb [Hl Hd]. unfold push. rewrite (proj2 (Z.eqb_eq _ _) Hb). cbn [negb].
  unfold segment_event, decoder_holds. destruct (discarding d) eqn:Hdisc.
  - destruct Hd as [Hn Hlong]. cbv iota. rewrite (proj2 (Nat.eqb_neq _ _)) by lia.
    rewrite (proj2 (Nat.ltb_lt _ _)) by lia. eexists. split; [done|].
    cbn [encoded discarding encoded_len]. split; [done|]. split; [done|]. by exists (encoded d).
  - destruct Hd as (Hn & rest & Hrest). rewrite Hn.
    assert (Hle : (length seg <= MAX_COBS_BODY_BYTES)%nat).
    { rewrite <- Hl, Hrest, length_app. lia. }
    destruct (Nat.eqb_spec (length seg) 0) as [H0|Hne].
    + eexists. split; [done|]. rewrite Hdisc. split; [done|]. split; [by rewrite Hn|]. by exists (encoded d).
    + assert (Hs : slice (E:=FrameError) 0 (length seg) (encoded d) = Ok seg).
      { rewrite Hrest. by apply slice_front. }
      rewrite Hs.
      rewrite (proj2 (Nat.ltb_ge _ _)) by lia. pose proof (decode_body_no_panic seg) as Hp.
      exists (mkDecoder (encoded d) 0 false). split; [by destruct (decode_body seg)|].
      cbn [encoded discarding encoded_len]. split; [done|]. split; [done|]. by exists (encoded d).
Qed.

Lemma push_all_holds (l : bytes) (d : StreamDecoder) (seg : bytes) :
  decoder_holds d seg ->
  exists d', push_all l d = Some (stream_events seg l, d') /\ decoder_holds d' (open_segment seg l).
Proof.
  revert d seg. induction l as [|b l IH]; intros d seg Hd; cbn [push_all stream_events open_segment].
  - by exists d.
  - destruct (Z.eqb_spec (b2z b) 0) as [H0|Hv].
    + destruct (push_delimiter b d seg H0 Hd) as (d1 & -> & Hd1).
      destruct (IH d1 [] Hd1) as (d2 & -> & Hd2). exists d2. split; [|done].
      cbn. by destruct (segment_event seg).
    + destruct (push_visible b d seg Hv Hd) as (d1 & -> & Hd1).
      destruct (IH d1 _ Hd1) as (d2 & -> & Hd2). by exists d2.
Qed.

Lemma stream_events_app (l k : bytes) (seg : bytes) :
  stream_events seg (l ++ k) = stream_events seg l ++ stream_events (open_segment seg l) k.
Proof.
  revert seg. induction l as [|b l IH]; intros seg; cbn [app stream_events open_segment]; [done|].
  destruct (_ =? 0); rewrite IH; [by rewrite app_assoc|done].
Qed.

Lemma open_segment_app (l k seg : bytes) :
  open_segment seg (l ++ k) = open_segment (open_segment seg l) k.
Proof. revert seg. induction l as [|b l IH]; intros seg; cbn [app open_segment]; [done|apply IH]. Qed.

Lemma open_segment_delimited (l : bytes) (z : byte) (seg : bytes) :
  b2z z = 0 -> open_segment seg (l ++ [z]) = [].
Proof.
  intros Hz. revert seg. induction l as [|b l IH]; intros seg; cbn [app open_segment]; [|apply IH].
  by rewrite Hz.
Qed.

Lemma stream_events_segment (seg l : bytes) (z : byte) :
  Forall visible l -> b2z z = 0 ->
  stream_events seg (l ++ [z]) = match segment_event (seg ++ l) with Some e => [e] | None => [] end.
Proof.
  intros Hl Hz. revert seg. induction Hl as [|b l Hb Hl IH]; intros seg; cbn [app stream_events].
  - rewrite Hz. cbn [Z.eqb]. by rewrite app_nil_r, app_nil_r.
  - rewrite (proj2 (Z.eqb_neq _ _) Hb), IH. by rewrite <- app_assoc.
Qed.

(** The bytes a sender transmits for one frame: the used part of the output
    array of [Frame::encode]. *)
Definition transmit (f : Frame) : framing bytes :=
  '(n, output) ← frame_encode f (zeros MAX_WIRE_FRAME_BYTES);
  slice 0 n output.

Lemma transmit_spec (f : Frame) (payload : bytes) :
  frame_built f payload -> transmit f = Ok (frame_wire f payload ++ [z2b 0]).
Proof.
  intros Hwf. unfold transmit. rewrite (frame_encode_spec f payload) by (done || apply length_zeros).
  cbn [mbind outcome_bind]. apply slice_front. by rewrite length_app.
Qed.

(** A list of frames and what each transmits. *)
Inductive transmitted : list Frame -> bytes -> Prop :=
| transmitted_nil : transmitted [] []
| transmitted_cons (f : Frame) (payload wire : bytes) (fs : list Frame) (l : bytes) :
    frame_wf f payload -> transmit f = Ok wire -> transmitted fs l ->
    transmitted (f :: fs) (wire ++ l).

Lemma transmitted_events (fs : list Frame) (l : bytes) :
  transmitted fs l -> stream_events [] l = map Ok fs /\ open_segment [] l = [].
Proof.
  induction 1 as [|f payload wire fs l Hwf Hwire _ [IHe IHo]]; [done|].
  pose proof (frame_wf_built _ _ Hwf) as Hb.
  rewrite (transmit_spec _ _ Hb) in Hwire. injection Hwire as <-.
  assert (Hdelim : open_segment [] (frame_wire f payload ++ [z2b 0]) = []).
  { by apply open_segment_delimited. }
  split.
  - rewrite stream_events_app, Hdelim, IHe.
    rewrite stream_events_segment by (done || apply frame_wire_visible).
    pose proof (frame_wire_length _ _ Hb). cbn [app]. unfold segment_event.
    change MAX_COBS_BODY_BYTES with 529%nat.
    rewrite (proj2 (Nat.eqb_neq _ _)), (proj2 (Nat.ltb_ge _ _)) by lia.
    by rewrite (decode_body_wire _ _ Hwf).
  - clear -IHo Hdelim. revert Hdelim. generalize (frame_wire f payload ++ [z2b 0]).
    intros w. generalize (@nil byte) at 1 3 as seg. induction w as [|b w IH]; intros seg Hw; cbn in *.
    + by subst.
    + by apply IH.
Qed.

(** ** Error detection *)

Lemma frame_raw_checked (f : Frame) (payload : bytes) :
  exists l, frame_raw f payload = l ++ to_le_bytes 4 (crc32c l).
Proof. unfold frame_raw. rewrite app_assoc. eauto. Qed.

(** ** Properties *)

(** Transmission round trip through the stream decoder: a freshly created
    decoder that receives the bytes [Frame::encode] produced for any list of
    well-formed frames, one byte at a time, yields exactly those frames in
    order, and each frame occupies at most 530 bytes, of which only the last is
    a zero. *)
Lemma frame_stream_roundtrip (fs : list Frame) (l : bytes) :
  transmitted fs l ->
  (exists d, push_all l decoder_new = Some (map Ok fs, d) /\ encoded_len d = 0%nat) /\
  (forall f payload, frame_wf f payload ->
     exists body, transmit f = Ok (body ++ [z2b 0]) /\ Forall visible body /\
       (length (body ++ [z2b 0]) <= MAX_WIRE_FRAME_BYTES)%nat).
Proof.
  intros Hl. split.
  - destruct (push_all_holds l decoder_new [] decoder_holds_new) as (d & Hpush & Hlen & Hd).
    destruct (transmitted_events _ _ Hl) as [He Ho]. rewrite He in Hpush. rewrite Ho in Hd.
    exists d. split; [done|]. by destruct (discarding d); destruct Hd.
  - intros f payload Hwf%frame_wf_built. exists (frame_wire f payload).
    split_and!; [by apply transmit_spec|apply frame_wire_visible|].
    pose proof (frame_wire_length _ _ Hwf). rewrite length_app. cbn [length].
    change MAX_WIRE_FRAME_BYTES with 530%nat. lia.
Qed.

(** C22. Resynchronisation: whatever bytes preceded (noise, truncated frames,
    overlong garbage), once one delimiter arrives the decoder reports every
    following frame exactly; the history only contributes its own events. *)
Theorem stream_resynchronises (history : bytes) (fs : list Frame) (l : bytes) :
  transmitted fs l ->
  exists events d, push_all (history ++ [z2b 0] ++ l) decoder_new = Some (events ++ map Ok fs, d) /\
    events = stream_events [] (history ++ [z2b 0]).
Proof.
  intros Hl. destruct (transmitted_events _ _ Hl) as [He _].
  destruct (push_all_holds (history ++ [z2b 0] ++ l) decoder_new [] decoder_holds_new)
    as (d & Hpush & _).
  exists (stream_events [] (history ++ [z2b 0])), d. split; [|done]. rewrite Hpush, app_assoc.
  by rewrite stream_events_app, open_segment_delimited, He.
Qed.

(** C21. The stream decoder refines segmentation at the delimiter: for every
    byte sequence it never panics, and its events are, segment by segment,
    nothing for an empty segment, [EncodedFrameTooLarge] for one of more than
    529 bytes, and the result of [decode_body] otherwise; [discard_partial]
    returns it to the start of a segment from any reachable state. *)
Theorem stream_decoder_refines (l k : bytes) :
  exists d, push_all l decoder_new = Some (stream_events [] l, d) /\
    exists d', push_all k (discard_partial d) = Some (stream_events [] k, d').
Proof.
  destruct (push_all_holds l decoder_new [] decoder_holds_new) as (d & Hpush & Hd).
  exists d. split; [done|].
  destruct (push_all_holds k (discard_partial d) [] (discard_partial_holds _ _ Hd)) as (d' & Hp & _).
  by exists d'.
Qed.

(** C23. Decoding accepts exactly the frames the encoder can produce: a body is
    accepted as [f] if and only if it decodes, as COBS, to the raw frame of [f]
    (a COBS body that is not the encoder's own is accepted too),
    [f] is a value [Frame::new] returns (valid route, payload of at most 512
    bytes, fields in range), and version, role and CRC agree. *)
Theorem decode_body_exact (body : bytes) (f : Frame) :
  decode_body body = Ok f <->
  exists payload tail,
    frame_wf f payload /\
    cobs_decode body (zeros MAX_RAW_FRAME_BYTES) =
      Ok (length (frame_raw f payload), frame_raw f payload ++ tail).
Proof.
  split; [apply decode_body_inv|]. intros (payload & tail & Hwf & Hcobs).
  by apply (decode_body_raw f payload body tail).
Qed.

(** What the raw frame of a body fails on when its checksum does not agree. *)
Lemma decode_body_bad_crc (f : Frame) (payload raw body tail : bytes) :
  length raw = length (frame_raw f payload) ->
  cobs_decode body (zeros MAX_RAW_FRAME_BYTES) = Ok (length raw, raw ++ tail) ->
  (forall l, raw <> l ++ to_le_bytes 4 (crc32c l)) ->
  crc32c (take (length raw - 4) raw) <> from_le_bytes (drop (length raw - 4) raw) /\
  (exists e, decode_body body = Err e) /\
  (frame_wf f payload -> take 4 raw = take 4 (frame_raw f payload) -> decode_body body = Err CrcMismatch).
Proof.
  intros Hlen Hcobs Hbad. rewrite length_frame_raw in Hlen.
  destruct (raw_fields (length raw) raw) as (b0 & b1 & b2 & b3 & b4 & b5 & tidb & p & crcb & tl & Ht & Hc & Hn & Hraw);
    [lia|].
  assert (tl = []) as ->.
  { apply (f_equal length) in Hraw. rewrite !length_app, Ht, Hc in Hraw. cbn [length] in Hraw.
    destruct tl; [done|cbn [length] in Hraw; lia]. }
  rewrite app_nil_r in Hraw. set (covered := ([b0; b1; b2; b3; b4; b5] ++ tidb) ++ p).
  assert (Hsplit : raw = covered ++ crcb) by (subst covered; by rewrite Hraw, <- !app_assoc).
  assert (Hcrc : crc32c covered <> from_le_bytes crcb).
  { intros H. apply (Hbad covered). rewrite Hsplit, H. by rewrite to_from_le_bytes. }
  assert (Hcov : (length raw - 4)%nat = length covered) by (rewrite Hsplit, length_app; lia).
  rewrite Hn in Hcobs. rewrite Hraw in Hcobs at 1.
  pose proof (decode_body_fields body tidb p crcb tail b0 b1 b2 b3 b4 b5 Ht Hc Hcobs) as Hdec.
  fold covered in Hdec. rewrite (proj2 (Z.eqb_neq _ _) Hcrc) in Hdec. cbn [negb] in Hdec. split_and!.
  - by rewrite Hcov, Hsplit, take_app_length, drop_app_length.
  - pose proof (decode_body_no_panic body) as Hp. destruct (decode_body body) as [g|e|]; [exfalso|by exists e|done].
    destruct (negb _); [done|]. symmetry in Hdec.
    apply outcome_bind_Ok in Hdec as (role & _ & Hdec). by apply outcome_bind_Ok in Hdec as (u & _ & Hdec).
  - intros Hwf Hfront. pose proof (frame_wf_header _ _ Hwf) as (Hd & Hs & _). destruct Hwf as (_ & _ & _ & _ & _ & Hnew).
    rewrite Hraw in Hfront. cbn in Hfront. injection Hfront as -> -> -> ->.
    rewrite Hdec, Hd, Hs, role_to_from_wire. cbn [mbind outcome_bind].
    change (negb (b2z (z2b FRAMING_VERSION) =? FRAMING_VERSION)) with false. cbv iota.
    by pose proof (frame_new_inv _ _ _ _ _ _ _ _ Hnew) as (-> & _ & _).
Qed.

(** C24. Error detection: a body whose COBS content is the raw frame of some
    frame damaged in a burst of at most 32 bits - the differing bits lie within
    32 consecutive ones in the order of the line, wherever the burst begins, in
    header, payload or CRC and across byte boundaries - does not have the
    checksum it carries and is never accepted; when version, role and addresses,
    which are checked first, are as they were, the error is [CrcMismatch]. *)
Theorem damaged_frame_rejected (f : Frame) (payload raw body tail : bytes) :
  bit_burst (frame_raw f payload) raw ->
  cobs_decode body (zeros MAX_RAW_FRAME_BYTES) = Ok (length raw, raw ++ tail) ->
  crc32c (take (length raw - 4) raw) <> from_le_bytes (drop (length raw - 4) raw) /\
  (exists e, decode_body body = Err e) /\
  (frame_wf f payload -> take 4 raw = take 4 (frame_raw f payload) -> decode_body body = Err CrcMismatch).
Proof.
  intros Hburst Hcobs. pose proof (proj1 Hburst) as Hlen.
  apply (decode_body_bad_crc f payload raw body tail); [done|done|]. intros l.
  destruct (frame_raw_checked f payload) as (l0 & Hl0). rewrite Hl0 in Hburst. by apply (crc_trailer_bit_burst l0 l raw).
Qed.

(** ** Golden vectors and witnesses *)

Example crc32c_check_value :
  crc32c (literal [49; 50; 51; 52; 53; 54; 55; 56; 57]) = 0xe3069283.
Proof. vm_compute. reflexivity. Qed.

(** contracts/golden/framing_v3_request_empty.bin and
    framing_v3_response_mixed.bin. *)
Example golden_request_empty :
  (f ← frame_new Request 7 0 2 3 0x12345678 []; transmit f) =
  Ok (literal [0x04; 0x03; 0x01; 0x07; 0x0b; 0x02; 0x03; 0x78; 0x56; 0x34; 0x12; 0x3a; 0x9f;
               0x67; 0xdc; 0x00]).
Proof. vm_compute. reflexivity. Qed.

Definition mixed_payload : bytes := literal [0; 1; 0; 255; 16].
Definition mixed_frame : Frame :=
  mkFrame Response 0 7 2 4 0x89abcdef (mixed_payload ++ zeros 507) 5.
Definition mixed_wire : bytes :=
  literal [0x03; 0x03; 0x02; 0x08; 0x07; 0x02; 0x04; 0xef; 0xcd; 0xab; 0x89; 0x02; 0x01; 0x07;
           0xff; 0x10; 0xae; 0xb0; 0xca; 0xe8; 0x00].

Lemma mixed_frame_wf : frame_wf mixed_frame mixed_payload.
Proof. repeat split; try (vm_compute; congruence). Qed.

Example golden_response_mixed : transmit mixed_frame = Ok mixed_wire.
Proof. vm_compute. reflexivity. Qed.

Lemma mixed_transmitted : transmitted [mixed_frame; mixed_frame] (mixed_wire ++ mixed_wire ++ []).
Proof. do 2 (econstructor; [apply mixed_frame_wf|apply golden_response_mixed|]). constructor. Qed.

Lemma frame_stream_roundtrip_witness :
  exists d, push_all (mixed_wire ++ mixed_wire ++ []) decoder_new
            = Some ([Ok mixed_frame; Ok mixed_frame], d) /\ encoded_len d = 0%nat.
Proof. apply (frame_stream_roundtrip _ _ mixed_transmitted). Defined.

Lemma stream_resynchronises_witness :
  exists events d, push_all ([z2b 9; z2b 1] ++ [z2b 0] ++ (mixed_wire ++ mixed_wire ++ [])) decoder_new
            = Some (events ++ [Ok mixed_frame; Ok mixed_frame], d) /\ events = [Err MalformedCobs].
Proof.
  destruct (stream_resynchronises [z2b 9; z2b 1] _ _ mixed_transmitted) as (events & d & H & He).
  exists events, d. split; [exact H|]. rewrite He. vm_compute. reflexivity.
Defined.

(** Bit 0 of the first payload byte is flipped. *)
(** A burst of 32 bits over five bytes: the last bit of the second payload byte
    to the seventh of the first CRC byte. *)
Definition damaged_raw : bytes :=
  frame_header mixed_frame ++ literal [0; 0x81; 0xff; 0; 0xef; 0xd1; 0xb0; 0xca; 0xe8].

Lemma damaged_frame_rejected_witness :
  bit_burst (frame_raw mixed_frame mixed_payload) damaged_raw /\
  decode_body (cobs [] damaged_raw) = Err CrcMismatch.
Proof.
  assert (Hburst : bit_burst (frame_raw mixed_frame mixed_payload) damaged_raw).
  { split; [vm_compute; reflexivity|].
    set (x := Z.lxor (from_le_bytes (frame_raw mixed_frame mixed_payload)) (from_le_bytes damaged_raw)).
    exists (Z.shiftr x 95), 95. split; [vm_compute; split; reflexivity|]. split; [lia|vm_compute; reflexivity]. }
  split; [exact Hburst|].
  apply (damaged_frame_rejected mixed_frame mixed_payload damaged_raw _ (zeros 507) Hburst).
  - vm_compute. reflexivity.
  - exact mixed_frame_wf.
  - vm_compute. reflexivity.
Defined.
