(* ===== verification/Application.v ===== *)
(** * The application layer shared by every service
      (crates/sensor-protocol: application, version)

    Service identifiers, response statuses and protocol versions, and the
    interface every wire codec of the protocol implements: [WireCodec], with
    the laws in [lawful_codec]. The service files give one instance per
    message. *)

From S2P Require Export Core.
From S2P Require Import Framing.

(** ** Services *)

Inductive ServiceId :=
| Identity | Measurement | Time | Health | Configuration | Lifecycle | Diagnostics
| Commissioning | Telemetry.

#[export] Instance ServiceId_eq_dec : EqDecision ServiceId.
Proof. solve_decision. Defined.

(** [self as u8]. *)
Definition service_code (s : ServiceId) : Z :=
  match s with
  | Identity => 1 | Measurement => 2 | Time => 3 | Health => 4 | Configuration => 5
  | Lifecycle => 6 | Diagnostics => 7 | Commissioning => 8 | Telemetry => 9
  end.

Definition service_capability_bit (s : ServiceId) : Z := Z.shiftl 1 (service_code s - 1).

(** ** Response statuses *)

Inductive ResponseStatus :=
| StatusOk | MalformedRequest | UnsupportedService | UnsupportedMessage | WrongMode | Busy
| Conflict | InvalidState | InternalError.

#[export] Instance ResponseStatus_eq_dec : EqDecision ResponseStatus.
Proof. solve_decision. Defined.

(** [status as u8]. *)
Definition status_code (s : ResponseStatus) : Z :=
  match s with
  | StatusOk => 0 | MalformedRequest => 1 | UnsupportedService => 2 | UnsupportedMessage => 3
  | WrongMode => 4 | Busy => 5 | Conflict => 6 | InvalidState => 7 | InternalError => 8
  end.

Inductive ApplicationContractError := UnknownResponseStatus (value : Z).

Definition response_status_try_from (value : Z)
    : outcome ApplicationContractError ResponseStatus :=
  match value with
  | 0 => Ok StatusOk
  | 1 => Ok MalformedRequest
  | 2 => Ok UnsupportedService
  | 3 => Ok UnsupportedMessage
  | 4 => Ok WrongMode
  | 5 => Ok Busy
  | 6 => Ok Conflict
  | 7 => Ok InvalidState
  | 8 => Ok InternalError
  | _ => Err (UnknownResponseStatus value)
  end.

(** ** Protocol versions *)

Record ProtocolVersion := mkVersion { framing_version : Z; application_version : Z }.

#[export] Instance ProtocolVersion_eq_dec : EqDecision ProtocolVersion.
Proof. solve_decision. Defined.

Inductive ProtocolMismatch := Mismatch (local remote : ProtocolVersion).

Definition check_compatible (self remote : ProtocolVersion) : outcome ProtocolMismatch unit :=
  if (framing_version self =? framing_version remote)
     && (application_version self =? application_version remote)
  then Ok tt else Err (Mismatch self remote).

Definition LOCAL_PROTOCOL_VERSION : ProtocolVersion := mkVersion 3 5.

(** ** The interface of a wire codec *)

(** What a message type promises: its encoder produces the payload bytes of a
    frame, its decoder reads them back. *)
Class WireCodec (E A : Type) := {
  wire_encode : A -> outcome E bytes;
  wire_decode : bytes -> outcome E A
}.
#[export] Hint Mode WireCodec - ! : typeclass_instances.

(** [roundtrip]: what is encoded decodes to the same value. [canonical]: a
    payload that decodes is the one the decoded value encodes to, and the value
    respects its type; so no two payloads mean the same message. [total]: no
    payload makes the decoder panic, no typed value the encoder. [fits]: every
    encoding fits the payload of a frame. *)
Record lawful_codec (E A : Type) `{WireCodec E A} `{Typed A} : Prop := {
  codec_roundtrip (x : A) (l : bytes) : typed x -> wire_encode x = Ok l -> wire_decode l = Ok x;
  codec_canonical (l : bytes) (x : A) : wire_decode l = Ok x -> typed x /\ wire_encode x = Ok l;
  codec_decode_total (l : bytes) : no_panic (wire_decode (E:=E) (A:=A) l);
  codec_encode_total (x : A) : typed x -> no_panic (wire_encode x);
  codec_fits (x : A) (l : bytes) : typed x -> wire_encode x = Ok l -> (length l <= MAX_PAYLOAD_BYTES)%nat
}.
Arguments lawful_codec E A {_ _}.

(** ** Lemmas for the codecs *)

Lemma status_try_from_no_panic (v : Z) : no_panic (response_status_try_from v).
Proof. unfold response_status_try_from. repeat case_match; auto with rust. Qed.

Lemma status_try_from_inv (v : Z) (s : ResponseStatus) :
  response_status_try_from v = Ok s -> v = status_code s.
Proof. unfold response_status_try_from. repeat case_match; try discriminate; by intros [= <-]. Qed.

Lemma status_try_from_code (s : ResponseStatus) : response_status_try_from (status_code s) = Ok s.
Proof. by destruct s. Qed.

#[export] Hint Resolve status_try_from_no_panic : rust.

Lemma z2b_b2z_eq (b : byte) (z : Z) : b2z b = z -> b = z2b z.
Proof. intros <-. symmetry. apply z2b_b2z. Qed.

(** A list with at least [n] bytes shows them. *)
Tactic Notation "show_bytes" ident(l) hyp(H) integer(n) :=
  do n (destruct l as [|? l]; [exfalso; cbn [length] in H; lia|]).

(** Splits every conjunction of the context. *)
Ltac split_hyps :=
  repeat match goal with H : _ /\ _ |- _ => destruct H end.

(** A field written and read back is the field; a field read and written back
    is its bytes. *)
Ltac wire_values :=
  rewrite ?(from_to_le_bytes 8 64), ?(from_to_le_bytes 4 32), ?(from_to_le_bytes 2 16),
    ?(from_to_le_bytes_signed 4 32), ?(from_to_le_bytes_signed 2 16), ?b2z_z2b
    by first [reflexivity | assumption | lia].
Ltac wire_bytes :=
  rewrite ?(to_from_le_bytes 8), ?(to_from_le_bytes 4), ?(to_from_le_bytes 2),
    ?(to_from_le_bytes_signed 4), ?(to_from_le_bytes_signed 2), ?z2b_b2z by reflexivity.
(** The ranges of fields read from bytes. *)
Ltac wire_ranges :=
  first [ apply (from_le_bytes_range 8 64); reflexivity
        | apply (from_le_bytes_range 4 32); reflexivity
        | apply (from_le_bytes_range 2 16); reflexivity
        | apply (from_le_bytes_signed_range 4 32); [lia|reflexivity|reflexivity]
        | apply (from_le_bytes_signed_range 2 16); [lia|reflexivity|reflexivity]
        | apply b2z_range ].
(** An encoding fits the payload of a frame. *)
Ltac wire_fits :=
  autorewrite with len; cbn [length]; change MAX_PAYLOAD_BYTES with 512%nat; lia.

(** Inverts one step of a decoder, turning a read into its range and its bytes. *)
Ltac decode_step H :=
  let H1 := fresh "Hr" in
  apply outcome_bind_Ok in H as (? & H1 & H);
  try first
    [ apply read_u64_inv in H1 as [? H1] | apply read_u32_inv in H1 as [? H1]
    | apply read_u16_inv in H1 as [? H1] | apply read_i32_inv in H1 as [? H1]
    | apply read_i16_inv in H1 as [? H1] | apply index_u8_inv in H1 as [? H1] ].

(** [typed] of a record whose fields' ranges are hypotheses. *)
Ltac solve_typed := repeat first [assumption | apply conj | progress hnf].

(** The usual shape of a codec: the encoder checks its argument and then writes
    [wire]; the decoder accepts exactly what the encoder writes. *)
Lemma lawful_intro {E A : Type} `{WireCodec E A} `{Typed A} (wire : A -> bytes)
    (check : A -> outcome E unit) :
  (forall x, typed x -> wire_encode x = (_ ← check x; Ok (wire x))) ->
  (forall x, no_panic (check x)) ->
  (forall x, typed x -> check x = Ok tt -> wire_decode (wire x) = Ok x) ->
  (forall l x, wire_decode l = Ok x -> typed x /\ check x = Ok tt /\ l = wire x) ->
  (forall l, no_panic (wire_decode (E:=E) (A:=A) l)) ->
  (forall x, typed x -> check x = Ok tt -> (length (wire x) <= 512)%nat) ->
  lawful_codec E A.
Proof.
  intros Henc Hcheck Hdec Hinv Htotal Hfits. split.
  - intros x l Ht. rewrite Henc by done. intros ([] & Hc & [= <-])%outcome_bind_Ok. auto.
  - intros l x (Ht & Hc & ->)%Hinv. split; [done|]. by rewrite Henc, Hc.
  - done.
  - intros x Ht. rewrite Henc by done. apply no_panic_bind; auto with rust.
  - intros x l Ht. rewrite Henc by done. intros ([] & Hc & [= <-])%outcome_bind_Ok.
    change MAX_PAYLOAD_BYTES with 512%nat. auto.
Qed.

(** A validator of the source turned into a check. *)
Definition checked {E A : Type} (v : A -> outcome E A) (x : A) : outcome E unit :=
  (fun _ => tt) <$> v x.

Definition validates {E A : Type} (v : A -> outcome E A) : Prop :=
  forall x, no_panic (v x) /\ (forall y, v x = Ok y -> y = x).

Lemma checked_Ok_iff {E A : Type} (v : A -> outcome E A) (x : A) :
  validates v -> checked v x = Ok tt <-> v x = Ok x.
Proof.
  intros Hv. unfold checked. destruct (v x) as [y| |] eqn:Hy; cbn; [|done..].
  pose proof (proj2 (Hv x) y Hy) as ->. done.
Qed.

Lemma checked_no_panic {E A : Type} (v : A -> outcome E A) (x : A) :
  validates v -> no_panic (checked v x).
Proof. intros Hv. apply no_panic_fmap, Hv. Qed.

Lemma validates_bind {E A B : Type} (v : A -> outcome E A) (x : A) (k : outcome E B) :
  validates v -> (_ ← v x; k) = (_ ← checked v x; k).
Proof. intros Hv. unfold checked. by destruct (v x). Qed.


(** Discharges the panic freedom of a chain of reads inside known bounds. *)
Ltac read_total :=
  first [ apply slice_no_panic; lia | unfold slice_from; apply slice_no_panic; lia | apply index_no_panic; lia | apply read_u64_no_panic; lia
        | apply read_u32_no_panic; lia | apply read_u16_no_panic; lia | apply read_i32_no_panic; lia
        | apply read_i16_no_panic; lia | solve [auto with rust] ].
Ltac reads_total :=
  repeat lazymatch goal with
  | |- no_panic (mbind _ _) => apply no_panic_bind; [read_total|intros ? _]
  end.
