(* ===== verification/Adxl355.v ===== *)
(** * The ADXL355 device profile (crates/sensor-protocol/src/adxl355.rs)

    Plausible temperature codes, native 20-bit sample codes and the output data
    rates of the sensor's filter register. The conversion to Celsius is floating
    point and is not modelled. *)

From S2P Require Export Core.

Definition TEMPERATURE_CODE_MIN : Z := 750.
Definition TEMPERATURE_CODE_MAX : Z := 2700.

Inductive Adxl355TemperatureCodeError := ImplausibleTemperature (value : Z).

(** The newtype is its [u16]. *)
Abbreviation Adxl355TemperatureCode := Z.

Definition temperature_code_new (value : Z)
    : outcome Adxl355TemperatureCodeError Adxl355TemperatureCode :=
  if (value <? TEMPERATURE_CODE_MIN) || (TEMPERATURE_CODE_MAX <? value)
  then Err (ImplausibleTemperature value) else Ok value.

Definition SAMPLE_CODE_MIN : Z := -524288.
Definition SAMPLE_CODE_MAX : Z := 524287.

Inductive Adxl355SampleCodeError := OutsideSigned20Bit (value : Z).

Definition sample_code_new (value : Z) : outcome Adxl355SampleCodeError Z :=
  if (value <? SAMPLE_CODE_MIN) || (SAMPLE_CODE_MAX <? value)
  then Err (OutsideSigned20Bit value) else Ok value.

(** [SampleAxis::from]: the [unreachable!] branch is a panic. *)
Definition sample_axis_from {E : Type} (code : Z) : outcome E SampleAxis :=
  match sample_axis_new code with
  | Ok value => Ok value
  | _ => Panic
  end.

Inductive Adxl355Odr :=
| OdrHz4000 | OdrHz2000 | OdrHz1000 | OdrHz500 | OdrHz250 | OdrHz125 | OdrHz62_5 | OdrHz31_25
| OdrHz15_625 | OdrHz7_8125 | OdrHz3_90625.

#[export] Instance Adxl355Odr_eq_dec : EqDecision Adxl355Odr.
Proof. solve_decision. Defined.

Definition register_value (odr : Adxl355Odr) : Z :=
  match odr with
  | OdrHz4000 => 0 | OdrHz2000 => 1 | OdrHz1000 => 2 | OdrHz500 => 3 | OdrHz250 => 4
  | OdrHz125 => 5 | OdrHz62_5 => 6 | OdrHz31_25 => 7 | OdrHz15_625 => 8 | OdrHz7_8125 => 9
  | OdrHz3_90625 => 10
  end.

Definition from_register_value (value : Z) : option Adxl355Odr :=
  match value with
  | 0 => Some OdrHz4000
  | 1 => Some OdrHz2000
  | 2 => Some OdrHz1000
  | 3 => Some OdrHz500
  | 4 => Some OdrHz250
  | 5 => Some OdrHz125
  | 6 => Some OdrHz62_5
  | 7 => Some OdrHz31_25
  | 8 => Some OdrHz15_625
  | 9 => Some OdrHz7_8125
  | 10 => Some OdrHz3_90625
  | _ => None
  end.

Definition odr_sample_rate (odr : Adxl355Odr) : SampleRate :=
  match odr with
  | OdrHz4000 => HZ_4000
  | OdrHz2000 => HZ_2000
  | OdrHz1000 => HZ_1000
  | OdrHz500 => HZ_500
  | OdrHz250 => HZ_250
  | OdrHz125 => HZ_125
  | OdrHz62_5 => HZ_62_5
  | OdrHz31_25 => HZ_31_25
  | OdrHz15_625 => HZ_15_625
  | OdrHz7_8125 => HZ_7_8125
  | OdrHz3_90625 => HZ_3_90625
  end.

(** [low_pass_corner]: the [panic!] branch is a panic. *)
Definition low_pass_corner {E : Type} (odr : Adxl355Odr) : outcome E SampleRate :=
  match divided_by (odr_sample_rate odr) 4 with
  | Ok rate => Ok rate
  | _ => Panic
  end.

Lemma from_register_value_code (odr : Adxl355Odr) :
  from_register_value (b2z (z2b (register_value odr))) = Some odr.
Proof. by destruct odr. Qed.

Lemma from_register_value_inv (v : Z) (odr : Adxl355Odr) :
  from_register_value v = Some odr -> register_value odr = v.
Proof. unfold from_register_value. repeat case_match; try discriminate; by intros [= <-]. Qed.

(** The device profile never reaches its unreachable branches: every
    20-bit code is a sample axis, and every output data rate is divisible by
    four. *)
Lemma adxl355_profile_total (code : Z) (odr : Adxl355Odr) :
  (forall c, sample_code_new code = Ok c -> sample_axis_from (E:=Adxl355SampleCodeError) c = Ok code) /\
  (exists rate, low_pass_corner (E:=SampleRateError) odr = Ok rate /\
     4 * rate = odr_sample_rate odr) /\
  from_register_value (register_value odr) = Some odr.
Proof.
  split_and!.
  - unfold sample_code_new, sample_axis_from, sample_axis_new, SAMPLE_CODE_MIN, SAMPLE_CODE_MAX.
    intros c Hc. run_in Hc. subst c. unfold SAMPLE_AXIS_MIN, SAMPLE_AXIS_MAX.
    destruct (_ || _)%bool eqn:Hr; [|done]. to_prop. destruct Hr; to_prop; lia.
  - destruct odr; (eexists; split; [vm_compute; reflexivity|vm_compute; reflexivity]).
  - by destruct odr.
Qed.
