(* ===== verification/Measurement.v ===== *)
(** * The measurement contracts (crates/sensor-protocol/src/measurement.rs)

    The requests and the evidence a node may answer with: a chunk of samples, an
    exact gap, a continuity break, or the state of its journal. Each validator
    is the source's chain of guards; the lemmas give the arithmetic facts the
    host relies on once a validator has accepted. *)

From S2P Require Export Core.

Definition PULL_SAMPLES_REQUEST_BYTES : nat := 8 + 8 + 8 + 2.
Definition SAMPLE_CHUNK_FIELDS_BYTES : nat := 8 + 8 + 8 + 8 + 2.
Definition SAMPLE_CHUNK_SUCCESS_HEADER_BYTES : nat := 1 + SAMPLE_CHUNK_FIELDS_BYTES.
Definition XYZ_I24_WIRE_SAMPLE_BYTES : Z := 9.

Inductive MeasurementContractError :=
| ZeroBootEpoch | ZeroJournalCapacity | ZeroSampleLimit | ReleaseAheadOfRequest | StreamChangedError
| RequestedRangeUnavailable | UnexpectedFirstSequence | EmptySampleChunk | SampleLimitExceeded
| SequenceOverflowError | RetainedAheadOfProduced | ReleasedAheadOfProduced | ChunkAheadOfProduced
| FirstBeforeRetained | EmptyGapError | GapBeforeRetained | GapAheadOfProduced
| InvalidExactGapReason | BreakBeforeRetained | BreakAheadOfProduced.

#[export] Instance MeasurementContractError_eq_dec : EqDecision MeasurementContractError.
Proof. solve_decision. Defined.

Abbreviation contract := (outcome MeasurementContractError).

(** ** Requests *)

Record PullSamplesRequest := mkPull {
  pull_boot_epoch : BootEpoch;
  pull_from : SequenceCursor;
  pull_release_before : SequenceCursor;
  pull_max_samples : Z
}.

#[export] Instance PullSamplesRequest_eq_dec : EqDecision PullSamplesRequest.
Proof. solve_decision. Defined.

Definition pull_request_new (boot_epoch : BootEpoch) (from release_before : SequenceCursor)
    (max_samples : Z) : contract PullSamplesRequest :=
  if boot_epoch =? 0 then Err ZeroBootEpoch
  else if max_samples =? 0 then Err ZeroSampleLimit
  else if from <? release_before then Err ReleaseAheadOfRequest
  else Ok (mkPull boot_epoch from release_before max_samples).

(** What the constructor establishes on typed arguments. *)
#[export] Instance PullSamplesRequest_typed : Typed PullSamplesRequest := fun r =>
  u64 (pull_boot_epoch r) /\ u64 (pull_from r) /\ u64 (pull_release_before r) /\
  u16 (pull_max_samples r) /\
  pull_boot_epoch r <> 0 /\ pull_max_samples r <> 0 /\ pull_release_before r <= pull_from r.

Record ReleaseSamplesRequest := mkRelease {
  release_boot_epoch : BootEpoch;
  release_release_before : SequenceCursor
}.

#[export] Instance ReleaseSamplesRequest_eq_dec : EqDecision ReleaseSamplesRequest.
Proof. solve_decision. Defined.

Definition release_request_new (boot_epoch : BootEpoch) (release_before : SequenceCursor)
    : contract ReleaseSamplesRequest :=
  if boot_epoch =? 0 then Err ZeroBootEpoch else Ok (mkRelease boot_epoch release_before).

#[export] Instance ReleaseSamplesRequest_typed : Typed ReleaseSamplesRequest := fun r =>
  u64 (release_boot_epoch r) /\ u64 (release_release_before r) /\ release_boot_epoch r <> 0.

(** ** The node's journal *)

Record StreamState := mkStreamState {
  ss_boot_epoch : BootEpoch;
  ss_retained_from : SequenceCursor;
  ss_produced : SequenceCursor;
  ss_released : SequenceCursor;
  ss_capacity_samples : Z;
  ss_overwritten_samples : Z
}.

#[export] Instance StreamState_eq_dec : EqDecision StreamState.
Proof. solve_decision. Defined.

Definition stream_state_validate (self : StreamState) : contract StreamState :=
  if ss_boot_epoch self =? 0 then Err ZeroBootEpoch
  else if ss_capacity_samples self =? 0 then Err ZeroJournalCapacity
  else if ss_produced self <? ss_retained_from self then Err RetainedAheadOfProduced
  else if ss_produced self <? ss_released self then Err ReleasedAheadOfProduced
  else Ok self.

#[export] Instance StreamState_typed : Typed StreamState := fun s =>
  u64 (ss_boot_epoch s) /\ u64 (ss_retained_from s) /\ u64 (ss_produced s) /\
  u64 (ss_released s) /\ u32 (ss_capacity_samples s) /\ u64 (ss_overwritten_samples s).

(** ** Sample chunks *)

Record SampleChunkHeader := mkHeader {
  chunk_boot_epoch : BootEpoch;
  chunk_retained_from : SequenceCursor;
  chunk_produced : SequenceCursor;
  chunk_first : SequenceCursor;
  chunk_sample_count : Z
}.

#[export] Instance SampleChunkHeader_eq_dec : EqDecision SampleChunkHeader.
Proof. solve_decision. Defined.

#[export] Instance SampleChunkHeader_typed : Typed SampleChunkHeader := fun h =>
  u64 (chunk_boot_epoch h) /\ u64 (chunk_retained_from h) /\ u64 (chunk_produced h) /\
  u64 (chunk_first h) /\ u16 (chunk_sample_count h).

Definition chunk_end (self : SampleChunkHeader) : contract SequenceCursor :=
  ok_or (checked_advance (chunk_first self) (chunk_sample_count self)) SequenceOverflowError.

Definition chunk_more_available (self : SampleChunkHeader) : contract bool :=
  e ← chunk_end self; Ok (e <? chunk_produced self).

Definition chunk_validate_structure (self : SampleChunkHeader) : contract SampleChunkHeader :=
  if chunk_boot_epoch self =? 0 then Err ZeroBootEpoch
  else if chunk_produced self <? chunk_retained_from self then Err RetainedAheadOfProduced
  else if chunk_sample_count self =? 0 then Err EmptySampleChunk
  else if chunk_first self <? chunk_retained_from self then Err FirstBeforeRetained
  else
    e ← ok_or (checked_advance (chunk_first self) (chunk_sample_count self)) SequenceOverflowError;
    if chunk_produced self <? e then Err ChunkAheadOfProduced else Ok self.

Definition chunk_validate_for (self : SampleChunkHeader) (request : PullSamplesRequest)
    : contract SampleChunkHeader :=
  if negb (chunk_boot_epoch self =? pull_boot_epoch request) then Err StreamChangedError
  else
    _ ← chunk_validate_structure self;
    if pull_from request <? chunk_retained_from self then Err RequestedRangeUnavailable
    else if negb (chunk_first self =? pull_from request) then Err UnexpectedFirstSequence
    else if pull_max_samples request <? chunk_sample_count self then Err SampleLimitExceeded
    else Ok self.

(** ** Exact gaps *)

Record GapEvidence := mkGapEvidence {
  ge_boot_epoch : BootEpoch;
  ge_retained_from : SequenceCursor;
  ge_produced : SequenceCursor;
  ge_first_missing : SequenceCursor;
  ge_missing_count : Z;
  ge_reason : GapReason
}.

#[export] Instance GapEvidence_eq_dec : EqDecision GapEvidence.
Proof. solve_decision. Defined.

#[export] Instance GapEvidence_typed : Typed GapEvidence := fun g =>
  u64 (ge_boot_epoch g) /\ u64 (ge_retained_from g) /\ u64 (ge_produced g) /\
  u64 (ge_first_missing g) /\ u64 (ge_missing_count g).

Definition gap_evidence_end (self : GapEvidence) : contract SequenceCursor :=
  ok_or (checked_advance (ge_first_missing self) (ge_missing_count self)) SequenceOverflowError.

Definition gap_evidence_validate_structure (self : GapEvidence) : contract GapEvidence :=
  if ge_boot_epoch self =? 0 then Err ZeroBootEpoch
  else if ge_produced self <? ge_retained_from self then Err RetainedAheadOfProduced
  else if ge_missing_count self =? 0 then Err EmptyGapError
  else if bool_decide (ge_reason self = JournalOverflow) then Err InvalidExactGapReason
  else if ge_first_missing self <? ge_retained_from self then Err GapBeforeRetained
  else
    e ← gap_evidence_end self;
    if ge_produced self <? e then Err GapAheadOfProduced else Ok self.

Definition gap_evidence_validate_for (self : GapEvidence) (request : PullSamplesRequest)
    : contract GapEvidence :=
  if negb (ge_boot_epoch self =? pull_boot_epoch request) then Err StreamChangedError
  else
    _ ← gap_evidence_validate_structure self;
    if pull_from request <? ge_retained_from self then Err RequestedRangeUnavailable
    else if negb (ge_first_missing self =? pull_from request) then Err UnexpectedFirstSequence
    else Ok self.

(** ** Continuity breaks *)

Record ContinuityBreakEvidence := mkBreakEvidence {
  be_boot_epoch : BootEpoch;
  be_retained_from : SequenceCursor;
  be_produced : SequenceCursor;
  be_at : SequenceCursor;
  be_reason : ContinuityBreakReason
}.

#[export] Instance ContinuityBreakEvidence_eq_dec : EqDecision ContinuityBreakEvidence.
Proof. solve_decision. Defined.

#[export] Instance ContinuityBreakEvidence_typed : Typed ContinuityBreakEvidence := fun b =>
  u64 (be_boot_epoch b) /\ u64 (be_retained_from b) /\ u64 (be_produced b) /\ u64 (be_at b).

Definition break_evidence_end (self : ContinuityBreakEvidence) : contract SequenceCursor :=
  ok_or (checked_advance (be_at self) 1) SequenceOverflowError.

Definition break_evidence_validate_structure (self : ContinuityBreakEvidence)
    : contract ContinuityBreakEvidence :=
  if be_boot_epoch self =? 0 then Err ZeroBootEpoch
  else if be_produced self <? be_retained_from self then Err RetainedAheadOfProduced
  else if be_at self <? be_retained_from self then Err BreakBeforeRetained
  else
    e ← break_evidence_end self;
    if be_produced self <? e then Err BreakAheadOfProduced else Ok self.

Definition break_evidence_validate_for (self : ContinuityBreakEvidence)
    (request : PullSamplesRequest) : contract ContinuityBreakEvidence :=
  if negb (be_boot_epoch self =? pull_boot_epoch request) then Err StreamChangedError
  else
    _ ← break_evidence_validate_structure self;
    if pull_from request <? be_retained_from self then Err RequestedRangeUnavailable
    else if negb (be_at self =? pull_from request) then Err UnexpectedFirstSequence
    else Ok self.

(** ** Validators return their argument and never panic *)

Section Validators.
(** A validator of the source: [Ok] of the value itself. *)
Definition validator {E A : Type} (v : A -> outcome E A) : Prop :=
  forall x, no_panic (v x) /\ (forall y, v x = Ok y -> y = x).

Ltac validate :=
  intros x;
  split;
  [ repeat (split_guard; auto with rust);
    repeat (apply no_panic_bind; [auto with rust|intros]; repeat (split_guard; auto with rust))
  | intros y Hy; repeat (split_guard_in Hy; try discriminate Hy);
    try (apply outcome_bind_Ok in Hy as (? & _ & Hy); repeat (split_guard_in Hy; try discriminate Hy));
    congruence ].

Lemma stream_state_validator : validator stream_state_validate.
Proof. unfold stream_state_validate. validate. Qed.

Lemma chunk_validator : validator chunk_validate_structure.
Proof. unfold chunk_validate_structure. validate. Qed.

Lemma gap_evidence_validator : validator gap_evidence_validate_structure.
Proof. unfold gap_evidence_validate_structure, gap_evidence_end. validate. Qed.

Lemma break_evidence_validator : validator break_evidence_validate_structure.
Proof. unfold break_evidence_validate_structure, break_evidence_end. validate. Qed.
End Validators.

Lemma chunk_validate_for_no_panic (h : SampleChunkHeader) (request : PullSamplesRequest) :
  no_panic (chunk_validate_for h request).
Proof.
  unfold chunk_validate_for. split_guard; auto with rust.
  apply no_panic_bind; [apply chunk_validator|]. intros. repeat split_guard; auto with rust.
Qed.

Lemma gap_evidence_validate_for_no_panic (g : GapEvidence) (request : PullSamplesRequest) :
  no_panic (gap_evidence_validate_for g request).
Proof.
  unfold gap_evidence_validate_for. split_guard; auto with rust.
  apply no_panic_bind; [apply gap_evidence_validator|]. intros. repeat split_guard; auto with rust.
Qed.

Lemma break_evidence_validate_for_no_panic (b : ContinuityBreakEvidence) (request : PullSamplesRequest) :
  no_panic (break_evidence_validate_for b request).
Proof.
  unfold break_evidence_validate_for. split_guard; auto with rust.
  apply no_panic_bind; [apply break_evidence_validator|]. intros. repeat split_guard; auto with rust.
Qed.

(** ** What acceptance means *)

Lemma chunk_structure_Ok (h h' : SampleChunkHeader) :
  chunk_validate_structure h = Ok h' ->
  chunk_boot_epoch h <> 0 /\ chunk_retained_from h <= chunk_first h /\
  chunk_sample_count h <> 0 /\ chunk_first h + chunk_sample_count h < 2 ^ 64 /\
  chunk_first h + chunk_sample_count h <= chunk_produced h.
Proof.
  unfold chunk_validate_structure, checked_advance, checked_add. intros H. run_in H; cbn [ok_or mbind outcome_bind] in H;
    run_in H; split_and!; auto; lia.
Qed.

Lemma chunk_validate_for_Ok (h h' : SampleChunkHeader) (request : PullSamplesRequest) :
  chunk_validate_for h request = Ok h' ->
  chunk_validate_structure h = Ok h /\ h' = h /\
  chunk_boot_epoch h = pull_boot_epoch request /\ chunk_first h = pull_from request /\
  chunk_sample_count h <= pull_max_samples request.
Proof.
  unfold chunk_validate_for. intros H. destruct (Z.eqb_spec (chunk_boot_epoch h) (pull_boot_epoch request)); [|discriminate H].
  cbn [negb] in H. apply outcome_bind_Ok in H as (x & Hx & H).
  pose proof (proj2 (chunk_validator h) x Hx) as ->. run_in H. split_and!; auto; congruence.
Qed.

Lemma gap_evidence_structure_Ok (g g' : GapEvidence) :
  gap_evidence_validate_structure g = Ok g' ->
  ge_boot_epoch g <> 0 /\ ge_retained_from g <= ge_first_missing g /\ ge_missing_count g <> 0 /\
  ge_reason g <> JournalOverflow /\ ge_first_missing g + ge_missing_count g < 2 ^ 64 /\
  ge_first_missing g + ge_missing_count g <= ge_produced g.
Proof.
  unfold gap_evidence_validate_structure, gap_evidence_end, checked_advance, checked_add.
  intros H. run_in H; cbn [ok_or mbind outcome_bind] in H; run_in H; split_and!; auto; lia.
Qed.

Lemma gap_evidence_validate_for_Ok (g g' : GapEvidence) (request : PullSamplesRequest) :
  gap_evidence_validate_for g request = Ok g' ->
  gap_evidence_validate_structure g = Ok g /\ g' = g /\
  ge_boot_epoch g = pull_boot_epoch request /\ ge_first_missing g = pull_from request.
Proof.
  unfold gap_evidence_validate_for. intros H. destruct (Z.eqb_spec (ge_boot_epoch g) (pull_boot_epoch request)); [|discriminate H].
  cbn [negb] in H. apply outcome_bind_Ok in H as (x & Hx & H).
  pose proof (proj2 (gap_evidence_validator g) x Hx) as ->. run_in H. split_and!; auto; congruence.
Qed.

Lemma break_evidence_structure_Ok (b b' : ContinuityBreakEvidence) :
  break_evidence_validate_structure b = Ok b' ->
  be_boot_epoch b <> 0 /\ be_retained_from b <= be_at b /\ be_at b + 1 < 2 ^ 64 /\
  be_at b + 1 <= be_produced b.
Proof.
  unfold break_evidence_validate_structure, break_evidence_end, checked_advance, checked_add.
  intros H. run_in H; cbn [ok_or mbind outcome_bind] in H; run_in H; split_and!; auto; lia.
Qed.

Lemma break_evidence_validate_for_Ok (b b' : ContinuityBreakEvidence) (request : PullSamplesRequest) :
  break_evidence_validate_for b request = Ok b' ->
  break_evidence_validate_structure b = Ok b /\ b' = b /\
  be_boot_epoch b = pull_boot_epoch request /\ be_at b = pull_from request.
Proof.
  unfold break_evidence_validate_for. intros H. destruct (Z.eqb_spec (be_boot_epoch b) (pull_boot_epoch request)); [|discriminate H].
  cbn [negb] in H. apply outcome_bind_Ok in H as (x & Hx & H).
  pose proof (proj2 (break_evidence_validator b) x Hx) as ->. run_in H. split_and!; auto; congruence.
Qed.

Lemma stream_state_Ok (s s' : StreamState) :
  stream_state_validate s = Ok s' ->
  ss_boot_epoch s <> 0 /\ ss_capacity_samples s <> 0 /\
  ss_retained_from s <= ss_produced s /\ ss_released s <= ss_produced s.
Proof. unfold stream_state_validate. intros H. run_in H. split_and!; auto; lia. Qed.
