(* ===== verification/MeasurementWire.v ===== *)
(** * The Measurement service on the wire
      (crates/sensor-protocol/src/measurement_wire.rs)

    Pull and release requests, the stream-state response and the seven kinds of
    pull response, written into and read from byte arrays at the source's
    offsets. *)

From S2P Require Export Application Measurement.
From S2P Require Import Framing.

Definition STREAM_STATE_FIELDS_BYTES : nat := 44.
Definition STREAM_STATE_SUCCESS_BYTES : nat := 1 + STREAM_STATE_FIELDS_BYTES.
Definition PULL_REQUEST_BYTES : nat := 26.
Definition RELEASE_REQUEST_BYTES : nat := 16.
Definition CHUNK_FIXED_BYTES : nat := 66.
Definition GAP_RESPONSE_BYTES : nat := 43.
Definition CONTINUITY_BREAK_RESPONSE_BYTES : nat := 35.
Definition MAX_WIRE_CHUNK_SAMPLES : Z :=
  (Z.of_nat MAX_PAYLOAD_BYTES - Z.of_nat CHUNK_FIXED_BYTES) / 9.

Definition TIMING_VALID : Z := 1.
Definition KNOWN_TIMING_FLAGS : Z := 31.

Inductive PullResultCode :=
| CodeSampleChunk | CodeNoData | CodeRangeUnavailable | CodeStreamChanged | CodeInvalidRelease
| CodeGap | CodeContinuityBreak.

Inductive MeasurementWireError :=
| InvalidLength
| UnknownStatus (value : Z)
| RemoteError (status : ResponseStatus)
| UnknownResult (value : Z)
| UnknownTimingFlags (bits : Z)
| ZeroTimingSegment
| ReversedTimingAnchors
| InvalidSingleSampleTiming
| CollapsedTimingAnchors
| ZeroConfigRevision
| SampleCountMismatch
| ChunkTooLarge
| InvalidAxis
| InvalidGapReason
| UnknownGapReason (value : Z)
| UnknownContinuityBreakReason (value : Z)
| Contract (error : MeasurementContractError).

Abbreviation mwire := (outcome MeasurementWireError).

(** [code as u8]. *)
Definition pull_result_code (c : PullResultCode) : Z :=
  match c with
  | CodeSampleChunk => 0 | CodeNoData => 1 | CodeRangeUnavailable => 2 | CodeStreamChanged => 3
  | CodeInvalidRelease => 4 | CodeGap => 5 | CodeContinuityBreak => 6
  end.

Definition pull_result_try_from (value : Z) : mwire PullResultCode :=
  match value with
  | 0 => Ok CodeSampleChunk
  | 1 => Ok CodeNoData
  | 2 => Ok CodeRangeUnavailable
  | 3 => Ok CodeStreamChanged
  | 4 => Ok CodeInvalidRelease
  | 5 => Ok CodeGap
  | 6 => Ok CodeContinuityBreak
  | _ => Err (UnknownResult value)
  end.

(** ** Timing evidence and chunks *)

Record TimingEvidence := mkTiming {
  segment_id : Z;
  first_device_time_us : Z;
  last_device_time_us : Z;
  max_fit_residual_us : Z;
  quality_flags : Z
}.

#[export] Instance TimingEvidence_eq_dec : EqDecision TimingEvidence.
Proof. solve_decision. Defined.

#[export] Instance TimingEvidence_typed : Typed TimingEvidence := fun t =>
  u32 (segment_id t) /\ u64 (first_device_time_us t) /\ u64 (last_device_time_us t) /\
  u32 (max_fit_residual_us t) /\ u16 (quality_flags t).

Definition timing_validate (self : TimingEvidence) (sample_count : Z) : mwire TimingEvidence :=
  let unknown := Z.land (quality_flags self) (bit_not 16 KNOWN_TIMING_FLAGS) in
  if segment_id self =? 0 then Err ZeroTimingSegment
  else if negb (unknown =? 0) then Err (UnknownTimingFlags unknown)
  else if last_device_time_us self <? first_device_time_us self then Err ReversedTimingAnchors
  else if negb (Z.land (quality_flags self) TIMING_VALID =? 0) then
    if (sample_count =? 1) && negb (last_device_time_us self =? first_device_time_us self)
    then Err InvalidSingleSampleTiming
    else if (1 <? sample_count) && (last_device_time_us self =? first_device_time_us self)
    then Err CollapsedTimingAnchors
    else Ok self
  else Ok self.

Record SampleChunk := mkChunk {
  header : SampleChunkHeader;
  config_revision : Z;
  timing : TimingEvidence;
  samples : list SampleAxes
}.

#[export] Instance SampleChunk_eq_dec : EqDecision SampleChunk.
Proof. solve_decision. Defined.

#[export] Instance SampleChunk_typed : Typed SampleChunk := fun c =>
  typed (header c) /\ u32 (config_revision c) /\ typed (timing c) /\ Forall typed (samples c).

Definition sample_chunk_validate (self : SampleChunk) : mwire unit :=
  _ ← map_err Contract (chunk_validate_structure (header self));
  if config_revision self =? 0 then Err ZeroConfigRevision
  else if negb (Z.of_nat (length (samples self)) =? chunk_sample_count (header self))
  then Err SampleCountMismatch
  else if MAX_WIRE_CHUNK_SAMPLES <? Z.of_nat (length (samples self)) then Err ChunkTooLarge
  else
    _ ← timing_validate (timing self) (chunk_sample_count (header self));
    Ok tt.

Inductive PullResponse :=
| RSampleChunk (chunk : SampleChunk)
| RNoData (state : StreamState)
| RRangeUnavailable (state : StreamState)
| RStreamChanged (epoch : BootEpoch)
| RInvalidRelease (state : StreamState)
| RGap (gap : GapEvidence)
| RContinuityBreak (value : ContinuityBreakEvidence).

#[export] Instance PullResponse_eq_dec : EqDecision PullResponse.
Proof. solve_decision. Defined.

#[export] Instance PullResponse_typed : Typed PullResponse := fun r =>
  match r with
  | RSampleChunk chunk => typed chunk
  | RNoData state | RRangeUnavailable state | RInvalidRelease state => typed state
  | RStreamChanged epoch => u64 epoch
  | RGap gap => typed gap
  | RContinuityBreak value => typed value
  end.

(** ** Shared reads *)

Definition decode_ok_status (payload : bytes) : mwire unit :=
  raw ← ok_or (b2z <$> head payload) InvalidLength;
  status ← map_err (fun _ => UnknownStatus raw) (response_status_try_from raw);
  if bool_decide (status = StatusOk) then Ok tt else Err (RemoteError status).

Definition require_length (payload : bytes) (expected : nat) : mwire unit :=
  if (length payload =? expected)%nat then Ok tt else Err InvalidLength.

(** ** Requests *)

Definition encode_pull_request (request : PullSamplesRequest) : mwire bytes :=
  output ← put 0 8 (to_le_bytes 8 (pull_boot_epoch request)) (zeros PULL_REQUEST_BYTES);
  output ← put 8 16 (to_le_bytes 8 (pull_from request)) output;
  output ← put 16 24 (to_le_bytes 8 (pull_release_before request)) output;
  put 24 26 (to_le_bytes 2 (pull_max_samples request)) output.

Definition decode_pull_request (payload : bytes) : mwire PullSamplesRequest :=
  _ ← require_length payload PULL_REQUEST_BYTES;
  boot_epoch ← read_u64 payload 0;
  from ← read_u64 payload 8;
  release_before ← read_u64 payload 16;
  max_samples ← read_u16 payload 24;
  map_err Contract (pull_request_new boot_epoch from release_before max_samples).

Definition encode_release_request (request : ReleaseSamplesRequest) : mwire bytes :=
  output ← put 0 8 (to_le_bytes 8 (release_boot_epoch request)) (zeros RELEASE_REQUEST_BYTES);
  put 8 16 (to_le_bytes 8 (release_release_before request)) output.

Definition decode_release_request (payload : bytes) : mwire ReleaseSamplesRequest :=
  _ ← require_length payload RELEASE_REQUEST_BYTES;
  boot_epoch ← read_u64 payload 0;
  release_before ← read_u64 payload 8;
  map_err Contract (release_request_new boot_epoch release_before).

(** ** Stream state *)

Definition encode_stream_state_fields (state : StreamState) (output : bytes) : mwire bytes :=
  output ← put 0 8 (to_le_bytes 8 (ss_boot_epoch state)) output;
  output ← put 8 16 (to_le_bytes 8 (ss_retained_from state)) output;
  output ← put 16 24 (to_le_bytes 8 (ss_produced state)) output;
  output ← put 24 32 (to_le_bytes 8 (ss_released state)) output;
  output ← put 32 36 (to_le_bytes 4 (ss_capacity_samples state)) output;
  put 36 44 (to_le_bytes 8 (ss_overwritten_samples state)) output.

Definition decode_stream_state_fields (payload : bytes) : mwire StreamState :=
  _ ← require_length payload STREAM_STATE_FIELDS_BYTES;
  boot_epoch ← read_u64 payload 0;
  retained_from ← read_u64 payload 8;
  produced ← read_u64 payload 16;
  released ← read_u64 payload 24;
  capacity_samples ← read_u32 payload 32;
  overwritten_samples ← read_u64 payload 36;
  map_err Contract
    (stream_state_validate
       (mkStreamState boot_epoch retained_from produced released capacity_samples
          overwritten_samples)).

Definition encode_stream_state_success (state : StreamState) : mwire bytes :=
  _ ← map_err Contract (stream_state_validate state);
  output ← put1 0 (status_code StatusOk) (zeros STREAM_STATE_SUCCESS_BYTES);
  with_slice 1 (length output) (encode_stream_state_fields state) output.

Definition decode_stream_state_success (payload : bytes) : mwire StreamState :=
  _ ← decode_ok_status payload;
  _ ← require_length payload STREAM_STATE_SUCCESS_BYTES;
  fields ← slice_from 1 payload;
  decode_stream_state_fields fields.

Definition encode_state_result (code : PullResultCode) (state : StreamState) (output : bytes)
    : mwire (nat * bytes) :=
  _ ← map_err Contract (stream_state_validate state);
  output ← put1 1 (pull_result_code code) output;
  output ← with_slice 2 46 (encode_stream_state_fields state) output;
  Ok (46%nat, output).

Definition decode_state_result (payload : bytes) : mwire StreamState :=
  _ ← require_length payload 46;
  fields ← slice_from 2 payload;
  decode_stream_state_fields fields.

(** ** Chunks *)

(** The destination is a three-byte slice. *)
Definition encode_i24 (axis : SampleAxis) (output : bytes) : mwire bytes :=
  low ← slice 0 3 (to_le_bytes 4 axis);
  put 0 (length output) low output.

Definition decode_i24 (input : bytes) : mwire SampleAxis :=
  i0 ← index 0 input;
  i1 ← index 1 input;
  i2 ← index 2 input;
  let sign := if Z.land i2 0x80 =? 0 then 0 else 0xff in
  map_err (fun _ => InvalidAxis)
    (sample_axis_new (from_le_bytes_signed [z2b i0; z2b i1; z2b i2; z2b sign])).

Fixpoint encode_samples (samples : list SampleAxes) (i : nat) (output : bytes) : mwire bytes :=
  match samples with
  | [] => Ok output
  | sample :: samples =>
      let offset := (CHUNK_FIXED_BYTES + i * 9)%nat in
      output ← with_slice offset (offset + 3) (encode_i24 (ax sample)) output;
      output ← with_slice (offset + 3) (offset + 6) (encode_i24 (ay sample)) output;
      output ← with_slice (offset + 6) (offset + 9) (encode_i24 (az sample)) output;
      encode_samples samples (i + 1) output
  end.

Definition encode_chunk (chunk : SampleChunk) (output : bytes) : mwire bytes :=
  output ← put 2 10 (to_le_bytes 8 (chunk_boot_epoch (header chunk))) output;
  output ← put 10 18 (to_le_bytes 8 (chunk_retained_from (header chunk))) output;
  output ← put 18 26 (to_le_bytes 8 (chunk_produced (header chunk))) output;
  output ← put 26 34 (to_le_bytes 8 (chunk_first (header chunk))) output;
  output ← put 34 36 (to_le_bytes 2 (chunk_sample_count (header chunk))) output;
  output ← put 36 40 (to_le_bytes 4 (config_revision chunk)) output;
  output ← put 40 44 (to_le_bytes 4 (segment_id (timing chunk))) output;
  output ← put 44 52 (to_le_bytes 8 (first_device_time_us (timing chunk))) output;
  output ← put 52 60 (to_le_bytes 8 (last_device_time_us (timing chunk))) output;
  output ← put 60 64 (to_le_bytes 4 (max_fit_residual_us (timing chunk))) output;
  output ← put 64 66 (to_le_bytes 2 (quality_flags (timing chunk))) output;
  encode_samples (samples chunk) 0 output.

(** [for index in i..i + n]. *)
Fixpoint decode_samples (n i : nat) (payload : bytes) : mwire (list SampleAxes) :=
  match n with
  | O => Ok []
  | S n =>
      let offset := (CHUNK_FIXED_BYTES + i * 9)%nat in
      sx ← slice offset (offset + 3) payload; x ← decode_i24 sx;
      sy ← slice (offset + 3) (offset + 6) payload; y ← decode_i24 sy;
      sz ← slice (offset + 6) (offset + 9) payload; z ← decode_i24 sz;
      rest ← decode_samples n (i + 1) payload;
      Ok (mkAxes x y z :: rest)
  end.

Definition decode_chunk (payload : bytes) : mwire SampleChunk :=
  if (length payload <? CHUNK_FIXED_BYTES)%nat then Err InvalidLength
  else
    count ← read_u16 payload 34;
    _ ← require_length payload (CHUNK_FIXED_BYTES + Z.to_nat count * 9);
    samples ← decode_samples (Z.to_nat count) 0 payload;
    boot_epoch ← read_u64 payload 2;
    retained_from ← read_u64 payload 10;
    produced ← read_u64 payload 18;
    first ← read_u64 payload 26;
    config_revision ← read_u32 payload 36;
    segment_id ← read_u32 payload 40;
    first_device_time_us ← read_u64 payload 44;
    last_device_time_us ← read_u64 payload 52;
    max_fit_residual_us ← read_u32 payload 60;
    quality_flags ← read_u16 payload 64;
    let chunk :=
      mkChunk (mkHeader boot_epoch retained_from produced first count) config_revision
        (mkTiming segment_id first_device_time_us last_device_time_us max_fit_residual_us
           quality_flags) samples in
    _ ← sample_chunk_validate chunk;
    Ok chunk.

(** ** Gaps and continuity breaks *)

Definition gap_reason_to_wire (reason : GapReason) : mwire Z :=
  match reason with
  | UnknownDiscontinuity => Ok 0
  | SourceLoss => Ok 1
  | IngressOverflow => Ok 2
  | JournalOverflow => Err InvalidGapReason
  end.

Definition gap_reason_from_wire (value : Z) : mwire GapReason :=
  match value with
  | 0 => Ok UnknownDiscontinuity
  | 1 => Ok SourceLoss
  | 2 => Ok IngressOverflow
  | value => Err (UnknownGapReason value)
  end.

Definition encode_gap (gap : GapEvidence) (output : bytes) : mwire (nat * bytes) :=
  _ ← map_err Contract (gap_evidence_validate_structure gap);
  output ← put1 1 (pull_result_code CodeGap) output;
  output ← put 2 10 (to_le_bytes 8 (ge_boot_epoch gap)) output;
  output ← put 10 18 (to_le_bytes 8 (ge_retained_from gap)) output;
  output ← put 18 26 (to_le_bytes 8 (ge_produced gap)) output;
  output ← put 26 34 (to_le_bytes 8 (ge_first_missing gap)) output;
  output ← put 34 42 (to_le_bytes 8 (ge_missing_count gap)) output;
  reason ← gap_reason_to_wire (ge_reason gap);
  output ← put1 42 reason output;
  Ok (GAP_RESPONSE_BYTES, output).

Definition decode_gap (payload : bytes) : mwire GapEvidence :=
  _ ← require_length payload GAP_RESPONSE_BYTES;
  raw ← index 42 payload;
  reason ← gap_reason_from_wire raw;
  boot_epoch ← read_u64 payload 2;
  retained_from ← read_u64 payload 10;
  produced ← read_u64 payload 18;
  first_missing ← read_u64 payload 26;
  missing_count ← read_u64 payload 34;
  map_err Contract
    (gap_evidence_validate_structure
       (mkGapEvidence boot_epoch retained_from produced first_missing missing_count reason)).

Definition break_reason_to_wire (reason : ContinuityBreakReason) : Z :=
  match reason with
  | BreakUnknown => 0
  | SensorOverflow => 1
  | SensorReadUncertain => 2
  | InvalidTiming => 3
  | ProcessingReset => 4
  end.

Definition break_reason_from_wire (value : Z) : mwire ContinuityBreakReason :=
  match value with
  | 0 => Ok BreakUnknown
  | 1 => Ok SensorOverflow
  | 2 => Ok SensorReadUncertain
  | 3 => Ok InvalidTiming
  | 4 => Ok ProcessingReset
  | value => Err (UnknownContinuityBreakReason value)
  end.

Definition encode_continuity_break (value : ContinuityBreakEvidence) (output : bytes)
    : mwire (nat * bytes) :=
  _ ← map_err Contract (break_evidence_validate_structure value);
  output ← put1 1 (pull_result_code CodeContinuityBreak) output;
  output ← put 2 10 (to_le_bytes 8 (be_boot_epoch value)) output;
  output ← put 10 18 (to_le_bytes 8 (be_retained_from value)) output;
  output ← put 18 26 (to_le_bytes 8 (be_produced value)) output;
  output ← put 26 34 (to_le_bytes 8 (be_at value)) output;
  output ← put1 34 (break_reason_to_wire (be_reason value)) output;
  Ok (CONTINUITY_BREAK_RESPONSE_BYTES, output).

Definition decode_continuity_break (payload : bytes) : mwire ContinuityBreakEvidence :=
  _ ← require_length payload CONTINUITY_BREAK_RESPONSE_BYTES;
  raw ← index 34 payload;
  reason ← break_reason_from_wire raw;
  boot_epoch ← read_u64 payload 2;
  retained_from ← read_u64 payload 10;
  produced ← read_u64 payload 18;
  at_ ← read_u64 payload 26;
  map_err Contract
    (break_evidence_validate_structure
       (mkBreakEvidence boot_epoch retained_from produced at_ reason)).

(** ** Pull responses *)

(** The length used and the caller's 512-byte array. *)
Definition encode_pull_response (response : PullResponse) (output : bytes)
    : mwire (nat * bytes) :=
  output ← put1 0 (status_code StatusOk) output;
  match response with
  | RSampleChunk chunk =>
      _ ← sample_chunk_validate chunk;
      output ← put1 1 (pull_result_code CodeSampleChunk) output;
      output ← encode_chunk chunk output;
      Ok ((CHUNK_FIXED_BYTES + length (samples chunk) * 9)%nat, output)
  | RNoData state => encode_state_result CodeNoData state output
  | RRangeUnavailable state => encode_state_result CodeRangeUnavailable state output
  | RStreamChanged epoch =>
      if epoch =? 0 then Err (Contract ZeroBootEpoch)
      else
        output ← put1 1 (pull_result_code CodeStreamChanged) output;
        output ← put 2 10 (to_le_bytes 8 epoch) output;
        Ok (10%nat, output)
  | RInvalidRelease state => encode_state_result CodeInvalidRelease state output
  | RGap gap => encode_gap gap output
  | RContinuityBreak value => encode_continuity_break value output
  end.

Definition decode_pull_response (payload : bytes) : mwire PullResponse :=
  _ ← decode_ok_status payload;
  if (length payload <? 2)%nat then Err InvalidLength
  else
    raw ← index 1 payload;
    code ← pull_result_try_from raw;
    match code with
    | CodeSampleChunk => RSampleChunk <$> decode_chunk payload
    | CodeNoData => RNoData <$> decode_state_result payload
    | CodeRangeUnavailable => RRangeUnavailable <$> decode_state_result payload
    | CodeStreamChanged =>
        _ ← require_length payload 10;
        epoch ← read_u64 payload 2;
        if epoch =? 0 then Err (Contract ZeroBootEpoch) else Ok (RStreamChanged epoch)
    | CodeInvalidRelease => RInvalidRelease <$> decode_state_result payload
    | CodeGap => RGap <$> decode_gap payload
    | CodeContinuityBreak => RContinuityBreak <$> decode_continuity_break payload
    end.

(** ** The codecs of the service *)

#[export] Instance pull_request_codec : WireCodec MeasurementWireError PullSamplesRequest := {
  wire_encode := encode_pull_request;
  wire_decode := decode_pull_request
}.

#[export] Instance release_request_codec : WireCodec MeasurementWireError ReleaseSamplesRequest := {
  wire_encode := encode_release_request;
  wire_decode := decode_release_request
}.

#[export] Instance stream_state_codec : WireCodec MeasurementWireError StreamState := {
  wire_encode := encode_stream_state_success;
  wire_decode := decode_stream_state_success
}.

#[export] Instance pull_response_codec : WireCodec MeasurementWireError PullResponse := {
  wire_encode := fun response =>
    '(n, output) ← encode_pull_response response (zeros MAX_PAYLOAD_BYTES);
    slice 0 n output;
  wire_decode := decode_pull_response
}.

(** ** Requests *)

Lemma pull_request_lawful : lawful_codec MeasurementWireError PullSamplesRequest.
Proof.
  assert (Henc : forall r, wire_encode r = Ok (to_le_bytes 8 (pull_boot_epoch r) ++
    to_le_bytes 8 (pull_from r) ++ to_le_bytes 8 (pull_release_before r) ++
    to_le_bytes 2 (pull_max_samples r))) by reflexivity.
  split.
  - intros r l (He & Hf & Hr & Hm & Hne & Hm0 & Hle) Hl. rewrite Henc in Hl. injection Hl as <-.
    change (map_err Contract (pull_request_new
      (from_le_bytes (to_le_bytes 8 (pull_boot_epoch r))) (from_le_bytes (to_le_bytes 8 (pull_from r)))
      (from_le_bytes (to_le_bytes 8 (pull_release_before r)))
      (from_le_bytes (to_le_bytes 2 (pull_max_samples r)))) = Ok r).
    wire_values. unfold pull_request_new. destruct r as [e f rb m]. cbn in *.
    repeat split_guard; to_prop; try lia. done.
  - intros l r Hdec. cbn in Hdec. unfold decode_pull_request, require_length in Hdec.
    destruct (Nat.eqb_spec (length l) PULL_REQUEST_BYTES) as [Hl|]; [|discriminate Hdec].
    explicit_bytes l Hl. cbn in Hdec. unfold pull_request_new in Hdec. run_in Hdec. subst r.
    split; [split_and!; try wire_ranges; cbn; lia|]. rewrite Henc. cbn. wire_bytes. done.
  - intros l. cbn. unfold decode_pull_request, require_length.
    destruct (Nat.eqb_spec (length l) PULL_REQUEST_BYTES) as [Hl|]; [|done].
    explicit_bytes l Hl. cbn. unfold pull_request_new. repeat split_guard; done.
  - intros r _. rewrite Henc. done.
  - intros r l _. rewrite Henc. intros [= <-]. wire_fits.
Qed.

Lemma release_request_lawful : lawful_codec MeasurementWireError ReleaseSamplesRequest.
Proof.
  assert (Henc : forall r, wire_encode r = Ok (to_le_bytes 8 (release_boot_epoch r) ++
    to_le_bytes 8 (release_release_before r))) by reflexivity.
  split.
  - intros r l (He & Hb & Hne) Hl. rewrite Henc in Hl. injection Hl as <-.
    change (map_err Contract (release_request_new
      (from_le_bytes (to_le_bytes 8 (release_boot_epoch r)))
      (from_le_bytes (to_le_bytes 8 (release_release_before r)))) = Ok r).
    wire_values. unfold release_request_new. destruct r as [e rb]. cbn in *.
    repeat split_guard; to_prop; try lia. done.
  - intros l r Hdec. cbn in Hdec. unfold decode_release_request, require_length in Hdec.
    destruct (Nat.eqb_spec (length l) RELEASE_REQUEST_BYTES) as [Hl|]; [|discriminate Hdec].
    explicit_bytes l Hl. cbn in Hdec. unfold release_request_new in Hdec. run_in Hdec. subst r.
    split; [split_and!; try wire_ranges; cbn; lia|]. rewrite Henc. cbn. wire_bytes. done.
  - intros l. cbn. unfold decode_release_request, require_length.
    destruct (Nat.eqb_spec (length l) RELEASE_REQUEST_BYTES) as [Hl|]; [|done].
    explicit_bytes l Hl. cbn. unfold release_request_new. repeat split_guard; done.
  - intros r _. rewrite Henc. done.
  - intros r l _. rewrite Henc. intros [= <-]. wire_fits.
Qed.

(** ** Stream state *)

Definition stream_state_wire (s : StreamState) : bytes :=
  to_le_bytes 8 (ss_boot_epoch s) ++ to_le_bytes 8 (ss_retained_from s) ++
  to_le_bytes 8 (ss_produced s) ++ to_le_bytes 8 (ss_released s) ++
  to_le_bytes 4 (ss_capacity_samples s) ++ to_le_bytes 8 (ss_overwritten_samples s).

Lemma encode_stream_state_fields_spec (s : StreamState) (output : bytes) :
  length output = 44%nat -> encode_stream_state_fields s output = Ok (stream_state_wire s).
Proof. intros Hl. explicit_bytes output Hl. reflexivity. Qed.

Lemma decode_stream_state_fields_wire (s : StreamState) :
  typed s -> decode_stream_state_fields (stream_state_wire s) = map_err Contract (stream_state_validate s).
Proof.
  intros (He & Hr & Hp & Hrel & Hc & Ho).
  change (decode_stream_state_fields (stream_state_wire s)) with
    (map_err Contract (stream_state_validate (mkStreamState
       (from_le_bytes (to_le_bytes 8 (ss_boot_epoch s)))
       (from_le_bytes (to_le_bytes 8 (ss_retained_from s)))
       (from_le_bytes (to_le_bytes 8 (ss_produced s)))
       (from_le_bytes (to_le_bytes 8 (ss_released s)))
       (from_le_bytes (to_le_bytes 4 (ss_capacity_samples s)))
       (from_le_bytes (to_le_bytes 8 (ss_overwritten_samples s)))))).
  wire_values. by destruct s.
Qed.

Lemma decode_stream_state_fields_inv (l : bytes) (s : StreamState) :
  decode_stream_state_fields l = Ok s ->
  typed s /\ stream_state_validate s = Ok s /\ l = stream_state_wire s.
Proof.
  unfold decode_stream_state_fields, require_length.
  destruct (Nat.eqb_spec (length l) STREAM_STATE_FIELDS_BYTES) as [Hl|]; [|done].
  explicit_bytes l Hl. cbn -[stream_state_validate]. intros Hv%map_err_Ok.
  pose proof (proj2 (stream_state_validator _) _ Hv) as ->.
  split; [split_and!; wire_ranges|]. split; [done|].
  unfold stream_state_wire. cbn. wire_bytes. done.
Qed.

Lemma decode_stream_state_fields_no_panic (l : bytes) :
  no_panic (decode_stream_state_fields l).
Proof.
  unfold decode_stream_state_fields, require_length.
  destruct (Nat.eqb_spec (length l) STREAM_STATE_FIELDS_BYTES) as [Hl|]; [|done].
  explicit_bytes l Hl. cbn -[stream_state_validate].
  apply no_panic_map_err, stream_state_validator.
Qed.
#[export] Hint Resolve decode_stream_state_fields_no_panic : rust.

Lemma length_stream_state_wire (s : StreamState) : length (stream_state_wire s) = 44%nat.
Proof. reflexivity. Qed.

(** ** The status byte *)

Lemma decode_ok_status_Ok (l : bytes) :
  decode_ok_status l = Ok tt <-> exists rest, l = z2b (status_code StatusOk) :: rest.
Proof.
  unfold decode_ok_status. destruct l as [|b l]; cbn [head ok_or fmap option_fmap option_map mbind outcome_bind].
  - split; [done|naive_solver].
  - split.
    + destruct (response_status_try_from (b2z b)) as [s|e|] eqn:Hs; cbn; try discriminate.
      case_bool_decide as Hok; [|discriminate]. subst s. intros _. exists l.
      apply status_try_from_inv in Hs. f_equal. by apply z2b_b2z_eq.
    + intros (rest & [= -> ->]). done.
Qed.

Lemma decode_ok_status_no_panic (l : bytes) : no_panic (decode_ok_status l).
Proof.
  unfold decode_ok_status. apply no_panic_bind; [auto with rust|intros raw _].
  apply no_panic_bind; [auto with rust|intros status _]. case_bool_decide; auto with rust.
Qed.

Lemma require_length_Ok (l : bytes) (n : nat) (u : unit) :
  require_length l n = Ok u <-> length l = n.
Proof. destruct u. unfold require_length. destruct (Nat.eqb_spec (length l) n); naive_solver. Qed.

Lemma require_length_no_panic (l : bytes) (n : nat) : no_panic (require_length l n).
Proof. unfold require_length. destruct (_ =? _)%nat; auto with rust. Qed.

#[export] Hint Resolve decode_ok_status_no_panic require_length_no_panic : rust.

Lemma encode_stream_state_success_spec (s : StreamState) :
  encode_stream_state_success s =
    (_ ← map_err Contract (stream_state_validate s);
     Ok (z2b (status_code StatusOk) :: stream_state_wire s)).
Proof.
  unfold encode_stream_state_success. destruct (stream_state_validate s); cbn [map_err mbind outcome_bind]; [|done..].
  change (put1 0 (status_code StatusOk) (zeros STREAM_STATE_SUCCESS_BYTES))
    with (Ok (z2b (status_code StatusOk) :: zeros 44) : mwire bytes).
  cbn [mbind outcome_bind].
  pose proof (with_slice_at 1 45 (encode_stream_state_fields s) [z2b (status_code StatusOk)]
                (zeros 44) [] (stream_state_wire s)) as H.
  rewrite !app_nil_r in H. apply H; auto with lia.
Qed.

Lemma stream_state_lawful : lawful_codec MeasurementWireError StreamState.
Proof.
  split; cbn [wire_encode wire_decode stream_state_codec].
  - intros s l Ht. rewrite encode_stream_state_success_spec.
    intros (s' & Hv%map_err_Ok & [= <-])%outcome_bind_Ok.
    pose proof (proj2 (stream_state_validator _) _ Hv) as ->.
    change (decode_stream_state_fields (stream_state_wire s) = Ok s).
    rewrite decode_stream_state_fields_wire, Hv by done. done.
  - intros l s. unfold decode_stream_state_success.
    intros ([] & (rest & ->)%decode_ok_status_Ok & ([] & Hl%require_length_Ok & (f & Hf & Hdec)%outcome_bind_Ok)%outcome_bind_Ok)%outcome_bind_Ok.
    rewrite (slice_from_app 1 [z2b (status_code StatusOk)] rest) in Hf by done. injection Hf as <-.
    apply decode_stream_state_fields_inv in Hdec as (Ht & Hv & ->). split; [done|].
    by rewrite encode_stream_state_success_spec, Hv.
  - intros l. unfold decode_stream_state_success. apply no_panic_bind; [auto with rust|intros [] H1].
    apply decode_ok_status_Ok in H1 as (rest & ->). apply no_panic_bind; [auto with rust|intros _ _].
    apply no_panic_bind; [|auto with rust]. apply slice_no_panic; cbn [length]; lia.
  - intros s _. rewrite encode_stream_state_success_spec. apply no_panic_bind; [|auto with rust].
    apply no_panic_map_err, stream_state_validator.
  - intros s l _. rewrite encode_stream_state_success_spec.
    intros (s' & _ & [= <-])%outcome_bind_Ok. cbn [length]. rewrite length_stream_state_wire.
    change MAX_PAYLOAD_BYTES with 512%nat. lia.
Qed.

(** ** Samples *)

Definition sample_wire (s : SampleAxes) : bytes :=
  to_le_bytes 3 (ax s) ++ to_le_bytes 3 (ay s) ++ to_le_bytes 3 (az s).
Definition samples_wire (l : list SampleAxes) : bytes := concat (map sample_wire l).

Lemma length_samples_wire (l : list SampleAxes) : length (samples_wire l) = (length l * 9)%nat.
Proof. induction l as [|s l IH]; [done|]. cbn [samples_wire map concat] in *. rewrite length_app. fold (samples_wire l). rewrite IH. cbn [length]. change (length (sample_wire s)) with 9%nat. lia. Qed.

Lemma encode_i24_spec (v : SampleAxis) (output : bytes) :
  length output = 3%nat -> encode_i24 v output = Ok (to_le_bytes 3 v).
Proof. intros Hl. explicit_bytes output Hl. reflexivity. Qed.

Lemma byte_sign (b : byte) : (Z.land (b2z b) 0x80 =? 0) = (b2z b <? 128).
Proof. by destruct b. Qed.

(** The value of three bytes, sign-extended. *)
Lemma decode_i24_value (b0 b1 b2 : byte) :
  decode_i24 [b0; b1; b2] =
    let u := b2z b0 + 256 * b2z b1 + 65536 * b2z b2 in
    Ok (if b2z b2 <? 128 then u else u - 16777216).
Proof.
  unfold decode_i24. cbn [index lookup list_lookup mbind outcome_bind].
  rewrite byte_sign, !z2b_b2z. unfold from_le_bytes_signed, sample_axis_new.
  fold (from_le_bytes [b0; b1; b2; z2b (if b2z b2 <? 128 then 0 else 255)]).
  rewrite !from_le_bytes_cons, from_le_bytes_nil. cbv zeta. cbn [length].
  change (8 * Z.of_nat 4 - 1) with 31. change (8 * Z.of_nat 4) with 32.
  change (2 ^ 31) with 2147483648. change (2 ^ 32) with 4294967296.
  pose proof (b2z_range b0). pose proof (b2z_range b1). pose proof (b2z_range b2). unfold_ints.
  unfold SAMPLE_AXIS_MIN, SAMPLE_AXIS_MAX. destruct (Z.ltb_spec (b2z b2) 128).
  - change (b2z (z2b 0)) with 0. rewrite (proj2 (Z.ltb_lt (b2z b0 + _) 2147483648)) by lia.
    rewrite (proj2 (Z.ltb_ge _ _)), (proj2 (Z.ltb_ge _ _)) by lia. cbn [orb map_err]. f_equal. lia.
  - change (b2z (z2b 255)) with 255. rewrite (proj2 (Z.ltb_ge (b2z b0 + _) 2147483648)) by lia.
    rewrite (proj2 (Z.ltb_ge _ _)), (proj2 (Z.ltb_ge _ _)) by lia. cbn [orb map_err]. f_equal. lia.
Qed.

Lemma decode_encode_i24 (v : SampleAxis) : axis_typed v -> decode_i24 (to_le_bytes 3 v) = Ok v.
Proof.
  intros Hv. unfold axis_typed, SAMPLE_AXIS_MIN, SAMPLE_AXIS_MAX in Hv.
  pose proof (from_to_le_bytes_signed 4 32 v ltac:(lia) eq_refl ltac:(unfold signed; lia)) as Hval.
  assert (H3 : to_le_bytes 3 v = firstn 3 (to_le_bytes 4 v)) by reflexivity. rewrite H3.
  pose proof (length_to_le_bytes 4 v) as Hlen. revert Hval Hlen.
  generalize (to_le_bytes 4 v). intros l Hval Hlen.
  destruct l as [|b0 [|b1 [|b2 [|b3 [|]]]]]; try discriminate Hlen.
  cbn [firstn]. rewrite decode_i24_value. cbv zeta. f_equal.
  unfold from_le_bytes_signed in Hval. cbn [length] in Hval.
  match type of Hval with context [LittleEndianList.le_combine ?l] =>
    fold (from_le_bytes l) in Hval end.
  rewrite !from_le_bytes_cons, from_le_bytes_nil in Hval. cbv zeta in Hval.
  change (8 * Z.of_nat 4 - 1) with 31 in Hval. change (8 * Z.of_nat 4) with 32 in Hval.
  change (2 ^ 31) with 2147483648 in Hval. change (2 ^ 32) with 4294967296 in Hval.
  pose proof (b2z_range b0). pose proof (b2z_range b1). pose proof (b2z_range b2).
  pose proof (b2z_range b3). unfold_ints. repeat case_match; to_prop; lia.
Qed.

Lemma decode_i24_inv (l : bytes) (v : SampleAxis) :
  length l = 3%nat -> decode_i24 l = Ok v -> axis_typed v /\ l = to_le_bytes 3 v.
Proof.
  intros Hl. explicit_bytes l Hl. unfold decode_i24. cbn [index lookup list_lookup mbind outcome_bind].
  rewrite !z2b_b2z. intros Hnew. apply map_err_Ok in Hnew. unfold sample_axis_new in Hnew.
  run_in Hnew; subst v; (split; [unfold axis_typed; lia|]);
  match goal with |- context [from_le_bytes_signed ?l] =>
    change (to_le_bytes 3 (from_le_bytes_signed l)) with (firstn 3 (to_le_bytes 4 (from_le_bytes_signed l)));
    rewrite (to_from_le_bytes_signed 4 l) by reflexivity end; done.
Qed.

Lemma decode_i24_no_panic (l : bytes) : length l = 3%nat -> no_panic (decode_i24 l).
Proof. intros Hl. explicit_bytes l Hl. rewrite decode_i24_value. done. Qed.

Lemma encode_samples_spec (l : list SampleAxes) (i : nat) (pre rest : bytes) :
  length pre = (CHUNK_FIXED_BYTES + i * 9)%nat -> (length l * 9 <= length rest)%nat ->
  encode_samples l i (pre ++ rest) = Ok ((pre ++ samples_wire l) ++ skipn (length l * 9) rest).
Proof.
  revert i pre rest. induction l as [|s l IH]; intros i pre rest Hpre Hrest.
  - cbn. by rewrite app_nil_r.
  - cbn [length] in Hrest. cbn [encode_samples]. set (o := (CHUNK_FIXED_BYTES + i * 9)%nat) in *.
    do 9 (destruct rest as [|? rest]; [exfalso; cbn [length] in Hrest; lia|]).
    match goal with |- context [pre ++ ?a :: ?b :: ?c :: ?d :: ?e :: ?f :: ?g :: ?h :: ?i :: rest] =>
      change (pre ++ a :: b :: c :: d :: e :: f :: g :: h :: i :: rest)
        with (pre ++ [a; b; c] ++ [d; e; f] ++ [g; h; i] ++ rest) end.
    rewrite (with_slice_at o (o + 3) _ pre _ _ (to_le_bytes 3 (ax s))) by
      (first [apply encode_i24_spec; reflexivity | cbn [length]; rewrite ?length_to_le_bytes; lia]).
    cbn [mbind outcome_bind]. rewrite (app_assoc pre).
    rewrite (with_slice_at (o + 3) (o + 6) _ _ _ _ (to_le_bytes 3 (ay s))) by
      (first [apply encode_i24_spec; reflexivity | rewrite ?length_app, ?length_to_le_bytes; cbn [length]; lia]).
    cbn [mbind outcome_bind]. rewrite (app_assoc (pre ++ _)).
    rewrite (with_slice_at (o + 6) (o + 9) _ _ _ _ (to_le_bytes 3 (az s))) by
      (first [apply encode_i24_spec; reflexivity | rewrite ?length_app, ?length_to_le_bytes; cbn [length]; lia]).
    cbn [mbind outcome_bind]. rewrite (app_assoc ((pre ++ _) ++ _)).
    rewrite IH by (rewrite ?length_app, ?length_to_le_bytes; cbn [length] in *; unfold o in *; lia).
    f_equal. cbn [samples_wire map concat length Nat.mul Nat.add skipn].
    unfold sample_wire. rewrite <- !app_assoc. done.
Qed.

Lemma decode_samples_wire (l : list SampleAxes) (i : nat) (pre post : bytes) :
  Forall typed l -> length pre = (CHUNK_FIXED_BYTES + i * 9)%nat ->
  decode_samples (length l) i (pre ++ samples_wire l ++ post) = Ok l.
Proof.
  intros Hl. revert i pre. induction Hl as [|s l (Hx & Hy & Hz) Hl IH]; intros i pre Hpre; [done|].
  cbn [length decode_samples]. set (o := (CHUNK_FIXED_BYTES + i * 9)%nat) in *.
  change (samples_wire (s :: l)) with (sample_wire s ++ samples_wire l). unfold sample_wire.
  rewrite <- !app_assoc.
  rewrite (slice_at pre _ _ o (o + 3)) by (rewrite ?length_to_le_bytes; lia).
  cbn [mbind outcome_bind]. rewrite decode_encode_i24 by done. cbn [mbind outcome_bind].
  rewrite (app_assoc pre).
  rewrite (slice_at (pre ++ _) _ _ (o + 3) (o + 6)) by (rewrite ?length_app, ?length_to_le_bytes; lia).
  cbn [mbind outcome_bind]. rewrite decode_encode_i24 by done. cbn [mbind outcome_bind].
  rewrite (app_assoc (pre ++ _)).
  rewrite (slice_at ((pre ++ _) ++ _) _ _ (o + 6) (o + 9)) by (rewrite ?length_app, ?length_to_le_bytes; lia).
  cbn [mbind outcome_bind]. rewrite decode_encode_i24 by done. cbn [mbind outcome_bind].
  rewrite (app_assoc ((pre ++ _) ++ _)).
  rewrite IH by (rewrite ?length_app, ?length_to_le_bytes; unfold o in *; lia).
  destruct s. reflexivity.
Qed.

Lemma decode_samples_inv (n i : nat) (payload : bytes) (l : list SampleAxes) :
  (CHUNK_FIXED_BYTES + (i + n) * 9 <= length payload)%nat ->
  decode_samples n i payload = Ok l ->
  Forall typed l /\ length l = n /\
  firstn (n * 9) (skipn (CHUNK_FIXED_BYTES + i * 9) payload) = samples_wire l.
Proof.
  revert i l. induction n as [|n IH]; intros i l Hlen; cbn [decode_samples].
  - intros [= <-]. done.
  - set (o := (CHUNK_FIXED_BYTES + i * 9)%nat) in *.
    intros (sx & Hsx & (x & Hx & (sy & Hsy & (y & Hy & (sz & Hsz & (z & Hz & (rest & Hrest & [= <-])%outcome_bind_Ok)%outcome_bind_Ok)%outcome_bind_Ok)%outcome_bind_Ok)%outcome_bind_Ok)%outcome_bind_Ok)%outcome_bind_Ok.
    apply slice_inv in Hsx as (_ & _ & Ex & Lx), Hsy as (_ & _ & Ey & Ly), Hsz as (_ & _ & Ez & Lz).
    apply decode_i24_inv in Hx as [Tx Hx], Hy as [Ty Hy], Hz as [Tz Hz]; [|lia..].
    apply IH in Hrest as (Hf & Hn & Hw); [|lia]. split; [|split; [cbn; lia|]].
    { constructor; [by split_and!|done]. }
    change (samples_wire (mkAxes x y z :: rest)) with (sample_wire (mkAxes x y z) ++ samples_wire rest).
    unfold sample_wire. cbn [ax ay az]. rewrite <- Hx, <- Hy, <- Hz, <- Hw, Ex, Ey, Ez.
    replace (CHUNK_FIXED_BYTES + (i + 1) * 9)%nat with (o + 9)%nat by (unfold o; lia).
    rewrite <- !(drop_drop _ _ o).
    set (d := skipn o payload). replace (S n * 9)%nat with (3 + (3 + (3 + n * 9)))%nat by lia.
    replace (o + 3 - o)%nat with 3%nat by lia. replace (o + 6 - (o + 3))%nat with 3%nat by lia.
    replace (o + 9 - (o + 6))%nat with 3%nat by lia.
    assert (Hd : (9 <= length d)%nat) by (unfold d; rewrite length_drop; unfold o in *; lia).
    clearbody d. show_bytes d Hd 9. done.
Qed.

Lemma decode_samples_no_panic (n i : nat) (payload : bytes) :
  (CHUNK_FIXED_BYTES + (i + n) * 9 <= length payload)%nat ->
  no_panic (decode_samples n i payload).
Proof.
  revert i. induction n as [|n IH]; intros i Hlen; cbn [decode_samples]; [done|].
  repeat (apply no_panic_bind; [apply slice_no_panic; lia|];
          intros ? (_ & _ & _ & Hl)%slice_inv;
          apply no_panic_bind; [apply decode_i24_no_panic; lia|intros ? _]; clear Hl).
  apply no_panic_bind; [apply IH; lia|]. auto with rust.
Qed.

(** ** Chunks *)

Definition chunk_wire (c : SampleChunk) : bytes :=
  to_le_bytes 8 (chunk_boot_epoch (header c)) ++ to_le_bytes 8 (chunk_retained_from (header c)) ++
  to_le_bytes 8 (chunk_produced (header c)) ++ to_le_bytes 8 (chunk_first (header c)) ++
  to_le_bytes 2 (chunk_sample_count (header c)) ++ to_le_bytes 4 (config_revision c) ++
  to_le_bytes 4 (segment_id (timing c)) ++ to_le_bytes 8 (first_device_time_us (timing c)) ++
  to_le_bytes 8 (last_device_time_us (timing c)) ++ to_le_bytes 4 (max_fit_residual_us (timing c)) ++
  to_le_bytes 2 (quality_flags (timing c)).

Lemma length_chunk_wire (c : SampleChunk) : length (chunk_wire c) = 64%nat.
Proof. reflexivity. Qed.

Lemma timing_validate_no_panic (t : TimingEvidence) (n : Z) : no_panic (timing_validate t n).
Proof. unfold timing_validate. repeat split_guard; auto with rust. Qed.

#[export] Hint Resolve timing_validate_no_panic : rust.

Lemma sample_chunk_validate_no_panic (c : SampleChunk) : no_panic (sample_chunk_validate c).
Proof.
  unfold sample_chunk_validate.
  apply no_panic_bind; [apply no_panic_map_err, chunk_validator|intros _ _].
  repeat (split_guard; auto with rust). apply no_panic_bind; auto with rust.
Qed.
#[export] Hint Resolve sample_chunk_validate_no_panic : rust.

(** What a valid chunk guarantees. *)
Lemma sample_chunk_validate_Ok (c : SampleChunk) :
  sample_chunk_validate c = Ok tt ->
  chunk_validate_structure (header c) = Ok (header c) /\ config_revision c <> 0 /\
  Z.of_nat (length (samples c)) = chunk_sample_count (header c) /\ (length (samples c) <= 49)%nat.
Proof.
  unfold sample_chunk_validate. intros (h & Hh & Hv)%outcome_bind_Ok. apply map_err_Ok in Hh.
  pose proof (proj2 (chunk_validator _) _ Hh) as ->.
  change MAX_WIRE_CHUNK_SAMPLES with 49 in Hv.
  destruct (Z.eqb_spec (config_revision c) 0); [discriminate Hv|].
  destruct (Z.eqb_spec (Z.of_nat (length (samples c))) (chunk_sample_count (header c))); [|discriminate Hv].
  cbn [negb] in Hv. destruct (Z.ltb_spec 49 (Z.of_nat (length (samples c)))); [discriminate Hv|].
  split_and!; auto. lia.
Qed.

Lemma encode_chunk_spec (c : SampleChunk) (b0 b1 : byte) (output : bytes) :
  (64 + length (samples c) * 9 <= length output)%nat ->
  encode_chunk c (b0 :: b1 :: output) =
    Ok ((b0 :: b1 :: chunk_wire c ++ samples_wire (samples c)) ++
        skipn (64 + length (samples c) * 9) output).
Proof.
  intros Hl. unfold encode_chunk. show_bytes output Hl 64.
  match goal with |- context [put 2 10 _ ?out] =>
    transitivity (encode_samples (samples c) 0 ((b0 :: b1 :: chunk_wire c) ++ output)); [reflexivity|] end.
  rewrite encode_samples_spec; [|by cbn|cbn [length] in Hl; lia]. f_equal.
Qed.

Lemma decode_chunk_wire (c : SampleChunk) (b0 b1 : byte) :
  typed c -> sample_chunk_validate c = Ok tt ->
  decode_chunk (b0 :: b1 :: chunk_wire c ++ samples_wire (samples c)) = Ok c.
Proof.
  intros ((T1 & T2 & T3 & T4 & T5) & T6 & (T7 & T8 & T9 & T10 & T11) & Hs) Hv.
  pose proof (sample_chunk_validate_Ok c Hv) as (_ & _ & Hcount & H49).
  unfold decode_chunk.
  assert (Hlen : length (b0 :: b1 :: chunk_wire c ++ samples_wire (samples c)) =
                 (66 + length (samples c) * 9)%nat).
  { cbn [length]. rewrite length_app, length_chunk_wire, length_samples_wire. done. }
  unfold require_length. rewrite Hlen. change CHUNK_FIXED_BYTES with 66%nat.
  rewrite (proj2 (Nat.ltb_ge _ _)) by lia.
  assert (Hread : forall o n (s : bytes), (o + n <= 66)%nat ->
    slice (E:=MeasurementWireError) o (o + n) (b0 :: b1 :: chunk_wire c) = Ok s ->
    slice (E:=MeasurementWireError) o (o + n) (b0 :: b1 :: chunk_wire c ++ samples_wire (samples c)) = Ok s).
  { intros o n s Ho (_ & _ & -> & _)%slice_inv.
    rewrite slice_Ok by lia. f_equal.
    change (b0 :: b1 :: chunk_wire c ++ samples_wire (samples c))
      with ((b0 :: b1 :: chunk_wire c) ++ samples_wire (samples c)).
    rewrite skipn_app, take_app_le; [done|]. rewrite length_drop. cbn [length].
    rewrite length_chunk_wire. lia. }
  unfold read_u16, read_u32, read_u64.
  rewrite (Hread 34%nat 2%nat (to_le_bytes 2 (chunk_sample_count (header c)))) by (reflexivity || lia).
  cbn [fmap outcome_fmap mbind outcome_bind]. wire_values. rewrite <- Hcount, Nat2Z.id.
  rewrite Nat.eqb_refl. cbn [mbind outcome_bind].
  pose proof (decode_samples_wire (samples c) 0 (b0 :: b1 :: chunk_wire c) [] Hs eq_refl) as Hdec.
  rewrite app_nil_r in Hdec. cbn [app] in Hdec. rewrite Hdec. cbn [mbind outcome_bind].
  rewrite (Hread 2%nat 8%nat (to_le_bytes 8 (chunk_boot_epoch (header c)))) by (reflexivity || lia).
  rewrite (Hread 10%nat 8%nat (to_le_bytes 8 (chunk_retained_from (header c)))) by (reflexivity || lia).
  rewrite (Hread 18%nat 8%nat (to_le_bytes 8 (chunk_produced (header c)))) by (reflexivity || lia).
  rewrite (Hread 26%nat 8%nat (to_le_bytes 8 (chunk_first (header c)))) by (reflexivity || lia).
  rewrite (Hread 36%nat 4%nat (to_le_bytes 4 (config_revision c))) by (reflexivity || lia).
  rewrite (Hread 40%nat 4%nat (to_le_bytes 4 (segment_id (timing c)))) by (reflexivity || lia).
  rewrite (Hread 44%nat 8%nat (to_le_bytes 8 (first_device_time_us (timing c)))) by (reflexivity || lia).
  rewrite (Hread 52%nat 8%nat (to_le_bytes 8 (last_device_time_us (timing c)))) by (reflexivity || lia).
  rewrite (Hread 60%nat 4%nat (to_le_bytes 4 (max_fit_residual_us (timing c)))) by (reflexivity || lia).
  rewrite (Hread 64%nat 2%nat (to_le_bytes 2 (quality_flags (timing c)))) by (reflexivity || lia).
  cbn [fmap outcome_fmap mbind outcome_bind]. wire_values. rewrite Hcount.
  destruct c as [[e r p f n] cr [sg ft lt mr qf] ss]. cbn [header config_revision timing samples
    chunk_boot_epoch chunk_retained_from chunk_produced chunk_first chunk_sample_count
    segment_id first_device_time_us last_device_time_us max_fit_residual_us quality_flags] in *.
  rewrite Hv. done.
Qed.

Lemma decode_chunk_inv (l : bytes) (c : SampleChunk) :
  decode_chunk l = Ok c ->
  typed c /\ sample_chunk_validate c = Ok tt /\
  l = firstn 2 l ++ chunk_wire c ++ samples_wire (samples c).
Proof.
  unfold decode_chunk. change CHUNK_FIXED_BYTES with 66%nat.
  destruct (Nat.ltb_spec (length l) 66) as [|Hlen]; [discriminate|]. intros H.
  decode_step H. rename Hr into Hcount. decode_step H. apply require_length_Ok in Hr as Hl.
  decode_step H. rename Hr0 into Hsamples.
  apply decode_samples_inv in Hsamples as (Hf & Hn & Hs); [|change CHUNK_FIXED_BYTES with 66%nat; lia].
  do 10 decode_step H. apply outcome_bind_Ok in H as ([] & Hv & [= <-]).
  split; [solve_typed|]. split; [done|].
  unfold chunk_wire. cbn [header config_revision timing samples
    chunk_boot_epoch chunk_retained_from chunk_produced chunk_first chunk_sample_count
    segment_id first_device_time_us last_device_time_us max_fit_residual_us quality_flags].
  rewrite <- Hs. repeat match goal with Hx : to_le_bytes _ _ = _ |- _ => rewrite Hx; clear Hx end.
  rewrite (take_ge (skipn (CHUNK_FIXED_BYTES + 0 * 9) l)).
  2: { rewrite length_drop. change CHUNK_FIXED_BYTES with 66%nat. lia. }
  clear -Hlen. show_bytes l Hlen 66. reflexivity.
Qed.

Lemma decode_chunk_no_panic (l : bytes) : no_panic (decode_chunk l).
Proof.
  unfold decode_chunk. change CHUNK_FIXED_BYTES with 66%nat.
  destruct (Nat.ltb_spec (length l) 66) as [|Hlen]; [done|].
  apply no_panic_bind; [apply read_u16_no_panic; lia|intros count Hc].
  apply no_panic_bind; [auto with rust|intros [] Hl%require_length_Ok].
  apply no_panic_bind; [apply decode_samples_no_panic; change CHUNK_FIXED_BYTES with 66%nat; lia|intros ss _].
  repeat (apply no_panic_bind; [first [apply read_u64_no_panic|apply read_u32_no_panic|apply read_u16_no_panic]; lia|intros ? _]).
  apply no_panic_bind; auto with rust.
Qed.
#[export] Hint Resolve decode_chunk_no_panic : rust.

(** ** Gaps and continuity breaks *)

Definition gap_wire (g : GapEvidence) (reason : Z) : bytes :=
  to_le_bytes 8 (ge_boot_epoch g) ++ to_le_bytes 8 (ge_retained_from g) ++
  to_le_bytes 8 (ge_produced g) ++ to_le_bytes 8 (ge_first_missing g) ++
  to_le_bytes 8 (ge_missing_count g) ++ [z2b reason].

Definition break_wire (b : ContinuityBreakEvidence) : bytes :=
  to_le_bytes 8 (be_boot_epoch b) ++ to_le_bytes 8 (be_retained_from b) ++
  to_le_bytes 8 (be_produced b) ++ to_le_bytes 8 (be_at b) ++
  [z2b (break_reason_to_wire (be_reason b))].

Lemma gap_valid_reason (g : GapEvidence) :
  gap_evidence_validate_structure g = Ok g ->
  exists r, gap_reason_to_wire (ge_reason g) = Ok r /\ u8 r /\ gap_reason_from_wire r = Ok (ge_reason g).
Proof.
  unfold gap_evidence_validate_structure. intros H. destruct (ge_reason g) eqn:Hr;
    [exists 0|exists 1|exists 2|exfalso]; try (split_and!; [done|ilia|done]).
  repeat (split_guard_in H; try discriminate H).
Qed.

Lemma gap_reason_from_wire_inv (v : Z) (r : GapReason) :
  gap_reason_from_wire v = Ok r -> gap_reason_to_wire r = Ok v.
Proof. unfold gap_reason_from_wire. repeat case_match; try discriminate; by intros [= <-]. Qed.

Lemma gap_reason_from_wire_no_panic (v : Z) : no_panic (gap_reason_from_wire v).
Proof. unfold gap_reason_from_wire. repeat case_match; auto with rust. Qed.

Lemma break_reason_from_wire_code (r : ContinuityBreakReason) :
  break_reason_from_wire (b2z (z2b (break_reason_to_wire r))) = Ok r.
Proof. by destruct r. Qed.

Lemma break_reason_from_wire_inv (v : Z) (r : ContinuityBreakReason) :
  break_reason_from_wire v = Ok r -> break_reason_to_wire r = v.
Proof. unfold break_reason_from_wire. repeat case_match; try discriminate; by intros [= <-]. Qed.

Lemma break_reason_from_wire_no_panic (v : Z) : no_panic (break_reason_from_wire v).
Proof. unfold break_reason_from_wire. repeat case_match; auto with rust. Qed.
#[export] Hint Resolve gap_reason_from_wire_no_panic break_reason_from_wire_no_panic : rust.

Lemma decode_gap_wire (g : GapEvidence) (b0 b1 : byte) (r : Z) :
  typed g -> u8 r -> gap_reason_from_wire r = Ok (ge_reason g) ->
  decode_gap (b0 :: b1 :: gap_wire g r) = map_err Contract (gap_evidence_validate_structure g).
Proof.
  intros (T1 & T2 & T3 & T4 & T5) Hr Hreason.
  transitivity (reason ← gap_reason_from_wire (b2z (z2b r));
    map_err Contract (gap_evidence_validate_structure (mkGapEvidence
      (from_le_bytes (to_le_bytes 8 (ge_boot_epoch g)))
      (from_le_bytes (to_le_bytes 8 (ge_retained_from g)))
      (from_le_bytes (to_le_bytes 8 (ge_produced g)))
      (from_le_bytes (to_le_bytes 8 (ge_first_missing g)))
      (from_le_bytes (to_le_bytes 8 (ge_missing_count g))) reason))); [reflexivity|].
  wire_values. rewrite Hreason. by destruct g.
Qed.

Lemma decode_gap_inv (l : bytes) (g : GapEvidence) :
  decode_gap l = Ok g ->
  typed g /\ gap_evidence_validate_structure g = Ok g /\ length l = 43%nat /\
  exists r, gap_reason_to_wire (ge_reason g) = Ok r /\ l = firstn 2 l ++ gap_wire g r.
Proof.
  unfold decode_gap. intros H. decode_step H. apply require_length_Ok in Hr as Hlen.
  decode_step H. rename x0 into raw. decode_step H.
  apply gap_reason_from_wire_inv in Hr1. do 5 decode_step H. apply map_err_Ok in H.
  pose proof (proj2 (gap_evidence_validator _) _ H) as Hg. rewrite Hg in H |- *.
  split; [solve_typed|]. split; [done|]. split; [done|]. exists raw. split; [done|].
  unfold gap_wire. cbn [ge_boot_epoch ge_retained_from ge_produced ge_first_missing ge_missing_count].
  rewrite Hr0, Hr2, Hr3, Hr4, Hr5, Hr6. clear -Hlen. explicit_bytes l Hlen. reflexivity.
Qed.

Lemma decode_break_wire (b : ContinuityBreakEvidence) (b0 b1 : byte) :
  typed b ->
  decode_continuity_break (b0 :: b1 :: break_wire b) =
    map_err Contract (break_evidence_validate_structure b).
Proof.
  intros (T1 & T2 & T3 & T4).
  transitivity (reason ← break_reason_from_wire (b2z (z2b (break_reason_to_wire (be_reason b))));
    map_err Contract (break_evidence_validate_structure (mkBreakEvidence
      (from_le_bytes (to_le_bytes 8 (be_boot_epoch b)))
      (from_le_bytes (to_le_bytes 8 (be_retained_from b)))
      (from_le_bytes (to_le_bytes 8 (be_produced b)))
      (from_le_bytes (to_le_bytes 8 (be_at b))) reason))); [reflexivity|].
  rewrite break_reason_from_wire_code. cbn [mbind outcome_bind]. wire_values. by destruct b.
Qed.

Lemma decode_break_inv (l : bytes) (b : ContinuityBreakEvidence) :
  decode_continuity_break l = Ok b ->
  typed b /\ break_evidence_validate_structure b = Ok b /\ length l = 35%nat /\
  l = firstn 2 l ++ break_wire b.
Proof.
  unfold decode_continuity_break. intros H. decode_step H. apply require_length_Ok in Hr as Hlen.
  decode_step H. rename x0 into raw. decode_step H.
  apply break_reason_from_wire_inv in Hr1. do 4 decode_step H. apply map_err_Ok in H.
  pose proof (proj2 (break_evidence_validator _) _ H) as Hg. rewrite Hg in H |- *.
  split; [solve_typed|]. split; [done|]. split; [done|].
  unfold break_wire. cbn [be_boot_epoch be_retained_from be_produced be_at be_reason].
  rewrite Hr1, Hr0, Hr2, Hr3, Hr4, Hr5. clear -Hlen. explicit_bytes l Hlen. reflexivity.
Qed.

Lemma decode_state_result_inv (l : bytes) (s : StreamState) :
  decode_state_result l = Ok s ->
  typed s /\ stream_state_validate s = Ok s /\ length l = 46%nat /\
  l = firstn 2 l ++ stream_state_wire s.
Proof.
  unfold decode_state_result. intros H. decode_step H. apply require_length_Ok in Hr as Hlen.
  apply outcome_bind_Ok in H as (f & Hf & (Ht & Hv & Hw)%decode_stream_state_fields_inv).
  split; [done|]. split; [done|]. split; [done|]. rewrite <- Hw.
  clear -Hlen Hf. explicit_bytes l Hlen. injection Hf as <-. reflexivity.
Qed.

Lemma decode_state_result_wire (s : StreamState) (b0 b1 : byte) :
  typed s ->
  decode_state_result (b0 :: b1 :: stream_state_wire s) = map_err Contract (stream_state_validate s).
Proof. intros Ht. rewrite <- (decode_stream_state_fields_wire s Ht). reflexivity. Qed.

(** ** Pull responses *)

(** The validation of a response and the bytes after the status. *)
Definition response_check (r : PullResponse) : mwire unit :=
  match r with
  | RSampleChunk chunk => sample_chunk_validate chunk
  | RNoData s | RRangeUnavailable s | RInvalidRelease s =>
      (fun _ => tt) <$> map_err Contract (stream_state_validate s)
  | RStreamChanged epoch => if epoch =? 0 then Err (Contract ZeroBootEpoch) else Ok tt
  | RGap g => (fun _ => tt) <$> map_err Contract (gap_evidence_validate_structure g)
  | RContinuityBreak b => (fun _ => tt) <$> map_err Contract (break_evidence_validate_structure b)
  end.

Definition response_code (r : PullResponse) : PullResultCode :=
  match r with
  | RSampleChunk _ => CodeSampleChunk
  | RNoData _ => CodeNoData
  | RRangeUnavailable _ => CodeRangeUnavailable
  | RStreamChanged _ => CodeStreamChanged
  | RInvalidRelease _ => CodeInvalidRelease
  | RGap _ => CodeGap
  | RContinuityBreak _ => CodeContinuityBreak
  end.

Definition response_body (r : PullResponse) : bytes :=
  match r with
  | RSampleChunk c => chunk_wire c ++ samples_wire (samples c)
  | RNoData s | RRangeUnavailable s | RInvalidRelease s => stream_state_wire s
  | RStreamChanged epoch => to_le_bytes 8 epoch
  | RGap g => gap_wire g (match gap_reason_to_wire (ge_reason g) with Ok z => z | _ => 0 end)
  | RContinuityBreak b => break_wire b
  end.

Definition response_wire (r : PullResponse) : bytes :=
  z2b (status_code StatusOk) :: z2b (pull_result_code (response_code r)) :: response_body r.

Lemma encode_state_result_spec (code : PullResultCode) (s : StreamState) (b0 : byte) (output : bytes) :
  (45 <= length output)%nat ->
  encode_state_result code s (b0 :: output) =
    (_ ← map_err Contract (stream_state_validate s);
     Ok (46%nat, (b0 :: z2b (pull_result_code code) :: stream_state_wire s) ++ skipn 45 output)).
Proof.
  intros Hl. unfold encode_state_result.
  destruct (stream_state_validate s); cbn [map_err mbind outcome_bind]; [|done..].
  show_bytes output Hl 45. reflexivity.
Qed.

Lemma encode_gap_spec (g : GapEvidence) (b0 : byte) (output : bytes) :
  (42 <= length output)%nat ->
  encode_gap g (b0 :: output) =
    (_ ← map_err Contract (gap_evidence_validate_structure g);
     Ok (43%nat, (b0 :: z2b (pull_result_code CodeGap) :: response_body (RGap g)) ++ skipn 42 output)).
Proof.
  intros Hl. unfold encode_gap.
  destruct (gap_evidence_validate_structure g) as [g'| |] eqn:Hv; cbn [map_err mbind outcome_bind]; [|done..].
  pose proof (proj2 (gap_evidence_validator _) _ Hv) as ->.
  destruct (gap_valid_reason _ Hv) as (r & Hr & _ & _). cbn [response_body]. rewrite Hr.
  show_bytes output Hl 42. reflexivity.
Qed.

Lemma encode_break_spec (b : ContinuityBreakEvidence) (b0 : byte) (output : bytes) :
  (34 <= length output)%nat ->
  encode_continuity_break b (b0 :: output) =
    (_ ← map_err Contract (break_evidence_validate_structure b);
     Ok (35%nat, (b0 :: z2b (pull_result_code CodeContinuityBreak) :: break_wire b) ++ skipn 34 output)).
Proof.
  intros Hl. unfold encode_continuity_break.
  destruct (break_evidence_validate_structure b); cbn [map_err mbind outcome_bind]; [|done..].
  show_bytes output Hl 34. reflexivity.
Qed.

Lemma response_wire_fits (r : PullResponse) :
  response_check r = Ok tt -> (length (response_wire r) <= 512)%nat.
Proof.
  intros Hc. unfold response_wire. cbn [length].
  destruct r as [c|s|s|e|s|g|b]; cbn [response_body]; [|cbv; lia..].
  - destruct (sample_chunk_validate_Ok c Hc) as (_ & _ & _ & H49).
    rewrite length_app, length_chunk_wire, length_samples_wire. lia.
Qed.

(** The encoder writes [response_wire] at the front of the caller's array. *)
Lemma encode_pull_response_spec (r : PullResponse) (output : bytes) :
  length output = MAX_PAYLOAD_BYTES ->
  encode_pull_response r output =
    (_ ← response_check r;
     Ok (length (response_wire r), response_wire r ++ skipn (length (response_wire r)) output)).
Proof.
  change MAX_PAYLOAD_BYTES with 512%nat. intros Hl.
  destruct output as [|x output]; [discriminate Hl|]. injection Hl as Hl.
  unfold encode_pull_response. change (x :: output) with ([] ++ x :: output) at 1.
  rewrite put1_at by done. cbn [mbind outcome_bind app].
  destruct r as [c|s|s|e|s|g|b]; cbn [response_check]; unfold response_wire; cbn [response_code response_body length].
  - destruct (sample_chunk_validate c) as [[]| |] eqn:Hv; cbn [mbind outcome_bind]; [|done..].
    destruct (sample_chunk_validate_Ok c Hv) as (_ & _ & _ & H49).
    destruct output as [|y output]; [discriminate Hl|]. injection Hl as Hl.
    change (z2b (status_code StatusOk) :: y :: output) with ([z2b (status_code StatusOk)] ++ y :: output).
    rewrite put1_at by done. cbn [mbind outcome_bind app].
    rewrite encode_chunk_spec by lia. cbn [mbind outcome_bind].
    rewrite length_app, length_chunk_wire, length_samples_wire. reflexivity.
  - rewrite encode_state_result_spec by lia. by destruct (stream_state_validate s).
  - rewrite encode_state_result_spec by lia. by destruct (stream_state_validate s).
  - destruct (e =? 0); [done|]. clear -Hl.
    assert (H9 : (9 <= length output)%nat) by lia. show_bytes output H9 9. reflexivity.
  - rewrite encode_state_result_spec by lia. by destruct (stream_state_validate s).
  - rewrite encode_gap_spec by lia. by destruct (gap_evidence_validate_structure g).
  - rewrite encode_break_spec by lia. by destruct (break_evidence_validate_structure b).
Qed.

Lemma response_check_no_panic (r : PullResponse) : no_panic (response_check r).
Proof.
  destruct r; cbn [response_check]; auto with rust; try case_match; auto with rust;
    apply no_panic_fmap, no_panic_map_err;
    first [apply stream_state_validator | apply gap_evidence_validator | apply break_evidence_validator].
Qed.

Lemma pull_result_try_from_code (c : PullResultCode) :
  pull_result_try_from (b2z (z2b (pull_result_code c))) = Ok c.
Proof. by destruct c. Qed.

Lemma pull_result_try_from_inv (v : Z) (c : PullResultCode) :
  pull_result_try_from v = Ok c -> pull_result_code c = v.
Proof. unfold pull_result_try_from. repeat case_match; try discriminate; by intros [= <-]. Qed.

Lemma pull_result_try_from_no_panic (v : Z) : no_panic (pull_result_try_from v).
Proof. unfold pull_result_try_from. repeat case_match; auto with rust. Qed.
#[export] Hint Resolve pull_result_try_from_no_panic response_check_no_panic : rust.

Lemma wire_encode_pull_response (r : PullResponse) :
  wire_encode r = (_ ← response_check r; Ok (response_wire r)).
Proof.
  cbn [wire_encode pull_response_codec].
  rewrite encode_pull_response_spec by apply length_zeros.
  destruct (response_check r) as [[]| |] eqn:Hc; cbn [mbind outcome_bind]; [|done..].
  by apply slice_front.
Qed.

Lemma checked_Ok {A : Type} (v : A -> contract A) (x : A) :
  validator v -> (fun _ => tt) <$> map_err Contract (v x) = Ok tt <-> v x = Ok x.
Proof.
  intros Hval. destruct (v x) as [y| |] eqn:Hv; cbn; [|done..].
  pose proof (proj2 (Hval x) y Hv) as ->. done.
Qed.

Lemma decode_response_wire (r : PullResponse) :
  typed r -> response_check r = Ok tt -> decode_pull_response (response_wire r) = Ok r.
Proof.
  intros Ht Hc. unfold decode_pull_response, response_wire.
  rewrite (proj2 (decode_ok_status_Ok _)) by eauto. cbn [mbind outcome_bind length].
  rewrite (proj2 (Nat.ltb_ge _ 2)) by lia.
  unfold index. cbn [lookup list_lookup mbind outcome_bind].
  rewrite pull_result_try_from_code. cbn [mbind outcome_bind].
  destruct r as [c|s|s|e|s|g|b]; cbn [response_code response_body]; cbn [response_check] in Hc.
  - by rewrite decode_chunk_wire.
  - apply checked_Ok in Hc; [|apply stream_state_validator].
    by rewrite decode_state_result_wire, Hc.
  - apply checked_Ok in Hc; [|apply stream_state_validator].
    by rewrite decode_state_result_wire, Hc.
  - destruct (Z.eqb_spec e 0) as [|He]; [discriminate Hc|].
    transitivity (epoch ← (Ok (from_le_bytes (to_le_bytes 8 e)) : mwire Z);
      if epoch =? 0 then Err (Contract ZeroBootEpoch) else Ok (RStreamChanged epoch)); [reflexivity|].
    cbn in Ht. wire_values. cbn. by rewrite (proj2 (Z.eqb_neq _ _) He).
  - apply checked_Ok in Hc; [|apply stream_state_validator].
    by rewrite decode_state_result_wire, Hc.
  - apply checked_Ok in Hc; [|apply gap_evidence_validator].
    destruct (gap_valid_reason g Hc) as (v & Hv & Hv8 & Hback). rewrite Hv.
    by rewrite decode_gap_wire, Hc.
  - apply checked_Ok in Hc; [|apply break_evidence_validator].
    by rewrite decode_break_wire, Hc.
Qed.

Lemma decode_pull_response_inv (l : bytes) (r : PullResponse) :
  decode_pull_response l = Ok r ->
  typed r /\ response_check r = Ok tt /\ l = response_wire r.
Proof.
  unfold decode_pull_response. intros H.
  apply outcome_bind_Ok in H as ([] & (rest & ->)%decode_ok_status_Ok & H).
  destruct rest as [|b1 rest]; [discriminate H|]. cbn [length] in H.
  rewrite (proj2 (Nat.ltb_ge _ 2)) in H by lia.
  unfold index in H. cbn [lookup list_lookup mbind outcome_bind] in H.
  apply outcome_bind_Ok in H as (code & Hcode%pull_result_try_from_inv & H).
  symmetry in Hcode. apply z2b_b2z_eq in Hcode as ->. unfold response_wire.
  destruct code; try (destruct (decode_state_result _) as [s| |] eqn:Hd; try discriminate H;
    injection H as <-; apply decode_state_result_inv in Hd as (Ht & Hv & _ & Hw);
    cbn [response_check response_code response_body]; split; [done|];
    split; [apply checked_Ok; [apply stream_state_validator|done]|exact Hw]).
  - destruct (decode_chunk _) as [c| |] eqn:Hd; try discriminate H. injection H as <-.
    apply decode_chunk_inv in Hd as (Ht & Hv & Hw). done.
  - decode_step H. apply require_length_Ok in Hr. decode_step H.
    destruct (Z.eqb_spec x0 0) as [|Hne]; [discriminate H|]. injection H as <-.
    split; [done|]. cbn [response_check response_code response_body].
    rewrite (proj2 (Z.eqb_neq _ _) Hne), Hr0. split; [done|].
    clear -Hr. injection Hr as Hr. explicit_bytes rest Hr. reflexivity.
  - destruct (decode_gap _) as [g| |] eqn:Hd; try discriminate H. injection H as <-.
    apply decode_gap_inv in Hd as (Ht & Hv & _ & v & Hvr & Hw). split; [done|].
    cbn [response_check response_code response_body]. rewrite Hvr.
    split; [apply checked_Ok; [apply gap_evidence_validator|done]|exact Hw].
  - destruct (decode_continuity_break _) as [b| |] eqn:Hd; try discriminate H. injection H as <-.
    apply decode_break_inv in Hd as (Ht & Hv & _ & Hw). split; [done|].
    cbn [response_check response_code response_body].
    split; [apply checked_Ok; [apply break_evidence_validator|done]|exact Hw].
Qed.

Lemma decode_state_result_no_panic (l : bytes) : no_panic (decode_state_result l).
Proof.
  unfold decode_state_result. apply no_panic_bind; [auto with rust|intros [] Hl%require_length_Ok].
  apply no_panic_bind; [apply slice_no_panic; lia|auto with rust].
Qed.

Lemma decode_gap_no_panic (l : bytes) : no_panic (decode_gap l).
Proof.
  unfold decode_gap. apply no_panic_bind; [auto with rust|intros [] Hl%require_length_Ok].
  change GAP_RESPONSE_BYTES with 43%nat in Hl. apply no_panic_bind; [apply index_no_panic; lia|intros v _].
  apply no_panic_bind; [auto with rust|intros ? _].
  repeat (apply no_panic_bind; [apply read_u64_no_panic; lia|intros ? _]).
  apply no_panic_map_err, gap_evidence_validator.
Qed.

Lemma decode_break_no_panic (l : bytes) : no_panic (decode_continuity_break l).
Proof.
  unfold decode_continuity_break. apply no_panic_bind; [auto with rust|intros [] Hl%require_length_Ok].
  change CONTINUITY_BREAK_RESPONSE_BYTES with 35%nat in Hl.
  apply no_panic_bind; [apply index_no_panic; lia|intros v _].
  apply no_panic_bind; [auto with rust|intros ? _].
  repeat (apply no_panic_bind; [apply read_u64_no_panic; lia|intros ? _]).
  apply no_panic_map_err, break_evidence_validator.
Qed.
#[export] Hint Resolve decode_state_result_no_panic decode_gap_no_panic decode_break_no_panic : rust.

Lemma decode_pull_response_no_panic (l : bytes) : no_panic (decode_pull_response l).
Proof.
  unfold decode_pull_response. apply no_panic_bind; [auto with rust|intros _ _].
  destruct (Nat.ltb_spec (length l) 2) as [|Hl]; [done|].
  apply no_panic_bind; [auto with rust|intros v _]. apply no_panic_bind; [auto with rust|intros code _].
  destruct code; auto with rust.
  apply no_panic_bind; [auto with rust|intros [] H10%require_length_Ok].
  apply no_panic_bind; [apply read_u64_no_panic; lia|intros e _]. destruct (_ =? 0); auto with rust.
Qed.

Lemma pull_response_lawful : lawful_codec MeasurementWireError PullResponse.
Proof.
  split.
  - intros r l Ht. rewrite wire_encode_pull_response.
    intros ([] & Hc & [= <-])%outcome_bind_Ok. by apply decode_response_wire.
  - intros l r (Ht & Hc & ->)%decode_pull_response_inv. split; [done|].
    by rewrite wire_encode_pull_response, Hc.
  - apply decode_pull_response_no_panic.
  - intros r _. rewrite wire_encode_pull_response. apply no_panic_bind; auto with rust.
  - intros r l _. rewrite wire_encode_pull_response.
    intros ([] & Hc & [= <-])%outcome_bind_Ok. by apply response_wire_fits.
Qed.

(** ** Properties *)

(** The Measurement service's wire format: for the seven kinds of pull
    response, encoding and decoding are mutually inverse on valid values (a
    payload decodes only if it is the canonical encoding of the result), neither
    direction panics on any input, and every encoding fits a frame. *)
Theorem pull_response_wire_lawful : lawful_codec MeasurementWireError PullResponse.
Proof. apply pull_response_lawful. Qed.

(** The same laws for the pull request, the release request and the
    stream-state response. *)
Theorem measurement_requests_lawful :
  lawful_codec MeasurementWireError PullSamplesRequest /\
  lawful_codec MeasurementWireError ReleaseSamplesRequest /\
  lawful_codec MeasurementWireError StreamState.
Proof. auto using pull_request_lawful, release_request_lawful, stream_state_lawful. Qed.

(** What a decoded answer that passed [validate_for] of its request means. *)
Definition evidence_answers (r : PullResponse) (request : PullSamplesRequest) : Prop :=
  match r with
  | RSampleChunk c =>
      chunk_boot_epoch (header c) = pull_boot_epoch request /\
      chunk_first (header c) = pull_from request /\
      Z.of_nat (length (samples c)) = chunk_sample_count (header c) /\
      1 <= chunk_sample_count (header c) <= Z.min (pull_max_samples request) 49 /\
      chunk_first (header c) + chunk_sample_count (header c) <= chunk_produced (header c)
  | RGap g =>
      ge_boot_epoch g = pull_boot_epoch request /\ ge_first_missing g = pull_from request /\
      1 <= ge_missing_count g /\ ge_first_missing g + ge_missing_count g <= ge_produced g /\
      ge_reason g <> JournalOverflow
  | RContinuityBreak b =>
      be_boot_epoch b = pull_boot_epoch request /\ be_at b = pull_from request /\
      be_at b + 1 <= be_produced b
  | RNoData s | RRangeUnavailable s | RInvalidRelease s =>
      ss_boot_epoch s <> 0 /\ ss_retained_from s <= ss_produced s /\ ss_released s <= ss_produced s
  | RStreamChanged epoch => epoch <> 0
  end.

(** The caller's check of an answer against its request. *)
Definition answer_validate_for (r : PullResponse) (request : PullSamplesRequest) : contract unit :=
  match r with
  | RSampleChunk c => (fun _ => tt) <$> chunk_validate_for (header c) request
  | RGap g => (fun _ => tt) <$> gap_evidence_validate_for g request
  | RContinuityBreak b => (fun _ => tt) <$> break_evidence_validate_for b request
  | _ => Ok tt
  end.

Lemma fmap_Ok {E A B : Type} (f : A -> B) (m : outcome E A) (b : B) :
  f <$> m = Ok b -> exists a, m = Ok a /\ b = f a.
Proof. destruct m; cbn; naive_solver. Qed.

(** C28. What the host relies on once a decoded answer passed [validate_for] of
    its request: it belongs to the requested boot epoch, starts exactly at the
    requested cursor, ends inside the node's produced range without wrapping
    around, covers at least one sequence, and a chunk carries exactly
    [sample_count] samples, at most the requested limit and at most 49. *)
Theorem accepted_evidence_matches_request (payload : bytes) (r : PullResponse)
    (request : PullSamplesRequest) :
  decode_pull_response payload = Ok r -> answer_validate_for r request = Ok tt ->
  evidence_answers r request.
Proof.
  intros (Ht & Hc & _)%decode_pull_response_inv Hv.
  destruct r as [c|s|s|e|s|g|b]; cbn [response_check answer_validate_for evidence_answers] in *.
  - apply fmap_Ok in Hv as (h & (Hs & _ & He & Hf & Hm)%chunk_validate_for_Ok & _).
    pose proof (sample_chunk_validate_Ok c Hc) as (_ & _ & Hn & H49).
    apply chunk_structure_Ok in Hs as (_ & _ & Hne & _ & Hp). split_and!; auto; lia.
  - apply checked_Ok in Hc; [|apply stream_state_validator]. apply stream_state_Ok in Hc. tauto.
  - apply checked_Ok in Hc; [|apply stream_state_validator]. apply stream_state_Ok in Hc. tauto.
  - destruct (Z.eqb_spec e 0); [discriminate Hc|done].
  - apply checked_Ok in Hc; [|apply stream_state_validator]. apply stream_state_Ok in Hc. tauto.
  - apply fmap_Ok in Hv as (h & (Hs & _ & He & Hf)%gap_evidence_validate_for_Ok & _).
    apply gap_evidence_structure_Ok in Hs as (_ & _ & Hne & Hj & _ & Hp).
    destruct Ht as (_ & _ & _ & _ & Hcount). split_and!; auto. unfold unsigned in Hcount. lia.
  - apply fmap_Ok in Hv as (h & (Hs & _ & He & Hf)%break_evidence_validate_for_Ok & _).
    apply break_evidence_structure_Ok in Hs as (_ & _ & _ & Hp). done.
Qed.

(** ** Golden vectors and witnesses *)

(** contracts/golden/measurement_v5_chunk_response.bin. *)
Definition golden_chunk_payload : bytes :=
  literal
    [0x00; 0x00; 0x88; 0x77; 0x66; 0x55; 0x44; 0x33; 0x22; 0x11; 0x0a; 0x00; 0x00; 0x00; 0x00; 0x00;
     0x00; 0x00; 0x64; 0x00; 0x00; 0x00; 0x00; 0x00; 0x00; 0x00; 0x14; 0x00; 0x00; 0x00; 0x00; 0x00;
     0x00; 0x00; 0x02; 0x00; 0x03; 0x00; 0x00; 0x00; 0x04; 0x00; 0x00; 0x00; 0xe8; 0x03; 0x00; 0x00;
     0x00; 0x00; 0x00; 0x00; 0x88; 0x13; 0x00; 0x00; 0x00; 0x00; 0x00; 0x00; 0x02; 0x00; 0x00; 0x00;
     0x01; 0x00; 0x00; 0x00; 0x80; 0xff; 0xff; 0xff; 0x00; 0x00; 0x00; 0x01; 0x00; 0x00; 0x56; 0x34;
     0x12; 0xff; 0xff; 0x7f].

Definition golden_chunk : SampleChunk :=
  mkChunk (mkHeader 0x1122334455667788 10 100 20 2) 3 (mkTiming 4 1000 5000 2 1)
    [mkAxes SAMPLE_AXIS_MIN (-1) 0; mkAxes 1 0x123456 SAMPLE_AXIS_MAX].

Example golden_chunk_decodes : decode_pull_response golden_chunk_payload = Ok (RSampleChunk golden_chunk).
Proof. vm_compute. reflexivity. Qed.

(** contracts/golden/measurement_v5_gap_response.bin and
    measurement_v5_continuity_break_response.bin. *)
Example golden_gap_decodes :
  decode_pull_response (literal
    [0x00; 0x05; 0x88; 0x77; 0x66; 0x55; 0x44; 0x33; 0x22; 0x11; 0x0a; 0x00; 0x00; 0x00; 0x00; 0x00;
     0x00; 0x00; 0x64; 0x00; 0x00; 0x00; 0x00; 0x00; 0x00; 0x00; 0x14; 0x00; 0x00; 0x00; 0x00; 0x00;
     0x00; 0x00; 0x03; 0x00; 0x00; 0x00; 0x00; 0x00; 0x00; 0x00; 0x01])
  = Ok (RGap (mkGapEvidence 0x1122334455667788 10 100 20 3 SourceLoss)).
Proof. vm_compute. reflexivity. Qed.

Example golden_break_decodes :
  decode_pull_response (literal
    [0x00; 0x06; 0x88; 0x77; 0x66; 0x55; 0x44; 0x33; 0x22; 0x11; 0x0a; 0x00; 0x00; 0x00; 0x00; 0x00;
     0x00; 0x00; 0x64; 0x00; 0x00; 0x00; 0x00; 0x00; 0x00; 0x00; 0x14; 0x00; 0x00; 0x00; 0x00; 0x00;
     0x00; 0x00; 0x02])
  = Ok (RContinuityBreak (mkBreakEvidence 0x1122334455667788 10 100 20 SensorReadUncertain)).
Proof. vm_compute. reflexivity. Qed.

Example golden_pull_request_decodes :
  decode_pull_request (literal
    [0x88; 0x77; 0x66; 0x55; 0x44; 0x33; 0x22; 0x11; 0x14; 0x00; 0x00; 0x00; 0x00; 0x00; 0x00; 0x00;
     0x10; 0x00; 0x00; 0x00; 0x00; 0x00; 0x00; 0x00; 0x30; 0x00])
  = Ok (mkPull 0x1122334455667788 20 16 48).
Proof. vm_compute. reflexivity. Qed.

Lemma accepted_evidence_matches_request_witness :
  evidence_answers (RSampleChunk golden_chunk) (mkPull 0x1122334455667788 20 16 48).
Proof.
  apply (accepted_evidence_matches_request golden_chunk_payload).
  - vm_compute. reflexivity.
  - vm_compute. reflexivity.
Defined.
