(* ===== verification/Identity.v ===== *)
(** * The Identity service (crates/sensor-protocol/src/identity.rs)

    A node's identity and capabilities: their 24-byte responses, the output
    rate codes, and the chain of capability checks that ties the advertised
    chunk size to the journal and to the frame payload. *)

From S2P Require Export Application.
From S2P Require Import Framing MeasurementWire.

Definition IDENTITY_RESPONSE_BYTES : nat := 24.
Definition CAPABILITIES_RESPONSE_BYTES : nat := 24.
Definition CAPABILITIES_SCHEMA_VERSION : Z := 2.
Definition KNOWN_OUTPUT_RATE_MASK : Z := 0x07ff.
Definition KNOWN_SERVICE_FLAGS : Z := 0x000001ff.
Definition FEATURE_SAMPLE_JOURNAL : Z := Z.shiftl 1 0.
Definition FEATURE_DRDY_TIMESTAMPS : Z := Z.shiftl 1 1.
Definition FEATURE_ATOMIC_CONFIG : Z := Z.shiftl 1 2.
Definition FEATURE_TRIAL_BOOT_CONFIRMATION : Z := Z.shiftl 1 3.
Definition FEATURE_REMOTE_FIRMWARE_UPDATE : Z := Z.shiftl 1 4.
Definition KNOWN_FEATURE_FLAGS : Z :=
  Z.lor (Z.lor (Z.lor (Z.lor FEATURE_SAMPLE_JOURNAL FEATURE_DRDY_TIMESTAMPS) FEATURE_ATOMIC_CONFIG)
    FEATURE_TRIAL_BOOT_CONFIRMATION) FEATURE_REMOTE_FIRMWARE_UPDATE.

(** ** Output rates *)

Inductive OutputRateCode :=
| RateHz4000 | RateHz2000 | RateHz1000 | RateHz500 | RateHz250 | RateHz125 | RateHz62_5
| RateHz31_25 | RateHz15_625 | RateHz7_8125 | RateHz3_90625.

#[export] Instance OutputRateCode_eq_dec : EqDecision OutputRateCode.
Proof. solve_decision. Defined.

(** [rate as u8]. *)
Definition output_rate_code (rate : OutputRateCode) : Z :=
  match rate with
  | RateHz4000 => 0 | RateHz2000 => 1 | RateHz1000 => 2 | RateHz500 => 3 | RateHz250 => 4
  | RateHz125 => 5 | RateHz62_5 => 6 | RateHz31_25 => 7 | RateHz15_625 => 8 | RateHz7_8125 => 9
  | RateHz3_90625 => 10
  end.

Definition output_rate_capability_bit (rate : OutputRateCode) : Z :=
  Z.shiftl 1 (output_rate_code rate).

Definition output_rate_sample_rate (rate : OutputRateCode) : SampleRate :=
  match rate with
  | RateHz4000 => HZ_4000
  | RateHz2000 => HZ_2000
  | RateHz1000 => HZ_1000
  | RateHz500 => HZ_500
  | RateHz250 => HZ_250
  | RateHz125 => HZ_125
  | RateHz62_5 => HZ_62_5
  | RateHz31_25 => HZ_31_25
  | RateHz15_625 => HZ_15_625
  | RateHz7_8125 => HZ_7_8125
  | RateHz3_90625 => HZ_3_90625
  end.

Definition output_rate_from_wire (value : Z) : option OutputRateCode :=
  match value with
  | 0 => Some RateHz4000
  | 1 => Some RateHz2000
  | 2 => Some RateHz1000
  | 3 => Some RateHz500
  | 4 => Some RateHz250
  | 5 => Some RateHz125
  | 6 => Some RateHz62_5
  | 7 => Some RateHz31_25
  | 8 => Some RateHz15_625
  | 9 => Some RateHz7_8125
  | 10 => Some RateHz3_90625
  | _ => None
  end.

(** ** Identity *)

Inductive IdentityContractError :=
| InvalidPayloadLength
| UnknownIdentityStatus (value : Z)
| IdentityRemoteError (status : ResponseStatus)
| IdentityZeroBootEpoch
| InvalidNodeAddress
| InvalidBoardRevision
| IdentityProtocolMismatch
| UnsupportedCapabilitiesSchema
| InvalidMaxPayload
| UnknownServiceBits
| MissingIdentityService
| UnknownFeatureBits
| InvalidFeatureCombination
| UnknownOutputRateBits
| IncompleteMeasurementCapabilities
| InvalidMaxSampleChunk.

Abbreviation identity := (outcome IdentityContractError).

Record FirmwareVersion := mkFirmware { fw_major : Z; fw_minor : Z; fw_patch : Z }.

#[export] Instance FirmwareVersion_eq_dec : EqDecision FirmwareVersion.
Proof. solve_decision. Defined.

#[export] Instance FirmwareVersion_typed : Typed FirmwareVersion := fun f =>
  u8 (fw_major f) /\ u8 (fw_minor f) /\ u8 (fw_patch f).

#[export] Instance ProtocolVersion_typed : Typed ProtocolVersion := fun v =>
  u8 (framing_version v) /\ u8 (application_version v).

Record NodeIdentity := mkIdentity {
  id_hardware_id : HardwareId;
  id_boot_epoch : BootEpoch;
  id_node_address : Z;
  id_board_revision : Z;
  id_firmware : FirmwareVersion;
  id_protocol : ProtocolVersion
}.

#[export] Instance NodeIdentity_eq_dec : EqDecision NodeIdentity.
Proof. solve_decision. Defined.

#[export] Instance NodeIdentity_typed : Typed NodeIdentity := fun i =>
  hardware_id_typed (id_hardware_id i) /\ u64 (id_boot_epoch i) /\ u8 (id_node_address i) /\
  u8 (id_board_revision i) /\ typed (id_firmware i) /\ typed (id_protocol i).

Definition identity_validate (self : NodeIdentity) : identity NodeIdentity :=
  if id_boot_epoch self =? 0 then Err IdentityZeroBootEpoch
  else if negb ((1 <=? id_node_address self) && (id_node_address self <=? 253))
  then Err InvalidNodeAddress
  else if id_board_revision self =? 0 then Err InvalidBoardRevision
  else Ok self.

Definition require_local_protocol (self : NodeIdentity) : identity NodeIdentity :=
  _ ← map_err (fun _ => IdentityProtocolMismatch)
        (check_compatible LOCAL_PROTOCOL_VERSION (id_protocol self));
  Ok self.

Definition identity_decode_status (payload : bytes) : identity ResponseStatus :=
  value ← ok_or (b2z <$> head payload) InvalidPayloadLength;
  map_err (fun _ => UnknownIdentityStatus value) (response_status_try_from value).

Definition identity_encode_success (self : NodeIdentity) : identity bytes :=
  _ ← identity_validate self;
  output ← put1 0 (status_code StatusOk) (zeros IDENTITY_RESPONSE_BYTES);
  output ← put 1 9 (id_hardware_id self) output;
  output ← put 9 17 (to_le_bytes 8 (id_boot_epoch self)) output;
  output ← put1 17 (id_node_address self) output;
  output ← put1 18 (id_board_revision self) output;
  output ← put1 19 (fw_major (id_firmware self)) output;
  output ← put1 20 (fw_minor (id_firmware self)) output;
  output ← put1 21 (fw_patch (id_firmware self)) output;
  output ← put1 22 (framing_version (id_protocol self)) output;
  put1 23 (application_version (id_protocol self)) output.

Definition identity_decode (payload : bytes) : identity NodeIdentity :=
  status ← identity_decode_status payload;
  if negb (bool_decide (status = StatusOk)) then Err (IdentityRemoteError status)
  else if negb (length payload =? IDENTITY_RESPONSE_BYTES)%nat then Err InvalidPayloadLength
  else
    hardware_id ← slice 1 9 payload;
    boot_epoch ← read_u64 payload 9;
    node_address ← index 17 payload;
    board_revision ← index 18 payload;
    major ← index 19 payload;
    minor ← index 20 payload;
    patch ← index 21 payload;
    framing ← index 22 payload;
    application ← index 23 payload;
    let node := mkIdentity hardware_id boot_epoch node_address board_revision
                  (mkFirmware major minor patch) (mkVersion framing application) in
    _ ← identity_validate node;
    Ok node.

(** ** Capabilities *)

Record NodeCapabilities := mkCapabilities {
  schema_version : Z;
  service_flags : Z;
  feature_flags : Z;
  max_payload_bytes : Z;
  journal_capacity_samples : Z;
  output_rate_mask : Z;
  max_sample_chunk_samples : Z
}.

#[export] Instance NodeCapabilities_eq_dec : EqDecision NodeCapabilities.
Proof. solve_decision. Defined.

#[export] Instance NodeCapabilities_typed : Typed NodeCapabilities := fun c =>
  u8 (schema_version c) /\ u32 (service_flags c) /\ u64 (feature_flags c) /\
  u16 (max_payload_bytes c) /\ u32 (journal_capacity_samples c) /\ u16 (output_rate_mask c) /\
  u16 (max_sample_chunk_samples c).

Definition supports_service (self : NodeCapabilities) (service : ServiceId) : bool :=
  negb (Z.land (service_flags self) (service_capability_bit service) =? 0).

Definition supports_output_rate (self : NodeCapabilities) (rate : OutputRateCode) : bool :=
  negb (Z.land (output_rate_mask self) (output_rate_capability_bit rate) =? 0).

Definition has_feature (self : NodeCapabilities) (feature : Z) : bool :=
  negb (Z.land (feature_flags self) feature =? 0).

Definition validate_payload_contract (self : NodeCapabilities) (require_update_feature_pair : bool)
    : identity NodeCapabilities :=
  if (max_payload_bytes self =? 0) || (Z.of_nat MAX_PAYLOAD_BYTES <? max_payload_bytes self)
  then Err InvalidMaxPayload
  else if negb (Z.land (service_flags self) (bit_not 32 KNOWN_SERVICE_FLAGS) =? 0)
  then Err UnknownServiceBits
  else if negb (supports_service self Identity) then Err MissingIdentityService
  else if negb (Z.land (feature_flags self) (bit_not 64 KNOWN_FEATURE_FLAGS) =? 0)
  then Err UnknownFeatureBits
  else
    let trial_confirmation := has_feature self FEATURE_TRIAL_BOOT_CONFIRMATION in
    let remote_update := has_feature self FEATURE_REMOTE_FIRMWARE_UPDATE in
    if require_update_feature_pair && negb (Bool.eqb trial_confirmation remote_update)
    then Err InvalidFeatureCombination
    else if negb (Z.land (output_rate_mask self) (bit_not 16 KNOWN_OUTPUT_RATE_MASK) =? 0)
    then Err UnknownOutputRateBits
    else if supports_service self Measurement
            && (negb (has_feature self FEATURE_SAMPLE_JOURNAL)
                || (journal_capacity_samples self =? 0)
                || (output_rate_mask self =? 0)
                || (max_sample_chunk_samples self =? 0))
    then Err IncompleteMeasurementCapabilities
    else
      chunk_bytes ← ok_or (checked_add 64 (Z.of_nat CHUNK_FIXED_BYTES)
                             (saturating_mul 64 (max_sample_chunk_samples self)
                                XYZ_I24_WIRE_SAMPLE_BYTES)) InvalidMaxSampleChunk;
      if supports_service self Measurement
         && ((MAX_WIRE_CHUNK_SAMPLES <? max_sample_chunk_samples self)
             || (journal_capacity_samples self <? max_sample_chunk_samples self)
             || (max_payload_bytes self <? chunk_bytes))
      then Err InvalidMaxSampleChunk
      else Ok self.

Definition capabilities_validate (self : NodeCapabilities) : identity NodeCapabilities :=
  if negb (schema_version self =? CAPABILITIES_SCHEMA_VERSION)
  then Err UnsupportedCapabilitiesSchema
  else validate_payload_contract self true.

Definition capabilities_encode_success (self : NodeCapabilities) : identity bytes :=
  _ ← capabilities_validate self;
  output ← put1 0 (status_code StatusOk) (zeros CAPABILITIES_RESPONSE_BYTES);
  output ← put1 1 (schema_version self) output;
  output ← put 2 6 (to_le_bytes 4 (service_flags self)) output;
  output ← put 6 14 (to_le_bytes 8 (feature_flags self)) output;
  output ← put 14 16 (to_le_bytes 2 (max_payload_bytes self)) output;
  output ← put 16 20 (to_le_bytes 4 (journal_capacity_samples self)) output;
  output ← put 20 22 (to_le_bytes 2 (output_rate_mask self)) output;
  put 22 24 (to_le_bytes 2 (max_sample_chunk_samples self)) output.

Definition capabilities_decode_fields (payload : bytes) : identity NodeCapabilities :=
  status ← identity_decode_status payload;
  if negb (bool_decide (status = StatusOk)) then Err (IdentityRemoteError status)
  else if negb (length payload =? CAPABILITIES_RESPONSE_BYTES)%nat then Err InvalidPayloadLength
  else
    schema_version ← index 1 payload;
    service_flags ← read_u32 payload 2;
    feature_flags ← read_u64 payload 6;
    max_payload_bytes ← read_u16 payload 14;
    journal_capacity_samples ← read_u32 payload 16;
    output_rate_mask ← read_u16 payload 20;
    max_sample_chunk_samples ← read_u16 payload 22;
    Ok (mkCapabilities schema_version service_flags feature_flags max_payload_bytes
          journal_capacity_samples output_rate_mask max_sample_chunk_samples).

Definition capabilities_decode (payload : bytes) : identity NodeCapabilities :=
  capabilities ← capabilities_decode_fields payload;
  capabilities_validate capabilities.

Definition decode_schema_1_for_migration (payload : bytes) : identity NodeCapabilities :=
  capabilities ← capabilities_decode_fields payload;
  if negb (schema_version capabilities =? 1) then Err UnsupportedCapabilitiesSchema
  else validate_payload_contract capabilities false.

#[export] Instance identity_codec : WireCodec IdentityContractError NodeIdentity := {
  wire_encode := identity_encode_success;
  wire_decode := identity_decode
}.

#[export] Instance capabilities_codec : WireCodec IdentityContractError NodeCapabilities := {
  wire_encode := capabilities_encode_success;
  wire_decode := capabilities_decode
}.

(** ** Output rates *)

Lemma output_rate_from_wire_code (r : OutputRateCode) :
  output_rate_from_wire (b2z (z2b (output_rate_code r))) = Some r.
Proof. by destruct r. Qed.

Lemma output_rate_from_wire_inv (v : Z) (r : OutputRateCode) :
  output_rate_from_wire v = Some r -> output_rate_code r = v.
Proof. unfold output_rate_from_wire. repeat case_match; try discriminate; by intros [= <-]. Qed.

(** ** Decoding a status *)

Lemma identity_decode_status_inv (l : bytes) (s : ResponseStatus) :
  identity_decode_status l = Ok s -> exists rest, l = z2b (status_code s) :: rest.
Proof.
  unfold identity_decode_status. destruct l as [|b l]; [discriminate|]. cbn [head ok_or fmap option_fmap option_map mbind outcome_bind].
  intros Hs. apply map_err_Ok, status_try_from_inv in Hs. exists l. f_equal. by apply z2b_b2z_eq.
Qed.

Lemma identity_decode_status_no_panic (l : bytes) : no_panic (identity_decode_status l).
Proof. unfold identity_decode_status. apply no_panic_bind; auto with rust. Qed.
#[export] Hint Resolve identity_decode_status_no_panic : rust.

(** ** Identity *)

Definition identity_wire (i : NodeIdentity) : bytes :=
  z2b (status_code StatusOk) :: id_hardware_id i ++ to_le_bytes 8 (id_boot_epoch i) ++
  [z2b (id_node_address i); z2b (id_board_revision i); z2b (fw_major (id_firmware i));
   z2b (fw_minor (id_firmware i)); z2b (fw_patch (id_firmware i));
   z2b (framing_version (id_protocol i)); z2b (application_version (id_protocol i))].

Lemma identity_validate_no_panic (i : NodeIdentity) : no_panic (identity_validate i).
Proof. unfold identity_validate. repeat split_guard; auto with rust. Qed.
#[export] Hint Resolve identity_validate_no_panic : rust.

Lemma identity_validate_same (i j : NodeIdentity) : identity_validate i = Ok j -> j = i.
Proof. unfold identity_validate. intros H. run_in H. done. Qed.

Lemma identity_encode_spec (i : NodeIdentity) :
  hardware_id_typed (id_hardware_id i) ->
  identity_encode_success i = (_ ← identity_validate i; Ok (identity_wire i)).
Proof.
  intros Hh. unfold identity_encode_success.
  destruct (identity_validate i); cbn [mbind outcome_bind]; [|done..].
  unfold identity_wire, hardware_id_typed in *. destruct i as [h ep ad rv fw pr]. cbn [id_hardware_id] in *.
  explicit_bytes h Hh. reflexivity.
Qed.

Lemma identity_decode_wire (i : NodeIdentity) :
  typed i -> identity_validate i = Ok i -> identity_decode (identity_wire i) = Ok i.
Proof.
  intros (Hh & T1 & T2 & T3 & (T4 & T5 & T6) & T7 & T8) Hv. unfold hardware_id_typed in Hh.
  transitivity (let node := mkIdentity (id_hardware_id i)
      (from_le_bytes (to_le_bytes 8 (id_boot_epoch i))) (b2z (z2b (id_node_address i)))
      (b2z (z2b (id_board_revision i)))
      (mkFirmware (b2z (z2b (fw_major (id_firmware i)))) (b2z (z2b (fw_minor (id_firmware i))))
         (b2z (z2b (fw_patch (id_firmware i)))))
      (mkVersion (b2z (z2b (framing_version (id_protocol i))))
         (b2z (z2b (application_version (id_protocol i))))) in
    _ ← identity_validate node; (Ok node : identity NodeIdentity)).
  - unfold identity_wire. destruct i as [h ep ad rv fw pr]. cbn [id_hardware_id] in *.
    explicit_bytes h Hh. reflexivity.
  - wire_values. destruct i as [h e a r [f1 f2 f3] [p1 p2]].
    cbn [id_hardware_id id_boot_epoch id_node_address id_board_revision id_firmware id_protocol
      fw_major fw_minor fw_patch framing_version application_version] in *.
    cbv zeta. by rewrite Hv.
Qed.

Lemma identity_decode_inv (l : bytes) (i : NodeIdentity) :
  identity_decode l = Ok i -> typed i /\ identity_validate i = Ok i /\ l = identity_wire i.
Proof.
  unfold identity_decode. intros H. apply outcome_bind_Ok in H as (s & (rest & ->)%identity_decode_status_inv & H).
  case_bool_decide as Hs; [|discriminate H]. subst s. cbn [negb] in H.
  destruct (Nat.eqb_spec (length (z2b (status_code StatusOk) :: rest)) IDENTITY_RESPONSE_BYTES) as [Hl|]; [|discriminate H].
  cbn [negb] in H. injection Hl as Hl. apply outcome_bind_Ok in H as (h & (_ & _ & Hh & Hhl)%slice_inv & H).
  do 8 decode_step H. apply outcome_bind_Ok in H as (j & Hv & [= <-]).
  pose proof (identity_validate_same _ _ Hv) as ->. split; [solve_typed|]. split; [done|].
  unfold identity_wire. cbn [id_hardware_id id_boot_epoch id_node_address id_board_revision id_firmware id_protocol
      fw_major fw_minor fw_patch framing_version application_version].
  rewrite Hh, Hr. change [?x1; ?x2; ?x3; ?x4; ?x5; ?x6; ?x7] with ([x1] ++ [x2] ++ [x3] ++ [x4] ++ [x5] ++ [x6] ++ [x7]).
  rewrite Hr0, Hr1, Hr2, Hr3, Hr4, Hr5, Hr6. clear -Hl. explicit_bytes rest Hl. reflexivity.
Qed.

Lemma identity_decode_no_panic (l : bytes) : no_panic (identity_decode l).
Proof.
  unfold identity_decode. apply no_panic_bind; [auto with rust|intros s _].
  destruct (negb _); [done|]. destruct (Nat.eqb_spec (length l) IDENTITY_RESPONSE_BYTES) as [Hl|]; [|done].
  change IDENTITY_RESPONSE_BYTES with 24%nat in Hl. cbn [negb].
  apply no_panic_bind; [apply slice_no_panic; lia|intros h _].
  apply no_panic_bind; [apply read_u64_no_panic; lia|intros e _].
  repeat (apply no_panic_bind; [apply index_no_panic; lia|intros ? _]).
  apply no_panic_bind; auto with rust.
Qed.

Lemma identity_lawful : lawful_codec IdentityContractError NodeIdentity.
Proof.
  split; cbn [wire_encode wire_decode identity_codec].
  - intros i l Ht. rewrite identity_encode_spec by apply Ht.
    intros (j & Hv & [= <-])%outcome_bind_Ok. pose proof (identity_validate_same _ _ Hv) as ->.
    by apply identity_decode_wire.
  - intros l i (Ht & Hv & ->)%identity_decode_inv. split; [done|].
    rewrite identity_encode_spec by apply Ht. by rewrite Hv.
  - apply identity_decode_no_panic.
  - intros i Ht. rewrite identity_encode_spec by apply Ht. apply no_panic_bind; auto with rust.
  - intros i l Ht. rewrite identity_encode_spec by apply Ht.
    intros (j & _ & [= <-])%outcome_bind_Ok. unfold identity_wire. cbn [length].
    rewrite length_app. destruct Ht as (-> & _). wire_fits.
Qed.

(** ** Capabilities *)

Definition capabilities_wire (c : NodeCapabilities) : bytes :=
  [z2b (status_code StatusOk)] ++ [z2b (schema_version c)] ++ to_le_bytes 4 (service_flags c) ++
  to_le_bytes 8 (feature_flags c) ++ to_le_bytes 2 (max_payload_bytes c) ++
  to_le_bytes 4 (journal_capacity_samples c) ++ to_le_bytes 2 (output_rate_mask c) ++
  to_le_bytes 2 (max_sample_chunk_samples c).

Lemma payload_contract_same (c d : NodeCapabilities) (b : bool) :
  validate_payload_contract c b = Ok d -> d = c.
Proof.
  unfold validate_payload_contract. intros H.
  repeat (split_guard_in H; try discriminate H); apply outcome_bind_Ok in H as (? & _ & H);
    split_guard_in H; congruence.
Qed.

Lemma capabilities_validate_same (c d : NodeCapabilities) : capabilities_validate c = Ok d -> d = c.
Proof. unfold capabilities_validate. destruct (negb _); [done|]. apply payload_contract_same. Qed.

Lemma payload_contract_no_panic (c : NodeCapabilities) (b : bool) :
  no_panic (validate_payload_contract c b).
Proof.
  unfold validate_payload_contract. cbv zeta. repeat (destruct (_ || _)%bool || destruct (_ && _)%bool || destruct (negb _); auto with rust).
  all: apply no_panic_bind; [auto with rust|intros x _]; destruct (_ && _)%bool; auto with rust.
Qed.

Lemma capabilities_validate_no_panic (c : NodeCapabilities) : no_panic (capabilities_validate c).
Proof. unfold capabilities_validate. destruct (negb _); auto using payload_contract_no_panic with rust. Qed.
#[export] Hint Resolve payload_contract_no_panic capabilities_validate_no_panic : rust.

Lemma capabilities_encode_spec (c : NodeCapabilities) :
  capabilities_encode_success c = (_ ← capabilities_validate c; Ok (capabilities_wire c)).
Proof.
  unfold capabilities_encode_success.
  destruct (capabilities_validate c); cbn [mbind outcome_bind]; [reflexivity|done..].
Qed.

Lemma capabilities_fields_wire (c : NodeCapabilities) :
  typed c -> capabilities_decode_fields (capabilities_wire c) = Ok c.
Proof.
  intros (T1 & T2 & T3 & T4 & T5 & T6 & T7).
  transitivity (Ok (mkCapabilities (b2z (z2b (schema_version c)))
    (from_le_bytes (to_le_bytes 4 (service_flags c))) (from_le_bytes (to_le_bytes 8 (feature_flags c)))
    (from_le_bytes (to_le_bytes 2 (max_payload_bytes c)))
    (from_le_bytes (to_le_bytes 4 (journal_capacity_samples c)))
    (from_le_bytes (to_le_bytes 2 (output_rate_mask c)))
    (from_le_bytes (to_le_bytes 2 (max_sample_chunk_samples c)))) : identity NodeCapabilities);
    [reflexivity|]. wire_values. by destruct c.
Qed.

Lemma capabilities_fields_inv (l : bytes) (c : NodeCapabilities) :
  capabilities_decode_fields l = Ok c -> typed c /\ l = capabilities_wire c.
Proof.
  unfold capabilities_decode_fields. intros H.
  apply outcome_bind_Ok in H as (s & (rest & ->)%identity_decode_status_inv & H).
  case_bool_decide as Hs; [|discriminate H]. subst s. cbn [negb] in H.
  destruct (Nat.eqb_spec (length (z2b (status_code StatusOk) :: rest)) CAPABILITIES_RESPONSE_BYTES) as [Hl|]; [|discriminate H].
  cbn [negb] in H. injection Hl as Hl. do 7 decode_step H. injection H as <-.
  split; [solve_typed|]. unfold capabilities_wire.
  cbn [schema_version service_flags feature_flags max_payload_bytes journal_capacity_samples
    output_rate_mask max_sample_chunk_samples].
  rewrite Hr, Hr0, Hr1, Hr2, Hr3, Hr4, Hr5. clear -Hl. explicit_bytes rest Hl. reflexivity.
Qed.

Lemma capabilities_fields_no_panic (l : bytes) : no_panic (capabilities_decode_fields l).
Proof.
  unfold capabilities_decode_fields. apply no_panic_bind; [auto with rust|intros s _].
  destruct (negb _); [done|]. destruct (Nat.eqb_spec (length l) CAPABILITIES_RESPONSE_BYTES) as [Hl|]; [|done].
  change CAPABILITIES_RESPONSE_BYTES with 24%nat in Hl. cbn [negb].
  repeat (apply no_panic_bind; [first [apply index_no_panic|apply read_u64_no_panic
    |apply read_u32_no_panic|apply read_u16_no_panic]; lia|intros ? _]). auto with rust.
Qed.
#[export] Hint Resolve capabilities_fields_no_panic : rust.

Lemma capabilities_lawful : lawful_codec IdentityContractError NodeCapabilities.
Proof.
  split; cbn [wire_encode wire_decode capabilities_codec].
  - intros c l Ht. rewrite capabilities_encode_spec. intros (d & Hv & [= <-])%outcome_bind_Ok.
    unfold capabilities_decode. rewrite capabilities_fields_wire by done. cbn [mbind outcome_bind].
    pose proof (capabilities_validate_same _ _ Hv) as ->. done.
  - intros l c H. unfold capabilities_decode in H.
    apply outcome_bind_Ok in H as (d & [Ht ->]%capabilities_fields_inv & Hv).
    pose proof (capabilities_validate_same _ _ Hv) as ->. split; [done|].
    by rewrite capabilities_encode_spec, Hv.
  - intros l. unfold capabilities_decode. apply no_panic_bind; auto with rust.
  - intros c _. rewrite capabilities_encode_spec. apply no_panic_bind; auto with rust.
  - intros c l _. rewrite capabilities_encode_spec. intros (d & _ & [= <-])%outcome_bind_Ok.
    unfold capabilities_wire. wire_fits.
Qed.

(** ** Properties *)

(** The Identity service's wire format: identity and capabilities responses
    round-trip, decode only from their canonical bytes, never panic and fit a
    frame. *)
Theorem identity_wire_lawful :
  lawful_codec IdentityContractError NodeIdentity /\
  lawful_codec IdentityContractError NodeCapabilities.
Proof. auto using identity_lawful, capabilities_lawful. Qed.

(** Accepted capabilities make every maximal chunk transmissible: the
    advertised chunk limit lies between 1 and 49 samples and inside the journal,
    and every sample chunk within that limit encodes to a payload no longer than
    the advertised maximum, which itself fits a frame. The schema-1 migration
    decoder gives the same guarantee. *)
Lemma capabilities_bound_chunks (payload : bytes) (c : NodeCapabilities) (chunk : SampleChunk) (l : bytes) :
  (capabilities_decode payload = Ok c \/ decode_schema_1_for_migration payload = Ok c) ->
  supports_service c Measurement = true ->
  typed chunk -> wire_encode (RSampleChunk chunk) = Ok l ->
  chunk_sample_count (header chunk) <= max_sample_chunk_samples c ->
  1 <= max_sample_chunk_samples c <= Z.min 49 (journal_capacity_samples c) /\
  Z.of_nat (length l) <= max_payload_bytes c <= 512 /\
  output_rate_mask c <> 0 /\ supports_service c Identity = true.
Proof.
  intros Hdec Hm Ht Hl Hcount.
  assert (Hc : typed c /\ exists b, validate_payload_contract c b = Ok c).
  { destruct Hdec as [H|H]; unfold capabilities_decode, decode_schema_1_for_migration in H;
      apply outcome_bind_Ok in H as (d & [Hd ->]%capabilities_fields_inv & Hv).
    - unfold capabilities_validate in Hv. destruct (negb _); [discriminate Hv|].
      pose proof (payload_contract_same _ _ _ Hv) as ->. eauto.
    - destruct (negb _); [discriminate Hv|].
      pose proof (payload_contract_same _ _ _ Hv) as ->. eauto. }
  destruct Hc as ((_ & _ & _ & Tp & Tj & Tr & Ts) & b & Hv).
  rewrite wire_encode_pull_response in Hl. apply outcome_bind_Ok in Hl as ([] & Hcheck & [= <-]).
  apply sample_chunk_validate_Ok in Hcheck as (_ & _ & Hn & _).
  unfold validate_payload_contract in Hv. cbv zeta in Hv. rewrite Hm in Hv. cbn [andb] in Hv.
  change MAX_WIRE_CHUNK_SAMPLES with 49 in Hv. change (Z.of_nat MAX_PAYLOAD_BYTES) with 512 in Hv.
  change (Z.of_nat CHUNK_FIXED_BYTES) with 66 in Hv. unfold XYZ_I24_WIRE_SAMPLE_BYTES in Hv.
  unfold saturating_mul, checked_add in Hv.
  assert (Hlen : Z.of_nat (length (response_wire (RSampleChunk chunk))) =
                 66 + 9 * chunk_sample_count (header chunk)).
  { unfold response_wire. cbn [length response_body]. rewrite length_app, length_samples_wire.
    change (length (chunk_wire chunk)) with 64%nat. lia. }
  rewrite Hlen. unfold_ints. run_in Hv; apply outcome_bind_Ok in Hv as (n & Hn' & Hv); run_in Hv.
  injection Hn' as <-. split_and!; auto; lia.
Qed.

(** ** Golden vectors and witnesses *)

Example golden_identity_decodes :
  identity_decode (literal
    [0x00; 0x2f; 0x13; 0x34; 0x94; 0x50; 0xfa; 0x40; 0x84; 0x88; 0x77; 0x66; 0x55; 0x44; 0x33; 0x22;
     0x11; 0x07; 0x02; 0x00; 0x05; 0x00; 0x03; 0x05])
  = Ok (mkIdentity (literal [0x2f; 0x13; 0x34; 0x94; 0x50; 0xfa; 0x40; 0x84]) 0x1122334455667788 7 2
          (mkFirmware 0 5 0) LOCAL_PROTOCOL_VERSION).
Proof. vm_compute. reflexivity. Qed.

Definition golden_capabilities_payload : bytes :=
  literal
    [0x00; 0x02; 0x07; 0x00; 0x00; 0x00; 0x03; 0x00; 0x00; 0x00; 0x00; 0x00; 0x00; 0x00; 0x00; 0x02;
     0x00; 0x10; 0x00; 0x00; 0x7e; 0x00; 0x30; 0x00].

Definition golden_capabilities : NodeCapabilities := mkCapabilities 2 7 3 512 4096 126 48.

Example golden_capabilities_decode :
  capabilities_decode golden_capabilities_payload = Ok golden_capabilities.
Proof. vm_compute. reflexivity. Qed.

Lemma capabilities_bound_chunks_witness :
  1 <= max_sample_chunk_samples golden_capabilities
    <= Z.min 49 (journal_capacity_samples golden_capabilities) /\
  Z.of_nat (length golden_chunk_payload) <= max_payload_bytes golden_capabilities <= 512 /\
  output_rate_mask golden_capabilities <> 0 /\
  supports_service golden_capabilities Identity = true.
Proof.
  apply (capabilities_bound_chunks golden_capabilities_payload _ golden_chunk).
  - left. vm_compute. reflexivity.
  - reflexivity.
  - repeat first [apply conj | constructor | progress hnf]; vm_compute; congruence.
  - vm_compute. reflexivity.
  - vm_compute. congruence.
Defined.
