(* ===== verification/ConfigurationWire.v ===== *)
(** * The Configuration service on the wire
      (crates/sensor-protocol/src/configuration_wire.rs)

    The measurement configuration, the observed configuration (whose sensor rate
    and decimation factor must reproduce the desired output rate exactly) and
    the requests and responses of the service. *)

From S2P Require Export Identity Adxl355.

Definition CONFIGURATION_SCHEMA_VERSION : Z := 1.
Definition CONFIGURATION_VALUE_BYTES : nat := 12.
Definition OBSERVED_CONFIG_BYTES : nat := 18.
Definition GET_CONFIG_RESPONSE_BYTES : nat := 1 + OBSERVED_CONFIG_BYTES.
Definition VALIDATE_CONFIG_RESPONSE_BYTES : nat := 3.
Definition APPLY_CONFIG_REQUEST_BYTES : nat := 8 + CONFIGURATION_VALUE_BYTES.
Definition RESET_CONFIG_REQUEST_BYTES : nat := 8.
Definition CONFIG_OPERATION_RESPONSE_BYTES : nat := 1 + 4 + 1 + OBSERVED_CONFIG_BYTES + 8.

Inductive ConfigurationWireError :=
| ConfigInvalidLength (length : nat)
| UnsupportedSchema (schema : Z)
| UnknownOutputRate (value : Z)
| UnknownSensorOdr (value : Z)
| UnknownFilterProfile (value : Z)
| InvalidRange (value : Z)
| InvalidHighPassCorner (value : Z)
| InvalidFifoWatermark (value : Z)
| ConfigZeroOperationId
| ConfigZeroRevision
| ZeroDecimationFactor
| InconsistentObservedRate
| ConfigUnknownResponseStatus (value : Z)
| ConfigRemote (status : ResponseStatus)
| UnknownValidationCode (value : Z)
| UnknownConfigField (value : Z)
| UnknownOperationCode (value : Z).

Abbreviation cwire := (outcome ConfigurationWireError).

(** ** Enumerations *)

Inductive DecimationFilterProfile := Light | Balanced | Aggressive.

Definition filter_profile_code (p : DecimationFilterProfile) : Z :=
  match p with Light => 0 | Balanced => 1 | Aggressive => 2 end.

Definition filter_profile_from_wire (value : Z) : option DecimationFilterProfile :=
  match value with
  | 0 => Some Light
  | 1 => Some Balanced
  | 2 => Some Aggressive
  | _ => None
  end.

Inductive ConfigValidationCode :=
| Valid | UnsupportedOutputRate | VInvalidRange | VInvalidHighPassCorner | VInvalidFilterProfile
| VInvalidFifoWatermark | InvalidOffset.

Definition validation_code (c : ConfigValidationCode) : Z :=
  match c with
  | Valid => 0 | UnsupportedOutputRate => 1 | VInvalidRange => 2 | VInvalidHighPassCorner => 3
  | VInvalidFilterProfile => 4 | VInvalidFifoWatermark => 5 | InvalidOffset => 6
  end.

Definition validation_code_from_wire (value : Z) : option ConfigValidationCode :=
  match value with
  | 0 => Some Valid
  | 1 => Some UnsupportedOutputRate
  | 2 => Some VInvalidRange
  | 3 => Some VInvalidHighPassCorner
  | 4 => Some VInvalidFilterProfile
  | 5 => Some VInvalidFifoWatermark
  | 6 => Some InvalidOffset
  | _ => None
  end.

Inductive ConfigField :=
| NoField | OutputRate | Range | HighPassCorner | FilterProfile | FifoWatermark | OffsetX | OffsetY
| OffsetZ.

Definition config_field_code (f : ConfigField) : Z :=
  match f with
  | NoField => 0 | OutputRate => 1 | Range => 2 | HighPassCorner => 3 | FilterProfile => 4
  | FifoWatermark => 5 | OffsetX => 6 | OffsetY => 7 | OffsetZ => 8
  end.

Definition config_field_from_wire (value : Z) : option ConfigField :=
  match value with
  | 0 => Some NoField
  | 1 => Some OutputRate
  | 2 => Some Range
  | 3 => Some HighPassCorner
  | 4 => Some FilterProfile
  | 5 => Some FifoWatermark
  | 6 => Some OffsetX
  | 7 => Some OffsetY
  | 8 => Some OffsetZ
  | _ => None
  end.

Inductive ConfigOperationCode :=
| Applied | RevisionConflict | InvalidConfiguration | StorageFailed | SensorFailed | RollbackFailed
| ConfigWrongMode.

Definition operation_code (c : ConfigOperationCode) : Z :=
  match c with
  | Applied => 0 | RevisionConflict => 1 | InvalidConfiguration => 2 | StorageFailed => 3
  | SensorFailed => 4 | RollbackFailed => 5 | ConfigWrongMode => 6
  end.

Definition operation_code_from_wire (value : Z) : option ConfigOperationCode :=
  match value with
  | 0 => Some Applied
  | 1 => Some RevisionConflict
  | 2 => Some InvalidConfiguration
  | 3 => Some StorageFailed
  | 4 => Some SensorFailed
  | 5 => Some RollbackFailed
  | 6 => Some ConfigWrongMode
  | _ => None
  end.

(** ** Configurations *)

Record MeasurementConfiguration := mkConfiguration {
  output_rate : OutputRateCode;
  range_g : Z;
  high_pass_corner : Z;
  filter_profile : DecimationFilterProfile;
  fifo_watermark : Z;
  offset_x : Z;
  offset_y : Z;
  offset_z : Z
}.

#[export] Instance MeasurementConfiguration_typed : Typed MeasurementConfiguration := fun c =>
  u8 (range_g c) /\ u8 (high_pass_corner c) /\ u8 (fifo_watermark c) /\
  i16 (offset_x c) /\ i16 (offset_y c) /\ i16 (offset_z c).

Definition product_default : MeasurementConfiguration :=
  mkConfiguration RateHz125 2 0 Balanced 30 0 0 0.

Definition configuration_validate (self : MeasurementConfiguration)
    : cwire MeasurementConfiguration :=
  if negb ((range_g self =? 2) || (range_g self =? 4) || (range_g self =? 8))
  then Err (InvalidRange (range_g self))
  else if 7 <? high_pass_corner self then Err (InvalidHighPassCorner (high_pass_corner self))
  else if negb ((3 <=? fifo_watermark self) && (fifo_watermark self <=? 96))
          || negb (fifo_watermark self mod 3 =? 0)
  then Err (InvalidFifoWatermark (fifo_watermark self))
  else Ok self.

Record ObservedConfiguration := mkObserved {
  revision : Z;
  desired : MeasurementConfiguration;
  sensor_odr : Adxl355Odr;
  decimation_factor : Z
}.

#[export] Instance ObservedConfiguration_typed : Typed ObservedConfiguration := fun o =>
  u32 (revision o) /\ typed (desired o) /\ u8 (decimation_factor o).

Definition observed_validate (self : ObservedConfiguration) : cwire ObservedConfiguration :=
  _ ← configuration_validate (desired self);
  if revision self =? 0 then Err ConfigZeroRevision
  else if decimation_factor self =? 0 then Err ZeroDecimationFactor
  else if negb (bool_decide
                  (outcome_ok (divided_by (odr_sample_rate (sensor_odr self)) (decimation_factor self))
                   = Some (output_rate_sample_rate (output_rate (desired self)))))
  then Err InconsistentObservedRate
  else Ok self.

Record ConfigValidationResult := mkValidationResult {
  result_code : ConfigValidationCode;
  result_field : ConfigField
}.

#[export] Instance ConfigValidationResult_typed : Typed ConfigValidationResult := fun _ => True.

Record ConfigOperationRequest := mkOperationRequest {
  req_operation_id : Z;
  expected_revision : Z;
  configuration : MeasurementConfiguration
}.

#[export] Instance ConfigOperationRequest_typed : Typed ConfigOperationRequest := fun r =>
  u32 (req_operation_id r) /\ u32 (expected_revision r) /\ typed (configuration r).

Record ConfigOperationResult := mkOperationResult {
  res_operation_id : Z;
  res_code : ConfigOperationCode;
  observed : ObservedConfiguration;
  effective_sample_seq : Z
}.

#[export] Instance ConfigOperationResult_typed : Typed ConfigOperationResult := fun r =>
  u32 (res_operation_id r) /\ typed (observed r) /\ u64 (effective_sample_seq r).

(** The pair of a reset request. *)
Record ResetRequest := mkReset { reset_operation_id : Z; reset_expected_revision : Z }.

#[export] Instance ResetRequest_typed : Typed ResetRequest := fun r =>
  u32 (reset_operation_id r) /\ u32 (reset_expected_revision r).

(** ** Shared checks *)

Definition config_require_length (payload : bytes) (expected : nat) : cwire unit :=
  if (length payload =? expected)%nat then Ok tt else Err (ConfigInvalidLength (length payload)).

Definition config_require_success (payload : bytes) (expected : nat) : cwire unit :=
  raw ← ok_or (b2z <$> head payload) (ConfigInvalidLength 0);
  status ← map_err (fun _ => ConfigUnknownResponseStatus raw) (response_status_try_from raw);
  if negb (bool_decide (status = StatusOk)) then
    if negb (length payload =? 1)%nat then Err (ConfigInvalidLength (length payload))
    else Err (ConfigRemote status)
  else if negb (length payload =? expected)%nat then Err (ConfigInvalidLength (length payload))
  else Ok tt.

Definition validate_operation_ids (operation_id revision : Z) : cwire unit :=
  if operation_id =? 0 then Err ConfigZeroOperationId
  else if revision =? 0 then Err ConfigZeroRevision
  else Ok tt.

(** ** Codecs *)

Definition encode_configuration (value : MeasurementConfiguration) : cwire bytes :=
  _ ← configuration_validate value;
  out ← put1 0 CONFIGURATION_SCHEMA_VERSION (zeros CONFIGURATION_VALUE_BYTES);
  out ← put1 1 (output_rate_code (output_rate value)) out;
  out ← put1 2 (range_g value) out;
  out ← put1 3 (high_pass_corner value) out;
  out ← put1 4 (filter_profile_code (filter_profile value)) out;
  out ← put1 5 (fifo_watermark value) out;
  out ← put 6 8 (to_le_bytes 2 (offset_x value)) out;
  out ← put 8 10 (to_le_bytes 2 (offset_y value)) out;
  put 10 12 (to_le_bytes 2 (offset_z value)) out.

Definition decode_configuration (payload : bytes) : cwire MeasurementConfiguration :=
  _ ← config_require_length payload CONFIGURATION_VALUE_BYTES;
  schema ← index 0 payload;
  if negb (schema =? CONFIGURATION_SCHEMA_VERSION) then Err (UnsupportedSchema schema)
  else
    raw_rate ← index 1 payload;
    output_rate ← ok_or (output_rate_from_wire raw_rate) (UnknownOutputRate raw_rate);
    range_g ← index 2 payload;
    high_pass_corner ← index 3 payload;
    raw_profile ← index 4 payload;
    filter_profile ← ok_or (filter_profile_from_wire raw_profile) (UnknownFilterProfile raw_profile);
    fifo_watermark ← index 5 payload;
    offset_x ← read_i16 payload 6;
    offset_y ← read_i16 payload 8;
    offset_z ← read_i16 payload 10;
    configuration_validate
      (mkConfiguration output_rate range_g high_pass_corner filter_profile fifo_watermark
         offset_x offset_y offset_z).

Definition encode_apply_config_request (request : ConfigOperationRequest) : cwire bytes :=
  _ ← validate_operation_ids (req_operation_id request) (expected_revision request);
  out ← put 0 4 (to_le_bytes 4 (req_operation_id request)) (zeros APPLY_CONFIG_REQUEST_BYTES);
  out ← put 4 8 (to_le_bytes 4 (expected_revision request)) out;
  value ← encode_configuration (configuration request);
  put 8 (length out) value out.

Definition decode_apply_config_request (payload : bytes) : cwire ConfigOperationRequest :=
  _ ← config_require_length payload APPLY_CONFIG_REQUEST_BYTES;
  operation_id ← read_u32 payload 0;
  expected_revision ← read_u32 payload 4;
  value ← slice_from 8 payload;
  configuration ← decode_configuration value;
  _ ← validate_operation_ids operation_id expected_revision;
  Ok (mkOperationRequest operation_id expected_revision configuration).

Definition encode_reset_config_request (request : ResetRequest) : cwire bytes :=
  _ ← validate_operation_ids (reset_operation_id request) (reset_expected_revision request);
  out ← put 0 4 (to_le_bytes 4 (reset_operation_id request)) (zeros RESET_CONFIG_REQUEST_BYTES);
  put 4 8 (to_le_bytes 4 (reset_expected_revision request)) out.

Definition decode_reset_config_request (payload : bytes) : cwire ResetRequest :=
  _ ← config_require_length payload RESET_CONFIG_REQUEST_BYTES;
  operation_id ← read_u32 payload 0;
  expected_revision ← read_u32 payload 4;
  _ ← validate_operation_ids operation_id expected_revision;
  Ok (mkReset operation_id expected_revision).

Definition decode_observed (payload : bytes) : cwire ObservedConfiguration :=
  _ ← config_require_length payload OBSERVED_CONFIG_BYTES;
  revision ← read_u32 payload 0;
  value ← slice 4 16 payload;
  desired ← decode_configuration value;
  raw_odr ← index 16 payload;
  sensor_odr ← ok_or (from_register_value raw_odr) (UnknownSensorOdr raw_odr);
  decimation_factor ← index 17 payload;
  observed_validate (mkObserved revision desired sensor_odr decimation_factor).

Definition encode_observed (value : ObservedConfiguration) (output : bytes) : cwire bytes :=
  _ ← observed_validate value;
  if negb (length output =? OBSERVED_CONFIG_BYTES)%nat then Err (ConfigInvalidLength (length output))
  else
    output ← put 0 4 (to_le_bytes 4 (revision value)) output;
    desired ← encode_configuration (desired value);
    output ← put 4 16 desired output;
    output ← put1 16 (register_value (sensor_odr value)) output;
    put1 17 (decimation_factor value) output.

Definition decode_get_config_response (payload : bytes) : cwire ObservedConfiguration :=
  _ ← config_require_success payload GET_CONFIG_RESPONSE_BYTES;
  fields ← slice_from 1 payload;
  decode_observed fields.

Definition encode_get_config_response (value : ObservedConfiguration) : cwire bytes :=
  _ ← observed_validate value;
  out ← put1 0 (status_code StatusOk) (zeros GET_CONFIG_RESPONSE_BYTES);
  with_slice 1 (length out) (encode_observed value) out.

Definition encode_validate_config_response (value : ConfigValidationResult) : cwire bytes :=
  Ok [z2b (status_code StatusOk); z2b (validation_code (result_code value));
      z2b (config_field_code (result_field value))].

Definition decode_validate_config_response (payload : bytes) : cwire ConfigValidationResult :=
  _ ← config_require_success payload VALIDATE_CONFIG_RESPONSE_BYTES;
  raw_code ← index 1 payload;
  code ← ok_or (validation_code_from_wire raw_code) (UnknownValidationCode raw_code);
  raw_field ← index 2 payload;
  field ← ok_or (config_field_from_wire raw_field) (UnknownConfigField raw_field);
  Ok (mkValidationResult code field).

Definition decode_config_operation_response (payload : bytes) : cwire ConfigOperationResult :=
  _ ← config_require_success payload CONFIG_OPERATION_RESPONSE_BYTES;
  operation_id ← read_u32 payload 1;
  raw_code ← index 5 payload;
  code ← ok_or (operation_code_from_wire raw_code) (UnknownOperationCode raw_code);
  fields ← slice 6 24 payload;
  observed ← decode_observed fields;
  effective_sample_seq ← read_u64 payload 24;
  if operation_id =? 0 then Err ConfigZeroOperationId
  else Ok (mkOperationResult operation_id code observed effective_sample_seq).

Definition encode_config_operation_response (value : ConfigOperationResult) : cwire bytes :=
  if res_operation_id value =? 0 then Err ConfigZeroOperationId
  else
    _ ← observed_validate (observed value);
    out ← put1 0 (status_code StatusOk) (zeros CONFIG_OPERATION_RESPONSE_BYTES);
    out ← put 1 5 (to_le_bytes 4 (res_operation_id value)) out;
    out ← put1 5 (operation_code (res_code value)) out;
    out ← with_slice 6 24 (encode_observed (observed value)) out;
    put 24 32 (to_le_bytes 8 (effective_sample_seq value)) out.

#[export] Instance configuration_codec : WireCodec ConfigurationWireError MeasurementConfiguration := {
  wire_encode := encode_configuration; wire_decode := decode_configuration }.
#[export] Instance apply_config_codec : WireCodec ConfigurationWireError ConfigOperationRequest := {
  wire_encode := encode_apply_config_request; wire_decode := decode_apply_config_request }.
#[export] Instance reset_config_codec : WireCodec ConfigurationWireError ResetRequest := {
  wire_encode := encode_reset_config_request; wire_decode := decode_reset_config_request }.
#[export] Instance get_config_codec : WireCodec ConfigurationWireError ObservedConfiguration := {
  wire_encode := encode_get_config_response; wire_decode := decode_get_config_response }.
#[export] Instance validate_config_codec : WireCodec ConfigurationWireError ConfigValidationResult := {
  wire_encode := encode_validate_config_response; wire_decode := decode_validate_config_response }.
#[export] Instance config_operation_codec : WireCodec ConfigurationWireError ConfigOperationResult := {
  wire_encode := encode_config_operation_response; wire_decode := decode_config_operation_response }.

(** ** Enumerations *)

Ltac enum_inv f := unfold f; repeat case_match; try discriminate; by intros [= <-].

Lemma filter_profile_code_from (p : DecimationFilterProfile) :
  filter_profile_from_wire (b2z (z2b (filter_profile_code p))) = Some p.
Proof. by destruct p. Qed.
Lemma filter_profile_inv (v : Z) (p : DecimationFilterProfile) :
  filter_profile_from_wire v = Some p -> filter_profile_code p = v.
Proof. enum_inv filter_profile_from_wire. Qed.
Lemma validation_code_from (c : ConfigValidationCode) :
  validation_code_from_wire (b2z (z2b (validation_code c))) = Some c.
Proof. by destruct c. Qed.
Lemma validation_code_inv (v : Z) (c : ConfigValidationCode) :
  validation_code_from_wire v = Some c -> validation_code c = v.
Proof. enum_inv validation_code_from_wire. Qed.
Lemma config_field_from (f : ConfigField) :
  config_field_from_wire (b2z (z2b (config_field_code f))) = Some f.
Proof. by destruct f. Qed.
Lemma config_field_inv (v : Z) (f : ConfigField) :
  config_field_from_wire v = Some f -> config_field_code f = v.
Proof. enum_inv config_field_from_wire. Qed.
Lemma operation_code_from (c : ConfigOperationCode) :
  operation_code_from_wire (b2z (z2b (operation_code c))) = Some c.
Proof. by destruct c. Qed.
Lemma operation_code_inv (v : Z) (c : ConfigOperationCode) :
  operation_code_from_wire v = Some c -> operation_code c = v.
Proof. enum_inv operation_code_from_wire. Qed.

(** ** Validators *)

Lemma configuration_validates : validates configuration_validate.
Proof.
  intros c. unfold configuration_validate. split.
  - repeat split_guard; auto with rust.
  - intros y H. run_in H; done.
Qed.

Lemma observed_validates : validates observed_validate.
Proof.
  intros o. unfold observed_validate. split.
  - apply no_panic_bind; [apply configuration_validates|intros _ _].
    repeat (destruct (_ =? _); auto with rust). destruct (negb _); auto with rust.
  - intros y (c & _ & H)%outcome_bind_Ok. run_in H; done.
Qed.

Lemma config_require_length_Ok (l : bytes) (n : nat) (u : unit) :
  config_require_length l n = Ok u <-> length l = n.
Proof. destruct u. unfold config_require_length. destruct (Nat.eqb_spec (length l) n); naive_solver. Qed.

Lemma config_require_length_no_panic (l : bytes) (n : nat) : no_panic (config_require_length l n).
Proof. unfold config_require_length. destruct (_ =? _)%nat; auto with rust. Qed.

Lemma config_require_success_Ok (l : bytes) (n : nat) (u : unit) :
  config_require_success l n = Ok u <->
  (exists rest, l = z2b (status_code StatusOk) :: rest) /\ length l = n.
Proof.
  destruct u. unfold config_require_success.
  destruct l as [|b l]; cbn [head ok_or fmap option_fmap option_map mbind outcome_bind]; [naive_solver|].
  split.
  - intros (s & Hs%map_err_Ok & H)%outcome_bind_Ok. case_bool_decide as Hok; cbn [negb] in H; [|run_in H].
    subst s. apply status_try_from_inv in Hs. destruct (Nat.eqb_spec (length (b :: l)) n); [|discriminate H].
    split; [|done]. exists l. f_equal. by apply z2b_b2z_eq.
  - intros [(rest & [= -> ->]) Hl]. change (b2z (z2b (status_code StatusOk))) with 0. cbn -[length].
    by rewrite (proj2 (Nat.eqb_eq _ _) Hl).
Qed.

Lemma config_require_success_no_panic (l : bytes) (n : nat) : no_panic (config_require_success l n).
Proof.
  unfold config_require_success. apply no_panic_bind; [auto with rust|intros v _].
  apply no_panic_bind; [auto with rust|intros s _]. repeat (destruct (negb _)); auto with rust.
Qed.

Lemma operation_ids_no_panic (a b : Z) : no_panic (validate_operation_ids a b).
Proof. unfold validate_operation_ids. repeat split_guard; auto with rust. Qed.
#[export] Hint Resolve config_require_length_no_panic config_require_success_no_panic
  operation_ids_no_panic : rust.

(** ** The configuration value *)

Definition configuration_wire (c : MeasurementConfiguration) : bytes :=
  [z2b CONFIGURATION_SCHEMA_VERSION] ++ [z2b (output_rate_code (output_rate c))] ++
  [z2b (range_g c)] ++ [z2b (high_pass_corner c)] ++ [z2b (filter_profile_code (filter_profile c))] ++
  [z2b (fifo_watermark c)] ++ to_le_bytes 2 (offset_x c) ++ to_le_bytes 2 (offset_y c) ++
  to_le_bytes 2 (offset_z c).

Lemma encode_configuration_spec (c : MeasurementConfiguration) :
  encode_configuration c = (_ ← checked configuration_validate c; Ok (configuration_wire c)).
Proof.
  unfold encode_configuration. rewrite (validates_bind _ _ _ configuration_validates). reflexivity.
Qed.

Lemma decode_configuration_wire (c : MeasurementConfiguration) :
  typed c -> decode_configuration (configuration_wire c) = configuration_validate c.
Proof.
  intros (T1 & T2 & T3 & T4 & T5 & T6).
  transitivity (
    r ← ok_or (output_rate_from_wire (b2z (z2b (output_rate_code (output_rate c)))))
          (UnknownOutputRate (b2z (z2b (output_rate_code (output_rate c)))));
    p ← ok_or (filter_profile_from_wire (b2z (z2b (filter_profile_code (filter_profile c)))))
          (UnknownFilterProfile (b2z (z2b (filter_profile_code (filter_profile c)))));
    configuration_validate (mkConfiguration r (b2z (z2b (range_g c))) (b2z (z2b (high_pass_corner c))) p
      (b2z (z2b (fifo_watermark c))) (from_le_bytes_signed (to_le_bytes 2 (offset_x c)))
      (from_le_bytes_signed (to_le_bytes 2 (offset_y c)))
      (from_le_bytes_signed (to_le_bytes 2 (offset_z c))))); [reflexivity|].
  rewrite output_rate_from_wire_code, filter_profile_code_from. cbn [ok_or mbind outcome_bind].
  wire_values. by destruct c.
Qed.

Lemma ok_or_Ok {E A : Type} (o : option A) (e : E) (x : A) : ok_or o e = Ok x <-> o = Some x.
Proof. destruct o; cbn; naive_solver. Qed.

Lemma decode_configuration_inv (l : bytes) (c : MeasurementConfiguration) :
  decode_configuration l = Ok c ->
  typed c /\ configuration_validate c = Ok c /\ l = configuration_wire c.
Proof.
  unfold decode_configuration. intros H. decode_step H. apply config_require_length_Ok in Hr as Hlen.
  decode_step H. destruct (Z.eqb_spec x0 CONFIGURATION_SCHEMA_VERSION) as [->|]; [|discriminate H].
  cbn [negb] in H. do 10 decode_step H.
  apply ok_or_Ok, output_rate_from_wire_inv in Hr2. apply ok_or_Ok, filter_profile_inv in Hr6.
  pose proof (proj2 (configuration_validates _) _ H) as Hc. rewrite Hc in H |- *.
  split; [solve_typed|]. split; [done|]. unfold configuration_wire.
  cbn [output_rate range_g high_pass_corner filter_profile fifo_watermark offset_x offset_y offset_z].
  rewrite Hr2, Hr6, Hr0, Hr1, Hr3, Hr4, Hr5, Hr7, Hr8, Hr9, Hr10.
  clear -Hlen. explicit_bytes l Hlen. reflexivity.
Qed.

Lemma decode_configuration_no_panic (l : bytes) : no_panic (decode_configuration l).
Proof.
  unfold decode_configuration. apply no_panic_bind; [auto with rust|intros u Hl%config_require_length_Ok].
  change CONFIGURATION_VALUE_BYTES with 12%nat in Hl. apply no_panic_bind; [read_total|intros v _].
  destruct (negb _); [done|]. reads_total. apply configuration_validates.
Qed.
#[export] Hint Resolve decode_configuration_no_panic : rust.

Lemma configuration_lawful : lawful_codec ConfigurationWireError MeasurementConfiguration.
Proof.
  apply (lawful_intro configuration_wire (checked configuration_validate)); cbn [wire_encode wire_decode configuration_codec].
  - intros c _. apply encode_configuration_spec.
  - intros c. apply checked_no_panic, configuration_validates.
  - intros c Ht Hc. apply checked_Ok_iff in Hc; [|apply configuration_validates].
    by rewrite decode_configuration_wire.
  - intros l c (Ht & Hv & Hw)%decode_configuration_inv.
    split_and!; [done| |done]. by apply checked_Ok_iff; [apply configuration_validates|].
  - apply decode_configuration_no_panic.
  - intros c _ _. change (length (configuration_wire c)) with 12%nat. lia.
Qed.

(** ** The observed configuration *)

Definition observed_wire (o : ObservedConfiguration) : bytes :=
  to_le_bytes 4 (revision o) ++ configuration_wire (desired o) ++
  [z2b (register_value (sensor_odr o))] ++ [z2b (decimation_factor o)].

Lemma observed_desired (o : ObservedConfiguration) :
  observed_validate o = Ok o -> configuration_validate (desired o) = Ok (desired o).
Proof.
  unfold observed_validate. intros (c & Hc & _)%outcome_bind_Ok.
  by pose proof (proj2 (configuration_validates _) _ Hc) as ->.
Qed.

Lemma encode_observed_spec (o : ObservedConfiguration) (output : bytes) :
  length output = 18%nat ->
  encode_observed o output = (_ ← checked observed_validate o; Ok (observed_wire o)).
Proof.
  intros Hl. unfold encode_observed. rewrite (validates_bind _ _ _ observed_validates).
  destruct (checked observed_validate o) as [[]| |] eqn:Hv; cbn [mbind outcome_bind]; [|done..].
  apply checked_Ok_iff, observed_desired in Hv; [|apply observed_validates].
  rewrite encode_configuration_spec. unfold checked. rewrite Hv. explicit_bytes output Hl. reflexivity.
Qed.

Lemma decode_observed_wire (o : ObservedConfiguration) :
  typed o -> observed_validate o = Ok o -> decode_observed (observed_wire o) = Ok o.
Proof.
  intros (T1 & T2 & T3) Hv. pose proof (observed_desired o Hv) as Hd.
  transitivity (
    d ← decode_configuration (configuration_wire (desired o));
    s ← ok_or (from_register_value (b2z (z2b (register_value (sensor_odr o)))))
          (UnknownSensorOdr (b2z (z2b (register_value (sensor_odr o)))));
    observed_validate (mkObserved (from_le_bytes (to_le_bytes 4 (revision o))) d s
      (b2z (z2b (decimation_factor o))))); [reflexivity|].
  rewrite decode_configuration_wire, Hd, from_register_value_code by done.
  cbn [ok_or mbind outcome_bind]. wire_values. by destruct o.
Qed.

Lemma decode_observed_inv (l : bytes) (o : ObservedConfiguration) :
  decode_observed l = Ok o -> typed o /\ observed_validate o = Ok o /\ l = observed_wire o.
Proof.
  unfold decode_observed. intros H. decode_step H. apply config_require_length_Ok in Hr as Hlen.
  decode_step H. apply outcome_bind_Ok in H as (s & (_ & _ & Hs & _)%slice_inv & H).
  decode_step H. apply decode_configuration_inv in Hr1 as (Ht & _ & Hw). do 3 decode_step H.
  apply ok_or_Ok, from_register_value_inv in Hr2.
  pose proof (proj2 (observed_validates _) _ H) as Ho. rewrite Ho in H |- *.
  split; [solve_typed|]. split; [done|].
  unfold observed_wire. cbn [revision desired sensor_odr decimation_factor].
  rewrite <- Hw, Hr2, Hr0, Hr1, Hr3, Hs. clear -Hlen. explicit_bytes l Hlen. reflexivity.
Qed.

Lemma decode_observed_no_panic (l : bytes) : no_panic (decode_observed l).
Proof.
  unfold decode_observed. apply no_panic_bind; [auto with rust|intros u Hl%config_require_length_Ok].
  change OBSERVED_CONFIG_BYTES with 18%nat in Hl. reads_total. apply observed_validates.
Qed.
#[export] Hint Resolve decode_observed_no_panic : rust.

Lemma observed_checked (o : ObservedConfiguration) :
  checked observed_validate o = Ok tt <-> observed_validate o = Ok o.
Proof. apply checked_Ok_iff, observed_validates. Qed.

Lemma observed_check_no_panic (o : ObservedConfiguration) : no_panic (checked observed_validate o).
Proof. apply checked_no_panic, observed_validates. Qed.
#[export] Hint Resolve observed_check_no_panic : rust.

Lemma get_config_lawful : lawful_codec ConfigurationWireError ObservedConfiguration.
Proof.
  apply (lawful_intro (fun o => z2b (status_code StatusOk) :: observed_wire o) (checked observed_validate));
    cbn [wire_encode wire_decode get_config_codec].
  - intros o _. unfold encode_get_config_response. rewrite (validates_bind _ _ _ observed_validates).
    destruct (checked observed_validate o) as [[]| |] eqn:Hv; cbn [mbind outcome_bind]; [|done..].
    change (put1 0 (status_code StatusOk) (zeros GET_CONFIG_RESPONSE_BYTES))
      with (Ok ([z2b (status_code StatusOk)] ++ zeros 18 ++ []) : cwire bytes). cbn [mbind outcome_bind].
    rewrite (with_slice_at 1 _ _ _ _ _ (observed_wire o)); [by rewrite app_nil_r|done|done|cbn; lia| |done].
    rewrite encode_observed_spec, Hv by done. done.
  - auto with rust.
  - intros o Ht Hc%observed_checked. by rewrite <- (decode_observed_wire o Ht Hc).
  - intros l o H. unfold decode_get_config_response in H.
    apply outcome_bind_Ok in H as (u & [(rest & ->) Hl]%config_require_success_Ok & H).
    rewrite (slice_from_app 1 [z2b (status_code StatusOk)] rest) in H by done. cbn [mbind outcome_bind] in H.
    apply decode_observed_inv in H as (Ht & Hv & ->). split_and!; auto. by apply observed_checked.
  - intros l. unfold decode_get_config_response.
    apply no_panic_bind; [auto with rust|intros u [_ Hl]%config_require_success_Ok].
    change GET_CONFIG_RESPONSE_BYTES with 19%nat in Hl. reads_total. auto with rust.
  - intros o _ _. change (length (z2b (status_code StatusOk) :: observed_wire o)) with 19%nat. lia.
Qed.

(** ** The other messages *)

Lemma apply_config_lawful : lawful_codec ConfigurationWireError ConfigOperationRequest.
Proof.
  apply (lawful_intro
    (fun r => to_le_bytes 4 (req_operation_id r) ++ to_le_bytes 4 (expected_revision r) ++
              configuration_wire (configuration r))
    (fun r => _ ← validate_operation_ids (req_operation_id r) (expected_revision r);
              checked configuration_validate (configuration r)));
    cbn [wire_encode wire_decode apply_config_codec].
  - intros r _. unfold encode_apply_config_request. rewrite encode_configuration_spec.
    destruct (validate_operation_ids _ _); cbn [mbind outcome_bind]; [|done..].
    destruct (checked configuration_validate (configuration r)); reflexivity.
  - intros r. apply no_panic_bind; [auto with rust|intros _ _].
    apply checked_no_panic, configuration_validates.
  - intros r (T1 & T2 & T3) ([] & Hi & Hc)%outcome_bind_Ok.
    apply checked_Ok_iff in Hc; [|apply configuration_validates].
    transitivity (
      c ← decode_configuration (configuration_wire (configuration r));
      _ ← validate_operation_ids (from_le_bytes (to_le_bytes 4 (req_operation_id r)))
            (from_le_bytes (to_le_bytes 4 (expected_revision r)));
      Ok (mkOperationRequest (from_le_bytes (to_le_bytes 4 (req_operation_id r)))
            (from_le_bytes (to_le_bytes 4 (expected_revision r))) c) : cwire ConfigOperationRequest);
      [reflexivity|].
    rewrite decode_configuration_wire, Hc by done. cbn [mbind outcome_bind]. wire_values.
    rewrite Hi. by destruct r.
  - intros l r H. unfold decode_apply_config_request in H. decode_step H.
    apply config_require_length_Ok in Hr as Hlen. do 2 decode_step H.
    apply outcome_bind_Ok in H as (v & (_ & _ & Hs & _)%slice_inv & H). decode_step H.
    apply decode_configuration_inv in Hr2 as (Ht & Hv & Hw).
    apply outcome_bind_Ok in H as ([] & Hi & [= <-]).
    split; [solve_typed|]. cbn [req_operation_id expected_revision configuration].
    rewrite Hi. cbn [mbind outcome_bind]. split; [by apply checked_Ok_iff; [apply configuration_validates|]|].
    rewrite <- Hw, Hr0, Hr1, Hs. clear -Hlen. explicit_bytes l Hlen. reflexivity.
  - intros l. unfold decode_apply_config_request.
    apply no_panic_bind; [auto with rust|intros u Hl%config_require_length_Ok].
    change APPLY_CONFIG_REQUEST_BYTES with 20%nat in Hl. reads_total. auto with rust.
  - intros r _ _. autorewrite with len. change (length (configuration_wire _)) with 12%nat. lia.
Qed.

Lemma reset_config_lawful : lawful_codec ConfigurationWireError ResetRequest.
Proof.
  apply (lawful_intro
    (fun r => to_le_bytes 4 (reset_operation_id r) ++ to_le_bytes 4 (reset_expected_revision r))
    (fun r => validate_operation_ids (reset_operation_id r) (reset_expected_revision r)));
    cbn [wire_encode wire_decode reset_config_codec].
  - intros r _. unfold encode_reset_config_request. by destruct (validate_operation_ids _ _).
  - auto with rust.
  - intros r (T1 & T2) Hi.
    transitivity (
      _ ← validate_operation_ids (from_le_bytes (to_le_bytes 4 (reset_operation_id r)))
            (from_le_bytes (to_le_bytes 4 (reset_expected_revision r)));
      Ok (mkReset (from_le_bytes (to_le_bytes 4 (reset_operation_id r)))
            (from_le_bytes (to_le_bytes 4 (reset_expected_revision r)))) : cwire ResetRequest);
      [reflexivity|].
    wire_values. rewrite Hi. by destruct r.
  - intros l r H. unfold decode_reset_config_request in H. decode_step H.
    apply config_require_length_Ok in Hr as Hlen. do 2 decode_step H.
    apply outcome_bind_Ok in H as ([] & Hi & [= <-]). split; [solve_typed|]. split; [done|].
    cbn [reset_operation_id reset_expected_revision]. rewrite Hr0, Hr1.
    clear -Hlen. explicit_bytes l Hlen. reflexivity.
  - intros l. unfold decode_reset_config_request.
    apply no_panic_bind; [auto with rust|intros u Hl%config_require_length_Ok].
    change RESET_CONFIG_REQUEST_BYTES with 8%nat in Hl. reads_total. auto with rust.
  - intros r _ _. autorewrite with len. lia.
Qed.

Lemma validate_config_lawful : lawful_codec ConfigurationWireError ConfigValidationResult.
Proof.
  apply (lawful_intro
    (fun r => z2b (status_code StatusOk) :: [z2b (validation_code (result_code r))] ++
              [z2b (config_field_code (result_field r))])
    (fun _ => Ok tt)); cbn [wire_encode wire_decode validate_config_codec].
  - done.
  - auto with rust.
  - intros [c f] _ _. destruct c, f; reflexivity.
  - intros l r H. unfold decode_validate_config_response in H.
    apply outcome_bind_Ok in H as (u & [(rest & ->) Hl]%config_require_success_Ok & H).
    do 4 decode_step H. injection H as <-.
    apply ok_or_Ok, validation_code_inv in Hr0. apply ok_or_Ok, config_field_inv in Hr2.
    split_and!; [done|done|]. cbn [result_code result_field]. rewrite Hr0, Hr2, Hr, Hr1.
    clear -Hl. injection Hl as Hl. explicit_bytes rest Hl. reflexivity.
  - intros l. unfold decode_validate_config_response.
    apply no_panic_bind; [auto with rust|intros u [_ Hl]%config_require_success_Ok].
    change VALIDATE_CONFIG_RESPONSE_BYTES with 3%nat in Hl. reads_total. auto with rust.
  - intros r _ _. cbn [length app]. lia.
Qed.

Lemma config_operation_lawful : lawful_codec ConfigurationWireError ConfigOperationResult.
Proof.
  apply (lawful_intro
    (fun r => [z2b (status_code StatusOk)] ++ to_le_bytes 4 (res_operation_id r) ++
              [z2b (operation_code (res_code r))] ++ observed_wire (observed r) ++
              to_le_bytes 8 (effective_sample_seq r))
    (fun r => if res_operation_id r =? 0 then Err ConfigZeroOperationId
              else checked observed_validate (observed r)));
    cbn [wire_encode wire_decode config_operation_codec].
  - intros r _. unfold encode_config_operation_response. destruct (_ =? 0); [done|].
    rewrite (validates_bind _ _ _ observed_validates).
    destruct (checked observed_validate (observed r)) as [[]| |] eqn:Hv; cbn [mbind outcome_bind]; [|done..].
    transitivity (out ← with_slice 6 24 (encode_observed (observed r))
        (([z2b (status_code StatusOk)] ++ to_le_bytes 4 (res_operation_id r) ++
          [z2b (operation_code (res_code r))]) ++ zeros 18 ++ zeros 8);
      put 24 32 (to_le_bytes 8 (effective_sample_seq r)) out); [reflexivity|].
    rewrite (with_slice_at 6 24 _ _ _ _ (observed_wire (observed r)));
      [reflexivity|done|done|lia| |done].
    by rewrite encode_observed_spec, Hv.
  - intros r. destruct (_ =? 0); auto with rust.
  - intros r (T1 & T2 & T3) Hc. destruct (Z.eqb_spec (res_operation_id r) 0) as [|Hne]; [discriminate Hc|].
    apply observed_checked in Hc.
    transitivity (
      c ← ok_or (operation_code_from_wire (b2z (z2b (operation_code (res_code r)))))
            (UnknownOperationCode (b2z (z2b (operation_code (res_code r)))));
      o ← decode_observed (observed_wire (observed r));
      if from_le_bytes (to_le_bytes 4 (res_operation_id r)) =? 0 then Err ConfigZeroOperationId
      else Ok (mkOperationResult (from_le_bytes (to_le_bytes 4 (res_operation_id r))) c o
                 (from_le_bytes (to_le_bytes 8 (effective_sample_seq r)))) : cwire ConfigOperationResult);
      [reflexivity|].
    rewrite operation_code_from, decode_observed_wire by done. cbn [ok_or mbind outcome_bind].
    wire_values. rewrite (proj2 (Z.eqb_neq _ _) Hne). by destruct r.
  - intros l r H. unfold decode_config_operation_response in H. decode_step H.
    apply config_require_success_Ok in Hr as [(rest & Hl) Hlen]. do 3 decode_step H.
    apply ok_or_Ok, operation_code_inv in Hr1.
    apply outcome_bind_Ok in H as (v & (_ & _ & Hs & _)%slice_inv & H). decode_step H.
    apply decode_observed_inv in Hr2 as (Ht & Hv & Hw). decode_step H.
    destruct (Z.eqb_spec x0 0) as [|Hne]; [discriminate H|]. injection H as <-.
    split; [solve_typed|]. cbn [res_operation_id res_code observed effective_sample_seq].
    rewrite (proj2 (Z.eqb_neq _ _) Hne). split; [by apply observed_checked|].
    rewrite <- Hw, Hr1, Hr0, Hr, Hr2, Hs. clear -Hlen Hl. subst l. injection Hlen as Hlen.
    explicit_bytes rest Hlen. reflexivity.
  - intros l. unfold decode_config_operation_response.
    apply no_panic_bind; [auto with rust|intros u [_ Hl]%config_require_success_Ok].
    change CONFIG_OPERATION_RESPONSE_BYTES with 32%nat in Hl. reads_total.
    destruct (_ =? 0); auto with rust.
  - intros r _ _. autorewrite with len. change (length (observed_wire _)) with 18%nat. cbn [length]. lia.
Qed.

(** ** Properties *)

(** The Configuration service's wire format: all six messages round-trip,
    decode only from their canonical bytes, never panic and fit a frame. *)
Theorem configuration_wire_lawful :
  lawful_codec ConfigurationWireError MeasurementConfiguration /\
  lawful_codec ConfigurationWireError ConfigOperationRequest /\
  lawful_codec ConfigurationWireError ResetRequest /\
  lawful_codec ConfigurationWireError ObservedConfiguration /\
  lawful_codec ConfigurationWireError ConfigValidationResult /\
  lawful_codec ConfigurationWireError ConfigOperationResult.
Proof.
  auto 10 using configuration_lawful, apply_config_lawful, reset_config_lawful, get_config_lawful,
    validate_config_lawful, config_operation_lawful.
Qed.

(** An observed configuration is accepted only if it is exactly consistent:
    the output rate times the decimation factor is the sensor's data rate, with
    no rounding, and the desired values are inside the device's ranges; the
    product default is consistent with the sensor at 500 Hz decimated by 4. *)
Lemma observed_rate_exact (payload : bytes) (o : ObservedConfiguration) :
  decode_get_config_response payload = Ok o ->
  output_rate_sample_rate (output_rate (desired o)) * decimation_factor o
    = odr_sample_rate (sensor_odr o) /\
  revision o <> 0 /\ (range_g (desired o) = 2 \/ range_g (desired o) = 4 \/ range_g (desired o) = 8) /\
  0 <= high_pass_corner (desired o) <= 7 /\
  (exists n, 1 <= n <= 32 /\ fifo_watermark (desired o) = 3 * n) /\
  observed_validate (mkObserved 1 product_default OdrHz500 4)
    = Ok (mkObserved 1 product_default OdrHz500 4).
Proof.
  intros H. unfold decode_get_config_response in H.
  apply outcome_bind_Ok in H as (u & _ & (v & _ & (Ht & Hv & _)%decode_observed_inv)%outcome_bind_Ok).
  destruct Ht as (_ & (_ & Hh & _) & Hdf).
  pose proof (observed_desired o Hv) as Hd. unfold observed_validate in Hv. rewrite Hd in Hv.
  cbn [mbind outcome_bind] in Hv. run_in Hv. unfold configuration_validate in Hd. run_in Hd.
  destruct (divided_by _ _) as [q| |] eqn:Hq; cbn [outcome_ok] in *; try discriminate.
  match goal with E : Some q = Some _ |- _ => injection E as -> end.
  unfold divided_by, from_nanohertz in Hq. run_in Hq.
  split_and!; try done.
  - rewrite <- Hq. pose proof (Z.div_mod (odr_sample_rate (sensor_odr o)) (decimation_factor o)). lia.
  - repeat match goal with Hor : _ \/ _ |- _ => destruct Hor | Ho : (_ || _)%bool = true |- _ =>
      apply orb_true_iff in Ho end; to_prop; auto.
  - ilia.
  - exists (fifo_watermark (desired o) / 3). dlia.
Qed.

Lemma observed_rate_exact_witness :
  exists payload o, decode_get_config_response payload = Ok o /\ revision o <> 0.
Proof.
  set (o := mkObserved 7 product_default OdrHz500 4).
  exists (z2b (status_code StatusOk) :: observed_wire o), o. split; [vm_compute; reflexivity|].
  apply (observed_rate_exact (z2b (status_code StatusOk) :: observed_wire o) o). vm_compute. reflexivity.
Defined.
