(* ===== verification/LifecycleWire.v ===== *)
(** * The Lifecycle service on the wire
      (crates/sensor-protocol/src/lifecycle_wire.rs)

    Runtime commands travel as a message identifier and a payload of four bytes,
    or five when the command sets the observability profile; results are nine
    bytes. *)

From S2P Require Export Application.
From S2P Require Import Framing.

Definition LIFECYCLE_OPERATION_REQUEST_BYTES : nat := 4.
Definition LIFECYCLE_PROFILE_REQUEST_BYTES : nat := 5.
Definition LIFECYCLE_RESPONSE_BYTES : nat := 9.

Inductive LifecycleWireError :=
| LifecycleInvalidLength
| UnknownMessage (value : Z)
| LifecycleZeroOperationId
| LifecycleUnknownStatus (value : Z)
| LifecycleRemoteError (status : ResponseStatus)
| UnknownResultCode (value : Z)
| UnknownRuntimeState (value : Z)
| UnknownObservabilityProfile (value : Z)
| UnknownSensorStatus (value : Z).

Abbreviation lwire := (outcome LifecycleWireError).

(** ** Enumerations *)

Inductive RuntimeOperation :=
| GetState | StartRecording | StopRecording | EnterMaintenance | ExitMaintenance
| SetObservabilityProfile | PrepareFirmwareUpdate | ConfirmTrialBoot | RestartNode.

#[export] Instance RuntimeOperation_eq_dec : EqDecision RuntimeOperation.
Proof. solve_decision. Defined.

Definition operation_message_id (op : RuntimeOperation) : Z :=
  match op with
  | GetState => 1
  | StartRecording => 2
  | StopRecording => 3
  | EnterMaintenance => 4
  | ExitMaintenance => 5
  | SetObservabilityProfile => 6
  | PrepareFirmwareUpdate => 7
  | ConfirmTrialBoot => 8
  | RestartNode => 9
  end.

Definition operation_from_message (value : Z) : lwire RuntimeOperation :=
  match value with
  | 1 => Ok GetState
  | 2 => Ok StartRecording
  | 3 => Ok StopRecording
  | 4 => Ok EnterMaintenance
  | 5 => Ok ExitMaintenance
  | 6 => Ok SetObservabilityProfile
  | 7 => Ok PrepareFirmwareUpdate
  | 8 => Ok ConfirmTrialBoot
  | 9 => Ok RestartNode
  | _ => Err (UnknownMessage value)
  end.

Inductive RuntimeState := Idle | Recording | Stopping | Maintenance | Faulted.

#[export] Instance RuntimeState_eq_dec : EqDecision RuntimeState.
Proof. solve_decision. Defined.

Definition runtime_state_code (s : RuntimeState) : Z :=
  match s with Idle => 0 | Recording => 1 | Stopping => 2 | Maintenance => 3 | Faulted => 4 end.

Definition runtime_state_try_from (value : Z) : lwire RuntimeState :=
  match value with
  | 0 => Ok Idle
  | 1 => Ok Recording
  | 2 => Ok Stopping
  | 3 => Ok Maintenance
  | 4 => Ok Faulted
  | _ => Err (UnknownRuntimeState value)
  end.

Inductive ObservabilityProfile := Production | Diagnostic.

#[export] Instance ObservabilityProfile_eq_dec : EqDecision ObservabilityProfile.
Proof. solve_decision. Defined.

Definition observability_code (p : ObservabilityProfile) : Z :=
  match p with Production => 0 | Diagnostic => 1 end.

Definition observability_try_from (value : Z) : lwire ObservabilityProfile :=
  match value with
  | 0 => Ok Production
  | 1 => Ok Diagnostic
  | _ => Err (UnknownObservabilityProfile value)
  end.

Inductive RuntimeResultCode :=
| ResultOk | ResultInvalidOperation | ResultInvalidState | ResultInvalidArgument
| ResultInProgress | ResultTransitionFailed | ResultFaulted.

#[export] Instance RuntimeResultCode_eq_dec : EqDecision RuntimeResultCode.
Proof. solve_decision. Defined.

Definition runtime_result_code (c : RuntimeResultCode) : Z :=
  match c with
  | ResultOk => 0 | ResultInvalidOperation => 1 | ResultInvalidState => 2
  | ResultInvalidArgument => 3 | ResultInProgress => 4 | ResultTransitionFailed => 5
  | ResultFaulted => 6
  end.

Definition runtime_result_try_from (value : Z) : lwire RuntimeResultCode :=
  match value with
  | 0 => Ok ResultOk
  | 1 => Ok ResultInvalidOperation
  | 2 => Ok ResultInvalidState
  | 3 => Ok ResultInvalidArgument
  | 4 => Ok ResultInProgress
  | 5 => Ok ResultTransitionFailed
  | 6 => Ok ResultFaulted
  | _ => Err (UnknownResultCode value)
  end.

Inductive SensorStatusCode :=
| SensorOk | SensorNotInitialized | SensorBusy | SensorCommError | SensorTimeout
| SensorInvalidParam | SensorNotSupported | SensorInvalidDevice | SensorNoData
| SensorInvalidSample | SensorInternalError.

#[export] Instance SensorStatusCode_eq_dec : EqDecision SensorStatusCode.
Proof. solve_decision. Defined.

Definition sensor_status_code (s : SensorStatusCode) : Z :=
  match s with
  | SensorOk => 0 | SensorNotInitialized => 1 | SensorBusy => 2 | SensorCommError => 3
  | SensorTimeout => 4 | SensorInvalidParam => 5 | SensorNotSupported => 6
  | SensorInvalidDevice => 7 | SensorNoData => 8 | SensorInvalidSample => 9
  | SensorInternalError => 10
  end.

Definition sensor_status_try_from (value : Z) : lwire SensorStatusCode :=
  match value with
  | 0 => Ok SensorOk
  | 1 => Ok SensorNotInitialized
  | 2 => Ok SensorBusy
  | 3 => Ok SensorCommError
  | 4 => Ok SensorTimeout
  | 5 => Ok SensorInvalidParam
  | 6 => Ok SensorNotSupported
  | 7 => Ok SensorInvalidDevice
  | 8 => Ok SensorNoData
  | 9 => Ok SensorInvalidSample
  | 10 => Ok SensorInternalError
  | _ => Err (UnknownSensorStatus value)
  end.

(** ** Commands and results *)

Record RuntimeCommand := mkCommand {
  cmd_operation_id : Z;
  operation : RuntimeOperation;
  requested_profile : ObservabilityProfile
}.

#[export] Instance RuntimeCommand_eq_dec : EqDecision RuntimeCommand.
Proof. solve_decision. Defined.

Record EncodedRuntimeCommand := mkEncoded {
  enc_message : Z;
  enc_payload : bytes;
  payload_size : nat
}.

Record RuntimeResult := mkResult {
  rr_operation_id : Z;
  rr_code : RuntimeResultCode;
  rr_state : RuntimeState;
  rr_observability : ObservabilityProfile;
  rr_sensor_status : SensorStatusCode
}.

#[export] Instance RuntimeResult_eq_dec : EqDecision RuntimeResult.
Proof. solve_decision. Defined.

#[export] Instance RuntimeResult_typed : Typed RuntimeResult := fun r => u32 (rr_operation_id r).

Definition encode_lifecycle_request (command : RuntimeCommand) : lwire EncodedRuntimeCommand :=
  if cmd_operation_id command =? 0 then Err LifecycleZeroOperationId
  else
    payload ← put 0 4 (to_le_bytes 4 (cmd_operation_id command)) (zeros LIFECYCLE_PROFILE_REQUEST_BYTES);
    if bool_decide (operation command = SetObservabilityProfile) then
      payload ← put1 4 (observability_code (requested_profile command)) payload;
      Ok (mkEncoded (operation_message_id (operation command)) payload LIFECYCLE_PROFILE_REQUEST_BYTES)
    else
      Ok (mkEncoded (operation_message_id (operation command)) payload LIFECYCLE_OPERATION_REQUEST_BYTES).

Definition decode_lifecycle_request (message : Z) (payload : bytes) : lwire RuntimeCommand :=
  operation ← operation_from_message message;
  let expected := if bool_decide (operation = SetObservabilityProfile)
                  then LIFECYCLE_PROFILE_REQUEST_BYTES else LIFECYCLE_OPERATION_REQUEST_BYTES in
  if negb (length payload =? expected)%nat then Err LifecycleInvalidLength
  else
    operation_id ← read_u32 payload 0;
    if operation_id =? 0 then Err LifecycleZeroOperationId
    else
      requested_profile ←
        (if bool_decide (operation = SetObservabilityProfile)
         then raw ← index 4 payload; observability_try_from raw
         else Ok Production);
      Ok (mkCommand operation_id operation requested_profile).

Definition encode_lifecycle_response (result : RuntimeResult) : lwire bytes :=
  if rr_operation_id result =? 0 then Err LifecycleZeroOperationId
  else
    output ← put1 0 (status_code StatusOk) (zeros LIFECYCLE_RESPONSE_BYTES);
    output ← put 1 5 (to_le_bytes 4 (rr_operation_id result)) output;
    output ← put1 5 (runtime_result_code (rr_code result)) output;
    output ← put1 6 (runtime_state_code (rr_state result)) output;
    output ← put1 7 (observability_code (rr_observability result)) output;
    put1 8 (sensor_status_code (rr_sensor_status result)) output.

Definition decode_lifecycle_response (payload : bytes) : lwire RuntimeResult :=
  raw_status ← ok_or (b2z <$> head payload) LifecycleInvalidLength;
  status ← map_err (fun _ => LifecycleUnknownStatus raw_status) (response_status_try_from raw_status);
  if negb (bool_decide (status = StatusOk)) then Err (LifecycleRemoteError status)
  else if negb (length payload =? LIFECYCLE_RESPONSE_BYTES)%nat then Err LifecycleInvalidLength
  else
    operation_id ← read_u32 payload 1;
    if operation_id =? 0 then Err LifecycleZeroOperationId
    else
      r5 ← index 5 payload; code ← runtime_result_try_from r5;
      r6 ← index 6 payload; state ← runtime_state_try_from r6;
      r7 ← index 7 payload; observability ← observability_try_from r7;
      r8 ← index 8 payload; sensor_status ← sensor_status_try_from r8;
      Ok (mkResult operation_id code state observability sensor_status).

#[export] Instance lifecycle_response_codec : WireCodec LifecycleWireError RuntimeResult := {
  wire_encode := encode_lifecycle_response; wire_decode := decode_lifecycle_response }.

(** ** Enumerations are codes *)

Ltac code_inv f := unfold f; repeat case_match; try discriminate; by intros [= <-].
Ltac code_total f := unfold f; repeat case_match; auto with rust.

Lemma operation_from_message_id (op : RuntimeOperation) :
  operation_from_message (operation_message_id op) = Ok op.
Proof. by destruct op. Qed.
Lemma operation_from_message_inv (v : Z) (op : RuntimeOperation) :
  operation_from_message v = Ok op -> operation_message_id op = v.
Proof. code_inv operation_from_message. Qed.
Lemma operation_from_message_no_panic (v : Z) : no_panic (operation_from_message v).
Proof. code_total operation_from_message. Qed.
Lemma runtime_state_code_from (s : RuntimeState) :
  runtime_state_try_from (b2z (z2b (runtime_state_code s))) = Ok s.
Proof. by destruct s. Qed.
Lemma runtime_state_inv (v : Z) (s : RuntimeState) :
  runtime_state_try_from v = Ok s -> runtime_state_code s = v.
Proof. code_inv runtime_state_try_from. Qed.
Lemma runtime_state_no_panic (v : Z) : no_panic (runtime_state_try_from v).
Proof. code_total runtime_state_try_from. Qed.
Lemma observability_code_from (p : ObservabilityProfile) :
  observability_try_from (b2z (z2b (observability_code p))) = Ok p.
Proof. by destruct p. Qed.
Lemma observability_inv (v : Z) (p : ObservabilityProfile) :
  observability_try_from v = Ok p -> observability_code p = v.
Proof. code_inv observability_try_from. Qed.
Lemma observability_no_panic (v : Z) : no_panic (observability_try_from v).
Proof. code_total observability_try_from. Qed.
Lemma runtime_result_code_from (c : RuntimeResultCode) :
  runtime_result_try_from (b2z (z2b (runtime_result_code c))) = Ok c.
Proof. by destruct c. Qed.
Lemma runtime_result_inv (v : Z) (c : RuntimeResultCode) :
  runtime_result_try_from v = Ok c -> runtime_result_code c = v.
Proof. code_inv runtime_result_try_from. Qed.
Lemma runtime_result_no_panic (v : Z) : no_panic (runtime_result_try_from v).
Proof. code_total runtime_result_try_from. Qed.
Lemma sensor_status_code_from (s : SensorStatusCode) :
  sensor_status_try_from (b2z (z2b (sensor_status_code s))) = Ok s.
Proof. by destruct s. Qed.
Lemma sensor_status_inv (v : Z) (s : SensorStatusCode) :
  sensor_status_try_from v = Ok s -> sensor_status_code s = v.
Proof. code_inv sensor_status_try_from. Qed.
Lemma sensor_status_no_panic (v : Z) : no_panic (sensor_status_try_from v).
Proof. code_total sensor_status_try_from. Qed.
#[export] Hint Resolve operation_from_message_no_panic runtime_state_no_panic observability_no_panic
  runtime_result_no_panic sensor_status_no_panic : rust.

(** ** Results *)

Definition result_wire (r : RuntimeResult) : bytes :=
  [z2b (status_code StatusOk)] ++ to_le_bytes 4 (rr_operation_id r) ++
  [z2b (runtime_result_code (rr_code r))] ++ [z2b (runtime_state_code (rr_state r))] ++
  [z2b (observability_code (rr_observability r))] ++ [z2b (sensor_status_code (rr_sensor_status r))].

Lemma lifecycle_response_lawful : lawful_codec LifecycleWireError RuntimeResult.
Proof.
  apply (lawful_intro result_wire
    (fun r => if rr_operation_id r =? 0 then Err LifecycleZeroOperationId else Ok tt));
    cbn [wire_encode wire_decode lifecycle_response_codec].
  - intros r _. unfold encode_lifecycle_response. destruct (_ =? 0); reflexivity.
  - intros r. destruct (_ =? 0); auto with rust.
  - intros r Ht Hc. destruct (Z.eqb_spec (rr_operation_id r) 0) as [|Hne]; [discriminate Hc|].
    transitivity (
      if from_le_bytes (to_le_bytes 4 (rr_operation_id r)) =? 0 then Err LifecycleZeroOperationId
      else
        code ← runtime_result_try_from (b2z (z2b (runtime_result_code (rr_code r))));
        state ← runtime_state_try_from (b2z (z2b (runtime_state_code (rr_state r))));
        obs ← observability_try_from (b2z (z2b (observability_code (rr_observability r))));
        sensor ← sensor_status_try_from (b2z (z2b (sensor_status_code (rr_sensor_status r))));
        Ok (mkResult (from_le_bytes (to_le_bytes 4 (rr_operation_id r))) code state obs sensor)
        : lwire RuntimeResult); [reflexivity|].
    red in Ht. cbn in Ht. rewrite (from_to_le_bytes 4 32), (proj2 (Z.eqb_neq _ _) Hne) by done.
    rewrite runtime_result_code_from, runtime_state_code_from, observability_code_from,
      sensor_status_code_from. by destruct r.
  - intros l r H. unfold decode_lifecycle_response in H.
    destruct l as [|b l]; [discriminate H|]. cbn [head ok_or fmap option_fmap option_map mbind outcome_bind] in H.
    decode_step H. apply map_err_Ok, status_try_from_inv, z2b_b2z_eq in Hr as ->.
    case_bool_decide as Hs; [|discriminate H]. subst. cbn [negb] in H.
    destruct (Nat.eqb_spec (length (z2b (status_code StatusOk) :: l)) LIFECYCLE_RESPONSE_BYTES) as [Hl|]; [|discriminate H].
    cbn [negb] in H. decode_step H. rename x into op.
    destruct (Z.eqb_spec op 0) as [|Hne]; [discriminate H|].
    do 8 decode_step H. injection H as <-.
    apply runtime_result_inv in Hr1. apply runtime_state_inv in Hr3.
    apply observability_inv in Hr5. apply sensor_status_inv in Hr7.
    split; [done|]. cbn [rr_operation_id]. rewrite (proj2 (Z.eqb_neq _ _) Hne). split; [done|].
    unfold result_wire. cbn [rr_operation_id rr_code rr_state rr_observability rr_sensor_status].
    rewrite Hr1, Hr3, Hr5, Hr7, Hr, Hr0, Hr2, Hr4, Hr6. clear -Hl. injection Hl as Hl.
    explicit_bytes l Hl. reflexivity.
  - intros l. unfold decode_lifecycle_response.
    apply no_panic_bind; [auto with rust|intros v _]. apply no_panic_bind; [auto with rust|intros s _].
    destruct (negb _); [done|].
    destruct (Nat.eqb_spec (length l) LIFECYCLE_RESPONSE_BYTES) as [Hl|]; [|done]. cbn [negb].
    change LIFECYCLE_RESPONSE_BYTES with 9%nat in Hl. apply no_panic_bind; [read_total|intros o _].
    destruct (_ =? 0); [done|]. reads_total. auto with rust.
  - intros r _ _. change (length (result_wire r)) with 9%nat. lia.
Qed.

(** ** Properties *)

(** The command a node receives: a profile only travels with the operation that
    sets it. *)
Definition command_sent (c : RuntimeCommand) : RuntimeCommand :=
  mkCommand (cmd_operation_id c) (operation c)
    (if bool_decide (operation c = SetObservabilityProfile) then requested_profile c else Production).

(** The Lifecycle service's wire format. A command with a non-zero
    operation id is encoded, and the node's decoder recovers it from the message
    id and the used part of the payload, with the profile only where the
    operation is the one that sets it; zero ids are refused in both directions;
    the decoder never panics, and whatever it accepts is what the encoder
    produces for the decoded command. Results obey the codec laws. *)
Theorem lifecycle_wire_lawful :
  (forall c, u32 (cmd_operation_id c) -> cmd_operation_id c <> 0 ->
     exists e used, encode_lifecycle_request c = Ok e /\
       slice (E:=LifecycleWireError) 0 (payload_size e) (enc_payload e) = Ok used /\
       decode_lifecycle_request (enc_message e) used = Ok (command_sent c)) /\
  (forall message payload c, decode_lifecycle_request message payload = Ok c ->
     exists e, encode_lifecycle_request c = Ok e /\ enc_message e = message /\
       slice (E:=LifecycleWireError) 0 (payload_size e) (enc_payload e) = Ok payload) /\
  (forall message payload, no_panic (decode_lifecycle_request message payload)) /\
  lawful_codec LifecycleWireError RuntimeResult.
Proof.
  split_and!; [| | |apply lifecycle_response_lawful].
  - intros [id op p] Ht Hne. cbn [cmd_operation_id] in *. unfold encode_lifecycle_request, command_sent.
    cbn [cmd_operation_id operation requested_profile]. rewrite (proj2 (Z.eqb_neq _ _) Hne).
    case_bool_decide as Hop.
    + subst op. eexists _, (to_le_bytes 4 id ++ [z2b (observability_code p)]).
      split; [reflexivity|]. split; [reflexivity|].
      transitivity (
        if from_le_bytes (to_le_bytes 4 id) =? 0 then Err LifecycleZeroOperationId
        else
          profile ← observability_try_from (b2z (z2b (observability_code p)));
          Ok (mkCommand (from_le_bytes (to_le_bytes 4 id)) SetObservabilityProfile profile) : lwire RuntimeCommand);
        [reflexivity|].
      rewrite (from_to_le_bytes 4 32), (proj2 (Z.eqb_neq _ _) Hne), observability_code_from by done. done.
    + eexists _, (to_le_bytes 4 id). split; [reflexivity|]. split; [reflexivity|].
      unfold decode_lifecycle_request. cbn [enc_message]. rewrite operation_from_message_id.
      cbn [mbind outcome_bind]. rewrite bool_decide_eq_false_2 by done.
      transitivity (
        if from_le_bytes (to_le_bytes 4 id) =? 0 then Err LifecycleZeroOperationId
        else Ok (mkCommand (from_le_bytes (to_le_bytes 4 id)) op Production) : lwire RuntimeCommand);
        [reflexivity|].
      rewrite (from_to_le_bytes 4 32), (proj2 (Z.eqb_neq _ _) Hne) by done. done.
  - intros message payload c H. unfold decode_lifecycle_request in H. decode_step H. rename x into op.
    apply operation_from_message_inv in Hr. cbv zeta in H.
    destruct (Nat.eqb_spec (length payload) (if bool_decide (op = SetObservabilityProfile)
      then LIFECYCLE_PROFILE_REQUEST_BYTES else LIFECYCLE_OPERATION_REQUEST_BYTES)) as [Hl|]; [|discriminate H].
    cbn [negb] in H. decode_step H. rename x into id.
    destruct (Z.eqb_spec id 0) as [|Hne]; [discriminate H|].
    unfold encode_lifecycle_request. case_bool_decide as Hop.
    + subst op. apply outcome_bind_Ok in H as (prof & Hp & [= <-]). decode_step Hp.
      apply observability_inv in Hp. cbn [cmd_operation_id operation requested_profile].
      rewrite (proj2 (Z.eqb_neq _ _) Hne). eexists. split; [reflexivity|]. split; [exact Hr|].
      change (Ok (to_le_bytes 4 id ++ [z2b (observability_code prof)]) = (Ok payload : lwire bytes)).
      rewrite Hp, Hr0, Hr1. clear -Hl. explicit_bytes payload Hl. reflexivity.
    + apply outcome_bind_Ok in H as (prof & _ & [= <-]).
      cbn [cmd_operation_id operation requested_profile].
      rewrite (proj2 (Z.eqb_neq _ _) Hne), bool_decide_eq_false_2 by done. eexists. split; [reflexivity|]. split; [exact Hr|].
      change (Ok (to_le_bytes 4 id) = (Ok payload : lwire bytes)).
      rewrite Hr0. clear -Hl. explicit_bytes payload Hl. reflexivity.
  - intros message payload. unfold decode_lifecycle_request.
    apply no_panic_bind; [auto with rust|intros op _]. cbv zeta.
    destruct (Nat.eqb_spec (length payload) (if bool_decide (op = SetObservabilityProfile)
      then LIFECYCLE_PROFILE_REQUEST_BYTES else LIFECYCLE_OPERATION_REQUEST_BYTES)) as [Hl|]; [|done].
    cbn [negb]. change LIFECYCLE_PROFILE_REQUEST_BYTES with 5%nat in Hl.
    change LIFECYCLE_OPERATION_REQUEST_BYTES with 4%nat in Hl.
    apply no_panic_bind; [case_bool_decide; read_total|intros id _]. destruct (_ =? 0); [done|].
    apply no_panic_bind; [|auto with rust]. case_bool_decide; [|done]. reads_total. auto with rust.
Qed.
