(* ===== verification/CommissioningWire.v ===== *)
(** * The Commissioning service on the wire
      (crates/sensor-protocol/src/commissioning_wire.rs)

    Unassigned nodes answer a probe only in the slot their hardware id and the
    round nonce select; the host then assigns an address. *)

From S2P Require Export Identity.
From S2P Require Import Crc.

Definition PROBE_SLOT_REQUEST_BYTES : nat := 12.
Definition PROBE_SLOT_RESPONSE_BYTES : nat := 23.
Definition ASSIGN_ADDRESS_REQUEST_BYTES : nat := 21.
Definition ASSIGN_ADDRESS_RESPONSE_BYTES : nat := 14.
Definition MAX_COMMISSIONING_SLOTS : Z := 256.

Inductive CommissioningWireError :=
| CommissioningInvalidLength (length : nat)
| ZeroRoundNonce
| InvalidSlotCount (count : Z)
| InvalidSlotIndex (index count : Z)
| CommissioningZeroOperationId
| CommissioningInvalidNodeAddress (address : Z)
| CommissioningInvalidBoardRevision
| CommissioningUnknownStatus (value : Z)
| CommissioningRemote (status : ResponseStatus).

Abbreviation comwire := (outcome CommissioningWireError).

Record ProbeSlotRequest := mkProbe { probe_round_nonce : Z; slot_count : Z; slot_index : Z }.

#[export] Instance ProbeSlotRequest_typed : Typed ProbeSlotRequest := fun r =>
  u64 (probe_round_nonce r) /\ u16 (slot_count r) /\ u16 (slot_index r).

(** [u16::is_power_of_two]. *)
Definition is_power_of_two (n : Z) : bool := (0 <? n) && (Z.land n (n - 1) =? 0).

Definition probe_validate (self : ProbeSlotRequest) : comwire ProbeSlotRequest :=
  if probe_round_nonce self =? 0 then Err ZeroRoundNonce
  else if (slot_count self =? 0) || (MAX_COMMISSIONING_SLOTS <? slot_count self)
          || negb (is_power_of_two (slot_count self))
  then Err (InvalidSlotCount (slot_count self))
  else if slot_count self <=? slot_index self
  then Err (InvalidSlotIndex (slot_index self) (slot_count self))
  else Ok self.

Record CommissioningIdentity := mkComIdentity {
  com_round_nonce : Z;
  com_hardware_id : HardwareId;
  com_board_revision : Z;
  com_firmware : FirmwareVersion;
  com_protocol : ProtocolVersion
}.

#[export] Instance CommissioningIdentity_typed : Typed CommissioningIdentity := fun i =>
  u64 (com_round_nonce i) /\ hardware_id_typed (com_hardware_id i) /\ u8 (com_board_revision i) /\
  typed (com_firmware i) /\ typed (com_protocol i).

Record AssignAddressRequest := mkAssign {
  assign_operation_id : Z;
  assign_round_nonce : Z;
  assign_hardware_id : HardwareId;
  assign_node_address : Z
}.

#[export] Instance AssignAddressRequest_typed : Typed AssignAddressRequest := fun r =>
  u32 (assign_operation_id r) /\ u64 (assign_round_nonce r) /\
  hardware_id_typed (assign_hardware_id r) /\ u8 (assign_node_address r).

Record AssignAddressResponse := mkAssigned {
  assigned_operation_id : Z;
  assigned_hardware_id : HardwareId;
  assigned_node_address : Z
}.

#[export] Instance AssignAddressResponse_typed : Typed AssignAddressResponse := fun r =>
  u32 (assigned_operation_id r) /\ hardware_id_typed (assigned_hardware_id r) /\
  u8 (assigned_node_address r).

Definition commissioning_slot (hardware_id : HardwareId) (round_nonce slot_count : Z) : comwire Z :=
  _ ← probe_validate (mkProbe round_nonce slot_count 0);
  key ← put 0 8 (to_le_bytes 8 round_nonce) (zeros 16);
  key ← put 8 (length key) hardware_id key;
  Ok (crc32c key mod slot_count).

Definition validate_assignment (operation_id round_nonce address : Z) : comwire unit :=
  if operation_id =? 0 then Err CommissioningZeroOperationId
  else if round_nonce =? 0 then Err ZeroRoundNonce
  else if negb ((1 <=? address) && (address <=? 253))
  then Err (CommissioningInvalidNodeAddress address)
  else Ok tt.

Definition com_require_length (payload : bytes) (expected : nat) : comwire unit :=
  if negb (length payload =? expected)%nat then Err (CommissioningInvalidLength (length payload))
  else Ok tt.

Definition com_require_success (payload : bytes) (expected : nat) : comwire unit :=
  raw ← ok_or (b2z <$> head payload) (CommissioningInvalidLength 0);
  status ← map_err (fun _ => CommissioningUnknownStatus raw) (response_status_try_from raw);
  if negb (bool_decide (status = StatusOk)) then
    if negb (length payload =? 1)%nat then Err (CommissioningInvalidLength (length payload))
    else Err (CommissioningRemote status)
  else com_require_length payload expected.

Definition encode_probe_slot_request (request : ProbeSlotRequest) : comwire bytes :=
  _ ← probe_validate request;
  out ← put 0 8 (to_le_bytes 8 (probe_round_nonce request)) (zeros PROBE_SLOT_REQUEST_BYTES);
  out ← put 8 10 (to_le_bytes 2 (slot_count request)) out;
  put 10 12 (to_le_bytes 2 (slot_index request)) out.

Definition decode_probe_slot_request (payload : bytes) : comwire ProbeSlotRequest :=
  _ ← com_require_length payload PROBE_SLOT_REQUEST_BYTES;
  round_nonce ← read_u64 payload 0;
  slot_count ← read_u16 payload 8;
  slot_index ← read_u16 payload 10;
  probe_validate (mkProbe round_nonce slot_count slot_index).

Definition decode_probe_slot_response (payload : bytes) : comwire CommissioningIdentity :=
  _ ← com_require_success payload PROBE_SLOT_RESPONSE_BYTES;
  round_nonce ← read_u64 payload 1;
  hardware_id ← slice 9 17 payload;
  board_revision ← index 17 payload;
  major ← index 18 payload;
  minor ← index 19 payload;
  patch ← index 20 payload;
  framing ← index 21 payload;
  application ← index 22 payload;
  if round_nonce =? 0 then Err ZeroRoundNonce
  else if board_revision =? 0 then Err CommissioningInvalidBoardRevision
  else Ok (mkComIdentity round_nonce hardware_id board_revision (mkFirmware major minor patch)
             (mkVersion framing application)).

Definition encode_probe_slot_response (value : CommissioningIdentity) : comwire bytes :=
  if com_round_nonce value =? 0 then Err ZeroRoundNonce
  else if com_board_revision value =? 0 then Err CommissioningInvalidBoardRevision
  else
    out ← put1 0 (status_code StatusOk) (zeros PROBE_SLOT_RESPONSE_BYTES);
    out ← put 1 9 (to_le_bytes 8 (com_round_nonce value)) out;
    out ← put 9 17 (com_hardware_id value) out;
    out ← put1 17 (com_board_revision value) out;
    out ← put1 18 (fw_major (com_firmware value)) out;
    out ← put1 19 (fw_minor (com_firmware value)) out;
    out ← put1 20 (fw_patch (com_firmware value)) out;
    out ← put1 21 (framing_version (com_protocol value)) out;
    put1 22 (application_version (com_protocol value)) out.

Definition encode_assign_address_request (request : AssignAddressRequest) : comwire bytes :=
  _ ← validate_assignment (assign_operation_id request) (assign_round_nonce request)
        (assign_node_address request);
  out ← put 0 4 (to_le_bytes 4 (assign_operation_id request)) (zeros ASSIGN_ADDRESS_REQUEST_BYTES);
  out ← put 4 12 (to_le_bytes 8 (assign_round_nonce request)) out;
  out ← put 12 20 (assign_hardware_id request) out;
  put1 20 (assign_node_address request) out.

Definition decode_assign_address_request (payload : bytes) : comwire AssignAddressRequest :=
  _ ← com_require_length payload ASSIGN_ADDRESS_REQUEST_BYTES;
  operation_id ← read_u32 payload 0;
  round_nonce ← read_u64 payload 4;
  hardware_id ← slice 12 20 payload;
  node_address ← index 20 payload;
  _ ← validate_assignment operation_id round_nonce node_address;
  Ok (mkAssign operation_id round_nonce hardware_id node_address).

Definition decode_assign_address_response (payload : bytes) : comwire AssignAddressResponse :=
  _ ← com_require_success payload ASSIGN_ADDRESS_RESPONSE_BYTES;
  operation_id ← read_u32 payload 1;
  hardware_id ← slice 5 13 payload;
  node_address ← index 13 payload;
  _ ← validate_assignment operation_id 1 node_address;
  Ok (mkAssigned operation_id hardware_id node_address).

Definition encode_assign_address_response (value : AssignAddressResponse) : comwire bytes :=
  _ ← validate_assignment (assigned_operation_id value) 1 (assigned_node_address value);
  out ← put1 0 (status_code StatusOk) (zeros ASSIGN_ADDRESS_RESPONSE_BYTES);
  out ← put 1 5 (to_le_bytes 4 (assigned_operation_id value)) out;
  out ← put 5 13 (assigned_hardware_id value) out;
  put1 13 (assigned_node_address value) out.

#[export] Instance probe_request_codec : WireCodec CommissioningWireError ProbeSlotRequest := {
  wire_encode := encode_probe_slot_request; wire_decode := decode_probe_slot_request }.
#[export] Instance probe_response_codec : WireCodec CommissioningWireError CommissioningIdentity := {
  wire_encode := encode_probe_slot_response; wire_decode := decode_probe_slot_response }.
#[export] Instance assign_request_codec : WireCodec CommissioningWireError AssignAddressRequest := {
  wire_encode := encode_assign_address_request; wire_decode := decode_assign_address_request }.
#[export] Instance assign_response_codec : WireCodec CommissioningWireError AssignAddressResponse := {
  wire_encode := encode_assign_address_response; wire_decode := decode_assign_address_response }.

(** ** Checks *)

Lemma probe_validates : validates probe_validate.
Proof.
  intros r. unfold probe_validate. split.
  - destruct (_ =? 0); [done|]. destruct (_ || _)%bool; [done|]. destruct (_ <=? _); done.
  - intros y H. destruct (_ =? 0); [done|]. destruct (_ || _)%bool; [done|]. destruct (_ <=? _); congruence.
Qed.

Lemma assignment_no_panic (a b c : Z) : no_panic (validate_assignment a b c).
Proof. unfold validate_assignment. repeat split_guard; auto with rust. Qed.

Lemma com_require_length_Ok (l : bytes) (n : nat) (u : unit) :
  com_require_length l n = Ok u <-> length l = n.
Proof. destruct u. unfold com_require_length. destruct (Nat.eqb_spec (length l) n); naive_solver. Qed.

Lemma com_require_length_no_panic (l : bytes) (n : nat) : no_panic (com_require_length l n).
Proof. unfold com_require_length. destruct (negb _); auto with rust. Qed.

Lemma com_require_success_Ok (l : bytes) (n : nat) (u : unit) :
  com_require_success l n = Ok u <->
  (exists rest, l = z2b (status_code StatusOk) :: rest) /\ length l = n.
Proof.
  unfold com_require_success.
  destruct l as [|b l]; cbn [head ok_or fmap option_fmap option_map mbind outcome_bind]; [naive_solver|].
  split.
  - intros (s & Hs%map_err_Ok & H)%outcome_bind_Ok. case_bool_decide as Hok; cbn [negb] in H; [|run_in H].
    subst s. apply status_try_from_inv in Hs. apply com_require_length_Ok in H.
    split; [|done]. exists l. f_equal. by apply z2b_b2z_eq.
  - intros [(rest & [= -> ->]) Hl]. change (b2z (z2b (status_code StatusOk))) with 0.
    cbn -[length]. by apply com_require_length_Ok.
Qed.

Lemma com_require_success_no_panic (l : bytes) (n : nat) : no_panic (com_require_success l n).
Proof.
  unfold com_require_success. apply no_panic_bind; [auto with rust|intros v _].
  apply no_panic_bind; [auto with rust|intros s _].
  repeat (destruct (negb _)); auto using com_require_length_no_panic with rust.
Qed.
#[export] Hint Resolve assignment_no_panic com_require_length_no_panic com_require_success_no_panic : rust.

(** ** Codecs *)

Lemma probe_request_lawful : lawful_codec CommissioningWireError ProbeSlotRequest.
Proof.
  apply (lawful_intro
    (fun r => to_le_bytes 8 (probe_round_nonce r) ++ to_le_bytes 2 (slot_count r) ++
              to_le_bytes 2 (slot_index r)) (checked probe_validate));
    cbn [wire_encode wire_decode probe_request_codec].
  - intros r _. unfold encode_probe_slot_request. by rewrite (validates_bind _ _ _ probe_validates).
  - intros r. apply checked_no_panic, probe_validates.
  - intros r (T1 & T2 & T3) Hc. apply checked_Ok_iff in Hc; [|apply probe_validates].
    transitivity (probe_validate (mkProbe (from_le_bytes (to_le_bytes 8 (probe_round_nonce r)))
      (from_le_bytes (to_le_bytes 2 (slot_count r))) (from_le_bytes (to_le_bytes 2 (slot_index r)))));
      [reflexivity|]. wire_values. by destruct r.
  - intros l r H. unfold decode_probe_slot_request in H. decode_step H.
    apply com_require_length_Ok in Hr as Hlen. do 3 decode_step H.
    pose proof (proj2 (probe_validates _) _ H) as E. rewrite E in H |- *.
    split; [solve_typed|]. split; [by apply checked_Ok_iff; [apply probe_validates|]|].
    cbn [probe_round_nonce slot_count slot_index]. rewrite Hr0, Hr1, Hr2.
    clear -Hlen. explicit_bytes l Hlen. reflexivity.
  - intros l. unfold decode_probe_slot_request.
    apply no_panic_bind; [auto with rust|intros u Hl%com_require_length_Ok].
    change PROBE_SLOT_REQUEST_BYTES with 12%nat in Hl. reads_total. apply probe_validates.
  - intros r _ _. autorewrite with len. lia.
Qed.

Lemma probe_response_lawful : lawful_codec CommissioningWireError CommissioningIdentity.
Proof.
  apply (lawful_intro
    (fun i => [z2b (status_code StatusOk)] ++ to_le_bytes 8 (com_round_nonce i) ++ com_hardware_id i ++
       [z2b (com_board_revision i)] ++ [z2b (fw_major (com_firmware i))] ++
       [z2b (fw_minor (com_firmware i))] ++ [z2b (fw_patch (com_firmware i))] ++
       [z2b (framing_version (com_protocol i))] ++ [z2b (application_version (com_protocol i))])
    (fun i => if com_round_nonce i =? 0 then Err ZeroRoundNonce
              else if com_board_revision i =? 0 then Err CommissioningInvalidBoardRevision else Ok tt));
    cbn [wire_encode wire_decode probe_response_codec].
  - intros [n h b f p] (_ & Hh & _). cbn [com_hardware_id] in Hh. unfold encode_probe_slot_response.
    cbn [com_round_nonce com_board_revision]. repeat (destruct (_ =? 0); [done|]).
    unfold hardware_id_typed in Hh. explicit_bytes h Hh. reflexivity.
  - intros i. repeat (destruct (_ =? 0)); auto with rust.
  - intros [n h b [f1 f2 f3] [p1 p2]] (T1 & Hh & T2 & (T3 & T4 & T5) & T6 & T7) Hc.
    cbn [com_round_nonce com_hardware_id com_board_revision com_firmware com_protocol
      fw_major fw_minor fw_patch framing_version application_version] in *.
    transitivity (
      if from_le_bytes (to_le_bytes 8 n) =? 0 then Err ZeroRoundNonce
      else if b2z (z2b b) =? 0 then Err CommissioningInvalidBoardRevision
      else Ok (mkComIdentity (from_le_bytes (to_le_bytes 8 n)) h (b2z (z2b b))
        (mkFirmware (b2z (z2b f1)) (b2z (z2b f2)) (b2z (z2b f3)))
        (mkVersion (b2z (z2b p1)) (b2z (z2b p2)))) : comwire CommissioningIdentity).
    + unfold hardware_id_typed in Hh. explicit_bytes h Hh. reflexivity.
    + wire_values. repeat (destruct (_ =? 0); [discriminate Hc|]). done.
  - intros l i H. unfold decode_probe_slot_response in H. decode_step H.
    apply com_require_success_Ok in Hr as [(rest & Hl) Hlen]. decode_step H.
    apply outcome_bind_Ok in H as (h & (_ & _ & Hh & Hhl)%slice_inv & H). do 6 decode_step H.
    destruct (Z.eqb_spec x0 0) as [|Hz1]; [discriminate H|].
    destruct (Z.eqb_spec x1 0) as [|Hz2]; [discriminate H|]. injection H as <-.
    split; [solve_typed|]. cbn [com_round_nonce com_hardware_id com_board_revision com_firmware
      com_protocol fw_major fw_minor fw_patch framing_version application_version].
    rewrite (proj2 (Z.eqb_neq _ _) Hz1), (proj2 (Z.eqb_neq _ _) Hz2). split; [done|].
    rewrite Hh, Hr, Hr0, Hr1, Hr2, Hr3, Hr4, Hr5. clear -Hl Hlen. subst l. injection Hlen as Hlen.
    explicit_bytes rest Hlen. reflexivity.
  - intros l. unfold decode_probe_slot_response.
    apply no_panic_bind; [auto with rust|intros u [_ Hl]%com_require_success_Ok].
    change PROBE_SLOT_RESPONSE_BYTES with 23%nat in Hl. reads_total.
    repeat (destruct (_ =? 0); auto with rust).
  - intros i (_ & Hh & _) _. autorewrite with len. rewrite Hh. cbn [length]. lia.
Qed.

Lemma assign_request_lawful : lawful_codec CommissioningWireError AssignAddressRequest.
Proof.
  apply (lawful_intro
    (fun r => to_le_bytes 4 (assign_operation_id r) ++ to_le_bytes 8 (assign_round_nonce r) ++
       assign_hardware_id r ++ [z2b (assign_node_address r)])
    (fun r => validate_assignment (assign_operation_id r) (assign_round_nonce r) (assign_node_address r)));
    cbn [wire_encode wire_decode assign_request_codec].
  - intros [o n h a] (_ & _ & Hh & _). cbn [assign_hardware_id] in Hh. unfold encode_assign_address_request.
    destruct (validate_assignment _ _ _); cbn [mbind outcome_bind]; [|done..].
    unfold hardware_id_typed in Hh. cbn [assign_hardware_id]. explicit_bytes h Hh. reflexivity.
  - auto with rust.
  - intros [o n h a] (T1 & T2 & Hh & T3) Hc.
    cbn [assign_operation_id assign_round_nonce assign_hardware_id assign_node_address] in *.
    transitivity (
      _ ← validate_assignment (from_le_bytes (to_le_bytes 4 o)) (from_le_bytes (to_le_bytes 8 n)) (b2z (z2b a));
      Ok (mkAssign (from_le_bytes (to_le_bytes 4 o)) (from_le_bytes (to_le_bytes 8 n)) h (b2z (z2b a)))
        : comwire AssignAddressRequest).
    + unfold hardware_id_typed in Hh. explicit_bytes h Hh. reflexivity.
    + wire_values. by rewrite Hc.
  - intros l r H. unfold decode_assign_address_request in H. decode_step H.
    apply com_require_length_Ok in Hr as Hlen. do 2 decode_step H.
    apply outcome_bind_Ok in H as (h & (_ & _ & Hh & Hhl)%slice_inv & H). decode_step H.
    apply outcome_bind_Ok in H as ([] & Hv & [= <-]). split; [solve_typed|]. split; [done|].
    cbn [assign_operation_id assign_round_nonce assign_hardware_id assign_node_address].
    rewrite Hh, Hr0, Hr1, Hr2. clear -Hlen. explicit_bytes l Hlen. reflexivity.
  - intros l. unfold decode_assign_address_request.
    apply no_panic_bind; [auto with rust|intros u Hl%com_require_length_Ok].
    change ASSIGN_ADDRESS_REQUEST_BYTES with 21%nat in Hl. reads_total. auto with rust.
  - intros r (_ & _ & Hh & _) _. autorewrite with len. rewrite Hh. cbn [length]. lia.
Qed.

Lemma assign_response_lawful : lawful_codec CommissioningWireError AssignAddressResponse.
Proof.
  apply (lawful_intro
    (fun r => [z2b (status_code StatusOk)] ++ to_le_bytes 4 (assigned_operation_id r) ++
       assigned_hardware_id r ++ [z2b (assigned_node_address r)])
    (fun r => validate_assignment (assigned_operation_id r) 1 (assigned_node_address r)));
    cbn [wire_encode wire_decode assign_response_codec].
  - intros [o h a] (_ & Hh & _). cbn [assigned_hardware_id] in Hh. unfold encode_assign_address_response.
    destruct (validate_assignment _ _ _); cbn [mbind outcome_bind]; [|done..].
    unfold hardware_id_typed in Hh. cbn [assigned_hardware_id]. explicit_bytes h Hh. reflexivity.
  - auto with rust.
  - intros [o h a] (T1 & Hh & T3) Hc.
    cbn [assigned_operation_id assigned_hardware_id assigned_node_address] in *.
    transitivity (
      _ ← validate_assignment (from_le_bytes (to_le_bytes 4 o)) 1 (b2z (z2b a));
      Ok (mkAssigned (from_le_bytes (to_le_bytes 4 o)) h (b2z (z2b a))) : comwire AssignAddressResponse).
    + unfold hardware_id_typed in Hh. explicit_bytes h Hh. reflexivity.
    + wire_values. by rewrite Hc.
  - intros l r H. unfold decode_assign_address_response in H. decode_step H.
    apply com_require_success_Ok in Hr as [(rest & Hl) Hlen]. decode_step H.
    apply outcome_bind_Ok in H as (h & (_ & _ & Hh & Hhl)%slice_inv & H). decode_step H.
    apply outcome_bind_Ok in H as ([] & Hv & [= <-]). split; [solve_typed|]. split; [done|].
    cbn [assigned_operation_id assigned_hardware_id assigned_node_address].
    rewrite Hh, Hr, Hr0. clear -Hlen Hl. subst l. injection Hlen as Hlen.
    explicit_bytes rest Hlen. reflexivity.
  - intros l. unfold decode_assign_address_response.
    apply no_panic_bind; [auto with rust|intros u [_ Hl]%com_require_success_Ok].
    change ASSIGN_ADDRESS_RESPONSE_BYTES with 14%nat in Hl. reads_total. auto with rust.
  - intros r (_ & Hh & _) _. autorewrite with len. rewrite Hh. cbn [length]. lia.
Qed.

(** ** Properties *)

(** The Commissioning service's wire format: the four messages round-trip,
    decode only from their canonical bytes, never panic and fit a frame. *)
Theorem commissioning_wire_lawful :
  lawful_codec CommissioningWireError ProbeSlotRequest /\
  lawful_codec CommissioningWireError CommissioningIdentity /\
  lawful_codec CommissioningWireError AssignAddressRequest /\
  lawful_codec CommissioningWireError AssignAddressResponse.
Proof.
  auto 10 using probe_request_lawful, probe_response_lawful, assign_request_lawful,
    assign_response_lawful.
Qed.

(** A probing round reaches every node exactly once: for every accepted
    round (non-zero nonce, a power of two of at most 256 slots), a node's
    slot is defined and is the index of exactly one valid probe of the round. *)
Lemma commissioning_round_complete (hardware_id : HardwareId) (nonce count probe : Z) :
  hardware_id_typed hardware_id -> u64 nonce -> u16 count ->
  probe_validate (mkProbe nonce count probe) = Ok (mkProbe nonce count probe) ->
  exists slot, commissioning_slot hardware_id nonce count = Ok slot /\
    probe_validate (mkProbe nonce count slot) = Ok (mkProbe nonce count slot) /\
    0 <= slot < count /\ 1 <= count <= 256 /\
    forall i, commissioning_slot hardware_id nonce count = Ok i -> i = slot.
Proof.
  intros Hh Hn Hcount Hv.
  assert (Hslots : 1 <= count <= 256 /\ forall i, i < count ->
            probe_validate (mkProbe nonce count i) = Ok (mkProbe nonce count i)).
  { unfold probe_validate in Hv |- *. cbn [probe_round_nonce slot_count slot_index] in *.
    destruct (nonce =? 0); [discriminate Hv|].
    destruct (Z.eqb_spec count 0) as [|H0]; [discriminate Hv|].
    destruct (Z.ltb_spec MAX_COMMISSIONING_SLOTS count) as [|H256]; [discriminate Hv|].
    destruct (is_power_of_two count); [|discriminate Hv]. cbn [orb negb] in *.
    unfold MAX_COMMISSIONING_SLOTS in H256. split; [ilia|]. intros i Hi.
    by rewrite (proj2 (Z.leb_gt _ _) Hi). }
  destruct Hslots as [Hrange Hprobe].
  exists (crc32c (to_le_bytes 8 nonce ++ hardware_id) mod count).
  assert (Hs : commissioning_slot hardware_id nonce count =
               Ok (crc32c (to_le_bytes 8 nonce ++ hardware_id) mod count)).
  { unfold commissioning_slot. rewrite Hprobe by lia. cbn [mbind outcome_bind].
    unfold hardware_id_typed in Hh. explicit_bytes hardware_id Hh. reflexivity. }
  pose proof (Z.mod_pos_bound (crc32c (to_le_bytes 8 nonce ++ hardware_id)) count ltac:(lia)) as Hb.
  split_and!; try lia; [done|apply Hprobe; lia|]. intros i Hi. congruence.
Qed.

Lemma commissioning_round_complete_witness :
  exists slot, commissioning_slot (literal [1; 2; 3; 4; 5; 6; 7; 8]) 42 64 = Ok slot /\ 0 <= slot < 64.
Proof.
  destruct (commissioning_round_complete (literal [1; 2; 3; 4; 5; 6; 7; 8]) 42 64 5) as (s & Hs & _ & Hr & _).
  - reflexivity.
  - vm_compute. split; congruence.
  - vm_compute. split; congruence.
  - vm_compute. reflexivity.
  - exists s. split; assumption.
Defined.
