(* ===== verification/ObservationWire.v ===== *)
(** * The Time, Telemetry and Diagnostics services on the wire
      (crates/sensor-protocol: time_wire, telemetry_wire, diagnostics_wire)

    The host only decodes telemetry and diagnostics, so their contract is that
    decoding is total and injective: no two payloads mean the same thing. *)

From S2P Require Export Application Adxl355.
From S2P Require Import Framing.

(** ** Time *)

Definition OBSERVE_CLOCK_REQUEST_BYTES : nat := 0.
Definition OBSERVE_CLOCK_RESPONSE_BYTES : nat := 25.

Inductive TimeWireError :=
| InvalidRequestLength (length : nat)
| InvalidResponseLength (length : nat)
| InvalidRemoteErrorLength (length : nat)
| TimeStatus (error : ApplicationContractError)
| TimeRemote (status : ResponseStatus)
| TimeZeroBootEpoch
| NodeClockRegressed.

Abbreviation twire := (outcome TimeWireError).

Record TimeExchangeResponse := mkTime {
  time_boot_epoch : BootEpoch;
  node_receive_us : Z;
  node_send_us : Z
}.

#[export] Instance TimeExchangeResponse_typed : Typed TimeExchangeResponse := fun t =>
  u64 (time_boot_epoch t) /\ u64 (node_receive_us t) /\ u64 (node_send_us t).

Definition time_validate (self : TimeExchangeResponse) : twire TimeExchangeResponse :=
  if time_boot_epoch self =? 0 then Err TimeZeroBootEpoch
  else if node_send_us self <? node_receive_us self then Err NodeClockRegressed
  else Ok self.

Definition validate_time_request (payload : bytes) : twire unit :=
  if (length payload =? OBSERVE_CLOCK_REQUEST_BYTES)%nat then Ok tt
  else Err (InvalidRequestLength (length payload)).

Definition encode_time_success (response : TimeExchangeResponse) : twire bytes :=
  response ← time_validate response;
  output ← put1 0 (status_code StatusOk) (zeros OBSERVE_CLOCK_RESPONSE_BYTES);
  output ← put 1 9 (to_le_bytes 8 (time_boot_epoch response)) output;
  output ← put 9 17 (to_le_bytes 8 (node_receive_us response)) output;
  put 17 25 (to_le_bytes 8 (node_send_us response)) output.

Definition decode_time_response (payload : bytes) : twire TimeExchangeResponse :=
  match b2z <$> head payload with
  | None => Err (InvalidResponseLength 0)
  | Some raw =>
      status ← map_err TimeStatus (response_status_try_from raw);
      if negb (bool_decide (status = StatusOk)) then
        if negb (length payload =? 1)%nat then Err (InvalidRemoteErrorLength (length payload))
        else Err (TimeRemote status)
      else if negb (length payload =? OBSERVE_CLOCK_RESPONSE_BYTES)%nat
      then Err (InvalidResponseLength (length payload))
      else
        boot_epoch ← read_u64 payload 1;
        node_receive_us ← read_u64 payload 9;
        node_send_us ← read_u64 payload 17;
        time_validate (mkTime boot_epoch node_receive_us node_send_us)
  end.

#[export] Instance time_codec : WireCodec TimeWireError TimeExchangeResponse := {
  wire_encode := encode_time_success; wire_decode := decode_time_response }.

(** ** Telemetry *)

Definition TELEMETRY_SCHEMA_VERSION : Z := 1.
Definition TELEMETRY_SNAPSHOT_RESPONSE_BYTES : nat := 14.
Definition ADXL355_TEMPERATURE_FIELD : Z := 1.

Record TelemetrySnapshot := mkSnapshot {
  captured_device_time_us : Z;
  adxl355_temperature : Adxl355TemperatureCode
}.

Inductive TelemetryWireError :=
| TelemetryInvalidLength
| TelemetryUnknownStatus (value : Z)
| TelemetryRemote (status : ResponseStatus)
| TelemetryUnsupportedSchema (schema : Z)
| InvalidFields (fields : Z)
| ZeroCapturedTime
| InvalidTemperature (error : Adxl355TemperatureCodeError).

Abbreviation telwire := (outcome TelemetryWireError).

Definition decode_telemetry_snapshot (payload : bytes) : telwire TelemetrySnapshot :=
  match b2z <$> head payload with
  | None => Err TelemetryInvalidLength
  | Some status_byte =>
      status ← map_err (fun _ => TelemetryUnknownStatus status_byte)
                 (response_status_try_from status_byte);
      if negb (bool_decide (status = StatusOk)) then
        if negb (length payload =? 1)%nat then Err TelemetryInvalidLength
        else Err (TelemetryRemote status)
      else if negb (length payload =? TELEMETRY_SNAPSHOT_RESPONSE_BYTES)%nat
      then Err TelemetryInvalidLength
      else
        schema ← index 1 payload;
        if negb (schema =? TELEMETRY_SCHEMA_VERSION) then Err (TelemetryUnsupportedSchema schema)
        else
          captured ← read_u64 payload 2;
          if captured =? 0 then Err ZeroCapturedTime
          else
            fields ← read_u16 payload 10;
            if negb (fields =? ADXL355_TEMPERATURE_FIELD) then Err (InvalidFields fields)
            else
              raw ← read_u16 payload 12;
              temperature ← map_err InvalidTemperature (temperature_code_new raw);
              Ok (mkSnapshot captured temperature)
  end.

(** ** Diagnostics *)

Definition DIAGNOSTIC_INFO_RESPONSE_BYTES : nat := 25.
Definition FAULT_SNAPSHOT_RESPONSE_BYTES : nat := 70.
Definition PERSISTENT_DIAGNOSTIC_RECORD_RESPONSE_BYTES : nat := 84.
Definition READ_DIAGNOSTIC_EVENTS_REQUEST_BYTES : nat := 5.
Definition DIAGNOSTIC_EVENTS_RESPONSE_HEADER_BYTES : nat := 12.
Definition DIAGNOSTIC_EVENT_WIRE_BYTES : nat := 28.
Definition MAX_DIAGNOSTIC_EVENTS_PER_RESPONSE : Z := 16.

Record DiagnosticInfo := mkInfo {
  info_reset_cause : Z; live_usb_enabled : bool; stored_event_count : Z; event_capacity : Z;
  dropped_event_count : Z; info_first_event_id : Z; info_next_event_id : Z;
  last_error_event_id : Z; last_error_code : Z
}.

Record FaultSnapshot := mkFault {
  fs_event_id : Z; fs_time_ms : Z; fs_event_code : Z; fs_severity : Z; fs_reset_cause : Z;
  fs_sample_seq : Z; fs_last_progress_ms : Z; fs_fifo_no_data : Z; fs_sensor_errors : Z;
  fs_dropped_samples : Z; fs_rx_overflow_count : Z; fs_packet_overwrite_count : Z;
  fs_debug_gpio_int1_edges : Z; fs_debug_gpio_drdy_edges : Z; fs_debug_config_snapshot : Z;
  fs_debug_irq_snapshot : Z; fs_arg0 : Z; fs_arg1 : Z
}.

Record PersistentDiagnosticRecord := mkPersistent {
  pr_generation : Z; pr_boot_counter : Z; pr_firmware_version : Z; pr_event_id : Z;
  pr_time_ms : Z; pr_event_code : Z; pr_severity : Z; pr_repeat_count : Z; pr_reset_cause : Z;
  pr_sample_seq : Z; pr_last_progress_ms : Z; pr_fifo_no_data : Z; pr_sensor_errors : Z;
  pr_dropped_samples : Z; pr_rx_overflow_count : Z; pr_packet_overwrite_count : Z;
  pr_debug_gpio_int1_edges : Z; pr_debug_gpio_drdy_edges : Z; pr_debug_config_snapshot : Z;
  pr_debug_irq_snapshot : Z; pr_arg0 : Z; pr_arg1 : Z
}.

Record DiagnosticEvent := mkEvent {
  ev_event_id : Z; ev_time_ms : Z; ev_event_code : Z; ev_severity : Z; ev_repeat_count : Z;
  ev_sample_seq : Z; ev_arg0 : Z; ev_arg1 : Z
}.

Record DiagnosticEventPage := mkPage {
  page_first_event_id : Z; page_next_event_id : Z; page_events : list DiagnosticEvent
}.

Inductive DiagnosticsWireError :=
| DiagInvalidLength | InvalidPresence | InvalidBoolean | InvalidEventCount | NonZeroReserved
| DiagStatus (error : ApplicationContractError)
| DiagRemote (status : ResponseStatus).

Abbreviation dwire := (outcome DiagnosticsWireError).

Definition encode_read_events_request (start_event_id maximum : Z) : dwire bytes :=
  if (maximum =? 0) || (MAX_DIAGNOSTIC_EVENTS_PER_RESPONSE <? maximum) then Err InvalidEventCount
  else
    output ← put 0 4 (to_le_bytes 4 start_event_id) (zeros READ_DIAGNOSTIC_EVENTS_REQUEST_BYTES);
    put1 4 maximum output.

Definition diag_require_ok (payload : bytes) : dwire unit :=
  match b2z <$> head payload with
  | None => Err DiagInvalidLength
  | Some raw =>
      status ← map_err DiagStatus (response_status_try_from raw);
      if negb (bool_decide (status = StatusOk)) then Err (DiagRemote status) else Ok tt
  end.

Definition decode_presence (payload : bytes) : dwire bool :=
  match b2z <$> payload !! 1%nat with
  | Some 0 => Ok false
  | Some 1 => Ok true
  | Some _ => Err InvalidPresence
  | None => Err DiagInvalidLength
  end.

Definition decode_bool (value : Z) : dwire bool :=
  match value with
  | 0 => Ok false
  | 1 => Ok true
  | _ => Err InvalidBoolean
  end.

Definition diag_require_length (payload : bytes) (expected : nat) : dwire unit :=
  if (length payload =? expected)%nat then Ok tt else Err DiagInvalidLength.

Definition decode_diagnostic_info (payload : bytes) : dwire DiagnosticInfo :=
  _ ← diag_require_ok payload;
  _ ← diag_require_length payload DIAGNOSTIC_INFO_RESPONSE_BYTES;
  raw ← index 2 payload;
  live_usb_enabled ← decode_bool raw;
  reset_cause ← index 1 payload;
  stored_event_count ← read_u16 payload 3;
  event_capacity ← read_u16 payload 5;
  dropped_event_count ← read_u32 payload 7;
  first_event_id ← read_u32 payload 11;
  next_event_id ← read_u32 payload 15;
  last_error_event_id ← read_u32 payload 19;
  last_error_code ← read_u16 payload 23;
  Ok (mkInfo reset_cause live_usb_enabled stored_event_count event_capacity dropped_event_count
        first_event_id next_event_id last_error_event_id last_error_code).

Definition decode_fault_snapshot (payload : bytes) : dwire (option FaultSnapshot) :=
  _ ← diag_require_ok payload;
  present ← decode_presence payload;
  if negb present then
    _ ← diag_require_length payload 2; Ok None
  else
    _ ← diag_require_length payload FAULT_SNAPSHOT_RESPONSE_BYTES;
    event_id ← read_u32 payload 2;
    time_ms ← read_u32 payload 6;
    event_code ← read_u16 payload 10;
    severity ← index 12 payload;
    reset_cause ← index 13 payload;
    sample_seq ← read_u64 payload 14;
    last_progress_ms ← read_u32 payload 22;
    fifo_no_data ← read_u32 payload 26;
    sensor_errors ← read_u32 payload 30;
    dropped_samples ← read_u32 payload 34;
    rx_overflow_count ← read_u32 payload 38;
    packet_overwrite_count ← read_u32 payload 42;
    debug_gpio_int1_edges ← read_u32 payload 46;
    debug_gpio_drdy_edges ← read_u32 payload 50;
    debug_config_snapshot ← read_u32 payload 54;
    debug_irq_snapshot ← read_u32 payload 58;
    arg0 ← read_i32 payload 62;
    arg1 ← read_i32 payload 66;
    Ok (Some (mkFault event_id time_ms event_code severity reset_cause sample_seq last_progress_ms
      fifo_no_data sensor_errors dropped_samples rx_overflow_count packet_overwrite_count
      debug_gpio_int1_edges debug_gpio_drdy_edges debug_config_snapshot debug_irq_snapshot arg0 arg1)).

Definition decode_persistent_diagnostic_record (payload : bytes)
    : dwire (option PersistentDiagnosticRecord) :=
  _ ← diag_require_ok payload;
  present ← decode_presence payload;
  if negb present then
    _ ← diag_require_length payload 2; Ok None
  else
    _ ← diag_require_length payload PERSISTENT_DIAGNOSTIC_RECORD_RESPONSE_BYTES;
    reserved ← index 27 payload;
    if negb (reserved =? 0) then Err NonZeroReserved
    else
      generation ← read_u32 payload 2;
      boot_counter ← read_u32 payload 6;
      firmware_version ← read_u32 payload 10;
      event_id ← read_u32 payload 14;
      time_ms ← read_u32 payload 18;
      event_code ← read_u16 payload 22;
      severity ← index 24 payload;
      repeat_count ← index 25 payload;
      reset_cause ← index 26 payload;
      sample_seq ← read_u64 payload 28;
      last_progress_ms ← read_u32 payload 36;
      fifo_no_data ← read_u32 payload 40;
      sensor_errors ← read_u32 payload 44;
      dropped_samples ← read_u32 payload 48;
      rx_overflow_count ← read_u32 payload 52;
      packet_overwrite_count ← read_u32 payload 56;
      debug_gpio_int1_edges ← read_u32 payload 60;
      debug_gpio_drdy_edges ← read_u32 payload 64;
      debug_config_snapshot ← read_u32 payload 68;
      debug_irq_snapshot ← read_u32 payload 72;
      arg0 ← read_i32 payload 76;
      arg1 ← read_i32 payload 80;
      Ok (Some (mkPersistent generation boot_counter firmware_version event_id time_ms event_code
        severity repeat_count reset_cause sample_seq last_progress_ms fifo_no_data sensor_errors
        dropped_samples rx_overflow_count packet_overwrite_count debug_gpio_int1_edges
        debug_gpio_drdy_edges debug_config_snapshot debug_irq_snapshot arg0 arg1)).

(** [for index in i..i + n]. *)
Fixpoint decode_events (n i : nat) (payload : bytes) : dwire (list DiagnosticEvent) :=
  match n with
  | O => Ok []
  | S n =>
      let offset := (DIAGNOSTIC_EVENTS_RESPONSE_HEADER_BYTES + i * DIAGNOSTIC_EVENT_WIRE_BYTES)%nat in
      event_id ← read_u32 payload offset;
      time_ms ← read_u32 payload (offset + 4);
      event_code ← read_u16 payload (offset + 8);
      severity ← index (offset + 10) payload;
      repeat_count ← index (offset + 11) payload;
      sample_seq ← read_u64 payload (offset + 12);
      arg0 ← read_i32 payload (offset + 20);
      arg1 ← read_i32 payload (offset + 24);
      rest ← decode_events n (i + 1) payload;
      Ok (mkEvent event_id time_ms event_code severity repeat_count sample_seq arg0 arg1 :: rest)
  end.

Definition decode_diagnostic_events (payload : bytes) : dwire DiagnosticEventPage :=
  _ ← diag_require_ok payload;
  if (length payload <? DIAGNOSTIC_EVENTS_RESPONSE_HEADER_BYTES)%nat then Err DiagInvalidLength
  else
    count ← index 1 payload;
    if MAX_DIAGNOSTIC_EVENTS_PER_RESPONSE <? count then Err InvalidEventCount
    else
      r2 ← index 2 payload;
      r3 ← index 3 payload;
      if negb (r2 =? 0) || negb (r3 =? 0) then Err NonZeroReserved
      else
        let expected := (DIAGNOSTIC_EVENTS_RESPONSE_HEADER_BYTES
                         + Z.to_nat count * DIAGNOSTIC_EVENT_WIRE_BYTES)%nat in
        _ ← diag_require_length payload expected;
        events ← decode_events (Z.to_nat count) 0 payload;
        first_event_id ← read_u32 payload 4;
        next_event_id ← read_u32 payload 8;
        Ok (mkPage first_event_id next_event_id events).

(** ** Time: proofs *)

Lemma time_validates : validates time_validate.
Proof.
  intros r. unfold time_validate. split.
  - repeat split_guard; auto with rust.
  - intros y H. run_in H; done.
Qed.

Definition time_wire (t : TimeExchangeResponse) : bytes :=
  [z2b (status_code StatusOk)] ++ to_le_bytes 8 (time_boot_epoch t) ++
  to_le_bytes 8 (node_receive_us t) ++ to_le_bytes 8 (node_send_us t).

Lemma time_lawful : lawful_codec TimeWireError TimeExchangeResponse.
Proof.
  apply (lawful_intro time_wire (checked time_validate)); cbn [wire_encode wire_decode time_codec].
  - intros t _. unfold encode_time_success, checked.
    destruct (time_validate t) as [t'| |] eqn:Hv; [|done..].
    pose proof (proj2 (time_validates t) _ Hv) as ->. reflexivity.
  - intros t. apply checked_no_panic, time_validates.
  - intros t (T1 & T2 & T3) Hc. apply checked_Ok_iff in Hc; [|apply time_validates].
    transitivity (time_validate (mkTime (from_le_bytes (to_le_bytes 8 (time_boot_epoch t)))
      (from_le_bytes (to_le_bytes 8 (node_receive_us t)))
      (from_le_bytes (to_le_bytes 8 (node_send_us t))))); [reflexivity|].
    wire_values. by destruct t.
  - intros l t H. unfold decode_time_response in H. destruct l as [|b l]; [discriminate H|].
    cbn [head fmap option_fmap option_map] in H. decode_step H.
    apply map_err_Ok, status_try_from_inv, z2b_b2z_eq in Hr as ->.
    case_bool_decide as Hs; cbn [negb] in H; [|run_in H]. subst x.
    destruct (Nat.eqb_spec (length (z2b (status_code StatusOk) :: l)) OBSERVE_CLOCK_RESPONSE_BYTES) as [Hl|]; [|discriminate H].
    cbn [negb] in H. do 3 decode_step H. pose proof (proj2 (time_validates _) _ H) as E. rewrite E in H |- *.
    split; [solve_typed|]. split; [by apply checked_Ok_iff; [apply time_validates|]|].
    unfold time_wire. cbn [time_boot_epoch node_receive_us node_send_us]. rewrite Hr, Hr0, Hr1.
    clear -Hl. injection Hl as Hl. explicit_bytes l Hl. reflexivity.
  - intros l. unfold decode_time_response. destruct (b2z <$> head l) as [v|]; [|done].
    apply no_panic_bind; [auto with rust|intros s _]. destruct (negb (bool_decide _)); [by destruct (negb _)|].
    destruct (Nat.eqb_spec (length l) OBSERVE_CLOCK_RESPONSE_BYTES) as [Hl|]; [|done]. cbn [negb].
    change OBSERVE_CLOCK_RESPONSE_BYTES with 25%nat in Hl. reads_total. apply time_validates.
  - intros t _ _. change (length (time_wire t)) with 25%nat. lia.
Qed.

(** ** Telemetry and diagnostics: what a payload must be *)

Definition telemetry_wire (s : TelemetrySnapshot) : bytes :=
  [z2b (status_code StatusOk)] ++ [z2b TELEMETRY_SCHEMA_VERSION] ++
  to_le_bytes 8 (captured_device_time_us s) ++ to_le_bytes 2 ADXL355_TEMPERATURE_FIELD ++
  to_le_bytes 2 (adxl355_temperature s).

(** Replaces every field by the bytes it was read from. *)
Ltac wire_back := repeat match goal with
  | H : to_le_bytes ?n ?x = firstn ?n _ |- context [to_le_bytes ?n ?x] => rewrite H
  | H : [z2b ?x] = firstn 1 _ |- context [[z2b ?x]] => rewrite H
  end.

Lemma decode_telemetry_exact (l : bytes) (s : TelemetrySnapshot) :
  decode_telemetry_snapshot l = Ok s <->
  l = telemetry_wire s /\ u64 (captured_device_time_us s) /\ captured_device_time_us s <> 0 /\
  TEMPERATURE_CODE_MIN <= adxl355_temperature s <= TEMPERATURE_CODE_MAX.
Proof.
  split.
  - unfold decode_telemetry_snapshot. intros H. destruct l as [|b l]; [discriminate H|].
    cbn [head fmap option_fmap option_map] in H. decode_step H.
    apply map_err_Ok, status_try_from_inv, z2b_b2z_eq in Hr as ->.
    case_bool_decide as Hs; cbn [negb] in H; [|run_in H]. subst x.
    destruct (Nat.eqb_spec (length (z2b (status_code StatusOk) :: l)) TELEMETRY_SNAPSHOT_RESPONSE_BYTES) as [Hl|]; [|discriminate H].
    cbn [negb] in H. decode_step H.
    destruct (Z.eqb_spec x TELEMETRY_SCHEMA_VERSION) as [->|]; [|discriminate H]. cbn [negb] in H.
    decode_step H. destruct (Z.eqb_spec x 0) as [|Hne]; [discriminate H|]. decode_step H.
    destruct (Z.eqb_spec x0 ADXL355_TEMPERATURE_FIELD) as [->|]; [|discriminate H]. cbn [negb] in H.
    do 2 decode_step H. injection H as <-. apply map_err_Ok in Hr3. unfold temperature_code_new in Hr3.
    run_in Hr3. subst. cbn [captured_device_time_us adxl355_temperature]. split_and!; auto; try lia.
    unfold telemetry_wire. cbn [captured_device_time_us adxl355_temperature]. wire_back.
    clear -Hl. injection Hl as Hl. explicit_bytes l Hl. reflexivity.
  - intros (-> & Hu & Hne & Ht). destruct s as [c t]. cbn [captured_device_time_us adxl355_temperature] in *.
    unfold TEMPERATURE_CODE_MIN, TEMPERATURE_CODE_MAX in Ht.
    transitivity (
      if from_le_bytes (to_le_bytes 8 c) =? 0 then Err ZeroCapturedTime
      else t ← map_err InvalidTemperature (temperature_code_new (from_le_bytes (to_le_bytes 2 t)));
           Ok (mkSnapshot (from_le_bytes (to_le_bytes 8 c)) t) : telwire TelemetrySnapshot); [reflexivity|].
    rewrite (from_to_le_bytes 8 64), (from_to_le_bytes 2 16), (proj2 (Z.eqb_neq _ _) Hne) by (done || ilia).
    unfold temperature_code_new, TEMPERATURE_CODE_MIN, TEMPERATURE_CODE_MAX.
    by rewrite (proj2 (Z.ltb_ge _ _)), (proj2 (Z.ltb_ge _ _)) by lia.
Qed.

Lemma decode_telemetry_no_panic (l : bytes) : no_panic (decode_telemetry_snapshot l).
Proof.
  unfold decode_telemetry_snapshot. destruct (b2z <$> head l) as [v|]; [|done].
  apply no_panic_bind; [auto with rust|intros s _]. destruct (negb (bool_decide _)); [by destruct (negb _)|].
  destruct (Nat.eqb_spec (length l) TELEMETRY_SNAPSHOT_RESPONSE_BYTES) as [Hl|]; [|done]. cbn [negb].
  change TELEMETRY_SNAPSHOT_RESPONSE_BYTES with 14%nat in Hl.
  apply no_panic_bind; [read_total|intros x _]. destruct (negb _); [done|].
  apply no_panic_bind; [read_total|intros c _]. destruct (_ =? 0); [done|].
  apply no_panic_bind; [read_total|intros f _]. destruct (negb _); [done|].
  apply no_panic_bind; [read_total|intros r _]. apply no_panic_bind; [|auto with rust].
  apply no_panic_map_err. unfold temperature_code_new. destruct (_ || _)%bool; done.
Qed.

(** ** Diagnostics: proofs *)

Lemma diag_require_ok_Ok (l : bytes) (u : unit) :
  diag_require_ok l = Ok u -> exists rest, l = z2b (status_code StatusOk) :: rest.
Proof.
  unfold diag_require_ok. destruct l as [|b l]; [done|]. cbn [head fmap option_fmap option_map].
  intros (s & Hs & H)%outcome_bind_Ok. apply map_err_Ok, status_try_from_inv, z2b_b2z_eq in Hs as ->.
  case_bool_decide; [|discriminate H]. subst s. eauto.
Qed.

Lemma diag_require_ok_no_panic (l : bytes) : no_panic (diag_require_ok l).
Proof.
  unfold diag_require_ok. destruct (b2z <$> head l); [|done]. apply no_panic_bind; [auto with rust|intros s _].
  destruct (negb _); auto with rust.
Qed.

Lemma decode_presence_inv (l : bytes) (b : bool) :
  decode_presence l = Ok b -> l !! 1%nat = Some (z2b (if b then 1 else 0)).
Proof.
  unfold decode_presence. destruct (l !! 1%nat) as [c|]; cbn; [|done].
  destruct (b2z c) as [|p|p] eqn:Hc; try discriminate.
  - intros [= <-]. by apply z2b_b2z_eq in Hc as ->.
  - destruct p; try discriminate. intros [= <-]. by apply z2b_b2z_eq in Hc as ->.
Qed.

Lemma decode_presence_no_panic (l : bytes) : no_panic (decode_presence l).
Proof. unfold decode_presence. repeat case_match; auto with rust. Qed.

Lemma decode_bool_inv (v : Z) (b : bool) : decode_bool v = Ok b -> v = if b then 1 else 0.
Proof. intros H. unfold decode_bool in H. run_in H; by subst b. Qed.

Lemma decode_bool_no_panic (v : Z) : no_panic (decode_bool v).
Proof. unfold decode_bool. repeat case_match; auto with rust. Qed.

Lemma diag_require_length_Ok (l : bytes) (n : nat) (u : unit) :
  diag_require_length l n = Ok u <-> length l = n.
Proof. destruct u. unfold diag_require_length. destruct (Nat.eqb_spec (length l) n); naive_solver. Qed.

Lemma diag_require_length_no_panic (l : bytes) (n : nat) : no_panic (diag_require_length l n).
Proof. unfold diag_require_length. destruct (_ =? _)%nat; auto with rust. Qed.
#[export] Hint Resolve diag_require_ok_no_panic decode_presence_no_panic decode_bool_no_panic
  diag_require_length_no_panic : rust.

Definition info_wire (i : DiagnosticInfo) : bytes :=
  [z2b (status_code StatusOk)] ++ [z2b (info_reset_cause i)] ++
  [z2b (if live_usb_enabled i then 1 else 0)] ++
  to_le_bytes 2 (stored_event_count i) ++ to_le_bytes 2 (event_capacity i) ++
  to_le_bytes 4 (dropped_event_count i) ++ to_le_bytes 4 (info_first_event_id i) ++
  to_le_bytes 4 (info_next_event_id i) ++ to_le_bytes 4 (last_error_event_id i) ++
  to_le_bytes 2 (last_error_code i).

Lemma decode_info_inv (l : bytes) (i : DiagnosticInfo) :
  decode_diagnostic_info l = Ok i -> l = info_wire i.
Proof.
  unfold decode_diagnostic_info. intros H. decode_step H. apply diag_require_ok_Ok in Hr as (rest & ->).
  decode_step H. apply diag_require_length_Ok in Hr. do 10 decode_step H. injection H as <-.
  apply decode_bool_inv in Hr1. unfold info_wire.
  cbn [info_reset_cause live_usb_enabled stored_event_count event_capacity dropped_event_count
    info_first_event_id info_next_event_id last_error_event_id last_error_code].
  rewrite <- Hr1. wire_back. clear -Hr. injection Hr as Hr. explicit_bytes rest Hr. reflexivity.
Qed.

Definition fault_wire (f : FaultSnapshot) : bytes :=
  [z2b (status_code StatusOk); z2b 1] ++
  to_le_bytes 4 (fs_event_id f) ++ to_le_bytes 4 (fs_time_ms f) ++ to_le_bytes 2 (fs_event_code f) ++
  [z2b (fs_severity f)] ++ [z2b (fs_reset_cause f)] ++ to_le_bytes 8 (fs_sample_seq f) ++
  to_le_bytes 4 (fs_last_progress_ms f) ++ to_le_bytes 4 (fs_fifo_no_data f) ++
  to_le_bytes 4 (fs_sensor_errors f) ++ to_le_bytes 4 (fs_dropped_samples f) ++
  to_le_bytes 4 (fs_rx_overflow_count f) ++ to_le_bytes 4 (fs_packet_overwrite_count f) ++
  to_le_bytes 4 (fs_debug_gpio_int1_edges f) ++ to_le_bytes 4 (fs_debug_gpio_drdy_edges f) ++
  to_le_bytes 4 (fs_debug_config_snapshot f) ++ to_le_bytes 4 (fs_debug_irq_snapshot f) ++
  to_le_bytes 4 (fs_arg0 f) ++ to_le_bytes 4 (fs_arg1 f).

Definition absent_wire : bytes := [z2b (status_code StatusOk); z2b 0].

(** The two ways a payload with a presence marker can start. *)
Lemma presence_absent (rest : bytes) :
  decode_presence (z2b (status_code StatusOk) :: rest) = Ok false ->
  length (z2b (status_code StatusOk) :: rest) = 2%nat ->
  z2b (status_code StatusOk) :: rest = absent_wire.
Proof.
  intros Hp%decode_presence_inv Hl. injection Hl as Hl. explicit_bytes rest Hl.
  cbn in Hp. by injection Hp as ->.
Qed.

Lemma decode_fault_inv (l : bytes) (o : option FaultSnapshot) :
  decode_fault_snapshot l = Ok o ->
  l = match o with None => absent_wire | Some f => fault_wire f end.
Proof.
  unfold decode_fault_snapshot. intros H. decode_step H. apply diag_require_ok_Ok in Hr as (rest & ->).
  decode_step H. destruct x0; cbn [negb] in H; decode_step H; apply diag_require_length_Ok in Hr0.
  - do 18 decode_step H. injection H as <-. apply decode_presence_inv in Hr. unfold fault_wire.
    cbn [fs_event_id fs_time_ms fs_event_code fs_severity fs_reset_cause fs_sample_seq
      fs_last_progress_ms fs_fifo_no_data fs_sensor_errors fs_dropped_samples fs_rx_overflow_count
      fs_packet_overwrite_count fs_debug_gpio_int1_edges fs_debug_gpio_drdy_edges
      fs_debug_config_snapshot fs_debug_irq_snapshot fs_arg0 fs_arg1].
    wire_back. clear -Hr0 Hr. injection Hr0 as Hr0. explicit_bytes rest Hr0.
    cbn in Hr. injection Hr as ->. reflexivity.
  - injection H as <-. by apply presence_absent.
Qed.

Definition persistent_wire (p : PersistentDiagnosticRecord) : bytes :=
  [z2b (status_code StatusOk); z2b 1] ++
  to_le_bytes 4 (pr_generation p) ++ to_le_bytes 4 (pr_boot_counter p) ++
  to_le_bytes 4 (pr_firmware_version p) ++ to_le_bytes 4 (pr_event_id p) ++
  to_le_bytes 4 (pr_time_ms p) ++ to_le_bytes 2 (pr_event_code p) ++ [z2b (pr_severity p)] ++
  [z2b (pr_repeat_count p)] ++ [z2b (pr_reset_cause p)] ++ [z2b 0] ++ to_le_bytes 8 (pr_sample_seq p) ++
  to_le_bytes 4 (pr_last_progress_ms p) ++ to_le_bytes 4 (pr_fifo_no_data p) ++
  to_le_bytes 4 (pr_sensor_errors p) ++ to_le_bytes 4 (pr_dropped_samples p) ++
  to_le_bytes 4 (pr_rx_overflow_count p) ++ to_le_bytes 4 (pr_packet_overwrite_count p) ++
  to_le_bytes 4 (pr_debug_gpio_int1_edges p) ++ to_le_bytes 4 (pr_debug_gpio_drdy_edges p) ++
  to_le_bytes 4 (pr_debug_config_snapshot p) ++ to_le_bytes 4 (pr_debug_irq_snapshot p) ++
  to_le_bytes 4 (pr_arg0 p) ++ to_le_bytes 4 (pr_arg1 p).

Lemma decode_persistent_inv (l : bytes) (o : option PersistentDiagnosticRecord) :
  decode_persistent_diagnostic_record l = Ok o ->
  l = match o with None => absent_wire | Some p => persistent_wire p end.
Proof.
  unfold decode_persistent_diagnostic_record. intros H. decode_step H.
  apply diag_require_ok_Ok in Hr as (rest & ->).
  decode_step H. destruct x0; cbn [negb] in H; decode_step H; apply diag_require_length_Ok in Hr0.
  - decode_step H. destruct (Z.eqb_spec x1 0) as [->|]; [|discriminate H]. cbn [negb] in H.
    do 22 decode_step H. injection H as <-. apply decode_presence_inv in Hr. unfold persistent_wire.
    cbn [pr_generation pr_boot_counter pr_firmware_version pr_event_id pr_time_ms pr_event_code
      pr_severity pr_repeat_count pr_reset_cause pr_sample_seq pr_last_progress_ms pr_fifo_no_data
      pr_sensor_errors pr_dropped_samples pr_rx_overflow_count pr_packet_overwrite_count
      pr_debug_gpio_int1_edges pr_debug_gpio_drdy_edges pr_debug_config_snapshot
      pr_debug_irq_snapshot pr_arg0 pr_arg1].
    wire_back. clear -Hr0 Hr. injection Hr0 as Hr0. explicit_bytes rest Hr0.
    cbn in Hr. injection Hr as ->. reflexivity.
  - injection H as <-. by apply presence_absent.
Qed.

Definition event_wire (e : DiagnosticEvent) : bytes :=
  to_le_bytes 4 (ev_event_id e) ++ to_le_bytes 4 (ev_time_ms e) ++ to_le_bytes 2 (ev_event_code e) ++
  [z2b (ev_severity e)] ++ [z2b (ev_repeat_count e)] ++ to_le_bytes 8 (ev_sample_seq e) ++
  to_le_bytes 4 (ev_arg0 e) ++ to_le_bytes 4 (ev_arg1 e).

Definition page_wire (p : DiagnosticEventPage) : bytes :=
  [z2b (status_code StatusOk); z2b (Z.of_nat (length (page_events p))); z2b 0; z2b 0] ++
  to_le_bytes 4 (page_first_event_id p) ++ to_le_bytes 4 (page_next_event_id p) ++
  concat (map event_wire (page_events p)).

Lemma decode_events_inv (n i : nat) (payload : bytes) (l : list DiagnosticEvent) :
  (12 + (i + n) * 28 <= length payload)%nat ->
  decode_events n i payload = Ok l ->
  length l = n /\ firstn (n * 28) (skipn (12 + i * 28) payload) = concat (map event_wire l).
Proof.
  revert i l. induction n as [|n IH]; intros i l Hlen; cbn [decode_events].
  - intros [= <-]. done.
  - change (DIAGNOSTIC_EVENTS_RESPONSE_HEADER_BYTES + i * DIAGNOSTIC_EVENT_WIRE_BYTES)%nat
      with (12 + i * 28)%nat. cbv zeta. set (o := (12 + i * 28)%nat) in *.
    intros H. do 8 decode_step H. apply outcome_bind_Ok in H as (rest & Hrest & [= <-]).
    apply IH in Hrest as (Hn & Hw); [|lia]. split; [cbn; lia|]. cbn [map concat]. rewrite <- Hw.
    unfold event_wire. cbn [ev_event_id ev_time_ms ev_event_code ev_severity ev_repeat_count
      ev_sample_seq ev_arg0 ev_arg1]. wire_back.
    replace (12 + (i + 1) * 28)%nat with (o + 28)%nat by (unfold o; lia).
    rewrite <- !(drop_drop _ _ o). set (d := skipn o payload).
    assert (Hd : (28 <= length d)%nat) by (unfold d; rewrite length_drop; unfold o in *; lia).
    clearbody d. clear -Hd. replace (S n * 28)%nat with (28 + n * 28)%nat by lia.
    show_bytes d Hd 28. reflexivity.
Qed.

Lemma decode_events_no_panic (n i : nat) (payload : bytes) :
  (12 + (i + n) * 28 <= length payload)%nat -> no_panic (decode_events n i payload).
Proof.
  revert i. induction n as [|n IH]; intros i Hlen; cbn [decode_events]; [done|].
  change (DIAGNOSTIC_EVENTS_RESPONSE_HEADER_BYTES + i * DIAGNOSTIC_EVENT_WIRE_BYTES)%nat
    with (12 + i * 28)%nat. cbv zeta. do 8 (apply no_panic_bind; [read_total|intros ? _]).
  apply no_panic_bind; [apply IH; lia|auto with rust].
Qed.

Lemma decode_page_inv (l : bytes) (p : DiagnosticEventPage) :
  decode_diagnostic_events l = Ok p -> l = page_wire p /\ (length (page_events p) <= 16)%nat.
Proof.
  unfold decode_diagnostic_events. intros H. decode_step H. apply diag_require_ok_Ok in Hr as (rest & ->).
  change DIAGNOSTIC_EVENTS_RESPONSE_HEADER_BYTES with 12%nat in H.
  destruct (Nat.ltb_spec (length (z2b (status_code StatusOk) :: rest)) 12) as [|H12]; [discriminate H|].
  decode_step H. destruct (Z.ltb_spec MAX_DIAGNOSTIC_EVENTS_PER_RESPONSE x0) as [|H16]; [discriminate H|].
  do 2 decode_step H. destruct (Z.eqb_spec x1 0) as [->|]; [|discriminate H].
  destruct (Z.eqb_spec x2 0) as [->|]; [|discriminate H]. cbn [negb orb] in H.
  decode_step H. apply diag_require_length_Ok in Hr2.
  change DIAGNOSTIC_EVENT_WIRE_BYTES with 28%nat in Hr2.
  apply outcome_bind_Ok in H as (evs & Hevs & H).
  apply decode_events_inv in Hevs as [Hn Hw]; [|cbn [Nat.add]; lia].
  do 2 decode_step H. injection H as <-. unfold page_wire.
  cbn [page_events page_first_event_id page_next_event_id].
  unfold MAX_DIAGNOSTIC_EVENTS_PER_RESPONSE in H16. split; [|ilia].
  rewrite <- Hw, Hn. rewrite (take_ge (skipn (12 + 0 * 28) _)) by (rewrite length_drop; lia).
  rewrite Z2Nat.id by ilia.
  change [?a; ?b; ?c; ?d] with ([a] ++ [b] ++ [c] ++ [d]).
  rewrite Hr0 at 1. rewrite Hr1. wire_back. clear -H12. cbn [length] in H12. show_bytes rest H12 11. reflexivity.
Qed.

(** ** Properties *)

(** The Time service's wire format: a clock response round-trips, decodes
    only from its canonical bytes and only when the node's clock did not run
    backwards inside it, never panics and fits a frame. *)
Theorem time_wire_lawful :
  lawful_codec TimeWireError TimeExchangeResponse /\
  (forall l t, decode_time_response l = Ok t ->
     time_boot_epoch t <> 0 /\ node_receive_us t <= node_send_us t).
Proof.
  split; [apply time_lawful|]. intros l t H.
  destruct (codec_canonical _ _ time_lawful l t H) as [_ Henc].
  cbn [wire_encode time_codec] in Henc. unfold encode_time_success in Henc.
  apply outcome_bind_Ok in Henc as (t' & Hv & _). unfold time_validate in Hv. run_in Hv. lia.
Qed.

Lemma diagnostics_no_panic (l : bytes) :
  no_panic (decode_diagnostic_info l) /\ no_panic (decode_fault_snapshot l) /\
  no_panic (decode_persistent_diagnostic_record l) /\ no_panic (decode_diagnostic_events l).
Proof.
  split_and!.
  - unfold decode_diagnostic_info. apply no_panic_bind; [auto with rust|intros u _].
    apply no_panic_bind; [auto with rust|intros u' Hl%diag_require_length_Ok].
    change DIAGNOSTIC_INFO_RESPONSE_BYTES with 25%nat in Hl. reads_total. auto with rust.
  - unfold decode_fault_snapshot. apply no_panic_bind; [auto with rust|intros u _].
    apply no_panic_bind; [auto with rust|intros b _].
    destruct (negb b); (apply no_panic_bind; [auto with rust|intros u' Hl%diag_require_length_Ok]); [done|].
    change FAULT_SNAPSHOT_RESPONSE_BYTES with 70%nat in Hl. reads_total. auto with rust.
  - unfold decode_persistent_diagnostic_record. apply no_panic_bind; [auto with rust|intros u _].
    apply no_panic_bind; [auto with rust|intros b _].
    destruct (negb b); (apply no_panic_bind; [auto with rust|intros u' Hl%diag_require_length_Ok]); [done|].
    change PERSISTENT_DIAGNOSTIC_RECORD_RESPONSE_BYTES with 84%nat in Hl.
    apply no_panic_bind; [read_total|intros v _]. destruct (negb _); [done|]. reads_total. auto with rust.
  - unfold decode_diagnostic_events. apply no_panic_bind; [auto with rust|intros u _].
    change DIAGNOSTIC_EVENTS_RESPONSE_HEADER_BYTES with 12%nat.
    change DIAGNOSTIC_EVENT_WIRE_BYTES with 28%nat.
    destruct (Nat.ltb_spec (length l) 12) as [|H12]; [done|].
    apply no_panic_bind; [read_total|intros c _]. destruct (_ <? _); [done|].
    do 2 (apply no_panic_bind; [read_total|intros ? _]). destruct (_ || _)%bool; [done|].
    apply no_panic_bind; [auto with rust|intros u' Hl%diag_require_length_Ok].
    apply no_panic_bind; [apply decode_events_no_panic; cbn [Nat.add]; lia|intros es _].
    reads_total. auto with rust.
Qed.

(** The observation decoders are total, exact and unambiguous. Telemetry
    decoding accepts exactly the canonical snapshots: the schema, field mask and
    length are fixed, the capture time is non-zero, the temperature code is
    plausible. No payload makes one of the four diagnostics decoders panic, and a
    decoded value determines its payload byte for byte (so no field is read
    twice, skipped or truncated); a page never carries more than 16 events. *)
Theorem observation_decoders_exact :
  (forall l, no_panic (decode_telemetry_snapshot l)) /\
  (forall l s, decode_telemetry_snapshot l = Ok s <->
     l = telemetry_wire s /\ u64 (captured_device_time_us s) /\ captured_device_time_us s <> 0 /\
     TEMPERATURE_CODE_MIN <= adxl355_temperature s <= TEMPERATURE_CODE_MAX) /\
  (forall l, no_panic (decode_diagnostic_info l) /\ no_panic (decode_fault_snapshot l) /\
     no_panic (decode_persistent_diagnostic_record l) /\ no_panic (decode_diagnostic_events l)) /\
  (forall l i, decode_diagnostic_info l = Ok i -> l = info_wire i) /\
  (forall l o, decode_fault_snapshot l = Ok o ->
     l = match o with None => absent_wire | Some f => fault_wire f end) /\
  (forall l o, decode_persistent_diagnostic_record l = Ok o ->
     l = match o with None => absent_wire | Some p => persistent_wire p end) /\
  (forall l p, decode_diagnostic_events l = Ok p -> l = page_wire p /\ (length (page_events p) <= 16)%nat).
Proof.
  split_and!; auto using decode_telemetry_no_panic, decode_telemetry_exact, diagnostics_no_panic,
    decode_info_inv, decode_fault_inv, decode_persistent_inv, decode_page_inv.
Qed.
