(* ===== verification/WireContracts.v ===== *)
(** * The wire contracts of every service (crates/sensor-protocol)

    Every message the host and a node exchange, in one place: the codec laws of
    each message type ([lawful_codec] of [Bytes]: what a valid value encodes to
    decodes to it, a payload decodes only if it is the canonical encoding of the
    result, nothing panics, every encoding fits a frame), and the Lifecycle
    command, whose fields are split between the message id and the payload. *)

From S2P Require Export MeasurementWire Identity ConfigurationWire LifecycleWire CommissioningWire ObservationWire.

(** The Measurement service. *)
Definition measurement_contract : Prop :=
  lawful_codec MeasurementWireError PullSamplesRequest /\
  lawful_codec MeasurementWireError PullResponse /\
  lawful_codec MeasurementWireError ReleaseSamplesRequest /\
  lawful_codec MeasurementWireError StreamState.

(** The Identity and Configuration services. *)
Definition management_contract : Prop :=
  lawful_codec IdentityContractError NodeIdentity /\
  lawful_codec IdentityContractError NodeCapabilities /\
  lawful_codec ConfigurationWireError MeasurementConfiguration /\
  lawful_codec ConfigurationWireError ConfigOperationRequest /\
  lawful_codec ConfigurationWireError ResetRequest /\
  lawful_codec ConfigurationWireError ObservedConfiguration /\
  lawful_codec ConfigurationWireError ConfigValidationResult /\
  lawful_codec ConfigurationWireError ConfigOperationResult.

(** The Commissioning and Time services. *)
Definition installation_contract : Prop :=
  lawful_codec CommissioningWireError ProbeSlotRequest /\
  lawful_codec CommissioningWireError CommissioningIdentity /\
  lawful_codec CommissioningWireError AssignAddressRequest /\
  lawful_codec CommissioningWireError AssignAddressResponse /\
  lawful_codec TimeWireError TimeExchangeResponse.

(** The Lifecycle service: a command crosses as its message id and the used
    part of its payload. *)
Definition lifecycle_contract : Prop :=
  lawful_codec LifecycleWireError RuntimeResult /\
  (forall c, u32 (cmd_operation_id c) -> cmd_operation_id c <> 0 ->
     exists e used, encode_lifecycle_request c = Ok e /\
       slice (E:=LifecycleWireError) 0 (payload_size e) (enc_payload e) = Ok used /\
       decode_lifecycle_request (enc_message e) used = Ok (command_sent c)) /\
  (forall message payload c, decode_lifecycle_request message payload = Ok c ->
     exists e, encode_lifecycle_request c = Ok e /\ enc_message e = message /\
       slice (E:=LifecycleWireError) 0 (payload_size e) (enc_payload e) = Ok payload) /\
  (forall message payload, no_panic (decode_lifecycle_request message payload)).

(** C29. Every service's wire format is faithful: for each of the eighteen
    message types of the Measurement, Identity, Configuration, Lifecycle,
    Commissioning and Time services, encoding and decoding are mutually inverse
    on valid values (a payload decodes only if it is the canonical encoding of
    the result), neither direction panics on any input, and every encoding fits
    a frame; a Lifecycle command with a non-zero operation id is recovered from
    its message id and payload, whatever the node's decoder accepts is what the
    encoder produces for it, and the decoder never panics. *)
Theorem service_wire_contracts :
  measurement_contract /\ management_contract /\ installation_contract /\ lifecycle_contract.
Proof.
  unfold measurement_contract, management_contract, installation_contract, lifecycle_contract.
  pose proof pull_response_wire_lawful. pose proof measurement_requests_lawful. pose proof identity_wire_lawful.
  pose proof configuration_wire_lawful. pose proof commissioning_wire_lawful. pose proof time_wire_lawful.
  pose proof lifecycle_wire_lawful. tauto.
Qed.
