(* ===== verification/Transaction.v ===== *)
(** * One request/response exchange on a half-duplex channel
      (crates/sensor-host/src/transaction.rs)

    The transaction core never reads a clock: the runtime passes the monotonic
    time to every call. [MonotonicMicros] and [DurationMicros] are the [u64]
    they wrap; a method on [&mut self] is a state-passing function. *)

From S2P Require Export Core Framing.

Abbreviation MonotonicMicros := Z.
Abbreviation DurationMicros := Z.

Inductive TransactionError :=
| ZeroDuration
| ChannelBusy
| RequestRequiresAddressedNode
| InvalidRoutedRequest
| NotTransmitting
| TimeOverflow.

#[export] Instance TransactionError_eq_dec : EqDecision TransactionError.
Proof. solve_decision. Defined.

(** [MonotonicMicros::checked_add] and [DurationMicros::new]. *)
Definition monotonic_checked_add (now : MonotonicMicros) (duration : DurationMicros)
    : option MonotonicMicros :=
  checked_add 64 now duration.

Definition duration_new (value : Z) : outcome TransactionError DurationMicros :=
  if value =? 0 then Err ZeroDuration else Ok value.

Inductive TimeoutRecovery := RetrySafe | ReconcileState.

#[export] Instance TimeoutRecovery_eq_dec : EqDecision TimeoutRecovery.
Proof. solve_decision. Defined.

Record RequestSpec := mkRequestSpec {
  rq_node_address : Z;
  rq_service : Z;
  rq_request_message : Z;
  rq_response_message : Z;
  rq_timeout : DurationMicros;
  rq_timeout_recovery : TimeoutRecovery
}.

Record RoutedRequestSpec := mkRoutedRequestSpec {
  rr_request_destination : Z;
  rr_response_source : Z;
  rr_service : Z;
  rr_request_message : Z;
  rr_response_message : Z;
  rr_timeout : DurationMicros;
  rr_timeout_recovery : TimeoutRecovery
}.

Record ActiveTransaction := mkActive {
  at_transaction_id : Z;
  at_node_address : Z;
  at_request_destination : Z;
  at_service : Z;
  at_request_message : Z;
  at_response_message : Z;
  at_deadline : MonotonicMicros;
  at_timeout_recovery : TimeoutRecovery
}.

Record PreparedTransaction := mkPrepared {
  pt_transaction_id : Z;
  pt_node_address : Z;
  pt_request_destination : Z;
  pt_service : Z;
  pt_request_message : Z;
  pt_response_message : Z;
  pt_timeout : DurationMicros;
  pt_timeout_recovery : TimeoutRecovery
}.

#[export] Instance RequestSpec_eq_dec : EqDecision RequestSpec.
Proof. solve_decision. Defined.
#[export] Instance RoutedRequestSpec_eq_dec : EqDecision RoutedRequestSpec.
Proof. solve_decision. Defined.
#[export] Instance ActiveTransaction_eq_dec : EqDecision ActiveTransaction.
Proof. solve_decision. Defined.
#[export] Instance PreparedTransaction_eq_dec : EqDecision PreparedTransaction.
Proof. solve_decision. Defined.

(** [PreparedTransaction::request_frame], [ActiveTransaction::request_frame]. *)
Definition prepared_request_frame (self : PreparedTransaction) (payload : bytes) : framing Frame :=
  frame_new Request (pt_request_destination self) HOST_ADDRESS (pt_service self)
    (pt_request_message self) (pt_transaction_id self) payload.

Definition active_request_frame (self : ActiveTransaction) (payload : bytes) : framing Frame :=
  frame_new Request (at_request_destination self) HOST_ADDRESS (at_service self)
    (at_request_message self) (at_transaction_id self) payload.

Definition active_matches (self : ActiveTransaction) (frame : Frame) : bool :=
  bool_decide (frame_role frame = Response)
  && (destination frame =? HOST_ADDRESS)
  && (source frame =? at_node_address self)
  && (service frame =? at_service self)
  && (message frame =? at_response_message self)
  && (transaction_id frame =? at_transaction_id self).

Inductive ResponseDisposition := Accepted | Unrelated | Late | Unsolicited.

Inductive TimerEvent :=
| TimerNone
| TimedOut (transaction_id : Z) (recovery : TimeoutRecovery) (quarantine_until : MonotonicMicros)
| QuarantineEnded.

Inductive State :=
| Idle
| Transmitting (prepared : PreparedTransaction)
| Awaiting (active : ActiveTransaction)
| Quarantine (expired : ActiveTransaction) (until : MonotonicMicros).

#[export] Instance ResponseDisposition_eq_dec : EqDecision ResponseDisposition.
Proof. solve_decision. Defined.
#[export] Instance TimerEvent_eq_dec : EqDecision TimerEvent.
Proof. solve_decision. Defined.
#[export] Instance State_eq_dec : EqDecision State.
Proof. solve_decision. Defined.

Record TransactionCore := mkTransactionCore {
  next_transaction_id : Z;
  quarantine_duration : DurationMicros;
  state : State
}.

#[export] Instance TransactionCore_eq_dec : EqDecision TransactionCore.
Proof. solve_decision. Defined.

Abbreviation transaction := (st TransactionCore TransactionError).

Definition set_state (s : State) (self : TransactionCore) : TransactionCore :=
  mkTransactionCore (next_transaction_id self) (quarantine_duration self) s.

(** [self.next_transaction_id = ...wrapping_add(1); self.state = ...]. *)
Definition issue (p : PreparedTransaction) (self : TransactionCore) : TransactionCore :=
  mkTransactionCore (wrapping_add 32 (next_transaction_id self) 1) (quarantine_duration self)
    (Transmitting p).

Definition transaction_new (seed : Z) (quarantine_duration : DurationMicros) : TransactionCore :=
  mkTransactionCore seed quarantine_duration Idle.

Definition is_idle (self : TransactionCore) : bool :=
  match state self with Idle => true | _ => false end.

Definition prepare (request : RequestSpec) : transaction PreparedTransaction :=
  self ← get;
  if negb (is_idle self) then throw ChannelBusy
  else if (rq_node_address request =? HOST_ADDRESS) || (rq_node_address request =? BROADCAST_ADDRESS)
  then throw RequestRequiresAddressedNode
  else
    let transaction :=
      mkPrepared (next_transaction_id self) (rq_node_address request) (rq_node_address request)
        (rq_service request) (rq_request_message request) (rq_response_message request)
        (rq_timeout request) (rq_timeout_recovery request) in
    _ ← modify (issue transaction);
    mret transaction.

Definition prepare_routed (request : RoutedRequestSpec) : transaction PreparedTransaction :=
  self ← get;
  if negb (is_idle self) then throw ChannelBusy
  else if (rr_request_destination request =? HOST_ADDRESS)
          || (rr_response_source request =? HOST_ADDRESS)
          || (rr_response_source request =? BROADCAST_ADDRESS)
  then throw InvalidRoutedRequest
  else
    let transaction :=
      mkPrepared (next_transaction_id self) (rr_response_source request)
        (rr_request_destination request) (rr_service request) (rr_request_message request)
        (rr_response_message request) (rr_timeout request) (rr_timeout_recovery request) in
    _ ← modify (issue transaction);
    mret transaction.

Definition mark_transmitted (now : MonotonicMicros) : transaction ActiveTransaction :=
  self ← get;
  match state self with
  | Transmitting prepared =>
      deadline ← lift (ok_or (monotonic_checked_add now (pt_timeout prepared)) TimeOverflow);
      let active :=
        mkActive (pt_transaction_id prepared) (pt_node_address prepared)
          (pt_request_destination prepared) (pt_service prepared) (pt_request_message prepared)
          (pt_response_message prepared) deadline (pt_timeout_recovery prepared) in
      _ ← modify (set_state (Awaiting active));
      mret active
  | _ => throw NotTransmitting
  end.

(** [match self.mark_transmitted(now) { Ok(a) => Ok(a), Err(e) => { self.state = Idle; Err(e) } }]. *)
Definition idle_on_error {A : Type} (m : transaction A) : transaction A := fun self =>
  match m self with
  | (Err e, self) => (Err e, set_state Idle self)
  | r => r
  end.

Definition begin (now : MonotonicMicros) (request : RequestSpec) : transaction ActiveTransaction :=
  _ ← prepare request;
  idle_on_error (mark_transmitted now).

Definition cancel_transmit : transaction unit :=
  self ← get;
  match state self with
  | Transmitting _ => modify (set_state Idle)
  | _ => throw NotTransmitting
  end.

Definition enter_quarantine (expired : ActiveTransaction) : transaction MonotonicMicros :=
  self ← get;
  until ← lift (ok_or (monotonic_checked_add (at_deadline expired) (quarantine_duration self))
                  TimeOverflow);
  _ ← modify (set_state (Quarantine expired until));
  mret until.

Definition receive (now : MonotonicMicros) (frame : Frame) : transaction ResponseDisposition :=
  self ← get;
  match state self with
  | Idle => mret Unsolicited
  | Transmitting _ => mret Unrelated
  | Awaiting active =>
      if now <=? at_deadline active then
        if active_matches active frame then _ ← modify (set_state Idle); mret Accepted
        else mret Unrelated
      else
        _ ← enter_quarantine active;
        mret (if active_matches active frame then Late else Unrelated)
  | Quarantine expired _ => mret (if active_matches expired frame then Late else Unrelated)
  end.

Definition on_timer (now : MonotonicMicros) : transaction TimerEvent :=
  self ← get;
  match state self with
  | Idle => mret TimerNone
  | Transmitting _ => mret TimerNone
  | Awaiting active =>
      if now <=? at_deadline active then mret TimerNone
      else
        quarantine_until ← enter_quarantine active;
        mret (TimedOut (at_transaction_id active) (at_timeout_recovery active) quarantine_until)
  | Quarantine _ until =>
      if now <? until then mret TimerNone
      else _ ← modify (set_state Idle); mret QuarantineEnded
  end.

(** ** Histories of calls *)

Inductive TransactionCall :=
| CallBegin (now : MonotonicMicros) (request : RequestSpec)
| CallPrepare (request : RequestSpec)
| CallPrepareRouted (request : RoutedRequestSpec)
| CallMarkTransmitted (now : MonotonicMicros)
| CallCancelTransmit
| CallReceive (now : MonotonicMicros) (frame : Frame)
| CallOnTimer (now : MonotonicMicros).

(** What a call did on the channel: a request went out, a response completed it. *)
Inductive ExchangeEvent :=
| Sent (active : ActiveTransaction)
| Completed (now : MonotonicMicros) (frame : Frame).

Definition call_step (c : TransactionCall) (self : TransactionCore)
    : list ExchangeEvent * TransactionCore :=
  match c with
  | CallBegin now request =>
      match begin now request self with
      | (Ok active, self) => ([Sent active], self)
      | (_, self) => ([], self)
      end
  | CallPrepare request => ([], snd (prepare request self))
  | CallPrepareRouted request => ([], snd (prepare_routed request self))
  | CallMarkTransmitted now =>
      match mark_transmitted now self with
      | (Ok active, self) => ([Sent active], self)
      | (_, self) => ([], self)
      end
  | CallCancelTransmit => ([], snd (cancel_transmit self))
  | CallReceive now frame =>
      match receive now frame self with
      | (Ok Accepted, self) => ([Completed now frame], self)
      | (_, self) => ([], self)
      end
  | CallOnTimer now => ([], snd (on_timer now self))
  end.

Fixpoint call_run (cs : list TransactionCall) (self : TransactionCore)
    : list ExchangeEvent * TransactionCore :=
  match cs with
  | [] => ([], self)
  | c :: cs =>
      let '(l, self) := call_step c self in
      let '(ls, self) := call_run cs self in
      (l ++ ls, self)
  end.

Definition sent (l : list ExchangeEvent) : list ActiveTransaction :=
  omap (fun e => match e with Sent a => Some a | _ => None end) l.

Definition completed (l : list ExchangeEvent) : list (MonotonicMicros * Frame) :=
  omap (fun e => match e with Completed t f => Some (t, f) | _ => None end) l.

(** [l] alternates: nothing goes out while a request is open unless the open
    one was given up, and a response only completes the request sent last. *)
Fixpoint exchanges (open : option ActiveTransaction) (l : list ExchangeEvent) : Prop :=
  match l with
  | [] => True
  | Sent a :: l => exchanges (Some a) l
  | Completed t f :: l =>
      match open with
      | Some a => active_matches a f = true /\ t <= at_deadline a /\ exchanges None l
      | None => False
      end
  end.

(** The transaction ids of the requests of a history that starts at id [n]. *)
Definition nth_id (seed : Z) (k : Z) : Z := (seed + k) mod 2 ^ 32.

(** [ids] are the [nth_id] of increasing indices of [[lo, hi)]. *)
Fixpoint fresh_ids (seed lo hi : Z) (ids : list Z) : Prop :=
  match ids with
  | [] => True
  | id :: ids => exists k, lo <= k < hi /\ id = nth_id seed k /\ fresh_ids seed (k + 1) hi ids
  end.

(** The calls that take the next transaction id; each takes at most one. *)
Definition takes_id (c : TransactionCall) : Z :=
  match c with CallBegin _ _ | CallPrepare _ | CallPrepareRouted _ => 1 | _ => 0 end.

Fixpoint ids_taken (cs : list TransactionCall) : Z :=
  match cs with [] => 0 | c :: cs => takes_id c + ids_taken cs end.

(** ** Proofs *)

Ltac unfold_transaction H :=
  unfold begin, prepare, prepare_routed, idle_on_error, mark_transmitted, cancel_transmit, receive,
    on_timer, enter_quarantine, monotonic_checked_add, set_state, issue, is_idle in H.

Definition outstanding (self : TransactionCore) : option ActiveTransaction :=
  match state self with Awaiting a => Some a | _ => None end.

(** How many ids at the front of the range may still be sent. *)
Definition prepared_count (self : TransactionCore) : Z :=
  match state self with Transmitting _ => 1 | _ => 0 end.

(** After [m] issued ids. *)
Definition ids_wf (seed m : Z) (self : TransactionCore) : Prop :=
  next_transaction_id self = nth_id seed m /\
  match state self with Transmitting p => pt_transaction_id p = nth_id seed (m - 1) | _ => True end.

Lemma nth_id_succ (seed m : Z) : wrapping_add 32 (nth_id seed m) 1 = nth_id seed (m + 1).
Proof.
  unfold wrapping_add, nth_id. rewrite Zplus_mod_idemp_l. f_equal. lia.
Qed.

Lemma nth_id_inj (seed i j : Z) : nth_id seed i = nth_id seed j -> Z.abs (i - j) < 2 ^ 32 -> i = j.
Proof. unfold nth_id. intros H Hb. dlia. Qed.

Lemma exchanges_weaken (o : option ActiveTransaction) (l : list ExchangeEvent) :
  exchanges None l -> exchanges o l.
Proof. by destruct l as [|[a|t f] l]. Qed.

Lemma fresh_ids_weaken (seed lo lo' hi hi' : Z) (ids : list Z) :
  lo' <= lo -> hi <= hi' -> fresh_ids seed lo hi ids -> fresh_ids seed lo' hi' ids.
Proof.
  revert lo lo'. induction ids as [|id ids IH]; intros lo lo' Hlo Hhi; [done|].
  intros (k & Hk & -> & Hf). exists k. split_and!; [lia|lia|done|]. eapply IH, Hf; lia.
Qed.

Lemma fresh_ids_NoDup (seed lo hi : Z) (ids : list Z) :
  hi - lo <= 2 ^ 32 -> fresh_ids seed lo hi ids -> NoDup ids.
Proof.
  revert lo. induction ids as [|id ids IH]; intros lo Hb; [constructor|].
  intros (k & Hk & -> & Hf). constructor; [|apply (IH (k + 1)); [lia|done]].
  assert (Hlt : forall lo ids, k < lo -> hi - k <= 2 ^ 32 -> fresh_ids seed lo hi ids -> nth_id seed k ∉ ids).
  { clear. intros lo ids. revert lo. induction ids as [|id ids IH]; intros lo; [by intros _ _ _ ?%elem_of_nil|].
    intros Hlo Hb (j & Hj & -> & Hf) [He|Hin]%elem_of_cons.
    - apply nth_id_inj in He; lia.
    - apply (IH (j + 1)) in Hin; [done|lia|lia|done]. }
  apply (Hlt (k + 1)); [lia|lia|done].
Qed.

(** One call, seen from the channel and from the id counter. *)
Lemma call_step_sound (seed m : Z) (c : TransactionCall) (self self' : TransactionCore) l :
  call_step c self = (l, self') -> ids_wf seed m self ->
  (forall rest, exchanges (outstanding self') rest -> exchanges (outstanding self) (l ++ rest)) /\
  exists m', m <= m' <= m + takes_id c /\ ids_wf seed m' self' /\
    forall hi rest, m' <= hi -> fresh_ids seed (m' - prepared_count self') hi rest ->
      fresh_ids seed (m - prepared_count self) hi ((at_transaction_id <$> sent l) ++ rest).
Proof.
  intros Hs Hi. destruct self as [n q s]. unfold ids_wf in Hi. cbn [next_transaction_id state] in Hi.
  destruct Hi as (Hn & Hp).
  destruct c; cbn [call_step] in Hs; unfold_transaction Hs; destruct s; st_run Hs;
    cbn [state next_transaction_id quarantine_duration] in *; st_run Hs.
  all: simplify_eq.
  all: unfold ids_wf, outstanding, prepared_count, sent, takes_id;
    cbn [state next_transaction_id app omap list_omap fmap list_fmap exchanges at_transaction_id].
  all: split; [intros rest Hr; try done; auto using exchanges_weaken|].
  all: try (exists m; split_and!; [lia|lia|done|done|intros hi rest Hh Hr]).
  all: try (exists (m + 1); split_and!; [lia|lia|by rewrite Hn, nth_id_succ| |intros hi rest Hh Hr]).
  all: cbn [pt_transaction_id] in *; try done; try (eapply fresh_ids_weaken, Hr; lia).
  all: try (exists (m + 1); split_and!; [lia|lia|by rewrite nth_id_succ|f_equal; lia|]).
  all: try (exists (m + 1); split_and!; [lia|lia|by rewrite nth_id_succ|done|]).
  all: try (intros hi rest Hh Hr; eapply fresh_ids_weaken, Hr; lia).
  - intros hi rest Hh Hr. exists m. split_and!; [lia|lia|done|].
    eapply fresh_ids_weaken, Hr; lia.
  - exists (m - 1). split_and!; [lia|lia|done|]. eapply fresh_ids_weaken, Hr; lia.
Qed.

Lemma ids_taken_nonneg (cs : list TransactionCall) : 0 <= ids_taken cs.
Proof. induction cs as [|[] cs IH]; cbn; lia. Qed.

Lemma call_run_sound (seed m : Z) (cs : list TransactionCall) (self : TransactionCore) :
  ids_wf seed m self ->
  exchanges (outstanding self) (fst (call_run cs self)) /\
  fresh_ids seed (m - prepared_count self) (m + ids_taken cs)
    (at_transaction_id <$> sent (fst (call_run cs self))).
Proof.
  revert m self. induction cs as [|c cs IH]; intros m self Hi; [done|]. cbn [call_run ids_taken].
  destruct (call_step c self) as [l self1] eqn:Hs.
  destruct (call_step_sound seed m c self self1 l Hs Hi) as (He & m1 & Hm & Hi1 & Hf).
  pose proof (ids_taken_nonneg cs). specialize (IH m1 self1 Hi1). destruct (call_run cs self1) as [ls self2]. destruct IH as (He1 & Hf1).
  cbn [fst] in *. split; [auto|].
  unfold sent. rewrite omap_app, fmap_app. apply Hf; [lia|].
  eapply fresh_ids_weaken, Hf1; lia.
Qed.

(** C25. Responses are correlated: in every history of calls on a fresh
    transaction core, whatever the times, requests and frames, a response is
    accepted only for the request sent last, before its deadline, with matching
    role, addresses, service, message and transaction id, and at most once per
    request. As long as at most [2^32] requests are begun or prepared
    (a prepared request that [cancel_transmit] drops has used up its id too),
    the requests sent carry pairwise different transaction ids, across the wrap
    of the 32-bit counter, so no frame that answered one of them can complete a
    later one. *)
Theorem responses_correlated (seed : Z) (q : DurationMicros) (cs : list TransactionCall) :
  u32 seed ->
  let l := fst (call_run cs (transaction_new seed q)) in
  exchanges None l /\
  (ids_taken cs <= 2 ^ 32 -> NoDup (at_transaction_id <$> sent l)).
Proof.
  intros Hseed l. destruct (call_run_sound seed 0 cs (transaction_new seed q)) as (He & Hf).
  { split; [|done]. unfold nth_id. cbn [next_transaction_id transaction_new].
    rewrite Z.add_0_r, Z.mod_small; auto. }
  split; [exact He|]. intros Hn. eapply fresh_ids_NoDup, Hf. cbn. lia.
Qed.

(** ** Timers *)

(** A call that does not report a time at or after [t] to [on_timer]. *)
Definition timer_before (t : MonotonicMicros) (c : TransactionCall) : Prop :=
  match c with CallOnTimer now => now < t | _ => True end.

Lemma quarantine_step (c : TransactionCall) (n q until : Z) (a : ActiveTransaction) :
  timer_before until c ->
  call_step c (mkTransactionCore n q (Quarantine a until)) =
    ([], mkTransactionCore n q (Quarantine a until)).
Proof.
  intros Hb. destruct (call_step _ _) as [l self] eqn:Hs.
  destruct c; cbn [call_step timer_before] in *; unfold_transaction Hs; st_run Hs;
    cbn [state] in *; simplify_eq; try done; lia.
Qed.

(** C26. A missing response occupies the channel for exactly the timeout and
    the quarantine: once the deadline passed, the timer reports the timeout
    with the request's recovery class; until [deadline + quarantine] nothing,
    no frame and no new request, changes the state or completes anything, and
    the first timer call from then on frees the channel. *)
Theorem expired_exchange_quarantined (n q t t' : Z) (a : ActiveTransaction)
    (cs : list TransactionCall) :
  let until := at_deadline a + q in
  let expired := mkTransactionCore n q (Quarantine a until) in
  until < 2 ^ 64 -> at_deadline a < t ->
  Forall (timer_before until) cs -> until <= t' ->
  on_timer t (mkTransactionCore n q (Awaiting a))
    = (Ok (TimedOut (at_transaction_id a) (at_timeout_recovery a) until), expired) /\
  call_run cs expired = ([], expired) /\
  on_timer t' expired = (Ok QuarantineEnded, transaction_new n q).
Proof.
  intros til expired Hu Ht Hcs Ht'. split; [|split].
  - unfold on_timer, enter_quarantine, monotonic_checked_add. st_eval. cbn [state quarantine_duration].
    by rewrite (proj2 (Z.leb_gt _ _) Ht), checked_add_ok.
  - induction Hcs as [|c cs Hc _ IH]; [done|]. cbn [call_run].
    unfold expired at 1. rewrite quarantine_step by done. fold expired. by rewrite IH.
  - unfold on_timer, expired. st_eval. cbn [state].
    by rewrite (proj2 (Z.ltb_ge _ _) Ht').
Qed.

(** ** Witnesses *)

Definition sample_request : RequestSpec := mkRequestSpec 7 2 1 1 1000 RetrySafe.
Definition sample_response (id : Z) : Frame :=
  mkFrame Response HOST_ADDRESS 7 2 1 id (zeros MAX_PAYLOAD_BYTES) 0.
Definition sample_active (id deadline : Z) : ActiveTransaction :=
  mkActive id 7 7 2 1 1 deadline RetrySafe.

(** Seed [u32::MAX]: an accepted answer, then a timeout whose late answer is discarded. *)
Definition sample_history : list TransactionCall :=
  [CallBegin 100 sample_request; CallReceive 150 (sample_response 4294967295);
   CallBegin 200 sample_request; CallReceive 250 (sample_response 4294967295);
   CallOnTimer 1201; CallReceive 1300 (sample_response 0); CallBegin 1400 sample_request;
   CallOnTimer 1700; CallPrepare sample_request; CallMarkTransmitted 1800;
   CallReceive 1900 (sample_response 1)].

Lemma responses_correlated_witness :
  let l := fst (call_run sample_history (transaction_new 4294967295 500)) in
  l = [Sent (sample_active 4294967295 1100); Completed 150 (sample_response 4294967295);
       Sent (sample_active 0 1200);
       Sent (sample_active 1 2800); Completed 1900 (sample_response 1)] /\
  exchanges None l /\ NoDup (at_transaction_id <$> sent l).
Proof.
  destruct (responses_correlated 4294967295 500 sample_history) as (He & Hn); [ilia|].
  split; [vm_compute; reflexivity|]. split; [exact He|]. apply Hn. cbn. lia.
Defined.

Lemma expired_exchange_quarantined_witness :
  call_run [CallReceive 1300 (sample_response 0); CallBegin 1400 sample_request; CallOnTimer 1699]
    (mkTransactionCore 1 500 (Quarantine (sample_active 0 1200) 1700))
  = ([], mkTransactionCore 1 500 (Quarantine (sample_active 0 1200) 1700)).
Proof.
  apply (expired_exchange_quarantined 1 500 1201 1700 (sample_active 0 1200)
    [CallReceive 1300 (sample_response 0); CallBegin 1400 sample_request; CallOnTimer 1699]).
  - cbn. lia.
  - cbn. lia.
  - repeat constructor; cbn; lia.
  - cbn. lia.
Defined.
