(* ===== verification/NodeSession.v ===== *)
(** * The delivery session of one node (crates/sensor-host/src/node_session.rs)

    The session requests samples from the received cursor on, validates the
    node's evidence, hands each accepted record to storage and moves the durable
    cursor only when the storage receipt comes back. Every operation threads the
    session through each outcome, errors included. *)

From S2P Require Export Core Measurement MeasurementWire.

Record DurableReceipt := mkReceipt {
  receipt_hardware_id : HardwareId;
  receipt_boot_epoch : BootEpoch;
  receipt_end : SequenceCursor
}.

#[export] Instance DurableReceipt_eq_dec : EqDecision DurableReceipt.
Proof. solve_decision. Defined.

Inductive SessionPhase :=
| Ready
| AwaitingPull
| PersistingChunk
| PersistingGap
| PersistingContinuityBreak
| RecoveryRequired.

#[export] Instance SessionPhase_eq_dec : EqDecision SessionPhase.
Proof. solve_decision. Defined.

Inductive PendingChunk :=
| Legacy (header : SampleChunkHeader) (samples : list SampleAxes)
| Wire (chunk : SampleChunk).

Inductive PendingPersistence :=
| PChunk (hardware_id : HardwareId) (chunk : SampleChunk)
| PGap (gap : Gap)
| PContinuityBreak (observed : ContinuityBreak).

#[export] Instance PendingChunk_eq_dec : EqDecision PendingChunk.
Proof. solve_decision. Defined.
#[export] Instance PendingPersistence_eq_dec : EqDecision PendingPersistence.
Proof. solve_decision. Defined.

Inductive SessionError :=
| UnexpectedPhase
| MissingPending
| SessionSampleCountMismatch
| UnexpectedNoData
| UnexpectedRangeUnavailable
| SessionStreamChanged
| ReceiptIdentityMismatch
| ReceiptCursorMismatch
| NonWirePending
| PendingAlreadyHandedOff
| SessionCursor (error : CursorError)
| SessionContract (error : MeasurementContractError)
| SessionWire (error : MeasurementWireError)
| SessionGap (error : GapError)
| SessionBreak (error : ContinuityBreakError).

(** [PendingPersistence::receipt]: its additions are unchecked. *)
Definition persistence_receipt (self : PendingPersistence) : outcome SessionError DurableReceipt :=
  match self with
  | PChunk hardware_id chunk =>
      e ← add 64 (chunk_first (header chunk)) (chunk_sample_count (header chunk));
      Ok (mkReceipt hardware_id (chunk_boot_epoch (header chunk)) e)
  | PGap gap =>
      e ← add 64 (first_missing gap) (missing_count gap);
      Ok (mkReceipt (gap_hardware_id gap) (gap_boot_epoch gap) e)
  | PContinuityBreak observed =>
      e ← break_end observed;
      Ok (mkReceipt (break_hardware_id observed) (break_boot_epoch observed) e)
  end.

Definition pending_chunk_samples (self : PendingChunk) : list SampleAxes :=
  match self with
  | Legacy _ samples => samples
  | Wire chunk => samples chunk
  end.

Record NodeSession := mkSession {
  ns_hardware_id : HardwareId;
  ns_boot_epoch : BootEpoch;
  ns_cursors : DeliveryCursors;
  ns_phase : SessionPhase;
  ns_active_pull : option PullSamplesRequest;
  ns_pending_chunk : option PendingChunk;
  ns_pending_gap : option Gap;
  ns_pending_continuity_break : option ContinuityBreak;
  ns_pending_receipt : option DurableReceipt
}.

#[export] Instance NodeSession_eq_dec : EqDecision NodeSession.
Proof. solve_decision. Defined.

Abbreviation session := (st NodeSession SessionError).

(** Assignments to one field of [self]. *)
Definition set_cursors (x : DeliveryCursors) (s : NodeSession) : NodeSession :=
  mkSession (ns_hardware_id s) (ns_boot_epoch s) x (ns_phase s) (ns_active_pull s)
    (ns_pending_chunk s) (ns_pending_gap s) (ns_pending_continuity_break s) (ns_pending_receipt s).
Definition set_phase (x : SessionPhase) (s : NodeSession) : NodeSession :=
  mkSession (ns_hardware_id s) (ns_boot_epoch s) (ns_cursors s) x (ns_active_pull s)
    (ns_pending_chunk s) (ns_pending_gap s) (ns_pending_continuity_break s) (ns_pending_receipt s).
Definition set_active_pull (x : option PullSamplesRequest) (s : NodeSession) : NodeSession :=
  mkSession (ns_hardware_id s) (ns_boot_epoch s) (ns_cursors s) (ns_phase s) x
    (ns_pending_chunk s) (ns_pending_gap s) (ns_pending_continuity_break s) (ns_pending_receipt s).
Definition set_pending_chunk (x : option PendingChunk) (s : NodeSession) : NodeSession :=
  mkSession (ns_hardware_id s) (ns_boot_epoch s) (ns_cursors s) (ns_phase s) (ns_active_pull s)
    x (ns_pending_gap s) (ns_pending_continuity_break s) (ns_pending_receipt s).
Definition set_pending_gap (x : option Gap) (s : NodeSession) : NodeSession :=
  mkSession (ns_hardware_id s) (ns_boot_epoch s) (ns_cursors s) (ns_phase s) (ns_active_pull s)
    (ns_pending_chunk s) x (ns_pending_continuity_break s) (ns_pending_receipt s).
Definition set_pending_break (x : option ContinuityBreak) (s : NodeSession) : NodeSession :=
  mkSession (ns_hardware_id s) (ns_boot_epoch s) (ns_cursors s) (ns_phase s) (ns_active_pull s)
    (ns_pending_chunk s) (ns_pending_gap s) x (ns_pending_receipt s).
Definition set_pending_receipt (x : option DurableReceipt) (s : NodeSession) : NodeSession :=
  mkSession (ns_hardware_id s) (ns_boot_epoch s) (ns_cursors s) (ns_phase s) (ns_active_pull s)
    (ns_pending_chunk s) (ns_pending_gap s) (ns_pending_continuity_break s) x.

(** A call on [self.cursors], with [From<CursorError>]. *)
Definition on_cursors {A : Type} (m : st DeliveryCursors CursorError A) : session A :=
  zoom ns_cursors set_cursors SessionCursor m.

Definition recovered (hardware_id : HardwareId) (boot_epoch : BootEpoch)
    (durable released : SequenceCursor) : outcome SessionError NodeSession :=
  cursors ← map_err SessionCursor (cursors_new durable durable released);
  Ok (mkSession hardware_id boot_epoch cursors Ready None None None None None).

Definition require_phase (expected : SessionPhase) : session unit :=
  phase ← gets ns_phase;
  if bool_decide (phase = expected) then mret tt else throw UnexpectedPhase.

Definition active_pull : session PullSamplesRequest :=
  _ ← require_phase AwaitingPull;
  active ← gets ns_active_pull;
  lift (ok_or active MissingPending).

Definition enter_recovery {A : Type} (error : SessionError) : session A :=
  _ ← modify (set_active_pull None);
  _ ← modify (set_phase RecoveryRequired);
  throw error.

(** [match v { Ok(x) => x, Err(e) => return self.enter_recovery(Contract(e)) }]. *)
Definition or_recover {A : Type} (v : contract A) : session A :=
  match v with
  | Ok x => mret x
  | Err error => enter_recovery (SessionContract error)
  | Panic => lift Panic
  end.

(** The assignments to the phase come before the error is returned; [active_pull] stays. *)
Definition validate_state_for_active_stream (state : StreamState) : session StreamState :=
  state ← lift (map_err SessionContract (stream_state_validate state));
  boot_epoch ← gets ns_boot_epoch;
  if negb (ss_boot_epoch state =? boot_epoch) then
    _ ← modify (set_phase RecoveryRequired);
    throw SessionStreamChanged
  else mret state.

Definition begin_pull (max_samples : Z) : session PullSamplesRequest :=
  _ ← require_phase Ready;
  self ← get;
  request ← lift (map_err SessionContract
    (pull_request_new (ns_boot_epoch self) (received (ns_cursors self)) (durable (ns_cursors self))
       max_samples));
  _ ← modify (set_active_pull (Some request));
  _ ← modify (set_phase AwaitingPull);
  mret request.

Definition abandon_pull_for_retry : session unit :=
  _ ← require_phase AwaitingPull;
  _ ← modify (set_active_pull None);
  modify (set_phase Ready).

Definition accept_chunk (header : SampleChunkHeader) (samples : list SampleAxes) : session unit :=
  request ← active_pull;
  header ← or_recover (chunk_validate_for header request);
  if negb (Z.of_nat (length samples) =? chunk_sample_count header)
  then enter_recovery SessionSampleCountMismatch
  else
    _ ← modify (set_active_pull None);
    _ ← on_cursors (mark_released (pull_release_before request));
    _ ← on_cursors (accept_contiguous (chunk_first header) (chunk_sample_count header));
    _ ← modify (set_pending_chunk (Some (Legacy header samples)));
    e ← lift (map_err SessionContract (chunk_end header));
    self ← get;
    _ ← modify (set_pending_receipt (Some (mkReceipt (ns_hardware_id self) (ns_boot_epoch self) e)));
    modify (set_phase PersistingChunk).

Definition accept_wire_chunk (chunk : SampleChunk) : session unit :=
  _ ← lift (map_err SessionWire (sample_chunk_validate chunk));
  request ← active_pull;
  header ← or_recover (chunk_validate_for (header chunk) request);
  if negb (Z.of_nat (length (samples chunk)) =? chunk_sample_count header)
  then enter_recovery SessionSampleCountMismatch
  else
    _ ← modify (set_active_pull None);
    _ ← on_cursors (mark_released (pull_release_before request));
    _ ← on_cursors (accept_contiguous (chunk_first header) (chunk_sample_count header));
    e ← lift (map_err SessionContract (chunk_end header));
    self ← get;
    _ ← modify (set_pending_receipt (Some (mkReceipt (ns_hardware_id self) (ns_boot_epoch self) e)));
    _ ← modify (set_pending_chunk (Some (Wire chunk)));
    modify (set_phase PersistingChunk).

Definition accept_no_data (state : StreamState) : session unit :=
  request ← active_pull;
  state ← validate_state_for_active_stream state;
  if negb (pull_from request =? ss_produced state) then enter_recovery UnexpectedNoData
  else
    _ ← modify (set_active_pull None);
    _ ← on_cursors (mark_released (pull_release_before request));
    modify (set_phase Ready).

Definition accept_range_unavailable (state : StreamState) : session Gap :=
  request ← active_pull;
  state ← validate_state_for_active_stream state;
  if ss_retained_from state <=? pull_from request then enter_recovery UnexpectedRangeUnavailable
  else
    _ ← modify (set_active_pull None);
    _ ← on_cursors (mark_released (pull_release_before request));
    missing_count' ← lift (sub (ss_retained_from state) (pull_from request));
    self ← get;
    gap ← lift (map_err SessionGap
      (gap_new (ns_hardware_id self) (ns_boot_epoch self) (pull_from request) missing_count'
         JournalOverflow));
    _ ← on_cursors (account_gap (first_missing gap) (missing_count gap));
    _ ← modify (set_pending_gap (Some gap));
    e ← lift (add 64 (first_missing gap) (missing_count gap));
    _ ← modify (set_pending_receipt (Some (mkReceipt (gap_hardware_id gap) (gap_boot_epoch gap) e)));
    _ ← modify (set_phase PersistingGap);
    mret gap.

Definition accept_gap (evidence : GapEvidence) : session Gap :=
  request ← active_pull;
  evidence ← or_recover (gap_evidence_validate_for evidence request);
  _ ← modify (set_active_pull None);
  _ ← on_cursors (mark_released (pull_release_before request));
  self ← get;
  gap ← lift (map_err SessionGap
    (gap_new (ns_hardware_id self) (ns_boot_epoch self) (ge_first_missing evidence)
       (ge_missing_count evidence) (ge_reason evidence)));
  _ ← on_cursors (account_gap (first_missing gap) (missing_count gap));
  _ ← modify (set_pending_gap (Some gap));
  e ← lift (add 64 (first_missing gap) (missing_count gap));
  _ ← modify (set_pending_receipt (Some (mkReceipt (gap_hardware_id gap) (gap_boot_epoch gap) e)));
  _ ← modify (set_phase PersistingGap);
  mret gap.

Definition accept_continuity_break (evidence : ContinuityBreakEvidence) : session ContinuityBreak :=
  request ← active_pull;
  evidence ← or_recover (break_evidence_validate_for evidence request);
  _ ← modify (set_active_pull None);
  _ ← on_cursors (mark_released (pull_release_before request));
  self ← get;
  observed ← lift (map_err SessionBreak
    (continuity_break_new (ns_hardware_id self) (ns_boot_epoch self) (be_at evidence)
       (be_reason evidence)));
  _ ← on_cursors (account_continuity_break (break_at observed));
  _ ← modify (set_pending_break (Some observed));
  e ← lift (break_end observed);
  _ ← modify (set_pending_receipt
    (Some (mkReceipt (break_hardware_id observed) (break_boot_epoch observed) e)));
  _ ← modify (set_phase PersistingContinuityBreak);
  mret observed.

Definition stream_changed : session unit :=
  _ ← require_phase AwaitingPull;
  _ ← modify (set_active_pull None);
  modify (set_phase RecoveryRequired).

Definition invalid_release (state : StreamState) : session unit :=
  _ ← active_pull;
  _ ← validate_state_for_active_stream state;
  _ ← modify (set_active_pull None);
  modify (set_phase RecoveryRequired).

Definition fail_pull_for_recovery : session unit :=
  _ ← require_phase AwaitingPull;
  _ ← modify (set_active_pull None);
  modify (set_phase RecoveryRequired).

(** [pending_samples], [pending_wire_chunk]. *)
Definition pending_samples (self : NodeSession) : option (list SampleAxes) :=
  pending_chunk_samples <$> ns_pending_chunk self.

Definition pending_wire_chunk (self : NodeSession) : option SampleChunk :=
  match ns_pending_chunk self with
  | Some (Wire chunk) => Some chunk
  | _ => None
  end.

Definition take_pending_persistence : session PendingPersistence :=
  self ← get;
  record ←
    match ns_phase self with
    | PersistingChunk =>
        _ ← modify (set_pending_chunk None);
        match ns_pending_chunk self with
        | Some (Wire chunk) => mret (PChunk (ns_hardware_id self) chunk)
        | Some (Legacy h s) =>
            _ ← modify (set_pending_chunk (Some (Legacy h s)));
            throw NonWirePending
        | None => throw PendingAlreadyHandedOff
        end
    | PersistingGap =>
        _ ← modify (set_pending_gap None);
        gap ← lift (ok_or (ns_pending_gap self) PendingAlreadyHandedOff);
        mret (PGap gap)
    | PersistingContinuityBreak =>
        _ ← modify (set_pending_break None);
        observed ← lift (ok_or (ns_pending_continuity_break self) PendingAlreadyHandedOff);
        mret (PContinuityBreak observed)
    | _ => throw UnexpectedPhase
    end;
  receipt ← lift (persistence_receipt record);
  self ← get;
  if negb (bool_decide (Some receipt = ns_pending_receipt self)) then throw ReceiptCursorMismatch
  else mret record.

Definition confirm_durable (receipt : DurableReceipt) : session unit :=
  self ← get;
  if negb (bool_decide (receipt_hardware_id receipt = ns_hardware_id self))
     || negb (receipt_boot_epoch receipt =? ns_boot_epoch self)
  then throw ReceiptIdentityMismatch
  else
    match ns_phase self with
    | PersistingChunk | PersistingGap | PersistingContinuityBreak =>
        if negb (bool_decide (ns_pending_receipt self = Some receipt)) then throw ReceiptCursorMismatch
        else
          _ ← on_cursors (mark_durable (receipt_end receipt));
          _ ← modify (set_pending_chunk None);
          _ ← modify (set_pending_gap None);
          _ ← modify (set_pending_break None);
          _ ← modify (set_pending_receipt None);
          modify (set_phase Ready)
    | _ => throw UnexpectedPhase
    end.

(** ** The delivery contract

    What a history of calls shows to the node and to storage. *)

(** The answers of a node that account for sequences, as the calls get them. *)
Inductive NodeAnswer :=
| AnsweredSamples (header : SampleChunkHeader) (samples : list SampleAxes)
| AnsweredChunk (chunk : SampleChunk)
| AnsweredUnavailable (state : StreamState)
| AnsweredGap (evidence : GapEvidence)
| AnsweredBreak (evidence : ContinuityBreakEvidence).

(** What a call tells its caller about the evidence it accepted. *)
Inductive Report := Silent | SampleCount (count : Z) | Account (record : PendingPersistence).

Inductive DeliveryEvent :=
| Requested (request : PullSamplesRequest)
| Evidence (answer : NodeAnswer) (report : Report)
| Handed (record : PendingPersistence)
| Confirmed (receipt : DurableReceipt).

Definition record_first (record : PendingPersistence) : SequenceCursor :=
  match record with
  | PChunk _ chunk => chunk_first (header chunk)
  | PGap gap => first_missing gap
  | PContinuityBreak observed => break_at observed
  end.

(** A record storage can encode: its validators accept it. *)
Definition record_valid (record : PendingPersistence) : Prop :=
  match record with
  | PChunk hardware_id chunk =>
      hardware_id_typed hardware_id /\ typed chunk /\ sample_chunk_validate chunk = Ok tt
  | PGap gap => gap_valid gap
  | PContinuityBreak observed => break_valid observed
  end.

(** The sequences an answer accounts for, for a stream that is durable up to [d]. *)
Definition answer_range (d : Z) (answer : NodeAnswer) : Z * Z :=
  match answer with
  | AnsweredSamples h _ => (chunk_first h, chunk_sample_count h)
  | AnsweredChunk chunk => (chunk_first (header chunk), chunk_sample_count (header chunk))
  | AnsweredUnavailable state => (d, ss_retained_from state - d)
  | AnsweredGap evidence => (ge_first_missing evidence, ge_missing_count evidence)
  | AnsweredBreak evidence => (be_at evidence, 1)
  end.

(** The record an answer becomes, content included; samples without their wire
    chunk have none. *)
Definition answer_record (hw : HardwareId) (d : Z) (answer : NodeAnswer) : option PendingPersistence :=
  match answer with
  | AnsweredSamples _ _ => None
  | AnsweredChunk chunk => Some (PChunk hw chunk)
  | AnsweredUnavailable state =>
      Some (PGap (mkGap hw (ss_boot_epoch state) d (ss_retained_from state - d) JournalOverflow))
  | AnsweredGap evidence =>
      Some (PGap (mkGap hw (ge_boot_epoch evidence) (ge_first_missing evidence) (ge_missing_count evidence)
                    (ge_reason evidence)))
  | AnsweredBreak evidence =>
      Some (PContinuityBreak (mkBreak hw (be_boot_epoch evidence) (be_at evidence) (be_reason evidence)))
  end.

Definition report_right (record : option PendingPersistence) (count : Z) (report : Report) : Prop :=
  match report with
  | Silent => True
  | SampleCount n => n = count
  | Account told => record = Some told
  end.

(** The abstract delivery of one stream: the durable cursor [d], and the open
    range of the evidence under persistence, with the record that storage has
    not taken yet. *)
Fixpoint delivers (hw : HardwareId) (e d : Z) (open : option (Z * option PendingPersistence))
    (log : list DeliveryEvent) : Prop :=
  match log with
  | [] => True
  | Requested r :: log =>
      open = None /\ r = mkPull e d d (pull_max_samples r) /\ delivers hw e d None log
  | Evidence answer report :: log =>
      let '(f, n) := answer_range d answer in
      open = None /\ f = d /\ 0 < n /\ d + n < 2 ^ 64 /\
      report_right (answer_record hw d answer) n report /\
      delivers hw e d (Some (d + n, answer_record hw d answer)) log
  | Handed p :: log =>
      match open with
      | Some (end_, Some record) =>
          p = record /\ record_first p = d /\ persistence_receipt p = Ok (mkReceipt hw e end_) /\
          record_valid p /\ delivers hw e d (Some (end_, None)) log
      | _ => False
      end
  | Confirmed r :: log =>
      match open with
      | Some (end_, _) => r = mkReceipt hw e end_ /\ delivers hw e end_ None log
      | None => False
      end
  end.

Inductive SessionCall :=
| CallBeginPull (max_samples : Z)
| CallAbandonPullForRetry
| CallAcceptChunk (header : SampleChunkHeader) (samples : list SampleAxes)
| CallAcceptWireChunk (chunk : SampleChunk)
| CallAcceptNoData (state : StreamState)
| CallAcceptRangeUnavailable (state : StreamState)
| CallAcceptGap (evidence : GapEvidence)
| CallAcceptContinuityBreak (evidence : ContinuityBreakEvidence)
| CallStreamChanged
| CallInvalidRelease (state : StreamState)
| CallFailPullForRecovery
| CallTakePendingPersistence
| CallConfirmDurable (receipt : DurableReceipt).

(** The arguments have their Rust types. *)
#[export] Instance SessionCall_typed : Typed SessionCall := fun c =>
  match c with
  | CallBeginPull max_samples => u16 max_samples
  | CallAcceptChunk header samples => typed header
  | CallAcceptWireChunk chunk => typed chunk
  | CallAcceptNoData state | CallAcceptRangeUnavailable state | CallInvalidRelease state => typed state
  | CallAcceptGap evidence => typed evidence
  | CallAcceptContinuityBreak evidence => typed evidence
  | _ => True
  end.

(** The call, and the event of its success. *)
Definition session_call (c : SessionCall) : session (list DeliveryEvent) :=
  match c with
  | CallBeginPull max_samples => r ← begin_pull max_samples; mret [Requested r]
  | CallAbandonPullForRetry => _ ← abandon_pull_for_retry; mret []
  | CallAcceptChunk header samples =>
      _ ← accept_chunk header samples;
      mret [Evidence (AnsweredSamples header samples) Silent]
  | CallAcceptWireChunk chunk =>
      _ ← accept_wire_chunk chunk;
      mret [Evidence (AnsweredChunk chunk) Silent]
  | CallAcceptNoData state => _ ← accept_no_data state; mret []
  | CallAcceptRangeUnavailable state =>
      gap ← accept_range_unavailable state;
      mret [Evidence (AnsweredUnavailable state) (Account (PGap gap))]
  | CallAcceptGap evidence =>
      gap ← accept_gap evidence;
      mret [Evidence (AnsweredGap evidence) (Account (PGap gap))]
  | CallAcceptContinuityBreak evidence =>
      observed ← accept_continuity_break evidence;
      mret [Evidence (AnsweredBreak evidence) (Account (PContinuityBreak observed))]
  | CallStreamChanged => _ ← stream_changed; mret []
  | CallInvalidRelease state => _ ← invalid_release state; mret []
  | CallFailPullForRecovery => _ ← fail_pull_for_recovery; mret []
  | CallTakePendingPersistence => p ← take_pending_persistence; mret [Handed p]
  | CallConfirmDurable receipt => _ ← confirm_durable receipt; mret [Confirmed receipt]
  end.

(** A history: the caller sees each result and goes on. *)
Fixpoint session_run (cs : list SessionCall) (self : NodeSession)
    : list (outcome SessionError (list DeliveryEvent)) * NodeSession :=
  match cs with
  | [] => ([], self)
  | c :: cs =>
      let '(r, self) := session_call c self in
      let '(rs, self) := session_run cs self in
      (r :: rs, self)
  end.

Definition events (rs : list (outcome SessionError (list DeliveryEvent))) : list DeliveryEvent :=
  concat (omap outcome_ok rs).

(** The errors that stand for a broken invariant of the session itself. *)
Definition internal_error (e : SessionError) : bool :=
  match e with
  | MissingPending | SessionCursor _ | SessionGap _ | SessionBreak _ => true
  | _ => false
  end.

Definition expected_result {A : Type} (r : outcome SessionError A) : Prop :=
  match r with
  | Ok _ => True
  | Err e => internal_error e = false
  | Panic => False
  end.

(** ** The session refines the contract *)

Section Refinement.
Context (hw : HardwareId) (e : BootEpoch).
Context (Hhw : hardware_id_typed hw) (He : u64 e).

(** The slots of a session that persists [n] sequences from [d], with the record
    that waits to be taken. *)
Inductive pending_slot (d n : Z)
    : SessionPhase -> option PendingChunk -> option Gap -> option ContinuityBreak ->
      option PendingPersistence -> Prop :=
| slot_wire c :
    record_valid (PChunk hw c) ->
    header c = mkHeader e (chunk_retained_from (header c)) (chunk_produced (header c)) d n ->
    pending_slot d n PersistingChunk (Some (Wire c)) None None (Some (PChunk hw c))
| slot_legacy h s : pending_slot d n PersistingChunk (Some (Legacy h s)) None None None
| slot_gap r :
    gap_valid (mkGap hw e d n r) ->
    pending_slot d n PersistingGap None (Some (mkGap hw e d n r)) None (Some (PGap (mkGap hw e d n r)))
| slot_break r :
    n = 1 -> break_valid (mkBreak hw e d r) ->
    pending_slot d n PersistingContinuityBreak None None (Some (mkBreak hw e d r))
      (Some (PContinuityBreak (mkBreak hw e d r)))
| slot_handed phase :
    phase = PersistingChunk \/ phase = PersistingGap \/ phase = PersistingContinuityBreak ->
    pending_slot d n phase None None None None.

(** The session's state, for a durable cursor and an open range. *)
Inductive session_rel : Z -> option (Z * option PendingPersistence) -> NodeSession -> Prop :=
| rel_ready d rel :
    0 <= rel <= d -> d < 2 ^ 64 ->
    session_rel d None (mkSession hw e (mkCursors d d rel) Ready None None None None None)
| rel_awaiting d rel max :
    0 <= rel <= d -> d < 2 ^ 64 -> u16 max ->
    session_rel d None
      (mkSession hw e (mkCursors d d rel) AwaitingPull (Some (mkPull e d d max)) None None None None)
| rel_persisting d n phase chunk gap brk waiting :
    0 <= d -> 0 < n -> d + n < 2 ^ 64 -> pending_slot d n phase chunk gap brk waiting ->
    session_rel d (Some (d + n, waiting))
      (mkSession hw e (mkCursors (d + n) d d) phase None chunk gap brk
         (Some (mkReceipt hw e (d + n))))
| rel_recovery d rel active :
    0 <= rel <= d -> d < 2 ^ 64 ->
    session_rel d None
      (mkSession hw e (mkCursors d d rel) RecoveryRequired active None None None None).

(** Every state of the relation satisfies the product invariant. *)
Lemma session_rel_cursors (d : Z) open s :
  session_rel d open s ->
  cursors_wf (ns_cursors s) /\ durable (ns_cursors s) = d /\
  received (ns_cursors s) = match open with Some (end_, _) => end_ | None => d end.
Proof. unfold cursors_wf. destruct 1; cbn; split_and!; lia. Qed.

(** A method of the session, with the events its result stands for. *)
Definition refines {A : Type} (m : session A) (g : A -> list DeliveryEvent) : Prop :=
  forall d open s r s',
    session_rel d open s -> m s = (r, s') ->
    expected_result r /\ exists d' open', session_rel d' open' s' /\
      forall rest, delivers hw e d' open' rest ->
        delivers hw e d open (match r with Ok a => g a | _ => [] end ++ rest).

Definition awaiting (d rel max : Z) : NodeSession :=
  mkSession hw e (mkCursors d d rel) AwaitingPull (Some (mkPull e d d max)) None None None None.

(** After the answer to a request was taken. *)
Definition answered (phase : SessionPhase) (d n rel : Z) : NodeSession :=
  mkSession hw e (mkCursors (d + n) d rel) phase None None None None None.

Lemma refines_stay {A : Type} (d : Z) open (s' : NodeSession) (err : SessionError) :
  session_rel d open s' -> internal_error err = false ->
  expected_result (Err err : outcome SessionError A) /\ exists d' open', session_rel d' open' s' /\
    forall rest, delivers hw e d' open' rest -> delivers hw e d open ([] ++ rest).
Proof. intros Hr He'. split; [done|]. exists d, open. auto. Qed.

Lemma active_pull_awaiting {A : Type} (k : PullSamplesRequest -> session A) d open s r s' :
  session_rel d open s -> (active_pull ≫= k) s = (r, s') ->
  (exists rel max, s = awaiting d rel max /\ open = None /\ 0 <= rel <= d /\ d < 2 ^ 64 /\
    u16 max /\ k (mkPull e d d max) s = (r, s')) \/
  (r = Err UnexpectedPhase /\ s' = s).
Proof.
  intros Hrel Hk. destruct Hrel; try (right; unfold active_pull, require_phase in Hk; st_run Hk;
    cbn [ns_phase] in *; simplify_eq; done).
  - left. exists rel, max. auto 10.
  - right. unfold active_pull, require_phase in Hk. st_run Hk; cbn [ns_phase] in *; simplify_eq; try done.
    match goal with Hs : pending_slot _ _ _ _ _ _ _ |- _ => inversion Hs; subst; naive_solver end.
Qed.

Lemma refines_recovery {A : Type} d rel max (err : SessionError) (r : outcome SessionError A) s' :
  enter_recovery err (awaiting d rel max) = (r, s') -> 0 <= rel <= d -> d < 2 ^ 64 ->
  internal_error err = false ->
  expected_result r /\ exists d' open', session_rel d' open' s' /\
    forall f rest, delivers hw e d' open' rest ->
      delivers hw e d None (match r with Ok a => f a | _ => [] end ++ rest).
Proof.
  intros [= <- <-] Hr Hd He'. split; [done|]. exists d, None. split; [|done].
  apply rel_recovery; lia.
Qed.

Lemma refines_evidence {A : Type} (x : A) (answer : NodeAnswer) (report : Report) d n phase chunk gap brk :
  answer_range d answer = (d, n) -> report_right (answer_record hw d answer) n report ->
  0 <= d -> 0 < n -> d + n < 2 ^ 64 -> pending_slot d n phase chunk gap brk (answer_record hw d answer) ->
  expected_result (Ok x : outcome SessionError A) /\ exists d' open',
    session_rel d' open'
      (mkSession hw e (mkCursors (d + n) d d) phase None chunk gap brk
         (Some (mkReceipt hw e (d + n)))) /\
    forall rest, delivers hw e d' open' rest -> delivers hw e d None ([Evidence answer report] ++ rest).
Proof.
  intros Hrange Hreport Hd Hn Hb Hs. split; [done|]. exists d, (Some (d + n, answer_record hw d answer)). split.
  - by apply rel_persisting.
  - intros rest Hr. cbn [app delivers]. rewrite Hrange. auto 10.
Qed.

(** The cursor calls of an accepted answer succeed. *)
Lemma release_durable {A : Type} (k : unit -> session A) d rel phase a c g b r :
  rel <= d ->
  (on_cursors (mark_released d) ≫= k) (mkSession hw e (mkCursors d d rel) phase a c g b r)
  = k tt (mkSession hw e (mkCursors d d d) phase a c g b r).
Proof.
  intros Hd. unfold on_cursors, mark_released. st_eval. cbn [ns_cursors released durable received].
  rewrite (proj2 (Z.ltb_ge _ _) Hd), Z.ltb_irrefl. done.
Qed.

Ltac cursor_call :=
  intros; unfold on_cursors, accept_contiguous, account_gap, account_continuity_break, checked_advance;
  st_eval; cbn [ns_cursors released durable received]; rewrite Z.eqb_refl, checked_add_ok by lia;
  repeat match goal with |- context [?n =? 0] => destruct (Z.eqb_spec n 0); [lia|] end; done.

Lemma accept_from_received {A : Type} (k : Z -> session A) d n rel phase a c g b r :
  n <> 0 -> d + n < 2 ^ 64 ->
  (on_cursors (accept_contiguous d n) ≫= k) (mkSession hw e (mkCursors d d rel) phase a c g b r)
  = k (d + n) (mkSession hw e (mkCursors (d + n) d rel) phase a c g b r).
Proof. cursor_call. Qed.

Lemma gap_from_received {A : Type} (k : Z -> session A) d n rel phase a c g b r :
  n <> 0 -> d + n < 2 ^ 64 ->
  (on_cursors (account_gap d n) ≫= k) (mkSession hw e (mkCursors d d rel) phase a c g b r)
  = k (d + n) (mkSession hw e (mkCursors (d + n) d rel) phase a c g b r).
Proof. cursor_call. Qed.

Lemma break_from_received {A : Type} (k : Z -> session A) d rel phase a c g b r :
  d + 1 < 2 ^ 64 ->
  (on_cursors (account_continuity_break d) ≫= k) (mkSession hw e (mkCursors d d rel) phase a c g b r)
  = k (d + 1) (mkSession hw e (mkCursors (d + 1) d rel) phase a c g b r).
Proof. cursor_call. Qed.

(** [cbn] on the states alone: it does not descend into the arguments of [mbind]. *)
Ltac reduce_state H :=
  let reduce t := (let v := eval lazy beta iota delta [set_phase set_active_pull set_pending_chunk set_pending_gap
    set_pending_break set_pending_receipt ns_hardware_id ns_boot_epoch ns_cursors ns_phase
    ns_active_pull ns_pending_chunk ns_pending_gap ns_pending_continuity_break ns_pending_receipt]
    in t in progress change t with v in H) in
  match type of H with
  | context [set_phase ?x ?s] => reduce (set_phase x s)
  | context [set_active_pull ?x ?s] => reduce (set_active_pull x s)
  | context [set_pending_chunk ?x ?s] => reduce (set_pending_chunk x s)
  | context [set_pending_gap ?x ?s] => reduce (set_pending_gap x s)
  | context [set_pending_break ?x ?s] => reduce (set_pending_break x s)
  | context [set_pending_receipt ?x ?s] => reduce (set_pending_receipt x s)
  end.

Ltac session_eval H :=
  repeat progress (autorewrite with st in H; try reduce_state H;
    cbn [ns_hardware_id ns_boot_epoch ns_cursors ns_phase ns_active_pull ns_pending_chunk
      ns_pending_gap ns_pending_continuity_break ns_pending_receipt received durable released
      pull_boot_epoch pull_from pull_release_before pull_max_samples map_err ok_or
      gap_hardware_id gap_boot_epoch first_missing missing_count
      break_hardware_id break_boot_epoch break_at or_recover] in H).

Ltac await Hs Hrel :=
  apply (active_pull_awaiting _ _ _ _ _ _ Hrel) in Hs
    as [(rel & max & -> & -> & Hrd & Hd & Hmax & Hs)|(-> & ->)]; [|by eapply refines_stay].

Ltac recovers H :=
  let P := fresh in
  eapply refines_recovery in H as (? & ? & ? & ? & P); [|done|done|done];
  split; [done|]; eexists _, _; split; [done|]; exact (P _).

Lemma accept_wire_chunk_refines (c : SampleChunk) (report : Report) :
  typed c -> report_right (Some (PChunk hw c)) (chunk_sample_count (header c)) report ->
  refines (accept_wire_chunk c)
    (fun _ => [Evidence (AnsweredChunk c) report]).
Proof.
  intros Hc Hrep d open s r s' Hrel Hs. unfold accept_wire_chunk in Hs.
  pose proof (sample_chunk_validate_no_panic c) as Hnp.
  destruct (sample_chunk_validate c) as [[]|err|] eqn:Hv; [| |by destruct Hnp]; session_eval Hs.
  2:{ simplify_eq. by eapply refines_stay. }
  await Hs Hrel.
  pose proof (chunk_validate_for_no_panic (header c) (mkPull e d d max)) as Hnp'.
  destruct (chunk_validate_for _ _) as [h|err|] eqn:Hh; [| |by destruct Hnp'].
  2:{ change (enter_recovery (SessionContract err) (awaiting d rel max) = (r, s')) in Hs.
      recovers Hs. }
  apply chunk_validate_for_Ok in Hh as (Hst & -> & He' & Hf & Hn). cbn in He', Hf, Hn.
  apply chunk_structure_Ok in Hst as (_ & _ & Hne & Hb & _).
  apply sample_chunk_validate_Ok in Hv as Hv'. destruct Hv' as (_ & _ & Hlen & _).
  session_eval Hs. rewrite Hlen, Z.eqb_refl in Hs. cbn [negb] in Hs.
  unfold awaiting in Hs. session_eval Hs. rewrite release_durable, Hf, accept_from_received in Hs by lia.
  unfold chunk_end, checked_advance in Hs. rewrite Hf, checked_add_ok in Hs by lia.
  session_eval Hs. simplify_eq.
  pose proof Hc as ((_ & _ & _ & _ & Hcount) & _).
  destruct (header c) as [be rf pr f n] eqn:Heq. cbn [chunk_sample_count] in Hrep. cbn in * |-.
  cbn [chunk_first chunk_sample_count]. subst be.
  apply refines_evidence; [by cbn; rewrite Heq|exact Hrep|lia|ilia|lia|].
  apply slot_wire; rewrite ?Heq; [|done]. split_and!; auto.
Qed.

Lemma accept_chunk_refines (h : SampleChunkHeader) (l : list SampleAxes) :
  typed h ->
  refines (accept_chunk h l) (fun _ => [Evidence (AnsweredSamples h l) Silent]).
Proof.
  intros (_ & _ & _ & _ & Hcount) d open s r s' Hrel Hs. unfold accept_chunk in Hs. await Hs Hrel.
  pose proof (chunk_validate_for_no_panic h (mkPull e d d max)) as Hnp.
  destruct (chunk_validate_for _ _) as [h'|err|] eqn:Hh; [| |by destruct Hnp].
  2:{ change (enter_recovery (SessionContract err) (awaiting d rel max) = (r, s')) in Hs.
      recovers Hs. }
  apply chunk_validate_for_Ok in Hh as (Hst & -> & He' & Hf & Hn). cbn in He', Hf, Hn.
  apply chunk_structure_Ok in Hst as (_ & _ & Hne & Hb & _). rewrite Hf in Hb.
  session_eval Hs. destruct (Z.eqb_spec (Z.of_nat (length l)) (chunk_sample_count h)); cbn [negb] in Hs;
    [|recovers Hs].
  unfold awaiting in Hs. session_eval Hs.
  rewrite release_durable, Hf, accept_from_received in Hs by lia.
  unfold chunk_end, checked_advance in Hs. rewrite Hf, checked_add_ok in Hs by lia.
  session_eval Hs. simplify_eq. apply refines_evidence; [done|done|lia|ilia|lia|]. apply slot_legacy.
Qed.

(** A stream state that passes for the active stream, or the error. *)
Lemma validate_state_awaiting {A : Type} (k : StreamState -> session A) state d rel max r s' :
  (validate_state_for_active_stream state ≫= k) (awaiting d rel max) = (r, s') ->
  0 <= rel <= d -> d < 2 ^ 64 -> u16 max ->
  (stream_state_validate state = Ok state /\ ss_boot_epoch state = e /\
    k state (awaiting d rel max) = (r, s')) \/
  exists err, r = Err err /\ internal_error err = false /\ session_rel d None s'.
Proof.
  intros Hs Hr Hd Hm. unfold validate_state_for_active_stream in Hs.
  destruct (stream_state_validator state) as (Hnp & Hok).
  destruct (stream_state_validate state) as [x|err|] eqn:Hv; [| |by destruct Hnp]; session_eval Hs.
  - rewrite (Hok x eq_refl) in *. unfold awaiting in Hs. session_eval Hs.
    destruct (Z.eqb_spec (ss_boot_epoch state) e); cbn [negb] in Hs; session_eval Hs; [by left|].
    right. simplify_eq. eexists. split_and!; [done|done|]. by apply rel_recovery.
  - right. simplify_eq. eexists. split_and!; [done|done|]. by apply rel_awaiting.
Qed.

Ltac state_ok Hs :=
  apply validate_state_awaiting in Hs
    as [(Hv & Hepoch & Hs)|(err & -> & Herr & Hrel')]; [|by eapply refines_stay|done|done|done].

Lemma accept_no_data_refines (state : StreamState) : refines (accept_no_data state) (fun _ => []).
Proof.
  intros d open s r s' Hrel Hs. unfold accept_no_data in Hs. await Hs Hrel. state_ok Hs.
  cbn [pull_from] in Hs. destruct (Z.eqb_spec d (ss_produced state)) as [Hp|]; cbn [negb] in Hs;
    [|recovers Hs].
  unfold awaiting in Hs. session_eval Hs. rewrite release_durable in Hs by lia. session_eval Hs.
  simplify_eq. split; [done|]. eexists _, None. split; [|done]. apply rel_ready; lia.
Qed.

Lemma accept_range_unavailable_refines (state : StreamState) :
  typed state ->
  refines (accept_range_unavailable state)
    (fun gap => [Evidence (AnsweredUnavailable state) (Account (PGap gap))]).
Proof.
  intros (_ & Hret & _) d open s r s' Hrel Hs. unfold accept_range_unavailable in Hs.
  await Hs Hrel. state_ok Hs. cbn [pull_from pull_release_before] in Hs.
  destruct (Z.leb_spec (ss_retained_from state) d) as [|Hlt]; [recovers Hs|].
  unfold awaiting in Hs. session_eval Hs. rewrite release_durable, sub_ok in Hs by lia.
  session_eval Hs. remember (ss_retained_from state - d) as n eqn:Hn.
  rewrite gap_new_intro in Hs by ilia.
  session_eval Hs. rewrite gap_from_received, add_ok in Hs by ilia. session_eval Hs.
  assert (Hrec : answer_record hw d (AnsweredUnavailable state) = Some (PGap (mkGap hw e d n JournalOverflow)))
    by (cbn; by rewrite Hepoch, <- Hn).
  injection Hs as <- <-. apply refines_evidence; rewrite ?Hrec; [cbn; by rewrite <- Hn|done|lia|lia|ilia|].
  apply slot_gap.
  unfold gap_valid, typed, Gap_typed. cbn. split_and!; auto; ilia.
Qed.

Lemma accept_gap_refines (g : GapEvidence) :
  typed g ->
  refines (accept_gap g) (fun gap => [Evidence (AnsweredGap g) (Account (PGap gap))]).
Proof.
  intros (_ & _ & _ & _ & Hcount) d open s r s' Hrel Hs. unfold accept_gap in Hs. await Hs Hrel.
  pose proof (gap_evidence_validate_for_no_panic g (mkPull e d d max)) as Hnp.
  destruct (gap_evidence_validate_for _ _) as [g'|err|] eqn:Hg; [| |by destruct Hnp].
  2:{ change (enter_recovery (SessionContract err) (awaiting d rel max) = (r, s')) in Hs.
      recovers Hs. }
  apply gap_evidence_validate_for_Ok in Hg as (Hst & -> & He' & Hf). cbn in He', Hf.
  apply gap_evidence_structure_Ok in Hst as (_ & _ & Hne & _ & Hb & _). rewrite Hf in Hb.
  unfold awaiting in Hs. session_eval Hs.
  rewrite release_durable in Hs by lia. session_eval Hs.
  rewrite Hf, gap_new_intro in Hs by lia. session_eval Hs.
  rewrite gap_from_received, add_ok in Hs by lia. session_eval Hs.
  assert (Hrec : answer_record hw d (AnsweredGap g) =
      Some (PGap (mkGap hw e d (ge_missing_count g) (ge_reason g)))) by (cbn; by rewrite He', Hf).
  injection Hs as <- <-. apply refines_evidence; rewrite ?Hrec; [cbn; by rewrite Hf|done|lia|ilia|lia|].
  apply slot_gap.
  unfold gap_valid, typed, Gap_typed. cbn. split_and!; auto; ilia.
Qed.

Lemma accept_continuity_break_refines (b : ContinuityBreakEvidence) :
  typed b ->
  refines (accept_continuity_break b) (fun observed => [Evidence (AnsweredBreak b) (Account (PContinuityBreak observed))]).
Proof.
  intros Ht d open s r s' Hrel Hs. unfold accept_continuity_break in Hs. await Hs Hrel.
  pose proof (break_evidence_validate_for_no_panic b (mkPull e d d max)) as Hnp.
  destruct (break_evidence_validate_for _ _) as [b'|err|] eqn:Hg; [| |by destruct Hnp].
  2:{ change (enter_recovery (SessionContract err) (awaiting d rel max) = (r, s')) in Hs.
      recovers Hs. }
  apply break_evidence_validate_for_Ok in Hg as (Hst & -> & He' & Hf). cbn in He', Hf.
  apply break_evidence_structure_Ok in Hst as (_ & _ & Hb & _). rewrite Hf in Hb.
  unfold awaiting in Hs. session_eval Hs.
  rewrite release_durable in Hs by lia. session_eval Hs.
  rewrite Hf, continuity_break_new_intro in Hs by lia. session_eval Hs.
  rewrite break_from_received in Hs by lia. session_eval Hs.
  unfold break_end, checked_advance in Hs. cbn [break_at] in Hs. rewrite checked_add_ok in Hs by lia.
  cbn [expect] in Hs. session_eval Hs.
  assert (Hrec : answer_record hw d (AnsweredBreak b) =
      Some (PContinuityBreak (mkBreak hw e d (be_reason b)))) by (cbn; by rewrite He', Hf).
  injection Hs as <- <-. apply refines_evidence; rewrite ?Hrec; [cbn; by rewrite Hf|done|lia|lia|lia|].
  apply slot_break; [done|].
  unfold break_valid, typed, ContinuityBreak_typed. cbn. split_and!; auto; ilia.
Qed.

Lemma invalid_release_refines (state : StreamState) : refines (invalid_release state) (fun _ => []).
Proof.
  intros d open s r s' Hrel Hs. unfold invalid_release in Hs. await Hs Hrel. state_ok Hs.
  unfold awaiting in Hs. session_eval Hs. simplify_eq.
  split; [done|]. eexists _, None. split; [|done]. apply rel_recovery; lia.
Qed.

Lemma require_phase_eval {A : Type} (p : SessionPhase) (k : unit -> session A) s :
  (require_phase p ≫= k) s = if bool_decide (ns_phase s = p) then k tt s else (Err UnexpectedPhase, s).
Proof. unfold require_phase. autorewrite with st. by destruct (bool_decide _). Qed.

(** The three ways a request is given up. *)
Lemma leave_awaiting_refines (m : session unit) (phase : SessionPhase) :
  m = (_ ← require_phase AwaitingPull; _ ← modify (set_active_pull None); modify (set_phase phase)) ->
  phase = Ready \/ phase = RecoveryRequired ->
  refines m (fun _ => []).
Proof.
  intros -> Hph d open s r s' Hrel Hs. rewrite require_phase_eval in Hs.
  case_bool_decide as Hp; [|simplify_eq; by eapply refines_stay].
  destruct Hrel; cbn [ns_phase] in Hp; try discriminate Hp.
  - session_eval Hs. simplify_eq. split; [done|]. eexists _, None. split; [|done].
    destruct Hph as [->| ->]; [apply rel_ready|apply rel_recovery]; lia.
  - match goal with Hsl : pending_slot _ _ _ _ _ _ _ |- _ => inversion Hsl; subst; naive_solver end.
Qed.

Lemma begin_pull_refines (max : Z) :
  u16 max -> refines (begin_pull max) (fun request => [Requested request]).
Proof.
  intros Hmax d open s r s' Hrel Hs. unfold begin_pull in Hs. rewrite require_phase_eval in Hs.
  case_bool_decide as Hp; [|simplify_eq; by eapply refines_stay].
  destruct Hrel; cbn [ns_phase] in Hp; try discriminate Hp.
  - session_eval Hs. destruct (pull_request_new e d d max) as [q|err|] eqn:Hq.
    + session_eval Hs. simplify_eq. unfold pull_request_new in Hq. run_in Hq. subst q.
      split; [done|]. eexists d, None. split; [by apply rel_awaiting|]. intros rest Hr. cbn. auto.
    + session_eval Hs. simplify_eq. eapply refines_stay; [|done]. by apply rel_ready.
    + unfold pull_request_new in Hq. run_in Hq.
  - match goal with Hsl : pending_slot _ _ _ _ _ _ _ |- _ => inversion Hsl; subst; naive_solver end.
Qed.

(** The request is well-formed for the wire. *)
Lemma begin_pull_typed (max : Z) d open s request s' :
  u16 max -> session_rel d open s -> begin_pull max s = (Ok request, s') -> typed request.
Proof.
  intros Hmax Hrel Hs. unfold begin_pull in Hs. rewrite require_phase_eval in Hs.
  case_bool_decide as Hp; [|done]. autorewrite with st in Hs.
  destruct (pull_request_new _ _ _ _) as [q|err|] eqn:Hq; [|done|done].
  cbn [map_err] in Hs. autorewrite with st in Hs. injection Hs as -> _.
  pose proof (session_rel_cursors d open s Hrel) as ((Hr & Hdr) & _ & _).
  assert (ns_boot_epoch s = e) as He' by by destruct Hrel.
  unfold pull_request_new in Hq. run_in Hq. subst request.
  unfold typed, PullSamplesRequest_typed. cbn. split_and!; auto; ilia.
Qed.

(** The end of [take_pending_persistence]: the record covers the expected receipt. *)
Lemma hand_over d n phase (p : PendingPersistence) r s' :
  let s := mkSession hw e (mkCursors (d + n) d d) phase None None None None
             (Some (mkReceipt hw e (d + n))) in
  (receipt ← lift (persistence_receipt p);
   self ← get;
   if negb (bool_decide (Some receipt = ns_pending_receipt self)) then throw ReceiptCursorMismatch
   else mret p) s = (r, s') ->
  0 <= d -> 0 < n -> d + n < 2 ^ 64 ->
  phase = PersistingChunk \/ phase = PersistingGap \/ phase = PersistingContinuityBreak ->
  record_valid p -> record_first p = d ->
  persistence_receipt p = Ok (mkReceipt hw e (d + n)) ->
  expected_result r /\ exists d' open', session_rel d' open' s' /\
    forall rest, delivers hw e d' open' rest ->
      delivers hw e d (Some (d + n, Some p)) (match r with Ok p => [Handed p] | _ => [] end ++ rest).
Proof.
  intros s Hs Hd Hn Hb Hph Hv Hf Hr. subst s. rewrite Hr in Hs. session_eval Hs.
  rewrite bool_decide_eq_true_2 in Hs by done. cbn [negb] in Hs. session_eval Hs. injection Hs as <- <-.
  split; [done|]. eexists d, (Some (d + n, None)). split.
  - apply rel_persisting; auto. by apply slot_handed.
  - intros rest Hrest. cbn. auto.
Qed.

Lemma take_pending_persistence_refines :
  refines take_pending_persistence (fun p => [Handed p]).
Proof.
  intros d open s r s' Hrel Hs. unfold take_pending_persistence in Hs.
  destruct Hrel as [| |d n phase chunk gap brk waiting Hd Hn Hb Hsl|]; session_eval Hs;
    try (simplify_eq; eapply refines_stay; [|done]; by constructor).
  destruct Hsl as [c Hc Hh|h l|rs Hg|rs -> Hbr|phase Hph].
  - session_eval Hs. apply hand_over in Hs; auto; cbn [record_first persistence_receipt]; rewrite Hh; [done|].
    cbn [chunk_first chunk_sample_count chunk_boot_epoch]. by rewrite add_ok by lia.
  - session_eval Hs. simplify_eq. eapply refines_stay; [|done]. apply rel_persisting; auto. apply slot_legacy.
  - session_eval Hs. apply hand_over in Hs; auto. cbn [persistence_receipt first_missing missing_count].
    by rewrite add_ok by lia.
  - session_eval Hs. apply hand_over in Hs; auto. cbn [persistence_receipt].
    by rewrite break_end_valid.
  - assert (Hstay : r = Err PendingAlreadyHandedOff /\
      s' = mkSession hw e (mkCursors (d + n) d d) phase None None None None (Some (mkReceipt hw e (d + n)))).
    { destruct Hph as [->|[->| ->]]; session_eval Hs; by simplify_eq. }
    destruct Hstay as (-> & ->). eapply refines_stay; [|done]. apply rel_persisting; auto. by apply slot_handed.
Qed.

Lemma pending_phase d n phase chunk gap brk waiting :
  pending_slot d n phase chunk gap brk waiting ->
  phase = PersistingChunk \/ phase = PersistingGap \/ phase = PersistingContinuityBreak.
Proof. destruct 1; auto. Qed.

(** The receipt of the open range closes it. *)
Lemma confirm_pending d n phase chunk gap brk :
  0 < n -> phase = PersistingChunk \/ phase = PersistingGap \/ phase = PersistingContinuityBreak ->
  confirm_durable (mkReceipt hw e (d + n))
    (mkSession hw e (mkCursors (d + n) d d) phase None chunk gap brk (Some (mkReceipt hw e (d + n)))) =
  (Ok tt, mkSession hw e (mkCursors (d + n) (d + n) d) Ready None None None None None).
Proof.
  intros Hn Hph. unfold confirm_durable. autorewrite with st.
  cbn [receipt_hardware_id receipt_boot_epoch ns_hardware_id ns_boot_epoch].
  rewrite bool_decide_eq_true_2, Z.eqb_refl by done. cbn [negb orb ns_phase ns_pending_receipt].
  rewrite bool_decide_eq_true_2 by done. cbn [negb].
  unfold on_cursors, mark_durable.
  destruct Hph as [->|[->| ->]]; st_eval; cbn;
    rewrite (proj2 (Z.ltb_ge (d + n) d)), Z.ltb_irrefl by lia; done.
Qed.

Lemma confirm_durable_refines (receipt : DurableReceipt) :
  refines (confirm_durable receipt) (fun _ => [Confirmed receipt]).
Proof.
  intros d open s r s' Hrel Hs. pose proof Hs as Hs0. unfold confirm_durable in Hs. autorewrite with st in Hs.
  destruct (negb _ || negb _); [autorewrite with st in Hs; simplify_eq; by eapply refines_stay|].
  destruct Hrel as [| |d n phase chunk gap brk waiting Hd Hn Hb Hsl|]; session_eval Hs;
    try (simplify_eq; eapply refines_stay; [|done]; by constructor).
  pose proof (pending_phase _ _ _ _ _ _ _ Hsl) as Hph.
  destruct (decide (receipt = mkReceipt hw e (d + n))) as [->|Hne].
  - rewrite confirm_pending in Hs0 by done. simplify_eq. split; [done|]. exists (d + n), None.
    split; [apply rel_ready; lia|]. intros rest Hrest. cbn. auto.
  - rewrite bool_decide_eq_false_2 in Hs by congruence. cbn [negb] in Hs.
    assert (Hstay : r = Err ReceiptCursorMismatch /\ s' = mkSession hw e (mkCursors (d + n) d d) phase
      None chunk gap brk (Some (mkReceipt hw e (d + n)))).
    { destruct Hph as [->|[->| ->]]; session_eval Hs; by simplify_eq. }
    destruct Hstay as (-> & ->). eapply refines_stay; [|done]. by apply rel_persisting.
Qed.

(** Every call of the session, at once. *)
Lemma session_call_refines (c : SessionCall) : typed c -> refines (session_call c) id.
Proof.
  assert (Hpure : forall A (m : session A) g, refines m g -> refines (a ← m; mret (g a)) id).
  { intros A m g Hm d open s r s' Hrel Hs. apply st_bind_pure in Hs as (r0 & Hs & ->).
    destruct (Hm d open s r0 s' Hrel Hs) as (He' & d' & open' & Hr' & Hd').
    destruct r0; (split; [exact He'|]); eauto. }
  intros Ht. destruct c; cbn [session_call]; apply Hpure;
    try (by apply accept_wire_chunk_refines);
    auto using begin_pull_refines, accept_chunk_refines, accept_no_data_refines,
      accept_range_unavailable_refines, accept_gap_refines, accept_continuity_break_refines,
      invalid_release_refines, take_pending_persistence_refines, confirm_durable_refines;
    (eapply leave_awaiting_refines; [reflexivity|auto]).
Qed.

Lemma session_run_refines (cs : list SessionCall) d open s :
  Forall typed cs -> session_rel d open s ->
  let '(rs, s') := session_run cs s in
  Forall expected_result rs /\ delivers hw e d open (events rs) /\
  exists d' open', session_rel d' open' s'.
Proof.
  intros Hcs. revert d open s. induction Hcs as [|c cs Hc _ IH]; intros d open s Hrel; cbn [session_run].
  { cbn. eauto 10. }
  destruct (session_call c s) as [r s1] eqn:Hs.
  destruct (session_call_refines c Hc d open s r s1 Hrel Hs) as (He' & d1 & open1 & Hr1 & Hd1).
  specialize (IH d1 open1 s1 Hr1). destruct (session_run cs s1) as [rs s2].
  destruct IH as (Hes & Hds & Hfin). split; [by constructor|]. split; [|done].
  specialize (Hd1 _ Hds). unfold events in *. by destruct r.
Qed.
End Refinement.

Lemma recovered_rel (hw : HardwareId) (e d rel : Z) (s : NodeSession) :
  u64 d -> u64 rel -> recovered hw e d rel = Ok s -> session_rel hw e d None s.
Proof.
  intros Hd Hrel Hrec. unfold recovered, cursors_new in Hrec. rewrite Z.ltb_irrefl in Hrec.
  destruct (Z.ltb_spec d rel); [done|]. injection Hrec as <-. apply rel_ready; ilia.
Qed.

(** C1. The delivery session is safe: from a recovered session, over every
    sequence of calls with arguments of their Rust types, no call panics and no
    internal cursor, gap or continuity error occurs; every request asks for
    exactly the durable cursor and releases nothing beyond it; accepted
    evidence continues the durable cursor without hole or overlap; storage is
    handed the record of that answer, the node's content under the session's
    identity, valid and at most once; the durable cursor moves only to the end of
    the open evidence and only with its receipt (a receipt alone is enough: the
    session does not ask whether the record was taken); and [released <= durable <= received] holds inside [u64] at the end. *)
Theorem session_refines_delivery (hw : HardwareId) (e d rel : Z) (s : NodeSession)
    (cs : list SessionCall) :
  hardware_id_typed hw -> u64 e -> u64 d -> u64 rel ->
  recovered hw e d rel = Ok s -> Forall typed cs ->
  let '(rs, s') := session_run cs s in
  Forall expected_result rs /\ delivers hw e d None (events rs) /\ cursors_wf (ns_cursors s').
Proof.
  intros Hhw He Hd Hrel Hrec Hcs.
  pose proof (recovered_rel hw e d rel s Hd Hrel Hrec) as Hrel0.
  pose proof (session_run_refines hw e Hhw He cs d None s Hcs Hrel0) as Hrun.
  destruct (session_run cs s) as [rs s']. destruct Hrun as (Hes & Hds & d' & open' & Hr').
  split; [done|]. split; [done|]. eapply session_rel_cursors, Hr'.
Qed.

(** A chunk, then an exact gap, each persisted; a second hand-over is refused. *)
Definition sample_hw : HardwareId := literal [1; 2; 3; 4; 5; 6; 7; 8].
Definition sample_epoch : BootEpoch := 0x1122334455667788.
Definition sample_session_calls : list SessionCall :=
  [CallBeginPull 48; CallAcceptWireChunk golden_chunk; CallTakePendingPersistence;
   CallTakePendingPersistence; CallConfirmDurable (mkReceipt sample_hw sample_epoch 22);
   CallBeginPull 48; CallAcceptGap (mkGapEvidence sample_epoch 10 100 22 3 SourceLoss);
   CallTakePendingPersistence; CallConfirmDurable (mkReceipt sample_hw sample_epoch 25)].

Lemma session_refines_delivery_witness :
  exists s, recovered sample_hw sample_epoch 20 16 = Ok s /\
  events (fst (session_run sample_session_calls s)) =
    [Requested (mkPull sample_epoch 20 20 48); Evidence (AnsweredChunk golden_chunk) Silent; Handed (PChunk sample_hw golden_chunk);
     Confirmed (mkReceipt sample_hw sample_epoch 22);
     Requested (mkPull sample_epoch 22 22 48);
     Evidence (AnsweredGap (mkGapEvidence sample_epoch 10 100 22 3 SourceLoss))
       (Account (PGap (mkGap sample_hw sample_epoch 22 3 SourceLoss)));
     Handed (PGap (mkGap sample_hw sample_epoch 22 3 SourceLoss));
     Confirmed (mkReceipt sample_hw sample_epoch 25)] /\
  delivers sample_hw sample_epoch 20 None (events (fst (session_run sample_session_calls s))).
Proof.
  eexists. split; [reflexivity|]. split; [vm_compute; reflexivity|].
  assert (H := session_refines_delivery sample_hw sample_epoch 20 16 _ sample_session_calls
    eq_refl ltac:(unfold sample_epoch; ilia) ltac:(ilia) ltac:(ilia) eq_refl).
  destruct (session_run _ _) as [rs s'] in *. apply H.
  typed_by_compute.
Defined.
