(* ===== verification/MeasurementTransfer.v ===== *)
(** * Measurement transfers (crates/sensor-host/src/measurement_transfer.rs)

    One node's delivery session while it moves through the channel: the pull
    request it puts on the wire, the response bytes it decodes and the outcome
    it reports to the scheduler. The whole of it refines the delivery contract
    of [NodeSession], now from raw response bytes. *)

From S2P Require Export NodeSession Transaction.

Definition PULL_SAMPLES_MESSAGE_ID : Z := 2.

Inductive PersistenceKind :=
| KindSampleChunk (sample_count : Z)
| KindGap (gap : Gap)
| KindContinuityBreak (observed : ContinuityBreak).

Inductive RecoveryReason :=
| ReasonStreamChanged (epoch : BootEpoch)
| ReasonInvalidRelease (state : StreamState)
| ReasonInvalidResponse.

Inductive MeasurementOutcome :=
| NotAccepted
| NoData (state : StreamState)
| PersistenceRequired (kind : PersistenceKind)
| OutcomeRecoveryRequired (reason : RecoveryReason).

#[export] Instance PersistenceKind_eq_dec : EqDecision PersistenceKind.
Proof. solve_decision. Defined.
#[export] Instance RecoveryReason_eq_dec : EqDecision RecoveryReason.
Proof. solve_decision. Defined.
#[export] Instance MeasurementOutcome_eq_dec : EqDecision MeasurementOutcome.
Proof. solve_decision. Defined.

Record MeasurementAttempt := mkAttempt {
  ma_request : RequestSpec;
  ma_payload : bytes
}.

Record MeasurementTransfer := mkTransfer {
  mt_node_address : Z;
  mt_max_samples : Z;
  mt_session : NodeSession;
  mt_observed_produced : option SequenceCursor;
  mt_persistence_kind : option PersistenceKind;
  mt_recovery_reason : option RecoveryReason
}.

Inductive MeasurementTransferError :=
| ZeroTransferSampleLimit
| TransferSession (error : SessionError)
| TransferWire (error : MeasurementWireError).

Abbreviation transfer := (st MeasurementTransfer MeasurementTransferError).

Definition set_session (s : NodeSession) (t : MeasurementTransfer) : MeasurementTransfer :=
  mkTransfer (mt_node_address t) (mt_max_samples t) s (mt_observed_produced t)
    (mt_persistence_kind t) (mt_recovery_reason t).
Definition set_observed_produced (x : option SequenceCursor) (t : MeasurementTransfer)
    : MeasurementTransfer :=
  mkTransfer (mt_node_address t) (mt_max_samples t) (mt_session t) x
    (mt_persistence_kind t) (mt_recovery_reason t).
Definition set_persistence_kind (x : option PersistenceKind) (t : MeasurementTransfer)
    : MeasurementTransfer :=
  mkTransfer (mt_node_address t) (mt_max_samples t) (mt_session t) (mt_observed_produced t)
    x (mt_recovery_reason t).
Definition set_recovery_reason (x : option RecoveryReason) (t : MeasurementTransfer)
    : MeasurementTransfer :=
  mkTransfer (mt_node_address t) (mt_max_samples t) (mt_session t) (mt_observed_produced t)
    (mt_persistence_kind t) x.

(** A call on [self.session], with [From<SessionError>]. *)
Definition on_session {A : Type} (m : session A) : transfer A :=
  zoom mt_session set_session TransferSession m.

Definition transfer_new (node_address max_samples : Z) (s : NodeSession)
    : outcome MeasurementTransferError MeasurementTransfer :=
  if max_samples =? 0 then Err ZeroTransferSampleLimit
  else Ok (mkTransfer node_address max_samples s None None None).

Definition transfer_take_pending_persistence : transfer PendingPersistence :=
  on_session take_pending_persistence.

(** [encode_pull_request] of the source cannot fail; its slices stay in range here. *)
Definition begin_attempt (timeout : DurationMicros) : transfer MeasurementAttempt :=
  self ← get;
  pull ← on_session (begin_pull (mt_max_samples self));
  payload ← lift (map_err TransferWire (encode_pull_request pull));
  mret (mkAttempt
    (mkRequestSpec (mt_node_address self) (service_code Application.Measurement)
       PULL_SAMPLES_MESSAGE_ID PULL_SAMPLES_MESSAGE_ID timeout RetrySafe) payload).

Definition mark_attempt_uncertain : transfer unit := on_session abandon_pull_for_retry.

Definition accept_decoded (response : PullResponse) : transfer MeasurementOutcome :=
  match response with
  | RSampleChunk chunk =>
      let produced := chunk_produced (header chunk) in
      let sample_count := chunk_sample_count (header chunk) in
      _ ← on_session (accept_wire_chunk chunk);
      _ ← modify (set_observed_produced (Some produced));
      _ ← modify (set_persistence_kind (Some (KindSampleChunk sample_count)));
      mret (PersistenceRequired (KindSampleChunk sample_count))
  | RNoData state =>
      _ ← on_session (accept_no_data state);
      _ ← modify (set_observed_produced (Some (ss_produced state)));
      mret (NoData state)
  | RRangeUnavailable state =>
      gap ← on_session (accept_range_unavailable state);
      _ ← modify (set_observed_produced (Some (ss_produced state)));
      _ ← modify (set_persistence_kind (Some (KindGap gap)));
      mret (PersistenceRequired (KindGap gap))
  | RGap evidence =>
      gap ← on_session (accept_gap evidence);
      _ ← modify (set_observed_produced (Some (ge_produced evidence)));
      _ ← modify (set_persistence_kind (Some (KindGap gap)));
      mret (PersistenceRequired (KindGap gap))
  | RContinuityBreak evidence =>
      observed ← on_session (accept_continuity_break evidence);
      _ ← modify (set_observed_produced (Some (be_produced evidence)));
      _ ← modify (set_persistence_kind (Some (KindContinuityBreak observed)));
      mret (PersistenceRequired (KindContinuityBreak observed))
  | RStreamChanged epoch =>
      _ ← on_session stream_changed;
      _ ← modify (set_recovery_reason (Some (ReasonStreamChanged epoch)));
      mret (OutcomeRecoveryRequired (ReasonStreamChanged epoch))
  | RInvalidRelease state =>
      _ ← on_session (invalid_release state);
      _ ← modify (set_observed_produced (Some (ss_produced state)));
      _ ← modify (set_recovery_reason (Some (ReasonInvalidRelease state)));
      mret (OutcomeRecoveryRequired (ReasonInvalidRelease state))
  end.

Definition accept_response (payload : bytes) : transfer MeasurementOutcome :=
  match decode_pull_response payload with
  | Ok response => accept_decoded response
  | Err (RemoteError Busy) =>
      _ ← on_session abandon_pull_for_retry;
      mret NotAccepted
  | Err _ =>
      _ ← on_session fail_pull_for_recovery;
      _ ← modify (set_recovery_reason (Some ReasonInvalidResponse));
      mret (OutcomeRecoveryRequired ReasonInvalidResponse)
  | Panic => lift Panic
  end.

Definition transfer_confirm_durable (receipt : DurableReceipt) : transfer unit :=
  on_session (confirm_durable receipt).

(** ** Histories of a transfer *)

Inductive TransferCall :=
| CallBeginAttempt (timeout : DurationMicros)
| CallMarkAttemptUncertain
| CallAcceptResponse (payload : bytes)
| CallTakePending
| CallConfirm (receipt : DurableReceipt).

(** The answer a response stands for, and what the outcome reports of it. *)
Definition answer_of (response : PullResponse) : option NodeAnswer :=
  match response with
  | RSampleChunk chunk => Some (AnsweredChunk chunk)
  | RRangeUnavailable state => Some (AnsweredUnavailable state)
  | RGap evidence => Some (AnsweredGap evidence)
  | RContinuityBreak evidence => Some (AnsweredBreak evidence)
  | _ => None
  end.

Definition kind_report (k : PersistenceKind) : Report :=
  match k with
  | KindSampleChunk n => SampleCount n
  | KindGap gap => Account (PGap gap)
  | KindContinuityBreak observed => Account (PContinuityBreak observed)
  end.

Definition kind_evidence (payload : bytes) (k : PersistenceKind) : list DeliveryEvent :=
  match outcome_ok (decode_pull_response payload) ≫= answer_of with
  | Some answer => [Evidence answer (kind_report k)]
  | None => []
  end.

(** The call, with the events it shows: a begun attempt is the request a node
    decodes from the payload. *)
Definition transfer_call (c : TransferCall) : transfer (list DeliveryEvent) :=
  match c with
  | CallBeginAttempt timeout =>
      attempt ← begin_attempt timeout;
      request ← lift (map_err TransferWire (decode_pull_request (ma_payload attempt)));
      mret [Requested request]
  | CallMarkAttemptUncertain => _ ← mark_attempt_uncertain; mret []
  | CallAcceptResponse payload =>
      outcome ← accept_response payload;
      mret match outcome with
           | PersistenceRequired k => kind_evidence payload k
           | _ => []
           end
  | CallTakePending => p ← transfer_take_pending_persistence; mret [Handed p]
  | CallConfirm receipt => _ ← transfer_confirm_durable receipt; mret [Confirmed receipt]
  end.

Fixpoint transfer_run (cs : list TransferCall) (self : MeasurementTransfer)
    : list (outcome MeasurementTransferError (list DeliveryEvent)) * MeasurementTransfer :=
  match cs with
  | [] => ([], self)
  | c :: cs =>
      let '(r, self) := transfer_call c self in
      let '(rs, self) := transfer_run cs self in
      (r :: rs, self)
  end.

Definition transfer_events (rs : list (outcome MeasurementTransferError (list DeliveryEvent)))
    : list DeliveryEvent :=
  concat (omap outcome_ok rs).

(** No panic, no broken session invariant, and no encoding failure. *)
Definition transfer_expected {A : Type} (r : outcome MeasurementTransferError A) : Prop :=
  match r with
  | Ok _ => True
  | Err (TransferSession e) => internal_error e = false
  | Err _ => False
  | Panic => False
  end.

(** ** Proofs *)

Section TransferRefinement.
Context (hw : HardwareId) (e : BootEpoch).
Context (Hhw : hardware_id_typed hw) (He : u64 e).

(** The session's relation; the sample limit of a transfer never changes. *)
Definition transfer_rel (d : Z) (open : option (Z * option PendingPersistence)) (t : MeasurementTransfer) : Prop :=
session_rel hw e d open (mt_session t) /\ u16 (mt_max_samples t).

Definition transfer_refines {A : Type} (m : transfer A) (g : A -> list DeliveryEvent) : Prop :=
forall d open t r t',
  transfer_rel d open t -> m t = (r, t') ->
  transfer_expected r /\ exists d' open', transfer_rel d' open' t' /\
    forall rest, delivers hw e d' open' rest ->
      delivers hw e d open (match r with Ok a => g a | _ => [] end ++ rest).

(** A call on the session followed by bookkeeping of the transfer. *)
Lemma transfer_refines_session {A B : Type} (m : session A) (g : A -> list DeliveryEvent)
  (k : A -> transfer B) (g' : B -> list DeliveryEvent) :
refines hw e m g ->
(forall a t, exists b t', k a t = (Ok b, t') /\ mt_session t' = mt_session t /\
  mt_max_samples t' = mt_max_samples t /\ g' b = g a) ->
transfer_refines (on_session m ≫= k) g'.
Proof.
intros Hm Hk d open t r t' (Hrel & Hmax) Hs. unfold on_session in Hs. st_unfold Hs.
destruct (m (mt_session t)) as [r0 s1] eqn:Hm0.
destruct (Hm d open _ r0 s1 Hrel Hm0) as (Hexp & d' & open' & Hrel' & Hd).
unfold transfer_rel. destruct r0 as [a|err|]; [|simplify_eq; split; [exact Hexp|eauto 6]|done].
destruct (Hk a (set_session s1 t)) as (b & t1 & Hk1 & Ht1 & Hm1 & Hg). rewrite Hk1 in Hs. simplify_eq.
split; [done|]. exists d', open'. rewrite Ht1, Hm1, Hg. auto.
Qed.

Lemma session_alone {A : Type} (m : session A) (g : A -> list DeliveryEvent) :
refines hw e m g -> transfer_refines (on_session m) g.
Proof.
intros Hm d open t r t' Hrel Hs.
assert (Hs' : (on_session m ≫= fun a => mret a) t = (r, t')).
{ st_eval. rewrite Hs. by destruct r. }
eapply (transfer_refines_session m g (fun a => mret a)); eauto.
intros a t0. by exists a, t0.
Qed.

Lemma begin_attempt_refines (timeout : DurationMicros) :
transfer_refines (transfer_call (CallBeginAttempt timeout)) id.
Proof.
intros d open t r t' (Hrel & Hmax) Hs. cbn [transfer_call] in Hs. unfold begin_attempt in Hs.
autorewrite with st in Hs. unfold on_session in Hs. st_unfold Hs.
destruct (begin_pull (mt_max_samples t) (mt_session t)) as [r0 s1] eqn:Hb.
destruct (begin_pull_refines hw e _ Hmax d open _ r0 s1 Hrel Hb) as (Hexp & d' & open' & Hrel' & Hd).
destruct r0 as [q|err|]; [|simplify_eq; split; [exact Hexp|]; exists d', open'; by split|done].
pose proof (begin_pull_typed hw e He _ d open _ q s1 Hmax Hrel Hb) as Hq.
destruct (encode_pull_request q) as [l|err|] eqn:Henc; [|discriminate Henc|discriminate Henc].
cbn [ma_payload] in Hs.
rewrite (codec_roundtrip _ _ pull_request_lawful q l Hq Henc : decode_pull_request l = Ok q) in Hs.
simplify_eq. split; [done|]. exists d', open'. by split.
Qed.

Lemma accept_decoded_refines (payload : bytes) (response : PullResponse) :
decode_pull_response payload = Ok response -> typed response ->
transfer_refines (accept_decoded response)
  (fun o => match o with PersistenceRequired k => kind_evidence payload k | _ => [] end).
Proof.
intros Hdec Ht. destruct response; cbn [accept_decoded typed PullResponse_typed] in *;
  eapply transfer_refines_session;
  try match goal with |- refines _ _ (accept_wire_chunk ?c) _ =>
    by apply (accept_wire_chunk_refines hw e Hhw c (SampleCount (chunk_sample_count (header c))))
  end;
  eauto using accept_no_data_refines, accept_range_unavailable_refines,
    accept_gap_refines, accept_continuity_break_refines, invalid_release_refines;
  try (eapply leave_awaiting_refines; [reflexivity|auto]);
  (intros a t; eexists _, _; split_and!;
   [reflexivity|done|done|unfold kind_evidence; by rewrite ?Hdec]).
Qed.

Lemma accept_response_refines (payload : bytes) :
transfer_refines (accept_response payload)
  (fun o => match o with PersistenceRequired k => kind_evidence payload k | _ => [] end).
Proof.
unfold accept_response. pose proof (decode_pull_response_no_panic payload) as Hnp.
destruct (decode_pull_response payload) as [response|err|] eqn:Hdec; [| |by destruct Hnp].
{ apply decode_pull_response_inv in Hdec as Ht. apply accept_decoded_refines; [done|apply Ht]. }
assert (Hfail : transfer_refines
  (_ ← on_session fail_pull_for_recovery;
   _ ← modify (set_recovery_reason (Some ReasonInvalidResponse));
   mret (OutcomeRecoveryRequired ReasonInvalidResponse))
  (fun o => match o with PersistenceRequired k => kind_evidence payload k | _ => [] end)).
{ eapply transfer_refines_session; [eapply leave_awaiting_refines; [reflexivity|auto]|].
  intros a t. by eexists _, _. }
assert (Hbusy : transfer_refines (_ ← on_session abandon_pull_for_retry; mret NotAccepted)
  (fun o => match o with PersistenceRequired k => kind_evidence payload k | _ => [] end)).
{ eapply transfer_refines_session; [eapply leave_awaiting_refines; [reflexivity|auto]|].
  intros a t. by eexists _, _. }
destruct err; try exact Hfail. by destruct status.
Qed.

Lemma transfer_call_refines (c : TransferCall) : transfer_refines (transfer_call c) id.
Proof.
assert (Hpure : forall A (m : transfer A) g, transfer_refines m g ->
  transfer_refines (a ← m; mret (g a)) id).
{ intros A m g Hm d open t r t' Hrel Hs. apply st_bind_pure in Hs as (r0 & Hs & ->).
  destruct (Hm d open t r0 t' Hrel Hs) as (He' & d' & open' & Hr' & Hd').
  destruct r0; (split; [exact He'|]); eauto. }
destruct c; [apply begin_attempt_refines|..]; cbn [transfer_call]; apply Hpure.
- apply session_alone. eapply leave_awaiting_refines; [reflexivity|auto].
- apply accept_response_refines.
- apply session_alone, take_pending_persistence_refines.
- apply session_alone, confirm_durable_refines.
Qed.

Lemma transfer_run_refines (cs : list TransferCall) d open t :
transfer_rel d open t ->
let '(rs, t') := transfer_run cs t in
Forall transfer_expected rs /\ delivers hw e d open (transfer_events rs) /\
exists d' open', transfer_rel d' open' t'.
Proof.
revert d open t. induction cs as [|c cs IH]; intros d open t Hrel; cbn [transfer_run].
{ cbn. eauto 10. }
destruct (transfer_call c t) as [r t1] eqn:Hs.
destruct (transfer_call_refines c d open t r t1 Hrel Hs) as (He' & d1 & open1 & Hr1 & Hd1).
specialize (IH d1 open1 t1 Hr1). destruct (transfer_run cs t1) as [rs t2].
destruct IH as (Hes & Hds & Hfin). split; [by constructor|]. split; [|done].
specialize (Hd1 _ Hds). unfold transfer_events in *. by destruct r.
Qed.
End TransferRefinement.

(** Delivery from raw response bytes: whatever bytes the channel returns
    and however attempts, answers, hand-overs and receipts interleave, a
    transfer around a recovered session never panics and never breaks a session
    invariant; the request a node decodes from an attempt's payload asks for
    exactly the durable cursor and releases nothing beyond it; and a
    [PersistenceRequired] outcome stands for evidence that continues the
    durable cursor and is handed to storage exactly once. *)
Lemma transfer_refines_delivery (hw : HardwareId) (e d rel node max : Z) (s : NodeSession)
    (t : MeasurementTransfer) (cs : list TransferCall) :
  hardware_id_typed hw -> u64 e -> u64 d -> u64 rel -> u16 max ->
  recovered hw e d rel = Ok s -> transfer_new node max s = Ok t ->
  let '(rs, t') := transfer_run cs t in
  Forall transfer_expected rs /\ delivers hw e d None (transfer_events rs) /\
  cursors_wf (ns_cursors (mt_session t')).
Proof.
  intros Hhw He Hd Hrel Hmax Hrec Hnew.
  pose proof (recovered_rel hw e d rel s Hd Hrel Hrec) as Hrel0.
  unfold transfer_new in Hnew. destruct (max =? 0); [done|]. injection Hnew as Ht.
  assert (Hrel1 : transfer_rel hw e d None t) by by subst t.
  pose proof (transfer_run_refines hw e Hhw He cs d None t Hrel1) as Hrun.
  destruct (transfer_run cs t) as [rs t']. destruct Hrun as (Hes & Hds & d' & open' & Hr' & _).
  split; [done|]. split; [done|]. eapply session_rel_cursors, Hr'.
Qed.

(** A busy node, then a chunk; then a malformed answer. *)
Definition sample_transfer_calls : list TransferCall :=
  [CallBeginAttempt 1000; CallAcceptResponse (literal [5]); CallBeginAttempt 1000;
   CallAcceptResponse golden_chunk_payload; CallTakePending;
   CallConfirm (mkReceipt sample_hw sample_epoch 22); CallBeginAttempt 1000;
   CallAcceptResponse (literal [0; 9])].

Lemma transfer_refines_delivery_witness :
  exists s t, recovered sample_hw sample_epoch 20 16 = Ok s /\ transfer_new 7 48 s = Ok t /\
  transfer_events (fst (transfer_run sample_transfer_calls t)) =
    [Requested (mkPull sample_epoch 20 20 48); Requested (mkPull sample_epoch 20 20 48);
     Evidence (AnsweredChunk golden_chunk) (SampleCount 2); Handed (PChunk sample_hw golden_chunk);
     Confirmed (mkReceipt sample_hw sample_epoch 22); Requested (mkPull sample_epoch 22 22 48)] /\
  mt_recovery_reason (snd (transfer_run sample_transfer_calls t)) = Some ReasonInvalidResponse /\
  delivers sample_hw sample_epoch 20 None (transfer_events (fst (transfer_run sample_transfer_calls t))).
Proof.
  eexists _, _. split; [reflexivity|]. split; [reflexivity|]. split; [vm_compute; reflexivity|].
  split; [vm_compute; reflexivity|].
  assert (H := transfer_refines_delivery sample_hw sample_epoch 20 16 7 48 _ _ sample_transfer_calls
    eq_refl ltac:(unfold sample_epoch; ilia) ltac:(ilia) ltac:(ilia) ltac:(ilia) eq_refl eq_refl).
  destruct (transfer_run _ _) as [rs t'] in *. apply H.
Defined.
