(* ===== verification/CaptureWindow.v ===== *)
(** * Capture windows (crates/sensor-host/src/capture_window.rs)

    The pure ordering and rotation policy of one recorded stream: the ledger
    plans each record on a copy of itself, commits the plan once the record is
    durable and seals a window by target duration, timing segment or an explicit
    finish. *)

From S2P Require Export Core Measurement MeasurementWire.

Inductive CaptureWindowError :=
| ZeroTargetDuration
| WrongHardware
| WrongBootEpoch
| WindowOverlap (expected actual : SequenceCursor)
| WindowUnrecordedRange (expected actual : SequenceCursor)
| WindowSequenceOverflow
| WindowCounterOverflow
| WindowOrdinalOverflow
| NoOpenWindow
| StaleAppendPlan.

#[export] Instance CaptureWindowError_eq_dec : EqDecision CaptureWindowError.
Proof. solve_decision. Defined.

Abbreviation window := (outcome CaptureWindowError).

(** The policy is its target duration. *)
Record CaptureWindowPolicy := mkPolicy { target_duration_us : Z }.

#[export] Instance CaptureWindowPolicy_eq_dec : EqDecision CaptureWindowPolicy.
Proof. solve_decision. Defined.

Definition window_policy_new (target_duration_us : Z) : window CaptureWindowPolicy :=
  if target_duration_us =? 0 then Err ZeroTargetDuration else Ok (mkPolicy target_duration_us).

Inductive WindowSealReason := TargetDurationReached | TimingSegmentChanged | ExplicitFinish.

#[export] Instance WindowSealReason_eq_dec : EqDecision WindowSealReason.
Proof. solve_decision. Defined.

Record CaptureWindowManifest := mkManifest {
  cm_hardware_id : HardwareId;
  cm_boot_epoch : BootEpoch;
  cm_window_ordinal : Z;
  cm_first_cursor : SequenceCursor;
  cm_end_exclusive : SequenceCursor;
  cm_first_sample_cursor : option SequenceCursor;
  cm_last_sample_cursor : option SequenceCursor;
  cm_sample_count : Z;
  cm_missing_sample_count : Z;
  cm_continuity_break_count : Z;
  cm_seal_reason : WindowSealReason
}.

#[export] Instance CaptureWindowManifest_eq_dec : EqDecision CaptureWindowManifest.
Proof. solve_decision. Defined.

Inductive CaptureWindowRelation := Contiguous | NewBootEpoch.

Inductive CaptureWindowJoinError :=
| DifferentHardware
| NonConsecutiveOrdinal (previous next : Z)
| JoinOverlap (previous_end next_first : SequenceCursor)
| JoinUnrecordedRange (expected actual : SequenceCursor).

Definition relation_to (self next : CaptureWindowManifest)
    : outcome CaptureWindowJoinError CaptureWindowRelation :=
  if negb (bool_decide (cm_hardware_id self = cm_hardware_id next)) then Err DifferentHardware
  else if negb (cm_boot_epoch self =? cm_boot_epoch next) then Ok NewBootEpoch
  else if negb (cm_window_ordinal next =? saturating_add 64 (cm_window_ordinal self) 1)
  then Err (NonConsecutiveOrdinal (cm_window_ordinal self) (cm_window_ordinal next))
  else if cm_first_cursor next <? cm_end_exclusive self
  then Err (JoinOverlap (cm_end_exclusive self) (cm_first_cursor next))
  else if cm_end_exclusive self <? cm_first_cursor next
  then Err (JoinUnrecordedRange (cm_end_exclusive self) (cm_first_cursor next))
  else Ok Contiguous.

Record OpenWindow := mkOpenWindow {
  ow_first_cursor : SequenceCursor;
  ow_end_exclusive : SequenceCursor;
  ow_first_sample_cursor : option SequenceCursor;
  ow_last_sample_cursor : option SequenceCursor;
  ow_sample_count : Z;
  ow_missing_sample_count : Z;
  ow_continuity_break_count : Z;
  ow_timing_segment_id : option Z;
  ow_first_device_time_us : option Z
}.

#[export] Instance OpenWindow_eq_dec : EqDecision OpenWindow.
Proof. solve_decision. Defined.

Definition open_window_new (first_cursor : SequenceCursor) : OpenWindow :=
  mkOpenWindow first_cursor first_cursor None None 0 0 0 None None.

Record CaptureWindowLedger := mkLedger {
  lg_policy : CaptureWindowPolicy;
  lg_hardware_id : HardwareId;
  lg_boot_epoch : BootEpoch;
  lg_next_cursor : SequenceCursor;
  lg_next_window_ordinal : Z;
  lg_open : option OpenWindow
}.

#[export] Instance CaptureWindowLedger_eq_dec : EqDecision CaptureWindowLedger.
Proof. solve_decision. Defined.

Record CaptureAppendPlan := mkPlan {
  plan_before : CaptureWindowLedger;
  plan_after : CaptureWindowLedger;
  target_window_ordinal : Z;
  plan_sealed_manifest : option CaptureWindowManifest
}.

Abbreviation ledger := (st CaptureWindowLedger CaptureWindowError).

Definition ledger_new (policy : CaptureWindowPolicy) (hardware_id : HardwareId)
    (boot_epoch : BootEpoch) (recovered_cursor : SequenceCursor) (first_window_ordinal : Z)
    : CaptureWindowLedger :=
  mkLedger policy hardware_id boot_epoch recovered_cursor first_window_ordinal None.

(** [self.next_cursor = end; self.open = Some(window)]. *)
Definition set_open (end_ : SequenceCursor) (w : OpenWindow) (self : CaptureWindowLedger)
    : CaptureWindowLedger :=
  mkLedger (lg_policy self) (lg_hardware_id self) (lg_boot_epoch self) end_
    (lg_next_window_ordinal self) (Some w).

Definition validate_stream (hardware_id : HardwareId) (boot_epoch : BootEpoch) : ledger unit :=
  self ← get;
  if negb (bool_decide (hardware_id = lg_hardware_id self)) then throw WrongHardware
  else if negb (boot_epoch =? lg_boot_epoch self) then throw WrongBootEpoch
  else mret tt.

Definition validate_next (first : SequenceCursor) : ledger unit :=
  self ← get;
  if first <? lg_next_cursor self then throw (WindowOverlap (lg_next_cursor self) first)
  else if lg_next_cursor self <? first
  then throw (WindowUnrecordedRange (lg_next_cursor self) first)
  else mret tt.

(** [self.open.take()] comes first, so an exhausted ordinal leaves no window. *)
Definition seal (seal_reason : WindowSealReason) : ledger CaptureWindowManifest :=
  self ← get;
  _ ← modify (fun s => mkLedger (lg_policy s) (lg_hardware_id s) (lg_boot_epoch s)
                         (lg_next_cursor s) (lg_next_window_ordinal s) None);
  w ← lift (ok_or (lg_open self) NoOpenWindow);
  let window_ordinal := lg_next_window_ordinal self in
  next ← lift (ok_or (checked_add 64 (lg_next_window_ordinal self) 1) WindowOrdinalOverflow);
  _ ← modify (fun s => mkLedger (lg_policy s) (lg_hardware_id s) (lg_boot_epoch s)
                         (lg_next_cursor s) next (lg_open s));
  mret (mkManifest (lg_hardware_id self) (lg_boot_epoch self) window_ordinal (ow_first_cursor w)
          (ow_end_exclusive w) (ow_first_sample_cursor w) (ow_last_sample_cursor w)
          (ow_sample_count w) (ow_missing_sample_count w) (ow_continuity_break_count w) seal_reason).

(** The window of a chunk, before its counters. *)
Definition open_for_chunk (w : OpenWindow) (chunk : SampleChunk) : OpenWindow :=
  match ow_first_sample_cursor w with
  | Some _ => w
  | None =>
      mkOpenWindow (ow_first_cursor w) (ow_end_exclusive w) (Some (chunk_first (header chunk)))
        (ow_last_sample_cursor w) (ow_sample_count w) (ow_missing_sample_count w)
        (ow_continuity_break_count w) (Some (segment_id (timing chunk)))
        (Some (first_device_time_us (timing chunk)))
  end.

Definition timing_segment_changed (w : OpenWindow) (chunk : SampleChunk) : bool :=
  match ow_timing_segment_id w with
  | Some segment => negb (segment =? segment_id (timing chunk))
  | None => false
  end.

Definition duration_reached (w : OpenWindow) (chunk : SampleChunk) (target : Z) : bool :=
  match ow_first_device_time_us w with
  | Some first_time =>
      match checked_sub (last_device_time_us (timing chunk)) first_time with
      | Some duration => target <=? duration
      | None => false
      end
  | None => false
  end.

Definition apply_chunk (hardware_id : HardwareId) (chunk : SampleChunk)
    : ledger (option CaptureWindowManifest) :=
  _ ← validate_stream hardware_id (chunk_boot_epoch (header chunk));
  let first := chunk_first (header chunk) in
  end_ ← lift (map_err (fun _ => WindowSequenceOverflow) (chunk_end (header chunk)));
  _ ← validate_next first;
  self ← get;
  let w := default (open_window_new first) (lg_open self) in
  let changed := timing_segment_changed w chunk in
  let w := open_for_chunk w chunk in
  last ← lift (sub end_ 1);
  sample_count ← lift (ok_or (checked_add 64 (ow_sample_count w) (chunk_sample_count (header chunk)))
                         WindowCounterOverflow);
  let w :=
    mkOpenWindow (ow_first_cursor w) end_ (ow_first_sample_cursor w) (Some last) sample_count
      (ow_missing_sample_count w) (ow_continuity_break_count w) (ow_timing_segment_id w)
      (ow_first_device_time_us w) in
  _ ← modify (set_open end_ w);
  let reached := negb changed && duration_reached w chunk (target_duration_us (lg_policy self)) in
  if changed then m ← seal TimingSegmentChanged; mret (Some m)
  else if reached then m ← seal TargetDurationReached; mret (Some m)
  else mret None.

Definition apply_gap (gap : Gap) : ledger (option CaptureWindowManifest) :=
  _ ← validate_stream (gap_hardware_id gap) (gap_boot_epoch gap);
  let first := first_missing gap in
  _ ← validate_next first;
  end_ ← lift (ok_or (checked_advance first (missing_count gap)) WindowSequenceOverflow);
  self ← get;
  let w := default (open_window_new first) (lg_open self) in
  missing ← lift (ok_or (checked_add 64 (ow_missing_sample_count w) (missing_count gap))
                    WindowCounterOverflow);
  _ ← modify (set_open end_
    (mkOpenWindow (ow_first_cursor w) end_ (ow_first_sample_cursor w) (ow_last_sample_cursor w)
       (ow_sample_count w) missing (ow_continuity_break_count w) (ow_timing_segment_id w)
       (ow_first_device_time_us w)));
  mret None.

Definition apply_continuity_break (observed : ContinuityBreak)
    : ledger (option CaptureWindowManifest) :=
  _ ← validate_stream (break_hardware_id observed) (break_boot_epoch observed);
  _ ← validate_next (break_at observed);
  end_ ← lift (break_end observed);
  self ← get;
  let w := default (open_window_new (break_at observed)) (lg_open self) in
  breaks ← lift (ok_or (checked_add 64 (ow_continuity_break_count w) 1) WindowCounterOverflow);
  _ ← modify (set_open end_
    (mkOpenWindow (ow_first_cursor w) end_ (ow_first_sample_cursor w) (ow_last_sample_cursor w)
       (ow_sample_count w) (ow_missing_sample_count w) breaks (ow_timing_segment_id w)
       (ow_first_device_time_us w)));
  mret None.

Definition finish : ledger (option CaptureWindowManifest) :=
  self ← get;
  match lg_open self with
  | None => mret None
  | Some _ => m ← seal ExplicitFinish; mret (Some m)
  end.

(** [plan_chunk], [plan_gap], [plan_continuity_break]: the operation on a clone. *)
Definition plan (m : ledger (option CaptureWindowManifest)) (self : CaptureWindowLedger)
    : window CaptureAppendPlan :=
  match m self with
  | (Ok sealed, after) => Ok (mkPlan self after (lg_next_window_ordinal self) sealed)
  | (Err e, _) => Err e
  | (Panic, _) => Panic
  end.

Definition plan_chunk (hardware_id : HardwareId) (chunk : SampleChunk)
    : CaptureWindowLedger -> window CaptureAppendPlan := plan (apply_chunk hardware_id chunk).
Definition plan_gap (gap : Gap) : CaptureWindowLedger -> window CaptureAppendPlan :=
  plan (apply_gap gap).
Definition plan_continuity_break (observed : ContinuityBreak)
    : CaptureWindowLedger -> window CaptureAppendPlan := plan (apply_continuity_break observed).

Definition commit (p : CaptureAppendPlan) : ledger (option CaptureWindowManifest) :=
  self ← get;
  if negb (bool_decide (self = plan_before p)) then throw StaleAppendPlan
  else _ ← modify (fun _ => plan_after p); mret (plan_sealed_manifest p).

(** What a Capture file stores (capture_wal.rs). *)
Inductive CaptureRecord :=
| CSampleChunk (chunk : SampleChunk)
| CGap (gap : Gap)
| CContinuityBreak (observed : ContinuityBreak)
| CWindowSeal.

#[export] Instance CaptureRecord_eq_dec : EqDecision CaptureRecord.
Proof. solve_decision. Defined.

(** How the writer and recovery pass one record through the ledger. *)
Definition ledger_append (hardware_id : HardwareId) (record : CaptureRecord)
    : ledger (option CaptureWindowManifest) :=
  match record with
  | CSampleChunk chunk => self ← get; p ← lift (plan_chunk hardware_id chunk self); commit p
  | CGap gap => self ← get; p ← lift (plan_gap gap self); commit p
  | CContinuityBreak observed => self ← get; p ← lift (plan_continuity_break observed self); commit p
  | CWindowSeal => finish
  end.

(** ** The ledger accounts for every sequence *)

(** A record of the stream [(hw, e)] as the writer stages it and recovery decodes it. *)
Definition capture_record_valid (hw : HardwareId) (e : BootEpoch) (r : CaptureRecord) : Prop :=
  match r with
  | CSampleChunk c => typed c /\ sample_chunk_validate c = Ok tt /\ chunk_boot_epoch (header c) = e
  | CGap g => gap_valid g /\ gap_hardware_id g = hw /\ gap_boot_epoch g = e
  | CContinuityBreak b => break_valid b /\ break_hardware_id b = hw /\ break_boot_epoch b = e
  | CWindowSeal => True
  end.

(** The sequences a record stands for. *)
Definition capture_range (r : CaptureRecord) : list (Z * Z) :=
  match r with
  | CSampleChunk c => [(chunk_first (header c), chunk_sample_count (header c))]
  | CGap g => [(first_missing g, missing_count g)]
  | CContinuityBreak b => [(break_at b, 1)]
  | CWindowSeal => []
  end.

(** The counters of a window add up to its range. *)
Definition counters_ok (first end_ samples missing breaks : Z) : Prop :=
  0 <= first < end_ /\ end_ < 2 ^ 64 /\ 0 <= samples /\ 0 <= missing /\ 0 <= breaks /\
  samples + missing + breaks = end_ - first.

Definition manifest_wf (m : CaptureWindowManifest) : Prop :=
  counters_ok (cm_first_cursor m) (cm_end_exclusive m) (cm_sample_count m)
    (cm_missing_sample_count m) (cm_continuity_break_count m).

(** Where the records of the open window begin. *)
Definition open_start (L : CaptureWindowLedger) : SequenceCursor :=
  match lg_open L with Some w => ow_first_cursor w | None => lg_next_cursor L end.

Definition ledger_wf (hw : HardwareId) (e : BootEpoch) (L : CaptureWindowLedger) : Prop :=
  lg_hardware_id L = hw /\ lg_boot_epoch L = e /\ 0 <= lg_next_cursor L < 2 ^ 64 /\
  match lg_open L with
  | Some w =>
      ow_end_exclusive w = lg_next_cursor L /\
      counters_ok (ow_first_cursor w) (ow_end_exclusive w) (ow_sample_count w)
        (ow_missing_sample_count w) (ow_continuity_break_count w)
  | None => True
  end.

(** [ms] covers [[a, b)] with consecutive ordinals from [o] to [o']. *)
Fixpoint partitions (hw : HardwareId) (e o a : Z) (ms : list CaptureWindowManifest) (o' b : Z) : Prop :=
  match ms with
  | [] => o = o' /\ a = b
  | m :: ms =>
      cm_hardware_id m = hw /\ cm_boot_epoch m = e /\ cm_window_ordinal m = o /\
      cm_first_cursor m = a /\ manifest_wf m /\ partitions hw e (o + 1) (cm_end_exclusive m) ms o' b
  end.

Definition manifest_list (m : option CaptureWindowManifest) : list CaptureWindowManifest :=
  match m with Some m => [m] | None => [] end.

(** A sequence of records, up to the first refusal. *)
Fixpoint ledger_run (hw : HardwareId) (rs : list CaptureRecord) (L : CaptureWindowLedger)
    : window (list CaptureWindowManifest * CaptureWindowLedger) :=
  match rs with
  | [] => Ok ([], L)
  | r :: rs =>
      match ledger_append hw r L with
      | (Ok m, L) => '(ms, L) ← ledger_run hw rs L; Ok (manifest_list m ++ ms, L)
      | (Err err, _) => Err err
      | (Panic, _) => Panic
      end
  end.

(** The record continues the ledger: nothing missing, nothing twice. *)
Definition continues (L : CaptureWindowLedger) (r : CaptureRecord) : bool :=
  forallb (fun '(first, _) => first =? lg_next_cursor L) (capture_range r).

Definition range_count (r : CaptureRecord) : Z :=
  match capture_range r with (_, n) :: _ => n | [] => 0 end.

Lemma plan_commit (m : ledger (option CaptureWindowManifest)) (L : CaptureWindowLedger) :
  (self ← get; p ← lift (plan m self); commit p) L =
  match m L with
  | (Ok sealed, L') => (Ok sealed, L')
  | (Err e, _) => (Err e, L)
  | (Panic, _) => (Panic, L)
  end.
Proof.
  unfold plan, commit. st_eval. destruct (m L) as [[sealed|err|] L']; cbn; [|done|done].
  by rewrite bool_decide_eq_true_2.
Qed.

(** [cbn] does not descend into the arguments of [mbind]. *)
Ltac window_fields :=
  lazy beta iota delta [ow_first_cursor ow_end_exclusive ow_first_sample_cursor ow_last_sample_cursor
    ow_sample_count ow_missing_sample_count ow_continuity_break_count ow_timing_segment_id
    ow_first_device_time_us ok_or].

Section LedgerStep.
Context (hw : HardwareId) (e : BootEpoch) (L : CaptureWindowLedger) (Hwf : ledger_wf hw e L).

(** The effect of an accepted record. *)
Definition appended (r : CaptureRecord) (m : option CaptureWindowManifest)
  (L' : CaptureWindowLedger) : Prop :=
ledger_wf hw e L' /\ lg_policy L' = lg_policy L /\
lg_next_cursor L' = lg_next_cursor L + range_count r /\
partitions hw e (lg_next_window_ordinal L) (open_start L) (manifest_list m)
  (lg_next_window_ordinal L') (open_start L').

Lemma validate_stream_own {A : Type} (k : unit -> ledger A) :
(validate_stream hw e ≫= k) L = k tt L.
Proof.
destruct Hwf as (Hh & He' & _). unfold validate_stream. autorewrite with st.
by rewrite Hh, He', bool_decide_eq_true_2, Z.eqb_refl.
Qed.

Lemma validate_next_at {A : Type} (first : SequenceCursor) (k : unit -> ledger A) :
(validate_next first ≫= k) L =
if first =? lg_next_cursor L then k tt L
else (Err (if first <? lg_next_cursor L then WindowOverlap (lg_next_cursor L) first
           else WindowUnrecordedRange (lg_next_cursor L) first), L).
Proof.
unfold validate_next. autorewrite with st.
destruct (Z.eqb_spec first (lg_next_cursor L)) as [->|Hne]; [by rewrite Z.ltb_irrefl|].
destruct (Z.ltb_spec first (lg_next_cursor L)); [done|].
by rewrite (proj2 (Z.ltb_lt (lg_next_cursor L) first)) by lia.
Qed.

(** The window a record is added to. *)
Definition current (first : SequenceCursor) : OpenWindow := default (open_window_new first) (lg_open L).

Lemma current_counters :
let w := current (lg_next_cursor L) in
ow_first_cursor w = open_start L /\ 0 <= ow_first_cursor w <= lg_next_cursor L /\
0 <= ow_sample_count w /\ 0 <= ow_missing_sample_count w /\ 0 <= ow_continuity_break_count w /\
ow_sample_count w + ow_missing_sample_count w + ow_continuity_break_count w
  = lg_next_cursor L - ow_first_cursor w.
Proof.
destruct Hwf as (_ & _ & Hn & Ho). unfold current, open_start, counters_ok in *.
destruct (lg_open L) as [w|]; cbn; [|lia]. destruct Ho as (He' & Hc). rewrite He' in Hc. lia.
Qed.

(** A window with [n > 0] further sequences, kept open. *)
Lemma appended_open (r : CaptureRecord) (w : OpenWindow) :
ow_first_cursor w = open_start L -> ow_end_exclusive w = lg_next_cursor L + range_count r ->
counters_ok (open_start L) (ow_end_exclusive w) (ow_sample_count w) (ow_missing_sample_count w)
  (ow_continuity_break_count w) ->
appended r None (set_open (ow_end_exclusive w) w L).
Proof.
intros Hf He' Hc. destruct Hwf as (Hh & Hb & Hn & _). unfold appended, ledger_wf, counters_ok in *.
cbn. rewrite Hf. split_and!; auto; lia.
Qed.

(** The same window, sealed. *)
Lemma appended_sealed (r : CaptureRecord) (w : OpenWindow) (reason : WindowSealReason) :
ow_first_cursor w = open_start L -> ow_end_exclusive w = lg_next_cursor L + range_count r ->
counters_ok (open_start L) (ow_end_exclusive w) (ow_sample_count w) (ow_missing_sample_count w)
  (ow_continuity_break_count w) ->
lg_next_window_ordinal L + 1 < 2 ^ 64 ->
exists m L', (m ← seal reason; mret (Some m)) (set_open (ow_end_exclusive w) w L) = (Ok (Some m), L') /\
  appended r (Some m) L'.
Proof.
intros Hf He' Hc Ho. destruct Hwf as (Hh & Hb & Hn & _). unfold seal, appended, ledger_wf, counters_ok in *.
st_eval. cbn [lg_open set_open lg_next_window_ordinal]. rewrite checked_add_ok by done.
eexists _, _. split; [reflexivity|]. cbn. unfold manifest_wf, counters_ok. cbn. rewrite Hf.
split_and!; auto; lia.
Qed.

(** The ordinals are used up: the seal is refused. *)
Lemma seal_exhausted {B : Type} (reason : WindowSealReason) (k : CaptureWindowManifest -> ledger B) (w : OpenWindow) :
2 ^ 64 <= lg_next_window_ordinal L + 1 ->
exists L', (seal reason ≫= k) (set_open (ow_end_exclusive w) w L) = (Err WindowOrdinalOverflow, L').
Proof.
intros Ho. unfold seal. st_eval. cbn [lg_open set_open lg_next_window_ordinal].
rewrite (proj2 (checked_add_None _ _ _)) by done. by eexists.
Qed.

(** What an operation of the ledger does with a valid record: it accepts what
  continues the ledger, unless it must seal and no ordinal is left. *)
Definition step_outcome (r : CaptureRecord) (m : ledger (option CaptureWindowManifest)) : Prop :=
if continues L r then
  (exists sealed L', m L = (Ok sealed, L') /\ appended r sealed L') \/
  (2 ^ 64 <= lg_next_window_ordinal L + 1 /\ exists err L', m L = (Err err, L'))
else exists err L', m L = (Err err, L').

Definition step_ok (r : CaptureRecord) (m : ledger (option CaptureWindowManifest)) : Prop :=
if continues L r then exists sealed L', m L = (Ok sealed, L') /\ appended r sealed L'
else exists err L', m L = (Err err, L').

Lemma step_outcome_ok (r : CaptureRecord) m :
lg_next_window_ordinal L + 1 < 2 ^ 64 -> step_outcome r m -> step_ok r m.
Proof. unfold step_outcome, step_ok. destruct (continues L r); [intros ? [?|[? _]]; [done|lia]|done]. Qed.

Lemma apply_gap_ok (g : Gap) : capture_record_valid hw e (CGap g) -> step_outcome (CGap g) (apply_gap g).
Proof.
intros (((_ & _ & Hf & Hc) & Hne & Hend) & Hh & He'). pose proof current_counters as Hcur.
unfold step_outcome, continues, apply_gap. cbn [capture_range forallb]. rewrite andb_true_r, Hh, He'.
rewrite validate_stream_own, validate_next_at.
destruct (Z.eqb_spec (first_missing g) (lg_next_cursor L)) as [Hfirst|Hne']; [|by eexists _, _].
rewrite Hfirst in *. unfold checked_advance. rewrite checked_add_ok by ilia.
cbn [ok_or]. autorewrite with st.
change (default (open_window_new (lg_next_cursor L)) (lg_open L)) with (current (lg_next_cursor L)).
cbv zeta in Hcur. destruct (current (lg_next_cursor L)) as [f en fs ls sc mc bc ts ft].
cbn in Hcur. window_fields. rewrite checked_add_ok by ilia. cbn [ok_or]. autorewrite with st.
left. eexists _, _. split; [reflexivity|].
match goal with |- appended _ _ (set_open _ ?w _) => apply (appended_open _ w) end; window_fields;
  [tauto|done|unfold counters_ok; ilia].
Qed.

Lemma apply_break_ok (b : ContinuityBreak) :
capture_record_valid hw e (CContinuityBreak b) ->
step_outcome (CContinuityBreak b) (apply_continuity_break b).
Proof.
intros (Hv & Hh & He'). pose proof Hv as ((_ & _ & Hat) & Hend). pose proof current_counters as Hcur.
unfold step_outcome, continues, apply_continuity_break. cbn [capture_range forallb].
rewrite andb_true_r, Hh, He', validate_stream_own, validate_next_at.
destruct (Z.eqb_spec (break_at b) (lg_next_cursor L)) as [Hfirst|Hne']; [|by eexists _, _].
rewrite break_end_valid by done. rewrite Hfirst in *. autorewrite with st.
change (default (open_window_new (lg_next_cursor L)) (lg_open L)) with (current (lg_next_cursor L)).
cbv zeta in Hcur. destruct (current (lg_next_cursor L)) as [f en fs ls sc mc bc ts ft].
cbn in Hcur. window_fields. rewrite checked_add_ok by ilia. cbn [ok_or]. autorewrite with st.
left. eexists _, _. split; [reflexivity|].
match goal with |- appended _ _ (set_open _ ?w _) => apply (appended_open _ w) end; window_fields;
  [tauto|done|unfold counters_ok; ilia].
Qed.

Lemma sealed_outcome (r : CaptureRecord) (w : OpenWindow) (reason : WindowSealReason) :
ow_first_cursor w = open_start L -> ow_end_exclusive w = lg_next_cursor L + range_count r ->
counters_ok (open_start L) (ow_end_exclusive w) (ow_sample_count w) (ow_missing_sample_count w)
  (ow_continuity_break_count w) ->
let m := (m ← seal reason; mret (Some m)) (set_open (ow_end_exclusive w) w L) in
(exists sealed L', m = (Ok sealed, L') /\ appended r sealed L') \/
(2 ^ 64 <= lg_next_window_ordinal L + 1 /\ exists err L', m = (Err err, L')).
Proof.
intros Hf He' Hc. cbv zeta. destruct (decide (lg_next_window_ordinal L + 1 < 2 ^ 64)) as [Ho|Ho].
- left. destruct (appended_sealed r w reason Hf He' Hc Ho) as (m & L' & -> & Ha). eauto.
- right. split; [lia|]. edestruct (seal_exhausted (B:=option CaptureWindowManifest) reason) as (L' & ->); [lia|eauto].
Qed.

Lemma apply_chunk_ok (c : SampleChunk) :
capture_record_valid hw e (CSampleChunk c) -> step_outcome (CSampleChunk c) (apply_chunk hw c).
Proof.
intros (Ht & Hv & He'). pose proof current_counters as Hcur.
pose proof Ht as ((_ & _ & _ & Hf0 & Hc0) & _).
apply sample_chunk_validate_Ok in Hv as (Hst & _ & _ & _).
apply chunk_structure_Ok in Hst as (_ & _ & Hne & Hend & _).
unfold step_outcome, continues, apply_chunk. cbn [capture_range forallb].
rewrite andb_true_r, He', validate_stream_own. unfold chunk_end, checked_advance.
rewrite checked_add_ok by done. cbn [ok_or map_err]. autorewrite with st. rewrite validate_next_at.
destruct (Z.eqb_spec (chunk_first (header c)) (lg_next_cursor L)) as [Hfirst|Hne']; [|by eexists _, _].
rewrite Hfirst in *. autorewrite with st. rewrite sub_ok by ilia. autorewrite with st.
change (default (open_window_new (lg_next_cursor L)) (lg_open L)) with (current (lg_next_cursor L)).
cbv zeta in Hcur. set (w := current (lg_next_cursor L)) in *.
assert (Hopen : ow_first_cursor (open_for_chunk w c) = ow_first_cursor w /\
  ow_sample_count (open_for_chunk w c) = ow_sample_count w /\
  ow_missing_sample_count (open_for_chunk w c) = ow_missing_sample_count w /\
  ow_continuity_break_count (open_for_chunk w c) = ow_continuity_break_count w).
{ unfold open_for_chunk. by destruct (ow_first_sample_cursor w). }
destruct Hopen as (Ho1 & Ho2 & Ho3 & Ho4). rewrite Ho1, Ho2, Ho3, Ho4.
rewrite checked_add_ok by ilia. cbn [ok_or]. autorewrite with st.
match goal with |- context [set_open _ ?w1 L] => set (w' := w1) end.
assert (Hw' : ow_first_cursor w' = open_start L /\
  ow_end_exclusive w' = lg_next_cursor L + range_count (CSampleChunk c) /\
  counters_ok (open_start L) (ow_end_exclusive w') (ow_sample_count w')
    (ow_missing_sample_count w') (ow_continuity_break_count w')).
{ subst w'. unfold counters_ok. cbn [ow_first_cursor ow_end_exclusive ow_sample_count
    ow_missing_sample_count ow_continuity_break_count]. split; [tauto|]. split; [done|]. ilia. }
destruct Hw' as (Hw1 & Hw2 & Hw3). change (lg_next_cursor L + _) with (ow_end_exclusive w').
destruct (timing_segment_changed w c); cbn [negb andb]; [|destruct (duration_reached _ _ _)].
- by apply sealed_outcome.
- by apply sealed_outcome.
- left. eexists _, _. split; [reflexivity|]. by apply appended_open.
Qed.

Lemma finish_ok : step_outcome CWindowSeal finish.
Proof.
unfold step_outcome, continues, finish. cbn [capture_range forallb]. autorewrite with st.
destruct Hwf as (Hh & He' & Hn & Ho). destruct (lg_open L) as [w|] eqn:Hw.
- destruct Ho as (Hend & Hc).
  assert (HL : L = set_open (ow_end_exclusive w) w L).
  { destruct L as [p h ep n o op]. cbn in *. by subst. }
  pose proof (sealed_outcome CWindowSeal w ExplicitFinish) as Hseal. cbv zeta in Hseal. rewrite <- HL in Hseal.
  apply Hseal; [unfold open_start; by rewrite Hw|rewrite Hend; cbn; lia|unfold open_start; by rewrite Hw].
- left. eexists _, L. split; [reflexivity|]. unfold appended, ledger_wf. rewrite Hw. cbn.
  split_and!; auto; lia.
Qed.

Lemma plan_commit_ok (r : CaptureRecord) (m : ledger (option CaptureWindowManifest)) :
step_outcome r m -> step_outcome r (self ← get; p ← lift (plan m self); commit p).
Proof.
unfold step_outcome. rewrite plan_commit. destruct (continues L r).
- intros [(sealed & L' & -> & Ha)|(Ho & err & L' & ->)]; eauto 10.
- intros (err & L' & ->). eauto.
Qed.

Lemma ledger_append_outcome (r : CaptureRecord) :
capture_record_valid hw e r -> step_outcome r (ledger_append hw r).
Proof.
destruct r; intros Hv; cbn [ledger_append]; [..|apply finish_ok]; apply plan_commit_ok;
  auto using apply_chunk_ok, apply_gap_ok, apply_break_ok.
Qed.

Lemma ledger_append_ok (Ho : lg_next_window_ordinal L + 1 < 2 ^ 64) (r : CaptureRecord) :
capture_record_valid hw e r -> step_ok r (ledger_append hw r).
Proof. auto using step_outcome_ok, ledger_append_outcome. Qed.

(** Whatever the ordinals: no panic, and an accepted record continues the ledger. *)
Lemma ledger_append_cases (r : CaptureRecord) :
capture_record_valid hw e r ->
match ledger_append hw r L with
| (Ok sealed, L') => appended r sealed L'
| (Err _, _) => True
| (Panic, _) => False
end.
Proof.
intros Hv%ledger_append_outcome. unfold step_outcome in Hv.
destruct (continues L r); [destruct Hv as [(? & ? & -> & ?)|(_ & ? & ? & ->)]|destruct Hv as (? & ? & ->)]; done.
Qed.
End LedgerStep.

Lemma partitions_app hw e o a ms o1 b ms' o2 c :
  partitions hw e o a ms o1 b -> partitions hw e o1 b ms' o2 c -> partitions hw e o a (ms ++ ms') o2 c.
Proof.
  revert o a. induction ms as [|m ms IH]; intros o a; cbn; [by intros (-> & ->)|].
  intros (Hh & He & Ho & Ha & Hw & Hp) Hp'. auto 10.
Qed.

Lemma partitions_length hw e o a ms o' b :
  partitions hw e o a ms o' b -> o' = o + Z.of_nat (length ms).
Proof.
  revert o a. induction ms as [|m ms IH]; intros o a; cbn [partitions length]; [lia|].
  intros (_ & _ & _ & _ & _ & Hp). rewrite (IH _ _ Hp). lia.
Qed.

(** The ranges of a sequence of records. *)
Definition capture_ranges (rs : list CaptureRecord) : list (Z * Z) := concat (capture_range <$> rs).

(** A valid record has a non-empty range, or none. *)
Lemma capture_range_valid hw e r :
  capture_record_valid hw e r ->
  (capture_range r = [] /\ range_count r = 0) \/
  exists f n, capture_range r = [(f, n)] /\ range_count r = n /\ 0 < n.
Proof.
  destruct r as [c|g|b|]; cbn [capture_record_valid capture_range range_count].
  - intros (((_ & _ & _ & _ & Hc0) & _) & Hv & _). right. apply sample_chunk_validate_Ok in Hv as (Hst & _).
    apply chunk_structure_Ok in Hst as (_ & _ & Hne & _). eexists _, _. split_and!; [done|done|].
    unfold unsigned in Hc0. lia.
  - intros (((_ & _ & _ & Hc) & Hne & _) & _). right. eexists _, _. split_and!; [done|done|].
    unfold unsigned in Hc. lia.
  - intros _. right. eexists _, _. split_and!; [done|done|lia].
  - by left.
Qed.

Lemma ledger_run_sound hw e rs L :
  Forall (capture_record_valid hw e) rs -> ledger_wf hw e L ->
  lg_next_window_ordinal L + Z.of_nat (length rs) < 2 ^ 64 ->
  match ledger_run hw rs L with
  | Ok (ms, L') =>
      ledger_wf hw e L' /\ lg_policy L' = lg_policy L /\
      tiles (lg_next_cursor L) (capture_ranges rs) (lg_next_cursor L') /\
      partitions hw e (lg_next_window_ordinal L) (open_start L) ms
        (lg_next_window_ordinal L') (open_start L')
  | Err _ => forall b, ~ tiles (lg_next_cursor L) (capture_ranges rs) b
  | Panic => False
  end.
Proof.
  intros Hrs. revert L. induction Hrs as [|r rs Hr Hrs IH]; intros L Hwf Ho; cbn [ledger_run length] in *.
  { split_and!; done. }
  pose proof (ledger_append_ok hw e L Hwf ltac:(lia) r Hr) as Hstep. unfold step_ok in Hstep.
  change (capture_ranges (r :: rs)) with (capture_range r ++ capture_ranges rs).
  destruct (continues L r) eqn:Hcont.
  - destruct Hstep as (sealed & L1 & -> & Hwf1 & Hpol & Hnext & Hp).
    pose proof (partitions_length _ _ _ _ _ _ _ Hp) as Hlen.
    assert (Hm : (length (manifest_list sealed) <= 1)%nat) by (destruct sealed; cbn; lia).
    specialize (IH L1 Hwf1 ltac:(lia)).
    assert (Htiles : forall b, tiles (lg_next_cursor L) (capture_range r ++ capture_ranges rs) b <->
      tiles (lg_next_cursor L1) (capture_ranges rs) b).
    { intros b. rewrite Hnext. unfold continues in Hcont.
      destruct (capture_range_valid hw e r Hr) as [(Hc & Hn)|(f & n & Hc & Hn & Hpos)];
        rewrite Hc in *; rewrite Hn; cbn in *; [by rewrite Z.add_0_r|].
      apply andb_true_iff in Hcont as (Hf%Z.eqb_eq & _). subst f. naive_solver. }
    destruct (ledger_run hw rs L1) as [[ms L2]|err|]; cbn; [|by intros b ?%Htiles; eapply IH|done].
    destruct IH as (Hwf2 & Hpol2 & Ht & Hp2). split; [done|]. split; [congruence|].
    split; [by apply Htiles|]. by eapply partitions_app.
  - destruct Hstep as (err & L1 & ->). intros b Ht. unfold continues in Hcont.
    destruct (capture_range_valid hw e r Hr) as [(Hc & _)|(f & n & Hc & _)]; rewrite Hc in *; [done|].
    cbn in Ht, Hcont. destruct Ht as (-> & _). by rewrite Z.eqb_refl in Hcont.
Qed.

(** What a run that is accepted leaves, whatever the ordinals. *)
Lemma ledger_run_partitions hw e rs L ms L' :
  Forall (capture_record_valid hw e) rs -> ledger_wf hw e L -> ledger_run hw rs L = Ok (ms, L') ->
  ledger_wf hw e L' /\
  partitions hw e (lg_next_window_ordinal L) (open_start L) ms (lg_next_window_ordinal L') (open_start L').
Proof.
  intros Hrs. revert L ms. induction Hrs as [|r rs Hr Hrs IH]; intros L ms Hwf; cbn [ledger_run].
  { by intros [= <- <-]. }
  pose proof (ledger_append_cases hw e L Hwf r Hr) as Hcases.
  destruct (ledger_append hw r L) as [[m|err|] L1]; [|done|done]. destruct Hcases as (Hwf1 & _ & _ & Hp).
  intros ([ms1 L2] & Hrun & [= <- <-])%outcome_bind_Ok. destruct (IH L1 ms1 Hwf1 Hrun) as (Hwf2 & Hp2).
  split; [done|]. by eapply partitions_app.
Qed.

Lemma partitions_contiguous hw e o a ms o' b i m1 m2 :
  partitions hw e o a ms o' b -> 0 <= o -> o' < 2 ^ 64 ->
  ms !! i = Some m1 -> ms !! S i = Some m2 -> relation_to m1 m2 = Ok Contiguous.
Proof.
  revert o a i. induction ms as [|m ms IH]; intros o a i Hp Ho Ho' H1 H2; [done|].
  pose proof (partitions_length _ _ _ _ _ _ _ Hp) as Hlen.
  destruct Hp as (Hh & He & Hor & _ & _ & Hp). destruct i as [|i]; [|by eapply (IH (o + 1)); eauto; lia].
  cbn in H1, H2. injection H1 as ->. destruct ms as [|m' ms]; [done|]. injection H2 as ->.
  destruct Hp as (Hh' & He' & Hor' & Hf' & _ & _). cbn [length] in Hlen.
  unfold relation_to. rewrite bool_decide_eq_true_2 by congruence.
  rewrite He, He', Hor, Hor', Hf', Z.eqb_refl. unfold saturating_add. cbn [negb].
  rewrite Z.min_l, Z.eqb_refl, Z.ltb_irrefl by lia. done.
Qed.

Lemma ledger_run_length hw rs L ms L' :
  ledger_run hw rs L = Ok (ms, L') -> (length ms <= length rs)%nat.
Proof.
  revert L ms. induction rs as [|r rs IH]; intros L ms; cbn [ledger_run]; [by intros [= <- _]|].
  destruct (ledger_append hw r L) as [[m|err|] L1]; [|done|done].
  destruct (ledger_run hw rs L1) as [[ms1 L2]|err|] eqn:Hr; cbn; [|done|done].
  intros [= <- <-]. apply IH in Hr. rewrite length_app. destruct m; cbn; lia.
Qed.

(** ** What a window contains

    The reference: the records cut into windows by what they are, without the
    ledger's bookkeeping. *)

Definition record_samples (r : CaptureRecord) : Z :=
  match r with CSampleChunk c => chunk_sample_count (header c) | _ => 0 end.
Definition record_missing (r : CaptureRecord) : Z :=
  match r with CGap g => missing_count g | _ => 0 end.
Definition record_breaks (r : CaptureRecord) : Z :=
  match r with CContinuityBreak _ => 1 | _ => 0 end.
Fixpoint total (f : CaptureRecord -> Z) (rs : list CaptureRecord) : Z :=
  match rs with [] => 0 | r :: rs => f r + total f rs end.

Lemma total_app (f : CaptureRecord -> Z) (rs rs' : list CaptureRecord) :
  total f (rs ++ rs') = total f rs + total f rs'.
Proof. induction rs as [|r rs IH]; cbn [app total]; lia. Qed.

Definition record_chunk (r : CaptureRecord) : option SampleChunk :=
  match r with CSampleChunk c => Some c | _ => None end.
Definition first_chunk (g : list CaptureRecord) : option SampleChunk := head (omap record_chunk g).
Definition last_chunk (g : list CaptureRecord) : option SampleChunk := list.last (omap record_chunk g).

Definition first_sample (c : SampleChunk) : Z := chunk_first (header c).
Definition last_sample (c : SampleChunk) : Z := chunk_first (header c) + chunk_sample_count (header c) - 1.

(** Whether the window of the records [g] ends with the further record [r]: a
    chunk of another timing segment than the window's first ends it, so does one
    that ends the target duration after the beginning of the first, and so does
    an explicit seal of a window that has begun. *)
Definition closes (target : Z) (g : list CaptureRecord) (r : CaptureRecord) : option WindowSealReason :=
  match r with
  | CSampleChunk c =>
      let from := default c (first_chunk g) in
      if negb (segment_id (timing from) =? segment_id (timing c)) then Some TimingSegmentChanged
      else if (first_device_time_us (timing from) <=? last_device_time_us (timing c)) &&
              (target <=? last_device_time_us (timing c) - first_device_time_us (timing from))
      then Some TargetDurationReached
      else None
  | CWindowSeal => if bool_decide (capture_ranges g = []) then None else Some ExplicitFinish
  | _ => None
  end.

(** The finished windows of [rs], after the records [g] of an unfinished one, and
    the records that stay unfinished. *)
Fixpoint windows (target : Z) (g rs : list CaptureRecord) :
    list (list CaptureRecord * WindowSealReason) * list CaptureRecord :=
  match rs with
  | [] => ([], g)
  | r :: rs =>
      match closes target g r with
      | Some reason => let '(ws, rest) := windows target [] rs in ((g ++ [r], reason) :: ws, rest)
      | None => windows target (g ++ [r]) rs
      end
  end.

(** A manifest that says of the records of its window what they are. *)
Record manifest_of (m : CaptureWindowManifest) (w : list CaptureRecord * WindowSealReason) : Prop := {
  mo_samples : cm_sample_count m = total record_samples (fst w);
  mo_missing : cm_missing_sample_count m = total record_missing (fst w);
  mo_breaks : cm_continuity_break_count m = total record_breaks (fst w);
  mo_first_sample : cm_first_sample_cursor m = first_sample <$> first_chunk (fst w);
  mo_last_sample : cm_last_sample_cursor m = last_sample <$> last_chunk (fst w);
  mo_range : tiles (cm_first_cursor m) (capture_ranges (fst w)) (cm_end_exclusive m);
  mo_reason : cm_seal_reason m = snd w
}.

(** The same of the open window, with what decides its end. *)
Record window_of (g : list CaptureRecord) (w : OpenWindow) : Prop := {
  wo_samples : ow_sample_count w = total record_samples g;
  wo_missing : ow_missing_sample_count w = total record_missing g;
  wo_breaks : ow_continuity_break_count w = total record_breaks g;
  wo_first_sample : ow_first_sample_cursor w = first_sample <$> first_chunk g;
  wo_last_sample : ow_last_sample_cursor w = last_sample <$> last_chunk g;
  wo_segment : ow_timing_segment_id w = (fun c => segment_id (timing c)) <$> first_chunk g;
  wo_time : ow_first_device_time_us w = (fun c => first_device_time_us (timing c)) <$> first_chunk g;
  wo_range : tiles (ow_first_cursor w) (capture_ranges g) (ow_end_exclusive w)
}.

(** The records [g] since the last seal: those of the open window, or only seals. *)
Definition unfinished (g : list CaptureRecord) (L : CaptureWindowLedger) : Prop :=
  match lg_open L with
  | Some w => window_of g w /\ ow_end_exclusive w = lg_next_cursor L /\ capture_ranges g <> []
  | None => Forall (eq CWindowSeal) g
  end.

Lemma window_of_seals (g : list CaptureRecord) (first : Z) :
  Forall (eq CWindowSeal) g -> window_of g (open_window_new first) /\ capture_ranges g = [].
Proof.
  intros Hg. assert (total record_samples g = 0 /\ total record_missing g = 0 /\ total record_breaks g = 0 /\
    omap record_chunk g = [] /\ capture_ranges g = []) as (H1 & H2 & H3 & H4 & H5)
    by (induction Hg as [|r g <- _ (IH1 & IH2 & IH3 & IH4 & IH5)]; cbn; by split_and!).
  split; [|done]. split; unfold first_chunk, last_chunk; cbn; rewrite ?H1, ?H2, ?H3, ?H4, ?H5; done.
Qed.

Section Contents.
Context (g : list CaptureRecord) (L : CaptureWindowLedger) (Hg : unfinished g L).

Lemma current_window : let w := current L (lg_next_cursor L) in
  window_of g w /\ ow_end_exclusive w = lg_next_cursor L.
Proof.
  unfold unfinished, current in *. destruct (lg_open L) as [w|]; cbn; [tauto|].
  split; [by apply window_of_seals|done].
Qed.

Lemma capture_ranges_snoc (r : CaptureRecord) : capture_ranges (g ++ [r]) = capture_ranges g ++ capture_range r.
Proof. unfold capture_ranges. rewrite fmap_app, concat_app. cbn. by rewrite app_nil_r. Qed.

Lemma first_chunk_snoc (r : CaptureRecord) :
  first_chunk (g ++ [r]) = match first_chunk g with Some c => Some c | None => record_chunk r end.
Proof.
  unfold first_chunk. rewrite omap_app. destruct (omap record_chunk g) as [|c cs]; [|done].
  cbn. by destruct (record_chunk r).
Qed.

Lemma last_chunk_snoc (r : CaptureRecord) :
  last_chunk (g ++ [r]) = match record_chunk r with Some c => Some c | None => last_chunk g end.
Proof.
  unfold last_chunk. rewrite omap_app. cbn. destruct (record_chunk r); [apply list.last_snoc|by rewrite app_nil_r].
Qed.

(** The window [w] with one more record that has a range. *)
Lemma window_of_snoc (w w' : OpenWindow) (r : CaptureRecord) (first n : Z) :
  window_of g w -> capture_range r = [(first, n)] -> 0 < n -> ow_end_exclusive w = first ->
  ow_first_cursor w' = ow_first_cursor w -> ow_end_exclusive w' = first + n ->
  ow_sample_count w' = ow_sample_count w + record_samples r ->
  ow_missing_sample_count w' = ow_missing_sample_count w + record_missing r ->
  ow_continuity_break_count w' = ow_continuity_break_count w + record_breaks r ->
  ow_first_sample_cursor w' = first_sample <$> first_chunk (g ++ [r]) ->
  ow_last_sample_cursor w' = last_sample <$> last_chunk (g ++ [r]) ->
  ow_timing_segment_id w' = (fun c => segment_id (timing c)) <$> first_chunk (g ++ [r]) ->
  ow_first_device_time_us w' = (fun c => first_device_time_us (timing c)) <$> first_chunk (g ++ [r]) ->
  window_of (g ++ [r]) w' /\ capture_ranges (g ++ [r]) <> [].
Proof.
  intros [H1 H2 H3 _ _ _ _ H8] Hr Hn Hf E1 E2 E3 E4 E5 E6 E7 E8 E9. split.
  - split; rewrite ?total_app; cbn [total]; try done; try lia.
    rewrite capture_ranges_snoc, Hr, E1, E2. eapply tiles_app; [exact H8|]. rewrite Hf. done.
  - rewrite capture_ranges_snoc, Hr. by destruct (capture_ranges g).
Qed.

(** What an accepted record does: it ends the window it is said to end, with a
    manifest of its records, or joins it. *)
Definition recorded (target : Z) (r : CaptureRecord) (sealed : option CaptureWindowManifest) (L' : CaptureWindowLedger) :
    Prop :=
  match closes target g r with
  | Some reason => exists m, sealed = Some m /\ manifest_of m (g ++ [r], reason) /\ lg_open L' = None
  | None => sealed = None /\ unfinished (g ++ [r]) L'
  end.

(** The window [w'] takes the place of the current one. *)
Ltac joins_window r Hw He :=
  unfold unfinished; cbn [lg_open set_open lg_next_cursor];
  match goal with |- window_of _ ?w /\ _ =>
    destruct (window_of_snoc (current L (lg_next_cursor L)) w r _ _ Hw eq_refl) as [? ?];
    [..|split_and!; done]
  end; rewrite ?He, ?first_chunk_snoc, ?last_chunk_snoc; cbn; try lia; try apply Hw;
  try (replace (match first_chunk g with Some c => Some c | None => None end) with (first_chunk g)
    by (by destruct (first_chunk g)); apply Hw).

Lemma apply_gap_recorded (target : Z) (gap : Gap) sealed L' :
  0 < missing_count gap -> apply_gap gap L = (Ok sealed, L') -> recorded target (CGap gap) sealed L'.
Proof.
  intros Hn H. destruct current_window as (Hw & He).
  unfold apply_gap, validate_stream, validate_next, checked_advance in H. st_run H. simplify_eq.
  assert (first_missing gap = lg_next_cursor L) as Hf by lia. rewrite Hf in *.
  repeat match goal with H : checked_add _ _ _ = Some _ |- _ => apply checked_add_Some in H as (-> & _) end.
  unfold recorded. cbn [closes]. split; [done|]. fold (current L (lg_next_cursor L)).
  joins_window (CGap gap) Hw He.
Qed.

Lemma apply_break_recorded (target : Z) (b : ContinuityBreak) sealed L' :
  apply_continuity_break b L = (Ok sealed, L') -> recorded target (CContinuityBreak b) sealed L'.
Proof.
  intros H. destruct current_window as (Hw & He).
  unfold apply_continuity_break, validate_stream, validate_next, break_end, checked_advance, expect in H.
  st_run H. simplify_eq. assert (break_at b = lg_next_cursor L) as Hf by lia. rewrite Hf in *.
  repeat case_match; simplify_eq.
  repeat match goal with H : checked_add _ _ _ = Some _ |- _ => apply checked_add_Some in H as (-> & _) end.
  unfold recorded. cbn [closes]. split; [done|]. fold (current L (lg_next_cursor L)).
  joins_window (CContinuityBreak b) Hw He.
Qed.

(** The window of a chunk has its first chunk's segment and time. *)
Lemma open_for_chunk_first (w : OpenWindow) (c : SampleChunk) :
  window_of g w -> let w1 := open_for_chunk w c in let f := first_chunk (g ++ [CSampleChunk c]) in
  ow_first_sample_cursor w1 = first_sample <$> f /\
  ow_timing_segment_id w1 = (fun c => segment_id (timing c)) <$> f /\
  ow_first_device_time_us w1 = (fun c => first_device_time_us (timing c)) <$> f /\
  ow_first_cursor w1 = ow_first_cursor w /\ ow_sample_count w1 = ow_sample_count w /\
  ow_missing_sample_count w1 = ow_missing_sample_count w /\
  ow_continuity_break_count w1 = ow_continuity_break_count w.
Proof.
  intros [_ _ _ H4 _ H6 H7 _]. cbv zeta. rewrite first_chunk_snoc. unfold open_for_chunk. rewrite H4.
  destruct (first_chunk g) as [f|]; cbn in *; split_and!; done.
Qed.

Lemma closes_chunk (w w' : OpenWindow) (c : SampleChunk) (target : Z) :
  window_of g w ->
  ow_first_device_time_us w' = (fun c => first_device_time_us (timing c)) <$> first_chunk (g ++ [CSampleChunk c]) ->
  closes target g (CSampleChunk c) =
    if timing_segment_changed w c then Some TimingSegmentChanged
    else if duration_reached w' c target then Some TargetDurationReached else None.
Proof.
  intros [_ _ _ _ _ H6 _ _] Ht. unfold closes, timing_segment_changed, duration_reached, checked_sub.
  rewrite H6, Ht, first_chunk_snoc.
  destruct (first_chunk g) as [f|]; cbn [fmap option_fmap option_map default from_option id record_chunk];
    rewrite ?(Z.eqb_refl (segment_id _)); cbn [negb];
    destruct (_ <=? last_device_time_us _); cbn [andb]; try done.
Qed.

Lemma seal_manifest (g' : list CaptureRecord) (reason : WindowSealReason) (w : OpenWindow) L0 m L' :
  seal reason L0 = (Ok m, L') -> lg_open L0 = Some w -> window_of g' w ->
  manifest_of m (g', reason) /\ lg_open L' = None.
Proof.
  intros H Ho []. unfold seal in H. st_run H. simplify_eq. split; [|done]. by split.
Qed.

Lemma apply_chunk_recorded (hw : HardwareId) (c : SampleChunk) sealed L' :
  0 < chunk_sample_count (header c) -> apply_chunk hw c L = (Ok sealed, L') ->
  recorded (target_duration_us (lg_policy L)) (CSampleChunk c) sealed L'.
Proof.
  intros Hn H. destruct current_window as (Hw & He).
  pose proof (open_for_chunk_first _ c Hw) as (F1 & F2 & F3 & F4 & F5 & F6 & F7).
  unfold apply_chunk, validate_stream, validate_next, chunk_end, checked_advance, sub, checked_sub, expect in H.
  st_run H; change (default (open_window_new (chunk_first (header c))) (lg_open L)) with
    (current L (chunk_first (header c))) in *;
    (assert (chunk_first (header c) = lg_next_cursor L) as Hf by lia); rewrite Hf in *;
    repeat match goal with H : checked_add _ _ _ = Some _ |- _ => apply checked_add_Some in H as (-> & _) end;
    simplify_eq; unfold recorded.
  all: match goal with H : context [mkOpenWindow ?a ?b ?c ?d ?e ?f ?g ?h ?i] |- _ =>
    set (w' := mkOpenWindow a b c d e f g h i) in *
  | |- context [mkOpenWindow ?a ?b ?c ?d ?e ?f ?g ?h ?i] =>
    set (w' := mkOpenWindow a b c d e f g h i) in * end.
  all: assert (window_of (g ++ [CSampleChunk c]) w' /\ capture_ranges (g ++ [CSampleChunk c]) <> []) as (Hw' & Hne)
    by (eapply (window_of_snoc (current L (lg_next_cursor L)) w' (CSampleChunk c)); [exact Hw|reflexivity|exact Hn|..];
        subst w'; cbn; rewrite ?He, ?Hf, ?last_chunk_snoc, ?F4, ?F5, ?F6, ?F7; cbn; unfold last_sample; rewrite ?Hf;
        try done; try lia).
  all: rewrite (closes_chunk _ w' c _ Hw F3).
  all: repeat match goal with
    | H : timing_segment_changed _ _ = _ |- _ => rewrite H in *; clear H
    | H : duration_reached _ _ _ = _ |- _ => rewrite H in *; clear H
    end; cbn [negb andb] in *.
  1,2: edestruct seal_manifest as [? ?]; [eassumption|reflexivity|exact Hw'|]; eauto.
  destruct Hg8 as [?|Hd]; [done|]. rewrite Hd. split; [done|]. by split_and!.
Qed.

Lemma finish_recorded (target : Z) sealed L' :
  finish L = (Ok sealed, L') -> recorded target CWindowSeal sealed L'.
Proof.
  intros H. unfold recorded, closes. unfold unfinished in Hg. unfold finish in H. autorewrite with st in H.
  destruct (lg_open L) as [w|] eqn:Ho.
  - destruct Hg as (Hw & He & Hne). rewrite bool_decide_eq_false_2 by done. st_run H. simplify_eq.
    edestruct seal_manifest as [? ?]; [eassumption|exact Ho| |eauto].
    destruct Hw as [H1 H2 H3 H4 H5 H6 H7 H8].
    split; rewrite ?total_app, ?first_chunk_snoc, ?last_chunk_snoc, ?capture_ranges_snoc; cbn; try lia.
    + rewrite H4. by destruct (first_chunk g).
    + done.
    + rewrite H6. by destruct (first_chunk g).
    + rewrite H7. by destruct (first_chunk g).
    + by rewrite app_nil_r.
  - destruct (window_of_seals g 0 Hg) as [_ Hr]. rewrite bool_decide_eq_true_2 by done. st_run H. simplify_eq.
    split; [done|]. unfold unfinished. rewrite Ho. apply Forall_app_2; [done|by constructor].
Qed.

Lemma ledger_append_recorded (hw : HardwareId) (e : BootEpoch) (r : CaptureRecord) sealed L' :
  capture_record_valid hw e r -> ledger_append hw r L = (Ok sealed, L') ->
  recorded (target_duration_us (lg_policy L)) r sealed L'.
Proof.
  intros Hv H. destruct r as [c|gap|b|]; cbn [ledger_append] in H;
    unfold plan_chunk, plan_gap, plan_continuity_break in H; [rewrite plan_commit in H..|by apply finish_recorded].
  - destruct Hv as (((_ & _ & _ & _ & Hc0) & _) & Hv & _). apply sample_chunk_validate_Ok in Hv as (Hst & _).
    apply chunk_structure_Ok in Hst as (_ & _ & Hne & _). unfold unsigned in Hc0.
    destruct (apply_chunk hw c L) as [[s|err|] L1] eqn:Hrun; simplify_eq. eapply apply_chunk_recorded; [lia|exact Hrun].
  - destruct Hv as (((_ & _ & _ & Hc0) & Hne & _) & _). unfold unsigned in Hc0.
    destruct (apply_gap gap L) as [[s|err|] L1] eqn:Hrun; simplify_eq. eapply apply_gap_recorded; [lia|exact Hrun].
  - destruct (apply_continuity_break b L) as [[s|err|] L1] eqn:Hrun; simplify_eq. by apply apply_break_recorded.
Qed.
End Contents.

(** A run that is accepted cuts its records into windows as the reference does. *)
Lemma ledger_run_windows hw e rs : forall g L ms L',
  Forall (capture_record_valid hw e) rs -> ledger_wf hw e L -> unfinished g L ->
  ledger_run hw rs L = Ok (ms, L') ->
  let '(ws, rest) := windows (target_duration_us (lg_policy L)) g rs in
  Forall2 manifest_of ms ws /\ unfinished rest L'.
Proof.
  induction rs as [|r rs IH]; intros g L ms L' Hrs Hwf Hg; cbn [ledger_run windows].
  { intros [= <- <-]. by split. }
  apply Forall_cons_1 in Hrs as [Hr Hrs]. pose proof (ledger_append_cases hw e L Hwf r Hr) as Hcases.
  destruct (ledger_append hw r L) as [[sealed|err|] L1] eqn:Happ; [|done|done].
  destruct Hcases as (Hwf1 & Hpol & _).
  pose proof (ledger_append_recorded g L Hg hw e r sealed L1 Hr Happ) as Hrec. unfold recorded in Hrec.
  intros ([ms1 L2] & Hrun & [= <- <-])%outcome_bind_Ok.
  destruct (closes _ g r) as [reason|].
  - destruct Hrec as (m & -> & Hm & Ho). assert (unfinished [] L1) as H0 by (unfold unfinished; by rewrite Ho).
    specialize (IH [] L1 ms1 L2 Hrs Hwf1 H0 Hrun). rewrite Hpol in IH.
    destruct (windows _ [] rs) as [ws rest]. destruct IH as [IH1 IH2]. split; [by constructor|done].
  - destruct Hrec as [-> Hg1]. specialize (IH _ L1 ms1 L2 Hrs Hwf1 Hg1 Hrun). by rewrite Hpol in IH.
Qed.

(** Cutting drops, repeats and reorders nothing. *)
Lemma windows_concat target rs : forall g,
  let '(ws, rest) := windows target g rs in concat (fst <$> ws) ++ rest = g ++ rs.
Proof.
  induction rs as [|r rs IH]; intros g; cbn [windows]; [by rewrite app_nil_r|].
  destruct (closes target g r).
  - specialize (IH []). destruct (windows target [] rs) as [ws rest]. cbn. by rewrite <- !app_assoc, IH.
  - specialize (IH (g ++ [r])). destruct (windows target _ rs) as [ws rest]. by rewrite <- app_assoc in IH.
Qed.

(** C11. Capture windows partition the stream: for every sequence of valid
    records of one stream, started at any cursor and ordinal, the ledger either
    accepts them all, and then the records account for the sequences from the
    first to the next cursor with no hole and no overlap, and the sealed
    manifests cover them up to the start of the open window with consecutive
    ordinals, adjacent cursors, counters that add up to each range, and
    [relation_to] answering [Contiguous] for each neighbouring pair. There is one
    manifest for each window the records are cut into by the policy, in order,
    and its sample, missing-sample and continuity-break counts, its first and
    last sample, its range and its reason are those of the window's records; the
    open window holds the same of the records that remain. Or the ledger
    refuses a record, and then the records do leave a hole or overlap. It never
    panics, and no counter overflows. *)
Theorem capture_windows_partition (policy : CaptureWindowPolicy) (hw : HardwareId) (e a o : Z)
    (rs : list CaptureRecord) :
  u64 a -> 0 <= o -> o + Z.of_nat (length rs) < 2 ^ 64 -> Forall (capture_record_valid hw e) rs ->
  match ledger_run hw rs (ledger_new policy hw e a o) with
  | Ok (ms, L) =>
      tiles a (capture_ranges rs) (lg_next_cursor L) /\
      partitions hw e o a ms (lg_next_window_ordinal L) (open_start L) /\
      open_start L <= lg_next_cursor L /\
      (forall i m1 m2, ms !! i = Some m1 -> ms !! S i = Some m2 -> relation_to m1 m2 = Ok Contiguous) /\
      let '(ws, rest) := windows (target_duration_us policy) [] rs in
      concat (fst <$> ws) ++ rest = rs /\ Forall2 manifest_of ms ws /\ unfinished rest L
  | Err _ => forall b, ~ tiles a (capture_ranges rs) b
  | Panic => False
  end.
Proof.
  intros Ha Ho Hlen Hrs.
  assert (Hwf : ledger_wf hw e (ledger_new policy hw e a o)) by (unfold ledger_wf; cbn; auto).
  pose proof (ledger_run_sound hw e rs _ Hrs Hwf Hlen) as Hrun.
  destruct (ledger_run _ _ _) as [[ms L]|err|] eqn:Heq; [|exact Hrun|exact Hrun].
  destruct Hrun as (Hwf' & _ & Ht & Hp). split; [exact Ht|]. split; [exact Hp|]. split; [|split].
  - destruct Hwf' as (_ & _ & _ & Hop). unfold open_start, counters_ok in *. destruct (lg_open L); lia.
  - intros i m1 m2. eapply partitions_contiguous; [exact Hp|done|].
    pose proof (partitions_length _ _ _ _ _ _ _ Hp) as Hl. cbn [lg_next_window_ordinal ledger_new] in Hl.
    apply ledger_run_length in Heq. lia.
  - pose proof (ledger_run_windows hw e rs [] _ ms L Hrs Hwf ltac:(constructor) Heq) as Hws.
    pose proof (windows_concat (target_duration_us policy) rs []) as Hcat.
    cbn [ledger_new lg_policy] in Hws. by destruct (windows _ [] rs).
Qed.

(** A gap, a chunk that reaches the target duration, a break and a finish. *)
Definition window_hw : HardwareId := literal [1; 2; 3; 4; 5; 6; 7; 8].
Definition window_epoch : BootEpoch := 0x1122334455667788.
Definition window_records : list CaptureRecord :=
  [CGap (mkGap window_hw window_epoch 17 3 JournalOverflow); CSampleChunk golden_chunk;
   CContinuityBreak (mkBreak window_hw window_epoch 22 SensorReadUncertain); CWindowSeal].

Lemma window_records_valid : Forall (capture_record_valid window_hw window_epoch) window_records.
Proof.
  assert (Htyped : typed golden_chunk) by typed_by_compute.
  repeat (apply List.Forall_cons || apply List.Forall_nil); cbn [capture_record_valid]; split_and?; try done;
    typed_by_compute.
Qed.

Definition window_manifests : list CaptureWindowManifest :=
  [mkManifest window_hw window_epoch 5 17 22 (Some 20) (Some 21) 2 3 0 TargetDurationReached;
   mkManifest window_hw window_epoch 6 22 23 None None 0 0 1 ExplicitFinish].

Example window_records_cut :
  snd <$> fst (windows 4000 [] window_records) = [TargetDurationReached; ExplicitFinish] /\
  snd (windows 4000 [] window_records) = [].
Proof. split; vm_compute; reflexivity. Qed.

Lemma capture_windows_partition_witness :
  (exists L, ledger_run window_hw window_records
     (ledger_new (mkPolicy 4000) window_hw window_epoch 17 5) = Ok (window_manifests, L)) /\
  tiles 17 (capture_ranges window_records) 23 /\
  Forall2 manifest_of window_manifests (fst (windows 4000 [] window_records)).
Proof.
  assert (H := capture_windows_partition (mkPolicy 4000) window_hw window_epoch 17 5 window_records
    ltac:(ilia) ltac:(lia) ltac:(cbn; lia) window_records_valid).
  split; [eexists; vm_compute; reflexivity|].
  destruct (ledger_run _ _ _) as [[ms L]|err|] eqn:Heq; vm_compute in Heq; try discriminate Heq.
  injection Heq as <- <-. destruct H as (Ht & _ & _ & _ & Hw). split; [exact Ht|].
  destruct (windows _ _ _) as [ws rest]. apply Hw.
Defined.
