(* ===== verification/CaptureWal.v ===== *)
(** * The Capture write-ahead log (crates/sensor-host/src/capture_wal.rs)

    The binary file of one recorded stream: a 64-byte header and CRC-protected
    records, staged in batches, appended and made durable by one barrier, and
    replayed through the window ledger on recovery. [File] models the file: its
    content, the write position, the prefix known to survive a crash, and the
    faults the operating system will inject into the coming writes and syncs. *)

From S2P Require Export Crc CaptureWindow.

Definition FILE_MAGIC : bytes := literal [83; 83; 67; 65; 80; 87; 65; 76].
Definition FILE_VERSION : Z := 1.
Definition FILE_HEADER_BYTES : nat := 64.
Definition FILE_HEADER_CRC_OFFSET : nat := FILE_HEADER_BYTES - 4.
Definition RECORD_VERSION : Z := 1.
Definition RECORD_PREFIX_BYTES : nat := 4.
Definition RECORD_HEADER_BYTES : nat := 4.
Definition RECORD_CRC_BYTES : nat := 4.
Definition MIN_RECORD_BODY_BYTES : Z := 8.
Definition MAX_RECORD_BODY_BYTES : Z := 1024 * 1024.
Definition CHUNK_FIXED_PAYLOAD_BYTES : nat := 56.
Definition GAP_PAYLOAD_BYTES : nat := 17.
Definition BREAK_PAYLOAD_BYTES : nat := 9.

Inductive CaptureWalError :=
| Io
| Window (error : CaptureWindowError)
| ChunkContract (error : MeasurementWireError)
| WalZeroBootEpoch
| TruncatedFileHeader
| InvalidFileMagic
| UnsupportedFileVersion (version : Z)
| InvalidFileHeaderLength
| FileHeaderChecksumMismatch
| HardwareMismatch
| BootEpochMismatch
| StartingCursorMismatch
| WindowOrdinalMismatch
| WindowPolicyMismatch
| IncompleteRecord (offset : nat)
| InvalidRecordLength (offset : nat) (length : Z)
| RecordChecksumMismatch (offset : nat)
| UnknownRecordKind (kind : Z)
| UnsupportedRecordVersion (version : Z)
| NonZeroReservedField
| InvalidRecordPayload
| LengthOverflow
| CounterOverflow
| Poisoned
| EmptyBatch
| StaleBatch
| BatchCrossesWindowBoundary.

Abbreviation wal := (outcome CaptureWalError).

Inductive RecordKind := KSampleChunk | KGapRecord | KContinuityBreakRecord | KWindowSeal.

Definition record_kind_code (k : RecordKind) : Z :=
  match k with KSampleChunk => 1 | KGapRecord => 2 | KContinuityBreakRecord => 3 | KWindowSeal => 4 end.

Definition record_kind_try_from (value : Z) : wal RecordKind :=
  match value with
  | 1 => Ok KSampleChunk
  | 2 => Ok KGapRecord
  | 3 => Ok KContinuityBreakRecord
  | 4 => Ok KWindowSeal
  | _ => Err (UnknownRecordKind value)
  end.

Record CaptureWalConfig := mkConfig {
  cfg_hardware_id : HardwareId;
  cfg_boot_epoch : BootEpoch;
  cfg_recovered_cursor : SequenceCursor;
  cfg_first_window_ordinal : Z;
  cfg_window_policy : CaptureWindowPolicy
}.

Record CaptureWalHeader := mkWalHeader {
  wh_hardware_id : HardwareId;
  wh_boot_epoch : BootEpoch;
  wh_first_cursor : SequenceCursor;
  wh_first_window_ordinal : Z;
  wh_window_policy : CaptureWindowPolicy
}.

Record CaptureWalRecovery := mkRecovery {
  cr_durable_cursor : SequenceCursor;
  cr_record_count : Z;
  cr_sample_count : Z;
  cr_missing_sample_count : Z;
  cr_continuity_break_count : Z;
  cr_sealed_window_count : Z;
  cr_last_sealed_window : option CaptureWindowManifest;
  cr_truncated_tail_bytes : Z
}.

#[export] Instance CaptureWalRecovery_eq_dec : EqDecision CaptureWalRecovery.
Proof. solve_decision. Defined.

(** ** The file header *)

Definition write_header_bytes (config : CaptureWalConfig) : wal bytes :=
  h ← put 0 8 FILE_MAGIC (zeros FILE_HEADER_BYTES);
  h ← put 8 10 (to_le_bytes 2 FILE_VERSION) h;
  h ← put 10 12 (to_le_bytes 2 (Z.of_nat FILE_HEADER_BYTES)) h;
  h ← put 12 20 (cfg_hardware_id config) h;
  h ← put 20 28 (to_le_bytes 8 (cfg_boot_epoch config)) h;
  h ← put 28 36 (to_le_bytes 8 (cfg_recovered_cursor config)) h;
  h ← put 36 44 (to_le_bytes 8 (cfg_first_window_ordinal config)) h;
  h ← put 44 52 (to_le_bytes 8 (target_duration_us (cfg_window_policy config))) h;
  covered ← slice 0 FILE_HEADER_CRC_OFFSET h;
  put FILE_HEADER_CRC_OFFSET FILE_HEADER_BYTES (to_le_bytes 4 (crc32c covered)) h.

Definition decode_file_header (header : bytes) : wal CaptureWalHeader :=
  magic ← slice 0 8 header;
  if negb (bool_decide (magic = FILE_MAGIC)) then Err InvalidFileMagic
  else
    version ← read_u16 header 8;
    if negb (version =? FILE_VERSION) then Err (UnsupportedFileVersion version)
    else
      len ← read_u16 header 10;
      if negb (len =? Z.of_nat FILE_HEADER_BYTES) then Err InvalidFileHeaderLength
      else
        covered ← slice 0 FILE_HEADER_CRC_OFFSET header;
        crc ← read_u32 header FILE_HEADER_CRC_OFFSET;
        if negb (crc32c covered =? crc) then Err FileHeaderChecksumMismatch
        else
          reserved ← slice 52 FILE_HEADER_CRC_OFFSET header;
          if existsb (fun b => negb (b2z b =? 0)) reserved then Err NonZeroReservedField
          else
            boot_epoch ← read_u64 header 20;
            if boot_epoch =? 0 then Err WalZeroBootEpoch
            else
              hardware_id ← slice 12 20 header;
              first_cursor ← read_u64 header 28;
              first_window_ordinal ← read_u64 header 36;
              target ← read_u64 header 44;
              policy ← map_err Window (window_policy_new target);
              Ok (mkWalHeader hardware_id boot_epoch first_cursor first_window_ordinal policy).

Definition validate_file_header (header : bytes) (config : CaptureWalConfig) : wal unit :=
  decoded ← decode_file_header header;
  if negb (bool_decide (wh_hardware_id decoded = cfg_hardware_id config)) then Err HardwareMismatch
  else if negb (wh_boot_epoch decoded =? cfg_boot_epoch config) then Err BootEpochMismatch
  else if negb (wh_first_cursor decoded =? cfg_recovered_cursor config) then Err StartingCursorMismatch
  else if negb (wh_first_window_ordinal decoded =? cfg_first_window_ordinal config)
  then Err WindowOrdinalMismatch
  else if negb (bool_decide (wh_window_policy decoded = cfg_window_policy config))
  then Err WindowPolicyMismatch
  else Ok tt.

(** ** Records *)

(** Prefix, kind, version, two reserved bytes, payload, checksum. *)
Definition wrap_record (kind : RecordKind) (payload : bytes) : bytes :=
  let body_len := (RECORD_HEADER_BYTES + length payload + RECORD_CRC_BYTES)%nat in
  let record :=
    to_le_bytes 4 (Z.of_nat body_len) ++ [z2b (record_kind_code kind); z2b RECORD_VERSION]
    ++ [Byte.x00; Byte.x00] ++ payload in
  record ++ to_le_bytes 4 (crc32c (drop RECORD_PREFIX_BYTES record)).

(** [bytes[..3]] of a four-byte array. *)
Definition wal_encode_i24 (value : SampleAxis) : bytes := take 3 (to_le_bytes 4 value).

Definition wal_decode_i24 (l : bytes) : wal SampleAxis :=
  b2 ← index 2 l;
  let extension := if Z.land b2 0x80 =? 0 then 0 else 0xff in
  b0 ← index 0 l;
  b1 ← index 1 l;
  map_err (fun _ => InvalidRecordPayload)
    (sample_axis_new (from_le_bytes_signed [z2b b0; z2b b1; z2b b2; z2b extension])).

Definition wal_sample_bytes (s : SampleAxes) : bytes :=
  wal_encode_i24 (ax s) ++ wal_encode_i24 (ay s) ++ wal_encode_i24 (az s).

Definition chunk_payload (chunk : SampleChunk) : bytes :=
  to_le_bytes 8 (chunk_retained_from (header chunk))
  ++ to_le_bytes 8 (chunk_produced (header chunk))
  ++ to_le_bytes 8 (chunk_first (header chunk))
  ++ to_le_bytes 2 (chunk_sample_count (header chunk))
  ++ to_le_bytes 4 (config_revision chunk)
  ++ to_le_bytes 4 (segment_id (timing chunk))
  ++ to_le_bytes 8 (first_device_time_us (timing chunk))
  ++ to_le_bytes 8 (last_device_time_us (timing chunk))
  ++ to_le_bytes 4 (max_fit_residual_us (timing chunk))
  ++ to_le_bytes 2 (quality_flags (timing chunk))
  ++ concat (wal_sample_bytes <$> samples chunk).

Definition encode_chunk_record (chunk : SampleChunk) : wal bytes :=
  _ ← map_err ChunkContract (sample_chunk_validate chunk);
  Ok (wrap_record KSampleChunk (chunk_payload chunk)).

Definition encode_gap_reason (reason : GapReason) : Z :=
  match reason with
  | UnknownDiscontinuity => 0 | SourceLoss => 1 | IngressOverflow => 2 | JournalOverflow => 3
  end.

Definition decode_gap_reason (value : Z) : wal GapReason :=
  match value with
  | 0 => Ok UnknownDiscontinuity
  | 1 => Ok SourceLoss
  | 2 => Ok IngressOverflow
  | 3 => Ok JournalOverflow
  | _ => Err InvalidRecordPayload
  end.

Definition encode_break_reason (reason : ContinuityBreakReason) : Z :=
  match reason with
  | BreakUnknown => 0 | SensorOverflow => 1 | SensorReadUncertain => 2 | InvalidTiming => 3
  | ProcessingReset => 4
  end.

Definition decode_break_reason (value : Z) : wal ContinuityBreakReason :=
  match value with
  | 0 => Ok BreakUnknown
  | 1 => Ok SensorOverflow
  | 2 => Ok SensorReadUncertain
  | 3 => Ok InvalidTiming
  | 4 => Ok ProcessingReset
  | _ => Err InvalidRecordPayload
  end.

Definition gap_payload (gap : Gap) : bytes :=
  to_le_bytes 8 (first_missing gap) ++ to_le_bytes 8 (missing_count gap)
  ++ [z2b (encode_gap_reason (gap_reason gap))].

Definition encode_gap_record (gap : Gap) : bytes := wrap_record KGapRecord (gap_payload gap).

Definition break_payload (observed : ContinuityBreak) : bytes :=
  to_le_bytes 8 (break_at observed) ++ [z2b (encode_break_reason (break_reason observed))].

Definition encode_break_record (observed : ContinuityBreak) : bytes :=
  wrap_record KContinuityBreakRecord (break_payload observed).

(** [for index in i..i + n]. *)
Fixpoint wal_decode_samples (n i : nat) (payload : bytes) : wal (list SampleAxes) :=
  match n with
  | O => Ok []
  | S n =>
      let offset := (CHUNK_FIXED_PAYLOAD_BYTES + i * 9)%nat in
      sx ← slice offset (offset + 3) payload; x ← wal_decode_i24 sx;
      sy ← slice (offset + 3) (offset + 6) payload; y ← wal_decode_i24 sy;
      sz ← slice (offset + 6) (offset + 9) payload; z ← wal_decode_i24 sz;
      rest ← wal_decode_samples n (i + 1) payload;
      Ok (mkAxes x y z :: rest)
  end.

Definition wal_decode_chunk (payload : bytes) (boot_epoch : BootEpoch) : wal SampleChunk :=
  if (length payload <? CHUNK_FIXED_PAYLOAD_BYTES)%nat then Err InvalidRecordPayload
  else
    count ← read_u16 payload 24;
    if negb (length payload =? CHUNK_FIXED_PAYLOAD_BYTES + Z.to_nat count * 9)%nat
    then Err InvalidRecordPayload
    else
      samples ← wal_decode_samples (Z.to_nat count) 0 payload;
      retained_from ← read_u64 payload 0;
      produced ← read_u64 payload 8;
      first ← read_u64 payload 16;
      config_revision ← read_u32 payload 26;
      segment_id ← read_u32 payload 30;
      first_device_time_us ← read_u64 payload 34;
      last_device_time_us ← read_u64 payload 42;
      max_fit_residual_us ← read_u32 payload 50;
      quality_flags ← read_u16 payload 54;
      let chunk :=
        mkChunk (mkHeader boot_epoch retained_from produced first count) config_revision
          (mkTiming segment_id first_device_time_us last_device_time_us max_fit_residual_us
             quality_flags) samples in
      _ ← map_err ChunkContract (sample_chunk_validate chunk);
      Ok chunk.

Definition wal_decode_gap (payload : bytes) (hardware_id : HardwareId) (boot_epoch : BootEpoch)
    : wal Gap :=
  if negb (length payload =? GAP_PAYLOAD_BYTES)%nat then Err InvalidRecordPayload
  else
    first ← read_u64 payload 0;
    count ← read_u64 payload 8;
    raw ← index 16 payload;
    reason ← decode_gap_reason raw;
    map_err (fun _ => InvalidRecordPayload) (gap_new hardware_id boot_epoch first count reason).

Definition wal_decode_break (payload : bytes) (hardware_id : HardwareId) (boot_epoch : BootEpoch)
    : wal ContinuityBreak :=
  if negb (length payload =? BREAK_PAYLOAD_BYTES)%nat then Err InvalidRecordPayload
  else
    at_ ← read_u64 payload 0;
    raw ← index 8 payload;
    reason ← decode_break_reason raw;
    map_err (fun _ => InvalidRecordPayload)
      (continuity_break_new hardware_id boot_epoch at_ reason).

Definition decode_record (data : bytes) (hardware_id : HardwareId) (boot_epoch : BootEpoch)
    : wal CaptureRecord :=
  if (length data <? RECORD_HEADER_BYTES)%nat then Err InvalidRecordPayload
  else
    d0 ← index 0 data;
    kind ← record_kind_try_from d0;
    d1 ← index 1 data;
    if negb (d1 =? RECORD_VERSION) then Err (UnsupportedRecordVersion d1)
    else
      d2 ← index 2 data;
      d3 ← index 3 data;
      if negb (d2 =? 0) || negb (d3 =? 0) then Err NonZeroReservedField
      else
        payload ← slice_from RECORD_HEADER_BYTES data;
        match kind with
        | KSampleChunk => CSampleChunk <$> wal_decode_chunk payload boot_epoch
        | KGapRecord => CGap <$> wal_decode_gap payload hardware_id boot_epoch
        | KContinuityBreakRecord => CContinuityBreak <$> wal_decode_break payload hardware_id boot_epoch
        | KWindowSeal =>
            if negb (length payload =? 0)%nat then Err InvalidRecordPayload else Ok CWindowSeal
        end.

Definition wal_checked_add (left right : Z) : wal Z := ok_or (checked_add 64 left right) CounterOverflow.

(** ** The file *)

(** The next write or sync: [None] succeeds, [Some k] fails, a write after [k] bytes. *)
Abbreviation fault := (option nat).

Record File := mkFile {
  f_data : bytes;
  f_pos : nat;
  f_synced : nat;
  f_faults : list fault
}.

Abbreviation file_op := (st File CaptureWalError).

Definition next_fault (f : File) : fault := default None (head (f_faults f)).

(** Bytes written at the position, over or past the end of the data. *)
Definition write_at (f : File) (l : bytes) : File :=
  mkFile (take (f_pos f) (f_data f) ++ l ++ drop (f_pos f + length l) (f_data f))
    (f_pos f + length l) (Nat.min (f_pos f) (f_synced f)) (tail (f_faults f)).

Definition write_all (l : bytes) : file_op unit := fun f =>
  match next_fault f with
  | None => (Ok tt, write_at f l)
  | Some k => (Err Io, write_at f (take k l))
  end.

(** [sync_data] and [sync_all]: on success the whole content survives a crash. *)
Definition sync : file_op unit := fun f =>
  match next_fault f with
  | None => (Ok tt, mkFile (f_data f) (f_pos f) (length (f_data f)) (tail (f_faults f)))
  | Some _ => (Err Io, mkFile (f_data f) (f_pos f) (f_synced f) (tail (f_faults f)))
  end.

Definition seek (pos : nat) : file_op unit :=
  modify (fun f => mkFile (f_data f) pos (f_synced f) (f_faults f)).

(** [set_len] to a length within the file. *)
Definition set_len (n : nat) : file_op unit :=
  modify (fun f => mkFile (take n (f_data f)) (f_pos f) (Nat.min n (f_synced f)) (f_faults f)).

Definition write_file_header (config : CaptureWalConfig) : file_op unit :=
  header ← lift (write_header_bytes config);
  _ ← seek 0;
  write_all header.

(** ** Recovery *)

Definition recovery_start (config : CaptureWalConfig) : CaptureWalRecovery :=
  mkRecovery (cfg_recovered_cursor config) 0 0 0 0 0 None 0.

(** [replay_record]: the ledger and the report after the record's data. *)
Definition replay_record (hardware_id : HardwareId) (boot_epoch : BootEpoch) (data : bytes)
    (ledger : CaptureWindowLedger) (report : CaptureWalRecovery)
    : wal (option CaptureWindowManifest * CaptureWindowLedger * CaptureWalRecovery) :=
  record ← decode_record data hardware_id boot_epoch;
  match ledger_append hardware_id record ledger with
  | (Ok sealed, ledger) =>
      report ←
        match record with
        | CSampleChunk chunk =>
            n ← wal_checked_add (cr_sample_count report) (chunk_sample_count (header chunk));
            Ok (mkRecovery (cr_durable_cursor report) (cr_record_count report) n
                  (cr_missing_sample_count report) (cr_continuity_break_count report)
                  (cr_sealed_window_count report) (cr_last_sealed_window report)
                  (cr_truncated_tail_bytes report))
        | CGap gap =>
            n ← wal_checked_add (cr_missing_sample_count report) (missing_count gap);
            Ok (mkRecovery (cr_durable_cursor report) (cr_record_count report)
                  (cr_sample_count report) n (cr_continuity_break_count report)
                  (cr_sealed_window_count report) (cr_last_sealed_window report)
                  (cr_truncated_tail_bytes report))
        | CContinuityBreak _ =>
            n ← wal_checked_add (cr_continuity_break_count report) 1;
            Ok (mkRecovery (cr_durable_cursor report) (cr_record_count report)
                  (cr_sample_count report) (cr_missing_sample_count report) n
                  (cr_sealed_window_count report) (cr_last_sealed_window report)
                  (cr_truncated_tail_bytes report))
        | CWindowSeal => Ok report
        end;
      Ok (sealed, ledger, report)
  | (Err e, _) => Err (Window e)
  | (Panic, _) => Panic
  end.

(** The counters after one replayed record. *)
Definition count_record (sealed : option CaptureWindowManifest) (ledger : CaptureWindowLedger)
    (report : CaptureWalRecovery) : wal CaptureWalRecovery :=
  '(windows, last) ←
    match sealed with
    | Some manifest =>
        n ← wal_checked_add (cr_sealed_window_count report) 1;
        Ok (n, Some manifest)
    | None => Ok (cr_sealed_window_count report, cr_last_sealed_window report)
    end;
  n ← wal_checked_add (cr_record_count report) 1;
  Ok (mkRecovery (lg_next_cursor ledger) n (cr_sample_count report) (cr_missing_sample_count report)
        (cr_continuity_break_count report) windows last (cr_truncated_tail_bytes report)).

(** The read side of the loop of [recover]: it stops at the end of the data or
    at an incomplete record, whose offset it returns. Every turn consumes at
    least twelve bytes, so the length of the data bounds the turns. *)
Fixpoint recover_loop (fuel : nat) (config : CaptureWalConfig) (data : bytes)
    (ledger : CaptureWindowLedger) (report : CaptureWalRecovery) (offset : nat)
    : wal (CaptureWindowLedger * CaptureWalRecovery * nat) :=
  if (length data <=? offset)%nat then Ok (ledger, report, offset)
  else
    let remaining := (length data - offset)%nat in
    if (remaining <? RECORD_PREFIX_BYTES)%nat then Ok (ledger, report, offset)
    else match fuel with
    | O => Panic
    | S fuel =>
        body_len ← read_u32 data offset;
        if (body_len <? MIN_RECORD_BODY_BYTES) || (MAX_RECORD_BODY_BYTES <? body_len)
        then Err (InvalidRecordLength offset body_len)
        else
          let n := Z.to_nat body_len in
          _ ← ok_or (checked_add 64 (Z.of_nat offset + Z.of_nat RECORD_PREFIX_BYTES) body_len)
                LengthOverflow;
          let record_end := (offset + RECORD_PREFIX_BYTES + n)%nat in
          if (length data <? record_end)%nat then Ok (ledger, report, offset)
          else
            body ← slice (offset + RECORD_PREFIX_BYTES) record_end data;
            let data_len := (n - RECORD_CRC_BYTES)%nat in
            expected_crc ← read_u32 body data_len;
            covered ← slice 0 data_len body;
            if negb (crc32c covered =? expected_crc) then Err (RecordChecksumMismatch offset)
            else
              '(sealed, ledger, report) ←
                replay_record (cfg_hardware_id config) (cfg_boot_epoch config) covered ledger report;
              report ← count_record sealed ledger report;
              recover_loop fuel config data ledger report record_end
    end.

Definition truncate_tail (valid_len : nat) (report : CaptureWalRecovery) : file_op CaptureWalRecovery :=
  old_len ← gets (fun f => length (f_data f));
  _ ← set_len valid_len;
  _ ← sync;
  mret (mkRecovery (cr_durable_cursor report) (cr_record_count report) (cr_sample_count report)
          (cr_missing_sample_count report) (cr_continuity_break_count report)
          (cr_sealed_window_count report) (cr_last_sealed_window report)
          (Z.of_nat old_len - Z.of_nat valid_len)).

Definition recover (config : CaptureWalConfig)
    : file_op (CaptureWindowLedger * CaptureWalRecovery * nat) :=
  data ← gets f_data;
  if (length data <? FILE_HEADER_BYTES)%nat then throw TruncatedFileHeader
  else
    header ← lift (slice 0 FILE_HEADER_BYTES data);
    _ ← lift (validate_file_header header config);
    let ledger :=
      ledger_new (cfg_window_policy config) (cfg_hardware_id config) (cfg_boot_epoch config)
        (cfg_recovered_cursor config) (cfg_first_window_ordinal config) in
    '(ledger, report, offset) ←
      lift (recover_loop (length data) config data ledger (recovery_start config) FILE_HEADER_BYTES);
    if (offset <? length data)%nat then
      report ← truncate_tail offset report;
      mret (ledger, report, offset)
    else mret (ledger, report, offset).

(** ** Batches *)

Record CaptureWalBatch := mkBatch {
  base_durable_len : Z;
  base_recovery : CaptureWalRecovery;
  wb_ledger : CaptureWindowLedger;
  wb_recovery : CaptureWalRecovery;
  wb_bytes : bytes;
  wb_record_count : Z;
  wb_sealed : bool
}.

Abbreviation batch_op := (st CaptureWalBatch CaptureWalError).

Record RecordCounters := mkCounters {
  rc_samples : Z;
  rc_missing_samples : Z;
  rc_continuity_breaks : Z
}.

Definition ensure_open_window : batch_op unit :=
  self ← get;
  if wb_sealed self then throw BatchCrossesWindowBoundary else mret tt.

(** Every fallible computation comes before the first assignment. [try_reserve]
    is taken to succeed. *)
Definition stage_planned (record : bytes) (plan : CaptureAppendPlan) (counters : RecordCounters)
    : batch_op SequenceCursor :=
  self ← get;
  match commit plan (wb_ledger self) with
  | (Ok sealed, ledger) =>
      let recovery := wb_recovery self in
      records ← lift (wal_checked_add (cr_record_count recovery) 1);
      samples ← lift (wal_checked_add (cr_sample_count recovery) (rc_samples counters));
      missing ← lift (wal_checked_add (cr_missing_sample_count recovery) (rc_missing_samples counters));
      breaks ← lift (wal_checked_add (cr_continuity_break_count recovery) (rc_continuity_breaks counters));
      '(windows, last) ← lift
        match sealed with
        | Some manifest =>
            n ← wal_checked_add (cr_sealed_window_count recovery) 1;
            Ok (n, Some manifest)
        | None => Ok (cr_sealed_window_count recovery, cr_last_sealed_window recovery)
        end;
      record_count ← lift (ok_or (checked_add 64 (wb_record_count self) 1) CounterOverflow);
      let recovery :=
        mkRecovery (lg_next_cursor ledger) records samples missing breaks windows last
          (cr_truncated_tail_bytes recovery) in
      _ ← modify (fun s => mkBatch (base_durable_len s) (base_recovery s) ledger recovery
                             (wb_bytes s ++ record) record_count (is_some sealed));
      mret (cr_durable_cursor recovery)
  | (Err e, _) => throw (Window e)
  | (Panic, _) => lift Panic
  end.

Definition stage_chunk (hardware_id : HardwareId) (chunk : SampleChunk) : batch_op SequenceCursor :=
  _ ← ensure_open_window;
  self ← get;
  plan ← lift (map_err Window (plan_chunk hardware_id chunk (wb_ledger self)));
  record ← lift (encode_chunk_record chunk);
  stage_planned record plan (mkCounters (chunk_sample_count (header chunk)) 0 0).

Definition stage_gap (gap : Gap) : batch_op SequenceCursor :=
  _ ← ensure_open_window;
  self ← get;
  plan ← lift (map_err Window (plan_gap gap (wb_ledger self)));
  stage_planned (encode_gap_record gap) plan (mkCounters 0 (missing_count gap) 0).

Definition stage_continuity_break (observed : ContinuityBreak) : batch_op SequenceCursor :=
  _ ← ensure_open_window;
  self ← get;
  plan ← lift (map_err Window (plan_continuity_break observed (wb_ledger self)));
  stage_planned (encode_break_record observed) plan (mkCounters 0 0 1).

(** ** The sink *)

Record CaptureWalSink := mkSink {
  ws_file : File;
  ws_hardware_id : HardwareId;
  ws_boot_epoch : BootEpoch;
  ws_ledger : CaptureWindowLedger;
  ws_recovery : CaptureWalRecovery;
  ws_durable_len : Z;
  ws_poisoned : bool
}.

Abbreviation sink_op := (st CaptureWalSink CaptureWalError).

Definition set_file (f : File) (s : CaptureWalSink) : CaptureWalSink :=
  mkSink f (ws_hardware_id s) (ws_boot_epoch s) (ws_ledger s) (ws_recovery s) (ws_durable_len s)
    (ws_poisoned s).
Definition poison (s : CaptureWalSink) : CaptureWalSink :=
  mkSink (ws_file s) (ws_hardware_id s) (ws_boot_epoch s) (ws_ledger s) (ws_recovery s)
    (ws_durable_len s) true.

(** [open] on the content of its path; directories are not modelled. *)
Definition sink_open (config : CaptureWalConfig) : st File CaptureWalError CaptureWalSink :=
  if cfg_boot_epoch config =? 0 then throw WalZeroBootEpoch
  else
    data ← gets f_data;
    _ ← (if (length data =? 0)%nat then _ ← write_file_header config; sync else mret tt);
    '(ledger, recovery, durable_len) ← recover config;
    _ ← seek durable_len;
    file ← get;
    mret (mkSink file (cfg_hardware_id config) (cfg_boot_epoch config) ledger recovery
            (Z.of_nat durable_len) false).

Definition ensure_healthy : sink_op unit :=
  self ← get;
  if ws_poisoned self then throw Poisoned else mret tt.

(** A file operation whose failure poisons the sink. *)
Definition or_poison (m : file_op unit) : sink_op unit := fun self =>
  match m (ws_file self) with
  | (Ok a, f) => (Ok a, set_file f self)
  | (Err e, f) => (Err e, poison (set_file f self))
  | (Panic, f) => (Panic, set_file f self)
  end.

Definition write_and_sync (l : bytes) : sink_op unit :=
  _ ← or_poison (write_all l);
  or_poison sync.

Definition begin_batch : sink_op CaptureWalBatch :=
  _ ← ensure_healthy;
  self ← get;
  mret (mkBatch (ws_durable_len self) (ws_recovery self) (ws_ledger self) (ws_recovery self) [] 0 false).

Definition commit_batch (batch : CaptureWalBatch) : sink_op unit :=
  _ ← ensure_healthy;
  if wb_record_count batch =? 0 then throw EmptyBatch
  else
    self ← get;
    if negb (base_durable_len batch =? ws_durable_len self)
       || negb (bool_decide (base_recovery batch = ws_recovery self))
    then throw StaleBatch
    else
      durable_len ← lift (ok_or (checked_add 64 (ws_durable_len self) (Z.of_nat (length (wb_bytes batch))))
                            LengthOverflow);
      _ ← write_and_sync (wb_bytes batch);
      modify (fun s => mkSink (ws_file s) (ws_hardware_id s) (ws_boot_epoch s) (wb_ledger batch)
                         (wb_recovery batch) durable_len (ws_poisoned s)).

Definition finish_window : sink_op (option CaptureWindowManifest) :=
  _ ← ensure_healthy;
  self ← get;
  match finish (ws_ledger self) with
  | (Ok None, _) => mret None
  | (Ok (Some value), after) =>
      let record := wrap_record KWindowSeal [] in
      durable_len ← lift (ok_or (checked_add 64 (ws_durable_len self) (Z.of_nat (length record)))
                            LengthOverflow);
      let recovery := ws_recovery self in
      records ← lift (wal_checked_add (cr_record_count recovery) 1);
      windows ← lift (wal_checked_add (cr_sealed_window_count recovery) 1);
      let recovery :=
        mkRecovery (cr_durable_cursor recovery) records (cr_sample_count recovery)
          (cr_missing_sample_count recovery) (cr_continuity_break_count recovery) windows (Some value)
          (cr_truncated_tail_bytes recovery) in
      _ ← write_and_sync record;
      _ ← modify (fun s => mkSink (ws_file s) (ws_hardware_id s) (ws_boot_epoch s) after recovery
                             durable_len (ws_poisoned s));
      mret (Some value)
  | (Err e, _) => throw (Window e)
  | (Panic, _) => lift Panic
  end.

(** A batch built by [m] on the sink's own state. *)
Definition with_batch (m : batch_op SequenceCursor) : sink_op unit :=
  batch ← begin_batch;
  batch ← lift (match m batch with
                | (Ok _, batch) => Ok batch
                | (Err e, _) => Err e
                | (Panic, _) => Panic
                end);
  commit_batch batch.

(** [impl DurableMeasurementSink for CaptureWalSink]. *)
Definition wal_persist_chunk (hardware_id : HardwareId) (chunk : SampleChunk) : sink_op unit :=
  with_batch (stage_chunk hardware_id chunk).
Definition wal_persist_gap (gap : Gap) : sink_op unit := with_batch (stage_gap gap).
Definition wal_persist_continuity_break (observed : ContinuityBreak) : sink_op unit :=
  with_batch (stage_continuity_break observed).
