(* ===== verification/CaptureCodec.v ===== *)
(** * The bytes of a Capture log

    The record codec is exact: a record's data decodes to the record it
    encodes and nothing else decodes to it, and the file header is accepted
    exactly when it is the one [open] writes. The chunk payload is the wire
    payload without its boot epoch, so its decoder is related to the wire's. *)

From S2P Require Export CaptureWal.

(** ** The same result up to the error *)

Definition agree {E F A : Type} (m : outcome E A) (n : outcome F A) : Prop :=
  match m, n with
  | Ok a, Ok b => a = b
  | Err _, Err _ => True
  | Panic, Panic => True
  | _, _ => False
  end.

Section Agree.
Context {E F A : Type}.

Lemma agree_Ok (m : outcome E A) (n : outcome F A) (a : A) : agree m n -> m = Ok a <-> n = Ok a.
Proof. unfold agree. destruct m, n; naive_solver. Qed.

Lemma agree_no_panic (m : outcome E A) (n : outcome F A) : agree m n -> no_panic n -> no_panic m.
Proof. unfold agree, no_panic. destruct m, n; naive_solver. Qed.

Lemma agree_bind {B : Type} (m : outcome E B) (n : outcome F B) (f : B -> outcome E A) (g : B -> outcome F A) :
agree m n -> (forall b, agree (f b) (g b)) -> agree (m ≫= f) (n ≫= g).
Proof. unfold agree. destruct m, n; cbn; naive_solver. Qed.

Lemma agree_fmap {B : Type} (h : B -> A) (m : outcome E B) (n : outcome F B) :
agree m n -> agree (h <$> m) (h <$> n).
Proof. unfold agree. destruct m, n; cbn; naive_solver. Qed.

Lemma agree_if (b c : bool) (m m' : outcome E A) (n n' : outcome F A) :
b = c -> agree m n -> agree m' n' -> agree (if b then m else m') (if c then n else n').
Proof. by intros -> ??; destruct c. Qed.

Lemma agree_map_err {G : Type} (h : E -> G) (m : outcome E A) : agree (map_err h m) m.
Proof. by destruct m. Qed.

Lemma agree_map_errs {D : Type} (h : D -> E) (k : D -> F) (m : outcome D A) :
agree (map_err h m) (map_err k m).
Proof. by destruct m. Qed.

Lemma agree_index (pad l : bytes) (i : nat) :
agree (index (E:=E) i l) (index (E:=F) (length pad + i) (pad ++ l)).
Proof.
unfold index. rewrite lookup_app_r by lia. replace (length pad + i - length pad)%nat with i by lia.
by destruct (l !! i).
Qed.

Lemma agree_slice (pad l : bytes) (a b c d : nat) :
c = (length pad + a)%nat -> d = (length pad + b)%nat ->
agree (slice (E:=E) a b l) (slice (E:=F) c d (pad ++ l)).
Proof.
intros -> ->. unfold slice. rewrite length_app.
replace (length pad + a <=? length pad + b)%nat with (a <=? b)%nat
  by (destruct (Nat.leb_spec a b), (Nat.leb_spec (length pad + a) (length pad + b)); auto; lia).
replace (length pad + b <=? length pad + length l)%nat with (b <=? length l)%nat
  by (destruct (Nat.leb_spec b (length l)), (Nat.leb_spec (length pad + b) (length pad + length l)); auto; lia).
destruct (_ && _)%bool; [|done]. unfold agree. rewrite drop_app_ge by lia.
replace (length pad + a - length pad)%nat with a by lia.
by replace (length pad + b - (length pad + a))%nat with (b - a)%nat by lia.
Qed.
End Agree.

(** The decoder of [payload] against the wire decoder of the same payload
    after the two status bytes and the boot epoch. *)
Section ChunkPayload.
Context (e : BootEpoch) (payload : bytes) (He : u64 e).
Let pad : bytes := [Byte.x00; Byte.x00] ++ to_le_bytes 8 e.

Lemma length_pad : length pad = 10%nat.
Proof. reflexivity. Qed.

Lemma agree_i24 (l : bytes) : agree (wal_decode_i24 l) (decode_i24 l).
Proof.
unfold wal_decode_i24, decode_i24. destruct l as [|b0 [|b1 [|b2 l]]]; try exact I.
cbn. apply agree_map_errs.
Qed.

Lemma agree_samples (n i : nat) :
agree (wal_decode_samples n i payload) (decode_samples n i (pad ++ payload)).
Proof.
revert i. induction n as [|n IH]; intros i; [done|]. cbn [wal_decode_samples decode_samples].
pose proof length_pad as Hpad.
repeat (apply agree_bind; [first [apply agree_i24 | apply IH | apply agree_slice; rewrite Hpad;
  change CHUNK_FIXED_BYTES with (10 + CHUNK_FIXED_PAYLOAD_BYTES)%nat; lia]|intros ?]). done.
Qed.

Lemma agree_chunk : agree (wal_decode_chunk payload e) (decode_chunk (pad ++ payload)).
Proof.
unfold wal_decode_chunk, decode_chunk, require_length, read_u16, read_u32, read_u64.
pose proof length_pad as Hpad. rewrite length_app, Hpad.
change CHUNK_FIXED_BYTES with (10 + CHUNK_FIXED_PAYLOAD_BYTES)%nat.
change CHUNK_FIXED_PAYLOAD_BYTES with 56%nat.
apply agree_if; [|done|].
{ destruct (Nat.ltb_spec (length payload) 56), (Nat.ltb_spec (10 + length payload) (10 + 56)); auto; lia. }
apply agree_bind; [apply agree_fmap, agree_slice; by rewrite Hpad|]. intros count.
destruct (Nat.eqb_spec (length payload) (56 + Z.to_nat count * 9)) as [Hl|Hl];
  [rewrite (proj2 (Nat.eqb_eq _ _)) by lia|rewrite (proj2 (Nat.eqb_neq _ _)) by lia]; [|done].
cbn [negb]. change (Ok tt ≫= ?k) with (k tt). cbv beta.
apply agree_bind; [apply agree_samples|]. intros samples.
assert (Hb : from_le_bytes <$> slice (E:=MeasurementWireError) 2 (2 + 8) (pad ++ payload) = Ok e).
{ unfold pad. rewrite <- app_assoc. rewrite (slice_at [Byte.x00; Byte.x00]) by done. cbn.
  by rewrite (from_to_le_bytes 8 64). }
rewrite Hb. change (Ok e ≫= ?k) with (k e). cbv beta.
repeat (apply agree_bind; [apply agree_fmap, agree_slice; by rewrite Hpad|intros ?]).
apply agree_bind; [apply agree_map_err|]. done.
Qed.
End ChunkPayload.

(** ** The data of a record *)

Definition record_kind (r : CaptureRecord) : RecordKind :=
  match r with
  | CSampleChunk _ => KSampleChunk
  | CGap _ => KGapRecord
  | CContinuityBreak _ => KContinuityBreakRecord
  | CWindowSeal => KWindowSeal
  end.

Definition record_payload (r : CaptureRecord) : bytes :=
  match r with
  | CSampleChunk chunk => chunk_payload chunk
  | CGap gap => gap_payload gap
  | CContinuityBreak observed => break_payload observed
  | CWindowSeal => []
  end.

Definition record_data (r : CaptureRecord) : bytes :=
  z2b (record_kind_code (record_kind r)) :: z2b 1 :: z2b 0 :: z2b 0 :: record_payload r.

(** Length, data, checksum. *)
Definition framed (data : bytes) : bytes :=
  to_le_bytes 4 (Z.of_nat (length data) + 4) ++ data ++ to_le_bytes 4 (crc32c data).

Definition record_bytes (r : CaptureRecord) : bytes := wrap_record (record_kind r) (record_payload r).

Lemma record_bytes_framed (r : CaptureRecord) : record_bytes r = framed (record_data r).
Proof.
  unfold record_bytes, wrap_record, framed. cbv zeta.
  match goal with |- context [drop RECORD_PREFIX_BYTES ?l] =>
    change (drop RECORD_PREFIX_BYTES l) with (record_data r) end.
  rewrite <- !app_assoc. f_equal. f_equal.
  change (length (record_data r)) with (4 + length (record_payload r))%nat.
  unfold RECORD_HEADER_BYTES, RECORD_CRC_BYTES. lia.
Qed.

Lemma wal_encode_i24_eq (v : SampleAxis) : wal_encode_i24 v = to_le_bytes 3 v.
Proof. apply (take_to_le_bytes 3 4). lia. Qed.

Lemma wal_samples_eq (l : list SampleAxes) : concat (wal_sample_bytes <$> l) = samples_wire l.
Proof.
  unfold samples_wire. induction l as [|s l IH]; [done|]. cbn [fmap list_fmap map concat]. rewrite IH.
  unfold wal_sample_bytes. by rewrite !wal_encode_i24_eq.
Qed.

Lemma chunk_payload_wire (c : SampleChunk) :
  ([Byte.x00; Byte.x00] ++ to_le_bytes 8 (chunk_boot_epoch (header c))) ++ chunk_payload c
  = Byte.x00 :: Byte.x00 :: chunk_wire c ++ samples_wire (samples c).
Proof. unfold chunk_payload, chunk_wire. rewrite wal_samples_eq, <- !app_assoc. reflexivity. Qed.

Section RecordCodec.
Context (hw : HardwareId) (e : BootEpoch) (Hhw : hardware_id_typed hw) (He : u64 e).

Lemma wal_decode_chunk_iff (payload : bytes) (c : SampleChunk) :
wal_decode_chunk payload e = Ok c <->
typed c /\ sample_chunk_validate c = Ok tt /\ chunk_boot_epoch (header c) = e /\
payload = chunk_payload c.
Proof.
rewrite (agree_Ok _ _ c (agree_chunk e payload He)). split.
- intros (Ht & Hv & Hl)%decode_chunk_inv. split; [done|]. split; [done|].
  change (firstn 2 _) with [Byte.x00; Byte.x00] in Hl.
  change ([Byte.x00; Byte.x00] ++ ?l) with (Byte.x00 :: Byte.x00 :: l) in Hl.
  rewrite <- chunk_payload_wire in Hl. apply app_inj_1 in Hl as [Hp ->]; [|done]. split; [|done].
  apply (app_inj_1 [Byte.x00; Byte.x00] [Byte.x00; Byte.x00]) in Hp as [_ Hp]; [|done].
  rewrite <- (from_to_le_bytes 8 64 e), <- (from_to_le_bytes 8 64 (chunk_boot_epoch _)), Hp; try done.
  apply Ht.
- intros (Ht & Hv & <- & ->). rewrite chunk_payload_wire. by apply decode_chunk_wire.
Qed.

Lemma decode_gap_reason_iff (v : Z) (r : GapReason) :
decode_gap_reason v = Ok r <-> v = encode_gap_reason r.
Proof.
split; [|by intros ->; destruct r]. unfold decode_gap_reason.
intros H. destruct v as [|[[]|[]|]|]; injection H as <- || discriminate H; reflexivity.
Qed.

Lemma decode_break_reason_iff (v : Z) (r : ContinuityBreakReason) :
decode_break_reason v = Ok r <-> v = encode_break_reason r.
Proof.
split; [|by intros ->; destruct r]. unfold decode_break_reason.
intros H. destruct v as [|[[]|[[]|[]|]|]|]; injection H as <- || discriminate H; reflexivity.
Qed.

Lemma wal_decode_gap_iff (payload : bytes) (g : Gap) :
wal_decode_gap payload hw e = Ok g <->
gap_valid g /\ gap_hardware_id g = hw /\ gap_boot_epoch g = e /\ payload = gap_payload g.
Proof.
split.
- unfold wal_decode_gap. destruct (Nat.eqb_spec (length payload) GAP_PAYLOAD_BYTES) as [Hl|]; [|done].
  cbn [negb]. intros H. do 2 decode_step H. decode_step H. decode_step H.
  apply decode_gap_reason_iff in Hr2. apply map_err_Ok, gap_new_Ok in H as (-> & Hne & Hend).
  unfold gap_payload, gap_valid. cbn [gap_hardware_id gap_boot_epoch first_missing missing_count gap_reason].
  rewrite <- Hr2, Hr, Hr0, Hr1. split_and!; try done.
  + unfold unsigned in *. lia.
  + clear -Hl. explicit_bytes payload Hl. reflexivity.
- intros (((_ & _ & Hf & Hc) & Hne & Hend) & <- & <- & ->).
  transitivity (reason ← decode_gap_reason (b2z (z2b (encode_gap_reason (gap_reason g))));
    map_err (fun _ => InvalidRecordPayload) (gap_new (gap_hardware_id g) (gap_boot_epoch g)
      (from_le_bytes (to_le_bytes 8 (first_missing g)))
      (from_le_bytes (to_le_bytes 8 (missing_count g))) reason)); [reflexivity|].
  rewrite b2z_z2b by (destruct (gap_reason g); cbn; ilia).
  rewrite (proj2 (decode_gap_reason_iff _ _) eq_refl), !(from_to_le_bytes 8 64) by done.
  cbn [mbind outcome_bind]. rewrite gap_new_intro by (unfold unsigned in *; lia). by destruct g.
Qed.

Lemma wal_decode_break_iff (payload : bytes) (b : ContinuityBreak) :
wal_decode_break payload hw e = Ok b <->
break_valid b /\ break_hardware_id b = hw /\ break_boot_epoch b = e /\ payload = break_payload b.
Proof.
split.
- unfold wal_decode_break. destruct (Nat.eqb_spec (length payload) BREAK_PAYLOAD_BYTES) as [Hl|]; [|done].
  cbn [negb]. intros H. do 3 decode_step H.
  apply decode_break_reason_iff in Hr1. apply map_err_Ok, continuity_break_new_Ok in H as (-> & Hend).
  unfold break_payload, break_valid. cbn [break_hardware_id break_boot_epoch break_at break_reason].
  rewrite <- Hr1, Hr, Hr0. split_and!; try done.
  + unfold unsigned in *. lia.
  + clear -Hl. explicit_bytes payload Hl. reflexivity.
- intros (((_ & _ & Ha) & Hend) & <- & <- & ->).
  transitivity (reason ← decode_break_reason (b2z (z2b (encode_break_reason (break_reason b))));
    map_err (fun _ => InvalidRecordPayload) (continuity_break_new (break_hardware_id b)
      (break_boot_epoch b) (from_le_bytes (to_le_bytes 8 (break_at b))) reason)); [reflexivity|].
  rewrite b2z_z2b by (destruct (break_reason b); cbn; ilia).
  rewrite (proj2 (decode_break_reason_iff _ _) eq_refl), !(from_to_le_bytes 8 64) by done.
  cbn [mbind outcome_bind]. rewrite continuity_break_new_intro by (unfold unsigned in *; lia). by destruct b.
Qed.

Lemma record_kind_try_from_iff (v : Z) (k : RecordKind) :
record_kind_try_from v = Ok k <-> v = record_kind_code k.
Proof.
split; [|by intros ->; destruct k]. unfold record_kind_try_from.
intros H. destruct v as [|[[]|[[]|[]|]|]|]; injection H as <- || discriminate H; reflexivity.
Qed.

Lemma decode_record_data (r : CaptureRecord) :
decode_record (record_data r) hw e =
match record_kind r with
| KSampleChunk => CSampleChunk <$> wal_decode_chunk (record_payload r) e
| KGapRecord => CGap <$> wal_decode_gap (record_payload r) hw e
| KContinuityBreakRecord => CContinuityBreak <$> wal_decode_break (record_payload r) hw e
| KWindowSeal => if negb (length (record_payload r) =? 0)%nat then Err InvalidRecordPayload else Ok CWindowSeal
end.
Proof.
unfold decode_record, record_data. change (length (_ :: _ :: _ :: _ :: ?l) <? _)%nat with false. cbv iota.
transitivity (payload ← slice_from (E:=CaptureWalError) 4 ([z2b (record_kind_code (record_kind r)); z2b 1; z2b 0; z2b 0]
    ++ record_payload r);
  match record_kind r with
  | KSampleChunk => CSampleChunk <$> wal_decode_chunk payload e
  | KGapRecord => CGap <$> wal_decode_gap payload hw e
  | KContinuityBreakRecord => CContinuityBreak <$> wal_decode_break payload hw e
  | KWindowSeal => if negb (length payload =? 0)%nat then Err InvalidRecordPayload else Ok CWindowSeal
  end); [by destruct (record_kind r)|]. by rewrite slice_from_app.
Qed.

(** The decoder accepts exactly the encodings of the stream's valid records. *)
Lemma decode_record_iff (data : bytes) (r : CaptureRecord) :
decode_record data hw e = Ok r <-> capture_record_valid hw e r /\ data = record_data r.
Proof.
split.
- unfold decode_record. destruct (Nat.ltb_spec (length data) RECORD_HEADER_BYTES) as [|Hl]; [done|].
  change RECORD_HEADER_BYTES with 4%nat in *. show_bytes data Hl 4. clear Hl. intros H.
  apply outcome_bind_Ok in H as (d0 & H0 & H). injection H0 as <-.
  apply outcome_bind_Ok in H as (k & Hk%record_kind_try_from_iff & H).
  apply outcome_bind_Ok in H as (d1 & H1 & H). injection H1 as <-.
  destruct (Z.eqb_spec (b2z b0) RECORD_VERSION) as [Hv|]; [|done]. cbn [negb] in H.
  apply outcome_bind_Ok in H as (d2 & H2 & H). injection H2 as <-.
  apply outcome_bind_Ok in H as (d3 & H3 & H). injection H3 as <-.
  destruct (Z.eqb_spec (b2z b1) 0) as [Hz1|]; [|done].
  destruct (Z.eqb_spec (b2z b2) 0) as [Hz2|]; [|done]. cbn [negb orb] in H.
  apply outcome_bind_Ok in H as (payload & Hp & H).
  change (b :: b0 :: b1 :: b2 :: data) with ([b; b0; b1; b2] ++ data) in Hp.
  rewrite slice_from_app in Hp by done. injection Hp as ->.
  unfold record_data. rewrite <- (z2b_b2z b), <- (z2b_b2z b0), <- (z2b_b2z b1), <- (z2b_b2z b2), Hk, Hv, Hz1, Hz2.
  destruct k.
  + apply fmap_Ok in H as (c & (? & ? & ? & ->)%wal_decode_chunk_iff & ->). done.
  + apply fmap_Ok in H as (g & (? & ? & ? & ->)%wal_decode_gap_iff & ->). done.
  + apply fmap_Ok in H as (c & (? & ? & ? & ->)%wal_decode_break_iff & ->). done.
  + destruct payload; [|done]. injection H as <-. done.
- intros [Hv ->]. rewrite decode_record_data. destruct r as [c|g|b|]; cbn [record_kind record_payload].
  + rewrite (proj2 (wal_decode_chunk_iff _ c)); [done|]. by destruct Hv as (? & ? & ?).
  + rewrite (proj2 (wal_decode_gap_iff _ g)); [done|]. by destruct Hv as (? & ? & ?).
  + rewrite (proj2 (wal_decode_break_iff _ b)); [done|]. by destruct Hv as (? & ? & ?).
  + done.
Qed.

Lemma decode_record_no_panic (data : bytes) : no_panic (decode_record data hw e).
Proof.
unfold decode_record. destruct (Nat.ltb_spec (length data) RECORD_HEADER_BYTES) as [|Hl]; [done|].
change RECORD_HEADER_BYTES with 4%nat in *.
apply no_panic_bind; [auto with rust lia|]. intros d0 _.
apply no_panic_bind; [unfold record_kind_try_from; repeat case_match; auto with rust|]. intros k _.
apply no_panic_bind; [apply index_no_panic; lia|]. intros d1 _. case_match; [done|].
apply no_panic_bind; [apply index_no_panic; lia|]. intros d2 _.
apply no_panic_bind; [apply index_no_panic; lia|]. intros d3 _. case_match; [done|].
apply no_panic_bind; [apply slice_no_panic; lia|]. intros payload _.
destruct k; [| | |case_match; auto with rust]; apply no_panic_fmap.
- eapply agree_no_panic; [by apply agree_chunk|apply decode_chunk_no_panic].
- unfold wal_decode_gap. destruct (Nat.eqb_spec (length payload) GAP_PAYLOAD_BYTES) as [Hp|]; [|done].
  change GAP_PAYLOAD_BYTES with 17%nat in Hp. cbn [negb].
  do 3 (apply no_panic_bind; [auto with rust lia|]; intros ? _).
  apply no_panic_bind; [unfold decode_gap_reason; repeat case_match; auto with rust|]. intros r _.
  apply no_panic_map_err. unfold gap_new. repeat case_match; auto with rust.
- unfold wal_decode_break. destruct (Nat.eqb_spec (length payload) BREAK_PAYLOAD_BYTES) as [Hp|]; [|done].
  change BREAK_PAYLOAD_BYTES with 9%nat in Hp. cbn [negb].
  do 2 (apply no_panic_bind; [auto with rust lia|]; intros ? _).
  apply no_panic_bind; [unfold decode_break_reason; repeat case_match; auto with rust|]. intros r _.
  apply no_panic_map_err. unfold continuity_break_new. repeat case_match; auto with rust.
Qed.
End RecordCodec.

(** ** The file header *)

(** A configuration as [CaptureWindowPolicy::new] and the boot-epoch guard of
    [open] leave it. *)
#[export] Instance CaptureWalConfig_typed : Typed CaptureWalConfig := fun c =>
  hardware_id_typed (cfg_hardware_id c) /\ u64 (cfg_boot_epoch c) /\ u64 (cfg_recovered_cursor c) /\
  u64 (cfg_first_window_ordinal c) /\ u64 (target_duration_us (cfg_window_policy c)) /\
  target_duration_us (cfg_window_policy c) <> 0 /\ cfg_boot_epoch c <> 0.

Definition header_fields (c : CaptureWalConfig) : bytes :=
  FILE_MAGIC ++ to_le_bytes 2 FILE_VERSION ++ to_le_bytes 2 (Z.of_nat FILE_HEADER_BYTES) ++
  cfg_hardware_id c ++ to_le_bytes 8 (cfg_boot_epoch c) ++ to_le_bytes 8 (cfg_recovered_cursor c) ++
  to_le_bytes 8 (cfg_first_window_ordinal c) ++
  to_le_bytes 8 (target_duration_us (cfg_window_policy c)) ++ zeros 8.

Definition header_bytes (c : CaptureWalConfig) : bytes :=
  header_fields c ++ to_le_bytes 4 (crc32c (header_fields c)).

Section Header.
Context (c : CaptureWalConfig) (Hc : typed c).

Lemma length_header_fields : length (header_fields c) = 60%nat.
Proof.
destruct Hc as (Hhw & _). unfold header_fields. rewrite !length_app.
unfold hardware_id_typed in Hhw. rewrite Hhw. reflexivity.
Qed.

Lemma length_header_bytes : length (header_bytes c) = FILE_HEADER_BYTES.
Proof. unfold header_bytes. by rewrite length_app, length_header_fields. Qed.

Lemma write_header_bytes_eq : write_header_bytes c = Ok (header_bytes c).
Proof.
destruct Hc as (Hhw & _). unfold hardware_id_typed in Hhw. unfold write_header_bytes.
unfold header_bytes, header_fields. generalize (cfg_hardware_id c), Hhw. clear. intros hw Hhw.
explicit_bytes hw Hhw. reflexivity.
Qed.

Lemma decode_header_bytes :
decode_file_header (header_bytes c) =
Ok (mkWalHeader (cfg_hardware_id c) (cfg_boot_epoch c) (cfg_recovered_cursor c)
      (cfg_first_window_ordinal c) (cfg_window_policy c)).
Proof.
pose proof length_header_fields as Hlen. pose proof (crc32c_range (header_fields c)) as Hcrc.
destruct Hc as (Hhw & He & Hcur & Hord & Ht & Hnz & Hne). unfold hardware_id_typed in Hhw.
unfold decode_file_header, header_bytes.
assert (Hcov : slice (E:=CaptureWalError) 0 FILE_HEADER_CRC_OFFSET
  (header_fields c ++ to_le_bytes 4 (crc32c (header_fields c))) = Ok (header_fields c)).
{ by apply slice_front. }
assert (Hstored : read_u32 (E:=CaptureWalError)
  (header_fields c ++ to_le_bytes 4 (crc32c (header_fields c))) FILE_HEADER_CRC_OFFSET = Ok (crc32c (header_fields c))).
{ unfold read_u32. rewrite <- (app_nil_r (to_le_bytes 4 _)), (slice_at (header_fields c)) by done.
  cbn. by rewrite (from_to_le_bytes 4 32). }
rewrite Hcov, Hstored. clear Hcov Hstored. cbn [mbind outcome_bind]. rewrite Z.eqb_refl.
generalize (crc32c (header_fields c)). intros crc. unfold header_fields.
destruct c as [hw e cur ord [target]]. cbn [cfg_hardware_id cfg_boot_epoch cfg_recovered_cursor
  cfg_first_window_ordinal cfg_window_policy target_duration_us] in *. explicit_bytes hw Hhw.
transitivity (
  if from_le_bytes (to_le_bytes 8 e) =? 0 then Err WalZeroBootEpoch
  else policy ← map_err Window (window_policy_new (from_le_bytes (to_le_bytes 8 target)));
    Ok (mkWalHeader [b; b0; b1; b2; b3; b4; b5; b6] (from_le_bytes (to_le_bytes 8 e))
      (from_le_bytes (to_le_bytes 8 cur)) (from_le_bytes (to_le_bytes 8 ord)) policy)); [reflexivity|].
rewrite !(from_to_le_bytes 8 64) by done. destruct (Z.eqb_spec e 0); [done|].
unfold window_policy_new. by destruct (Z.eqb_spec target 0).
Qed.

Lemma decode_file_header_inv (h : bytes) (w : CaptureWalHeader) :
length h = FILE_HEADER_BYTES -> decode_file_header h = Ok w ->
h = header_bytes (mkConfig (wh_hardware_id w) (wh_boot_epoch w) (wh_first_cursor w)
      (wh_first_window_ordinal w) (wh_window_policy w)).
Proof.
intros Hl H. unfold decode_file_header in H.
apply outcome_bind_Ok in H as (magic & Hmagic & H). case_bool_decide as Hm; [|done]. subst magic.
cbn [negb] in H. decode_step H. destruct (Z.eqb_spec x FILE_VERSION) as [->|]; [|done]. cbn [negb] in H.
decode_step H. destruct (Z.eqb_spec x (Z.of_nat FILE_HEADER_BYTES)) as [->|]; [|done]. cbn [negb] in H.
apply outcome_bind_Ok in H as (covered & Hcov & H). decode_step H.
destruct (Z.eqb_spec (crc32c covered) x) as [<-|]; [|done]. cbn [negb] in H.
apply outcome_bind_Ok in H as (reserved & Hres & H). destruct (existsb _ reserved) eqn:Hzero; [done|].
decode_step H. destruct (Z.eqb_spec x 0); [done|].
apply outcome_bind_Ok in H as (hw & Hhw & H). do 3 decode_step H.
apply outcome_bind_Ok in H as (policy & Hpol & [= <-]). apply map_err_Ok in Hpol.
unfold window_policy_new in Hpol. destruct (Z.eqb_spec x2 0); [done|]. injection Hpol as <-.
unfold header_bytes. cbn [wh_hardware_id wh_boot_epoch wh_first_cursor wh_first_window_ordinal wh_window_policy].
apply slice_inv in Hmagic as (_ & _ & Hmagic & _), Hcov as (_ & _ & Hcov & _), Hres as (_ & _ & Hres & _),
  Hhw as (_ & _ & Hhw & _).
enough (Hf : header_fields (mkConfig hw x x0 x1 (mkPolicy x2)) = covered).
{ rewrite Hf, Hr1, Hcov. clear -Hl. change (length h = 64%nat) in Hl. explicit_bytes h Hl. reflexivity. }
unfold header_fields. cbn [cfg_hardware_id cfg_boot_epoch cfg_recovered_cursor
  cfg_first_window_ordinal cfg_window_policy target_duration_us].
rewrite Hmagic, Hr, Hr0, Hr2, Hr3, Hr4, Hr5, Hhw, Hcov.
assert (Hlr : length reserved = 8%nat)
  by (rewrite Hres; clear -Hl; change (length h = 64%nat) in Hl; explicit_bytes h Hl; reflexivity).
rewrite <- (zero_bytes 8 reserved Hlr Hzero), Hres. clear -Hl. change (length h = 64%nat) in Hl.
explicit_bytes h Hl. reflexivity.
Qed.

(** The header that a decoded one stands for is one [open] could have written. *)
Lemma decode_file_header_typed (h : bytes) (w : CaptureWalHeader) :
decode_file_header h = Ok w ->
typed (mkConfig (wh_hardware_id w) (wh_boot_epoch w) (wh_first_cursor w)
  (wh_first_window_ordinal w) (wh_window_policy w)).
Proof.
intros H. unfold decode_file_header in H.
apply outcome_bind_Ok in H as (magic & _ & H). case_bool_decide; [|done]. cbn [negb] in H.
decode_step H. destruct (_ =? FILE_VERSION); [|done]. cbn [negb] in H.
decode_step H. destruct (_ =? Z.of_nat FILE_HEADER_BYTES); [|done]. cbn [negb] in H.
apply outcome_bind_Ok in H as (covered & _ & H). decode_step H. destruct (crc32c covered =? _); [|done].
cbn [negb] in H. apply outcome_bind_Ok in H as (reserved & _ & H). destruct (existsb _ reserved); [done|].
decode_step H. destruct (Z.eqb_spec x2 0); [done|].
apply outcome_bind_Ok in H as (hw & (_ & _ & _ & Hhw)%slice_inv & H). do 3 decode_step H.
apply outcome_bind_Ok in H as (policy & Hpol & [= <-]). apply map_err_Ok in Hpol.
unfold window_policy_new in Hpol. destruct (Z.eqb_spec x5 0); [done|]. injection Hpol as <-.
unfold typed, CaptureWalConfig_typed. cbn. split_and!; done.
Qed.

(** A header is accepted exactly when it is the one [open] writes. *)
Lemma validate_file_header_iff (h : bytes) :
length h = FILE_HEADER_BYTES -> validate_file_header h c = Ok tt <-> h = header_bytes c.
Proof.
intros Hl. unfold validate_file_header. split.
- intros (w & Hw%decode_file_header_inv & H)%outcome_bind_Ok; [|done].
  case_bool_decide as H1; [|done]. cbn [negb] in H.
  destruct (Z.eqb_spec (wh_boot_epoch w) (cfg_boot_epoch c)) as [H2|]; [|done].
  destruct (Z.eqb_spec (wh_first_cursor w) (cfg_recovered_cursor c)) as [H3|]; [|done].
  destruct (Z.eqb_spec (wh_first_window_ordinal w) (cfg_first_window_ordinal c)) as [H4|]; [|done].
  cbn [negb] in H. case_bool_decide as H5; [|done]. rewrite Hw, H1, H2, H3, H4, H5. by destruct c.
- intros ->. rewrite decode_header_bytes. cbn [mbind outcome_bind wh_hardware_id wh_boot_epoch
    wh_first_cursor wh_first_window_ordinal wh_window_policy].
  by rewrite !bool_decide_eq_true_2, !Z.eqb_refl by done.
Qed.

Lemma decode_file_header_no_panic (h : bytes) :
length h = FILE_HEADER_BYTES -> no_panic (decode_file_header h).
Proof.
change FILE_HEADER_BYTES with 64%nat. intros Hl.
unfold decode_file_header. change FILE_HEADER_CRC_OFFSET with 60%nat.
repeat (first [apply no_panic_bind; [first [apply no_panic_map_err; unfold window_policy_new; case_match; done
  | auto with rust lia]|intros ? _] | split_guard]; auto with rust).
Qed.

Lemma validate_file_header_no_panic (h : bytes) :
length h = FILE_HEADER_BYTES -> no_panic (validate_file_header h c).
Proof.
intros Hl. unfold validate_file_header. apply no_panic_bind; [by apply decode_file_header_no_panic|].
intros. repeat split_guard; auto with rust.
Qed.
End Header.

(** ** Properties *)

(** C16. The log's codec is exact: for the stream [(hw, e)], a record's data
    decodes to [r] if and only if [r] is a valid record of the stream and the
    data is the encoding of [r], and decoding never panics; the file header
    [open] writes is the only one it accepts for its configuration. *)
Theorem capture_codec_exact (c : CaptureWalConfig) :
  typed c ->
  (forall data r,
     decode_record data (cfg_hardware_id c) (cfg_boot_epoch c) = Ok r <->
     capture_record_valid (cfg_hardware_id c) (cfg_boot_epoch c) r /\ data = record_data r) /\
  (forall data, no_panic (decode_record data (cfg_hardware_id c) (cfg_boot_epoch c))) /\
  exists h, write_header_bytes c = Ok h /\ length h = FILE_HEADER_BYTES /\
    forall h', length h' = FILE_HEADER_BYTES -> validate_file_header h' c = Ok tt <-> h' = h.
Proof.
  intros Hc. pose proof Hc as (Hhw & He & _). split; [|split].
  - intros. by apply decode_record_iff.
  - intros. by apply decode_record_no_panic.
  - exists (header_bytes c). split; [by apply write_header_bytes_eq|].
    split; [by apply length_header_bytes|]. intros. by apply validate_file_header_iff.
Qed.

Lemma capture_codec_exact_witness :
  decode_record (record_data (CGap (mkGap window_hw window_epoch 17 3 JournalOverflow))) window_hw window_epoch
  = Ok (CGap (mkGap window_hw window_epoch 17 3 JournalOverflow)).
Proof.
  apply (capture_codec_exact (mkConfig window_hw window_epoch 17 5 (mkPolicy 4000))).
  - typed_by_compute.
  - split; [|reflexivity]. pose proof window_records_valid as H. by apply List.Forall_inv in H.
Defined.
