(* ===== verification/CaptureRecovery.v ===== *)
(** * Recovery of a Capture log

    What [recover] makes of the bytes of a file. The offset-based loop is
    unfolded over the bytes that remain; a file is read as a header, the
    encodings of a list of valid records and a torn tail in exactly one way, and
    the ledger and the report are those of the records. *)

From S2P Require Export CaptureCodec.

(** ** Torn tails and counts *)

(** What the loop stops at: fewer bytes than a length prefix, or a plausible
    length and fewer bytes than it announces. *)
Definition torn_tail (l : bytes) : Prop :=
  (length l < 4)%nat \/
  let n := from_le_bytes (take 4 l) in
  MIN_RECORD_BODY_BYTES <= n <= MAX_RECORD_BODY_BYTES /\ Z.of_nat (length l) < 4 + n.

Definition records_bytes (rs : list CaptureRecord) : bytes := concat (record_bytes <$> rs).

(** The report of a recovery that found [rs], which seal the windows [ms] and
    leave the ledger [L]. *)
Definition recovery_of (rs : list CaptureRecord) (ms : list CaptureWindowManifest)
    (L : CaptureWindowLedger) (torn : Z) : CaptureWalRecovery :=
  mkRecovery (lg_next_cursor L) (Z.of_nat (length rs)) (total record_samples rs)
    (total record_missing rs) (total record_breaks rs) (Z.of_nat (length ms)) (list.last ms) torn.

Lemma records_bytes_app (rs rs' : list CaptureRecord) :
  records_bytes (rs ++ rs') = records_bytes rs ++ records_bytes rs'.
Proof. unfold records_bytes. by rewrite fmap_app, concat_app. Qed.

Lemma range_count_counts (r : CaptureRecord) :
  range_count r = record_samples r + record_missing r + record_breaks r.
Proof. destruct r; cbn [range_count capture_range record_samples record_missing record_breaks]; lia. Qed.

Lemma valid_counts (hw : HardwareId) (e : BootEpoch) (r : CaptureRecord) :
  capture_record_valid hw e r -> 0 <= record_samples r /\ 0 <= record_missing r /\ 0 <= record_breaks r.
Proof.
  destruct r as [c|g|b|]; cbn; try lia.
  - intros (((_ & _ & _ & _ & H) & _) & _). unfold unsigned in H. lia.
  - intros (((_ & _ & _ & H) & _) & _). unfold unsigned in H. lia.
Qed.

Lemma total_nonneg (hw : HardwareId) (e : BootEpoch) (rs : list CaptureRecord) :
  Forall (capture_record_valid hw e) rs ->
  0 <= total record_samples rs /\ 0 <= total record_missing rs /\ 0 <= total record_breaks rs.
Proof.
  induction 1 as [|r rs Hr _ IH]; cbn [total]; [lia|]. apply valid_counts in Hr. lia.
Qed.

Lemma ledger_run_app (hw : HardwareId) (rs rs' : list CaptureRecord) (L : CaptureWindowLedger) :
  ledger_run hw (rs ++ rs') L =
  ('(ms, L1) ← ledger_run hw rs L; '(ms', L2) ← ledger_run hw rs' L1; Ok (ms ++ ms', L2)).
Proof.
  revert L. induction rs as [|r rs IH]; intros L; cbn [app ledger_run].
  - cbn. by destruct (ledger_run hw rs' L) as [[]| |].
  - destruct (ledger_append hw r L) as [[m|err|] L1]; [|done|done]. rewrite IH.
    destruct (ledger_run hw rs L1) as [[ms1 L2]|err|]; cbn; [|done|done].
    destruct (ledger_run hw rs' L2) as [[ms2 L3]|err|]; cbn; [|done|done]. by rewrite app_assoc.
Qed.

(** ** Frames of records *)

Lemma length_framed (data : bytes) : length (framed data) = (8 + length data)%nat.
Proof. unfold framed. rewrite !length_app, !length_to_le_bytes. lia. Qed.

Lemma records_bytes_length rs :
  (length rs <= length (records_bytes rs))%nat.
Proof.
  induction rs as [|r rs IH]; [done|].
  change (records_bytes (r :: rs)) with (record_bytes r ++ records_bytes rs).
  rewrite record_bytes_framed, length_app, length_framed. cbn [length]. lia.
Qed.

Lemma record_data_length (hw : HardwareId) (e : BootEpoch) (r : CaptureRecord) :
  capture_record_valid hw e r -> (4 <= length (record_data r) <= 1000)%nat.
Proof.
  change (length (record_data r)) with (4 + length (record_payload r))%nat.
  destruct r as [c|g|b|]; cbn [record_payload capture_record_valid]; intros Hv.
  - destruct Hv as (_ & (_ & _ & _ & H49)%sample_chunk_validate_Ok & _).
    pose proof (f_equal length (chunk_payload_wire c)) as Hl.
    rewrite length_app in Hl. cbn [length] in Hl. rewrite !length_app, length_chunk_wire, length_samples_wire in Hl.
    change (length ([Byte.x00; Byte.x00] ++ to_le_bytes 8 _)) with 10%nat in Hl. lia.
  - change (length (gap_payload g)) with 17%nat. lia.
  - change (length (break_payload b)) with 9%nat. lia.
  - cbn. lia.
Qed.

Lemma framed_prefix (data rest : bytes) :
  (length data <= 1000)%nat ->
  from_le_bytes (take 4 (framed data ++ rest)) = Z.of_nat (length data) + 4.
Proof.
  intros Hl. unfold framed. rewrite <- app_assoc, take_app_length' by reflexivity.
  apply (from_to_le_bytes 4 32); [done|]. ilia.
Qed.

(** Every proper prefix of a record is a torn tail. *)
Lemma torn_prefix (hw : HardwareId) (e : BootEpoch) (r : CaptureRecord) (k : nat) :
  capture_record_valid hw e r -> (k < length (record_bytes r))%nat -> torn_tail (take k (record_bytes r)).
Proof.
  intros Hv%record_data_length. rewrite record_bytes_framed. rewrite length_framed. intros Hk.
  unfold torn_tail. cbv zeta. destruct (decide (k < 4)%nat) as [H4|H4].
  - left. rewrite length_take. lia.
  - right. rewrite take_take. replace (4 `min` k)%nat with 4%nat by lia.
    pose proof (framed_prefix (record_data r) [] ltac:(lia)) as Hp. rewrite app_nil_r in Hp. rewrite Hp.
    rewrite length_take, length_framed. unfold MIN_RECORD_BODY_BYTES, MAX_RECORD_BODY_BYTES. lia.
Qed.

(** A prefix of a sequence of records is the records that fit and a torn tail. *)
Lemma take_records (hw : HardwareId) (e : BootEpoch) (rs : list CaptureRecord) (k : nat) :
  Forall (capture_record_valid hw e) rs ->
  exists j torn, (j <= length rs)%nat /\ take k (records_bytes rs) = records_bytes (take j rs) ++ torn /\
    torn_tail torn /\
    forall i, (i <= length rs)%nat -> (length (records_bytes (take i rs)) <= k)%nat -> (i <= j)%nat.
Proof.
  intros Hrs. revert k. induction Hrs as [|r rs Hr _ IH]; intros k.
  - exists 0%nat, []. split; [done|]. split; [by destruct k|]. split; [left; cbn; lia|]. done.
  - change (records_bytes (r :: rs)) with (record_bytes r ++ records_bytes rs).
    destruct (decide (k < length (record_bytes r))%nat) as [Hk|Hk].
    + exists 0%nat, (take k (record_bytes r)). split; [lia|]. rewrite take_app_le by lia.
      split; [done|]. split; [by eapply torn_prefix|]. intros [|i] Hi; [lia|].
      change (records_bytes (take (S i) (r :: rs))) with (record_bytes r ++ records_bytes (take i rs)).
      rewrite length_app. lia.
    + destruct (IH (k - length (record_bytes r))%nat) as (j & torn & Hj & Ht & Htorn & Hmax).
      exists (S j), torn. cbn [length take]. split; [lia|]. rewrite take_app_ge by lia. rewrite Ht.
      change (records_bytes (r :: take j rs)) with (record_bytes r ++ records_bytes (take j rs)).
      split; [by rewrite <- app_assoc|]. split; [done|]. intros [|i] Hi; [lia|]. cbn [take].
      change (records_bytes (r :: take i rs)) with (record_bytes r ++ records_bytes (take i rs)).
      rewrite length_app. intros Hl. apply le_n_S, Hmax; lia.
Qed.

(** A length, data and four bytes stored as their checksum. *)
Definition framed_as (data stored : bytes) : bytes :=
to_le_bytes 4 (Z.of_nat (length data) + 4) ++ data ++ stored.

Lemma length_framed_as (data stored : bytes) :
length stored = 4%nat -> length (framed_as data stored) = (8 + length data)%nat.
Proof. intros H. unfold framed_as. rewrite !length_app, length_to_le_bytes. lia. Qed.

Lemma read_framed_as (pre data stored l : bytes) :
Z.of_nat (length data) <= 2 ^ 20 -> length stored = 4%nat ->
read_u32 (E:=CaptureWalError) (pre ++ framed_as data stored ++ l) (length pre) = Ok (Z.of_nat (length data) + 4) /\
slice (E:=CaptureWalError) (length pre + 4) (length pre + 4 + (length data + 4)) (pre ++ framed_as data stored ++ l)
  = Ok (data ++ stored) /\
read_u32 (E:=CaptureWalError) (data ++ stored) (length data) = Ok (from_le_bytes stored) /\
slice (E:=CaptureWalError) 0 (length data) (data ++ stored) = Ok data.
Proof.
intros Hl Hs. unfold read_u32, framed_as. rewrite <- !app_assoc. split_and!.
- rewrite (slice_at pre) by done. cbn [fmap outcome_fmap]. rewrite (from_to_le_bytes 4 32); [done..|]. ilia.
- rewrite (app_assoc pre), (app_assoc data). apply slice_at; rewrite !length_app, ?length_to_le_bytes; lia.
- rewrite <- (app_nil_r stored), (slice_at data) by (done || lia). cbn [fmap outcome_fmap]. by rewrite app_nil_r.
- by apply slice_front.
Qed.

(** Bytes are a torn tail, a length that no record has, or a frame. *)
Lemma tail_cases (l : bytes) :
  torn_tail l \/
  ((4 <= length l)%nat /\ ~ (MIN_RECORD_BODY_BYTES <= from_le_bytes (take 4 l) <= MAX_RECORD_BODY_BYTES)) \/
  exists data stored l', l = framed_as data stored ++ l' /\ length stored = 4%nat /\ (4 <= length data)%nat /\
    Z.of_nat (length data) + 4 <= MAX_RECORD_BODY_BYTES.
Proof.
  destruct (decide (length l < 4)%nat) as [|H4]; [by left; left|]. set (n := from_le_bytes (take 4 l)).
  destruct (decide (MIN_RECORD_BODY_BYTES <= n <= MAX_RECORD_BODY_BYTES)) as [Hn|Hn].
  2: { right. left. split; [lia|done]. }
  destruct (decide (Z.of_nat (length l) < 4 + n)) as [|Hlen]; [by left; right|].
  right. right. assert (Hn' : 8 <= n <= 2 ^ 20) by exact Hn.
  set (data := take (Z.to_nat n - 4) (drop 4 l)). set (stored := take 4 (drop (Z.to_nat n) l)).
  assert (Hd : length data = (Z.to_nat n - 4)%nat) by (unfold data; rewrite length_take, length_drop; lia).
  assert (Hs : length stored = 4%nat) by (unfold stored; rewrite length_take, length_drop; lia).
  exists data, stored, (drop (4 + Z.to_nat n) l). unfold MAX_RECORD_BODY_BYTES. split_and!; [|done|lia|lia].
  unfold framed_as. rewrite Hd. replace (Z.of_nat (Z.to_nat n - 4) + 4) with n by lia.
  replace (to_le_bytes 4 n) with (take 4 l)
    by (symmetry; apply to_from_le_bytes; rewrite length_take; lia). unfold data, stored. rewrite <- !app_assoc.
  replace (drop (Z.to_nat n) l) with (drop (Z.to_nat n - 4) (drop 4 l)) by (rewrite drop_drop; f_equal; lia).
  replace (drop (4 + Z.to_nat n) l) with (drop 4 (drop (Z.to_nat n - 4) (drop 4 l))) by (rewrite !drop_drop; f_equal; lia).
  by rewrite !take_drop.
Qed.

(** ** The loop over the bytes that remain *)

Section Loop.
Context (c : CaptureWalConfig) (Hc : typed c).
Let hw := cfg_hardware_id c.
Let e := cfg_boot_epoch c.

(** What the loop does with one complete record. *)
Definition replay (data : bytes) (L : CaptureWindowLedger) (report : CaptureWalRecovery)
  : wal (CaptureWindowLedger * CaptureWalRecovery) :=
'(sealed, L, report) ← replay_record hw e data L report;
report ← count_record sealed L report;
Ok (L, report).

Lemma recover_loop_torn (fuel : nat) (pre l : bytes) L report :
(length l <= fuel)%nat -> Z.of_nat (length pre) + 2 ^ 21 < 2 ^ 64 -> torn_tail l ->
recover_loop fuel c (pre ++ l) L report (length pre) = Ok (L, report, length pre).
Proof.
intros Hfuel Hpre Htorn.
assert (Hloop : forall fuel', recover_loop fuel' c (pre ++ l) L report (length pre) =
  if (length l <? 4)%nat then Ok (L, report, length pre) else
  recover_loop fuel' c (pre ++ l) L report (length pre)).
{ intros [|fuel']; cbn [recover_loop]; rewrite length_app;
    replace (length pre + length l - length pre)%nat with (length l) by lia;
    destruct (Nat.ltb_spec (length l) 4) as [H4|H4]; try done;
    change RECORD_PREFIX_BYTES with 4%nat; rewrite (proj2 (Nat.ltb_lt _ _) H4); by case_match. }
rewrite Hloop. destruct (Nat.ltb_spec (length l) 4) as [H4|H4]; [done|]. clear Hloop.
destruct Htorn as [|(Hn & Hlen)]; [lia|]. cbv zeta in Hn, Hlen.
destruct fuel as [|fuel]; [lia|]. cbn [recover_loop]. rewrite length_app.
rewrite (proj2 (Nat.leb_gt _ _)) by lia.
replace (length pre + length l - length pre)%nat with (length l) by lia.
change RECORD_PREFIX_BYTES with 4%nat. rewrite (proj2 (Nat.ltb_ge _ _)) by lia.
unfold read_u32. rewrite slice_Ok by (rewrite ?length_app; lia). rewrite drop_app_length.
replace (length pre + 4 - length pre)%nat with 4%nat by lia. cbn [fmap outcome_fmap mbind outcome_bind].
rewrite (proj2 (Z.ltb_ge _ _)) by lia. rewrite (proj2 (Z.ltb_ge MAX_RECORD_BODY_BYTES _)) by lia.
cbn [orb]. unfold MIN_RECORD_BODY_BYTES, MAX_RECORD_BODY_BYTES in *. rewrite checked_add_ok by lia.
cbn [ok_or mbind outcome_bind]. by rewrite (proj2 (Nat.ltb_lt _ _)) by lia.
Qed.

(** One turn over a complete record. *)
Lemma recover_loop_turn (fuel : nat) (pre data stored l : bytes) L report :
(4 <= length data)%nat -> Z.of_nat (length data) + 4 <= MAX_RECORD_BODY_BYTES -> length stored = 4%nat ->
Z.of_nat (length pre) + 2 ^ 21 < 2 ^ 64 ->
recover_loop (S fuel) c (pre ++ framed_as data stored ++ l) L report (length pre) =
if crc32c data =? from_le_bytes stored then
  '(L, report) ← replay data L report;
  recover_loop fuel c ((pre ++ framed_as data stored) ++ l) L report (length (pre ++ framed_as data stored))
else Err (RecordChecksumMismatch (length pre)).
Proof.
unfold MAX_RECORD_BODY_BYTES. intros H4 Hmax Hs Hpre. cbn [recover_loop].
rewrite !length_app, length_framed_as by done.
destruct (read_framed_as pre data stored l) as (Hread & Hbody & Hcrc & Hdata); [lia|done|].
rewrite (proj2 (Nat.leb_gt _ _)) by lia. change RECORD_PREFIX_BYTES with 4%nat. change RECORD_CRC_BYTES with 4%nat.
rewrite (proj2 (Nat.ltb_ge _ _)) by lia. rewrite Hread. cbn [mbind outcome_bind].
rewrite (proj2 (Z.ltb_ge _ _)) by (unfold MIN_RECORD_BODY_BYTES; lia).
rewrite (proj2 (Z.ltb_ge MAX_RECORD_BODY_BYTES _)) by (unfold MAX_RECORD_BODY_BYTES; lia). cbn [orb].
rewrite checked_add_ok by lia. cbn [ok_or mbind outcome_bind].
replace (Z.to_nat (Z.of_nat (length data) + 4)) with (length data + 4)%nat by lia.
rewrite (proj2 (Nat.ltb_ge _ _)) by lia. rewrite Hbody. cbn [mbind outcome_bind].
replace (length data + 4 - 4)%nat with (length data) by lia.
rewrite Hcrc, Hdata. cbn [mbind outcome_bind]. destruct (_ =? _); [|done]. cbn [negb]. unfold replay. fold hw e.
rewrite <- app_assoc.
replace (length pre + 4 + (length data + 4))%nat with (length pre + (8 + length data))%nat by lia.
destruct (replay_record hw e data L report) as [[[sealed L1] report1]|err|]; cbn [mbind outcome_bind]; [|done|done].
by destruct (count_record sealed L1 report1).
Qed.

Lemma recover_loop_record (fuel : nat) (pre data l : bytes) L report :
(4 <= length data)%nat -> Z.of_nat (length data) + 4 <= MAX_RECORD_BODY_BYTES ->
Z.of_nat (length pre) + 2 ^ 21 < 2 ^ 64 ->
recover_loop (S fuel) c (pre ++ framed data ++ l) L report (length pre) =
('(L, report) ← replay data L report;
 recover_loop fuel c ((pre ++ framed data) ++ l) L report (length (pre ++ framed data))).
Proof.
intros H4 Hmax Hpre. change (framed data) with (framed_as data (to_le_bytes 4 (crc32c data))).
rewrite recover_loop_turn by done. rewrite (from_to_le_bytes 4 32) by (done || apply crc32c_range).
by rewrite Z.eqb_refl.
Qed.

Lemma recover_loop_bad_length (fuel : nat) (pre l : bytes) L report :
(4 <= length l)%nat ->
~ (MIN_RECORD_BODY_BYTES <= from_le_bytes (take 4 l) <= MAX_RECORD_BODY_BYTES) ->
recover_loop (S fuel) c (pre ++ l) L report (length pre) =
Err (InvalidRecordLength (length pre) (from_le_bytes (take 4 l))).
Proof.
intros H4 Hbad. cbn [recover_loop]. rewrite length_app. rewrite (proj2 (Nat.leb_gt _ _)) by lia.
change RECORD_PREFIX_BYTES with 4%nat. rewrite (proj2 (Nat.ltb_ge _ _)) by lia.
unfold read_u32. rewrite slice_Ok by (rewrite ?length_app; lia). rewrite drop_app_length.
replace (length pre + 4 - length pre)%nat with 4%nat by lia. cbn [fmap outcome_fmap mbind outcome_bind].
destruct (Z.ltb_spec (from_le_bytes (take 4 l)) MIN_RECORD_BODY_BYTES); [done|].
destruct (Z.ltb_spec MAX_RECORD_BODY_BYTES (from_le_bytes (take 4 l))); [done|lia].
Qed.

(** The bytes that remain are a torn tail, a complete record, or refused. *)
Lemma recover_loop_cases (fuel : nat) (pre l : bytes) :
(length l <= fuel)%nat -> Z.of_nat (length pre) + 2 ^ 21 < 2 ^ 64 ->
torn_tail l \/
(exists data l' fuel', fuel = S fuel' /\ l = framed data ++ l' /\ (4 <= length data)%nat /\
   Z.of_nat (length data) + 4 <= MAX_RECORD_BODY_BYTES) \/
(exists err, forall L report, recover_loop fuel c (pre ++ l) L report (length pre) = Err err).
Proof.
intros Hfuel Hpre.
destruct (tail_cases l) as [Htorn|[(H4 & Hn)|(data & stored & l' & -> & Hs & H4 & Hmax)]]; [by left|right..].
- destruct fuel as [|fuel]; [lia|]. right. eexists. intros. by apply recover_loop_bad_length.
- pose proof (length_framed_as data stored Hs) as Hlf. rewrite length_app in Hfuel.
  destruct fuel as [|fuel]; [lia|]. destruct (Z.eqb_spec (crc32c data) (from_le_bytes stored)) as [Hcrc|Hcrc].
  + left. exists data, l', fuel. split; [done|]. unfold framed. rewrite Hcrc, to_from_le_bytes by done. done.
  + right. eexists. intros L report. rewrite recover_loop_turn by done. by rewrite (proj2 (Z.eqb_neq _ _)).
Qed.

(** ** The records found so far *)

Definition start_ledger : CaptureWindowLedger :=
ledger_new (cfg_window_policy c) hw e (cfg_recovered_cursor c) (cfg_first_window_ordinal c).

Definition processed (rs : list CaptureRecord) (ms : list CaptureWindowManifest) (L : CaptureWindowLedger) : Prop :=
Forall (capture_record_valid hw e) rs /\ ledger_run hw rs start_ledger = Ok (ms, L).

Lemma start_ledger_wf : ledger_wf hw e start_ledger.
Proof.
destruct Hc as (_ & _ & Hcur & _). unfold ledger_wf, start_ledger. cbn. unfold unsigned in Hcur. auto.
Qed.

Lemma tiles_total rs a b :
Forall (capture_record_valid hw e) rs -> tiles a (capture_ranges rs) b ->
b = a + total record_samples rs + total record_missing rs + total record_breaks rs.
Proof.
intros Hrs. revert a. induction Hrs as [|r rs Hr _ IH]; intros a; cbn [total]; [cbn; lia|].
change (capture_ranges (r :: rs)) with (capture_range r ++ capture_ranges rs).
pose proof (range_count_counts r) as Hn.
destruct (capture_range_valid hw e r Hr) as [(-> & H0)|(f & n & -> & Hn' & _)]; cbn [app tiles].
- intros ->%IH. lia.
- intros (-> & _ & ->%IH). lia.
Qed.

Lemma processed_bounds rs ms L :
processed rs ms L -> cfg_first_window_ordinal c + Z.of_nat (length rs) < 2 ^ 64 ->
ledger_wf hw e L /\ lg_next_window_ordinal L = cfg_first_window_ordinal c + Z.of_nat (length ms) /\
(length ms <= length rs)%nat /\
total record_samples rs + total record_missing rs + total record_breaks rs < 2 ^ 64 /\
0 <= total record_samples rs /\ 0 <= total record_missing rs /\ 0 <= total record_breaks rs.
Proof.
intros (Hrs & Hrun) Ho. pose proof (ledger_run_sound hw e rs start_ledger Hrs start_ledger_wf Ho) as Hs.
rewrite Hrun in Hs. destruct Hs as (Hwf & _ & Ht & Hp). split; [done|].
split; [exact (partitions_length _ _ _ _ _ _ _ Hp)|]. split; [by eapply ledger_run_length|].
pose proof (total_nonneg _ _ _ Hrs) as Hpos. split; [|done].
apply tiles_total in Ht; [|done]. destruct Hwf as (_ & _ & Hn & _). rewrite Ht in Hn.
destruct Hc as (_ & _ & Hcur & _). unfold start_ledger in Hn. cbn [lg_next_cursor ledger_new] in Hn. ilia.
Qed.

Lemma processed_snoc rs ms L r sealed L' :
processed rs ms L -> capture_record_valid hw e r -> ledger_append hw r L = (Ok sealed, L') ->
processed (rs ++ [r]) (ms ++ manifest_list sealed) L'.
Proof.
intros (Hrs & Hrun) Hr Happ. split; [by apply Forall_app; auto|].
rewrite ledger_run_app, Hrun. cbn [mbind outcome_bind ledger_run]. rewrite Happ. cbn. by rewrite app_nil_r.
Qed.

Lemma checked_add_counter a b : a + b < 2 ^ 64 -> wal_checked_add a b = Ok (a + b).
Proof. intros. unfold wal_checked_add. by rewrite checked_add_ok. Qed.

Lemma list_last_snoc {A : Type} (l : list A) (x : A) : list.last (l ++ [x]) = Some x.
Proof. apply last_snoc. Qed.

(** Replaying a valid record is appending it to the ledger and to the counts. *)
Lemma replay_valid rs ms L r :
processed rs ms L -> capture_record_valid hw e r ->
cfg_first_window_ordinal c + Z.of_nat (length rs) + 1 < 2 ^ 64 ->
replay (record_data r) L (recovery_of rs ms L 0) =
match ledger_append hw r L with
| (Ok sealed, L') => Ok (L', recovery_of (rs ++ [r]) (ms ++ manifest_list sealed) L' 0)
| (Err err, _) => Err (Window err)
| (Panic, _) => Panic
end.
Proof.
intros Hp Hr Ho. destruct Hc as (Hhw & He & _ & Hord & _).
unfold replay, replay_record. rewrite (proj2 (decode_record_iff hw e Hhw He _ r)) by done.
cbn [mbind outcome_bind]. destruct (ledger_append hw r L) as [[sealed|err|] L'] eqn:Happ; [|done|done].
pose proof (processed_snoc _ _ _ _ _ _ Hp Hr Happ) as Hp'.
apply processed_bounds in Hp' as (_ & _ & Hms & Hsum & Hpos); [|rewrite length_app; cbn; lia].
pose proof (processed_bounds _ _ _ Hp ltac:(lia)) as (_ & _ & _ & _ & Hpos0).
pose proof (valid_counts _ _ _ Hr) as Hr0. rewrite !total_app in *. cbn [total] in *.
rewrite !length_app in *. cbn [length] in *. unfold unsigned in Hord.
assert (Hcount : forall report, cr_sealed_window_count report = Z.of_nat (length ms) ->
  cr_last_sealed_window report = list.last ms -> cr_record_count report = Z.of_nat (length rs) ->
  count_record sealed L' report = Ok (mkRecovery (lg_next_cursor L') (Z.of_nat (length rs) + 1)
    (cr_sample_count report) (cr_missing_sample_count report) (cr_continuity_break_count report)
    (Z.of_nat (length (ms ++ manifest_list sealed))) (list.last (ms ++ manifest_list sealed))
    (cr_truncated_tail_bytes report))).
{ intros report H1 H2 H3. unfold count_record. rewrite H1, H2, H3.
  destruct sealed as [m|]; cbn [manifest_list length app] in *.
  - rewrite checked_add_counter by lia. cbn [mbind outcome_bind]. rewrite checked_add_counter by lia.
    cbn [mbind outcome_bind]. rewrite list_last_snoc, length_app. cbn [length]. do 2 f_equal. lia.
  - cbn [mbind outcome_bind]. rewrite checked_add_counter by lia. cbn [mbind outcome_bind].
    by rewrite app_nil_r. }
assert (Hrec : recovery_of (rs ++ [r]) (ms ++ manifest_list sealed) L' 0 =
  mkRecovery (lg_next_cursor L') (Z.of_nat (length rs) + 1) (total record_samples rs + record_samples r)
    (total record_missing rs + record_missing r) (total record_breaks rs + record_breaks r)
    (Z.of_nat (length (ms ++ manifest_list sealed))) (list.last (ms ++ manifest_list sealed)) 0).
{ unfold recovery_of. rewrite !total_app, !length_app. cbn [total length]. f_equal; lia. }
rewrite Hrec. cbn [cr_sample_count cr_missing_sample_count cr_continuity_break_count recovery_of].
destruct r as [ch|g|b|]; cbn [record_samples record_missing record_breaks] in *;
  rewrite ?checked_add_counter by lia; cbn [mbind outcome_bind]; rewrite Hcount by done;
  cbn [mbind outcome_bind cr_sample_count cr_missing_sample_count cr_continuity_break_count
    cr_truncated_tail_bytes recovery_of]; rewrite ?Z.add_0_r; done.
Qed.

(** ** The loop reads records and a torn tail *)

Definition sized (n : nat) : Prop :=
Z.of_nat n < 2 ^ 63 /\ cfg_first_window_ordinal c + Z.of_nat n < 2 ^ 64.

(** Whatever follows them, the loop consumes the records. *)
Lemma recover_loop_records (fuel : nat) (pre l : bytes) rs1 ms1 L1 rs2 ms2 L2 :
sized (length (pre ++ records_bytes rs2 ++ l)) -> (length rs1 <= length pre)%nat ->
processed rs1 ms1 L1 -> Forall (capture_record_valid hw e) rs2 -> ledger_run hw rs2 L1 = Ok (ms2, L2) ->
recover_loop (length rs2 + fuel) c (pre ++ records_bytes rs2 ++ l) L1 (recovery_of rs1 ms1 L1 0) (length pre) =
recover_loop fuel c ((pre ++ records_bytes rs2) ++ l) L2 (recovery_of (rs1 ++ rs2) (ms1 ++ ms2) L2 0)
  (length (pre ++ records_bytes rs2)).
Proof.
intros Hsize Hlen Hp Hrs2 Hrun. revert pre rs1 ms1 L1 ms2 Hsize Hlen Hp Hrun.
induction Hrs2 as [|r rs2 Hr Hrs2 IH]; intros pre rs1 ms1 L1 ms2 (Hs1 & Hs2) Hlen Hp Hrun.
- cbn in Hrun. injection Hrun as <- <-. change (records_bytes []) with (@nil byte). by rewrite !app_nil_r.
- change (records_bytes (r :: rs2)) with (record_bytes r ++ records_bytes rs2) in *.
  rewrite <- (app_assoc (record_bytes r)) in *. rewrite record_bytes_framed in *.
  pose proof (record_data_length _ _ _ Hr) as Hd. rewrite !length_app, length_framed in Hs1, Hs2.
  cbn [length Nat.add]. rewrite recover_loop_record by (unfold MAX_RECORD_BODY_BYTES; lia).
  rewrite replay_valid by (done || lia). cbn [ledger_run] in Hrun.
  destruct (ledger_append hw r L1) as [[sealed|err|] L'] eqn:Happ; [|done|done].
  destruct (ledger_run hw rs2 L') as [[ms' L'']|err|] eqn:Hrun'; cbn in Hrun; [|done|done].
  injection Hrun as <- <-. cbn [mbind outcome_bind].
  rewrite (IH _ (rs1 ++ [r]) (ms1 ++ manifest_list sealed) L' ms'); [by rewrite <- !app_assoc|..|done].
  + unfold sized. rewrite !length_app, length_framed. lia.
  + rewrite !length_app, length_framed. cbn [length]. lia.
  + by eapply processed_snoc.
Qed.

Lemma recover_loop_sound (fuel : nat) (pre l : bytes) rs1 ms1 L1 :
(length l <= fuel)%nat -> sized (length (pre ++ l)) -> (length rs1 <= length pre)%nat ->
processed rs1 ms1 L1 ->
match recover_loop fuel c (pre ++ l) L1 (recovery_of rs1 ms1 L1 0) (length pre) with
| Ok (L2, report, offset) =>
    exists rs2 ms2 torn,
      l = records_bytes rs2 ++ torn /\ torn_tail torn /\ Forall (capture_record_valid hw e) rs2 /\
      ledger_run hw rs2 L1 = Ok (ms2, L2) /\ report = recovery_of (rs1 ++ rs2) (ms1 ++ ms2) L2 0 /\
      offset = (length pre + length (records_bytes rs2))%nat
| Err _ => True
| Panic => False
end.
Proof.
revert pre l rs1 ms1 L1. induction fuel as [fuel IH] using lt_wf_ind.
intros pre l rs1 ms1 L1 Hfuel (Hs1 & Hs2) Hlen Hp. rewrite length_app in Hs1, Hs2.
destruct (recover_loop_cases fuel pre l) as [Htorn|[(data & l' & fuel' & -> & -> & H4 & Hmax)|(err & Herr)]];
  [done|lia| | |by rewrite Herr].
- rewrite recover_loop_torn by (done || lia). exists [], [], l. rewrite !app_nil_r. split_and!; try done; cbn; lia.
- rewrite recover_loop_record by (done || lia). unfold replay at 1, replay_record.
  rewrite !length_app, length_framed in *. destruct Hc as (Hhw & He & _).
  destruct (decode_record data hw e) as [r|err|] eqn:Hdec.
  2: done. 2: by destruct (decode_record_no_panic hw e He data).
  apply (decode_record_iff hw e Hhw He) in Hdec as [Hr ->].
  pose proof (replay_valid rs1 ms1 L1 r Hp Hr ltac:(lia)) as Hreplay.
  unfold replay, replay_record in Hreplay. rewrite (proj2 (decode_record_iff hw e Hhw He _ r)) in Hreplay by done.
  rewrite Hreplay. clear Hreplay.
  destruct (processed_bounds _ _ _ Hp ltac:(lia)) as (Hwf & Hord & Hms & _).
  pose proof (ledger_append_ok hw e L1 Hwf ltac:(lia) r Hr) as Hstep. unfold step_ok in Hstep.
  destruct (ledger_append hw r L1) as [[sealed|err|] L'] eqn:Happ; cbn [mbind outcome_bind]; [|done|].
  2: { destruct (continues L1 r); naive_solver. }
  specialize (IH fuel' ltac:(lia) (pre ++ framed (record_data r)) l' (rs1 ++ [r])
    (ms1 ++ manifest_list sealed) L' ltac:(lia)).
  assert (Hsz : sized (length ((pre ++ framed (record_data r)) ++ l'))).
  { unfold sized. rewrite !length_app, length_framed. lia. }
  specialize (IH Hsz). rewrite !length_app, length_framed in IH. cbn [length] in IH.
  specialize (IH ltac:(lia) ltac:(by eapply processed_snoc)).
  destruct (recover_loop _ _ _ _ _ _) as [[[L2 report] offset]|err|]; [|done|done].
  destruct IH as (rs2 & ms2 & torn & -> & Ht & Hrs2 & Hrun & -> & ->).
  exists (r :: rs2), (manifest_list sealed ++ ms2), torn.
  change (records_bytes (r :: rs2)) with (record_bytes r ++ records_bytes rs2).
  rewrite record_bytes_framed, <- !app_assoc, length_app, length_framed. cbn [ledger_run app].
  rewrite Happ, Hrun. split_and!; try done; [by constructor|lia].
Qed.
End Loop.

(** ** The whole file *)

(** The bytes [data] of a log: its header, the records [rs] and a torn tail. *)
Definition log_content (c : CaptureWalConfig) (rs : list CaptureRecord) (torn data : bytes) : Prop :=
  data = header_bytes c ++ records_bytes rs ++ torn /\ torn_tail torn.

(** The end of the last complete record. *)
Definition log_end (rs : list CaptureRecord) : nat := FILE_HEADER_BYTES + length (records_bytes rs).

(** The file after a recovery that found [rs]: a torn tail is cut off, durably. *)
Definition recovered_file (rs : list CaptureRecord) (torn : bytes) (f : File) : File :=
  match torn with
  | [] => f
  | _ => mkFile (take (log_end rs) (f_data f)) (f_pos f) (log_end rs) (tail (f_faults f))
  end.

Lemma truncate_tail_eq (n : nat) (report : CaptureWalRecovery) (f : File) :
  (n <= length (f_data f))%nat -> next_fault f = None ->
  truncate_tail n report f =
  (Ok (mkRecovery (cr_durable_cursor report) (cr_record_count report) (cr_sample_count report)
      (cr_missing_sample_count report) (cr_continuity_break_count report) (cr_sealed_window_count report)
      (cr_last_sealed_window report) (Z.of_nat (length (f_data f)) - Z.of_nat n)),
   mkFile (take n (f_data f)) (f_pos f) n (tail (f_faults f))).
Proof.
  intros Hn Hf. unfold truncate_tail, set_len, sync. autorewrite with st.
  unfold next_fault in *. cbv [mbind st_bind]. cbn [f_faults f_data f_pos f_synced].
  rewrite Hf. autorewrite with st. rewrite length_take, Nat.min_l by lia. done.
Qed.

Section Recover.
Context (c : CaptureWalConfig) (Hc : typed c).

Lemma length_log (rs : list CaptureRecord) (torn : bytes) :
length (header_bytes c ++ records_bytes rs ++ torn) = (log_end rs + length torn)%nat.
Proof. rewrite !length_app, length_header_bytes by done. unfold log_end. lia. Qed.

Lemma processed_nil : processed c [] [] (start_ledger c).
Proof. split; [constructor|done]. Qed.

Lemma recovery_start_eq : recovery_start c = recovery_of [] [] (start_ledger c) 0.
Proof. reflexivity. Qed.

(** Behind an accepted header, recovery is its loop and the truncation. *)
Lemma recover_unfold (f : File) :
take FILE_HEADER_BYTES (f_data f) = header_bytes c ->
recover c f =
match recover_loop (length (f_data f)) c (f_data f) (start_ledger c)
        (recovery_of [] [] (start_ledger c) 0) FILE_HEADER_BYTES with
| Ok (L, report, n) =>
    if (n <? length (f_data f))%nat then (report ← truncate_tail n report; mret (L, report, n)) f
    else (Ok (L, report, n), f)
| Err err => (Err err, f)
| Panic => (Panic, f)
end.
Proof.
intros Hh. assert (Hlen : (FILE_HEADER_BYTES <= length (f_data f))%nat).
{ apply (f_equal length) in Hh. rewrite length_header_bytes, length_take in Hh by done. lia. }
unfold recover. autorewrite with st. rewrite (proj2 (Nat.ltb_ge _ _)) by lia.
rewrite slice_Ok by lia. rewrite drop_0, Nat.sub_0_r, Hh. autorewrite with st.
rewrite (proj2 (validate_file_header_iff c Hc _ (length_header_bytes c Hc)) eq_refl). autorewrite with st.
fold (start_ledger c). rewrite recovery_start_eq.
destruct (recover_loop _ _ _ _ _ _) as [[[L report] n]|err|]; autorewrite with st; [|done|done].
by destruct (n <? length (f_data f))%nat; autorewrite with st.
Qed.

(** A file that holds the records [rs] is recovered to them; a torn tail is cut
  off unless the truncation's sync fails. *)
Lemma recover_complete (f : File) rs ms L torn :
sized c (length (f_data f)) -> log_content c rs torn (f_data f) -> processed c rs ms L ->
recover c f =
match torn, next_fault f with
| _ :: _, Some _ => (Err Io, mkFile (take (log_end rs) (f_data f)) (f_pos f)
                             (Nat.min (log_end rs) (f_synced f)) (tail (f_faults f)))
| _, _ => (Ok (L, recovery_of rs ms L (Z.of_nat (length torn)), log_end rs), recovered_file rs torn f)
end.
Proof.
intros Hsize (Hdata & Htorn) Hp. pose proof (length_log rs torn) as Hlen. rewrite <- Hdata in Hlen.
unfold log_end in Hlen. rewrite recover_unfold.
2: { rewrite Hdata. apply take_app_length'. by rewrite length_header_bytes. }
assert (Hloop : recover_loop (length (f_data f)) c (f_data f) (start_ledger c)
    (recovery_of [] [] (start_ledger c) 0) FILE_HEADER_BYTES
  = Ok (L, recovery_of rs ms L 0, log_end rs)).
{ rewrite Hdata at 2. rewrite <- (length_header_bytes c Hc) at 1.
  pose proof (records_bytes_length rs) as Hn.
  replace (length (f_data f)) with (length rs + (length (f_data f) - length rs))%nat by lia.
  rewrite (recover_loop_records c Hc _ (header_bytes c) torn [] [] (start_ledger c) rs ms L);
    try apply Hp; try apply processed_nil; [|by rewrite <- Hdata|cbn; lia].
  rewrite recover_loop_torn by (rewrite ?length_app, ?length_header_bytes by done; done || destruct Hsize; lia).
  rewrite length_app, length_header_bytes by done. done. }
rewrite Hloop. unfold recovered_file, log_end in *. destruct torn as [|b torn]; cbn [length] in *.
{ rewrite (proj2 (Nat.ltb_ge _ _)) by lia. done. }
rewrite (proj2 (Nat.ltb_lt _ _)) by lia. destruct (next_fault f) as [k|] eqn:Hf.
- unfold truncate_tail, set_len, sync, next_fault in *. autorewrite with st. cbv [mbind st_bind].
  cbn [f_faults f_data f_pos f_synced]. by rewrite Hf.
- cbv [mbind st_bind]. rewrite truncate_tail_eq by (done || lia). cbv [mret st_ret]. do 3 f_equal.
  unfold recovery_of. cbn [cr_durable_cursor cr_record_count cr_sample_count cr_missing_sample_count
    cr_continuity_break_count cr_sealed_window_count cr_last_sealed_window]. 
  match goal with |- context [?a - ?b] => replace (a - b) with (Z.of_nat (S (length torn))) by lia end. done.
Qed.

(** Recovery never panics, and what it returns is what the file holds. *)
Lemma recover_sound (f : File) :
sized c (length (f_data f)) ->
match recover c f with
| (Ok (L, report, n), f') =>
    exists rs ms torn, log_content c rs torn (f_data f) /\ processed c rs ms L /\
      (torn = [] \/ next_fault f = None) /\
      report = recovery_of rs ms L (Z.of_nat (length torn)) /\ n = log_end rs /\
      f' = recovered_file rs torn f
| (Err _, _) => True
| (Panic, _) => False
end.
Proof.
intros Hsize. destruct (decide (FILE_HEADER_BYTES <= length (f_data f))%nat) as [Hlen|Hlen].
2: { unfold recover. autorewrite with st. by rewrite (proj2 (Nat.ltb_lt _ _)) by lia. }
destruct (decide (take FILE_HEADER_BYTES (f_data f) = header_bytes c)) as [Hh|Hh].
- assert (Hsplit : f_data f = header_bytes c ++ drop FILE_HEADER_BYTES (f_data f))
    by (rewrite <- Hh; symmetry; apply take_drop).
  pose proof (recover_loop_sound c Hc (length (f_data f)) (header_bytes c) (drop FILE_HEADER_BYTES (f_data f))
    [] [] (start_ledger c)) as Hloop.
  rewrite <- Hsplit, length_header_bytes in Hloop by done.
  specialize (Hloop ltac:(rewrite length_drop; lia) Hsize ltac:(cbn; lia) processed_nil).
  rewrite (recover_unfold f Hh).
  destruct (recover_loop _ _ _ _ _ _) as [[[L report] n]|err|] eqn:Heq; [|done|done].
  destruct Hloop as (rs & ms & torn & Hl & Htorn & Hrs & Hrec & -> & ->).
  assert (Hcontent : log_content c rs torn (f_data f)) by (split; [by rewrite Hsplit, Hl|done]).
  assert (Hp : processed c rs ms L) by (by split).
  pose proof (recover_complete f rs ms L torn Hsize Hcontent Hp) as Hr.
  rewrite (recover_unfold f Hh), Heq in Hr. rewrite Hr.
  destruct torn as [|b torn]; [exists rs, ms, []; by split_and!; auto|].
  destruct (next_fault f) eqn:Hf; [done|]. exists rs, ms, (b :: torn). by split_and!; auto.
- unfold recover. autorewrite with st. rewrite (proj2 (Nat.ltb_ge _ _)) by lia.
  rewrite slice_Ok by lia. rewrite drop_0, Nat.sub_0_r.
  set (h := take FILE_HEADER_BYTES (f_data f)) in *.
  assert (Hlh : length h = FILE_HEADER_BYTES) by (unfold h; rewrite length_take; lia).
  autorewrite with st. destruct (validate_file_header h c) as [[]|err|] eqn:Hv; autorewrite with st; [|done|].
  + by apply (validate_file_header_iff c Hc) in Hv.
  + by destruct (validate_file_header_no_panic c h Hlh).
Qed.

(** A record whose data or checksum is damaged inside a window of four bytes
  stops recovery at its offset, whatever follows it. *)
Lemma recover_damaged (f : File) rs ms L r (pre w1 w2 post rest : bytes) :
sized c (length (f_data f)) -> processed c rs ms L ->
capture_record_valid (cfg_hardware_id c) (cfg_boot_epoch c) r ->
record_data r ++ to_le_bytes 4 (crc32c (record_data r)) = pre ++ w1 ++ post ->
length w1 = length w2 -> (length w1 <= 4)%nat -> w1 <> w2 ->
f_data f = header_bytes c ++ records_bytes rs ++
  (take 4 (record_bytes r) ++ pre ++ w2 ++ post) ++ rest ->
recover c f = (Err (RecordChecksumMismatch (log_end rs)), f).
Proof.
intros Hsize Hp Hr Hbody Hlen H4 Hne Hdata. pose proof (record_data_length _ _ _ Hr) as Hd.
rewrite recover_unfold by (rewrite Hdata; apply take_app_length'; by rewrite length_header_bytes).
set (body := pre ++ w2 ++ post) in *.
assert (Hlb : length body = (length (record_data r) + 4)%nat).
{ apply (f_equal length) in Hbody. unfold body. rewrite !length_app, length_to_le_bytes in *. lia. }
assert (Hl : take 4 (record_bytes r) ++ body
  = framed_as (take (length (record_data r)) body) (drop (length (record_data r)) body)).
{ rewrite record_bytes_framed. unfold framed, framed_as. rewrite take_app_length' by done.
  by rewrite take_drop, length_take, Nat.min_l by lia. }
rewrite Hl in Hdata. pose proof (f_equal length Hdata) as Hlen'.
rewrite !length_app, length_framed_as, length_header_bytes in Hlen' by (done || rewrite length_drop; lia).
pose proof (records_bytes_length rs) as Hn. rewrite length_take in Hlen'.
replace (length (f_data f)) with (length rs + S (length (f_data f) - length rs - 1))%nat by lia.
rewrite Hdata at 2. rewrite <- (length_header_bytes c Hc) at 1.
rewrite (recover_loop_records c Hc _ (header_bytes c) _ [] [] (start_ledger c) rs ms L);
  try apply Hp; try apply processed_nil; [|by rewrite <- Hdata|cbn; lia].
rewrite recover_loop_turn.
- destruct (Z.eqb_spec (crc32c (take (length (record_data r)) body))
    (from_le_bytes (drop (length (record_data r)) body))) as [Heq|].
  + exfalso. apply (crc_trailer_burst (record_data r) (take (length (record_data r)) body) pre w1 w2 post);
      try done. rewrite Heq, to_from_le_bytes by (rewrite length_drop; lia). apply take_drop.
  + rewrite length_app, length_header_bytes by done. done.
- rewrite length_take. lia.
- rewrite length_take. unfold MAX_RECORD_BODY_BYTES. lia.
- rewrite length_drop. lia.
- rewrite length_app, length_header_bytes by done. destruct Hsize. lia.
Qed.
End Recover.

(** ** Properties *)

(** C10. Recovery is exact: it never panics, and it succeeds on a file if and
    only if the file is the header of the configuration, the encodings of
    records that a fresh ledger accepts, and a torn tail, whose truncation the
    disk does not refuse. The ledger it returns is the one those records build,
    the report counts them, the durable cursor is the ledger's, and the file
    ends, durably, after the last complete record. *)
Theorem capture_recovery_exact (c : CaptureWalConfig) (f : File) :
  typed c -> sized c (length (f_data f)) ->
  no_panic (fst (recover c f)) /\
  forall L report n f',
    recover c f = (Ok (L, report, n), f') <->
    exists rs ms torn,
      log_content c rs torn (f_data f) /\ processed c rs ms L /\ (torn = [] \/ next_fault f = None) /\
      report = recovery_of rs ms L (Z.of_nat (length torn)) /\ n = log_end rs /\
      f' = recovered_file rs torn f.
Proof.
  intros Hc Hsize. pose proof (recover_sound c Hc f Hsize) as Hs. split.
  - by destruct (recover c f) as [[[[L report] n]|err|] f'].
  - intros L report n f'. split.
    + intros Hr. by rewrite Hr in Hs.
    + intros (rs & ms & torn & Hcontent & Hp & Hf & -> & -> & ->).
      rewrite (recover_complete c Hc f rs ms L torn) by done. destruct torn; [done|]. destruct Hf as [|Hf]; [done|]. by rewrite Hf.
Qed.

(** C15. Damage is refused: if the data or the checksum of one complete record
    is changed inside a window of at most four consecutive bytes, recovery stops
    with that record's offset, changes nothing on disk, and does not truncate
    the acknowledged records that follow. *)
Theorem damaged_log_refused (c : CaptureWalConfig) (f : File) rs ms L r (pre w1 w2 post rest : bytes) :
  typed c -> sized c (length (f_data f)) -> processed c rs ms L ->
  capture_record_valid (cfg_hardware_id c) (cfg_boot_epoch c) r ->
  record_data r ++ to_le_bytes 4 (crc32c (record_data r)) = pre ++ w1 ++ post ->
  length w1 = length w2 -> (length w1 <= 4)%nat -> w1 <> w2 ->
  f_data f = header_bytes c ++ records_bytes rs ++
    (take 4 (record_bytes r) ++ pre ++ w2 ++ post) ++ rest ->
  recover c f = (Err (RecordChecksumMismatch (log_end rs)), f).
Proof. intros Hc. by apply recover_damaged. Qed.

Definition sample_config : CaptureWalConfig := mkConfig window_hw window_epoch 17 5 (mkPolicy 4000).
(** The four records of [window_records] and seven bytes of a fifth one. *)
Definition torn_log : File :=
  mkFile (header_bytes sample_config ++ records_bytes window_records ++ take 7 (record_bytes CWindowSeal))
    0 0 [].

Lemma sample_config_typed : typed sample_config.
Proof. typed_by_compute. Qed.

Lemma capture_recovery_exact_witness :
  exists ms L,
    recover sample_config torn_log =
      (Ok (L, recovery_of window_records ms L 7, log_end window_records),
       mkFile (header_bytes sample_config ++ records_bytes window_records) 0 (log_end window_records) []).
Proof.
  destruct (capture_recovery_exact sample_config torn_log sample_config_typed) as [_ H].
  { split; vm_compute; reflexivity. }
  eexists _, _. apply H. exists window_records. eexists _, (take 7 (record_bytes CWindowSeal)). split.
  { split; [reflexivity|]. right. vm_compute. repeat split; congruence. }
  split; [split; [exact window_records_valid|vm_compute; reflexivity]|].
  split; [by right|]. split; [reflexivity|]. split; [reflexivity|]. vm_compute. reflexivity.
Defined.

(** The reason of the gap, the last byte of its data, is damaged. *)
Definition damaged_log : File :=
  mkFile (header_bytes sample_config ++ records_bytes [] ++
    (take 4 (record_bytes (CGap (mkGap window_hw window_epoch 17 3 JournalOverflow))) ++
     take 20 (record_data (CGap (mkGap window_hw window_epoch 17 3 JournalOverflow))) ++ literal [0] ++
     to_le_bytes 4 (crc32c (record_data (CGap (mkGap window_hw window_epoch 17 3 JournalOverflow))))) ++
    record_bytes CWindowSeal) 0 0 [].

Lemma damaged_log_refused_witness :
  recover sample_config damaged_log = (Err (RecordChecksumMismatch 64), damaged_log).
Proof.
  apply (damaged_log_refused sample_config damaged_log [] [] (start_ledger sample_config)
    (CGap (mkGap window_hw window_epoch 17 3 JournalOverflow))
    (take 20 (record_data (CGap (mkGap window_hw window_epoch 17 3 JournalOverflow)))) (literal [3]) (literal [0])
    (to_le_bytes 4 (crc32c (record_data (CGap (mkGap window_hw window_epoch 17 3 JournalOverflow)))))
    (record_bytes CWindowSeal)).
  - exact sample_config_typed.
  - split; vm_compute; reflexivity.
  - apply processed_nil.
  - pose proof window_records_valid as H. by apply List.Forall_inv in H.
  - vm_compute. reflexivity.
  - reflexivity.
  - vm_compute. lia.
  - vm_compute. congruence.
  - reflexivity.
Defined.
