(* ===== verification/CaptureManifest.v ===== *)
(** * Window manifests (crates/sensor-host/src/capture_segments.rs)

    The file published beside each sealed segment: a fixed record of the window
    the log seals, with a checksum. Encoding and decoding are inverse on every
    manifest that satisfies its contract, and every manifest the ledger seals
    does. *)

From S2P Require Export CaptureRecovery.

Inductive CaptureSegmentError :=
| SegmentIo
| SegmentWal (error : CaptureWalError)
| SegmentWindow (error : CaptureWindowError)
| InvalidSegmentName
| DuplicateSegmentOrdinal
| OriginOrdinalMismatch (file header : Z)
| NonConsecutiveSegment (expected actual : Z)
| UnsealedSegmentBeforeSuccessor (ordinal : Z)
| ManifestForUnsealedSegment (ordinal : Z)
| MultipleWindowsInSegment (ordinal count : Z)
| MissingRecoveredManifest
| MissingCurrentSegment
| ManifestOrdinalMismatch (expected actual : Z)
| ManifestFirstCursorMismatch
| DataAfterSealedWindow (ordinal : Z)
| OrdinalOverflow
| ManifestConflict (ordinal : Z)
| InvalidManifestMagic
| UnsupportedManifestVersion (version : Z)
| InvalidManifestLength
| ManifestChecksumMismatch
| NonZeroManifestReservedField
| UnknownManifestFlags (flags : Z)
| InvalidManifestOptionalCursor
| InvalidManifestContract
| UnknownSealReason (reason : Z)
| WalManifestIdentityMismatch
| RecordAfterSeal
| MissingSeal
| ManifestDoesNotMatchWal
| SegmentCounterOverflow.

Abbreviation segment := (outcome CaptureSegmentError).

(** "SSCAPMAN". *)
Definition MANIFEST_MAGIC : bytes := literal [0x53; 0x53; 0x43; 0x41; 0x50; 0x4D; 0x41; 0x4E].
Definition MANIFEST_VERSION : Z := 1.
Definition MANIFEST_BYTES : nat := 104.
Definition MANIFEST_CRC_OFFSET : nat := 100.
Definition FIRST_SAMPLE_PRESENT : Z := 1.
Definition LAST_SAMPLE_PRESENT : Z := 2.

Definition encode_seal_reason (reason : WindowSealReason) : Z :=
  match reason with
  | TargetDurationReached => 0
  | TimingSegmentChanged => 1
  | ExplicitFinish => 2
  end.

Definition decode_seal_reason (value : Z) : segment WindowSealReason :=
  if value =? 0 then Ok TargetDurationReached
  else if value =? 1 then Ok TimingSegmentChanged
  else if value =? 2 then Ok ExplicitFinish
  else Err (UnknownSealReason value).

(** An optional cursor is stored only when present, and sets its flag. *)
Definition put_cursor (a : nat) (flag : Z) (cursor : option SequenceCursor) (output : bytes) (flags : Z)
    : segment (bytes * Z) :=
  match cursor with
  | Some cursor => output ← put a (a + 8) (to_le_bytes 8 cursor) output; Ok (output, Z.lor flags flag)
  | None => Ok (output, flags)
  end.

Definition encode_manifest (manifest : CaptureWindowManifest) : segment bytes :=
  output ← put 0 8 MANIFEST_MAGIC (zeros MANIFEST_BYTES);
  output ← put 8 10 (to_le_bytes 2 MANIFEST_VERSION) output;
  output ← put 10 12 (to_le_bytes 2 (Z.of_nat MANIFEST_BYTES)) output;
  output ← put 12 20 (cm_hardware_id manifest) output;
  output ← put 20 28 (to_le_bytes 8 (cm_boot_epoch manifest)) output;
  output ← put 28 36 (to_le_bytes 8 (cm_window_ordinal manifest)) output;
  output ← put 36 44 (to_le_bytes 8 (cm_first_cursor manifest)) output;
  output ← put 44 52 (to_le_bytes 8 (cm_end_exclusive manifest)) output;
  '(output, flags) ← put_cursor 52 FIRST_SAMPLE_PRESENT (cm_first_sample_cursor manifest) output 0;
  '(output, flags) ← put_cursor 60 LAST_SAMPLE_PRESENT (cm_last_sample_cursor manifest) output flags;
  output ← put 68 76 (to_le_bytes 8 (cm_sample_count manifest)) output;
  output ← put 76 84 (to_le_bytes 8 (cm_missing_sample_count manifest)) output;
  output ← put 84 92 (to_le_bytes 8 (cm_continuity_break_count manifest)) output;
  output ← put1 92 flags output;
  output ← put1 93 (encode_seal_reason (cm_seal_reason manifest)) output;
  covered ← slice 0 MANIFEST_CRC_OFFSET output;
  put MANIFEST_CRC_OFFSET MANIFEST_BYTES (to_le_bytes 4 (crc32c covered)) output.

Definition validate_manifest_contract (manifest : CaptureWindowManifest) : segment unit :=
  if (cm_boot_epoch manifest =? 0) || (cm_end_exclusive manifest <=? cm_first_cursor manifest)
  then Err InvalidManifestContract
  else
    covered ← ok_or
      (value ← checked_add 64 (cm_sample_count manifest) (cm_missing_sample_count manifest);
       checked_add 64 value (cm_continuity_break_count manifest)) InvalidManifestContract;
    if negb (bool_decide (checked_advance (cm_first_cursor manifest) covered = Some (cm_end_exclusive manifest)))
    then Err InvalidManifestContract
    else
      match cm_first_sample_cursor manifest, cm_last_sample_cursor manifest with
      | None, None => if cm_sample_count manifest =? 0 then Ok tt else Err InvalidManifestContract
      | Some first, Some last =>
          if cm_sample_count manifest =? 0 then Err InvalidManifestContract
          else if (first <? cm_first_cursor manifest) || (last <? first)
                  || (cm_end_exclusive manifest <=? last)
          then Err InvalidManifestContract
          else Ok tt
      | _, _ => Err InvalidManifestContract
      end.

(** The flag of a cursor is clear, and its field is not. *)
Definition stray_cursor (flags flag field : Z) : bool := (Z.land flags flag =? 0) && negb (field =? 0).

Definition decode_manifest (input : bytes) : segment CaptureWindowManifest :=
  magic ← slice 0 8 input;
  if negb (bool_decide (magic = MANIFEST_MAGIC)) then Err InvalidManifestMagic
  else
    version ← read_u16 input 8;
    if negb (version =? MANIFEST_VERSION) then Err (UnsupportedManifestVersion version)
    else
      len ← read_u16 input 10;
      if negb (len =? Z.of_nat MANIFEST_BYTES) then Err InvalidManifestLength
      else
        covered ← slice 0 MANIFEST_CRC_OFFSET input;
        crc ← read_u32 input MANIFEST_CRC_OFFSET;
        if negb (crc32c covered =? crc) then Err ManifestChecksumMismatch
        else
          reserved ← slice 94 MANIFEST_CRC_OFFSET input;
          if existsb (fun b => negb (b2z b =? 0)) reserved then Err NonZeroManifestReservedField
          else
            flags ← index 92 input;
            if negb (Z.land flags (bit_not 8 (Z.lor FIRST_SAMPLE_PRESENT LAST_SAMPLE_PRESENT)) =? 0)
            then Err (UnknownManifestFlags flags)
            else
              first ← read_u64 input 52;
              if stray_cursor flags FIRST_SAMPLE_PRESENT first then Err InvalidManifestOptionalCursor
              else
                last ← read_u64 input 60;
                if stray_cursor flags LAST_SAMPLE_PRESENT last then Err InvalidManifestOptionalCursor
                else
                  hardware_id ← slice 12 20 input;
                  boot_epoch ← read_u64 input 20;
                  window_ordinal ← read_u64 input 28;
                  first_cursor ← read_u64 input 36;
                  end_exclusive ← read_u64 input 44;
                  sample_count ← read_u64 input 68;
                  missing ← read_u64 input 76;
                  breaks ← read_u64 input 84;
                  reason ← index 93 input;
                  seal_reason ← decode_seal_reason reason;
                  let present flag cursor := if negb (Z.land flags flag =? 0) then Some cursor else None in
                  let manifest :=
                    mkManifest hardware_id boot_epoch window_ordinal first_cursor end_exclusive
                      (present FIRST_SAMPLE_PRESENT first) (present LAST_SAMPLE_PRESENT last)
                      sample_count missing breaks seal_reason in
                  _ ← validate_manifest_contract manifest;
                  Ok manifest.

(** [read_capture_manifest] on the content of its file: the length is exact. *)
Definition read_capture_manifest (content : bytes) : segment CaptureWindowManifest :=
  if (length content <? MANIFEST_BYTES)%nat then Err SegmentIo
  else if (MANIFEST_BYTES <? length content)%nat then Err InvalidManifestLength
  else decode_manifest content.

(** ** The bytes of a manifest *)

#[export] Instance CaptureWindowManifest_typed : Typed CaptureWindowManifest := fun m =>
  hardware_id_typed (cm_hardware_id m) /\ u64 (cm_boot_epoch m) /\ u64 (cm_window_ordinal m) /\
  u64 (cm_first_cursor m) /\ u64 (cm_end_exclusive m) /\
  u64 (default 0 (cm_first_sample_cursor m)) /\ u64 (default 0 (cm_last_sample_cursor m)) /\
  u64 (cm_sample_count m) /\ u64 (cm_missing_sample_count m) /\ u64 (cm_continuity_break_count m).

Definition cursor_flag (flag : Z) (cursor : option SequenceCursor) : Z :=
  if is_some cursor then flag else 0.

Definition manifest_fields (m : CaptureWindowManifest) : bytes :=
  MANIFEST_MAGIC ++ to_le_bytes 2 MANIFEST_VERSION ++ to_le_bytes 2 (Z.of_nat MANIFEST_BYTES) ++
  cm_hardware_id m ++ to_le_bytes 8 (cm_boot_epoch m) ++ to_le_bytes 8 (cm_window_ordinal m) ++
  to_le_bytes 8 (cm_first_cursor m) ++ to_le_bytes 8 (cm_end_exclusive m) ++
  to_le_bytes 8 (default 0 (cm_first_sample_cursor m)) ++ to_le_bytes 8 (default 0 (cm_last_sample_cursor m)) ++
  to_le_bytes 8 (cm_sample_count m) ++ to_le_bytes 8 (cm_missing_sample_count m) ++
  to_le_bytes 8 (cm_continuity_break_count m) ++
  [z2b (cursor_flag FIRST_SAMPLE_PRESENT (cm_first_sample_cursor m) +
        cursor_flag LAST_SAMPLE_PRESENT (cm_last_sample_cursor m));
   z2b (encode_seal_reason (cm_seal_reason m))] ++ zeros 6.

Definition manifest_bytes (m : CaptureWindowManifest) : bytes :=
  manifest_fields m ++ to_le_bytes 4 (crc32c (manifest_fields m)).

Lemma length_manifest_fields (m : CaptureWindowManifest) : typed m -> length (manifest_fields m) = 100%nat.
Proof.
  intros (Hhw & _). unfold manifest_fields. rewrite !length_app. unfold hardware_id_typed in Hhw. by rewrite Hhw.
Qed.

Lemma length_manifest_bytes (m : CaptureWindowManifest) : typed m -> length (manifest_bytes m) = MANIFEST_BYTES.
Proof. intros H. unfold manifest_bytes. by rewrite length_app, length_manifest_fields. Qed.

Lemma encode_manifest_eq (m : CaptureWindowManifest) :
  typed m -> encode_manifest m = Ok (manifest_bytes m).
Proof.
  intros (Hhw & _). unfold hardware_id_typed in Hhw. unfold encode_manifest, manifest_bytes, manifest_fields.
  generalize (cm_hardware_id m), Hhw. clear. intros hw Hhw. explicit_bytes hw Hhw.
  destruct (cm_first_sample_cursor m), (cm_last_sample_cursor m); reflexivity.
Qed.

(** The contract as a condition on the manifest. *)
Definition manifest_contract (m : CaptureWindowManifest) : Prop :=
  cm_boot_epoch m <> 0 /\ cm_first_cursor m < cm_end_exclusive m /\
  cm_first_cursor m + (cm_sample_count m + cm_missing_sample_count m + cm_continuity_break_count m)
    = cm_end_exclusive m /\
  match cm_first_sample_cursor m, cm_last_sample_cursor m with
  | None, None => cm_sample_count m = 0
  | Some first, Some last =>
      cm_sample_count m <> 0 /\ cm_first_cursor m <= first <= last /\ last < cm_end_exclusive m
  | _, _ => False
  end.

Lemma validate_manifest_contract_iff (m : CaptureWindowManifest) :
  typed m -> validate_manifest_contract m = Ok tt <-> manifest_contract m.
Proof.
  intros (_ & _ & _ & Hf & He & _ & _ & Hs & Hm & Hb). unfold validate_manifest_contract, manifest_contract.
  destruct (Z.eqb_spec (cm_boot_epoch m) 0); cbn [orb]; [naive_solver|].
  destruct (Z.leb_spec (cm_end_exclusive m) (cm_first_cursor m)); [split; [done|lia]|].
  destruct (checked_add 64 (cm_sample_count m) (cm_missing_sample_count m)) as [v|] eqn:H1; cbn [mbind option_bind ok_or outcome_bind].
  2:{ apply checked_add_None in H1. split; [done|]. unfold unsigned in *. lia. }
  apply checked_add_Some in H1 as (-> & _).
  destruct (checked_add 64 _ (cm_continuity_break_count m)) as [v|] eqn:H2; cbn [ok_or mbind outcome_bind].
  2:{ apply checked_add_None in H2. split; [done|]. unfold unsigned in *. lia. }
  apply checked_add_Some in H2 as (-> & _). unfold checked_advance.
  case_bool_decide as Hadv; cbn [negb].
  2:{ split; [done|]. intros (_ & _ & Hsum & _). exfalso. apply Hadv. apply checked_add_Some.
      unfold unsigned in *. lia. }
  apply checked_add_Some in Hadv as (Hsum & _).
  destruct (cm_first_sample_cursor m) as [first|], (cm_last_sample_cursor m) as [last|];
    destruct (Z.eqb_spec (cm_sample_count m) 0); try naive_solver.
  destruct (Z.ltb_spec first (cm_first_cursor m)), (Z.ltb_spec last first),
    (Z.leb_spec (cm_end_exclusive m) last); cbn [orb]; (split; [try done; intros _; split_and!; auto; lia|]);
    try done; lia.
Qed.

Lemma decode_seal_reason_iff (v : Z) (r : WindowSealReason) :
  decode_seal_reason v = Ok r <-> v = encode_seal_reason r.
Proof.
  unfold decode_seal_reason. destruct (Z.eqb_spec v 0), (Z.eqb_spec v 1), (Z.eqb_spec v 2), r; cbn;
    split; intros; simplify_eq; try done; lia.
Qed.

(** What a decoder reads back of a cursor's field. *)
Lemma decode_manifest_bytes (m : CaptureWindowManifest) :
  typed m -> validate_manifest_contract m = Ok tt -> decode_manifest (manifest_bytes m) = Ok m.
Proof.
  intros Ht Hval. pose proof (length_manifest_fields m Ht) as Hlen.
  pose proof (crc32c_range (manifest_fields m)) as Hcrc.
  destruct Ht as (Hhw & He & Ho & Hf & Hend & Hs1 & Hs2 & Hs & Hm & Hb). unfold hardware_id_typed in Hhw.
  unfold decode_manifest, manifest_bytes.
  assert (Hcov : slice (E:=CaptureSegmentError) 0 MANIFEST_CRC_OFFSET
    (manifest_fields m ++ to_le_bytes 4 (crc32c (manifest_fields m))) = Ok (manifest_fields m))
    by (by apply slice_front).
  assert (Hstored : read_u32 (E:=CaptureSegmentError)
    (manifest_fields m ++ to_le_bytes 4 (crc32c (manifest_fields m))) MANIFEST_CRC_OFFSET
    = Ok (crc32c (manifest_fields m))).
  { unfold read_u32. rewrite <- (app_nil_r (to_le_bytes 4 _)), (slice_at (manifest_fields m)) by done.
    cbn. by rewrite (from_to_le_bytes 4 32). }
  rewrite Hcov, Hstored. clear Hcov Hstored. cbn [mbind outcome_bind]. rewrite Z.eqb_refl.
  generalize (crc32c (manifest_fields m)). intros crc. unfold manifest_fields.
  destruct m as [hw e o f en fs ls sc mc bc reason]. cbn [cm_hardware_id cm_boot_epoch cm_window_ordinal
    cm_first_cursor cm_end_exclusive cm_first_sample_cursor cm_last_sample_cursor cm_sample_count
    cm_missing_sample_count cm_continuity_break_count cm_seal_reason] in *. explicit_bytes hw Hhw.
  assert (Hres : forall fs ls, u64 (default 0 fs) -> u64 (default 0 ls) ->
    validate_manifest_contract (mkManifest [b; b0; b1; b2; b3; b4; b5; b6] e o f en fs ls sc mc bc reason) = Ok tt ->
    (_ ← validate_manifest_contract (mkManifest [b; b0; b1; b2; b3; b4; b5; b6]
       (from_le_bytes (to_le_bytes 8 e)) (from_le_bytes (to_le_bytes 8 o)) (from_le_bytes (to_le_bytes 8 f))
       (from_le_bytes (to_le_bytes 8 en)) ((fun x => from_le_bytes (to_le_bytes 8 x)) <$> fs)
       ((fun x => from_le_bytes (to_le_bytes 8 x)) <$> ls) (from_le_bytes (to_le_bytes 8 sc))
       (from_le_bytes (to_le_bytes 8 mc)) (from_le_bytes (to_le_bytes 8 bc)) reason);
     Ok (mkManifest [b; b0; b1; b2; b3; b4; b5; b6]
       (from_le_bytes (to_le_bytes 8 e)) (from_le_bytes (to_le_bytes 8 o)) (from_le_bytes (to_le_bytes 8 f))
       (from_le_bytes (to_le_bytes 8 en)) ((fun x => from_le_bytes (to_le_bytes 8 x)) <$> fs)
       ((fun x => from_le_bytes (to_le_bytes 8 x)) <$> ls) (from_le_bytes (to_le_bytes 8 sc))
       (from_le_bytes (to_le_bytes 8 mc)) (from_le_bytes (to_le_bytes 8 bc)) reason))
    = Ok (mkManifest [b; b0; b1; b2; b3; b4; b5; b6] e o f en fs ls sc mc bc reason)).
  { intros fs' ls' Hfs Hls Hv. rewrite !(from_to_le_bytes 8 64) by done.
    assert (Hfmap : forall x, u64 (default 0 x) -> (fun x => from_le_bytes (to_le_bytes 8 x)) <$> x = x).
    { intros [x|] Hx; [|done]. cbn in *. by rewrite (from_to_le_bytes 8 64). }
    rewrite !Hfmap by done. by rewrite Hv. }
  specialize (Hres fs ls Hs1 Hs2 Hval). revert Hres. clear.
  destruct fs as [fs|], ls as [ls|], reason; intros <-; reflexivity.
Qed.

Lemma manifest_flags_cases (x : Z) :
  u8 x -> Z.land x (bit_not 8 (Z.lor FIRST_SAMPLE_PRESENT LAST_SAMPLE_PRESENT)) = 0 ->
  x = 0 \/ x = 1 \/ x = 2 \/ x = 3.
Proof.
  intros Hx Hl. change (bit_not 8 (Z.lor FIRST_SAMPLE_PRESENT LAST_SAMPLE_PRESENT)) with 252 in Hl.
  assert (Hall : forallb (fun n => negb (Z.land (Z.of_nat n) 252 =? 0) || (Z.of_nat n <? 4)) (seq 0 256) = true)
    by (vm_compute; reflexivity).
  rewrite forallb_forall in Hall. specialize (Hall (Z.to_nat x)).
  rewrite in_seq, Z2Nat.id, Hl in Hall by ilia. specialize (Hall ltac:(ilia)). cbn in Hall. ilia.
Qed.

(** A read of [decode_manifest], with the range of its value and the bytes it read. *)
Tactic Notation "read_field" hyp(H) "as" ident(v) ident(Hv) ident(Hb) :=
  apply outcome_bind_Ok in H as (v & Hb & H);
  first [apply read_u64_inv in Hb as [Hv Hb] | apply read_u32_inv in Hb as [Hv Hb]
        | apply read_u16_inv in Hb as [Hv Hb] | apply index_u8_inv in Hb as [Hv Hb]].

(** The bytes of a cursor's field, whether present or not. *)
Lemma present_cursor (flags flag field : Z) :
  stray_cursor flags flag field = false ->
  default 0 (if negb (Z.land flags flag =? 0) then Some field else None) = field.
Proof. unfold stray_cursor. destruct (_ =? 0); cbn; [|done]. by destruct (Z.eqb_spec field 0). Qed.

Lemma cursor_flags (x : Z) (f l : SequenceCursor) :
  x = 0 \/ x = 1 \/ x = 2 \/ x = 3 ->
  cursor_flag FIRST_SAMPLE_PRESENT (if negb (Z.land x FIRST_SAMPLE_PRESENT =? 0) then Some f else None) +
  cursor_flag LAST_SAMPLE_PRESENT (if negb (Z.land x LAST_SAMPLE_PRESENT =? 0) then Some l else None) = x.
Proof. by intros [->|[->|[->| ->]]]. Qed.

Lemma decode_manifest_inv (h : bytes) (m : CaptureWindowManifest) :
  length h = MANIFEST_BYTES -> decode_manifest h = Ok m ->
  typed m /\ validate_manifest_contract m = Ok tt /\ h = manifest_bytes m.
Proof.
  intros Hl H. unfold decode_manifest in H.
  apply outcome_bind_Ok in H as (magic & Hmagic & H). case_bool_decide as Hm; [|done]. subst magic.
  cbn [negb] in H. read_field H as version Hver Hverb.
  destruct (Z.eqb_spec version MANIFEST_VERSION) as [->|]; [|done]. cbn [negb] in H.
  read_field H as len Hlen Hlenb. destruct (Z.eqb_spec len (Z.of_nat MANIFEST_BYTES)) as [->|]; [|done].
  cbn [negb] in H. apply outcome_bind_Ok in H as (covered & Hcov & H). read_field H as crc Hcrc Hcrcb.
  destruct (Z.eqb_spec (crc32c covered) crc) as [<-|]; [|done]. cbn [negb] in H.
  apply outcome_bind_Ok in H as (reserved & Hres & H). destruct (existsb _ reserved) eqn:Hzero; [done|].
  read_field H as flags Hflags Hflagsb.
  destruct (Z.eqb_spec (Z.land flags (bit_not 8 (Z.lor FIRST_SAMPLE_PRESENT LAST_SAMPLE_PRESENT))) 0)
    as [Hf|]; [|done]. cbn [negb] in H.
  read_field H as fs Hfs Hfsb. destruct (stray_cursor flags FIRST_SAMPLE_PRESENT fs) eqn:Hstray1; [done|].
  read_field H as ls Hls Hlsb. destruct (stray_cursor flags LAST_SAMPLE_PRESENT ls) eqn:Hstray2; [done|].
  apply outcome_bind_Ok in H as (hw & Hhw & H).
  read_field H as e He Heb. read_field H as o Ho Hob. read_field H as f Hfc Hfcb. read_field H as en Hen Henb.
  read_field H as sc Hsc Hscb. read_field H as mc Hmc Hmcb. read_field H as bc Hbc Hbcb.
  read_field H as reason Hreason Hreasonb. apply outcome_bind_Ok in H as (r & Hr & H).
  apply decode_seal_reason_iff in Hr as ->.
  apply outcome_bind_Ok in H as ([] & Hval & [= <-]).
  pose proof (present_cursor _ _ _ Hstray1) as P1. pose proof (present_cursor _ _ _ Hstray2) as P2.
  pose proof (cursor_flags flags fs ls (manifest_flags_cases _ Hflags Hf)) as P3.
  apply slice_inv in Hmagic as (_ & _ & Hmagic & _), Hcov as (_ & _ & Hcov & _), Hres as (_ & _ & Hres & Hlr),
    Hhw as (_ & _ & Hhw & Hlh).
  split.
  { unfold typed, CaptureWindowManifest_typed. cbn. rewrite P1, P2. split_and!; done. }
  split; [done|]. unfold manifest_bytes.
  match goal with |- h = manifest_fields ?m ++ _ => enough (Hfields : manifest_fields m = covered) end.
  { rewrite Hfields, Hcrcb, Hcov. clear -Hl. change (length h = 104%nat) in Hl. explicit_bytes h Hl. reflexivity. }
  unfold manifest_fields. cbn [cm_hardware_id cm_boot_epoch cm_window_ordinal cm_first_cursor cm_end_exclusive
    cm_first_sample_cursor cm_last_sample_cursor cm_sample_count cm_missing_sample_count
    cm_continuity_break_count cm_seal_reason]. rewrite P1, P2, P3.
  apply (zero_bytes 6) in Hzero; [|exact Hlr].
  change [z2b flags; z2b (encode_seal_reason r)] with ([z2b flags] ++ [z2b (encode_seal_reason r)]).
  rewrite <- Hzero, Hres, Hmagic, Hverb, Hlenb, Hhw, Heb, Hob, Hfcb, Henb, Hfsb, Hlsb, Hscb, Hmcb, Hbcb,
    Hflagsb, Hreasonb, Hcov. clear -Hl. change (length h = 104%nat) in Hl. explicit_bytes h Hl. reflexivity.
Qed.

Lemma decode_manifest_no_panic (h : bytes) : length h = MANIFEST_BYTES -> no_panic (decode_manifest h).
Proof.
  change MANIFEST_BYTES with 104%nat. intros Hl. unfold decode_manifest. change MANIFEST_CRC_OFFSET with 100%nat.
  assert (Hv : forall m, no_panic (validate_manifest_contract m)).
  { intros m. unfold validate_manifest_contract. destruct (_ || _); [auto with rust|].
    apply no_panic_bind; [auto with rust|]. intros. repeat split_guard; auto with rust. }
  assert (Hd : forall v, no_panic (decode_seal_reason v)).
  { intros v. unfold decode_seal_reason. repeat split_guard; auto with rust. }
  repeat (first [apply no_panic_bind; [first [apply Hv | apply Hd | auto with rust lia]|intros ? _] | split_guard];
    auto with rust).
Qed.

Lemma read_capture_manifest_iff (content : bytes) (m : CaptureWindowManifest) :
  read_capture_manifest content = Ok m <-> typed m /\ manifest_contract m /\ content = manifest_bytes m.
Proof.
  unfold read_capture_manifest. split.
  - destruct (Nat.ltb_spec (length content) MANIFEST_BYTES); [done|].
    destruct (Nat.ltb_spec MANIFEST_BYTES (length content)); [done|].
    intros (Ht & Hv & ->)%decode_manifest_inv; [|lia]. by rewrite <- (validate_manifest_contract_iff m Ht).
  - intros (Ht & Hc & ->). rewrite length_manifest_bytes, Nat.ltb_irrefl by done.
    apply decode_manifest_bytes; [done|]. by apply validate_manifest_contract_iff.
Qed.

Lemma read_capture_manifest_no_panic (content : bytes) : no_panic (read_capture_manifest content).
Proof.
  unfold read_capture_manifest. destruct (Nat.ltb_spec (length content) MANIFEST_BYTES); [auto with rust|].
  destruct (Nat.ltb_spec MANIFEST_BYTES (length content)); [auto with rust|].
  apply decode_manifest_no_panic. lia.
Qed.

(** ** Sealed manifests satisfy the contract *)

Definition samples_ok (first end_ count : Z) (first_sample last_sample : option Z) : Prop :=
  match first_sample, last_sample with
  | None, None => count = 0
  | Some f, Some l => count <> 0 /\ first <= f <= l /\ l < end_
  | _, _ => False
  end.

Definition window_samples_ok (w : OpenWindow) : Prop :=
  samples_ok (ow_first_cursor w) (ow_end_exclusive w) (ow_sample_count w) (ow_first_sample_cursor w)
    (ow_last_sample_cursor w).

Definition ledger_samples_ok (L : CaptureWindowLedger) : Prop :=
  match lg_open L with Some w => window_samples_ok w | None => True end.

Definition manifest_samples_ok (m : CaptureWindowManifest) : Prop :=
  samples_ok (cm_first_cursor m) (cm_end_exclusive m) (cm_sample_count m) (cm_first_sample_cursor m)
    (cm_last_sample_cursor m).

(** What an operation leaves: a sealed window is closed. *)
Definition sealed_ok (m : option CaptureWindowManifest) (L : CaptureWindowLedger) : Prop :=
  match m with Some m => manifest_samples_ok m /\ lg_open L = None | None => True end /\ ledger_samples_ok L.

Lemma seal_samples (reason : WindowSealReason) L m L' :
  ledger_samples_ok L -> seal reason L = (Ok m, L') -> sealed_ok (Some m) L'.
Proof.
  unfold seal, sealed_ok, ledger_samples_ok. intros Hs H. st_run H. simplify_eq. done.
Qed.

Lemma seal_some_samples (reason : WindowSealReason) L m L' :
  ledger_samples_ok L -> (m ← seal reason; mret (Some m)) L = (Ok m, L') ->
  sealed_ok m L'.
Proof.
  intros Hs H. apply st_bind_pure in H as (r & H & Hr). destruct r; [|done..]. injection Hr as ->.
  by eapply seal_samples.
Qed.

Section LedgerSamples.
Context (hw : HardwareId) (e : BootEpoch) (L : CaptureWindowLedger) (Hwf : ledger_wf hw e L).
Context (Hs : ledger_samples_ok L).

Lemma current_samples first :
first = lg_next_cursor L -> window_samples_ok (current L first) /\ ow_first_cursor (current L first) <= first /\
ow_end_exclusive (current L first) = first /\ 0 <= ow_sample_count (current L first).
Proof.
intros ->. destruct Hwf as (_ & _ & _ & Ho). unfold current, ledger_samples_ok, counters_ok in *.
destruct (lg_open L) as [w|]; cbn; [|lia]. destruct Ho as (Hend & Hc). rewrite Hend in *. split; [done|lia].
Qed.

Lemma set_open_samples (end_ : Z) (w : OpenWindow) : window_samples_ok w -> ledger_samples_ok (set_open end_ w L).
Proof. done. Qed.

(** The window of a record whose range ends later keeps its samples. *)
Lemma samples_extend first end1 end2 count f l :
end1 <= end2 -> samples_ok first end1 count f l -> samples_ok first end2 count f l.
Proof. unfold samples_ok. destruct f, l; lia || done. Qed.

Lemma apply_gap_samples g m L' :
0 <= missing_count g -> apply_gap g L = (Ok m, L') -> m = None /\ ledger_samples_ok L'.
Proof.
intros Hn H. unfold apply_gap, validate_stream, validate_next in H. st_run H. simplify_eq. split; [done|].
change (default (open_window_new (first_missing g)) (lg_open L)) with (current L (first_missing g)).
destruct (current_samples (first_missing g) ltac:(lia)) as (Hw & Hf & Hend & Hc).
apply set_open_samples. unfold window_samples_ok in *. cbn. eapply samples_extend; [|exact Hw].
unfold checked_advance in *. match goal with H : checked_add 64 (first_missing g) _ = Some _ |- _ =>
apply checked_add_Some in H as (-> & _) end. lia.
Qed.

Lemma apply_break_samples b m L' :
apply_continuity_break b L = (Ok m, L') -> m = None /\ ledger_samples_ok L'.
Proof.
intros H. unfold apply_continuity_break, validate_stream, validate_next, break_end, checked_advance in H.
st_run H. simplify_eq. split; [done|].
change (default (open_window_new (break_at b)) (lg_open L)) with (current L (break_at b)).
destruct (current_samples (break_at b) ltac:(lia)) as (Hw & Hf & Hend & Hc).
apply set_open_samples. unfold window_samples_ok in *. cbn. eapply samples_extend; [|exact Hw].
match goal with H : checked_add 64 (break_at b) _ = Some _ |- _ => apply checked_add_Some in H as (-> & _) end. lia.
Qed.

(** The window of a chunk at the next cursor, as [apply_chunk] opens it. *)
Lemma open_for_chunk_samples w c last :
window_samples_ok w -> ow_first_cursor w <= chunk_first (header c) ->
ow_end_exclusive w = chunk_first (header c) -> 0 <= ow_sample_count w ->
chunk_first (header c) <= last -> 0 < chunk_sample_count (header c) ->
samples_ok (ow_first_cursor (open_for_chunk w c)) (last + 1) (ow_sample_count (open_for_chunk w c) +
chunk_sample_count (header c)) (ow_first_sample_cursor (open_for_chunk w c)) (Some last).
Proof.
unfold window_samples_ok, open_for_chunk. intros Hw Hf Hend Hc Hl Hn.
destruct w as [f en fs ls sc mc bc ts ft]. cbn in *.
destruct fs as [fs|]; cbn; [|lia]. destruct ls as [ls|]; cbn in *; lia || done.
Qed.

Lemma apply_chunk_samples c m L' :
capture_record_valid hw e (CSampleChunk c) -> apply_chunk hw c L = (Ok m, L') ->
sealed_ok m L'.
Proof.
intros (Ht & Hv & He') H. pose proof Ht as ((_ & _ & _ & Hf0 & Hc0) & _).
apply sample_chunk_validate_Ok in Hv as (Hst & _). apply chunk_structure_Ok in Hst as (_ & _ & Hne & Hend & _).
unfold apply_chunk in H. rewrite He', (validate_stream_own hw e L Hwf) in H.
unfold chunk_end, checked_advance in H. rewrite checked_add_ok in H by done. cbn [ok_or map_err] in H.
autorewrite with st in H. rewrite (validate_next_at L) in H.
destruct (Z.eqb_spec (chunk_first (header c)) (lg_next_cursor L)) as [Hfirst|]; [|discriminate H].
autorewrite with st in H. rewrite sub_ok in H by ilia. autorewrite with st in H.
change (default (open_window_new (chunk_first (header c))) (lg_open L)) with
(current L (chunk_first (header c))) in H.
destruct (current_samples _ Hfirst) as (Hw & Hf & Hcend & Hc).
pose proof (open_for_chunk_samples _ c (chunk_first (header c) + chunk_sample_count (header c) - 1)
Hw Hf Hcend Hc ltac:(ilia) ltac:(ilia)) as Hopen. rewrite Z.sub_add in Hopen.
destruct (checked_add _ (ow_sample_count _) _) as [n|] eqn:Hcount; [|discriminate H].
apply checked_add_Some in Hcount as (-> & _). cbn [ok_or] in H. autorewrite with st in H.
match type of H with context [set_open ?e ?w L] =>
assert (Hopen' : ledger_samples_ok (set_open e w L)) by exact Hopen end.
revert H Hopen'. generalize (set_open (chunk_first (header c) + chunk_sample_count (header c))). intros f H Hopen'.
match type of H with context [f ?w] => revert H Hopen'; generalize (f w) end. intros L1 H Hopen'.
repeat split_guard_in H; try exact (seal_some_samples _ _ _ _ Hopen' H).
injection H as <- <-. done.
Qed.

Lemma finish_samples m L' :
finish L = (Ok m, L') -> sealed_ok m L'.
Proof.
unfold finish. autorewrite with st. destruct (lg_open L) eqn:Hw.
- intros H. exact (seal_some_samples _ _ _ _ Hs H).
- intros [= <- <-]. done.
Qed.

Lemma ledger_append_samples r m L' :
capture_record_valid hw e r -> ledger_append hw r L = (Ok m, L') ->
sealed_ok m L'.
Proof.
intros Hr. destruct r as [c|g|b|]; cbn [ledger_append];
[unfold plan_chunk|unfold plan_gap|unfold plan_continuity_break|exact (finish_samples m L')].
all: rewrite plan_commit; intros H; split_guard_in H; match goal with o : outcome _ _ |- _ => destruct o end;
try discriminate H; injection H as -> ->.
- by apply (apply_chunk_samples c).
- pose proof Hr as (((_ & _ & _ & Hn) & _ & _) & _). unfold unsigned in Hn.
apply apply_gap_samples in Hg as (-> & Hg); [done|lia].
- by apply apply_break_samples in Hg as (-> & Hg).
Qed.
End LedgerSamples.

Lemma ledger_run_sealed hw e rs L ms L' :
  Forall (capture_record_valid hw e) rs -> ledger_wf hw e L -> ledger_samples_ok L ->
  ledger_run hw rs L = Ok (ms, L') -> Forall manifest_samples_ok ms /\ ledger_samples_ok L'.
Proof.
  intros Hrs. revert L ms. induction Hrs as [|r rs Hr Hrs IH]; intros L ms Hwf Hs H; cbn [ledger_run] in H.
  { by injection H as <- <-. }
  pose proof (ledger_append_cases hw e L Hwf r Hr) as Hcases.
  destruct (ledger_append hw r L) as [[m|err|] L1] eqn:Happ; [|done|done].
  pose proof (ledger_append_samples hw e L Hwf Hs r m L1 Hr Happ) as (Hm & Hs1).
  apply outcome_bind_Ok in H as ([ms1 L2] & Hrun & [= <- <-]).
  destruct (IH L1 ms1 ltac:(apply Hcases) Hs1 Hrun) as (Hms & Hs2). split; [|done].
  apply Forall_app. split; [destruct m; repeat constructor; apply Hm|done].
Qed.

Lemma ledger_run_samples hw e rs L ms L' :
  Forall (capture_record_valid hw e) rs -> ledger_wf hw e L -> ledger_samples_ok L ->
  ledger_run hw rs L = Ok (ms, L') -> Forall manifest_samples_ok ms.
Proof. intros. by eapply ledger_run_sealed. Qed.

Lemma sealed_manifest_ok hw e m :
  cm_hardware_id m = hw -> cm_boot_epoch m = e -> u64 (cm_window_ordinal m) -> manifest_wf m ->
  manifest_samples_ok m -> hardware_id_typed hw -> u64 e -> e <> 0 -> typed m /\ manifest_contract m.
Proof.
  intros <- <- Ho Hc Hm Hhw He He0. unfold manifest_wf, counters_ok in Hc. unfold manifest_samples_ok, samples_ok in Hm.
  unfold typed, CaptureWindowManifest_typed, manifest_contract.
  destruct (cm_first_sample_cursor m), (cm_last_sample_cursor m); cbn [default from_option id] in *; try done;
    unfold unsigned in *; split_and!; auto; lia.
Qed.

Lemma partitions_sealed hw e o a ms o' b :
  partitions hw e o a ms o' b -> hardware_id_typed hw -> u64 e -> e <> 0 -> 0 <= o -> o' <= 2 ^ 64 ->
  Forall manifest_samples_ok ms -> Forall (fun m => typed m /\ manifest_contract m) ms.
Proof.
  intros Hp Hhw He He0 Ho Ho' Hs. revert o a Ho Hp. induction Hs as [|m ms Hm Hs IH]; intros o a Ho Hp; [constructor|].
  pose proof (partitions_length _ _ _ _ _ _ _ Hp) as Hlen. cbn [length] in Hlen.
  destruct Hp as (Hh & Hep & Hor & Hf & Hc & Hp). constructor; [|by apply (IH (o + 1) (cm_end_exclusive m)); [lia|]].
  eapply sealed_manifest_ok; eauto. unfold unsigned. lia.
Qed.

(** A window manifest survives its file: a file is accepted
    exactly when it is the encoding of a manifest whose integers fit their
    fields and which satisfies the contract, and answers that manifest; it
    never panics. Every manifest that the ledger seals from valid records of
    one stream, from any cursor, encodes without an error into bytes that read
    back as that manifest. *)
Lemma capture_manifest_exact (policy : CaptureWindowPolicy) (hw : HardwareId) (e a o : Z)
    (rs : list CaptureRecord) (ms : list CaptureWindowManifest) (L : CaptureWindowLedger) :
  hardware_id_typed hw -> u64 e -> e <> 0 -> u64 a -> 0 <= o -> o + Z.of_nat (length rs) < 2 ^ 64 ->
  Forall (capture_record_valid hw e) rs ->
  ledger_run hw rs (ledger_new policy hw e a o) = Ok (ms, L) ->
  (forall (content : bytes) (m : CaptureWindowManifest),
     read_capture_manifest content = Ok m <-> typed m /\ manifest_contract m /\ content = manifest_bytes m) /\
  (forall content : bytes, no_panic (read_capture_manifest content)) /\
  (forall m, In m ms ->
     exists content, encode_manifest m = Ok content /\ read_capture_manifest content = Ok m).
Proof.
  intros Hhw He He0 Ha Ho Hlen Hrs Hrun.
  split; [exact read_capture_manifest_iff|]. split; [exact read_capture_manifest_no_panic|].
  assert (Hwf : ledger_wf hw e (ledger_new policy hw e a o)) by (unfold ledger_wf; cbn; auto).
  destruct (ledger_run_partitions _ _ _ _ _ _ Hrs Hwf Hrun) as (_ & Hp).
  pose proof (ledger_run_samples _ _ _ _ _ _ Hrs Hwf I Hrun) as Hs.
  apply partitions_sealed in Hp; auto.
  2:{ apply partitions_length in Hp. apply ledger_run_length in Hrun. cbn in Hp. lia. }
  rewrite List.Forall_forall in Hp. intros m [Ht Hc]%Hp. exists (manifest_bytes m).
  split; [by apply encode_manifest_eq|]. by apply read_capture_manifest_iff.
Qed.

Lemma capture_manifest_exact_witness :
  exists ms L content, ledger_run window_hw window_records (ledger_new (mkPolicy 4000) window_hw window_epoch 17 5)
    = Ok (ms, L) /\ length ms = 2%nat /\ length content = MANIFEST_BYTES /\
    read_capture_manifest content =
      Ok (mkManifest window_hw window_epoch 5 17 22 (Some 20) (Some 21) 2 3 0 TargetDurationReached).
Proof.
  let run := constr:(ledger_run window_hw window_records (ledger_new (mkPolicy 4000) window_hw window_epoch 17 5)) in
  let result := eval vm_compute in run in
  lazymatch result with
  | Ok (?ms, ?L) =>
      assert (Hrun : run = Ok (ms, L)) by (vm_compute; reflexivity);
      exists ms, L, (manifest_bytes (mkManifest window_hw window_epoch 5 17 22 (Some 20) (Some 21) 2 3 0
        TargetDurationReached))
  end.
  split; [exact Hrun|]. split; [reflexivity|]. split; [reflexivity|].
  eapply (capture_manifest_exact (mkPolicy 4000) window_hw window_epoch 17 5 window_records);
    [reflexivity|by compute|done|by compute|lia|cbn; lia|exact window_records_valid|exact Hrun|].
  split; [typed_by_compute|]. split; [|reflexivity]. vm_compute. intuition congruence.
Defined.
