(* ===== verification/CaptureReader.v ===== *)
(** * Reading sealed segments (crates/sensor-host/src/capture_wal.rs, capture_segments.rs)

    The read-only decoder of a Capture log and the independent validation of a
    sealed segment against its manifest. Unlike recovery, a reader does not
    tolerate a torn tail: the whole file must be complete records. *)

From S2P Require Export CaptureManifest.

(** The file is its content, which nothing changes while it is open. *)
Record CaptureWalReader := mkReader {
  rd_content : bytes;
  rd_header : CaptureWalHeader;
  rd_offset : nat;
  rd_file_len : nat
}.

Abbreviation reader_op := (st CaptureWalReader CaptureWalError).

(** [seek] and [read_exact]. *)
Definition read_exact (a b : nat) (content : bytes) : wal bytes :=
  if (length content <? b)%nat then Err Io else slice a b content.

Definition reader_open (content : bytes) : wal CaptureWalReader :=
  if (length content <? FILE_HEADER_BYTES)%nat then Err TruncatedFileHeader
  else
    h ← read_exact 0 FILE_HEADER_BYTES content;
    header ← decode_file_header h;
    Ok (mkReader content header FILE_HEADER_BYTES (length content)).

Definition next_record : reader_op (option CaptureRecord) :=
  self ← get;
  let offset := rd_offset self in
  if (offset =? rd_file_len self)%nat then mret None
  else
    remaining ← lift (sub (Z.of_nat (rd_file_len self)) (Z.of_nat offset));
    if remaining <? Z.of_nat RECORD_PREFIX_BYTES then throw (IncompleteRecord offset)
    else
      prefix ← lift (read_exact offset (offset + RECORD_PREFIX_BYTES) (rd_content self));
      let body_len := from_le_bytes prefix in
      if (body_len <? MIN_RECORD_BODY_BYTES) || (MAX_RECORD_BODY_BYTES <? body_len)
      then throw (InvalidRecordLength offset body_len)
      else
        record_end ← lift (ok_or
          (value ← checked_add 64 (Z.of_nat offset) (Z.of_nat RECORD_PREFIX_BYTES);
           checked_add 64 value body_len) LengthOverflow);
        if Z.of_nat (rd_file_len self) <? record_end then throw (IncompleteRecord offset)
        else
          let start := (offset + RECORD_PREFIX_BYTES)%nat in
          body ← lift (read_exact start (start + Z.to_nat body_len) (rd_content self));
          let data_len := (Z.to_nat body_len - RECORD_CRC_BYTES)%nat in
          data ← lift (slice 0 data_len body);
          stored ← lift (read_u32 body data_len);
          if negb (crc32c data =? stored) then throw (RecordChecksumMismatch offset)
          else
            record ← lift (decode_record data (wh_hardware_id (rd_header self)) (wh_boot_epoch (rd_header self)));
            _ ← modify (fun s => mkReader (rd_content s) (rd_header s) (Z.to_nat record_end) (rd_file_len s));
            mret (Some record).

Record CaptureSegmentValidation := mkValidation {
  sv_manifest : CaptureWindowManifest;
  sv_record_count : Z
}.

(** The [while let] loop of [validate_capture_segment]: every turn but the last
    consumes a record. *)
Fixpoint replay_segment (fuel : nat) (reader : CaptureWalReader) (ledger : CaptureWindowLedger)
    (reconstructed : option CaptureWindowManifest) (record_count : Z)
    : segment (option CaptureWindowManifest * Z) :=
  match next_record reader with
  | (Ok None, _) => Ok (reconstructed, record_count)
  | (Ok (Some record), reader) =>
      if is_some reconstructed then Err RecordAfterSeal
      else
        record_count ← ok_or (checked_add 64 record_count 1) SegmentCounterOverflow;
        match ledger_append (wh_hardware_id (rd_header reader)) record ledger with
        | (Ok reconstructed, ledger) =>
            match fuel with
            | O => Panic
            | S fuel => replay_segment fuel reader ledger reconstructed record_count
            end
        | (Err e, _) => Err (SegmentWindow e)
        | (Panic, _) => Panic
        end
  | (Err e, _) => Err (SegmentWal e)
  | (Panic, _) => Panic
  end.

(** [validate_capture_segment] on the contents of the two files. *)
Definition validate_capture_segment (wal_content manifest_content : bytes) : segment CaptureSegmentValidation :=
  manifest ← read_capture_manifest manifest_content;
  reader ← map_err SegmentWal (reader_open wal_content);
  let header := rd_header reader in
  if negb (bool_decide (wh_hardware_id header = cm_hardware_id manifest))
     || negb (wh_boot_epoch header =? cm_boot_epoch manifest)
     || negb (wh_first_cursor header =? cm_first_cursor manifest)
     || negb (wh_first_window_ordinal header =? cm_window_ordinal manifest)
  then Err WalManifestIdentityMismatch
  else
    let ledger :=
      ledger_new (wh_window_policy header) (wh_hardware_id header) (wh_boot_epoch header)
        (wh_first_cursor header) (wh_first_window_ordinal header) in
    '(reconstructed, record_count) ← replay_segment (length wal_content) reader ledger None 0;
    reconstructed ← ok_or reconstructed MissingSeal;
    if negb (bool_decide (reconstructed = manifest)) then Err ManifestDoesNotMatchWal
    else Ok (mkValidation manifest record_count).

(** ** One call of the reader *)

Lemma read_exact_eq (a b : nat) (content : bytes) :
  (b <= length content)%nat -> read_exact a b content = slice a b content.
Proof. intros H. unfold read_exact. by rewrite (proj2 (Nat.ltb_ge _ _)). Qed.

(** A frame is read in one way. *)
Lemma framed_as_inj (d1 s1 l1 d2 s2 l2 : bytes) :
  Z.of_nat (length d1) <= 2 ^ 20 -> Z.of_nat (length d2) <= 2 ^ 20 -> length s1 = length s2 ->
  framed_as d1 s1 ++ l1 = framed_as d2 s2 ++ l2 -> d1 = d2 /\ s1 = s2 /\ l1 = l2.
Proof.
  intros H1 H2 Hs H. unfold framed_as in H. rewrite <- !app_assoc in H.
  apply app_inj_1 in H as (Hlen & H); [|by rewrite !length_to_le_bytes].
  apply (f_equal from_le_bytes) in Hlen. rewrite !(from_to_le_bytes 4 32) in Hlen by (done || ilia).
  apply app_inj_1 in H as (-> & H); [|lia]. by apply app_inj_1 in H as (-> & ->).
Qed.

(** The header a configuration writes. *)
Definition config_header (c : CaptureWalConfig) : CaptureWalHeader :=
  mkWalHeader (cfg_hardware_id c) (cfg_boot_epoch c) (cfg_recovered_cursor c)
    (cfg_first_window_ordinal c) (cfg_window_policy c).

Section Reader.
Context (c : CaptureWalConfig) (Hc : typed c).
Let hw := cfg_hardware_id c.
Let e := cfg_boot_epoch c.

(** The reader of a file whose bytes [pre] are consumed. *)
Definition reading (pre l : bytes) : CaptureWalReader :=
mkReader (pre ++ l) (config_header c) (length pre) (length (pre ++ l)).

Lemma next_record_end (pre : bytes) : next_record (reading pre []) = (Ok None, reading pre []).
Proof. unfold next_record. autorewrite with st. cbn. by rewrite app_nil_r, Nat.eqb_refl. Qed.

Lemma next_record_torn (pre l : bytes) :
l <> [] -> torn_tail l -> Z.of_nat (length pre) + 2 ^ 21 < 2 ^ 64 ->
next_record (reading pre l) = (Err (IncompleteRecord (length pre)), reading pre l).
Proof.
intros Hne Htorn Hpre. unfold next_record, reading. autorewrite with st. cbn [rd_offset rd_file_len rd_content].
rewrite length_app. assert (length l <> 0)%nat by (destruct l; done).
rewrite (proj2 (Nat.eqb_neq _ _)) by lia. rewrite sub_ok by lia. autorewrite with st.
change (Z.of_nat RECORD_PREFIX_BYTES) with 4. change RECORD_PREFIX_BYTES with 4%nat.
destruct (Z.ltb_spec (Z.of_nat (length pre + length l) - Z.of_nat (length pre)) 4); [done|].
destruct Htorn as [|(Hn & Hlen)]; [lia|]. cbv zeta in Hn, Hlen.
rewrite read_exact_eq by (rewrite length_app; lia).
rewrite slice_Ok by (rewrite ?length_app; lia). rewrite drop_app_length.
replace (length pre + 4 - length pre)%nat with 4%nat by lia. autorewrite with st.
rewrite (proj2 (Z.ltb_ge _ _)) by lia. rewrite (proj2 (Z.ltb_ge MAX_RECORD_BODY_BYTES _)) by lia. cbn [orb].
unfold MIN_RECORD_BODY_BYTES, MAX_RECORD_BODY_BYTES in *. rewrite checked_add_ok by lia.
cbn [mbind option_bind]. rewrite checked_add_ok by lia. cbn [ok_or]. autorewrite with st.
by rewrite (proj2 (Z.ltb_lt _ _)) by lia.
Qed.

Lemma next_record_bad_length (pre l : bytes) :
(4 <= length l)%nat -> ~ (MIN_RECORD_BODY_BYTES <= from_le_bytes (take 4 l) <= MAX_RECORD_BODY_BYTES) ->
next_record (reading pre l) = (Err (InvalidRecordLength (length pre) (from_le_bytes (take 4 l))), reading pre l).
Proof.
intros H4 Hbad. unfold next_record, reading. autorewrite with st. cbn [rd_offset rd_file_len rd_content].
rewrite length_app. rewrite (proj2 (Nat.eqb_neq _ _)) by lia. rewrite sub_ok by lia. autorewrite with st.
change (Z.of_nat RECORD_PREFIX_BYTES) with 4. change RECORD_PREFIX_BYTES with 4%nat.
rewrite (proj2 (Z.ltb_ge _ _)) by lia. rewrite read_exact_eq by (rewrite length_app; lia).
rewrite slice_Ok by (rewrite ?length_app; lia). rewrite drop_app_length.
replace (length pre + 4 - length pre)%nat with 4%nat by lia. autorewrite with st.
destruct (Z.ltb_spec (from_le_bytes (take 4 l)) MIN_RECORD_BODY_BYTES); [done|].
destruct (Z.ltb_spec MAX_RECORD_BODY_BYTES (from_le_bytes (take 4 l))); [done|lia].
Qed.

Lemma next_record_framed (pre data stored l : bytes) :
(4 <= length data)%nat -> Z.of_nat (length data) + 4 <= MAX_RECORD_BODY_BYTES -> length stored = 4%nat ->
Z.of_nat (length pre) + 2 ^ 21 < 2 ^ 64 ->
next_record (reading pre (framed_as data stored ++ l)) =
if crc32c data =? from_le_bytes stored then
  match decode_record data hw e with
  | Ok r => (Ok (Some r), reading (pre ++ framed_as data stored) l)
  | Err err => (Err err, reading pre (framed_as data stored ++ l))
  | Panic => (Panic, reading pre (framed_as data stored ++ l))
  end
else (Err (RecordChecksumMismatch (length pre)), reading pre (framed_as data stored ++ l)).
Proof.
unfold MAX_RECORD_BODY_BYTES. intros H4 Hmax Hs Hpre.
destruct (read_framed_as pre data stored l) as (Hread & Hbody & Hcrc & Hdata); [lia|done|].
unfold next_record, reading. autorewrite with st. cbn [rd_offset rd_file_len rd_content rd_header config_header
  wh_hardware_id wh_boot_epoch].
pose proof (length_framed_as data stored Hs) as Hlf. rewrite !length_app, Hlf.
rewrite (proj2 (Nat.eqb_neq _ _)) by lia. rewrite sub_ok by lia. autorewrite with st.
change (Z.of_nat RECORD_PREFIX_BYTES) with 4. change RECORD_PREFIX_BYTES with 4%nat. change RECORD_CRC_BYTES with 4%nat.
rewrite (proj2 (Z.ltb_ge _ _)) by lia. rewrite (read_exact_eq (length pre)) by (rewrite !length_app, Hlf; lia).
unfold read_u32 in Hread. destruct (slice (length pre) (length pre + 4) _) as [prefix| |]; [|done|done].
cbn [fmap outcome_fmap] in Hread. injection Hread as Hn. autorewrite with st. rewrite Hn.
unfold MIN_RECORD_BODY_BYTES, MAX_RECORD_BODY_BYTES.
rewrite (proj2 (Z.ltb_ge _ _)) by lia. rewrite (proj2 (Z.ltb_ge (1024 * 1024) _)) by lia. cbn [orb].
rewrite checked_add_ok by lia. cbn [mbind option_bind]. rewrite checked_add_ok by lia. cbn [ok_or]. autorewrite with st.
rewrite (proj2 (Z.ltb_ge _ _)) by lia.
replace (Z.to_nat (Z.of_nat (length data) + 4)) with (length data + 4)%nat by lia.
rewrite read_exact_eq by (rewrite !length_app, Hlf; lia). rewrite Hbody. autorewrite with st.
replace (length data + 4 - 4)%nat with (length data) by lia. rewrite Hdata. autorewrite with st. rewrite Hcrc.
autorewrite with st. destruct (_ =? _); cbn [negb]; [|done]. fold hw e.
destruct (decode_record data hw e) as [r|err|]; autorewrite with st; [|done|done].
unfold modify. cbn [rd_content rd_header rd_file_len]. rewrite <- app_assoc.
replace (Z.to_nat (Z.of_nat (length pre) + 4 + (Z.of_nat (length data) + 4))) with (length pre + (8 + length data))%nat by lia.
by replace (length pre + (8 + length data) + length l)%nat with (length pre + (8 + length data + length l))%nat by lia.
Qed.

(** A call reads one valid record, or reports the end, or refuses. *)
Lemma next_record_cases (pre l : bytes) :
Z.of_nat (length pre) + 2 ^ 21 < 2 ^ 64 ->
(l = [] /\ next_record (reading pre l) = (Ok None, reading pre l)) \/
(exists r l', capture_record_valid hw e r /\ l = record_bytes r ++ l' /\
   next_record (reading pre l) = (Ok (Some r), reading (pre ++ record_bytes r) l')) \/
(l <> [] /\ exists err, next_record (reading pre l) = (Err err, reading pre l) /\
   forall r l', capture_record_valid hw e r -> l <> record_bytes r ++ l').
Proof.
intros Hpre. destruct (decide (l = [])) as [->|Hne]; [left; auto using next_record_end|right].
pose proof Hc as (Hhw & He & _).
destruct (tail_cases l) as [Htorn|[(H4 & Hbad)|(data & stored & l' & -> & Hs & H4 & Hmax)]].
- right. split; [done|]. rewrite next_record_torn by done. eexists. split; [done|]. intros r l' Hr ->.
  pose proof (record_data_length _ _ _ Hr) as Hd. rewrite record_bytes_framed in Htorn.
  destruct Htorn as [Ht|(_ & Ht)]; rewrite length_app, length_framed in Ht; [lia|].
  rewrite framed_prefix in Ht by lia. lia.
- right. split; [done|]. rewrite next_record_bad_length by done. eexists. split; [done|]. intros r l' Hr ->. apply Hbad.
  pose proof (record_data_length _ _ _ Hr) as Hd. rewrite record_bytes_framed, framed_prefix by lia.
  unfold MIN_RECORD_BODY_BYTES, MAX_RECORD_BODY_BYTES. lia.
- rewrite next_record_framed by done.
  assert (Hinj : forall r l'', capture_record_valid hw e r -> framed_as data stored ++ l' = record_bytes r ++ l'' ->
    crc32c data = from_le_bytes stored /\ decode_record data hw e = Ok r).
  { intros r l'' Hr H. pose proof (record_data_length _ _ _ Hr) as Hd. rewrite record_bytes_framed in H.
    unfold MAX_RECORD_BODY_BYTES in Hmax.
    apply (framed_as_inj data stored l' (record_data r) _ l'') in H as (-> & -> & _); [|lia|lia|done].
    rewrite (from_to_le_bytes 4 32) by (done || apply crc32c_range). split; [done|].
    by apply (decode_record_iff hw e Hhw He). }
  destruct (Z.eqb_spec (crc32c data) (from_le_bytes stored)) as [Hcrc|Hcrc].
  2: { right. split; [done|]. eexists. split; [done|]. intros r l'' Hr H. by destruct (Hinj r l'' Hr H). }
  destruct (decode_record data hw e) as [r|err|] eqn:Hdec.
  3: { by destruct (decode_record_no_panic hw e He data). }
  2: { right. split; [done|]. eexists. split; [done|]. intros r l'' Hr H. by destruct (Hinj r l'' Hr H). }
  left. apply (decode_record_iff hw e Hhw He) in Hdec as [Hr ->]. exists r, l'. split; [done|].
  assert (Hf : framed_as (record_data r) stored = record_bytes r).
  { rewrite record_bytes_framed. unfold framed. by rewrite Hcrc, to_from_le_bytes. }
  by rewrite Hf.
Qed.

(** ** The validation loop *)

(** The records [rs] take the ledger [L] to its first sealed window, at their
    last record, or to none. *)
Definition seals_at_end (rs : list CaptureRecord) (L : CaptureWindowLedger) (sealed : option CaptureWindowManifest)
  : Prop :=
match sealed with
| None => exists L', ledger_run hw rs L = Ok ([], L')
| Some m =>
    exists rs0 r L0 L', rs = rs0 ++ [r] /\ ledger_run hw rs0 L = Ok ([], L0) /\
      ledger_append hw r L0 = (Ok (Some m), L')
end.

Lemma seals_at_end_cons r rs L sealed :
seals_at_end (r :: rs) L sealed <->
match ledger_append hw r L with
| (Ok None, L') => seals_at_end rs L' sealed
| (Ok (Some m), L') => rs = [] /\ sealed = Some m
| _ => False
end.
Proof.
unfold seals_at_end. destruct sealed as [m|].
- split.
  + intros ([|r0 rs0] & r1 & L0 & L' & Hrs & Hrun & Happ).
    * cbn in Hrs, Hrun. injection Hrs as -> ->. injection Hrun as <-. by rewrite Happ.
    * cbn in Hrs, Hrun. injection Hrs as -> ->.
      destruct (ledger_append hw r0 L) as [[[m0|]|err|] L1]; [..|done|done];
        destruct (ledger_run hw rs0 L1) as [[ms L2]|err|] eqn:Hr; cbn in Hrun; try discriminate Hrun.
      injection Hrun as -> <-. eauto 10.
  + destruct (ledger_append hw r L) as [[[m0|]|err|] L1] eqn:Happ; [|..|done|done].
    * intros (-> & [= ->]). by exists [], r, L, L1.
    * intros (rs0 & r1 & L0 & L' & -> & Hrun & Happ'). exists (r :: rs0), r1, L0, L'.
      cbn. by rewrite Happ, Hrun.
- cbn [ledger_run]. destruct (ledger_append hw r L) as [[[m0|]|err|] L1].
  + split; [|naive_solver]. intros (L' & H). by destruct (ledger_run hw rs L1) as [[]| |].
  + split; intros (L' & H); exists L'; [|by rewrite H].
    destruct (ledger_run hw rs L1) as [[ms L2]|err|]; cbn in H; try discriminate H. by injection H as -> <-.
  + naive_solver.
  + naive_solver.
Qed.

Definition small (l : bytes) : Prop := Z.of_nat (length l) + 2 ^ 21 < 2 ^ 64.

(** After the sealing record the file must end. *)
Lemma replay_segment_sealed fuel pre l L m n :
small (pre ++ l) ->
no_panic (replay_segment fuel (reading pre l) L (Some m) n) /\
forall v, replay_segment fuel (reading pre l) L (Some m) n = Ok v <-> l = [] /\ v = (Some m, n).
Proof.
unfold small. rewrite length_app. intros Hpre.
assert (Hfuel : replay_segment fuel (reading pre l) L (Some m) n =
  match next_record (reading pre l) with
  | (Ok None, _) => Ok (Some m, n)
  | (Ok (Some _), _) => Err RecordAfterSeal
  | (Err err, _) => Err (SegmentWal err)
  | (Panic, _) => Panic
  end).
{ destruct fuel; cbn [replay_segment is_some]; by destruct (next_record _) as [[[]| |] ?]. }
rewrite Hfuel.
destruct (next_record_cases pre l) as [(-> & ->)|[(r & l' & _ & -> & ->)|(Hne & err & -> & Hno)]]; [lia|..].
- split; [done|]. naive_solver.
- split; [done|]. intros v. split; [done|]. rewrite record_bytes_framed. intros (H & _).
  apply (f_equal length) in H. rewrite length_app, length_framed in H. cbn in H. lia.
- split; [done|]. intros v. split; [done|]. by intros (-> & _).
Qed.

Lemma record_bytes_inj r1 l1 r2 l2 :
capture_record_valid hw e r1 -> capture_record_valid hw e r2 ->
record_bytes r1 ++ l1 = record_bytes r2 ++ l2 -> r1 = r2 /\ l1 = l2.
Proof.
intros Hr1 Hr2 H. pose proof (record_data_length _ _ _ Hr1). pose proof (record_data_length _ _ _ Hr2).
rewrite !record_bytes_framed in H. destruct Hc as (Hhw & He & _).
apply (framed_as_inj _ _ l1 _ _ l2) in H as (Hd & _ & Hl); [|lia|lia|by rewrite !length_to_le_bytes].
split; [|done]. apply (f_equal (fun d => decode_record d hw e)) in Hd.
rewrite (proj2 (decode_record_iff hw e Hhw He _ r1)), (proj2 (decode_record_iff hw e Hhw He _ r2)) in Hd by done.
congruence.
Qed.

(** The results of the loop over the records of [l], started at the count [n]. *)
Definition replayed (l : bytes) (L : CaptureWindowLedger) (n : Z) (v : option CaptureWindowManifest * Z) : Prop :=
exists rs sealed, Forall (capture_record_valid hw e) rs /\ l = records_bytes rs /\
  seals_at_end rs L sealed /\ v = (sealed, n + Z.of_nat (length rs)).

Lemma replayed_cons r l L n v :
capture_record_valid hw e r ->
replayed (record_bytes r ++ l) L n v <->
match ledger_append hw r L with
| (Ok None, L') => replayed l L' (n + 1) v
| (Ok (Some m), _) => l = [] /\ v = (Some m, n + 1)
| _ => False
end.
Proof.
intros Hr. transitivity (exists rs sealed, Forall (capture_record_valid hw e) rs /\ l = records_bytes rs /\
  seals_at_end (r :: rs) L sealed /\ v = (sealed, n + 1 + Z.of_nat (length rs))).
- split.
  + intros (rs & sealed & Hrs & Hl & Hs & ->). destruct Hrs as [|r' rs Hr' Hrs].
    * symmetry in Hl. apply (f_equal length) in Hl. rewrite record_bytes_framed, length_app, length_framed in Hl. done.
    * change (records_bytes (r' :: rs)) with (record_bytes r' ++ records_bytes rs) in Hl.
      apply record_bytes_inj in Hl as (<- & ->); [|done..]. exists rs, sealed. split_and!; try done. f_equal.
      cbn [length]. lia.
  + intros (rs & sealed & Hrs & -> & Hs & ->). exists (r :: rs), sealed. split_and!; try done; [by constructor|].
    f_equal. cbn [length]. lia.
- setoid_rewrite seals_at_end_cons. destruct (ledger_append hw r L) as [[[m|]|err|] L'].
  + split.
    * intros (rs & sealed & _ & -> & (-> & ->) & ->). by rewrite Z.add_0_r.
    * intros (-> & ->). exists [], (Some m). by rewrite Z.add_0_r.
  + done.
  + naive_solver.
  + naive_solver.
Qed.

Lemma replay_segment_exact fuel pre l L n :
(length l <= fuel)%nat -> small (pre ++ l) -> n + Z.of_nat (length l) < 2 ^ 64 -> ledger_wf hw e L ->
no_panic (replay_segment fuel (reading pre l) L None n) /\
forall v, replay_segment fuel (reading pre l) L None n = Ok v <-> replayed l L n v.
Proof.
revert pre l L n. induction fuel as [fuel IH] using lt_wf_ind. intros pre l L n Hfuel Hsmall Hn Hwf.
assert (Hpre : Z.of_nat (length pre) + 2 ^ 21 < 2 ^ 64) by (unfold small in Hsmall; rewrite length_app in Hsmall; lia).
destruct (next_record_cases pre l Hpre) as [(-> & Hnext)|[(r & l' & Hr & -> & Hnext)|(Hne & err & Hnext & Hno)]].
- assert (Heq : replay_segment fuel (reading pre []) L None n = Ok (None, n))
    by (destruct fuel; cbn [replay_segment]; by rewrite Hnext).
  rewrite Heq. split; [done|]. intros v. split.
  + intros [= <-]. exists [], None. rewrite Z.add_0_r. split_and!; try done. by exists L.
  + intros (rs & sealed & _ & Hl & Hs & ->).
    apply (f_equal length) in Hl. pose proof (records_bytes_length rs) as Hrs.
    destruct rs; [|cbn [length] in *; lia].
    destruct sealed as [m|]; [destruct Hs as ([|? ?] & ? & ? & ? & ? & _); done|]. cbn. by rewrite Z.add_0_r.
- pose proof (f_equal length (record_bytes_framed r)) as Hlr. rewrite length_framed in Hlr.
  rewrite length_app, Hlr in Hfuel, Hn. destruct fuel as [|fuel]; [lia|]. cbn [replay_segment]. rewrite Hnext.
  cbn [is_some]. rewrite checked_add_ok by lia. cbn [ok_or mbind outcome_bind reading rd_header config_header wh_hardware_id].
  fold hw. pose proof (ledger_append_cases hw e L Hwf r Hr) as Hcases. unfold small in Hsmall. rewrite app_assoc in Hsmall.
  setoid_rewrite (fun v => replayed_cons r l' L n v Hr).
  destruct (ledger_append hw r L) as [[[m|]|err|] L'] eqn:Happ; [..|done].
  + exact (replay_segment_sealed fuel (pre ++ record_bytes r) l' L' m (n + 1) Hsmall).
  + apply (IH fuel); [lia|lia|done|lia|apply Hcases].
  + done.
- assert (Heq : replay_segment fuel (reading pre l) L None n = Err (SegmentWal err))
    by (destruct fuel; cbn [replay_segment]; by rewrite Hnext).
  rewrite Heq. split; [done|]. intros v. split; [done|].
  intros (rs & sealed & Hrs & -> & _ & _). destruct Hrs as [|r rs Hr _]; [done|]. by destruct (Hno r (records_bytes rs) Hr).
Qed.

Lemma start_replayed l v :
replayed l (start_ledger c) 0 v <-> exists rs, l = records_bytes rs /\ Forall (capture_record_valid hw e) rs /\
  seals_at_end rs (start_ledger c) (fst v) /\ snd v = Z.of_nat (length rs).
Proof.
unfold replayed. destruct v as [sealed n]. cbn. split.
- intros (rs & sealed' & ? & ? & ? & [= -> ->]). by exists rs.
- intros (rs & ? & ? & ? & ->). by exists rs, sealed.
Qed.
End Reader.

Lemma reader_open_iff (content : bytes) (reader : CaptureWalReader) :
  reader_open content = Ok reader <->
  exists c l, typed c /\ content = header_bytes c ++ l /\ reader = reading c (header_bytes c) l.
Proof.
  unfold reader_open. destruct (Nat.ltb_spec (length content) FILE_HEADER_BYTES) as [Hlt|Hge].
  - split; [done|]. intros (c & l & Hc & -> & _). rewrite length_app, length_header_bytes in Hlt by done. lia.
  - rewrite read_exact_eq, slice_Ok by lia. cbn [mbind outcome_bind]. rewrite drop_0, Nat.sub_0_r. split.
    + intros (w & Hw & [= <-])%outcome_bind_Ok. pose proof (decode_file_header_typed _ _ Hw) as Hc.
      apply decode_file_header_inv in Hw; [|rewrite length_take; lia].
      eexists _, (drop FILE_HEADER_BYTES content). split; [exact Hc|]. rewrite <- Hw, take_drop.
      split; [done|]. unfold reading. rewrite take_drop, length_take, Nat.min_l by lia. by destruct w.
    + intros (c & l & Hc & -> & ->). rewrite take_app_length' by (by rewrite length_header_bytes).
      rewrite decode_header_bytes by done. unfold reading. cbn [mbind outcome_bind]. by rewrite length_header_bytes.
Qed.

Lemma reader_open_no_panic (content : bytes) : no_panic (reader_open content).
Proof.
  unfold reader_open. destruct (Nat.ltb_spec (length content) FILE_HEADER_BYTES) as [|Hge]; [done|].
  rewrite read_exact_eq, slice_Ok by lia. cbn [mbind outcome_bind]. apply no_panic_bind; [|done].
  apply decode_file_header_no_panic. rewrite length_take, length_drop. lia.
Qed.

(** [m] is the window that the records [rs] of a log of configuration [c] seal,
    with their last record. *)
Definition sealed_segment (c : CaptureWalConfig) (rs : list CaptureRecord) (m : CaptureWindowManifest) : Prop :=
  Forall (capture_record_valid (cfg_hardware_id c) (cfg_boot_epoch c)) rs /\
  seals_at_end c rs (start_ledger c) (Some m).

Lemma sealed_segment_manifest (c : CaptureWalConfig) (rs : list CaptureRecord) (m : CaptureWindowManifest) :
  typed c -> sealed_segment c rs m ->
  cm_hardware_id m = cfg_hardware_id c /\ cm_boot_epoch m = cfg_boot_epoch c /\
  cm_window_ordinal m = cfg_first_window_ordinal c /\ cm_first_cursor m = cfg_recovered_cursor c /\
  typed m /\ manifest_contract m.
Proof.
  intros Hc (Hrs & rs0 & r & L0 & L' & -> & Hrun0 & Happ).
  assert (Hrun : ledger_run (cfg_hardware_id c) (rs0 ++ [r]) (start_ledger c) = Ok ([m], L')).
  { rewrite ledger_run_app, Hrun0. cbn. by rewrite Happ. }
  pose proof (ledger_run_partitions _ _ _ _ _ _ Hrs (start_ledger_wf c Hc) Hrun) as (_ & Hp).
  pose proof (ledger_run_samples _ _ _ _ _ _ Hrs (start_ledger_wf c Hc) I Hrun) as Hs%List.Forall_inv.
  destruct Hp as (Hh & He & Ho & Hf & Hw & _). destruct Hc as (Hhw & Hep & _ & Hord & _ & _ & Hne).
  split_and!; try done; (eapply sealed_manifest_ok; eauto; by rewrite Ho).
Qed.

(** The replay that validation runs on the log of [c]. *)
Lemma segment_replayed (c : CaptureWalConfig) (l content : bytes) :
  typed c -> content = header_bytes c ++ l -> Z.of_nat (length content) < 2 ^ 63 ->
  no_panic (replay_segment (length content) (reading c (header_bytes c) l) (start_ledger c) None 0) /\
  forall v, replay_segment (length content) (reading c (header_bytes c) l) (start_ledger c) None 0 = Ok v <->
    exists rs, l = records_bytes rs /\ Forall (capture_record_valid (cfg_hardware_id c) (cfg_boot_epoch c)) rs /\
      seals_at_end c rs (start_ledger c) (fst v) /\ snd v = Z.of_nat (length rs).
Proof.
  intros Hc Hl Hsize. setoid_rewrite <- start_replayed. apply replay_segment_exact; auto using start_ledger_wf.
  - rewrite Hl, length_app. lia.
  - unfold small. rewrite <- Hl. lia.
  - rewrite Hl, length_app in Hsize. lia.
Qed.

Lemma validate_capture_segment_no_panic (wal_content manifest_content : bytes) :
  Z.of_nat (length wal_content) < 2 ^ 63 -> no_panic (validate_capture_segment wal_content manifest_content).
Proof.
  intros Hsize. unfold validate_capture_segment.
  apply no_panic_bind; [apply read_capture_manifest_no_panic|]. intros m _.
  apply no_panic_bind; [apply no_panic_map_err, reader_open_no_panic|]. intros reader Hr%map_err_Ok.
  apply reader_open_iff in Hr as (c & l & Hc & Hl & ->). cbv zeta. destruct (_ || _); [done|].
  apply no_panic_bind; [by apply (segment_replayed c l)|]. intros [o n] _.
  apply no_panic_bind; [auto with rust|]. intros. by case_match.
Qed.

Lemma validate_capture_segment_sound (wal_content manifest_content : bytes) (v : CaptureSegmentValidation) :
  Z.of_nat (length wal_content) < 2 ^ 63 -> validate_capture_segment wal_content manifest_content = Ok v ->
  exists c rs m, typed c /\ wal_content = header_bytes c ++ records_bytes rs /\ sealed_segment c rs m /\
    manifest_content = manifest_bytes m /\ v = mkValidation m (Z.of_nat (length rs)).
Proof.
  intros Hsize (m & Hm & (reader & Hr%map_err_Ok & H)%outcome_bind_Ok)%outcome_bind_Ok.
  apply read_capture_manifest_iff in Hm as (Ht & Hcontract & ->).
  apply reader_open_iff in Hr as (c & l & Hc & Hl & ->). cbv zeta in H. destruct (_ || _); [done|].
  apply outcome_bind_Ok in H as ([o n] & Hrun & (m' & Ho & H)%outcome_bind_Ok).
  destruct o; [|done]. injection Ho as ->. case_bool_decide; [subst m'|done]. injection H as <-.
  apply (segment_replayed c l _ Hc Hl Hsize) in Hrun as (rs & -> & Hrs & Hs & Hn).
  cbn [fst snd] in Hs, Hn. subst n. by exists c, rs, m.
Qed.

Lemma validate_sealed_segment (c : CaptureWalConfig) (rs : list CaptureRecord) (m : CaptureWindowManifest) :
  typed c -> sealed_segment c rs m -> Z.of_nat (length (header_bytes c ++ records_bytes rs)) < 2 ^ 63 ->
  validate_capture_segment (header_bytes c ++ records_bytes rs) (manifest_bytes m)
  = Ok (mkValidation m (Z.of_nat (length rs))).
Proof.
  intros Hc Hs Hsize. destruct (sealed_segment_manifest c rs m Hc Hs) as (Hh & He & Ho & Hf & Ht & Hcontract).
  unfold validate_capture_segment. rewrite (proj2 (read_capture_manifest_iff _ m)) by done. cbn [mbind outcome_bind].
  rewrite (proj2 (reader_open_iff _ (reading c (header_bytes c) (records_bytes rs)))) by eauto.
  cbn [map_err mbind outcome_bind reading rd_header config_header wh_hardware_id wh_boot_epoch wh_first_cursor
    wh_first_window_ordinal wh_window_policy].
  rewrite Hh, He, Ho, Hf, bool_decide_eq_true_2, !Z.eqb_refl by done. cbn [negb orb].
  change (mkReader _ _ _ _) with (reading c (header_bytes c) (records_bytes rs)). destruct Hs as (Hrs & Hs).
  destruct (segment_replayed c (records_bytes rs) _ Hc eq_refl Hsize) as (_ & Hiff).
  pose proof (proj2 (Hiff (Some m, Z.of_nat (length rs))) ltac:(eauto)) as Hrun.
  unfold start_ledger in Hrun. rewrite Hrun. cbn [mbind outcome_bind ok_or]. by rewrite bool_decide_eq_true_2.
Qed.

(** Validating a sealed segment proves what it claims: for any contents of
    the two files (of less than 2^63 bytes) validation never panics, and it
    succeeds exactly when the log is the header of some configuration followed
    by the complete records of one window and nothing else (records valid for
    that stream, contiguous from the header's cursor, the last of which seals
    the window) and the other file is the encoding of that window's manifest;
    the result is the manifest and the number of records. *)
Lemma segment_validation_exact (wal_content manifest_content : bytes) :
  Z.of_nat (length wal_content) < 2 ^ 63 ->
  no_panic (validate_capture_segment wal_content manifest_content) /\
  forall v, validate_capture_segment wal_content manifest_content = Ok v <->
    exists c rs m, typed c /\ wal_content = header_bytes c ++ records_bytes rs /\ sealed_segment c rs m /\
      manifest_content = manifest_bytes m /\ v = mkValidation m (Z.of_nat (length rs)).
Proof.
  intros Hsize. split; [by apply validate_capture_segment_no_panic|]. intros v. split.
  - by apply validate_capture_segment_sound.
  - intros (c & rs & m & Hc & -> & Hs & -> & ->). by apply validate_sealed_segment.
Qed.

(** The segment of the first window of [window_records]. *)
Definition sealed_records : list CaptureRecord := take 2 window_records.
Definition sealed_manifest : CaptureWindowManifest :=
  mkManifest window_hw window_epoch 5 17 22 (Some 20) (Some 21) 2 3 0 TargetDurationReached.

Lemma segment_validation_exact_witness :
  validate_capture_segment (header_bytes sample_config ++ records_bytes sealed_records) (manifest_bytes sealed_manifest)
  = Ok (mkValidation sealed_manifest 2).
Proof.
  apply segment_validation_exact; [vm_compute; reflexivity|].
  exists sample_config, sealed_records, sealed_manifest.
  split; [exact sample_config_typed|]. split; [reflexivity|]. split; [|done]. split.
  - apply Forall_take. exact window_records_valid.
  - pose (c := sample_config).
    let run := constr:(ledger_run window_hw (take 1 window_records) (start_ledger c)) in
    let result := eval vm_compute in run in
    lazymatch result with
    | Ok (_, ?L0) =>
        let step := constr:(snd (ledger_append window_hw (CSampleChunk golden_chunk) L0)) in
        let L' := eval vm_compute in step in
        exists (take 1 window_records), (CSampleChunk golden_chunk), L0, L'
    end.
    split; [reflexivity|]. split; vm_compute; reflexivity.
Defined.
