(* ===== verification/SegmentNames.v ===== *)
(** * The names of a segment directory (crates/sensor-host/src/capture_segments.rs)

    [wal_path], [manifest_path] and the file-name side of
    [discover_segment_ordinals]: an ordinal is twenty decimal digits in the name
    of its files. Parsing a name and formatting an ordinal are inverse. *)

From stdpp Require Import strings.
From S2P Require Export Prelude.

#[local] Open Scope string_scope.
#[local] Open Scope Z_scope.
#[local] Arguments String.append : simpl nomatch.

(** [str::strip_prefix] and [str::strip_suffix]. *)
Fixpoint strip_prefix (p s : string) : option string :=
  match p, s with
  | "", _ => Some s
  | String a p, String b s => if Ascii.eqb a b then strip_prefix p s else None
  | String _ _, "" => None
  end.

Fixpoint strip_suffix (suffix s : string) : option string :=
  if String.eqb s suffix then Some ""
  else match s with
       | "" => None
       | String a s => String a <$> strip_suffix suffix s
       end.

Definition is_ascii_digit (a : Ascii.ascii) : bool :=
  (48 <=? Ascii.nat_of_ascii a)%nat && (Ascii.nat_of_ascii a <=? 57)%nat.
Definition digit_value (a : Ascii.ascii) : Z := Z.of_nat (Ascii.nat_of_ascii a) - 48.
Definition digit_ascii (d : Z) : Ascii.ascii := Ascii.ascii_of_nat (48 + Z.to_nat d).

Fixpoint all_digits (s : string) : bool :=
  match s with "" => true | String a s => is_ascii_digit a && all_digits s end.

(** The last [k] decimal digits of [n]; with [k = 20], [{n:020}] of a [u64]. *)
Fixpoint decimal (k : nat) (n : Z) : string :=
  match k with O => "" | S k => String (digit_ascii (n / 10 ^ Z.of_nat k mod 10)) (decimal k n) end.

Fixpoint parse_digits (s : string) (value : Z) : Z :=
  match s with "" => value | String a s => parse_digits s (10 * value + digit_value a) end.

(** [parse::<u64>()] of decimal digits. *)
Definition parse_u64 (s : string) : option Z :=
  let value := parse_digits s 0 in if value <? 2 ^ 64 then Some value else None.

Definition wal_path (ordinal : Z) : string := "window-" ++ decimal 20 ordinal ++ ".wal".
Definition manifest_path (ordinal : Z) : string := "window-" ++ decimal 20 ordinal ++ ".manifest".
Definition temporary_path (ordinal : Z) : string := ".window-" ++ decimal 20 ordinal ++ ".manifest.tmp".

(** The number in the name of a log; [None]: the entry is skipped. *)
Definition segment_number (name : string) : option string :=
  number ← (value ← strip_prefix "window-" name; strip_suffix ".wal" value);
  if negb (String.length number =? 20)%nat || negb (all_digits number) then None else Some number.

(** ** Names and ordinals *)

Lemma strip_prefix_Some (p s r : string) : strip_prefix p s = Some r <-> s = p ++ r.
Proof.
  revert s. induction p as [|a p IH]; intros s; cbn; [naive_solver congruence|].
  destruct s as [|b s]; [done|]. destruct (Ascii.eqb_spec a b) as [->|Hne].
  - rewrite IH. split; [by intros ->|by intros [= ->]].
  - split; [done|]. intros [= -> _]. done.
Qed.

Lemma string_app_length (s t : string) : String.length (s ++ t) = (String.length s + String.length t)%nat.
Proof. induction s as [|a s IH]; cbn; congruence. Qed.

Lemma strip_suffix_Some (suffix s r : string) : strip_suffix suffix s = Some r <-> s = r ++ suffix.
Proof.
  revert r. induction s as [|a s IH]; intros r; cbn [strip_suffix].
  - destruct (String.eqb_spec "" suffix) as [<-|Hne]; destruct r; cbn; split; intros; simplify_eq; done.
  - destruct (String.eqb_spec (String a s) suffix) as [<-|Hne].
    + split; [by intros [= <-]|]. intros H. destruct r as [|b r]; [done|].
      apply (f_equal String.length) in H. cbn in H. rewrite string_app_length in H. cbn in H. lia.
    + rewrite fmap_Some. setoid_rewrite IH. split.
      * by intros (r' & -> & ->).
      * destruct r as [|b r]; cbn; [by intros <-|]. intros [= -> ->]. eauto.
Qed.

Lemma digit_value_ascii (d : Z) : 0 <= d < 10 -> digit_value (digit_ascii d) = d.
Proof.
  intros Hd. unfold digit_value, digit_ascii. rewrite Ascii.nat_ascii_embedding by lia. lia.
Qed.

Lemma digit_ascii_value (a : Ascii.ascii) :
  is_ascii_digit a = true -> 0 <= digit_value a < 10 /\ digit_ascii (digit_value a) = a.
Proof.
  unfold is_ascii_digit, digit_value, digit_ascii. intros [H1%Nat.leb_le H2%Nat.leb_le]%andb_true_iff.
  split; [lia|]. rewrite Z2Nat.inj_sub, Nat2Z.id by lia. change (Z.to_nat 48) with 48%nat.
  replace (48 + (Ascii.nat_of_ascii a - 48))%nat with (Ascii.nat_of_ascii a) by lia. apply Ascii.ascii_nat_embedding.
Qed.

Lemma is_digit_ascii (d : Z) : 0 <= d < 10 -> is_ascii_digit (digit_ascii d) = true.
Proof.
  intros Hd. unfold is_ascii_digit, digit_ascii. rewrite Ascii.nat_ascii_embedding by lia.
  apply andb_true_iff. split; apply Nat.leb_le; lia.
Qed.

Lemma decimal_digits (k : nat) (n : Z) : String.length (decimal k n) = k /\ all_digits (decimal k n) = true.
Proof.
  induction k as [|k [IH1 IH2]]; cbn; [done|]. rewrite IH1, IH2, is_digit_ascii; [done|].
  apply Z.mod_pos_bound. lia.
Qed.

Lemma parse_decimal (k : nat) (n value : Z) :
  parse_digits (decimal k n) value = value * 10 ^ Z.of_nat k + n mod 10 ^ Z.of_nat k.
Proof.
  revert value. induction k as [|k IH]; intros value; cbn [decimal parse_digits].
  { rewrite Z.mod_1_r. lia. }
  rewrite IH, digit_value_ascii by (apply Z.mod_pos_bound; lia).
  rewrite Nat2Z.inj_succ, Z.pow_succ_r by lia. set (p := 10 ^ Z.of_nat k).
  assert (Hp : 0 < p) by (apply Z.pow_pos_nonneg; lia).
  rewrite (Z.mul_comm 10 p), Z.rem_mul_r by lia. lia.
Qed.

Lemma decimal_parse (s : string) (value : Z) :
  all_digits s = true ->
  decimal (String.length s) (parse_digits s value) = s /\
  exists v, 0 <= v < 10 ^ Z.of_nat (String.length s) /\
    parse_digits s value = value * 10 ^ Z.of_nat (String.length s) + v.
Proof.
  revert value. induction s as [|a s IH]; intros value; cbn [all_digits String.length parse_digits decimal].
  { intros _. split; [done|]. exists 0. cbn. lia. }
  intros [Ha Hs]%andb_true_iff. destruct (digit_ascii_value a Ha) as [Hd Hb].
  destruct (IH (10 * value + digit_value a) Hs) as (H1 & v & Hv & Heq).
  rewrite H1. set (p := 10 ^ Z.of_nat (String.length s)) in *.
  assert (Hp : 0 < p) by (apply Z.pow_pos_nonneg; lia). rewrite Heq.
  rewrite Z.div_add_l by lia. rewrite (Z.div_small v) by lia. rewrite Z.add_0_r.
  replace ((10 * value + digit_value a) mod 10) with (digit_value a)
    by (rewrite Z.add_comm, Z.mul_comm, Z.mod_add by lia; symmetry; apply Z.mod_small; lia).
  rewrite Hb. split; [done|]. exists (digit_value a * p + v).
  rewrite Nat2Z.inj_succ, Z.pow_succ_r by lia. fold p. nia.
Qed.

(** The names of logs, and the ordinals they stand for. *)
Lemma segment_number_path (ordinal : Z) : segment_number (wal_path ordinal) = Some (decimal 20 ordinal).
Proof.
  unfold segment_number, wal_path. rewrite (proj2 (strip_prefix_Some _ _ _) eq_refl). cbn [mbind option_bind].
  rewrite (proj2 (strip_suffix_Some _ _ _) eq_refl). cbn [mbind option_bind].
  destruct (decimal_digits 20 ordinal) as [-> ->]. done.
Qed.

Lemma segment_number_Some (name number : string) :
  segment_number name = Some number ->
  name = "window-" ++ number ++ ".wal" /\ String.length number = 20%nat /\ all_digits number = true.
Proof.
  unfold segment_number. intros (r & (v & Hp & Hs)%bind_Some & H)%bind_Some.
  apply strip_prefix_Some in Hp as ->. apply strip_suffix_Some in Hs as ->.
  destruct (Nat.eqb_spec (String.length r) 20); [|done]. destruct (all_digits r) eqn:Hd; [|done].
  by injection H as <-.
Qed.

Lemma parse_u64_decimal (ordinal : Z) : u64 ordinal -> parse_u64 (decimal 20 ordinal) = Some ordinal.
Proof.
  intros Ho. unfold parse_u64. rewrite parse_decimal. rewrite Z.mul_0_l, Z.add_0_l, Z.mod_small.
  - rewrite (proj2 (Z.ltb_lt _ _)) by ilia. done.
  - change (10 ^ Z.of_nat 20) with 100000000000000000000. ilia.
Qed.

Lemma parse_u64_Some (name number : string) (ordinal : Z) :
  segment_number name = Some number -> parse_u64 number = Some ordinal -> name = wal_path ordinal /\ u64 ordinal.
Proof.
  intros (-> & Hl & Hd)%segment_number_Some H. unfold parse_u64 in H.
  destruct (decimal_parse number 0 Hd) as (Hdec & v & Hv & Heq). rewrite Hl in *.
  destruct (Z.ltb_spec (parse_digits number 0) (2 ^ 64)); [|done]. injection H as <-.
  unfold wal_path. rewrite Hdec. split; [done|]. unfold unsigned. lia.
Qed.

Lemma wal_path_inj (a b : Z) : u64 a -> u64 b -> wal_path a = wal_path b -> a = b.
Proof.
  intros Ha Hb H. apply (f_equal segment_number) in H. rewrite !segment_number_path in H.
  apply Some_inj, (f_equal parse_u64) in H. rewrite !parse_u64_decimal in H by done. congruence.
Qed.

(** Manifests and temporary files are not logs. *)
Lemma string_app_inv_l (p s t : string) : p ++ s = p ++ t -> s = t.
Proof. induction p as [|a p IH]; cbn; [done|]. intros [= H]. auto. Qed.

Lemma decimal_app_inv (k : nat) (m n : Z) (s t : string) :
  decimal k m ++ s = decimal k n ++ t -> decimal k m = decimal k n /\ s = t.
Proof.
  revert s t. induction k as [|k IH]; intros s t; cbn [decimal String.append]; [done|].
  intros [= -> H]. apply IH in H as [-> ->]. done.
Qed.

Lemma manifest_path_inj (a b : Z) : u64 a -> u64 b -> manifest_path a = manifest_path b -> a = b.
Proof.
  intros Ha Hb H. unfold manifest_path in H. apply string_app_inv_l, decimal_app_inv in H as [H _].
  apply (f_equal parse_u64) in H. rewrite !parse_u64_decimal in H by done. congruence.
Qed.

Lemma manifest_not_wal (a b : Z) : manifest_path a <> wal_path b.
Proof. intros H. unfold manifest_path, wal_path in H. by apply string_app_inv_l, decimal_app_inv in H as [_ H]. Qed.

Lemma temporary_not_wal (a b : Z) : temporary_path a <> wal_path b.
Proof. done. Qed.

Lemma temporary_not_manifest (a b : Z) : temporary_path a <> manifest_path b.
Proof. done. Qed.

Lemma segment_number_manifest (a : Z) : segment_number (manifest_path a) = None.
Proof.
  destruct (segment_number (manifest_path a)) as [number|] eqn:H; [|done].
  apply segment_number_Some in H as (H & Hl & _). exfalso. unfold manifest_path in H. apply string_app_inv_l in H.
  apply (f_equal String.length) in H. rewrite !string_app_length in H. destruct (decimal_digits 20 a) as [Hd _].
  rewrite Hd, Hl in H. discriminate H.
Qed.

Lemma segment_number_temporary (a : Z) : segment_number (temporary_path a) = None.
Proof. done. Qed.

Lemma wal_path_number (a : Z) (number : string) :
  u64 a -> segment_number (wal_path a) = Some number -> is_Some (parse_u64 number).
Proof.
  intros Ha H. rewrite segment_number_path in H. apply Some_inj in H as <-. rewrite parse_u64_decimal by done. by eexists.
Qed.
