(* ===== verification/CaptureSink.v ===== *)
(** * The Capture sink under faults and crashes

    The append side of the log: what staging does to a batch, what a commit and
    a finish do to the file, to memory and to the poison flag under any fault of
    the disk, and what a crash of the host leaves. *)

From S2P Require Export CaptureRecovery.

(** The staging method of a record's kind; a window seal is never staged. *)
Definition stage (hw : HardwareId) (r : CaptureRecord) : batch_op SequenceCursor :=
  match r with
  | CSampleChunk chunk => stage_chunk hw chunk
  | CGap gap => stage_gap gap
  | CContinuityBreak observed => stage_continuity_break observed
  | CWindowSeal => throw EmptyBatch
  end.

(** What the types and constructors of a record guarantee. *)
Definition item_valid (r : CaptureRecord) : Prop :=
  match r with
  | CSampleChunk c => typed c /\ sample_chunk_validate c = Ok tt
  | CGap g => gap_valid g
  | CContinuityBreak b => break_valid b
  | CWindowSeal => False
  end.

(** The stream a record is offered to: the hardware of a chunk is the caller's. *)
Definition item_stream (hw : HardwareId) (r : CaptureRecord) : HardwareId * BootEpoch :=
  match r with
  | CSampleChunk c => (hw, chunk_boot_epoch (header c))
  | CGap g => (gap_hardware_id g, gap_boot_epoch g)
  | CContinuityBreak b => (break_hardware_id b, break_boot_epoch b)
  | CWindowSeal => (hw, 0)
  end.

(** The ledger's operation for a staged record. *)
Definition ledger_item (hw : HardwareId) (r : CaptureRecord) : ledger (option CaptureWindowManifest) :=
  match r with
  | CSampleChunk chunk => apply_chunk hw chunk
  | CGap gap => apply_gap gap
  | CContinuityBreak observed => apply_continuity_break observed
  | CWindowSeal => finish
  end.

Lemma ledger_append_item (hw : HardwareId) (r : CaptureRecord) (L : CaptureWindowLedger) :
  r <> CWindowSeal ->
  ledger_append hw r L =
  match ledger_item hw r L with
  | (Ok sealed, L') => (Ok sealed, L')
  | (Err err, _) => (Err err, L)
  | (Panic, _) => (Panic, L)
  end.
Proof. destruct r; intros Hr; cbn [ledger_append ledger_item]; [apply plan_commit..|done]. Qed.

Lemma ledger_item_stream (hw : HardwareId) (r : CaptureRecord) (L : CaptureWindowLedger) :
  item_valid r -> item_stream hw r <> (lg_hardware_id L, lg_boot_epoch L) ->
  exists err, ledger_item hw r L = (Err err, L).
Proof.
  assert (Hv : forall {A} hw' e' (k : unit -> ledger A), (hw', e') <> (lg_hardware_id L, lg_boot_epoch L) ->
    exists err, (validate_stream hw' e' ≫= k) L = (Err err, L)).
  { intros A hw' e' k Hne. unfold validate_stream. autorewrite with st.
    case_bool_decide as Hh; cbn [negb]; autorewrite with st; [|by eexists].
    destruct (Z.eqb_spec e' (lg_boot_epoch L)); cbn [negb]; autorewrite with st; [|by eexists].
    by subst. }
  destruct r; cbn [item_valid item_stream ledger_item]; intros Hr Hne;
    [apply (Hv _ _ _ _ Hne)..|done].
Qed.

Section Stage.
Context (c : CaptureWalConfig) (Hc : typed c).
Let hw := cfg_hardware_id c.
Let e := cfg_boot_epoch c.

(** The state of the writer after the records [rs]; [t] is what [open] cut off. *)
Definition writer_state (rs : list CaptureRecord) (L : CaptureWindowLedger) (report : CaptureWalRecovery) : Prop :=
exists ms t, processed c rs ms L /\ report = recovery_of rs ms L t.

(** The report a batch was begun on. *)
Context (base : CaptureWalRecovery).

(** A batch on the records [rs] with [staged] further ones. *)
Definition batch_state (rs staged : list CaptureRecord) (b : CaptureWalBatch) : Prop :=
base_durable_len b = Z.of_nat (log_end rs) /\
base_recovery b = base /\
writer_state (rs ++ staged) (wb_ledger b) (wb_recovery b) /\
wb_bytes b = records_bytes staged /\ wb_record_count b = Z.of_nat (length staged) /\
Forall item_valid staged.

Definition room (n : nat) : Prop := cfg_first_window_ordinal c + Z.of_nat n + 1 < 2 ^ 64.

Lemma item_record_valid r :
item_valid r -> item_stream hw r = (hw, e) -> capture_record_valid hw e r.
Proof.
destruct r; cbn; [intros (? & ?) [= Heq]; subst|intros ? [= ? ?]..|done]; auto.
Qed.

(** Whether the batch accepts the record. *)
Definition stageable (hw' : HardwareId) (r : CaptureRecord) (L : CaptureWindowLedger) : bool :=
bool_decide (item_stream hw' r = (hw, e)) && continues L r.

Lemma writer_wf rs L report :
writer_state rs L report -> room (length rs) ->
ledger_wf hw e L /\ lg_next_window_ordinal L + 1 < 2 ^ 64.
Proof.
intros (ms & t & Hp & _) Hroom. unfold room in Hroom.
destruct (processed_bounds c Hc _ _ _ Hp ltac:(lia)) as (Hwf & Ho & Hms & _). split; [done|lia].
Qed.

(** The ledger accepts the stageable records and refuses the others. *)
Lemma ledger_item_ok hw' r rs L report :
writer_state rs L report -> room (length rs) -> item_valid r ->
if stageable hw' r L
then exists sealed L', ledger_item hw' r L = (Ok sealed, L') /\ capture_record_valid hw e r /\
       ledger_append hw r L = (Ok sealed, L')
else exists err L', ledger_item hw' r L = (Err err, L').
Proof.
intros Hw Hroom Hv. destruct (writer_wf _ _ _ Hw Hroom) as (Hwf & Hord).
pose proof Hwf as (Hh & He & _). unfold stageable.
case_bool_decide as Hs; cbn [andb].
2: { destruct (ledger_item_stream hw' r L Hv) as (err & ->); [by rewrite Hh, He|]. by eexists _, _. }
assert (Hsame : item_stream hw r = (hw, e) /\ ledger_item hw' r = ledger_item hw r).
{ destruct r; cbn in *; [by injection Hs as -> ->|done..]. }
destruct Hsame as (Hs' & ->). pose proof (item_record_valid r Hv Hs') as Hr.
assert (Hne : r <> CWindowSeal) by (by intros ->).
pose proof (ledger_append_ok hw e L Hwf Hord r Hr) as Hstep. unfold step_ok in Hstep.
rewrite ledger_append_item in * by done.
destruct (continues L r).
- destruct Hstep as (sealed & L' & Heq & _). destruct (ledger_item hw r L) as [[s|err|] L1]; try discriminate Heq.
  injection Heq as <- <-. by eexists _, _.
- destruct Hstep as (err & L' & Heq). destruct (ledger_item hw r L) as [[s|err'|] L1]; try discriminate Heq.
  by eexists _, _.
Qed.

(** The counters a record is staged with. *)
Definition item_counters (r : CaptureRecord) : RecordCounters :=
mkCounters (record_samples r) (record_missing r) (record_breaks r).

Lemma writer_append rs L report r sealed L' :
writer_state rs L report -> capture_record_valid hw e r -> ledger_append hw r L = (Ok sealed, L') ->
exists windows last,
  (windows, last) = match sealed with
                    | Some m => (cr_sealed_window_count report + 1, Some m)
                    | None => (cr_sealed_window_count report, cr_last_sealed_window report)
                    end /\
  writer_state (rs ++ [r]) L'
    (mkRecovery (lg_next_cursor L') (cr_record_count report + 1)
       (cr_sample_count report + record_samples r) (cr_missing_sample_count report + record_missing r)
       (cr_continuity_break_count report + record_breaks r) windows last (cr_truncated_tail_bytes report)).
Proof.
intros (ms & t & Hp & ->) Hr Happ. pose proof (processed_snoc c _ _ _ _ _ _ Hp Hr Happ) as Hp'.
assert (Heq : forall windows last, windows = Z.of_nat (length (ms ++ manifest_list sealed)) ->
  last = list.last (ms ++ manifest_list sealed) ->
  writer_state (rs ++ [r]) L' (mkRecovery (lg_next_cursor L') (Z.of_nat (length rs) + 1)
    (total record_samples rs + record_samples r) (total record_missing rs + record_missing r)
    (total record_breaks rs + record_breaks r) windows last t)).
{ intros windows last -> ->. exists (ms ++ manifest_list sealed), t. split; [exact Hp'|].
  unfold recovery_of. rewrite !total_app, (length_app rs). cbn [total length].
  by rewrite !Z.add_0_r, Nat2Z.inj_add. }
destruct sealed as [m|]; (eexists _, _; split; [reflexivity|]); apply Heq; cbn [manifest_list recovery_of
  cr_sealed_window_count cr_last_sealed_window]; rewrite ?length_app, ?app_nil_r, ?list_last_snoc; cbn [length]; lia || done.
Qed.

Lemma writer_bounds rs L report :
writer_state rs L report -> room (length rs) ->
cr_record_count report = Z.of_nat (length rs) /\ 0 <= cr_sealed_window_count report <= cr_record_count report /\
cr_sample_count report < 2 ^ 64 /\ cr_missing_sample_count report < 2 ^ 64 /\
cr_continuity_break_count report < 2 ^ 64 /\ cr_durable_cursor report = lg_next_cursor L.
Proof.
intros (ms & t & Hp & ->) Hroom. unfold room in Hroom.
destruct (processed_bounds c Hc _ _ _ Hp ltac:(lia)) as (_ & _ & Hms & Hsum & Hpos).
cbn [recovery_of cr_record_count cr_sealed_window_count cr_sample_count cr_missing_sample_count
  cr_continuity_break_count cr_durable_cursor]. lia.
Qed.

Lemma stage_planned_ok rs staged b r sealed L' plan record :
batch_state rs staged b -> room (length (rs ++ staged) + 1) -> item_valid r ->
capture_record_valid hw e r -> ledger_append hw r (wb_ledger b) = (Ok sealed, L') ->
plan = mkPlan (wb_ledger b) L' (lg_next_window_ordinal (wb_ledger b)) sealed ->
record = record_bytes r ->
exists b', stage_planned record plan (item_counters r) b = (Ok (lg_next_cursor L'), b') /\
  batch_state rs (staged ++ [r]) b' /\ wb_ledger b' = L' /\ wb_sealed b' = is_some sealed.
Proof.
intros (Hlen & Hbase & Hw & Hbytes & Hcount & Hitems) Hroom Hitem Hr Happ -> ->.
destruct (writer_append _ _ _ _ _ _ Hw Hr Happ) as (windows & last & Hseal & Hw').
assert (Hroom' : room (length ((rs ++ staged) ++ [r]))) by (rewrite (length_app _ [r]); exact Hroom).
pose proof (writer_bounds _ _ _ Hw ltac:(unfold room in *; rewrite !length_app in *; cbn in *; lia)) as (B1 & B2 & _).
pose proof (writer_bounds _ _ _ Hw' Hroom') as (_ & _ & B3 & B4 & B5 & _).
cbn [cr_sample_count cr_missing_sample_count cr_continuity_break_count] in B3, B4, B5.
destruct Hc as (_ & _ & _ & Hord & _). unfold room, unsigned in *. rewrite !length_app in Hroom.
unfold stage_planned, commit, item_counters. autorewrite with st. cbn [plan_before plan_after plan_sealed_manifest].
cbn [rc_samples rc_missing_samples rc_continuity_breaks]. rewrite bool_decide_eq_true_2 by done. cbn [negb].
cbv [mbind st_bind]. cbn [modify mret st_ret]. cbv [mbind st_bind].
unfold wal_checked_add. rewrite length_app in B1. rewrite B1, Hcount, !checked_add_ok by lia.
cbn [ok_or lift].
destruct sealed as [m|]; injection Hseal as -> ->; rewrite ?checked_add_ok by lia; cbn [ok_or lift mbind outcome_bind];
  rewrite ?checked_add_ok by lia; cbn [ok_or lift modify mret st_ret cr_durable_cursor mbind outcome_bind];
  (eexists; split; [reflexivity|]; split; [|done]); unfold batch_state;
  cbn [base_durable_len base_recovery wb_ledger wb_recovery wb_bytes wb_record_count];
  (split; [done|]; split; [done|]; split;
    [rewrite app_assoc; rewrite B1 in Hw'; exact Hw'|]);
  rewrite Hbytes, records_bytes_app, length_app, Nat2Z.inj_add; unfold records_bytes at 3;
  cbn [fmap list_fmap concat length]; rewrite app_nil_r; split_and!; try done;
  apply Forall_app; auto.
Qed.

(** Staging: after a sealing record nothing; a record that continues the
  stream is appended to the batch; any other is refused, and the batch is
  unchanged. *)
Lemma stage_ok hw' r rs staged b :
batch_state rs staged b -> room (length (rs ++ staged) + 1) -> item_valid r ->
if wb_sealed b then stage hw' r b = (Err BatchCrossesWindowBoundary, b)
else if stageable hw' r (wb_ledger b)
then exists b', stage hw' r b = (Ok (lg_next_cursor (wb_ledger b')), b') /\ batch_state rs (staged ++ [r]) b' /\
       lg_next_cursor (wb_ledger b') = lg_next_cursor (wb_ledger b) + range_count r /\
       exists sealed, ledger_append hw r (wb_ledger b) = (Ok sealed, wb_ledger b') /\ wb_sealed b' = is_some sealed
else exists err, stage hw' r b = (Err err, b).
Proof.
intros Hb Hroom Hitem. pose proof Hb as (_ & _ & Hw & _).
assert (Hroom0 : room (length (rs ++ staged))) by (unfold room in *; lia).
assert (Heq : wb_sealed b = false -> stage hw' r b =
  match ledger_item hw' r (wb_ledger b) with
  | (Ok sealed, L') =>
      stage_planned (record_bytes r) (mkPlan (wb_ledger b) L' (lg_next_window_ordinal (wb_ledger b)) sealed)
        (item_counters r) b
  | (Err err, _) => (Err (Window err), b)
  | (Panic, _) => (Panic, b)
  end).
{ intros Hs. destruct r as [ch|g|o|]; cbn [stage ledger_item]; [..|done];
    unfold stage_chunk, stage_gap, stage_continuity_break, ensure_open_window; autorewrite with st; rewrite Hs;
    autorewrite with st; unfold plan_chunk, plan_gap, plan_continuity_break, plan.
  - destruct (apply_chunk hw' ch _) as [[sealed|err|] L']; cbn [map_err]; autorewrite with st; try done.
    destruct Hitem as (_ & Hv). unfold encode_chunk_record. by rewrite Hv.
  - by destruct (apply_gap g _) as [[sealed|err|] L'].
  - by destruct (apply_continuity_break o _) as [[sealed|err|] L']. }
destruct (wb_sealed b) eqn:Hs.
{ destruct r; [..|done]; cbn [stage]; unfold stage_chunk, stage_gap, stage_continuity_break, ensure_open_window;
    autorewrite with st; rewrite Hs; by autorewrite with st. }
rewrite (Heq eq_refl). pose proof (ledger_item_ok hw' r _ _ _ Hw Hroom0 Hitem) as Hl.
destruct (stageable hw' r (wb_ledger b)) eqn:Hst.
- destruct Hl as (sealed & L' & Hi & Hr & Happ). rewrite Hi.
  destruct (stage_planned_ok rs staged b r sealed L' _ _ Hb Hroom Hitem Hr Happ eq_refl eq_refl)
    as (b' & -> & Hb' & HL & Hsealed).
  exists b'. rewrite HL. split; [done|]. split; [done|]. split; [|by exists sealed].
  destruct (writer_wf _ _ _ Hw Hroom0) as (Hwf & Hord).
  pose proof (ledger_append_ok hw e _ Hwf Hord r Hr) as Hstep. unfold step_ok in Hstep.
  unfold stageable in Hst. apply andb_true_iff in Hst as (_ & Hcont). rewrite Hcont in Hstep.
  destruct Hstep as (sealed' & L1 & Happ' & _ & _ & Hn & _). rewrite Happ in Happ'. by injection Happ' as _ ->.
- destruct Hl as (err & L' & ->). by eexists.
Qed.

(** Staging a list stops at the first refusal. *)
Fixpoint stage_all (hw' : HardwareId) (items : list CaptureRecord) : batch_op SequenceCursor :=
match items with
| [] => b ← get; mret (cr_durable_cursor (wb_recovery b))
| [r] => stage hw' r
| r :: items => _ ← stage hw' r; stage_all hw' items
end.

Lemma stage_all_ok hw' items rs staged b :
batch_state rs staged b -> room (length (rs ++ staged) + length items) -> Forall item_valid items ->
match stage_all hw' items b with
| (Ok _, b') => batch_state rs (staged ++ items) b'
| (Err _, _) => True
| (Panic, _) => False
end.
Proof.
intros Hb Hroom Hitems. revert staged b Hb Hroom.
induction Hitems as [|r items Hr Hitems IH]; intros staged b Hb Hroom.
{ cbn [stage_all]. autorewrite with st. by rewrite app_nil_r. }
assert (Hstep : match stage hw' r b with
  | (Ok _, b') => batch_state rs (staged ++ [r]) b'
  | (Err _, _) => True | (Panic, _) => False end).
{ pose proof (stage_ok hw' r rs staged b Hb ltac:(unfold room in *; cbn [length] in Hroom; lia) Hr) as Hs.
  destruct (wb_sealed b); [by rewrite Hs|]. destruct (stageable _ _ _); [|by destruct Hs as (? & ->)].
  by destruct Hs as (b' & -> & Hb' & _). }
destruct items as [|r' items]; [exact Hstep|].
change (stage_all hw' (r :: r' :: items) b) with ((_ ← stage hw' r; stage_all hw' (r' :: items)) b).
cbv [mbind st_bind]. destruct (stage hw' r b) as [[x|err|] b']; [|done|done].
specialize (IH (staged ++ [r]) b' Hstep). rewrite <- app_assoc in IH. apply IH.
unfold room in *. rewrite !length_app in *. cbn [length] in *. lia.
Qed.
End Stage.

(** ** The sink and its disk *)

Section Disk.
Context (c : CaptureWalConfig) (Hc : typed c).

(** The end of the acknowledged bytes; [None]: nothing, not even the header. *)
Definition sure_end (sure : option (list CaptureRecord)) : nat :=
match sure with None => 0 | Some rs => log_end rs end.
Definition sure_prefix (sure : option (list CaptureRecord)) (rs : list CaptureRecord) : Prop :=
match sure with None => True | Some rs0 => rs0 `prefix_of` rs end.

(** The file is a prefix of the log of [all] that holds, durably, [sure]. *)
Definition disk_inv (sure : option (list CaptureRecord)) (all : list CaptureRecord) (f : File) : Prop :=
(exists ms L, processed c all ms L) /\ sure_prefix sure all /\
(sure_end sure <= f_synced f <= length (f_data f))%nat /\
exists k, f_data f = take k (header_bytes c ++ records_bytes all).

Definition memory_inv (rs : list CaptureRecord) (s : CaptureWalSink) : Prop :=
writer_state c rs (ws_ledger s) (ws_recovery s) /\ ws_hardware_id s = cfg_hardware_id c /\
ws_boot_epoch s = cfg_boot_epoch c /\ ws_durable_len s = Z.of_nat (log_end rs).

(** A healthy sink: the log is exactly the records in memory. *)
Definition sink_ok (sure : option (list CaptureRecord)) (rs : list CaptureRecord) (s : CaptureWalSink) : Prop :=
memory_inv rs s /\ ws_poisoned s = false /\
f_data (ws_file s) = header_bytes c ++ records_bytes rs /\ f_pos (ws_file s) = log_end rs /\
sure_prefix sure rs /\ (sure_end sure <= f_synced (ws_file s) <= log_end rs)%nat.

(** A poisoned sink: some bytes of the failed append may be on disk. *)
Definition sink_failed (sure : option (list CaptureRecord)) (rs pending : list CaptureRecord)
  (s : CaptureWalSink) : Prop :=
memory_inv rs s /\ ws_poisoned s = true /\ disk_inv sure (rs ++ pending) (ws_file s).

Lemma length_log_end rs : length (header_bytes c ++ records_bytes rs) = log_end rs.
Proof. rewrite length_app, length_header_bytes by done. done. Qed.

Lemma log_end_app rs rs' : log_end (rs ++ rs') = (log_end rs + length (records_bytes rs'))%nat.
Proof. unfold log_end. rewrite records_bytes_app, length_app. lia. Qed.

Lemma sink_ok_disk sure rs s : sink_ok sure rs s -> disk_inv sure rs (ws_file s).
Proof.
intros (((ms & t & Hp & _) & _) & _ & Hd & _ & Hpre & Hs). split; [eauto|]. split; [done|].
rewrite Hd, length_log_end. split; [done|]. exists (log_end rs). by rewrite take_ge by (rewrite length_log_end; lia).
Qed.

(** Appending and syncing under any fault of the disk. *)
Lemma write_and_sync_ok sure rs (l : bytes) s :
sink_ok sure rs s ->
match write_and_sync l s with
| (Ok _, s') =>
    exists f', s' = set_file f' s /\ f_data f' = header_bytes c ++ records_bytes rs ++ l /\
      f_pos f' = (log_end rs + length l)%nat /\ f_synced f' = (log_end rs + length l)%nat
| (Err err, s') =>
    err = Io /\ exists f' k, s' = poison (set_file f' s) /\
      f_data f' = header_bytes c ++ records_bytes rs ++ take k l /\ f_synced f' = f_synced (ws_file s)
| (Panic, _) => False
end.
Proof.
intros (_ & _ & Hd & Hpos & _ & Hs). pose proof (length_log_end rs) as Hlen.
assert (Hwrite : forall w, let f' := write_at (ws_file s) w in
  f_data f' = header_bytes c ++ records_bytes rs ++ w /\ f_pos f' = (log_end rs + length w)%nat /\
  f_synced f' = f_synced (ws_file s)).
{ intros w. unfold write_at. cbn. rewrite Hd, Hpos, take_ge, drop_ge by lia.
  rewrite app_nil_r, <- app_assoc, Nat.min_r by lia. done. }
unfold write_and_sync, or_poison, write_all. cbv [mbind st_bind].
destruct (next_fault (ws_file s)) as [k|].
{ destruct (Hwrite (take k l)) as (H1 & H2 & H3). split; [done|]. exists (write_at (ws_file s) (take k l)), k. auto. }
destruct (Hwrite l) as (H1 & H2 & H3). unfold sync. cbn [ws_file set_file].
destruct (next_fault (write_at (ws_file s) l)) as [k|].
- split; [done|]. eexists _, (length l). split; [reflexivity|]. cbn [f_data f_synced]. by rewrite firstn_all.
- eexists. split; [reflexivity|]. cbn [f_data f_pos f_synced]. rewrite H1, H2.
  split_and!; [done|done|]. rewrite !length_app, length_header_bytes by done. unfold log_end. lia.
Qed.

(** What an append of the records [rs'] to the log [rs] may lead to. *)
Definition appended_to {A : Type} (sure : option (list CaptureRecord)) (rs rs' : list CaptureRecord)
  (r : wal A) (s' : CaptureWalSink) : Prop :=
match r with
| Ok _ => sink_ok (Some (rs ++ rs')) (rs ++ rs') s'
| Err err => err = Io /\ sink_failed sure rs rs' s'
| Panic => False
end.

Lemma append_records sure rs rs' L report s :
sink_ok sure rs s -> writer_state c (rs ++ rs') L report ->
let '(r, s') := (_ ← write_and_sync (records_bytes rs');
                 modify (fun s => mkSink (ws_file s) (ws_hardware_id s) (ws_boot_epoch s) L report
                           (Z.of_nat (log_end (rs ++ rs'))) (ws_poisoned s))) s in
appended_to sure rs rs' r s'.
Proof.
intros Hok Hw. pose proof (write_and_sync_ok sure rs (records_bytes rs') s Hok) as Hwrite.
cbv [mbind st_bind]. destruct (write_and_sync (records_bytes rs') s) as [[u|err|] s']; [| |done].
- destruct Hwrite as (f' & -> & Hd & Hpos & Hsync). cbv [modify]. unfold appended_to, sink_ok, memory_inv.
  destruct Hok as ((_ & Hh & He & _) & Hpoison & _).
  cbn [ws_ledger ws_recovery ws_hardware_id ws_boot_epoch ws_durable_len ws_poisoned ws_file set_file sure_prefix sure_end].
  rewrite Hd, Hpos, Hsync, records_bytes_app, log_end_app. split_and!; auto; lia.
- destruct Hwrite as (-> & f' & k & -> & Hd & Hsync). split; [done|].
  destruct Hok as (Hmem & _ & Hd0 & _ & Hpre & Hs). split; [exact Hmem|]. split; [done|].
  cbn [ws_file poison set_file]. destruct Hw as (ms & t & Hp & _). split; [eauto|]. split.
  { destruct sure as [rs0|]; [|done]. by apply prefix_app_r. }
  rewrite Hsync. split.
  { split; [lia|]. rewrite Hd, app_assoc, length_app, length_log_end. lia. }
  exists (log_end rs + k)%nat. rewrite Hd, records_bytes_app, !app_assoc, <- length_log_end.
  by rewrite firstn_app_2.
Qed.

Lemma begin_batch_ok sure rs s :
sink_ok sure rs s ->
exists b, begin_batch s = (Ok b, s) /\ batch_state c (ws_recovery s) rs [] b /\ wb_sealed b = false.
Proof.
intros ((Hw & _ & _ & Hlen) & Hp & _). unfold begin_batch, ensure_healthy. autorewrite with st.
rewrite Hp. autorewrite with st. eexists. split; [reflexivity|]. unfold batch_state. cbn.
rewrite app_nil_r. split_and!; eauto.
Qed.

(** The file stays within the range of its lengths and ordinals. *)
Definition fits (rs : list CaptureRecord) : Prop := sized c (log_end rs).

Lemma fits_room rs : fits rs -> room c (length rs).
Proof.
intros (_ & H). unfold room, log_end in *. pose proof (records_bytes_length rs) as Hn.
change (Z.of_nat FILE_HEADER_BYTES) with 64 in H. change FILE_HEADER_BYTES with 64%nat in H. lia.
Qed.

(** A commit appends its batch, whole, or poisons the sink; an empty or a stale
  batch is refused and nothing changes. *)
Lemma commit_batch_ok sure rs base staged b s :
sink_ok sure rs s -> batch_state c base rs staged b -> fits (rs ++ staged) ->
let '(r, s') := commit_batch b s in
if decide (staged = []) then r = Err EmptyBatch /\ s' = s
else if decide (base = ws_recovery s) then appended_to sure rs staged r s'
else r = Err StaleBatch /\ s' = s.
Proof.
intros Hok (Hbase & <- & Hw & Hbytes & Hcount & _) (Hfit & _). pose proof Hok as ((_ & _ & _ & Hlen) & Hp & _).
destruct (commit_batch b s) as [r s'] eqn:Hrun. unfold commit_batch, ensure_healthy in Hrun.
revert Hrun. autorewrite with st. rewrite Hp. autorewrite with st. rewrite Hcount.
destruct (decide (staged = [])) as [->|Hne]; [by intros [= <- <-]|].
rewrite (proj2 (Z.eqb_neq _ 0)) by (destruct staged; cbn; [done|lia]). autorewrite with st.
rewrite Hbase, Hlen, Z.eqb_refl. cbn [negb orb].
destruct (decide (base_recovery b = ws_recovery s)) as [Hb|Hb].
2: { rewrite bool_decide_eq_false_2 by done. cbn [negb]. autorewrite with st. by intros [= <- <-]. }
rewrite bool_decide_eq_true_2 by done. cbn [negb]. rewrite Hbytes.
pose proof (log_end_app rs staged) as Hend. rewrite checked_add_ok by lia. autorewrite with st.
replace (Z.of_nat (log_end rs) + Z.of_nat (length (records_bytes staged))) with (Z.of_nat (log_end (rs ++ staged))) by lia.
cbn [ok_or]. autorewrite with st.
intros Hrun. pose proof (append_records sure rs staged (wb_ledger b) (wb_recovery b) s Hok Hw) as Happ.
by rewrite Hrun in Happ.
Qed.

(** [persist_*], and every client that stages a list and commits it. *)
Lemma persist_ok sure rs hw' items s :
sink_ok sure rs s -> Forall item_valid items -> fits (rs ++ items) ->
let '(r, s') := with_batch (stage_all hw' items) s in
(s' = s /\ exists err, r = Err err) \/ (items <> [] /\ appended_to sure rs items r s').
Proof.
intros Hok Hitems Hfit. destruct (begin_batch_ok sure rs s Hok) as (b & Hb & Hbatch & _).
unfold with_batch. cbv [mbind st_bind]. rewrite Hb.
pose proof (stage_all_ok c Hc (ws_recovery s) hw' items rs [] b Hbatch) as Hstage. rewrite app_nil_r in Hstage.
pose proof (fits_room _ Hfit) as Hroom. unfold room in *. rewrite length_app in Hroom.
specialize (Hstage ltac:(unfold room; lia) Hitems).
destruct (stage_all hw' items b) as [[x|err|] b'] eqn:Hrun; cbn [lift]; [|left; eauto|done].
pose proof (commit_batch_ok sure rs _ items b' s Hok Hstage Hfit) as Hcommit.
destruct (commit_batch b' s) as [r s']. destruct (decide (items = [])) as [->|Hne].
- left. destruct Hcommit as (-> & ->). eauto.
- right. by rewrite decide_True in Hcommit.
Qed.

(** An accepted record belongs to the stream of the log. *)
Lemma persist_stream sure rs hw' r s u s' :
sink_ok sure rs s -> item_valid r -> fits (rs ++ [r]) ->
with_batch (stage_all hw' [r]) s = (Ok u, s') -> item_stream hw' r = (cfg_hardware_id c, cfg_boot_epoch c).
Proof.
intros Hok Hr Hfit. destruct (begin_batch_ok sure rs s Hok) as (b & Hb & Hbatch & Hopen).
unfold with_batch. cbv [mbind st_bind]. rewrite Hb. cbn [stage_all].
pose proof (fits_room _ Hfit) as Hroom. unfold room in Hroom. rewrite length_app in Hroom. cbn [length] in Hroom.
pose proof (stage_ok c Hc (ws_recovery s) hw' r rs [] b Hbatch) as Hstage. rewrite Hopen, app_nil_r in Hstage.
specialize (Hstage ltac:(unfold room; lia) Hr). unfold stageable in Hstage.
case_bool_decide as Hs; [done|]. cbn [andb] in Hstage. by destruct Hstage as (err & ->).
Qed.

(** A finish without an open window changes nothing; with one it appends a seal. *)
Lemma finish_window_ok sure rs s :
sink_ok sure rs s -> fits (rs ++ [CWindowSeal]) ->
let '(r, s') := finish_window s in
(r = Ok None /\ s' = s) \/ (appended_to sure rs [CWindowSeal] r s' /\ r <> Ok None).
Proof.
intros Hok Hfit. pose proof Hok as ((Hw & _ & _ & Hlen) & Hp & _).
pose proof (fits_room _ Hfit) as Hroom. destruct Hfit as (Hfit & _).
assert (Hroom0 : room c (length rs)) by (unfold room in *; rewrite length_app in Hroom; lia).
pose proof (writer_wf c Hc _ _ _ Hw Hroom0) as (Hwf & Hord).
pose proof (step_outcome_ok _ _ _ _ _ Hord (finish_ok _ _ _ Hwf)) as Hstep. unfold step_ok in Hstep. cbn [continues capture_range forallb] in Hstep.
destruct Hstep as (sealed & L' & Hfin & Happended).
unfold finish_window, ensure_healthy. autorewrite with st. rewrite Hp. autorewrite with st. rewrite Hfin.
destruct sealed as [m|]; [|cbv [mret st_ret]; by left].
destruct (writer_append c rs _ _ CWindowSeal (Some m) L' Hw I Hfin) as (windows & last & Heq & Hw').
injection Heq as -> ->. pose proof (writer_bounds c Hc _ _ _ Hw' Hroom) as (_ & B & _ & _ & _ & _).
pose proof (writer_bounds c Hc _ _ _ Hw Hroom0) as (B1 & B2 & _ & _ & _ & B6).
cbn [record_samples record_missing record_breaks cr_record_count cr_sealed_window_count] in *.
rewrite !Z.add_0_r in Hw'.
assert (Hrec : wrap_record KWindowSeal [] = records_bytes [CWindowSeal]) by (cbn; by rewrite app_nil_r).
rewrite Hrec, Hlen. pose proof (log_end_app rs [CWindowSeal]) as Hend.
assert (Hsmall : Z.of_nat (length rs) + 1 < 2 ^ 64).
{ destruct Hc as (_ & _ & _ & H & _). unfold room, unsigned in *. lia. }
unfold wal_checked_add. rewrite !checked_add_ok by lia.
replace (Z.of_nat (log_end rs) + Z.of_nat (length (records_bytes [CWindowSeal])))
  with (Z.of_nat (log_end (rs ++ [CWindowSeal]))) by lia.
cbn [ok_or]. autorewrite with st.
assert (Hcur : cr_durable_cursor (ws_recovery s) = lg_next_cursor L').
{ destruct Happended as (_ & _ & -> & _). cbn [range_count capture_range]. lia. }
rewrite Hcur. pose proof (append_records sure rs [CWindowSeal] _ _ s Hok Hw') as Happ.
revert Happ. cbv [mbind st_bind]. destruct (write_and_sync _ s) as [[u|err|] s1]; cbv [modify mret st_ret];
  intros Happ; right; (split; [exact Happ|done]).
Qed.

Lemma poisoned_refuses s :
ws_poisoned s = true ->
(forall hw' items, with_batch (stage_all hw' items) s = (Err Poisoned, s)) /\
finish_window s = (Err Poisoned, s) /\ forall b, commit_batch b s = (Err Poisoned, s).
Proof.
intros Hp.
assert (He : forall {A} (k : unit -> sink_op A), (ensure_healthy ≫= k) s = (Err Poisoned, s)).
{ intros A k. unfold ensure_healthy. autorewrite with st. rewrite Hp. by autorewrite with st. }
split; [|split].
- intros. unfold with_batch, begin_batch. cbv [mbind st_bind]. pose proof (He _ (fun _ => self ← get;
    mret (mkBatch (ws_durable_len self) (ws_recovery self) (ws_ledger self) (ws_recovery self) [] 0 false))) as H.
  cbv [mbind st_bind] in H. by rewrite H.
- apply He.
- intros b. apply He.
Qed.

(** ** Opening a file *)

Lemma prefix_records sure all k j :
Forall (capture_record_valid (cfg_hardware_id c) (cfg_boot_epoch c)) all ->
sure_prefix sure all -> (sure_end sure <= FILE_HEADER_BYTES + k)%nat ->
(forall i, (i <= length all)%nat -> (length (records_bytes (take i all)) <= k)%nat -> (i <= j)%nat) ->
sure_prefix sure (take j all).
Proof.
destruct sure as [rs|]; [|done]. cbn [sure_prefix sure_end]. intros _ [rs' ->] Hend Hmax.
assert (Hj : (length rs <= j)%nat).
{ apply Hmax; [rewrite length_app; lia|]. rewrite take_app_length. unfold log_end in Hend. lia. }
rewrite take_app_ge by done. by apply prefix_app_r.
Qed.

Lemma processed_take rs ms L j :
processed c rs ms L -> exists ms' L', processed c (take j rs) ms' L'.
Proof.
intros (Hrs & Hrun). rewrite <- (take_drop j rs) in Hrs, Hrun. apply Forall_app in Hrs as (Hrs & _).
rewrite ledger_run_app in Hrun. apply outcome_bind_Ok in Hrun as ([ms' L'] & Hrun & _). exists ms', L'. by split.
Qed.

(** The log on a disk: some complete records, of which the sure ones are a
  prefix, and a torn tail. *)
Lemma disk_log sure all f :
disk_inv sure all f -> (FILE_HEADER_BYTES <= length (f_data f))%nat ->
exists rs ms L torn, rs `prefix_of` all /\ sure_prefix sure rs /\ processed c rs ms L /\
  log_content c rs torn (f_data f).
Proof.
intros ((ms & L & Hp) & Hpre & Hs & k & Hd) Hlen. pose proof Hp as (Hrs & _).
pose proof (length_log_end all) as Hall.
assert (Hk : f_data f = header_bytes c ++ take (k - FILE_HEADER_BYTES) (records_bytes all)).
{ apply (f_equal length) in Hd as Hl. rewrite length_take in Hl.
  rewrite Hd, take_app, length_header_bytes, take_ge by (rewrite ?length_header_bytes by done; done || lia).
  done. }
destruct (take_records _ _ all (k - FILE_HEADER_BYTES) Hrs) as (j & torn & Hj & Ht & Htorn & Hmax).
destruct (processed_take _ _ _ j Hp) as (ms' & L' & Hp').
exists (take j all), ms', L', torn. split; [by exists (drop j all); rewrite take_drop|].
split.
- eapply prefix_records; [done|done| |exact Hmax].
  apply (f_equal length) in Hd. rewrite length_take in Hd. lia.
- split; [done|]. split; [by rewrite Hk, Ht|done].
Qed.

Lemma sure_end_prefix sure rs : sure_prefix sure rs -> (sure_end sure <= log_end rs)%nat.
Proof. destruct sure as [rs0|]; cbn [sure_prefix sure_end]; [|lia]. intros [rs' ->]. rewrite log_end_app. lia. Qed.

(** [seek] to the end and the construction of the sink. *)
Definition opened (L : CaptureWindowLedger) (report : CaptureWalRecovery) (n : nat) (f : File) : CaptureWalSink :=
mkSink (mkFile (f_data f) n (f_synced f) (f_faults f)) (cfg_hardware_id c) (cfg_boot_epoch c) L report
  (Z.of_nat n) false.

Lemma sink_open_existing f :
f_data f <> [] ->
sink_open c f =
match recover c f with
| (Ok (L, report, n), f') => (Ok (opened L report n f'), ws_file (opened L report n f'))
| (Err err, f') => (Err err, f')
| (Panic, f') => (Panic, f')
end.
Proof.
intros Hne. destruct Hc as (_ & _ & _ & _ & _ & _ & He). unfold sink_open.
rewrite (proj2 (Z.eqb_neq _ 0)) by done. autorewrite with st.
rewrite (proj2 (Nat.eqb_neq _ 0)) by (by destruct (f_data f)). autorewrite with st. cbv [mbind st_bind].
by destruct (recover c f) as [[[[L report] n]|err|] f'].
Qed.

Lemma opened_ok sure rs ms L t f :
processed c rs ms L -> sure_prefix sure rs -> f_data f = header_bytes c ++ records_bytes rs ->
(sure_end sure <= f_synced f <= log_end rs)%nat ->
sink_ok sure rs (opened L (recovery_of rs ms L t) (log_end rs) f).
Proof.
intros Hp Hpre Hd Hs. unfold sink_ok, memory_inv, opened.
cbn [ws_ledger ws_recovery ws_hardware_id ws_boot_epoch ws_durable_len ws_poisoned ws_file f_data f_pos f_synced].
split_and!; try done; try lia. exists ms, t. done.
Qed.

(** What an existing log is opened to. *)
Lemma sink_open_ok sure all f :
disk_inv sure all f -> sized c (length (f_data f)) -> f_data f <> [] ->
match sink_open c f with
| (Ok s, f') => exists rs, rs `prefix_of` all /\ sink_ok sure rs s /\ f' = ws_file s
| (Err err, f') =>
    disk_inv sure all f' /\
    (err = Io /\ next_fault f <> None \/ err = TruncatedFileHeader /\ (length (f_data f) < FILE_HEADER_BYTES)%nat)
| (Panic, _) => False
end.
Proof.
intros Hdisk Hsize Hne. rewrite sink_open_existing by done.
destruct (decide (FILE_HEADER_BYTES <= length (f_data f))%nat) as [Hlen|Hlen].
2: { unfold recover. autorewrite with st. rewrite (proj2 (Nat.ltb_lt _ _)) by lia. autorewrite with st.
  split; [done|right; split; [done|lia]]. }
destruct (disk_log sure all f Hdisk Hlen) as (rs & ms & L & torn & Hrs & Hsure & Hp & Hcontent).
rewrite (recover_complete c Hc f rs ms L torn) by done. pose proof (sure_end_prefix _ _ Hsure) as Hend.
pose proof Hcontent as (Hd & _). pose proof (f_equal length Hd) as Hlog. rewrite length_log in Hlog by done.
destruct Hdisk as (Hall & Hpre & Hs & k & Hk).
assert (Hopen : forall f', f_data f' = header_bytes c ++ records_bytes rs ->
  (sure_end sure <= f_synced f' <= log_end rs)%nat ->
  sink_ok sure rs (opened L (recovery_of rs ms L (Z.of_nat (length torn))) (log_end rs) f'))
  by (intros; by apply opened_ok).
destruct torn as [|b torn].
- cbn [recovered_file]. exists rs. split; [done|]. split; [|done]. apply Hopen; [by rewrite Hd, app_nil_r|].
  cbn [length] in Hlog. lia.
- assert (Htake : take (log_end rs) (f_data f) = header_bytes c ++ records_bytes rs).
  { rewrite Hd, app_assoc. apply take_app_length'. by rewrite length_log_end. }
  destruct (next_fault f) as [x|] eqn:Hf.
  + split; [|by left]. split; [done|]. split; [done|]. cbn [f_synced f_data].
    rewrite length_take. split; [lia|]. exists (Nat.min (log_end rs) k). rewrite Hk, take_take. done.
  + cbn [recovered_file]. exists rs. split; [done|]. split; [|done]. apply Hopen; cbn [f_data f_synced]; [done|lia].
Qed.

Lemma processed_empty : exists ms L, processed c [] ms L.
Proof. eexists _, _. by apply processed_nil. Qed.

(** The header of a new file. *)
Lemma init_header f :
f_data f = [] ->
exists p fs,
  (_ ← write_file_header c; sync) f =
    match f_faults f with
    | Some k :: _ => (Err Io, mkFile (take k (header_bytes c)) p 0 fs)
    | _ :: Some k :: _ => (Err Io, mkFile (header_bytes c) p 0 fs)
    | _ => (Ok tt, mkFile (header_bytes c) p FILE_HEADER_BYTES fs)
    end.
Proof.
intros Hempty. destruct f as [d p y fs]. cbn in Hempty. subst d. cbn [f_faults].
assert (Hat : forall l fs', write_at (mkFile [] 0 y fs') l = mkFile l (length l) 0 (tail fs')).
{ intros l fs'. unfold write_at. cbn [f_data f_pos f_synced f_faults]. by rewrite drop_nil, app_nil_r. }
unfold write_file_header. rewrite write_header_bytes_eq by done. autorewrite with st.
unfold seek, write_all. autorewrite with st. cbv [mbind st_bind modify]. cbn [f_data f_synced f_faults].
unfold sync, next_fault.
pose proof (length_header_bytes c Hc) as Hlen.
destruct fs as [|[k|] [|[k'|] fs]]; cbn [head default from_option id f_faults];
  rewrite ?Hat; cbn [head tail default from_option id f_faults f_data f_pos]; rewrite ?Hlen;
  eexists _, _; reflexivity.
Qed.

(** Opening an empty file writes the header first. *)
Lemma sink_open_fresh f :
f_data f = [] -> fits [] ->
match sink_open c f with
| (Ok s, f') => sink_ok (Some []) [] s /\ f' = ws_file s
| (Err err, f') => err = Io /\ disk_inv None [] f' /\ f_faults f <> []
| (Panic, _) => False
end.
Proof.
intros Hempty Hfit. pose proof Hc as (_ & _ & _ & _ & _ & _ & He).
pose proof (length_header_bytes c Hc) as Hlen.
assert (Hdisk : forall k p fs, disk_inv None [] (mkFile (take k (header_bytes c)) p 0 fs)).
{ intros k p fs. split; [apply processed_empty|]. split; [done|]. cbn [f_synced f_data sure_end].
  split; [lia|]. exists k. change (records_bytes []) with (@nil byte). by rewrite app_nil_r. }
destruct (init_header f Hempty) as (p & fs & Hinit).
assert (Hopen : sink_open c f =
  match (_ ← write_file_header c; sync) f with
  | (Ok _, f') => sink_open c f'
  | (Err err, f') => (Err err, f')
  | (Panic, f') => (Panic, f')
  end).
{ rewrite Hinit. unfold sink_open at 1. rewrite (proj2 (Z.eqb_neq _ 0)) by done. autorewrite with st.
  rewrite Hempty. cbn [length Nat.eqb]. cbv [mbind st_bind] in Hinit |- *. rewrite Hinit.
  destruct (f_faults f) as [|[k|] [|[k'|] fs']]; try done;
    (rewrite sink_open_existing; [|cbn [f_data]; by intros H; rewrite H in Hlen]);
    cbn [f_data]; by destruct (recover c _) as [[[[L report] n]|err|] f']. }
assert (Hgood : forall fs', let f' := mkFile (header_bytes c) p FILE_HEADER_BYTES fs' in
  exists s, sink_open c f' = (Ok s, ws_file s) /\ sink_ok (Some []) [] s).
{ intros fs'. cbv zeta. set (f' := mkFile _ _ _ _).
  assert (Hd : f_data f' = header_bytes c ++ records_bytes [] ++ []) by (cbn; by rewrite app_nil_r).
  rewrite sink_open_existing by (cbn [f' f_data]; intros H; by rewrite H in Hlen).
  rewrite (recover_complete c Hc f' [] [] (start_ledger c) []).
  - eexists. split; [reflexivity|]. apply opened_ok; [by apply processed_nil|apply prefix_nil|exact Hd|].
    cbn [f' recovered_file f_synced sure_end]. unfold log_end. cbn [records_bytes fmap list_fmap concat length]. lia.
  - cbn [f' f_data]. rewrite Hlen. exact Hfit.
  - split; [exact Hd|]. left. cbn. lia.
  - by apply processed_nil. }
rewrite Hopen, Hinit. destruct (f_faults f) as [|[k|] [|[k'|] fs']];
  try (destruct (Hgood fs) as (s & -> & Hs); done);
  (split; [done|]; split; [|done]); try apply Hdisk.
rewrite <- (firstn_all (header_bytes c)). apply Hdisk.
Qed.

Lemma sink_ok_weaken rs0 rs s : sink_ok (Some rs0) rs s -> sink_ok None rs s.
Proof. intros (Hm & Hp & Hd & Hpos & _ & Hs). unfold sink_ok. cbn [sure_prefix sure_end]. split_and!; auto; lia. Qed.

(** ** The log as a system with crashes *)

(** The acknowledged records (ghost), the records of the log as the open sink
  knows them (ghost), and the file, closed or owned by a sink. *)
Record wal_state := mkWalState {
acked : option (list CaptureRecord);
in_log : list CaptureRecord;
device : File + CaptureWalSink
}.

Definition disk_of (x : wal_state) : File :=
match device x with inl f => f | inr s => ws_file s end.

(** What a host crash leaves of a file: everything synced, and some prefix of
  what was written after it. *)
Definition crash_image (k : nat) (faults : list fault) (f : File) : File :=
mkFile (take k (f_data f)) 0 (Nat.min k (length (f_data f))) faults.

Inductive wal_step : wal_state -> wal_state -> Prop :=
| step_open a rs f s f' rs' :
  sized c (length (f_data f)) -> fits [] -> sink_open c f = (Ok s, f') ->
  Forall (capture_record_valid (cfg_hardware_id c) (cfg_boot_epoch c)) rs' ->
  f_data (ws_file s) = header_bytes c ++ records_bytes rs' ->
  wal_step (mkWalState a rs (inl f)) (mkWalState a rs' (inr s))
| step_open_fails a rs f err f' :
  sized c (length (f_data f)) -> fits [] -> sink_open c f = (Err err, f') ->
  wal_step (mkWalState a rs (inl f)) (mkWalState a rs (inl f'))
| step_persist a rs s hw items s' :
  Forall item_valid items -> fits (rs ++ items) -> with_batch (stage_all hw items) s = (Ok tt, s') ->
  wal_step (mkWalState a rs (inr s)) (mkWalState (Some (rs ++ items)) (rs ++ items) (inr s'))
| step_persist_fails a rs s hw items err s' :
  Forall item_valid items -> fits (rs ++ items) -> with_batch (stage_all hw items) s = (Err err, s') ->
  wal_step (mkWalState a rs (inr s)) (mkWalState a rs (inr s'))
| step_finish a rs s m s' :
  fits (rs ++ [CWindowSeal]) -> finish_window s = (Ok (Some m), s') ->
  wal_step (mkWalState a rs (inr s)) (mkWalState (Some (rs ++ [CWindowSeal])) (rs ++ [CWindowSeal]) (inr s'))
| step_finish_nothing a rs s s' :
  fits (rs ++ [CWindowSeal]) -> finish_window s = (Ok None, s') ->
  wal_step (mkWalState a rs (inr s)) (mkWalState a rs (inr s'))
| step_finish_fails a rs s err s' :
  fits (rs ++ [CWindowSeal]) -> finish_window s = (Err err, s') ->
  wal_step (mkWalState a rs (inr s)) (mkWalState a rs (inr s'))
| step_close a rs s :
  wal_step (mkWalState a rs (inr s)) (mkWalState a rs (inl (ws_file s)))
| step_crash a rs d k faults :
  (f_synced (disk_of (mkWalState a rs d)) <= k)%nat ->
  wal_step (mkWalState a rs d) (mkWalState a rs (inl (crash_image k faults (disk_of (mkWalState a rs d))))).

(** From a file that does not exist yet, on any disk. *)
Inductive wal_reachable : wal_state -> Prop :=
| wal_start faults : wal_reachable (mkWalState None [] (inl (mkFile [] 0 0 faults)))
| wal_next x y : wal_reachable x -> wal_step x y -> wal_reachable y.

Definition wal_inv (x : wal_state) : Prop :=
match device x with
| inl f => exists all, disk_inv (acked x) all f
| inr s => sink_ok (acked x) (in_log x) s \/ exists pending, sink_failed (acked x) (in_log x) pending s
end.

Lemma disk_inv_crash sure all f k faults :
disk_inv sure all f -> (f_synced f <= k)%nat -> disk_inv sure all (crash_image k faults f).
Proof.
intros (Hall & Hpre & Hs & n & Hn) Hk. split; [done|]. split; [done|]. cbn [f_synced f_data crash_image].
split; [rewrite length_take; lia|]. exists (Nat.min k n). by rewrite Hn, take_take.
Qed.

Lemma records_bytes_inj rs rs' :
Forall (capture_record_valid (cfg_hardware_id c) (cfg_boot_epoch c)) rs ->
Forall (capture_record_valid (cfg_hardware_id c) (cfg_boot_epoch c)) rs' ->
records_bytes rs = records_bytes rs' -> rs = rs'.
Proof.
intros Hrs. revert rs'. induction Hrs as [|r rs Hr _ IH]; intros rs' Hrs' Heq.
- destruct rs' as [|r' rs']; [done|]. pose proof (records_bytes_length (r' :: rs')) as Hl.
  rewrite <- Heq in Hl. cbn in Hl. lia.
- destruct Hrs' as [|r' rs' Hr' Hrs'].
  { pose proof (records_bytes_length (r :: rs)) as Hl. rewrite Heq in Hl. cbn in Hl. lia. }
  change (records_bytes (r :: rs)) with (record_bytes r ++ records_bytes rs) in Heq.
  change (records_bytes (r' :: rs')) with (record_bytes r' ++ records_bytes rs') in Heq.
  rewrite !record_bytes_framed in Heq.
  pose proof (record_data_length _ _ _ Hr) as H1. pose proof (record_data_length _ _ _ Hr') as H2.
  pose proof (framed_prefix (record_data r) (records_bytes rs) ltac:(lia)) as P1.
  pose proof (framed_prefix (record_data r') (records_bytes rs') ltac:(lia)) as P2.
  rewrite Heq, P2 in P1.
  apply app_inj_1 in Heq as [Hf Heq]; [|rewrite !length_framed; lia].
  apply (f_equal (drop 4)) in Hf. unfold framed in Hf. rewrite !drop_app_length' in Hf by done.
  apply app_inj_1 in Hf as [Hd _]; [|lia].
  pose proof Hc as (Hhw & He & _).
  pose proof (proj2 (decode_record_iff _ _ Hhw He (record_data r) r) (conj Hr eq_refl)) as D1.
  rewrite Hd in D1. rewrite (proj2 (decode_record_iff _ _ Hhw He (record_data r') r') (conj Hr' eq_refl)) in D1.
  injection D1 as ->. f_equal. by apply IH.
Qed.

Lemma sink_ok_processed sure rs s : sink_ok sure rs s -> exists ms, processed c rs ms (ws_ledger s).
Proof. intros (((ms & t & Hp & _) & _) & _). eauto. Qed.

Lemma disk_inv_open a all f :
disk_inv a all f -> sized c (length (f_data f)) -> fits [] ->
match sink_open c f with
| (Ok s, f') => exists rs, sink_ok a rs s
| (Err err, f') => exists all', disk_inv a all' f'
| (Panic, _) => False
end.
Proof.
intros Hdisk Hsize Hfit. destruct (decide (f_data f = [])) as [Hempty|Hne].
- assert (a = None) as ->.
  { destruct a as [rs|]; [|done]. destruct Hdisk as (_ & _ & Hs & _). rewrite Hempty in Hs.
    cbn [sure_end length] in Hs. unfold log_end in Hs. change FILE_HEADER_BYTES with 64%nat in Hs. lia. }
  pose proof (sink_open_fresh f Hempty Hfit) as Hopen.
  destruct (sink_open c f) as [[s|err|] f']; [| |done].
  + exists []. by eapply sink_ok_weaken, Hopen.
  + exists []. apply Hopen.
- pose proof (sink_open_ok a all f Hdisk Hsize Hne) as Hopen.
  destruct (sink_open c f) as [[s|err|] f']; [| |done].
  + destruct Hopen as (rs & _ & Hok & _). eauto.
  + exists all. apply Hopen.
Qed.

Definition sink_inv (a : option (list CaptureRecord)) (rs : list CaptureRecord) (s : CaptureWalSink) : Prop :=
sink_ok a rs s \/ exists pending, sink_failed a rs pending s.

(** An append from any sink: acknowledged, or the sink is poisoned, or nothing
  happened. *)
Lemma persist_inv a rs s hw' items :
sink_inv a rs s -> Forall item_valid items -> fits (rs ++ items) ->
match with_batch (stage_all hw' items) s with
| (Ok _, s') => sink_ok (Some (rs ++ items)) (rs ++ items) s'
| (Err _, s') => sink_inv a rs s'
| (Panic, _) => False
end.
Proof.
intros [Hok|(pending & Hfail)] Hitems Hfit.
- pose proof (persist_ok a rs hw' items s Hok Hitems Hfit) as Hp.
  destruct (with_batch _ s) as [r s']. destruct Hp as [(-> & err & ->)|(_ & Hp)]; [by left|].
  destruct r as [[]|err|]; [exact Hp|right; eexists; apply Hp|done].
- destruct (poisoned_refuses s) as (H & _); [apply Hfail|]. rewrite H. right; eauto.
Qed.

Lemma finish_inv a rs s :
sink_inv a rs s -> fits (rs ++ [CWindowSeal]) ->
match finish_window s with
| (Ok (Some _), s') => sink_ok (Some (rs ++ [CWindowSeal])) (rs ++ [CWindowSeal]) s'
| (Ok None, s') => s' = s
| (Err _, s') => sink_inv a rs s'
| (Panic, _) => False
end.
Proof.
intros [Hok|(pending & Hfail)] Hfit.
- pose proof (finish_window_ok a rs s Hok Hfit) as Hp. destruct (finish_window s) as [r s'].
  destruct Hp as [(-> & ->)|(Hp & Hne)]; [done|].
  destruct r as [[m|]|err|]; [exact Hp|done|right; eexists; apply Hp|done].
- destruct (poisoned_refuses s) as (_ & H & _); [apply Hfail|]. rewrite H. right; eauto.
Qed.

Lemma sink_inv_disk a rs s : sink_inv a rs s -> exists all, disk_inv a all (ws_file s).
Proof. intros [Hok|(pending & _ & _ & Hd)]; [exists rs; by apply sink_ok_disk|eauto]. Qed.

Lemma wal_inv_disk x : wal_inv x -> exists all, disk_inv (acked x) all (disk_of x).
Proof. unfold wal_inv, disk_of. destruct (device x); [done|apply sink_inv_disk]. Qed.

Lemma wal_inv_step x y : wal_inv x -> wal_step x y -> wal_inv y.
Proof.
intros Hinv Hstep. pose proof (wal_inv_disk x Hinv) as (all & Hdisk).
destruct Hstep as [a rs f s f' rs' Hsize Hfit Hopen Hrs' Hdata|a rs f err f' Hsize Hfit Hopen
  |a rs s hw items s' Hitems Hfit Hrun|a rs s hw items err s' Hitems Hfit Hrun|a rs s m s' Hfit Hrun
  |a rs s s' Hfit Hrun|a rs s err s' Hfit Hrun|a rs s|a rs d k faults Hk];
  unfold wal_inv in *; cbn [device acked in_log disk_of] in *.
- pose proof (disk_inv_open a all f Hdisk Hsize Hfit) as H. rewrite Hopen in H. destruct H as (rs'' & Hok).
  left. assert (rs'' = rs') as ->; [|done]. destruct (sink_ok_processed _ _ _ Hok) as (ms & Hp & _).
  apply records_bytes_inj; [done..|]. destruct Hok as (_ & _ & Hd & _). rewrite Hd in Hdata. by simplify_list_eq.
- pose proof (disk_inv_open a all f Hdisk Hsize Hfit) as H. by rewrite Hopen in H.
- pose proof (persist_inv a rs s hw items Hinv Hitems Hfit) as H. rewrite Hrun in H. by left.
- pose proof (persist_inv a rs s hw items Hinv Hitems Hfit) as H. by rewrite Hrun in H.
- pose proof (finish_inv a rs s Hinv Hfit) as H. rewrite Hrun in H. by left.
- pose proof (finish_inv a rs s Hinv Hfit) as H. rewrite Hrun in H. by subst.
- pose proof (finish_inv a rs s Hinv Hfit) as H. by rewrite Hrun in H.
- eauto.
- exists all. by apply disk_inv_crash.
Qed.

Lemma wal_reachable_inv x : wal_reachable x -> wal_inv x.
Proof.
induction 1 as [faults|x y _ IH Hstep]; [|by eapply wal_inv_step].
exists []. split; [apply processed_empty|]. split; [done|]. cbn. split; [lia|]. by exists 0%nat.
Qed.
End Disk.

(** ** Properties *)

(** C2. Acknowledged records survive: in every state the log can reach from a
    file that does not exist - by opening, staging and committing batches of
    valid records, finishing windows, closing and host crashes, under any
    faults of writes and syncs - a host crash that keeps at least the synced
    bytes leaves a file that opens, on a working disk, to a log whose records
    begin with every record acknowledged so far, in order and without change;
    the ledger is the one those records build and the durable cursor its next
    cursor. *)
Theorem acknowledged_records_survive (c : CaptureWalConfig) (x : wal_state) (rs : list CaptureRecord) (k : nat) :
  typed c -> wal_reachable c x -> acked x = Some rs -> (f_synced (disk_of x) <= k)%nat ->
  sized c (length (f_data (disk_of x))) ->
  exists s rs' ms,
    sink_open c (crash_image k [] (disk_of x)) = (Ok s, ws_file s) /\ rs `prefix_of` rs' /\
    processed c rs' ms (ws_ledger s) /\ f_data (ws_file s) = header_bytes c ++ records_bytes rs' /\
    cr_durable_cursor (ws_recovery s) = lg_next_cursor (ws_ledger s).
Proof.
  intros Hc Hreach Hacked Hk Hsize. destruct (wal_inv_disk c Hc x (wal_reachable_inv c Hc x Hreach)) as (all & Hdisk).
  rewrite Hacked in Hdisk. apply (disk_inv_crash c _ _ _ k []) in Hdisk; [|done].
  pose proof Hdisk as (_ & _ & (Hlow & Hsync) & _). cbn [sure_end] in Hlow. unfold log_end in Hlow.
  assert (Hne : f_data (crash_image k [] (disk_of x)) <> []).
  { intros H. rewrite H in Hsync. cbn [length] in Hsync. change FILE_HEADER_BYTES with 64%nat in Hlow. lia. }
  assert (Hsz : sized c (length (f_data (crash_image k [] (disk_of x))))).
  { cbn [f_data crash_image]. rewrite length_take. unfold sized in *. lia. }
  pose proof (sink_open_ok c Hc _ all _ Hdisk Hsz Hne) as Hopen.
  destruct (sink_open c _) as [[s|err|] f']; [| |done].
  - destruct Hopen as (rs' & _ & Hok & ->). destruct (sink_ok_processed c _ _ _ Hok) as (ms & Hp).
    destruct Hok as (((ms' & t & _ & Hrep) & _) & _ & Hd & _ & Hpre & _).
    exists s, rs', ms. split_and!; try done. by rewrite Hrep.
  - destruct Hopen as (_ & [(_ & H)|(_ & H)]); [done|]. change FILE_HEADER_BYTES with 64%nat in *. lia.
Qed.

(** C12. The memory of a live sink is the replay of its file: whenever a sink is
    open and healthy, recovering its file gives its own ledger, its own
    counters and cursor, and ends where it will append next; whenever it is
    poisoned, every append is refused and changes nothing. Appending valid
    records never panics in either state. *)
Theorem live_sink_is_replay (c : CaptureWalConfig) (x : wal_state) (s : CaptureWalSink) :
  typed c -> wal_reachable c x -> device x = inr s -> sized c (length (f_data (ws_file s))) ->
  (if ws_poisoned s
   then (forall hw items, with_batch (stage_all hw items) s = (Err Poisoned, s)) /\
        finish_window s = (Err Poisoned, s) /\ (forall b, commit_batch b s = (Err Poisoned, s))
   else exists report n,
     recover c (ws_file s) = (Ok (ws_ledger s, report, n), ws_file s) /\
     Z.of_nat n = ws_durable_len s /\ f_pos (ws_file s) = n /\ length (f_data (ws_file s)) = n /\
     report = mkRecovery (cr_durable_cursor (ws_recovery s)) (cr_record_count (ws_recovery s))
       (cr_sample_count (ws_recovery s)) (cr_missing_sample_count (ws_recovery s))
       (cr_continuity_break_count (ws_recovery s)) (cr_sealed_window_count (ws_recovery s))
       (cr_last_sealed_window (ws_recovery s)) 0) /\
  forall hw items, Forall item_valid items -> fits c (in_log x ++ items) ->
    no_panic (fst (with_batch (stage_all hw items) s)).
Proof.
  intros Hc Hreach Hdev Hsize. pose proof (wal_reachable_inv c Hc x Hreach) as Hinv.
  unfold wal_inv in Hinv. rewrite Hdev in Hinv. split.
  - destruct Hinv as [Hok|(pending & _ & Hp & _)]; [|rewrite Hp; by apply poisoned_refuses].
    destruct Hok as (((ms & t & Hp & Hrep) & _ & _ & Hlen) & -> & Hd & Hpos & _ & _).
    exists (recovery_of (in_log x) ms (ws_ledger s) 0), (log_end (in_log x)).
    rewrite (recover_complete c Hc (ws_file s) (in_log x) ms (ws_ledger s) []); [|done| |done].
    + rewrite Hrep, Hpos, Hlen, Hd, length_log_end by done. done.
    + split; [by rewrite app_nil_r|]. left. cbn. lia.
  - intros hw items Hitems Hfit. pose proof (persist_inv c Hc _ _ s hw items Hinv Hitems Hfit) as H.
    by destruct (with_batch _ s) as [[u|err|] s'].
Qed.

(** *** A run with a failed sync *)

Definition sample_gap : CaptureRecord := CGap (mkGap window_hw window_epoch 17 3 JournalOverflow).
(** The header is written and synced, the first gap too; the sync of the second
    record fails. *)
Definition faulty_disk : File := mkFile [] 0 0 [None; None; None; None; None; Some 0%nat].

Definition opened_from (f : File) : CaptureWalSink :=
  match sink_open sample_config f with
  | (Ok s, _) => s
  | _ => mkSink f [] 0 (start_ledger sample_config) (recovery_start sample_config) 0 true
  end.
Definition opened_sink : CaptureWalSink := opened_from faulty_disk.
Definition committed_sink : CaptureWalSink := snd (with_batch (stage_all window_hw [sample_gap]) opened_sink).
Definition failed_sink : CaptureWalSink :=
  snd (with_batch (stage_all window_hw [CSampleChunk golden_chunk]) committed_sink).

Lemma failed_sink_reachable :
  wal_reachable sample_config (mkWalState (Some [sample_gap]) [sample_gap] (inr failed_sink)).
Proof.
  pose proof window_records_valid as Hv.
  apply (wal_next _ (mkWalState (Some ([] ++ [sample_gap])) ([] ++ [sample_gap]) (inr committed_sink))).
  - apply (wal_next _ (mkWalState None [] (inr opened_sink))).
    + apply (wal_next _ (mkWalState None [] (inl faulty_disk))); [apply wal_start|].
      apply (step_open _ _ _ _ _ (ws_file opened_sink));
        [split; vm_compute; reflexivity|split; vm_compute; reflexivity|vm_compute; reflexivity|constructor
        |vm_compute; reflexivity].
    + apply (step_persist _ _ _ _ window_hw); [|split; vm_compute; reflexivity|vm_compute; reflexivity].
      repeat constructor; typed_by_compute.
  - apply (step_persist_fails _ _ _ _ window_hw [CSampleChunk golden_chunk] Io);
      [|split; vm_compute; reflexivity|vm_compute; reflexivity].
    repeat constructor; typed_by_compute.
Qed.

Lemma acknowledged_records_survive_witness :
  exists s rs' ms,
    sink_open sample_config (crash_image 100 [] (ws_file failed_sink)) = (Ok s, ws_file s) /\
    [sample_gap] `prefix_of` rs' /\ processed sample_config rs' ms (ws_ledger s) /\
    f_data (ws_file s) = header_bytes sample_config ++ records_bytes rs' /\
    cr_durable_cursor (ws_recovery s) = lg_next_cursor (ws_ledger s).
Proof.
  apply (acknowledged_records_survive sample_config _ [sample_gap] 100 sample_config_typed failed_sink_reachable eq_refl).
  - vm_compute. lia.
  - split; vm_compute; reflexivity.
Defined.

Lemma live_sink_is_replay_witness :
  ws_poisoned failed_sink = true /\ finish_window failed_sink = (Err Poisoned, failed_sink).
Proof.
  assert (Hp : ws_poisoned failed_sink = true) by (vm_compute; reflexivity). split; [exact Hp|].
  destruct (live_sink_is_replay sample_config _ failed_sink sample_config_typed failed_sink_reachable eq_refl)
    as [H _]; [split; vm_compute; reflexivity|].
  rewrite Hp in H. apply H.
Defined.

(** Reopening after a failed sync counts the bytes the sync did not cover: the
    durable cursor of the new sink is 22, and a host crash that keeps every
    synced byte takes it back to 20. *)
Lemma reopened_cursor_not_durable :
  exists s s',
    sink_open sample_config (ws_file failed_sink) = (Ok s, ws_file s) /\
    cr_durable_cursor (ws_recovery s) = 22 /\
    sink_open sample_config (crash_image (f_synced (ws_file s)) [] (ws_file s)) = (Ok s', ws_file s') /\
    cr_durable_cursor (ws_recovery s') = 20.
Proof.
  set (s := opened_from (ws_file failed_sink)).
  exists s, (opened_from (crash_image (f_synced (ws_file s)) [] (ws_file s))).
  repeat split; vm_compute; reflexivity.
Qed.
