(* ===== verification/CaptureSegments.v ===== *)
(** * Segment directories (crates/sensor-host/src/capture_segments.rs)

    One recorded stream as a directory of physical segments: each holds exactly
    one window, its manifest is published when it is sealed, and the next
    segment starts at the cursor and the ordinal that follow. *)

From stdpp Require Import strings gmap sorting.
From S2P Require Export SegmentNames CaptureReader CaptureSink.

#[local] Open Scope Z_scope.

(** The directory of one stream, which the stream owns: its files by name, the
    outcomes the operating system has in store for operations on the directory
    itself ([true]: it fails), and the faults of the files created from now on. *)
Record Directory := mkDirectory {
  d_entries : gmap string File;
  d_faults : list bool;
  d_new : list (list fault)
}.

Abbreviation dir_op := (st Directory CaptureSegmentError).

(** Creating, listing and syncing the directory, and renaming in it. *)
Definition directory_call : dir_op unit := fun d =>
  match d_faults d with
  | true :: faults => (Err SegmentIo, mkDirectory (d_entries d) faults (d_new d))
  | _ :: faults => (Ok tt, mkDirectory (d_entries d) faults (d_new d))
  | [] => (Ok tt, d)
  end.

Definition sync_directory : dir_op unit := directory_call.

Definition path_exists (name : string) : dir_op bool :=
  gets (fun d => bool_decide (is_Some (d_entries d !! name))).

Definition set_entries (entries : gmap string File) (d : Directory) : Directory :=
  mkDirectory entries (d_faults d) (d_new d).

(** The file that [OpenOptions::create] opens. *)
Definition open_or_create (name : string) (d : Directory) : File * Directory :=
  match d_entries d !! name with
  | Some f => (f, d)
  | None =>
      let f := mkFile [] 0 0 (default [] (head (d_new d))) in
      (f, mkDirectory (<[name := f]> (d_entries d)) (d_faults d) (tail (d_new d)))
  end.

(** [CaptureWalSink::open] on a path: the sink holds the open file; the entry
    keeps the content it had when the call returned. *)
Definition wal_open (name : string) (config : CaptureWalConfig) : dir_op CaptureWalSink := fun d =>
  let '(file, d) := open_or_create name d in
  let '(r, file) := sink_open config file in
  (map_err SegmentWal r, set_entries (<[name := file]> (d_entries d)) d).

(** The values of a stable sort and of an unstable one are the same. *)
Fixpoint ordinals_of (names : list string) : segment (list Z) :=
  match names with
  | [] => Ok []
  | name :: names =>
      match segment_number name with
      | None => ordinals_of names
      | Some number =>
          ordinal ← ok_or (parse_u64 number) InvalidSegmentName;
          ordinals ← ordinals_of names;
          Ok (ordinal :: ordinals)
      end
  end.

Fixpoint adjacent_equal (l : list Z) : bool :=
  match l with
  | a :: ((b :: _) as rest) => (a =? b) || adjacent_equal rest
  | _ => false
  end.

(** The order in which the operating system lists the names does not matter. *)
Definition discover_segment_ordinals : dir_op (list Z) :=
  _ ← directory_call;
  names ← gets (fun d => map fst (map_to_list (d_entries d)));
  ordinals ← lift (ordinals_of names);
  let ordinals := merge_sort Z.le ordinals in
  if adjacent_equal ordinals then throw DuplicateSegmentOrdinal else mret ordinals.

(** [None]: the directory does not exist. *)
Definition inspect_capture_stream_origin (directory : option Directory) : segment (option CaptureWalHeader) :=
  match directory with
  | None => Ok None
  | Some d =>
      match discover_segment_ordinals d with
      | (Ok ordinals, d) =>
          match ordinals with
          | [] => Ok None
          | first_ordinal :: _ =>
              content ← ok_or (f_data <$> d_entries d !! wal_path first_ordinal) SegmentIo;
              reader ← map_err SegmentWal (reader_open content);
              let header := rd_header reader in
              if negb (wh_first_window_ordinal header =? first_ordinal)
              then Err (OriginOrdinalMismatch first_ordinal (wh_first_window_ordinal header))
              else Ok (Some header)
          end
      | (Err e, _) => Err e
      | (Panic, _) => Panic
      end
  end.

Definition validate_segment_manifest (manifest : CaptureWindowManifest) (ordinal : Z)
    (first_cursor durable_cursor : SequenceCursor) : segment unit :=
  if negb (cm_window_ordinal manifest =? ordinal)
  then Err (ManifestOrdinalMismatch ordinal (cm_window_ordinal manifest))
  else if negb (cm_first_cursor manifest =? first_cursor) then Err ManifestFirstCursorMismatch
  else if negb (cm_end_exclusive manifest =? durable_cursor) then Err (DataAfterSealedWindow ordinal)
  else Ok tt.

(** An operation on the entry [name], which it may leave half done. *)
Definition on_file {A : Type} (name : string) (m : file_op A) : dir_op A := fun d =>
  match d_entries d !! name with
  | Some f => let '(r, f) := m f in (map_err (fun _ => SegmentIo) r, set_entries (<[name := f]> (d_entries d)) d)
  | None => (Err SegmentIo, d)
  end.

(** [create(true).truncate(true)]. *)
Definition create_truncated (name : string) : dir_op unit := fun d =>
  let '(f, d) := open_or_create name d in
  (Ok tt, set_entries (<[name := mkFile [] 0 0 (f_faults f)]> (d_entries d)) d).

Definition rename (from to : string) : dir_op unit :=
  _ ← directory_call;
  file ← gets (fun d => d_entries d !! from);
  file ← lift (ok_or file SegmentIo);
  modify (fun d => set_entries (<[to := file]> (delete from (d_entries d))) d).

Definition publish_manifest (manifest : CaptureWindowManifest) : dir_op unit :=
  let destination := manifest_path (cm_window_ordinal manifest) in
  existing ← gets (fun d => d_entries d !! destination);
  match existing with
  | Some file =>
      existing ← lift (read_capture_manifest (f_data file));
      if bool_decide (existing = manifest) then mret tt
      else throw (ManifestConflict (cm_window_ordinal manifest))
  | None =>
      let temporary := temporary_path (cm_window_ordinal manifest) in
      content ← lift (encode_manifest manifest);
      _ ← create_truncated temporary;
      _ ← on_file temporary (write_all content);
      _ ← on_file temporary sync;
      _ ← rename temporary destination;
      sync_directory
  end.

Record CaptureSegmentStream := mkStream {
  ss_directory : Directory;
  ss_base_config : CaptureWalConfig;
  ss_current_ordinal : Z;
  ss_current : CaptureWalSink
}.

Abbreviation stream_op := (st CaptureSegmentStream CaptureSegmentError).

(** [CaptureWalConfig { recovered_cursor, first_window_ordinal, ..base_config }]. *)
Definition with_start (base : CaptureWalConfig) (cursor : SequenceCursor) (ordinal : Z) : CaptureWalConfig :=
  mkConfig (cfg_hardware_id base) (cfg_boot_epoch base) cursor ordinal (cfg_window_policy base).

(** The loop of [open] over the ordinals it found. *)
Fixpoint open_segments (ordinals : list Z) (base_config : CaptureWalConfig) (expected_ordinal : Z)
    (expected_cursor : SequenceCursor) (current : option CaptureWalSink) : dir_op (Z * option CaptureWalSink) :=
  match ordinals with
  | [] => mret (expected_ordinal, current)
  | ordinal :: rest =>
      if negb (ordinal =? expected_ordinal) then throw (NonConsecutiveSegment expected_ordinal ordinal)
      else
        sink ← wal_open (wal_path ordinal) (with_start base_config expected_cursor ordinal);
        let recovery := ws_recovery sink in
        if cr_sealed_window_count recovery =? 0 then
          if negb (length rest =? 0)%nat then throw (UnsealedSegmentBeforeSuccessor ordinal)
          else
            published ← path_exists (manifest_path ordinal);
            if (published : bool) then throw (ManifestForUnsealedSegment ordinal)
            else open_segments rest base_config expected_ordinal expected_cursor (Some sink)
        else if cr_sealed_window_count recovery =? 1 then
          manifest ← lift (ok_or (cr_last_sealed_window recovery) MissingRecoveredManifest);
          _ ← lift (validate_segment_manifest manifest ordinal expected_cursor (cr_durable_cursor recovery));
          _ ← publish_manifest manifest;
          expected_ordinal ← lift (ok_or (checked_add 64 expected_ordinal 1) OrdinalOverflow);
          current ← (if (length rest =? 0)%nat then
                       next ← wal_open (wal_path expected_ordinal)
                                (with_start base_config (cm_end_exclusive manifest) expected_ordinal);
                       mret (Some next)
                     else mret current);
          open_segments rest base_config expected_ordinal (cm_end_exclusive manifest) current
        else throw (MultipleWindowsInSegment ordinal (cr_sealed_window_count recovery))
  end.

(** [CaptureSegmentStream::open] on the directory. *)
Definition stream_open (base_config : CaptureWalConfig) : dir_op CaptureSegmentStream :=
  _ ← directory_call;
  _ ← sync_directory;
  _ ← sync_directory;
  ordinals ← discover_segment_ordinals;
  match ordinals with
  | [] =>
      current ← wal_open (wal_path (cfg_first_window_ordinal base_config)) base_config;
      directory ← get;
      mret (mkStream directory base_config (cfg_first_window_ordinal base_config) current)
  | _ =>
      '(ordinal, current) ←
        open_segments ordinals base_config (cfg_first_window_ordinal base_config)
          (cfg_recovered_cursor base_config) None;
      current ← lift (ok_or current MissingCurrentSegment);
      directory ← get;
      mret (mkStream directory base_config ordinal current)
  end.

Definition on_directory {A : Type} (m : dir_op A) : stream_op A :=
  zoom ss_directory (fun d s => mkStream d (ss_base_config s) (ss_current_ordinal s) (ss_current s)) id m.

Definition on_current {A : Type} (m : sink_op A) : stream_op A :=
  zoom ss_current (fun k s => mkStream (ss_directory s) (ss_base_config s) (ss_current_ordinal s) k) SegmentWal m.

(** The directory with the file that the open sink has written. *)
Definition stream_files (s : CaptureSegmentStream) : gmap string File :=
  <[wal_path (ss_current_ordinal s) := ws_file (ss_current s)]> (d_entries (ss_directory s)).

(** [self.current = sink]: the file of the previous sink is closed. *)
Definition replace_current (ordinal : Z) (sink : CaptureWalSink) (s : CaptureSegmentStream) : CaptureSegmentStream :=
  mkStream (set_entries (stream_files s) (ss_directory s)) (ss_base_config s) ordinal sink.

(** The loop of [rotate_if_needed]. *)
Fixpoint rotate (fuel : nat) : stream_op unit :=
  self ← get;
  let recovery := ws_recovery (ss_current self) in
  if cr_sealed_window_count recovery =? 0 then mret tt
  else if cr_sealed_window_count recovery =? 1 then
    match fuel with
    | O => lift Panic
    | S fuel =>
        manifest ← lift (ok_or (cr_last_sealed_window recovery) MissingRecoveredManifest);
        _ ← lift (validate_segment_manifest manifest (cm_window_ordinal manifest) (cm_first_cursor manifest)
                    (cr_durable_cursor recovery));
        _ ← on_directory (publish_manifest manifest);
        next_ordinal ← lift (ok_or (checked_add 64 (cm_window_ordinal manifest) 1) OrdinalOverflow);
        sink ← on_directory (wal_open (wal_path next_ordinal)
                               (with_start (ss_base_config self) (cm_end_exclusive manifest) next_ordinal));
        _ ← modify (replace_current next_ordinal sink);
        rotate fuel
    end
  else
    throw (MultipleWindowsInSegment
             (match cr_last_sealed_window recovery with
              | Some value => cm_window_ordinal value
              | None => cfg_first_window_ordinal (ss_base_config self)
              end) (cr_sealed_window_count recovery)).

(** Every turn moves to a segment that exists, the last one perhaps new. *)
Definition rotate_if_needed : stream_op unit := fun s =>
  rotate (S (size (d_entries (ss_directory s)))) s.

Definition stream_finish_window : stream_op (option CaptureWindowManifest) :=
  _ ← rotate_if_needed;
  manifest ← on_current finish_window;
  _ ← (match manifest with
       | Some value => on_directory (publish_manifest value)
       | None => mret tt
       end);
  mret manifest.

Definition stream_begin_batch : stream_op CaptureWalBatch :=
  _ ← rotate_if_needed;
  on_current begin_batch.

Definition stream_commit_batch (batch : CaptureWalBatch) : stream_op unit := on_current (commit_batch batch).

(** [impl DurableMeasurementSink for CaptureSegmentStream]. *)
Definition stream_persist_chunk (hardware_id : HardwareId) (chunk : SampleChunk) : stream_op unit :=
  _ ← rotate_if_needed;
  on_current (wal_persist_chunk hardware_id chunk).
Definition stream_persist_gap (gap : Gap) : stream_op unit :=
  _ ← rotate_if_needed;
  on_current (wal_persist_gap gap).
Definition stream_persist_continuity_break (observed : ContinuityBreak) : stream_op unit :=
  _ ← rotate_if_needed;
  on_current (wal_persist_continuity_break observed).

Definition stream_hardware_id (s : CaptureSegmentStream) : HardwareId := cfg_hardware_id (ss_base_config s).
Definition stream_boot_epoch (s : CaptureSegmentStream) : BootEpoch := cfg_boot_epoch (ss_base_config s).
Definition stream_durable_cursor (s : CaptureSegmentStream) : SequenceCursor :=
  cr_durable_cursor (ws_recovery (ss_current s)).

(** ** Records and the window they seal *)

Section Seals.
Context (c : CaptureWalConfig) (Hc : typed c).
Let hw := cfg_hardware_id c.
Let e := cfg_boot_epoch c.

(** The valid records of a segment, which seal its window at their end or not yet. *)
Definition window_log (rs : list CaptureRecord) (sealed : option CaptureWindowManifest) : Prop :=
Forall (capture_record_valid hw e) rs /\ seals_at_end c rs (start_ledger c) sealed.

Lemma window_log_nil : window_log [] None.
Proof. split; [constructor|]. by exists (start_ledger c). Qed.

Lemma window_log_processed rs sealed :
window_log rs sealed ->
exists L, processed c rs (manifest_list sealed) L /\
  match sealed with Some m => lg_next_cursor L = cm_end_exclusive m | None => True end.
Proof.
intros (Hrs & Hs). destruct sealed as [m|]; cbn [seals_at_end manifest_list] in *.
2: { destruct Hs as (L & Hrun). by exists L. }
destruct Hs as (rs0 & r & L0 & L & -> & Hrun & Happ). exists L.
assert (Hrun' : ledger_run hw (rs0 ++ [r]) (start_ledger c) = Ok ([m], L)).
{ unfold hw. rewrite ledger_run_app, Hrun. cbn. by rewrite Happ. }
split; [by split|].
pose proof (ledger_run_partitions _ _ _ _ _ _ Hrs (start_ledger_wf c Hc) Hrun') as (_ & _ & _ & _ & _ & _ & Hend & Hopen).
apply Forall_app in Hrs as (Hrs0 & Hr%List.Forall_inv).
pose proof (ledger_run_partitions _ _ _ _ _ _ Hrs0 (start_ledger_wf c Hc) Hrun) as (Hwf0 & _).
pose proof (ledger_run_sealed _ _ _ _ _ _ Hrs0 (start_ledger_wf c Hc) I Hrun) as (_ & Hs0).
destruct (ledger_append_samples _ _ _ Hwf0 Hs0 _ _ _ Hr Happ) as ((_ & HL) & _).
unfold open_start in Hopen. rewrite HL in Hopen. congruence.
Qed.

Lemma window_log_unsealed rs L :
processed c rs [] L -> window_log rs None.
Proof. intros (Hrs & Hrun). split; [done|]. by exists L. Qed.

Lemma window_log_snoc rs L r sealed L' :
processed c rs [] L -> capture_record_valid hw e r -> ledger_append hw r L = (Ok sealed, L') ->
window_log (rs ++ [r]) sealed.
Proof.
intros (Hrs & Hrun) Hr Happ. split; [apply Forall_app; auto|]. destruct sealed as [m|]; cbn [seals_at_end].
- by exists rs, r, L, L'.
- exists L'. unfold hw in *. rewrite ledger_run_app, Hrun. cbn. by rewrite Happ.
Qed.

Lemma processed_unique rs ms1 L1 ms2 L2 : processed c rs ms1 L1 -> processed c rs ms2 L2 -> ms1 = ms2 /\ L1 = L2.
Proof. intros (_ & H1) (_ & H2). rewrite H1 in H2. by injection H2 as -> ->. Qed.

Lemma window_log_unique rs sealed1 sealed2 : window_log rs sealed1 -> window_log rs sealed2 -> sealed1 = sealed2.
Proof.
intros H1 H2. destruct (window_log_processed rs sealed1 H1) as (L1 & Hp1 & _).
destruct (window_log_processed rs sealed2 H2) as (L2 & Hp2 & _).
destruct (processed_unique _ _ _ _ _ Hp1 Hp2) as (Heq & _). destruct sealed1, sealed2; cbn in Heq; congruence.
Qed.

(** A prefix of the records of a window that is sealed only at its end. *)
Lemma window_log_prefix rs rs' sealed :
window_log rs' sealed -> rs `prefix_of` rs' -> rs <> rs' -> window_log rs None.
Proof.
intros (Hrs & Hs) [tl ->] Hne. assert (tl <> []) by (intros ->; by rewrite app_nil_r in Hne).
pose proof Hrs as Hrs0. apply Forall_app in Hrs0 as (Hrs0 & _). split; [done|].
assert (Hsub : exists rs0 L0, ledger_run hw rs0 (start_ledger c) = Ok ([], L0) /\ rs `prefix_of` rs0).
{ destruct sealed as [m|]; cbn [seals_at_end] in Hs.
  - destruct Hs as (rs0 & r & L0 & L' & Heq & Hrun & _). exists rs0, L0. split; [done|].
    destruct tl as [|x tl _] using rev_ind; [done|]. rewrite app_assoc in Heq. apply app_inj_2 in Heq as (<- & _); [|done].
    by exists tl.
  - destruct Hs as (L & Hrun). exists (rs ++ tl), L. split; [done|]. by exists tl. }
destruct Hsub as (rs0 & L0 & Hrun & [tl' ->]). unfold hw in Hrun. rewrite ledger_run_app in Hrun.
apply outcome_bind_Ok in Hrun as ([ms1 L1] & H1 & ([ms2 L2] & _ & [= Hms _])%outcome_bind_Ok).
apply app_eq_nil in Hms as (-> & _). by exists L1.
Qed.
End Seals.

(** ** Publishing a manifest *)

(** The durable file of a manifest. *)
Definition manifest_file (m : CaptureWindowManifest) (f : File) : Prop :=
  f_data f = manifest_bytes m /\ f_synced f = length (manifest_bytes m).

(** What publishing [m] may do to the files: its temporary file apart, it only
    ever adds the complete and durable manifest. *)
Definition published (m : CaptureWindowManifest) (files files' : gmap string File) : Prop :=
  (forall name, name <> temporary_path (cm_window_ordinal m) -> name <> manifest_path (cm_window_ordinal m) ->
     files' !! name = files !! name) /\
  (files' !! manifest_path (cm_window_ordinal m) = files !! manifest_path (cm_window_ordinal m) \/
   exists f, files' !! manifest_path (cm_window_ordinal m) = Some f /\ manifest_file m f).

Lemma directory_call_entries (d : Directory) :
  exists r d', directory_call d = (r, d') /\ d_entries d' = d_entries d /\ (r = Ok tt \/ r = Err SegmentIo).
Proof. unfold directory_call. destruct (d_faults d) as [|[] faults]; eauto 10. Qed.

Lemma open_or_create_entries (name : string) (d : Directory) :
  exists f d', open_or_create name d = (f, d') /\
    (d_entries d !! name = Some f /\ d' = d \/
     d_entries d !! name = None /\ f_data f = [] /\ f_synced f = 0%nat /\ d_entries d' = <[name := f]> (d_entries d)).
Proof. unfold open_or_create. destruct (d_entries d !! name) as [f|]; eauto 10. Qed.

Lemma create_truncated_entries (name : string) (d : Directory) :
  exists faults d', create_truncated name d = (Ok tt, d') /\
    d_entries d' = <[name := mkFile [] 0 0 faults]> (d_entries d).
Proof.
  unfold create_truncated. destruct (open_or_create_entries name d) as (f & d' & -> & H).
  eexists _, _. split; [reflexivity|]. cbn [set_entries d_entries].
  destruct H as [(_ & ->)|(_ & _ & _ & ->)]; [done|]. by rewrite insert_insert_eq.
Qed.

(** Changing only the temporary file. *)
Lemma published_temporary (m : CaptureWindowManifest) (f : File) (files files' : gmap string File) :
  files' = <[temporary_path (cm_window_ordinal m) := f]> files -> published m files files'.
Proof.
  intros ->. split.
  - intros name Hne _. by rewrite lookup_insert_ne.
  - left. by rewrite lookup_insert_ne by apply temporary_not_manifest.
Qed.

Lemma on_file_eq {A : Type} (name : string) (mk : file_op A) (d : Directory) (f : File) :
  d_entries d !! name = Some f ->
  on_file name mk d = (map_err (fun _ => SegmentIo) (fst (mk f)), set_entries (<[name := snd (mk f)]> (d_entries d)) d).
Proof. unfold on_file. intros ->. by destruct (mk f). Qed.

Lemma publish_existing (m : CaptureWindowManifest) (d : Directory) (f : File) :
  typed m -> manifest_contract m ->
  d_entries d !! manifest_path (cm_window_ordinal m) = Some f -> manifest_file m f ->
  publish_manifest m d = (Ok tt, d).
Proof.
  intros Ht Hc Hf (Hd & _). unfold publish_manifest. autorewrite with st. rewrite Hf.
  rewrite (proj2 (read_capture_manifest_iff _ m)) by done. autorewrite with st. by rewrite bool_decide_eq_true_2.
Qed.

Lemma publish_manifest_ok (m : CaptureWindowManifest) (d : Directory) :
  typed m -> manifest_contract m ->
  (forall f, d_entries d !! manifest_path (cm_window_ordinal m) = Some f -> manifest_file m f) ->
  let '(r, d') := publish_manifest m d in
  published m (d_entries d) (d_entries d') /\
  ((r = Ok tt /\ exists f, d_entries d' !! manifest_path (cm_window_ordinal m) = Some f /\ manifest_file m f) \/
   r = Err SegmentIo).
Proof.
  intros Ht Hc Hold. destruct (d_entries d !! manifest_path (cm_window_ordinal m)) as [f|] eqn:Hf.
  { rewrite (publish_existing m d f) by auto. split; [by split; [|left]|]. left. split; [done|]. exists f. auto. }
  unfold publish_manifest. autorewrite with st. rewrite Hf.
  rewrite (encode_manifest_eq m Ht). autorewrite with st. set (tmp := temporary_path (cm_window_ordinal m)).
  cbv [mbind st_bind]. destruct (create_truncated_entries tmp d) as (faults & d1 & -> & H1).
  assert (L1 : d_entries d1 !! tmp = Some (mkFile [] 0 0 faults)) by (by rewrite H1, lookup_insert_eq).
  rewrite (on_file_eq tmp (write_all _) d1 _ L1).
  unfold write_all at 1 2. destruct (next_fault (mkFile [] 0 0 faults)) as [k|]; cbn [fst snd map_err].
  { split; [|by right]. eapply published_temporary. cbn [set_entries d_entries]. by rewrite H1, insert_insert_eq. }
  set (f2 := write_at _ _). set (d2 := set_entries _ d1).
  assert (L2 : d_entries d2 !! tmp = Some f2) by (cbn; by rewrite lookup_insert_eq).
  rewrite (on_file_eq tmp sync d2 _ L2). unfold sync at 1 2.
  destruct (next_fault f2) as [k|]; cbn [fst snd map_err].
  { split; [|by right]. eapply published_temporary. cbn [set_entries d_entries d2]. by rewrite H1, !insert_insert_eq. }
  assert (Hdata : f_data f2 = manifest_bytes m) by (unfold f2, write_at; cbn; by rewrite app_nil_r).
  set (f3 := mkFile (f_data f2) (f_pos f2) (length (f_data f2)) (tail (f_faults f2))).
  set (d3 := set_entries _ d2). unfold rename. cbv [mbind st_bind].
  assert (E3 : d_entries d3 = <[tmp := f3]> (d_entries d)).
  { unfold d3, d2. cbn [set_entries d_entries]. by rewrite H1, !insert_insert_eq. }
  destruct (directory_call_entries d3) as (r4 & d4 & -> & E4 & [->| ->]).
  2: { split; [|by right]. eapply published_temporary. by rewrite E4. }
  unfold gets, modify, lift. cbn [ok_or]. rewrite E4, E3, lookup_insert_eq. cbn [ok_or].
  set (d5 := set_entries _ d4).
  assert (E5 : d_entries d5 = <[manifest_path (cm_window_ordinal m) := f3]> (delete tmp (d_entries d))).
  { unfold d5. cbn [set_entries d_entries]. by rewrite delete_insert_eq. }
  assert (Hfile : manifest_file m f3) by (split; cbn [f3 f_data f_synced]; by rewrite Hdata).
  assert (Hpub : published m (d_entries d) (d_entries d5)).
  { rewrite E5. split.
    - intros name Hne1 Hne2. by rewrite lookup_insert_ne, lookup_delete_ne.
    - right. exists f3. by rewrite lookup_insert_eq. }
  unfold sync_directory. destruct (directory_call_entries d5) as (r6 & d6 & -> & E6 & [->| ->]); rewrite E6;
    (split; [done|]); [left|by right]. split; [done|]. exists f3. by rewrite E5, lookup_insert_eq.
Qed.

(** ** Opening the next segment *)

(** The records a disk is known to hold cover those in the log. *)
Definition covered (a : option (list CaptureRecord)) (rs : list CaptureRecord) : Prop :=
  match a with Some rs0 => rs0 = rs | None => rs = [] end.

Lemma disk_inv_new_sized c f : typed c -> fits c [] -> disk_inv c None [] f -> sized c (length (f_data f)).
Proof.
  intros Hc (H1 & H2) (_ & _ & _ & k & Hk). apply (f_equal length) in Hk.
  rewrite length_take, length_app, length_header_bytes in Hk by done.
  change (log_end []) with 64%nat in *. change (length (records_bytes [])) with 0%nat in Hk.
  change FILE_HEADER_BYTES with 64%nat in Hk. split; lia.
Qed.

Lemma wal_open_new c name d :
  typed c -> fits c [] -> (forall f, d_entries d !! name = Some f -> disk_inv c None [] f) ->
  let '(r, d') := wal_open name c d in
  (forall other, other <> name -> d_entries d' !! other = d_entries d !! other) /\
  match r with
  | Ok k => d_entries d' !! name = Some (ws_file k) /\ exists a, covered a [] /\ sink_ok c a [] k
  | Err err => (err = SegmentWal Io \/ err = SegmentWal TruncatedFileHeader /\ is_Some (d_entries d !! name)) /\
      exists f, d_entries d' !! name = Some f /\ disk_inv c None [] f
  | Panic => False
  end.
Proof.
  intros Hc Hfit Hold. unfold wal_open. destruct (open_or_create_entries name d) as (f & d1 & -> & Hf).
  assert (Hframe : forall other, other <> name -> d_entries d1 !! other = d_entries d !! other).
  { intros other Hne. destruct Hf as [(_ & ->)|(_ & _ & _ & ->)]; [done|]. by rewrite lookup_insert_ne. }
  assert (Hdisk : disk_inv c None [] f).
  { destruct Hf as [(Hf & _)|(_ & Hd & Hs & _)]; [by apply Hold|].
    split; [apply processed_empty|]. split; [done|]. rewrite Hd, Hs. split; [cbn; lia|]. by exists 0%nat. }
  pose proof (disk_inv_new_sized c f Hc Hfit Hdisk) as Hsize.
  assert (Hopen : match sink_open c f with
    | (Ok k, f') => f' = ws_file k /\ exists a, covered a [] /\ sink_ok c a [] k
    | (Err err, f') => (err = Io \/ err = TruncatedFileHeader /\ f_data f <> []) /\ disk_inv c None [] f'
    | (Panic, _) => False end).
  { destruct (decide (f_data f = [])) as [Hempty|Hne].
    - pose proof (sink_open_fresh c Hc f Hempty Hfit) as H.
      destruct (sink_open c f) as [[k|err|] f']; [|split; [left|]; apply H|done]. destruct H as (Hk & ->).
      split; [done|]. by exists (Some []).
    - pose proof (sink_open_ok c Hc None [] f Hdisk Hsize Hne) as H.
      destruct (sink_open c f) as [[k|err|] f']; [|split; [|apply H]; destruct H as (_ & [(-> & _)|(-> & _)]); auto|done].
      destruct H as (rs & Hpre & Hk & ->). split; [done|]. apply prefix_nil_inv in Hpre as ->. by exists None. }
  destruct (sink_open c f) as [[k|err|] f']; cbn [map_err set_entries d_entries]; [|split|done].
  - destruct Hopen as (-> & Hk). split; [|by rewrite lookup_insert_eq].
    intros other Hne. by rewrite lookup_insert_ne, Hframe.
  - intros other Hne. by rewrite lookup_insert_ne, Hframe.
  - destruct Hopen as (Herr & Hd'). split; [|exists f'; by rewrite lookup_insert_eq].
    destruct Herr as [->|(-> & Hne)]; [by left|right]. split; [done|].
    destruct Hf as [(Hf & _)|(_ & Hnil & _)]; [by eexists|done].
Qed.

(** What the memory of a sink says of a window. *)
Lemma memory_recovery c rs sealed k :
  typed c -> window_log c rs sealed -> memory_inv c rs k ->
  cr_sealed_window_count (ws_recovery k) = Z.of_nat (length (manifest_list sealed)) /\
  cr_last_sealed_window (ws_recovery k) = sealed /\
  match sealed with Some m => cr_durable_cursor (ws_recovery k) = cm_end_exclusive m | None => True end.
Proof.
  intros Hc Hlog Hk. destruct (window_log_processed c Hc rs sealed Hlog) as (L & Hp & Hend).
  destruct Hk as ((ms & t & Hp' & ->) & _). destruct (processed_unique _ _ _ _ _ _ Hp Hp') as (<- & <-).
  unfold recovery_of. cbn. by destruct sealed.
Qed.

(** ** The segments of a stream *)

Section Stream.
Context (base : CaptureWalConfig) (Hbase : typed base).

(** The configuration of the segment after the one that [m] seals. *)
Definition seg_next (m : CaptureWindowManifest) : CaptureWalConfig :=
with_start base (cm_end_exclusive m) (cm_window_ordinal m + 1).

Abbreviation ordinal_of := cfg_first_window_ordinal.

(** Sealed segments, from the one of configuration [c], and the configuration
  of the segment that follows them. *)
Fixpoint chain (c : CaptureWalConfig) (segs : list (list CaptureRecord * CaptureWindowManifest))
  (c' : CaptureWalConfig) : Prop :=
match segs with
| [] => c' = c
| (rs, m) :: segs => window_log c rs (Some m) /\ chain (seg_next m) segs c'
end.

(** The records of all segments. *)
Definition stream_log (segs : list (list CaptureRecord * CaptureWindowManifest)) (rs : list CaptureRecord)
  : list CaptureRecord := concat (map fst segs) ++ rs.

(** The files of a sealed segment; [b]: the log is known to be synced. *)
Definition closed_file (b : bool) (files : gmap string File) (c : CaptureWalConfig) (rs : list CaptureRecord)
  (m : CaptureWindowManifest) : Prop :=
(exists f, files !! wal_path (ordinal_of c) = Some f /\ f_data f = header_bytes c ++ records_bytes rs /\
   (b = true -> f_synced f = length (f_data f))) /\
(exists f, files !! manifest_path (ordinal_of c) = Some f /\ manifest_file m f).

Fixpoint closed_files (b : bool) (files : gmap string File) (c : CaptureWalConfig)
  (segs : list (list CaptureRecord * CaptureWindowManifest)) : Prop :=
match segs with
| [] => True
| (rs, m) :: segs => closed_file b files c rs m /\ closed_files b files (seg_next m) segs
end.

Definition same_stream (c : CaptureWalConfig) : Prop :=
c = with_start base (cfg_recovered_cursor c) (ordinal_of c).

Lemma same_stream_base : same_stream base.
Proof. unfold same_stream, with_start. by destruct base. Qed.

Lemma same_stream_next m : same_stream (seg_next m).
Proof. done. Qed.

Lemma window_log_manifest c rs m :
typed c -> window_log c rs (Some m) ->
cm_hardware_id m = cfg_hardware_id c /\ cm_boot_epoch m = cfg_boot_epoch c /\
cm_window_ordinal m = ordinal_of c /\ cm_first_cursor m = cfg_recovered_cursor c /\ typed m /\ manifest_contract m.
Proof. intros Hc H. by apply (sealed_segment_manifest c rs m). Qed.

Lemma window_log_nonempty c rs m : window_log c rs (Some m) -> rs <> [].
Proof. intros (_ & rs0 & r & _ & _ & -> & _). by destruct rs0. Qed.

Lemma seg_next_typed c rs m :
typed c -> window_log c rs (Some m) -> ordinal_of c + 1 < 2 ^ 64 ->
typed (seg_next m) /\ ordinal_of (seg_next m) = ordinal_of c + 1.
Proof.
intros Hc Hlog Ho. destruct (window_log_manifest c rs m Hc Hlog) as (_ & _ & Hord & _ & Ht & _).
destruct Ht as (_ & _ & _ & _ & Hend & _). destruct Hbase as (Hhw & He & _ & Ho0 & Hp & Hp0 & He0).
destruct Hc as (_ & _ & _ & Hoc & _). unfold typed, CaptureWalConfig_typed, unsigned in *.
cbn. rewrite Hord. split_and!; try done; lia.
Qed.

Lemma chain_typed segs c c' :
typed c -> same_stream c -> chain c segs c' -> ordinal_of c + Z.of_nat (length segs) < 2 ^ 64 ->
typed c' /\ same_stream c' /\ ordinal_of c' = ordinal_of c + Z.of_nat (length segs).
Proof.
revert c. induction segs as [|[rs m] segs IH]; intros c Hc Hs; cbn [chain length].
- intros -> _. split_and!; [done..|lia].
- intros (Hlog & Hchain) Ho. destruct (seg_next_typed c rs m Hc Hlog ltac:(lia)) as (Hn & Hno).
  destruct (IH _ Hn (same_stream_next m) Hchain ltac:(lia)) as (? & ? & ?). split_and!; [done..|lia].
Qed.

Lemma chain_snoc segs c c' rs m :
chain c segs c' -> window_log c' rs (Some m) -> chain c (segs ++ [(rs, m)]) (seg_next m).
Proof.
revert c. induction segs as [|[rs0 m0] segs IH]; intros c; cbn [chain app].
- by intros ->.
- intros (Hlog & Hchain) Hm. split; [done|by apply IH].
Qed.

(** Only the entries of their own ordinals matter. *)
Lemma closed_files_frame b files files' segs c c' :
typed c -> chain c segs c' -> ordinal_of c + Z.of_nat (length segs) < 2 ^ 64 ->
(forall n, u64 n -> ordinal_of c <= n < ordinal_of c + Z.of_nat (length segs) ->
   files' !! wal_path n = files !! wal_path n /\ files' !! manifest_path n = files !! manifest_path n) ->
closed_files b files c segs -> closed_files b files' c segs.
Proof.
revert c. induction segs as [|[rs m] segs IH]; intros c Hc; cbn [chain closed_files length]; [done|].
intros (Hlog & Hchain) Ho Hframe (Hfile & Hfiles).
destruct (seg_next_typed c rs m Hc Hlog ltac:(lia)) as (Hn & Hno). split.
- pose proof Hc as (_ & _ & _ & Hoc & _). unfold closed_file.
  destruct (Hframe (ordinal_of c) Hoc ltac:(lia)) as (-> & ->). done.
- apply (IH (seg_next m) Hn Hchain); [lia| |done]. intros n Hu Hlt. apply Hframe; [done|lia].
Qed.

Lemma closed_files_weaken b files segs c : closed_files b files c segs -> closed_files false files c segs.
Proof.
revert c. induction segs as [|[rs m] segs IH]; intros c; cbn [closed_files]; [done|].
intros (((f & Hf & Hd & _) & Hm) & Hfs). split; [|by apply IH]. split; [|done]. by exists f.
Qed.

Lemma closed_files_snoc b files segs c c' rs m :
chain c segs c' -> closed_files b files c segs -> closed_file b files c' rs m ->
closed_files b files c (segs ++ [(rs, m)]).
Proof.
revert c. induction segs as [|[rs0 m0] segs IH]; intros c; cbn [chain closed_files app].
- by intros ->.
- intros (_ & Hchain) (Hf & Hfs) Hm. split; [done|by apply IH].
Qed.

(** The lengths and ordinals of a stream of these records stay in range. *)
Definition stream_fits (log : list CaptureRecord) : Prop :=
ordinal_of base + Z.of_nat (length log) + Z.of_nat (log_end log) < 2 ^ 63.

(** ** The state of an open stream *)

(** The sink of the current segment: healthy, or poisoned by an append whose
  records may be on disk. *)
Definition current_ok (segs : list (list CaptureRecord * CaptureWindowManifest)) (c : CaptureWalConfig) (a : option (list CaptureRecord)) (rs : list CaptureRecord)
  (sealed : option CaptureWindowManifest) (k : CaptureWalSink) : Prop :=
sink_ok c a rs k \/
sealed = None /\ exists pending sealed', sink_failed c a rs pending k /\ window_log c (rs ++ pending) sealed' /\
  stream_fits (stream_log segs (rs ++ pending)).

(** The entries beyond the current segment: at most the start of its successor. *)
Definition frontier (files : gmap string File) (c : CaptureWalConfig) (sealed : option CaptureWindowManifest) : Prop :=
forall n, u64 n -> n < ordinal_of base \/ ordinal_of c < n ->
  files !! manifest_path n = None /\
  forall f, files !! wal_path n = Some f ->
    exists m, sealed = Some m /\ n = ordinal_of c + 1 /\ disk_inv (seg_next m) None [] f /\
      is_Some (files !! manifest_path (ordinal_of c)).

(** Every name of the form of a log's is the name of one. *)
Definition names_ok (files : gmap string File) : Prop :=
forall name number, is_Some (files !! name) -> segment_number name = Some number -> is_Some (parse_u64 number).

Definition current_manifest (files : gmap string File) (c : CaptureWalConfig)
  (sealed : option CaptureWindowManifest) : Prop :=
forall f, files !! manifest_path (ordinal_of c) = Some f -> exists m, sealed = Some m /\ manifest_file m f.

Record stream_state (b : bool) (s : CaptureSegmentStream)
  (segs : list (list CaptureRecord * CaptureWindowManifest)) (c : CaptureWalConfig)
  (a : option (list CaptureRecord)) (rs : list CaptureRecord) (sealed : option CaptureWindowManifest) : Prop :=
mkStreamState {
st_base : ss_base_config s = base;
st_chain : chain base segs c;
st_room : ordinal_of base + Z.of_nat (length segs) < 2 ^ 64;
st_ordinal : ss_current_ordinal s = ordinal_of c;
st_log : window_log c rs sealed;
st_closed : closed_files b (d_entries (ss_directory s)) base segs;
st_current : current_ok segs c a rs sealed (ss_current s);
st_covered : b = true -> covered a rs;
st_entry : is_Some (d_entries (ss_directory s) !! wal_path (ordinal_of c));
st_manifest : current_manifest (d_entries (ss_directory s)) c sealed;
st_frontier : frontier (d_entries (ss_directory s)) c sealed;
st_names : names_ok (d_entries (ss_directory s))
}.

Lemma stream_config b s segs c a rs sealed :
stream_state b s segs c a rs sealed ->
typed c /\ same_stream c /\ ordinal_of c = ordinal_of base + Z.of_nat (length segs).
Proof. intros H. apply (chain_typed segs base c Hbase same_stream_base); apply H. Qed.

(** The memory of the current sink says whether its window is sealed. *)
Lemma current_recovery segs c a rs sealed k :
typed c -> window_log c rs sealed -> current_ok segs c a rs sealed k ->
cr_sealed_window_count (ws_recovery k) = Z.of_nat (length (manifest_list sealed)) /\
cr_last_sealed_window (ws_recovery k) = sealed /\
match sealed with Some m => cr_durable_cursor (ws_recovery k) = cm_end_exclusive m | None => True end.
Proof.
intros Hc Hlog Hk. apply (memory_recovery c rs); [done..|].
destruct Hk as [(Hm & _)|(_ & pending & _ & (Hm & _) & _)]; exact Hm.
Qed.
Lemma chain_length segs c c' :
chain c segs c' -> (length segs <= length (concat (map fst segs)))%nat.
Proof.
revert c. induction segs as [|[rs m] segs IH]; intros c; cbn [chain length map concat fst]; [done|].
intros (Hlog & Hchain). pose proof (window_log_nonempty _ _ _ Hlog). apply IH in Hchain. rewrite length_app.
destruct rs; [done|]. cbn [length]. lia.
Qed.

Lemma log_end_le rs rs' : (log_end rs' <= log_end (rs ++ rs'))%nat.
Proof. unfold log_end. rewrite records_bytes_app, length_app. lia. Qed.

Lemma stream_fits_current b s segs c a rs sealed :
stream_state b s segs c a rs sealed -> stream_fits (stream_log segs rs) ->
fits c rs /\ ordinal_of c + 1 < 2 ^ 64 /\ forall m, sealed = Some m -> fits (seg_next m) [].
Proof.
intros Hs Hfit. destruct (stream_config _ _ _ _ _ _ _ Hs) as (Hc & _ & Ho).
pose proof (chain_length _ _ _ (st_chain _ _ _ _ _ _ _ Hs)) as Hl.
pose proof (log_end_le (concat (map fst segs)) rs) as He. unfold stream_fits, stream_log, fits, sized in *.
rewrite length_app in Hfit. destruct Hc as (_ & _ & _ & Hoc & _). unfold unsigned in Hoc.
split; [lia|]. split; [lia|]. intros m ->. 
destruct (window_log_manifest c rs m ltac:(apply (stream_config _ _ _ _ _ _ _ Hs)) (st_log _ _ _ _ _ _ _ Hs))
  as (_ & _ & Hord & _). cbn [cfg_first_window_ordinal seg_next with_start]. rewrite Hord.
assert (log_end [] <= log_end rs)%nat by (unfold log_end; cbn; lia).
pose proof (window_log_nonempty _ _ _ (st_log _ _ _ _ _ _ _ Hs)). destruct rs; [done|]. cbn [length] in *. lia.
Qed.

(** A change of the directory that leaves the logs and older manifests alone. *)
Lemma stream_state_directory b s segs c a rs sealed d :
stream_state b s segs c a rs sealed ->
(forall n, u64 n -> n < ordinal_of c -> d_entries d !! wal_path n = d_entries (ss_directory s) !! wal_path n /\
   d_entries d !! manifest_path n = d_entries (ss_directory s) !! manifest_path n) ->
is_Some (d_entries d !! wal_path (ordinal_of c)) -> current_manifest (d_entries d) c sealed ->
frontier (d_entries d) c sealed -> names_ok (d_entries d) ->
stream_state b (mkStream d (ss_base_config s) (ss_current_ordinal s) (ss_current s)) segs c a rs sealed.
Proof.
intros Hs Hframe Hentry Hman Hfront Hnames. destruct (stream_config _ _ _ _ _ _ _ Hs) as (_ & _ & Ho).
destruct Hs. split; try done. cbn [ss_directory].
eapply closed_files_frame; [exact Hbase|done|done| |done]. intros n Hu Hn. apply Hframe; [done|lia].
Qed.

(** Publishing the manifest of the sealed current window. *)
Lemma stream_publish b s segs c a rs m :
stream_state b s segs c a rs (Some m) ->
let '(r, s') := on_directory (publish_manifest m) s in
stream_state b s' segs c a rs (Some m) /\ ss_current s' = ss_current s /\
(r = Ok tt /\ (exists f, d_entries (ss_directory s') !! manifest_path (ordinal_of c) = Some f /\ manifest_file m f) \/
 r = Err SegmentIo).
Proof.
intros Hs. destruct (stream_config _ _ _ _ _ _ _ Hs) as (Hc & _ & Ho).
destruct (window_log_manifest c rs m Hc (st_log _ _ _ _ _ _ _ Hs)) as (_ & _ & Hord & _ & Ht & Hcon).
pose proof Hc as (_ & _ & _ & Hoc & _).
unfold on_directory, zoom. pose proof (publish_manifest_ok m (ss_directory s) Ht Hcon) as Hpub. rewrite Hord in Hpub.
destruct (publish_manifest m (ss_directory s)) as [r d'].
assert (Hold : forall f, d_entries (ss_directory s) !! manifest_path (ordinal_of c) = Some f -> manifest_file m f).
{ intros f Hf. destruct (st_manifest _ _ _ _ _ _ _ Hs f Hf) as (m' & [= <-] & Hm). done. }
destruct (Hpub Hold) as ((Hframe & Hman) & Hr). rewrite Hord in *. clear Hpub.
assert (Hwal : forall n, d_entries d' !! wal_path n = d_entries (ss_directory s) !! wal_path n).
{ intros n. apply Hframe; [by apply not_eq_sym, temporary_not_wal|by apply not_eq_sym, manifest_not_wal]. }
assert (Hother : forall n, u64 n -> n <> ordinal_of c ->
  d_entries d' !! manifest_path n = d_entries (ss_directory s) !! manifest_path n).
{ intros n Hu Hne. apply Hframe; [by apply not_eq_sym, temporary_not_manifest|]. intros Heq.
  by apply manifest_path_inj in Heq. }
split; [|split; [done|]].
- apply stream_state_directory; [done|..].
  + intros n Hu Hn. split; [apply Hwal|apply Hother; [done|lia]].
  + rewrite Hwal. apply Hs.
  + intros f Hf. exists m. split; [done|]. destruct Hman as [Heq|(f' & Hf' & Hm)]; [apply Hold; congruence|congruence].
  + intros n Hu Hn. destruct (st_frontier _ _ _ _ _ _ _ Hs n Hu Hn) as (H1 & H2).
    rewrite Hwal, Hother; [|done|intros ->; lia]. split; [done|]. intros f Hf.
    destruct (H2 f Hf) as (m' & ? & ? & ? & Hsome). exists m'. split_and!; try done.
    destruct Hman as [->|(f' & -> & _)]; [done|by eexists].
  + intros name number Hname Hnum. apply (st_names _ _ _ _ _ _ _ Hs name number); [|done].
    rewrite Hframe in Hname; [done|..]; intros ->; [done|by rewrite segment_number_manifest in Hnum].
- cbn [ss_directory]. destruct Hr as [(-> & Hf)| ->]; [by left|by right].
Qed.
(** The files of a sealed current segment whose manifest is published. *)
Lemma sealed_closed_file b s segs c a rs m files :
stream_state b s segs c a rs (Some m) -> files !! wal_path (ordinal_of c) = Some (ws_file (ss_current s)) ->
(exists f, files !! manifest_path (ordinal_of c) = Some f /\ manifest_file m f) -> closed_file b files c rs m.
Proof.
intros Hs Hf Hman. destruct (stream_config _ _ _ _ _ _ _ Hs) as (Hc & _). split; [|exact Hman].
destruct (st_current _ _ _ _ _ _ _ Hs) as [(_ & _ & Hd & _ & Hpre & Hsync)|(Hnone & _)]; [|discriminate Hnone].
eexists. split; [exact Hf|]. split; [exact Hd|]. intros Hb. pose proof (st_covered _ _ _ _ _ _ _ Hs Hb) as Ha.
pose proof (window_log_nonempty _ _ _ (st_log _ _ _ _ _ _ _ Hs)). destruct a as [rs0|]; [|done]. cbn in Ha. subst rs0.
cbn [sure_end] in Hsync. rewrite Hd, length_log_end by done. lia.
Qed.

(** A sealed current segment, its manifest published, becomes the last closed one. *)
Lemma stream_advance b s segs c a rs m k d :
stream_state b s segs c a rs (Some m) -> stream_fits (stream_log segs rs) ->
(exists f, d_entries (ss_directory s) !! manifest_path (ordinal_of c) = Some f /\ manifest_file m f) ->
(forall other, other <> wal_path (ordinal_of c + 1) -> d_entries d !! other = d_entries (ss_directory s) !! other) ->
d_entries d !! wal_path (ordinal_of c + 1) = Some (ws_file k) ->
(exists a', covered a' [] /\ sink_ok (seg_next m) a' [] k) ->
exists a', stream_state b
  (replace_current (ordinal_of c + 1) k (mkStream d (ss_base_config s) (ss_current_ordinal s) (ss_current s)))
  (segs ++ [(rs, m)]) (seg_next m) a' [] None.
Proof.
intros Hs Hfit Hman Hframe Hnew (a' & Hcov & Hk). exists a'.
destruct (stream_config _ _ _ _ _ _ _ Hs) as (Hc & _ & Ho).
destruct (stream_fits_current _ _ _ _ _ _ _ Hs Hfit) as (_ & Hroom & _).
pose proof Hc as (_ & _ & _ & Hoc & _). pose proof (st_log _ _ _ _ _ _ _ Hs) as Hlog.
destruct (seg_next_typed c rs m Hc Hlog Hroom) as (Hn & Hno).
assert (Hu1 : u64 (ordinal_of c + 1)) by (unfold unsigned in *; lia).
assert (Hother : forall n, u64 n -> n <> ordinal_of c -> n <> ordinal_of c + 1 ->
  d_entries d !! wal_path n = d_entries (ss_directory s) !! wal_path n).
{ intros n Hu _ H1. apply Hframe. intros Heq. by apply wal_path_inj in Heq. }
assert (Hmans : forall n, d_entries d !! manifest_path n = d_entries (ss_directory s) !! manifest_path n).
{ intros n. apply Hframe, manifest_not_wal. }
assert (Hsize : Z.of_nat (length (segs ++ [(rs, m)])) = Z.of_nat (length segs) + 1) by (rewrite length_app; cbn; lia).
assert (Hfiles : stream_files (mkStream d (ss_base_config s) (ss_current_ordinal s) (ss_current s))
  = <[wal_path (ordinal_of c) := ws_file (ss_current s)]> (d_entries d)).
{ unfold stream_files. cbn. by rewrite (st_ordinal _ _ _ _ _ _ _ Hs). }
split; cbn [replace_current set_entries ss_base_config ss_current_ordinal ss_current ss_directory d_entries]; rewrite ?Hfiles.
- apply Hs.
- eapply chain_snoc; [apply Hs|done].
- rewrite Hsize. lia.
- by rewrite Hno.
- apply window_log_nil.
- eapply closed_files_snoc; [apply Hs|..].
  + eapply closed_files_frame; [exact Hbase|apply Hs|apply Hs| |apply Hs]. intros n Hu Hlt.
    split.
    * rewrite lookup_insert_ne, Hother; [done|done|lia|lia|]. intros Heq. apply wal_path_inj in Heq; [lia|done..].
    * rewrite lookup_insert_ne, Hmans; [done|]. apply not_eq_sym, manifest_not_wal.
  + apply (sealed_closed_file b s segs c a rs m _ Hs); [by rewrite lookup_insert_eq|].
    rewrite lookup_insert_ne by (apply not_eq_sym, manifest_not_wal). by rewrite Hmans.
- by left.
- done.
- rewrite Hno, lookup_insert_ne, Hnew; [done|].
  intros Heq. apply wal_path_inj in Heq; [lia|done..].
- unfold current_manifest. rewrite Hno. intros f Hf. rewrite lookup_insert_ne in Hf by (apply not_eq_sym, manifest_not_wal).
  destruct (st_frontier _ _ _ _ _ _ _ Hs (ordinal_of c + 1) Hu1 ltac:(lia)) as (H1 & _). rewrite Hmans in Hf. congruence.
- unfold frontier. rewrite Hno. intros n Hu Hrange. destruct (st_frontier _ _ _ _ _ _ _ Hs n Hu ltac:(lia)) as (H1 & H2). split.
  + rewrite lookup_insert_ne by (apply not_eq_sym, manifest_not_wal). by rewrite Hmans.
  + intros f. rewrite lookup_insert_ne by (intros Heq; apply wal_path_inj in Heq; [lia|done..]).
    rewrite Hother by (done || lia). intros Hf. destruct (H2 f Hf) as (m' & _ & -> & _). lia.
- intros name number Hname Hnum. destruct (decide (name = wal_path (ordinal_of c))) as [->|Hne1].
  { by apply wal_path_number in Hnum. }
  rewrite lookup_insert_ne in Hname by (by apply not_eq_sym). destruct (decide (name = wal_path (ordinal_of c + 1))) as [->|Hne2].
  { by apply wal_path_number in Hnum. }
  rewrite Hframe in Hname by done. by apply (st_names _ _ _ _ _ _ _ Hs name number).
Qed.

Lemma rotate_unsealed b fuel s segs c a rs :
stream_state b s segs c a rs None -> rotate fuel s = (Ok tt, s).
Proof.
intros Hs. destruct (stream_config _ _ _ _ _ _ _ Hs) as (Hc & _).
destruct (current_recovery _ c a rs None _ Hc (st_log _ _ _ _ _ _ _ Hs) (st_current _ _ _ _ _ _ _ Hs)) as (Hcount & _).
destruct fuel; cbn [rotate]; autorewrite with st; by rewrite Hcount.
Qed.

(** Rotation: nothing, or the sealed segment is closed and the next one is
  open; when it fails the stream is as it was. *)
Lemma rotate_if_needed_ok b s segs c a rs sealed :
stream_state b s segs c a rs sealed -> stream_fits (stream_log segs rs) ->
match rotate_if_needed s with
| (Ok _, s') =>
    match sealed with
    | None => s' = s
    | Some m => exists a', stream_state b s' (segs ++ [(rs, m)]) (seg_next m) a' [] None
    end
| (Err _, s') => stream_state b s' segs c a rs sealed
| (Panic, _) => False
end.
Proof.
intros Hs Hfit. unfold rotate_if_needed. destruct sealed as [m|]; [|by rewrite (rotate_unsealed b _ s segs c a rs)].
destruct (stream_config _ _ _ _ _ _ _ Hs) as (Hc & _ & Ho).
destruct (stream_fits_current _ _ _ _ _ _ _ Hs Hfit) as (_ & Hroom & Hfitn).
destruct (current_recovery _ c a rs (Some m) _ Hc (st_log _ _ _ _ _ _ _ Hs) (st_current _ _ _ _ _ _ _ Hs))
  as (Hcount & Hlast & Hdur). cbn [manifest_list length] in Hcount.
destruct (window_log_manifest c rs m Hc (st_log _ _ _ _ _ _ _ Hs)) as (_ & _ & Hord & _).
destruct (seg_next_typed c rs m Hc (st_log _ _ _ _ _ _ _ Hs) Hroom) as (Hn & Hno).
cbn [rotate]. autorewrite with st. rewrite Hcount, Hlast, Hdur.
change (Z.of_nat 1 =? 0) with false. change (Z.of_nat 1 =? 1) with true. cbn [ok_or].
autorewrite with st. unfold validate_segment_manifest. rewrite !Z.eqb_refl. cbn [negb]. autorewrite with st.
cbv [mbind st_bind]. pose proof (stream_publish b s segs c a rs m Hs) as Hpub.
destruct (on_directory (publish_manifest m) s) as [r1 s1].
destruct Hpub as (Hs1 & Hcur1 & [(-> & Hman)| ->]); [|done].
unfold lift at 1. rewrite checked_add_ok by lia. cbn [ok_or]. rewrite Hord.
assert (Hcfg : with_start (ss_base_config s) (cm_end_exclusive m) (ordinal_of c + 1) = seg_next m).
{ unfold seg_next. by rewrite (st_base _ _ _ _ _ _ _ Hs), Hord. }
rewrite Hcfg. unfold on_directory, zoom.
pose proof (wal_open_new (seg_next m) (wal_path (ordinal_of c + 1)) (ss_directory s1) Hn (Hfitn m eq_refl)) as Hopen.
assert (Hu1 : u64 (ordinal_of c + 1)) by (pose proof Hc as (_ & _ & _ & Hoc & _); unfold unsigned in *; lia).
assert (Hnew : forall f, d_entries (ss_directory s1) !! wal_path (ordinal_of c + 1) = Some f -> disk_inv (seg_next m) None [] f).
{ intros f Hf. destruct (st_frontier _ _ _ _ _ _ _ Hs1 _ Hu1 ltac:(lia)) as (_ & H).
  destruct (H f Hf) as (m' & [= <-] & _ & Hd & _). done. }
specialize (Hopen Hnew). destruct (wal_open _ _ _) as [[k|err|] d]; cbn [map_err]; destruct Hopen as (Hframe & Hopen).
- destruct Hopen as (Hentry & Hk). unfold modify. cbn [id].
  destruct (stream_advance b s1 segs c a rs m k d Hs1 Hfit Hman Hframe Hentry Hk) as (a' & Hs').
  rewrite (rotate_unsealed b _ _ _ _ _ _ Hs'). by exists a'.
- apply stream_state_directory; [done|..].
  + intros n Hu Hlt. rewrite !Hframe; [done| |].
    * apply manifest_not_wal.
    * intros Heq. apply wal_path_inj in Heq; [lia|done..].
  + rewrite Hframe; [apply Hs1|]. intros Heq. apply wal_path_inj in Heq; [lia|apply Hc|done].
  + intros f. rewrite Hframe by apply manifest_not_wal. apply Hs1.
  + intros n Hu Hrange. destruct (st_frontier _ _ _ _ _ _ _ Hs1 n Hu Hrange) as (H1 & H2).
    rewrite Hframe by apply manifest_not_wal. split; [done|]. intros f Hf.
    destruct (decide (n = ordinal_of c + 1)) as [->|Hne].
    * destruct Hopen as (_ & f' & Hf' & Hd). exists m. split_and!; [done..|congruence|].
      rewrite Hframe by apply manifest_not_wal. destruct Hman as (mf & -> & _). by eexists.
    * rewrite (Hframe (manifest_path _)) by apply manifest_not_wal. rewrite Hframe in Hf; [by apply H2|]. intros Heq. apply wal_path_inj in Heq; [lia|done..].
  + intros name number Hname Hnum. destruct (decide (name = wal_path (ordinal_of c + 1))) as [->|Hne2].
    { by apply wal_path_number in Hnum. }
    rewrite Hframe in Hname by done. by apply (st_names _ _ _ _ _ _ _ Hs1 name number).
- done.
Qed.
(** ** Appending to a stream *)

Lemma stream_log_snoc segs rs r : stream_log segs (rs ++ [r]) = stream_log segs rs ++ [r].
Proof. unfold stream_log. by rewrite app_assoc. Qed.

Lemma stream_fits_append b s segs c a rs sealed items :
stream_state b s segs c a rs sealed -> stream_fits (stream_log segs (rs ++ items)) -> fits c (rs ++ items).
Proof.
intros Hs Hfit. destruct (stream_config _ _ _ _ _ _ _ Hs) as (Hc & _ & Ho).
pose proof (chain_length _ _ _ (st_chain _ _ _ _ _ _ _ Hs)) as Hl.
pose proof (log_end_le (concat (map fst segs)) (rs ++ items)) as He. unfold stream_fits, stream_log, fits, sized in *.
rewrite length_app in Hfit. destruct Hc as (_ & _ & _ & Hoc & _). unfold unsigned in Hoc. lia.
Qed.

Lemma window_log_extend c rs r ms L :
typed c -> window_log c rs None -> processed c (rs ++ [r]) ms L -> exists sealed, window_log c (rs ++ [r]) sealed.
Proof.
intros Hc (_ & L0 & Hrun) (Hrs & Hrun'). apply Forall_app in Hrs as (Hrs & Hr%List.Forall_inv).
rewrite ledger_run_app, Hrun in Hrun'. cbn [mbind outcome_bind ledger_run] in Hrun'.
destruct (ledger_append _ r L0) as [[sealed|err|] L1] eqn:Happ; [|done|done].
exists sealed. by apply (window_log_snoc c rs L0 r sealed L1).
Qed.

(** The stream with another state of its current sink. *)
Definition with_current (k : CaptureWalSink) (s : CaptureSegmentStream) : CaptureSegmentStream :=
mkStream (ss_directory s) (ss_base_config s) (ss_current_ordinal s) k.

Lemma stream_state_current b s segs c a rs a' rs' sealed' k :
stream_state b s segs c a rs None -> window_log c rs' sealed' -> current_ok segs c a' rs' sealed' k ->
(b = true -> covered a' rs') -> stream_state b (with_current k s) segs c a' rs' sealed'.
Proof.
intros Hs Hlog Hk Hcov. destruct Hs as [H1 H2 H3 H4 _ H5 _ _ H6 Hman Hfront Hnames]. split; try done.
- intros f Hf. by destruct (Hman f Hf) as (m & ? & _).
- intros n Hu Hn. destruct (Hfront n Hu Hn) as (Hm & Hw). split; [done|]. intros f Hf.
  by destruct (Hw f Hf) as (m & ? & _).
Qed.

Lemma poisoned_begin k : ws_poisoned k = true -> begin_batch k = (Err Poisoned, k).
Proof. intros Hp. unfold begin_batch, ensure_healthy. autorewrite with st. rewrite Hp. by autorewrite with st. Qed.

(** What an append of [items] to an unsealed window makes of the current sink. *)
Definition current_appended {A : Type} (b : bool) (s : CaptureSegmentStream)
  (segs : list (list CaptureRecord * CaptureWindowManifest)) (c : CaptureWalConfig)
  (a : option (list CaptureRecord)) (rs items : list CaptureRecord) (r : outcome CaptureWalError A)
  (k' : CaptureWalSink) : Prop :=
match r with
| Ok _ => exists sealed, stream_state b (with_current k' s) segs c (Some (rs ++ items)) (rs ++ items) sealed
| Err _ => stream_state b (with_current k' s) segs c a rs None
| Panic => False
end.

Lemma stream_appended {A : Type} b s segs c a rs items (r : outcome CaptureWalError A) k' :
stream_state b s segs c a rs None -> (exists sealed, window_log c (rs ++ items) sealed) ->
stream_fits (stream_log segs (rs ++ items)) -> appended_to c a rs items r k' -> current_appended b s segs c a rs items r k'.
Proof.
intros Hs (sealed & Hlog) Hfit Hk. destruct r as [x|err|]; [|destruct Hk as (-> & Hk)|done].
- exists sealed. by apply (stream_state_current b s segs c a rs); [..|left|].
- apply (stream_state_current b s segs c a rs); [done|apply Hs| |apply Hs]. right. split; [done|].
  by exists items, sealed.
Qed.

(** The current sink is unchanged. *)
Lemma stream_unchanged b s segs c a rs : stream_state b s segs c a rs None ->
stream_state b (with_current (ss_current s) s) segs c a rs None.
Proof. by destruct s. Qed.

Lemma current_persist b s segs c a rs hw' r :
stream_state b s segs c a rs None -> item_valid r -> stream_fits (stream_log segs (rs ++ [r])) ->
let '(res, k') := with_batch (stage hw' r) (ss_current s) in current_appended b s segs c a rs [r] res k'.
Proof.
intros Hs Hr Hsfit. pose proof (stream_fits_append _ _ _ _ _ _ _ _ Hs Hsfit) as Hfit.
destruct (stream_config _ _ _ _ _ _ _ Hs) as (Hc & _). destruct (st_current _ _ _ _ _ _ _ Hs) as [Hk|(_ & pending & sealed & (_ & Hp & _) & _)].
- pose proof (persist_ok c Hc a rs hw' [r] (ss_current s) Hk (proj2 (Forall_singleton _ _) Hr) Hfit) as H.
  change (stage_all hw' [r]) with (stage hw' r) in H.
  destruct (with_batch (stage hw' r) (ss_current s)) as [res k'].
  destruct H as [(-> & err & ->)|(_ & H)]; [by apply stream_unchanged|].
  apply stream_appended; [done| |done..].
  assert (Hproc : exists ms L, processed c (rs ++ [r]) ms L).
  { destruct res as [x|err|]; [|destruct H as (_ & _ & _ & H & _); done|done].
    destruct H as (((ms & t & H & _) & _) & _). eauto. }
  destruct Hproc as (ms & L & Hproc). apply (window_log_extend c rs r ms L Hc); [apply Hs|done].
- unfold with_batch. cbv [mbind st_bind]. rewrite poisoned_begin by done. by apply stream_unchanged.
Qed.
Lemma finish_window_manifest k m k' :
finish_window k = (Ok (Some m), k') -> cr_last_sealed_window (ws_recovery k') = Some m.
Proof.
unfold finish_window. intros H. st_unfold H. destruct (ensure_healthy k) as [[[]|err|] k1]; [|done|done].
destruct (finish (ws_ledger k1)) as [[[value|]|err|] L]; [|done..].
unfold wal_checked_add in H. st_run H. by simplify_eq.
Qed.

Lemma current_finish b s segs c a rs :
stream_state b s segs c a rs None -> stream_fits (stream_log segs (rs ++ [CWindowSeal])) ->
match finish_window (ss_current s) with
| (Ok (Some m), k') =>
    stream_state b (with_current k' s) segs c (Some (rs ++ [CWindowSeal])) (rs ++ [CWindowSeal]) (Some m)
| (Ok None, k') => k' = ss_current s
| (Err _, k') => stream_state b (with_current k' s) segs c a rs None
| (Panic, _) => False
end.
Proof.
intros Hs Hsfit. pose proof (stream_fits_append _ _ _ _ _ _ _ _ Hs Hsfit) as Hfit.
destruct (stream_config _ _ _ _ _ _ _ Hs) as (Hc & _).
destruct (st_current _ _ _ _ _ _ _ Hs) as [Hk|(_ & pending & sealed & (_ & Hp & _) & _)].
2: { destruct (poisoned_refuses (ss_current s) Hp) as (_ & -> & _). by apply stream_unchanged. }
pose proof (finish_window_ok c Hc a rs (ss_current s) Hk Hfit) as H.
destruct (finish_window (ss_current s)) as [res k'] eqn:Hfin. destruct H as [(-> & ->)|(H & Hne)]; [done|].
assert (Hproc : exists ms L, processed c (rs ++ [CWindowSeal]) ms L).
{ destruct res as [x|err|]; [|destruct H as (_ & _ & _ & H & _); done|done].
  destruct H as (((ms & t & H & _) & _) & _). eauto. }
destruct Hproc as (ms & L & Hproc).
pose proof (window_log_extend c rs CWindowSeal ms L Hc (st_log _ _ _ _ _ _ _ Hs) Hproc) as Hext.
pose proof (stream_appended b s segs c a rs [CWindowSeal] res k' Hs Hext Hsfit H) as Happ.
destruct res as [[m|]|err|]; [|done|exact Happ|done]. destruct Happ as (sealed & Hs').
destruct (current_recovery _ c _ _ _ _ Hc (st_log _ _ _ _ _ _ _ Hs') (st_current _ _ _ _ _ _ _ Hs')) as (_ & Hlast & _).
apply finish_window_manifest in Hfin. cbn [with_current ss_current] in Hlast. congruence.
Qed.

(** ** The operations of the stream *)

(** An open stream whose segments hold the records [log]; [b]: every one of
  them is known to be synced. *)
Definition stream_holds (b : bool) (s : CaptureSegmentStream) (log : list CaptureRecord) : Prop :=
exists segs c a rs sealed, stream_state b s segs c a rs sealed /\ stream_log segs rs = log.

Lemma stream_log_close segs rs m : stream_log (segs ++ [(rs, m)]) [] = stream_log segs rs.
Proof. unfold stream_log. rewrite map_app, concat_app. cbn. by rewrite !app_nil_r. Qed.

(** Before an append: the stream is rotated, or stays as it is with an error. *)
Lemma stream_rotated b s log :
stream_holds b s log -> stream_fits log ->
match rotate_if_needed s with
| (Ok _, s') => exists segs c a rs, stream_state b s' segs c a rs None /\ stream_log segs rs = log
| (Err _, s') => stream_holds b s' log
| (Panic, _) => False
end.
Proof.
intros (segs & c & a & rs & sealed & Hs & <-) Hfit.
pose proof (rotate_if_needed_ok b s segs c a rs sealed Hs Hfit) as H.
destruct (rotate_if_needed s) as [[x|err|] s']; [|by exists segs, c, a, rs, sealed|done].
destruct sealed as [m|]; [|subst s'; eauto 10].
destruct H as (a' & Hs'). exists (segs ++ [(rs, m)]), (seg_next m), a', []. split; [done|apply stream_log_close].
Qed.

Lemma stream_fits_prefix log log' : stream_fits (log ++ log') -> stream_fits log.
Proof.
unfold stream_fits, log_end. rewrite length_app, records_bytes_app, length_app. lia.
Qed.

(** Rotation, then one record on the current segment. *)
Definition stream_stage (hw' : HardwareId) (r : CaptureRecord) : stream_op unit :=
_ ← rotate_if_needed; on_current (with_batch (stage hw' r)).

Lemma stream_stage_ok b s log hw' r :
stream_holds b s log -> item_valid r -> stream_fits (log ++ [r]) ->
match stream_stage hw' r s with
| (Ok _, s') => stream_holds b s' (log ++ [r])
| (Err _, s') => stream_holds b s' log
| (Panic, _) => False
end.
Proof.
intros Hs Hr Hfit. unfold stream_stage. cbv [mbind st_bind].
pose proof (stream_rotated b s log Hs (stream_fits_prefix _ _ Hfit)) as Hrot.
destruct (rotate_if_needed s) as [[x|err|] s1]; [|done|done].
destruct Hrot as (segs & c & a & rs & Hs1 & <-). rewrite <- stream_log_snoc in Hfit. unfold on_current, zoom.
pose proof (current_persist b s1 segs c a rs hw' r Hs1 Hr Hfit) as H.
destruct (with_batch (stage hw' r) (ss_current s1)) as [[y|err|] k']; cbn [map_err]; [|..|done].
- destruct H as (sealed & H). exists segs, c, (Some (rs ++ [r])), (rs ++ [r]), sealed. split; [exact H|].
  apply stream_log_snoc.
- by exists segs, c, a, rs, None.
Qed.

Lemma stream_finish_ok b s log :
stream_holds b s log -> stream_fits (log ++ [CWindowSeal]) ->
match stream_finish_window s with
| (Ok None, s') => stream_holds b s' log
| (Ok (Some m), s') =>
    exists segs c a rs, stream_state b s' segs c a rs (Some m) /\ stream_log segs rs = log ++ [CWindowSeal] /\
      exists f, d_entries (ss_directory s') !! manifest_path (ordinal_of c) = Some f /\ manifest_file m f
| (Err _, s') => stream_holds b s' log \/ stream_holds b s' (log ++ [CWindowSeal])
| (Panic, _) => False
end.
Proof.
intros Hs Hfit. unfold stream_finish_window. cbv [mbind st_bind].
pose proof (stream_rotated b s log Hs (stream_fits_prefix _ _ Hfit)) as Hrot.
destruct (rotate_if_needed s) as [[x|err|] s1]; [|by left|done].
destruct Hrot as (segs & c & a & rs & Hs1 & <-). rewrite <- stream_log_snoc in Hfit. unfold on_current, zoom.
pose proof (current_finish b s1 segs c a rs Hs1 Hfit) as H.
destruct (finish_window (ss_current s1)) as [[[m|]|err|] k']; cbn [map_err]; [|..|done].
- pose proof (stream_publish b _ segs c _ _ m H) as Hpub. fold (with_current k' s1).
  destruct (on_directory (publish_manifest m) (with_current k' s1)) as [r2 s2].
  destruct Hpub as (Hs2 & _ & [(-> & Hman)| ->]); cbv [mret st_ret].
  + exists segs, c, (Some (rs ++ [CWindowSeal])), (rs ++ [CWindowSeal]). split; [done|]. split; [|done].
    apply stream_log_snoc.
  + right. exists segs, c, (Some (rs ++ [CWindowSeal])), (rs ++ [CWindowSeal]), (Some m). split; [done|].
    apply stream_log_snoc.
- subst k'. cbv [mret st_ret]. exists segs, c, a, rs, None. split; [by destruct s1|done].
- left. by exists segs, c, a, rs, None.
Qed.
End Stream.
