(* ===== verification/SegmentRecovery.v ===== *)
(** * Opening segment directories (crates/sensor-host/src/capture_segments.rs)

    What [CaptureSegmentStream::open] makes of the files of a stream: the
    ordinals it discovers, the replay of the sealed segments, the recovery of the
    last one; and, with the invariant of the open stream, what a host crash
    leaves of the acknowledged records. *)

From stdpp Require Import strings gmap sorting.
From S2P Require Export CaptureSegments.

#[local] Open Scope Z_scope.

(** ** Discovering the segments *)

Definition name_ordinal (name : string) : option Z := number ← segment_number name; parse_u64 number.

Lemma name_ordinal_path (n : Z) : u64 n -> name_ordinal (wal_path n) = Some n.
Proof. intros Hn. unfold name_ordinal. rewrite segment_number_path. cbn [mbind option_bind]. by apply parse_u64_decimal. Qed.

Lemma name_ordinal_Some (name : string) (n : Z) : name_ordinal name = Some n -> name = wal_path n /\ u64 n.
Proof. unfold name_ordinal. intros (number & Hn & Hp)%bind_Some. by eapply parse_u64_Some. Qed.

Lemma ordinals_of_ok (names : list string) :
  (forall name number, name ∈ names -> segment_number name = Some number -> is_Some (parse_u64 number)) ->
  ordinals_of names = Ok (omap name_ordinal names).
Proof.
  induction names as [|name names IH]; intros Hok; [done|]. cbn [ordinals_of omap list_omap]. unfold name_ordinal at 1.
  rewrite IH by (intros ?? Hin; apply Hok; by apply list_elem_of_further).
  destruct (segment_number name) as [number|] eqn:Hn; [|done]. cbn [mbind option_bind].
  destruct (Hok name number ltac:(apply list_elem_of_here) Hn) as (n & ->). done.
Qed.

Lemma adjacent_equal_seqZ (o : Z) (k : nat) : adjacent_equal (seqZ o (Z.of_nat k)) = false.
Proof.
  revert o. induction k as [|k IH]; intros o; [done|]. rewrite seqZ_cons by lia.
  replace (Z.pred (Z.of_nat (S k))) with (Z.of_nat k) by lia. specialize (IH (Z.succ o)).
  destruct k as [|k]; [done|]. rewrite seqZ_cons in * by lia.
  change (adjacent_equal (o :: Z.succ o :: ?l)) with ((o =? Z.succ o) || adjacent_equal (Z.succ o :: l)).
  rewrite IH, (proj2 (Z.eqb_neq _ _)) by lia. done.
Qed.

Lemma seqZ_snoc (o : Z) (k : nat) : seqZ o (Z.of_nat (k + 1)) = seqZ o (Z.of_nat k) ++ [o + Z.of_nat k].
Proof. rewrite Nat2Z.inj_add, seqZ_app by lia. f_equal. Qed.

Lemma app_snoc_ne {A : Type} (l : list A) (x : A) : l ++ [x] <> [].
Proof. by destruct l. Qed.

Lemma match_nonempty {A B : Type} (l : list A) (u v : B) : l <> [] -> match l with [] => u | _ => v end = v.
Proof. by destruct l. Qed.

Lemma sorted_seqZ (o : Z) (k : nat) : Sorted Z.le (seqZ o (Z.of_nat k)).
Proof.
  revert o. induction k as [|k IH]; intros o; [constructor|]. rewrite seqZ_cons by lia.
  replace (Z.pred (Z.of_nat (S k))) with (Z.of_nat k) by lia. constructor; [apply IH|].
  destruct k as [|k]; [constructor|]. rewrite seqZ_cons by lia. constructor. lia.
Qed.

Lemma discover_ok (o : Z) (k : nat) (d : Directory) :
  names_ok (d_entries d) -> 0 <= o -> o + Z.of_nat k <= 2 ^ 64 ->
  (forall n, u64 n -> is_Some (d_entries d !! wal_path n) <-> o <= n < o + Z.of_nat k) ->
  exists r d', discover_segment_ordinals d = (r, d') /\ d_entries d' = d_entries d /\
    (r = Ok (seqZ o (Z.of_nat k)) \/ r = Err SegmentIo).
Proof.
  intros Hnames Ho Hk Hfiles. unfold discover_segment_ordinals. cbv [mbind st_bind].
  destruct (directory_call_entries d) as (r0 & d0 & -> & E0 & [->| ->]); [|exists (Err SegmentIo), d0; by auto].
  unfold gets, lift. rewrite E0.
  assert (Hin : forall name, name ∈ map fst (map_to_list (d_entries d)) <-> is_Some (d_entries d !! name)).
  { intros name. rewrite list_elem_of_fmap. split.
    - intros ([name' f] & -> & Hm). apply elem_of_map_to_list in Hm. by exists f.
    - intros (f & Hf). exists (name, f). by rewrite elem_of_map_to_list. }
  rewrite ordinals_of_ok by (intros name number Hn; apply Hnames, Hin, Hn).
  set (l := omap name_ordinal _).
  assert (Hperm : l ≡ₚ seqZ o (Z.of_nat k)).
  { apply NoDup_Permutation.
    - unfold l. pose proof (NoDup_fst_map_to_list (d_entries d)) as Hnd. change (fmap fst) with (map (@fst string File)) in Hnd.
      revert Hnd. generalize (map fst (map_to_list (d_entries d))). intros names. induction 1 as [|name names Hni Hnd IH]; [constructor|].
      cbn [omap list_omap]. destruct (name_ordinal name) as [n|] eqn:Hn; [|done]. constructor; [|done].
      intros (name' & Hin' & Hn')%list_elem_of_omap. apply name_ordinal_Some in Hn as (-> & _), Hn' as (-> & _). done.
    - apply NoDup_seqZ.
    - intros n. unfold l. rewrite list_elem_of_omap, elem_of_seqZ. setoid_rewrite Hin. split.
      + intros (name & Hname & (-> & Hu)%name_ordinal_Some). by apply Hfiles.
      + intros Hn. assert (Hu : u64 n) by ilia. exists (wal_path n). split; [by apply Hfiles|by apply name_ordinal_path]. }
  assert (Hsort : merge_sort Z.le l = seqZ o (Z.of_nat k)).
  { apply (Sorted_unique Z.le).
    - apply Sorted_merge_sort, _.
    - apply sorted_seqZ.
    - by rewrite merge_sort_Permutation. }
  rewrite Hsort, adjacent_equal_seqZ. cbv [mret st_ret]. eexists _, _. auto.
Qed.

(** ** Opening the log of one segment *)

(** A log that ends with its last record is read as it is. *)
Lemma wal_open_complete c name d f rs sealed :
  typed c -> fits c rs -> window_log c rs sealed -> d_entries d !! name = Some f ->
  f_data f = header_bytes c ++ records_bytes rs ->
  exists k, wal_open name c d = (Ok k, set_entries (<[name := ws_file k]> (d_entries d)) d) /\
    f_data (ws_file k) = f_data f /\ f_synced (ws_file k) = f_synced f /\ memory_inv c rs k /\
    forall a, sure_prefix a rs -> (sure_end a <= f_synced f <= length (f_data f))%nat -> sink_ok c a rs k.
Proof.
  intros Hc Hfit Hlog Hf Hd. destruct (window_log_processed c Hc rs sealed Hlog) as (L & Hp & _).
  unfold wal_open, open_or_create. rewrite Hf.
  assert (Hne : f_data f <> []).
  { rewrite Hd. intros H. apply (f_equal length) in H. rewrite length_app, length_header_bytes in H by done. done. }
  pose proof (length_log_end c Hc rs) as Hlen. rewrite <- Hd in Hlen.
  rewrite (sink_open_existing c Hc f Hne).
  rewrite (recover_complete c Hc f rs (manifest_list sealed) L []).
  - eexists. split; [reflexivity|]. cbn [opened recovered_file ws_file f_data f_synced].
    assert (Hmem : memory_inv c rs (opened c L (recovery_of rs (manifest_list sealed) L (Z.of_nat (@length Init.Byte.byte []))) (log_end rs) f)).
    { split_and!; try done. by exists (manifest_list sealed), 0. }
    split_and!; [done..|]. intros a Hpre Hs. apply opened_ok; [done|done|done|]. rewrite <- Hlen. exact Hs.
  - unfold fits in Hfit. by rewrite Hlen.
  - split; [by rewrite app_nil_r|]. left. cbn. lia.
  - done.
Qed.

(** The last log, which holds the sure records and perhaps others of [all]. *)
Lemma wal_open_last c name d f a all sealed :
  typed c -> fits c all -> window_log c all sealed -> d_entries d !! name = Some f -> disk_inv c a all f ->
  let '(r, d') := wal_open name c d in
  match r with
  | Ok k => d' = set_entries (<[name := ws_file k]> (d_entries d)) d /\
      exists rs sealed' a', rs `prefix_of` all /\ sure_prefix a rs /\ sink_ok c a' rs k /\ window_log c rs sealed' /\
        (a' = a \/ a = None /\ a' = Some rs) /\
        (f_data f = header_bytes c ++ records_bytes all -> rs = all)
  | Err err => err = SegmentWal Io \/ err = SegmentWal TruncatedFileHeader /\ a = None
  | Panic => False
  end.
Proof.
  intros Hc Hfit Hlog Hf Hdisk.
  destruct (decide (f_data f = header_bytes c ++ records_bytes all)) as [Hd|Hd].
  { destruct (wal_open_complete c name d f all sealed Hc Hfit Hlog Hf Hd) as (k & -> & _ & _ & _ & Hk).
    split; [done|]. exists all, sealed, a. destruct Hdisk as (_ & Hpre & Hs & _).
    split_and!; try done; [by apply Hk|by left]. }
  assert (Hsize : sized c (length (f_data f))).
  { destruct Hdisk as (_ & _ & _ & n & Hn). apply (f_equal length) in Hn. rewrite length_take, length_log_end in Hn by done.
    unfold fits, sized in *. lia. }
  unfold wal_open, open_or_create. rewrite Hf.
  destruct (decide (f_data f = [])) as [Hempty|Hne].
  - assert (a = None) as ->.
    { destruct a as [rs0|]; [|done]. destruct Hdisk as (_ & _ & Hs & _). rewrite Hempty in Hs.
      cbn [sure_end length] in Hs. unfold log_end in Hs. change FILE_HEADER_BYTES with 64%nat in Hs. lia. }
    assert (Hfit0 : fits c []).
    { unfold fits, sized in *. assert (log_end [] <= log_end all)%nat by (unfold log_end; cbn; lia). lia. }
    pose proof (sink_open_fresh c Hc f Hempty Hfit0) as H.
    destruct (sink_open c f) as [[k|err|] f']; cbn [map_err]; [|left; by destruct H as (-> & _)|done].
    destruct H as (Hk & ->). split; [done|]. exists [], None, (Some []).
    split_and!; try done; [apply prefix_nil|apply window_log_nil|by right].
  - pose proof (sink_open_ok c Hc a all f Hdisk Hsize Hne) as H.
    destruct (sink_open c f) as [[k|err|] f']; cbn [map_err]; [| |done].
    + destruct H as (rs & Hpre & Hk & ->). split; [done|].
      assert (Hw : exists sealed', window_log c rs sealed').
      { destruct (decide (rs = all)) as [->|Hr]; [by exists sealed|]. exists None.
        by eapply window_log_prefix. }
      destruct Hw as (sealed' & Hw). exists rs, sealed', a. pose proof Hk as (_ & _ & _ & _ & Hsure & _).
      split_and!; try done. by left.
    + destruct H as (_ & [(-> & _)|(-> & Hlen)]); [by left|right]. split; [done|].
      destruct a as [rs0|]; [|done]. destruct Hdisk as (_ & _ & Hs & _). cbn [sure_end] in Hs. unfold log_end in Hs. lia.
Qed.

(** ** Opening a directory *)

Section Reopen.
Context (base : CaptureWalConfig) (Hbase : typed base).

Abbreviation ordinal_of := cfg_first_window_ordinal.

(** The files of a stream that nobody has open: the sealed segments, and the
    last one, which durably holds [a] and at most [all]. [b]: all that is
    complete is synced. *)
Record dir_state (b : bool) (files : gmap string File) (segs : list (list CaptureRecord * CaptureWindowManifest))
  (c : CaptureWalConfig) (a : option (list CaptureRecord)) (all : list CaptureRecord)
  (sealed : option CaptureWindowManifest) : Prop := mkDirState {
ds_chain : chain base base segs c;
ds_log : window_log c all sealed;
ds_closed : closed_files base b files base segs;
ds_file : exists f, files !! wal_path (ordinal_of c) = Some f /\ disk_inv c a all f /\
  (is_Some (files !! manifest_path (ordinal_of c)) ->
   f_data f = header_bytes c ++ records_bytes all /\ (b = true -> a = Some all));
ds_manifest : current_manifest files c sealed;
ds_frontier : forall n, u64 n -> n < ordinal_of base \/ ordinal_of c < n ->
  files !! manifest_path n = None /\ files !! wal_path n = None;
ds_names : names_ok files
}.

(** The sealed segments are replayed one after the other. *)
Lemma open_closed b segs c0 c' rest d :
typed c0 -> same_stream base c0 -> chain base c0 segs c' -> closed_files base b (d_entries d) c0 segs ->
ordinal_of c0 + Z.of_nat (length (concat (map fst segs))) + Z.of_nat (log_end (concat (map fst segs))) < 2 ^ 63 ->
rest <> [] ->
exists d', open_segments (seqZ (ordinal_of c0) (Z.of_nat (length segs)) ++ rest) base (ordinal_of c0)
    (cfg_recovered_cursor c0) None d
  = open_segments rest base (ordinal_of c') (cfg_recovered_cursor c') None d' /\
  closed_files base b (d_entries d') c0 segs /\ d_faults d' = d_faults d /\ d_new d' = d_new d /\
  forall name, (forall n, u64 n -> ordinal_of c0 <= n < ordinal_of c0 + Z.of_nat (length segs) -> name <> wal_path n) ->
    d_entries d' !! name = d_entries d !! name.
Proof.
intros Hc Hsame Hchain Hfiles Hbound Hrest. revert c0 d Hc Hsame Hchain Hfiles Hbound.
induction segs as [|[rs m] segs IH]; intros c0 d Hc Hsame Hchain Hfiles Hbound.
{ cbn in Hchain. subst c'. exists d. done. }
destruct Hchain as (Hlog & Hchain). destruct Hfiles as (((f & Hf & Hd & Hsync) & mf & Hmf & Hm) & Hfiles).
cbn [map concat fst] in Hbound. pose proof Hc as (_ & _ & _ & Hoc & _).
pose proof (window_log_nonempty _ _ _ Hlog) as Hne. rewrite length_app in Hbound.
assert (Hend : (log_end rs <= log_end (rs ++ concat (map fst segs)))%nat) by (rewrite log_end_app; lia).
assert (Hend' : (log_end (concat (map fst segs)) <= log_end (rs ++ concat (map fst segs)))%nat) by apply log_end_le.
assert (Hfit : fits c0 rs) by (unfold fits, sized, unsigned in *; lia).
assert (Hlen : (0 < length rs)%nat) by (destruct rs; [done|cbn; lia]).
destruct (seg_next_typed base Hbase c0 rs m Hc Hlog ltac:(unfold unsigned in *; lia)) as (Hn & Hno).
destruct (window_log_manifest c0 rs m Hc Hlog) as (_ & _ & Hord & Hfirst & Ht & Hcon).
destruct (wal_open_complete c0 (wal_path (ordinal_of c0)) d f rs (Some m) Hc Hfit Hlog Hf Hd)
  as (k & Hopen & Hkd & Hks & Hmem & _).
destruct (memory_recovery c0 rs (Some m) k Hc Hlog Hmem) as (Hcount & Hlast & Hdur).
set (d1 := set_entries (<[wal_path (ordinal_of c0) := ws_file k]> (d_entries d)) d) in *.
assert (Hpub : publish_manifest m d1 = (Ok tt, d1)).
{ apply (publish_existing m d1 mf Ht Hcon); [|done]. cbn [d1 set_entries d_entries].
  rewrite lookup_insert_ne, Hord by (apply not_eq_sym, manifest_not_wal). done. }
assert (Hframe : forall name, name <> wal_path (ordinal_of c0) -> d_entries d1 !! name = d_entries d !! name).
{ intros name Hname. cbn [d1 set_entries d_entries]. by rewrite lookup_insert_ne by (by apply not_eq_sym). }
pose proof (chain_typed base Hbase segs (seg_next base m) c' Hn (same_stream_next base m) Hchain) as Hchain'.
pose proof (chain_length _ _ _ _ Hchain) as Hsegs.
assert (Hfiles1 : closed_files base b (d_entries d1) (seg_next base m) segs).
{ eapply closed_files_frame; [exact Hbase|exact Hn|exact Hchain|unfold unsigned in *; lia| |exact Hfiles].
  rewrite Hno. intros n Hu Hrange. rewrite !Hframe; [done|apply manifest_not_wal|].
  intros Heq. apply wal_path_inj in Heq; [lia|done..]. }
destruct (IH (seg_next base m) d1 Hn (same_stream_next base m) Hchain Hfiles1 ltac:(lia))
  as (d' & Heq & Hfiles' & Hfaults & Hnew & Hframe').
exists d'. split; [|split; [|split; [done|split; [done|]]]].
- cbn [length]. rewrite Nat2Z.inj_succ, seqZ_cons by lia. rewrite Z.pred_succ. cbn [app open_segments].
  rewrite Z.eqb_refl. cbn [negb]. rewrite <- Hsame. cbv [mbind st_bind]. rewrite Hopen, Hcount, Hlast, Hdur.
  change (Z.of_nat (length (manifest_list (Some m))) =? 0) with false.
  change (Z.of_nat (length (manifest_list (Some m))) =? 1) with true. cbv iota. cbn [ok_or].
  unfold lift at 1. unfold validate_segment_manifest. rewrite Hord, Hfirst, !Z.eqb_refl. cbn [negb].
  unfold lift at 1. fold d1. rewrite Hpub. unfold lift. rewrite checked_add_ok by lia. cbn [ok_or].
  assert (Hlr : (length (seqZ (Z.succ (ordinal_of c0)) (Z.of_nat (length segs)) ++ rest) =? 0)%nat = false).
  { apply Nat.eqb_neq. rewrite length_app. destruct rest; [done|]. cbn. lia. }
  rewrite Hlr. cbv [mret st_ret]. rewrite Hno in Heq. exact Heq.
- split; [|exact Hfiles']. assert (Hw : forall n, n = ordinal_of c0 -> d_entries d' !! wal_path n = d_entries d1 !! wal_path n).
  { intros n ->. apply Hframe'. rewrite Hno. intros n Hu Hr He. apply wal_path_inj in He; [lia|done..]. }
  assert (Hma : d_entries d' !! manifest_path (ordinal_of c0) = d_entries d !! manifest_path (ordinal_of c0)).
  { rewrite Hframe' by (intros; apply manifest_not_wal). apply Hframe, manifest_not_wal. }
  split; [|exists mf; by rewrite Hma]. exists (ws_file k). rewrite Hw by done. split.
  + cbn [d1 set_entries d_entries]. by rewrite lookup_insert_eq.
  + rewrite Hkd, Hks. done.
- intros name Hname. rewrite Hframe', Hframe; [done|..].
  + apply Hname; [done|]. cbn [length]. lia.
  + intros n Hu Hr. apply Hname; [done|]. cbn [length]. lia.
Qed.
Lemma dir_config b files segs c a all sealed :
dir_state b files segs c a all sealed -> stream_fits base (stream_log segs all) ->
typed c /\ same_stream base c /\ ordinal_of c = ordinal_of base + Z.of_nat (length segs) /\ fits c all /\
ordinal_of base + Z.of_nat (length segs) + 1 < 2 ^ 63.
Proof.
intros Hd Hfit. pose proof (chain_length _ _ _ _ (ds_chain _ _ _ _ _ _ _ Hd)) as Hl.
pose proof (log_end_le (concat (map fst segs)) all) as He. unfold stream_fits, stream_log in Hfit. rewrite length_app in Hfit.
pose proof Hbase as (_ & _ & _ & Hob & _). unfold unsigned in Hob.
assert (Hend : (64 <= log_end all)%nat) by (unfold log_end; change FILE_HEADER_BYTES with 64%nat; lia).
destruct (chain_typed base Hbase segs base c Hbase (same_stream_base base Hbase) (ds_chain _ _ _ _ _ _ _ Hd) ltac:(lia))
  as (Hc & Hs & Ho). pose proof Hc as (_ & _ & _ & Hoc & _). unfold unsigned in Hoc.
unfold fits, sized. split_and!; try done; lia.
Qed.

(** The recovered records; the flag stays if they are exactly the sure ones. *)
Definition still (b : bool) (a : option (list CaptureRecord)) (rs : list CaptureRecord) : bool :=
b && bool_decide (rs = default [] a).

(** The stream around a sink that [open] has just opened. *)
Lemma opened_state b d d' segs c a all sealed k rs sealed' a' :
dir_state b (d_entries d) segs c a all sealed -> stream_fits base (stream_log segs all) ->
d_entries d' = <[wal_path (ordinal_of c) := ws_file k]> (d_entries d) ->
rs `prefix_of` all -> sink_ok c a' rs k -> window_log c rs sealed' -> a' = a \/ a = None /\ a' = Some rs ->
(is_Some (d_entries d !! manifest_path (ordinal_of c)) -> rs = all) ->
stream_state base (still b a rs) (mkStream d' base (ordinal_of c) k) segs c a' rs sealed'.
Proof.
intros Hd Hfit He Hpre Hk Hlog Ha Hman. destruct (dir_config _ _ _ _ _ _ _ Hd Hfit) as (Hc & _ & Ho & _ & Hroom).
pose proof Hc as (_ & _ & _ & Hoc & _).
split; cbn [ss_base_config ss_current_ordinal ss_directory ss_current]; try done.
- exact (ds_chain _ _ _ _ _ _ _ Hd).
- lia.
- assert (Hcl : closed_files base b (d_entries d') base segs).
  { eapply closed_files_frame; [exact Hbase|exact Hbase|exact (ds_chain _ _ _ _ _ _ _ Hd)|lia| |exact (ds_closed _ _ _ _ _ _ _ Hd)].
    intros n Hu Hn. rewrite He, !lookup_insert_ne; [done|apply not_eq_sym, manifest_not_wal|].
    intros Heq. apply wal_path_inj in Heq; [lia|done..]. }
  destruct (still b a rs) eqn:Hst; [|by eapply closed_files_weaken].
  unfold still in Hst. apply andb_true_iff in Hst as (-> & _). exact Hcl.
- by left.
- unfold still. intros [_ Hrs%bool_decide_eq_true]%andb_true_iff. unfold covered.
  destruct Ha as [->|(-> & ->)]; [by destruct a|done].
- rewrite He, lookup_insert_eq. by eexists.
- intros f Hf. rewrite He, lookup_insert_ne in Hf by (apply not_eq_sym, manifest_not_wal).
  destruct (ds_manifest _ _ _ _ _ _ _ Hd f Hf) as (m & -> & Hm). exists m. split; [|done].
  rewrite (Hman ltac:(by eexists)) in Hlog. eapply window_log_unique; [exact Hc|exact Hlog|exact (ds_log _ _ _ _ _ _ _ Hd)].
- intros n Hu Hn. destruct (ds_frontier _ _ _ _ _ _ _ Hd n Hu Hn) as (H1 & H2). rewrite He. split.
  + rewrite lookup_insert_ne by (apply not_eq_sym, manifest_not_wal). exact H1.
  + intros f. rewrite lookup_insert_ne, H2; [done|]. intros Heq. apply wal_path_inj in Heq; [lia|done..].
- intros name number Hname Hnum. rewrite He in Hname. destruct (decide (name = wal_path (ordinal_of c))) as [->|Hne].
  + by apply wal_path_number in Hnum.
  + rewrite lookup_insert_ne in Hname by (by apply not_eq_sym). by apply (ds_names _ _ _ _ _ _ _ Hd name number).
Qed.
Lemma closed_files_wal b files segs c c' n :
typed c -> same_stream base c -> chain base c segs c' -> closed_files base b files c segs ->
ordinal_of c + Z.of_nat (length segs) < 2 ^ 64 ->
ordinal_of c <= n < ordinal_of c + Z.of_nat (length segs) -> is_Some (files !! wal_path n).
Proof.
revert c. induction segs as [|[rs m] segs IH]; intros c Hc Hs; cbn [chain closed_files length]; [lia|].
intros (Hlog & Hchain) (((f & Hf & _) & _) & Hfs) Ho Hn.
destruct (decide (n = ordinal_of c)) as [->|Hne]; [by exists f|].
destruct (seg_next_typed base Hbase c rs m Hc Hlog ltac:(lia)) as (Hc' & Ho').
apply (IH (seg_next base m)); try done; lia.
Qed.

(** Publishing a manifest leaves the logs alone. *)
Lemma publish_wal m d n :
typed m -> manifest_contract m ->
(forall f, d_entries d !! manifest_path (cm_window_ordinal m) = Some f -> manifest_file m f) ->
d_entries (snd (publish_manifest m d)) !! wal_path n = d_entries d !! wal_path n.
Proof.
intros Ht Hcon Hold. pose proof (publish_manifest_ok m d Ht Hcon Hold) as H.
destruct (publish_manifest m d) as [r d']. destruct H as ((Hframe & _) & _).
apply Hframe; [by apply not_eq_sym, temporary_not_wal|by apply not_eq_sym, manifest_not_wal].
Qed.

(** The successor of a sealed last segment, opened by the loop. *)
Lemma open_successor b d1 segs c a rs m k :
stream_state base b (mkStream d1 base (ordinal_of c) k) segs c a rs (Some m) ->
stream_fits base (stream_log segs rs) ->
d_entries d1 !! wal_path (ordinal_of c) = Some (ws_file k) ->
(forall n, u64 n -> ordinal_of c < n -> d_entries d1 !! wal_path n = None) ->
let '(r, d3) := (_ ← publish_manifest m; wal_open (wal_path (ordinal_of c + 1)) (seg_next base m)) d1 in
match r with
| Ok k2 => stream_holds base b (mkStream d3 base (ordinal_of c + 1) k2) (stream_log segs rs)
| Err err => err = SegmentIo \/ err = SegmentWal Io
| Panic => False
end.
Proof.
intros Hs Hfit Hentry Hfront. destruct (stream_config base Hbase _ _ _ _ _ _ _ Hs) as (Hc & _ & Ho).
destruct (stream_fits_current base Hbase _ _ _ _ _ _ _ Hs Hfit) as (_ & Hroom & Hfitn).
pose proof (st_log _ _ _ _ _ _ _ _ Hs) as Hlog. pose proof Hc as (_ & _ & _ & Hoc & _).
destruct (seg_next_typed base Hbase c rs m Hc Hlog ltac:(lia)) as (Hn & Hno).
destruct (window_log_manifest c rs m Hc Hlog) as (_ & _ & Hord & _ & Ht & Hcon).
assert (Hu1 : u64 (ordinal_of c + 1)) by (unfold unsigned in *; lia).
assert (Hold : forall f, d_entries d1 !! manifest_path (cm_window_ordinal m) = Some f -> manifest_file m f).
{ rewrite Hord. intros f Hf. destruct (st_manifest _ _ _ _ _ _ _ _ Hs f Hf) as (m' & [= <-] & Hm). exact Hm. }
pose proof (fun n => publish_wal m d1 n Ht Hcon Hold) as Hwal.
pose proof (stream_publish base Hbase _ _ _ _ _ _ _ Hs) as Hpub. unfold on_directory, zoom in Hpub. cbn [ss_directory] in Hpub.
cbv [mbind st_bind]. destruct (publish_manifest m d1) as [r1 d2]. cbn [snd] in Hwal.
destruct Hpub as (Hs2 & _ & Hr). destruct r1 as [[]|err|]; cbn [map_err id] in Hr;
  [|left; by destruct Hr as [(? & _)|[= ->]]|by destruct Hr as [(? & _)|?]].
destruct Hr as [(_ & Hman)|?]; [|done]. cbn [ss_directory] in Hman.
assert (Hnone : d_entries d2 !! wal_path (ordinal_of c + 1) = None) by (rewrite Hwal; apply Hfront; [exact Hu1|lia]).
pose proof (wal_open_new (seg_next base m) (wal_path (ordinal_of c + 1)) d2 Hn (Hfitn m eq_refl)) as Hnext.
rewrite Hnone in Hnext. specialize (Hnext ltac:(intros f [=])).
destruct (wal_open (wal_path (ordinal_of c + 1)) (seg_next base m) d2) as [[k2|err|] d3];
  destruct Hnext as (Hframe & Hnext); [| |exact Hnext].
2: { destruct Hnext as ([->|(_ & [? [=]])] & _). by right. }
destruct Hnext as (Hentry2 & Hk2).
destruct (stream_advance base Hbase _ _ segs c a rs m k2 d3 Hs2 Hfit Hman Hframe Hentry2 Hk2) as (a2 & Hs3).
exists (segs ++ [(rs, m)]), (seg_next base m), a2, [], None. split; [|apply stream_log_close].
assert (Hsame : stream_files (mkStream d3 base (ordinal_of c) k) = d_entries d3).
{ unfold stream_files. cbn [ss_directory ss_current_ordinal ss_current]. apply insert_id. rewrite Hframe, Hwal; [exact Hentry|].
  intros Heq. apply wal_path_inj in Heq; [lia|exact Hoc|exact Hu1]. }
unfold replace_current in Hs3. cbn [ss_directory ss_base_config ss_current_ordinal ss_current] in Hs3.
rewrite Hsame in Hs3. destruct d3 as [es fs ns]. exact Hs3.
Qed.

Lemma frontier_free b d segs c a all sealed name n f :
dir_state b (d_entries d) segs c a all sealed -> u64 n -> ordinal_of c < n -> name = wal_path (ordinal_of c) ->
d_entries (set_entries (<[name := f]> (d_entries d)) d) !! wal_path n = None.
Proof.
intros Hd Hu Hn ->. destruct (ds_frontier _ _ _ _ _ _ _ Hd n Hu (or_intror Hn)) as (_ & H).
cbn [set_entries d_entries]. rewrite lookup_insert_ne; [exact H|]. destruct (ds_file _ _ _ _ _ _ _ Hd) as (f' & Hf' & _).
intros Heq. rewrite Heq in Hf'. congruence.
Qed.

(** The last turn of the loop. *)
Lemma open_last b segs c a all sealed d :
dir_state b (d_entries d) segs c a all sealed -> stream_fits base (stream_log segs all) ->
let '(r, d') := open_segments [ordinal_of c] base (ordinal_of c) (cfg_recovered_cursor c) None d in
match r with
| Ok (ordinal, Some k) => exists rs, rs `prefix_of` all /\ sure_prefix a rs /\
    stream_holds base (still b a rs) (mkStream d' base ordinal k) (stream_log segs rs)
| Ok (_, None) => False
| Err err => err = SegmentIo \/ err = SegmentWal Io \/ err = SegmentWal TruncatedFileHeader /\ a = None
| Panic => False
end.
Proof.
intros Hd Hfit. destruct (dir_config _ _ _ _ _ _ _ Hd Hfit) as (Hc & Hsame & Ho & Hfitc & Hroom).
destruct (ds_file _ _ _ _ _ _ _ Hd) as (f & Hf & Hdisk & Hcomplete).
pose proof (wal_open_last c (wal_path (ordinal_of c)) d f a all sealed Hc Hfitc (ds_log _ _ _ _ _ _ _ Hd) Hf Hdisk) as Hopen.
cbn [open_segments]. rewrite Z.eqb_refl. cbn [negb]. rewrite <- Hsame. cbv [mbind st_bind].
destruct (wal_open (wal_path (ordinal_of c)) c d) as [[k|err|] d1];
  [|destruct Hopen as [->|Hopen]; [right; by left|by right; right]|exact Hopen].
destruct Hopen as (-> & rs & sealed' & a' & Hpre & Hsure & Hk & Hlog & Ha & Hall).
set (d1 := set_entries (<[wal_path (ordinal_of c) := ws_file k]> (d_entries d)) d).
pose proof Hc as (_ & _ & _ & Hoc & _).
pose proof (opened_state b d d1 segs c a all sealed k rs sealed' a' Hd Hfit eq_refl Hpre Hk Hlog Ha) as Hs.
assert (Hlogfit : stream_fits base (stream_log segs rs)).
{ destruct Hpre as [tl ->]. unfold stream_log in Hfit. rewrite app_assoc in Hfit. by apply stream_fits_prefix in Hfit. }
specialize (Hs (fun H => Hall (proj1 (Hcomplete H)))).
destruct (memory_recovery c rs sealed' k Hc Hlog ltac:(apply Hk)) as (Hcount & Hlast & Hdur).
rewrite Hcount. destruct sealed' as [m|]; cbn [manifest_list length].
- change (Z.of_nat 1 =? 0) with false. change (Z.of_nat 1 =? 1) with true. cbv iota. rewrite Hlast, Hdur. cbn [ok_or].
  destruct (window_log_manifest c rs m Hc Hlog) as (_ & _ & Hord & Hfirst & Ht & Hcon).
  unfold lift at 1. unfold validate_segment_manifest. rewrite Hord, Hfirst, !Z.eqb_refl. cbn [negb]. unfold lift at 1.
  pose proof (open_successor _ d1 segs c a' rs m k Hs Hlogfit (lookup_insert_eq _ _ _)) as Hnext.
  assert (Hcfg : with_start base (cm_end_exclusive m) (ordinal_of c + 1) = seg_next base m).
  { unfold seg_next. by rewrite Hord. }
  unfold lift at 1. rewrite checked_add_ok by (unfold unsigned in Hoc; lia). cbn [ok_or]. rewrite Hcfg.
  cbv [mbind st_bind] in Hnext. specialize (Hnext ltac:(intros n Hu Hn; exact (frontier_free _ _ _ _ _ _ _ _ _ _ Hd Hu Hn eq_refl))).
  fold d1. destruct (publish_manifest m d1) as [[u|err|] d2]; cbv beta iota in Hnext;
    [|destruct Hnext as [->| ->]; [by left|right; by left]|exact Hnext].
  change (0 =? 0)%nat with true. cbv beta iota.
  destruct (wal_open (wal_path (ordinal_of c + 1)) (seg_next base m) d2) as [[k2|err|] d3]; cbv beta iota in Hnext;
    [|destruct Hnext as [->| ->]; [by left|right; by left]|exact Hnext].
  cbv [mret st_ret]. by exists rs.
- change (Z.of_nat 0 =? 0) with true. cbv iota. cbn [length Nat.eqb negb]. unfold path_exists, gets. fold d1.
  rewrite bool_decide_eq_false_2.
  + cbv [mret st_ret]. exists rs. split; [exact Hpre|]. split; [exact Hsure|].
    exists segs, c, a', rs, None. split; [exact Hs|reflexivity].
  + intros (mf & Hmf). destruct (st_manifest _ _ _ _ _ _ _ _ Hs mf Hmf) as (m & [=] & _).
Qed.
(** Replaying the sealed segments changes no file. *)
Lemma dir_state_replayed b files files' segs c a all sealed :
dir_state b files segs c a all sealed -> stream_fits base (stream_log segs all) ->
closed_files base b files' base segs ->
(forall name, (forall n, u64 n -> ordinal_of base <= n < ordinal_of base + Z.of_nat (length segs) -> name <> wal_path n) ->
   files' !! name = files !! name) ->
dir_state b files' segs c a all sealed.
Proof.
intros Hd Hfit Hcl Hframe. destruct (dir_config _ _ _ _ _ _ _ Hd Hfit) as (Hc & _ & Ho & _ & Hroom).
pose proof Hc as (_ & _ & _ & Hoc & _).
assert (Hman : forall n, files' !! manifest_path n = files !! manifest_path n).
{ intros n. apply Hframe. intros ? _ _. apply manifest_not_wal. }
assert (Hwal : forall n, u64 n -> n < ordinal_of base \/ ordinal_of c <= n -> files' !! wal_path n = files !! wal_path n).
{ intros n Hu Hn. apply Hframe. intros n' Hu' Hn' Heq. apply wal_path_inj in Heq; [lia|exact Hu|exact Hu']. }
split.
- exact (ds_chain _ _ _ _ _ _ _ Hd).
- exact (ds_log _ _ _ _ _ _ _ Hd).
- exact Hcl.
- rewrite Hwal, Hman by (exact Hoc || lia). exact (ds_file _ _ _ _ _ _ _ Hd).
- unfold current_manifest. rewrite Hman. exact (ds_manifest _ _ _ _ _ _ _ Hd).
- intros n Hu Hn. rewrite Hman, Hwal by (exact Hu || lia). exact (ds_frontier _ _ _ _ _ _ _ Hd n Hu Hn).
- intros name number Hname Hnum. destruct (parse_u64 number) as [n|] eqn:Hp; [by eexists|].
  rewrite Hframe in Hname; [|intros n Hu _ ->; apply (wal_path_number n number Hu) in Hnum as [? Hnum]; congruence].
  destruct (ds_names _ _ _ _ _ _ _ Hd name number Hname Hnum). congruence.
Qed.

Lemma directory_call_same d :
let '(r, d') := directory_call d in (r = Ok tt \/ r = Err SegmentIo) /\ d_entries d' = d_entries d.
Proof. destruct (directory_call_entries d) as (r & d' & -> & H & Hr). by split. Qed.

(** The names that [open] finds are those of consecutive segments. *)
Lemma dir_state_ordinals b files segs c a all sealed n :
dir_state b files segs c a all sealed -> stream_fits base (stream_log segs all) -> u64 n ->
is_Some (files !! wal_path n) <-> ordinal_of base <= n < ordinal_of base + Z.of_nat (length segs + 1).
Proof.
intros Hd Hfit Hu. destruct (dir_config _ _ _ _ _ _ _ Hd Hfit) as (Hc & _ & Ho & _ & Hroom). split.
- intros Hf. destruct (decide (n < ordinal_of base \/ ordinal_of c < n)) as [Hn|Hn]; [|lia].
  destruct (ds_frontier _ _ _ _ _ _ _ Hd n Hu Hn) as (_ & H). rewrite H in Hf. by destruct Hf.
- intros Hn. destruct (decide (n = ordinal_of c)) as [->|Hne].
  + destruct (ds_file _ _ _ _ _ _ _ Hd) as (f & Hf & _). by exists f.
  + eapply closed_files_wal; [exact Hbase|exact (same_stream_base base Hbase)|exact (ds_chain _ _ _ _ _ _ _ Hd)
      |exact (ds_closed _ _ _ _ _ _ _ Hd)|lia|lia].
Qed.

(** Opening a stream whose files hold the records [stream_log segs all], of
    which all but the unsynced last ones are sure. *)
Lemma stream_open_ok b segs c a all sealed d :
dir_state b (d_entries d) segs c a all sealed -> stream_fits base (stream_log segs all) ->
let '(r, d') := stream_open base d in
match r with
| Ok s => exists rs, rs `prefix_of` all /\ sure_prefix a rs /\ ss_directory s = d' /\
    stream_holds base (still b a rs) s (stream_log segs rs)
| Err err => err = SegmentIo \/ err = SegmentWal Io \/ err = SegmentWal TruncatedFileHeader /\ a = None
| Panic => False
end.
Proof.
intros Hd Hfit. destruct (dir_config _ _ _ _ _ _ _ Hd Hfit) as (Hc & _ & Ho & _ & Hroom).
pose proof Hbase as (_ & _ & _ & Hob & _). unfold unsigned in Hob.
unfold stream_open, sync_directory. cbv [mbind st_bind].
assert (Hcall := directory_call_same). 
pose proof (Hcall d) as H. destruct (directory_call d) as [r1 d1]. destruct H as ([->| ->] & E1); [|by left].
pose proof (Hcall d1) as H. destruct (directory_call d1) as [r2 d2]. destruct H as ([->| ->] & E2); [|by left].
pose proof (Hcall d2) as H. destruct (directory_call d2) as [r3 d3]. destruct H as ([->| ->] & E3); [|by left].
rewrite <- E1, <- E2, <- E3 in Hd. clear Hcall E1 E2 E3 d d1 d2.
destruct (discover_ok (ordinal_of base) (length segs + 1) d3 (ds_names _ _ _ _ _ _ _ Hd) ltac:(lia) ltac:(lia)
  (fun n Hu => dir_state_ordinals _ _ _ _ _ _ _ n Hd Hfit Hu)) as (r & d4 & -> & E4 & [->| ->]); [|by left].
rewrite <- E4 in Hd. clear E4 d3. rewrite seqZ_snoc, <- Ho, (match_nonempty (_ ++ _)) by (apply app_snoc_ne).
pose proof (chain_length _ _ _ _ (ds_chain _ _ _ _ _ _ _ Hd)) as Hlen.
assert (Hbound : ordinal_of base + Z.of_nat (length (concat (map fst segs))) + Z.of_nat (log_end (concat (map fst segs))) < 2 ^ 63).
{ pose proof (stream_fits_prefix base (concat (map fst segs)) all Hfit) as H. exact H. }
destruct (open_closed b segs base c [ordinal_of c] d4 Hbase (same_stream_base base Hbase) (ds_chain _ _ _ _ _ _ _ Hd)
  (ds_closed _ _ _ _ _ _ _ Hd) Hbound ltac:(done)) as (d5 & -> & Hcl & _ & _ & Hframe).
pose proof (open_last b segs c a all sealed d5 (dir_state_replayed _ _ _ _ _ _ _ _ Hd Hfit Hcl Hframe) Hfit) as Hlast.
destruct (open_segments [ordinal_of c] base (ordinal_of c) (cfg_recovered_cursor c) None d5) as [[[ordinal [k|]]|err|] d6];
  [|destruct Hlast|exact Hlast|destruct Hlast].
destruct Hlast as (rs & Hpre & Hsure & Hs). unfold lift, get, gets. cbn [ok_or]. cbv [mret st_ret].
by exists rs.
Qed.
(** ** Closing a stream, and a crash of the host *)

(** Every file keeps what it has synced, and some prefix of what was written
    after that; the entries of the directory stay. *)
Definition host_crash (files files' : gmap string File) : Prop :=
forall name, match files !! name with
| Some f => exists k faults, (f_synced f <= k)%nat /\ files' !! name = Some (crash_image k faults f)
| None => files' !! name = None
end.

Lemma host_crash_synced files files' name f :
host_crash files files' -> files !! name = Some f -> f_synced f = length (f_data f) ->
exists f', files' !! name = Some f' /\ f_data f' = f_data f /\ f_synced f' = f_synced f.
Proof.
intros Hcr Hf Hs. specialize (Hcr name). rewrite Hf in Hcr. destruct Hcr as (k & faults & Hk & Hf').
eexists. split; [exact Hf'|]. cbn [crash_image f_data f_synced]. rewrite firstn_all2 by lia. split; [reflexivity|lia].
Qed.

Lemma host_crash_some files files' name : host_crash files files' -> is_Some (files' !! name) <-> is_Some (files !! name).
Proof.
intros Hcr. specialize (Hcr name). destruct (files !! name) as [f|].
- destruct Hcr as (k & faults & _ & ->). split; intros; by eexists.
- rewrite Hcr. done.
Qed.

Lemma only_file (o : option File) (f : File) (P : File -> Prop) : o = Some f -> P f -> forall g, o = Some g -> P g.
Proof. intros Hf Hp g Hg. pose proof (eq_trans (eq_sym Hf) Hg) as E. apply Some_inj in E as <-. exact Hp. Qed.

Lemma host_crash_manifest files files' name m :
host_crash files files' -> (forall f, files !! name = Some f -> manifest_file m f) ->
forall f', files' !! name = Some f' -> manifest_file m f'.
Proof.
intros Hcr Hm f' Hf'. destruct (proj1 (host_crash_some files files' name Hcr) (ex_intro _ f' Hf')) as (f & Hf).
destruct (Hm f Hf) as (Hd & Hs).
destruct (host_crash_synced files files' name f Hcr Hf (eq_trans Hs (eq_sym (f_equal length Hd)))) as (f2 & Hf2 & Hd2 & Hs2).
pose proof (eq_trans (eq_sym Hf') Hf2) as E. apply Some_inj in E as ->.
split; [exact (eq_trans Hd2 Hd)|exact (eq_trans Hs2 Hs)].
Qed.

Lemma closed_files_crash files files' c segs :
host_crash files files' -> closed_files base true files c segs -> closed_files base true files' c segs.
Proof.
intros Hcr. revert c. induction segs as [|[rs m] segs IH]; intros c; cbn [closed_files]; [done|].
intros (((f & Hf & Hd & Hs) & mf & Hmf & Hm) & Hfs). split; [|exact (IH _ Hfs)]. split.
- destruct (host_crash_synced _ _ _ _ Hcr Hf (Hs eq_refl)) as (f' & Hf' & Hd' & Hs').
  exists f'. split; [exact Hf'|]. split; [exact (eq_trans Hd' Hd)|]. intros _. rewrite Hs', Hd'. exact (Hs eq_refl).
- destruct (proj2 (host_crash_some files files' (manifest_path (ordinal_of c)) Hcr) (ex_intro _ mf Hmf)) as (mf' & Hmf').
  exists mf'. split; [exact Hmf'|]. eapply host_crash_manifest; [exact Hcr| |exact Hmf']. exact (only_file _ _ _ Hmf Hm).
Qed.

Lemma dir_state_crash files files' segs c a all sealed :
typed c -> host_crash files files' -> dir_state true files segs c a all sealed -> dir_state true files' segs c a all sealed.
Proof.
intros Hc Hcr Hd. split.
- exact (ds_chain _ _ _ _ _ _ _ Hd).
- exact (ds_log _ _ _ _ _ _ _ Hd).
- eapply closed_files_crash; [exact Hcr|exact (ds_closed _ _ _ _ _ _ _ Hd)].
- destruct (ds_file _ _ _ _ _ _ _ Hd) as (f & Hf & Hdisk & Hcomplete). pose proof (Hcr (wal_path (ordinal_of c))) as H.
  rewrite Hf in H. destruct H as (k & faults & Hk & Hf'). eexists. split; [exact Hf'|].
  split; [by apply disk_inv_crash|]. rewrite (host_crash_some _ _ _ Hcr). intros Hman.
  destruct (Hcomplete Hman) as (Hdata & Ha). split; [|exact Ha]. cbn [crash_image f_data]. rewrite Hdata. apply firstn_all2.
  destruct Hdisk as (_ & _ & (Hlow & _) & _). rewrite (Ha eq_refl) in Hlow. cbn [sure_end] in Hlow.
  rewrite length_log_end by exact Hc. lia.
- intros f' Hf'. destruct (proj1 (host_crash_some _ _ (manifest_path (ordinal_of c)) Hcr) (ex_intro _ f' Hf')) as (f & Hf).
  destruct (ds_manifest _ _ _ _ _ _ _ Hd f Hf) as (m & -> & Hm). exists m. split; [reflexivity|].
  eapply host_crash_manifest; [exact Hcr| |exact Hf']. exact (only_file _ _ _ Hf Hm).
- intros n Hu Hn. destruct (ds_frontier _ _ _ _ _ _ _ Hd n Hu Hn) as (H1 & H2).
  pose proof (Hcr (manifest_path n)) as C1. pose proof (Hcr (wal_path n)) as C2. rewrite H1 in C1. rewrite H2 in C2. exact (conj C1 C2).
- intros name number Hname. apply (ds_names _ _ _ _ _ _ _ Hd), (host_crash_some _ _ _ Hcr), Hname.
Qed.

Lemma stream_files_eq b s segs c a rs sealed :
stream_state base b s segs c a rs sealed ->
stream_files s = <[wal_path (ordinal_of c) := ws_file (ss_current s)]> (d_entries (ss_directory s)).
Proof. intros Hs. unfold stream_files. by rewrite (st_ordinal _ _ _ _ _ _ _ _ Hs). Qed.

(** What the closed directory shares with the one of the open stream. *)
Lemma stream_files_frame b s segs c a rs sealed name :
stream_state base b s segs c a rs sealed -> name <> wal_path (ordinal_of c) ->
stream_files s !! name = d_entries (ss_directory s) !! name.
Proof. intros Hs Hne. rewrite (stream_files_eq _ _ _ _ _ _ _ Hs). by rewrite lookup_insert_ne by (by apply not_eq_sym). Qed.

Lemma stream_files_current b s segs c a rs sealed :
stream_state base b s segs c a rs sealed -> stream_files s !! wal_path (ordinal_of c) = Some (ws_file (ss_current s)).
Proof. intros Hs. rewrite (stream_files_eq _ _ _ _ _ _ _ Hs). apply lookup_insert_eq. Qed.

Lemma stream_files_closed b s segs c a rs sealed :
stream_state base b s segs c a rs sealed -> closed_files base b (stream_files s) base segs.
Proof.
intros Hs. destruct (stream_config base Hbase _ _ _ _ _ _ _ Hs) as (Hc & _ & Ho). pose proof Hc as (_ & _ & _ & Hoc & _).
eapply closed_files_frame; [exact Hbase|exact Hbase|exact (st_chain _ _ _ _ _ _ _ _ Hs)|exact (st_room _ _ _ _ _ _ _ _ Hs)|
  |exact (st_closed _ _ _ _ _ _ _ _ Hs)].
intros n Hu Hn. rewrite !(stream_files_frame _ _ _ _ _ _ _ _ Hs); [split; reflexivity|apply manifest_not_wal|].
intros Heq. apply wal_path_inj in Heq; [lia|exact Hu|exact Hoc].
Qed.

Lemma stream_files_names b s segs c a rs sealed :
stream_state base b s segs c a rs sealed -> names_ok (stream_files s).
Proof.
intros Hs. destruct (stream_config base Hbase _ _ _ _ _ _ _ Hs) as (Hc & _ & _). pose proof Hc as (_ & _ & _ & Hoc & _).
intros name number Hname Hnum. destruct (decide (name = wal_path (ordinal_of c))) as [->|Hne].
- exact (wal_path_number _ _ Hoc Hnum).
- rewrite (stream_files_frame _ _ _ _ _ _ _ _ Hs Hne) in Hname. exact (st_names _ _ _ _ _ _ _ _ Hs name number Hname Hnum).
Qed.

(** A successor whose log exists already is the last segment of the closed stream. *)
Lemma closed_with_successor b s segs c a rs sealed f2 :
stream_state base b s segs c a rs sealed -> stream_fits base (stream_log segs rs) ->
d_entries (ss_directory s) !! wal_path (ordinal_of c + 1) = Some f2 -> u64 (ordinal_of c + 1) ->
exists m, sealed = Some m /\
  dir_state b (stream_files s) (segs ++ [(rs, m)]) (seg_next base m) None [] None.
Proof.
intros Hs Hfit Hf2 Hu. destruct (stream_config base Hbase _ _ _ _ _ _ _ Hs) as (Hc & _ & Ho).
pose proof Hc as (_ & _ & _ & Hoc & _). pose proof (st_log _ _ _ _ _ _ _ _ Hs) as Hlog.
destruct (st_frontier _ _ _ _ _ _ _ _ Hs _ Hu ltac:(right; lia)) as (Hnoman & Hfr).
destruct (Hfr f2 Hf2) as (m & -> & _ & Hdisk & mf & Hmf). exists m. split; [reflexivity|].
destruct (seg_next_typed base Hbase c rs m Hc Hlog ltac:(unfold unsigned in *; lia)) as (Hn & Hno).
destruct (st_manifest _ _ _ _ _ _ _ _ Hs mf Hmf) as (m' & [= <-] & Hm).
pose proof (fun name => stream_files_frame _ _ _ _ _ _ _ name Hs) as Hframe.
assert (Hw : forall n, u64 n -> n <> ordinal_of c -> wal_path n <> wal_path (ordinal_of c)).
{ intros n Hun Hne Heq. apply wal_path_inj in Heq; [exact (Hne Heq)|exact Hun|exact Hoc]. }
assert (Hmp : forall n, manifest_path n <> wal_path (ordinal_of c)) by (intros n; apply manifest_not_wal).
split; rewrite ?Hno.
- eapply chain_snoc; [exact (st_chain _ _ _ _ _ _ _ _ Hs)|exact Hlog].
- apply window_log_nil.
- eapply closed_files_snoc; [exact (st_chain _ _ _ _ _ _ _ _ Hs)|exact (stream_files_closed _ _ _ _ _ _ _ Hs)|].
  apply (sealed_closed_file base Hbase b s segs c a rs m _ Hs); [exact (stream_files_current _ _ _ _ _ _ _ Hs)|].
  exists mf. rewrite Hframe by apply Hmp. split; [exact Hmf|exact Hm].
- exists f2. rewrite !Hframe by (apply Hmp || (apply Hw; [exact Hu|lia])). split; [exact Hf2|]. split; [exact Hdisk|].
  rewrite Hnoman. intros [? [=]].
- intros f. rewrite Hno, Hframe by apply Hmp. intros Hf. pose proof (eq_trans (eq_sym Hf) Hnoman) as [=].
- intros n Hun Hrange. destruct (st_frontier _ _ _ _ _ _ _ _ Hs n Hun ltac:(lia)) as (H1 & H2).
  rewrite !Hframe by (apply Hmp || (apply Hw; [exact Hun|lia])). split; [exact H1|].
  destruct (d_entries (ss_directory s) !! wal_path n) as [f|] eqn:Hf; [|reflexivity].
  destruct (H2 f eq_refl) as (? & _ & -> & _). lia.
- exact (stream_files_names _ _ _ _ _ _ _ Hs).
Qed.
(** The last log of a closed stream: with the records of a failed append, if any. *)
Lemma current_file segs c a rs sealed k :
typed c -> window_log c rs sealed -> current_ok base segs c a rs sealed k -> stream_fits base (stream_log segs rs) ->
exists all sealed', window_log c all sealed' /\ disk_inv c a all (ws_file k) /\ rs `prefix_of` all /\
  stream_fits base (stream_log segs all) /\
  (forall m, sealed = Some m -> all = rs /\ sealed' = sealed /\ f_data (ws_file k) = header_bytes c ++ records_bytes rs).
Proof.
intros Hc Hlog [Hk|(-> & pending & sealed' & (_ & _ & Hdisk) & Hlog' & Hfit')] Hfit.
- exists rs, sealed. destruct Hk as (_ & _ & Hd & _ & Hpre & Hs). split; [exact Hlog|]. split; [|split; [reflexivity|]].
  + destruct (window_log_processed c Hc rs sealed Hlog) as (L & Hp & _). split; [by exists (manifest_list sealed), L|].
    split; [exact Hpre|]. rewrite Hd, length_log_end by exact Hc. split; [exact Hs|].
    exists (log_end rs). rewrite firstn_all2; [reflexivity|]. rewrite length_log_end by exact Hc. lia.
  + split; [exact Hfit|]. intros m _. split_and!; [reflexivity..|exact Hd].
- exists (rs ++ pending), sealed'. split; [exact Hlog'|]. split; [exact Hdisk|]. split; [by exists pending|].
  split; [exact Hfit'|]. intros m [=].
Qed.

Lemma stream_closed b s segs c a rs sealed :
stream_state base b s segs c a rs sealed -> stream_fits base (stream_log segs rs) ->
exists segs' c' a' all sealed', dir_state b (stream_files s) segs' c' a' all sealed' /\
  stream_fits base (stream_log segs' all) /\ stream_log segs rs `prefix_of` stream_log segs' all /\
  (b = true -> stream_log segs' (default [] a') = stream_log segs rs).
Proof.
intros Hs Hfit. destruct (stream_config base Hbase _ _ _ _ _ _ _ Hs) as (Hc & _ & Ho).
destruct (stream_fits_current base Hbase _ _ _ _ _ _ _ Hs Hfit) as (_ & Hroom & _).
pose proof Hc as (_ & _ & _ & Hoc & _).
destruct (d_entries (ss_directory s) !! wal_path (ordinal_of c + 1)) as [f2|] eqn:Hf2.
{ assert (Hu : u64 (ordinal_of c + 1)) by (unfold unsigned in *; lia).
  destruct (closed_with_successor b s segs c a rs sealed f2 Hs Hfit Hf2 Hu) as (m & -> & Hd).
  exists (segs ++ [(rs, m)]), (seg_next base m), None, [], None. cbn [default]. rewrite !stream_log_close.
  split; [exact Hd|]. split; [exact Hfit|]. split; reflexivity. }
destruct (current_file segs c a rs sealed _ Hc (st_log _ _ _ _ _ _ _ _ Hs) (st_current _ _ _ _ _ _ _ _ Hs) Hfit)
  as (all & sealed' & Hlog & Hdisk & Hpre & Hfit' & Hsealed).
pose proof (fun name => stream_files_frame _ _ _ _ _ _ _ name Hs) as Hframe.
assert (Hmp : forall n, manifest_path n <> wal_path (ordinal_of c)) by (intros n; apply manifest_not_wal).
exists segs, c, a, all, sealed'. split; [|split; [exact Hfit'|split]].
- split.
  + exact (st_chain _ _ _ _ _ _ _ _ Hs).
  + exact Hlog.
  + exact (stream_files_closed _ _ _ _ _ _ _ Hs).
  + exists (ws_file (ss_current s)). split; [exact (stream_files_current _ _ _ _ _ _ _ Hs)|]. split; [exact Hdisk|].
    rewrite Hframe by apply Hmp. intros [mf Hmf]. destruct (st_manifest _ _ _ _ _ _ _ _ Hs mf Hmf) as (m & -> & _).
    destruct (Hsealed m eq_refl) as (-> & _ & Hd). split; [exact Hd|]. intros Hb.
    pose proof (st_covered _ _ _ _ _ _ _ _ Hs Hb) as Ha. pose proof (window_log_nonempty _ _ _ (st_log _ _ _ _ _ _ _ _ Hs)).
    destruct a as [rs0|]; cbn in Ha; congruence.
  + intros f. rewrite Hframe by apply Hmp. intros Hf. destruct (st_manifest _ _ _ _ _ _ _ _ Hs f Hf) as (m & E & Hm).
    destruct (Hsealed m E) as (_ & -> & _). by exists m.
  + intros n Hu Hn. destruct (st_frontier _ _ _ _ _ _ _ _ Hs n Hu Hn) as (H1 & H2).
    rewrite (Hframe (manifest_path n)) by apply Hmp. split; [exact H1|]. rewrite Hframe.
    * destruct (d_entries (ss_directory s) !! wal_path n) as [f|] eqn:Hf; [|reflexivity]. exfalso.
      destruct (H2 f eq_refl) as (m & _ & -> & _). congruence.
    * intros Heq. apply wal_path_inj in Heq; [lia|exact Hu|exact Hoc].
  + exact (stream_files_names _ _ _ _ _ _ _ Hs).
- unfold stream_log. by apply prefix_app.
- intros Hb. pose proof (st_covered _ _ _ _ _ _ _ _ Hs Hb) as Ha. destruct a as [rs0|]; cbn in *; congruence.
Qed.

(** ** A stream from its first opening to the next *)

(** A directory without segments. *)
Definition no_segments (d : Directory) : Prop :=
(forall n, u64 n -> d_entries d !! manifest_path n = None /\ d_entries d !! wal_path n = None) /\ names_ok (d_entries d).

Lemma stream_open_new d :
no_segments d -> stream_fits base [] ->
let '(r, d') := stream_open base d in
match r with
| Ok s => stream_holds base true s []
| Err err => err = SegmentIo \/ err = SegmentWal Io
| Panic => False
end.
Proof.
intros (Hnone & Hnames) Hfit. pose proof Hbase as (_ & _ & _ & Hob & _).
assert (Hfit0 : fits base []).
{ unfold stream_fits, fits, sized in *. cbn [length] in *. unfold unsigned in Hob. lia. }
unfold stream_open, sync_directory. cbv [mbind st_bind].
assert (Hcall := directory_call_same).
pose proof (Hcall d) as H. destruct (directory_call d) as [r1 d1]. destruct H as ([->| ->] & E1); [|by left].
pose proof (Hcall d1) as H. destruct (directory_call d1) as [r2 d2]. destruct H as ([->| ->] & E2); [|by left].
pose proof (Hcall d2) as H. destruct (directory_call d2) as [r3 d3]. destruct H as ([->| ->] & E3); [|by left].
rewrite <- E1, <- E2, <- E3 in Hnone, Hnames. clear Hcall E1 E2 E3 d d1 d2.
destruct (discover_ok (ordinal_of base) 0 d3 Hnames ltac:(unfold unsigned in Hob; lia) ltac:(unfold unsigned in Hob; lia))
  as (r & d4 & -> & E4 & [->| ->]); [|change (seqZ (ordinal_of base) (Z.of_nat 0)) with (@nil Z)|by left].
{ intros n Hu. destruct (Hnone n Hu) as (_ & ->). split; [intros [? [=]]|lia]. }
cbv iota. destruct (Hnone _ Hob) as (Hm & Hw). rewrite <- E4 in Hnone, Hnames, Hm, Hw. 
pose proof (wal_open_new base (wal_path (ordinal_of base)) d4 Hbase Hfit0) as Hnext.
rewrite Hw in Hnext. specialize (Hnext ltac:(intros f [=])).
destruct (wal_open (wal_path (ordinal_of base)) base d4) as [[k|err|] d5]; destruct Hnext as (Hframe & Hnext);
  [|destruct Hnext as ([->|(_ & [? [=]])] & _); by right|exact Hnext].
destruct Hnext as (Hentry & a & Hcov & Hk). unfold get, gets. cbv [mret st_ret].
exists [], base, a, [], None. split; [|reflexivity].
assert (Hmp : forall n, manifest_path n <> wal_path (ordinal_of base)) by (intros n; apply manifest_not_wal).
split; cbn [ss_base_config ss_current_ordinal ss_directory ss_current]; try reflexivity.
- cbn [length]. unfold unsigned in Hob. lia.
- apply window_log_nil.
- by left.
- intros _. exact Hcov.
- rewrite Hentry. by eexists.
- intros f. rewrite Hframe, Hm by apply Hmp. intros [=].
- intros n Hu Hn. destruct (Hnone n Hu) as (H1 & H2). rewrite Hframe by apply Hmp. split; [exact H1|].
  intros f. rewrite Hframe, H2; [intros [=]|]. intros Heq. apply wal_path_inj in Heq; [lia|exact Hu|exact Hob].
- intros name number Hname Hnum. destruct (decide (name = wal_path (ordinal_of base))) as [->|Hne].
  + exact (wal_path_number _ _ Hob Hnum).
  + rewrite Hframe in Hname by exact Hne. exact (Hnames name number Hname Hnum).
Qed.
End Reopen.
