(* ===== verification/SegmentStream.v ===== *)
(** * A segmented stream from its first opening to the one after a crash
    (crates/sensor-host/src/capture_segments.rs)

    What the operations of [CaptureSegmentStream] promise together: the sealed
    segments in the directory are valid, consecutive and without gaps, they and
    the current one hold exactly the acknowledged records, and opening the
    directory after a crash of the host finds all of these again. *)

From stdpp Require Import strings gmap.
From S2P Require Export SegmentRecovery.

#[local] Open Scope Z_scope.

(** ** Requests and what is acknowledged *)

(** What a worker asks of a stream. *)
Inductive stream_request : Type :=
| AppendChunk (hardware_id : HardwareId) (chunk : SampleChunk)
| AppendGap (gap : Gap)
| AppendBreak (observed : ContinuityBreak)
| FinishWindow.

Definition requested (q : stream_request) : CaptureRecord :=
  match q with
  | AppendChunk _ chunk => CSampleChunk chunk
  | AppendGap gap => CGap gap
  | AppendBreak observed => CContinuityBreak observed
  | FinishWindow => CWindowSeal
  end.

Definition request_valid (q : stream_request) : Prop :=
  match q with FinishWindow => True | _ => item_valid (requested q) end.

(** The record is acknowledged by [Ok]; [None]: a panic. *)
Definition acknowledged {A : Type} (r : CaptureRecord)
  (res : outcome CaptureSegmentError A * CaptureSegmentStream) : option (list CaptureRecord * CaptureSegmentStream) :=
  match res with
  | (Ok _, s) => Some ([r], s)
  | (Err _, s) => Some ([], s)
  | (Panic, _) => None
  end.

Definition serve (q : stream_request) (s : CaptureSegmentStream) : option (list CaptureRecord * CaptureSegmentStream) :=
  match q with
  | AppendChunk hw chunk => acknowledged (requested q) (stream_persist_chunk hw chunk s)
  | AppendGap gap => acknowledged (requested q) (stream_persist_gap gap s)
  | AppendBreak observed => acknowledged (requested q) (stream_persist_continuity_break observed s)
  | FinishWindow =>
      match stream_finish_window s with
      | (Panic, _) => None
      | (_, s) => Some ([], s)
      end
  end.

Fixpoint serve_all (qs : list stream_request) (s : CaptureSegmentStream)
  : option (list CaptureRecord * CaptureSegmentStream) :=
  match qs with
  | [] => Some ([], s)
  | q :: qs =>
      '(done, s) ← serve q s;
      '(rest, s) ← serve_all qs s;
      Some (done ++ rest, s)
  end.

(** The records of a log that carry data. *)
Definition data_records (log : list CaptureRecord) : list CaptureRecord :=
  List.filter (fun r => match r with CWindowSeal => false | _ => true end) log.

Lemma data_records_app (l l' : list CaptureRecord) : data_records (l ++ l') = data_records l ++ data_records l'.
Proof. apply List.filter_app. Qed.

Lemma data_records_seal (log : list CaptureRecord) : data_records (log ++ [CWindowSeal]) = data_records log.
Proof. rewrite data_records_app. apply app_nil_r. Qed.

Lemma data_records_prefix (l l' : list CaptureRecord) : l `prefix_of` l' -> data_records l `prefix_of` data_records l'.
Proof. intros [tl ->]. rewrite data_records_app. by eexists. Qed.

Section Run.
Context (base : CaptureWalConfig) (Hbase : typed base).

Lemma stream_fits_skip (l l' : list CaptureRecord) (r : CaptureRecord) :
stream_fits base (l ++ r :: l') -> stream_fits base (l ++ l').
Proof.
unfold stream_fits, log_end. rewrite !length_app, !records_bytes_app, !length_app. change (r :: l') with ([r] ++ l').
rewrite records_bytes_app, !length_app. lia.
Qed.

(** One request: the stream then holds what it held, and what it acknowledged;
    a failed finish may have sealed the window. *)
Lemma serve_ok b s log q rest :
stream_holds base b s log -> request_valid q -> stream_fits base (log ++ requested q :: rest) ->
exists done s' log', serve q s = Some (done, s') /\ stream_holds base b s' log' /\
  data_records log' = data_records log ++ done /\ stream_fits base (log' ++ rest).
Proof.
intros Hs Hq Hfit.
assert (Hfit1 : stream_fits base (log ++ [requested q])).
{ change (requested q :: rest) with ([requested q] ++ rest) in Hfit. rewrite app_assoc in Hfit. exact (stream_fits_prefix base _ _ Hfit). }
assert (Hfit2 : stream_fits base ((log ++ [requested q]) ++ rest)) by (rewrite <- app_assoc; exact Hfit).
pose proof (stream_fits_skip _ _ _ Hfit) as Hfit0.
assert (Hstage : forall hw, item_valid (requested q) ->
  exists done s' log', acknowledged (requested q) (stream_stage hw (requested q) s) = Some (done, s') /\
    stream_holds base b s' log' /\ data_records log' = data_records log ++ done /\ stream_fits base (log' ++ rest)).
{ intros hw Hr. pose proof (stream_stage_ok base Hbase b s log hw (requested q) Hs Hr Hfit1) as H.
  destruct (stream_stage hw (requested q) s) as [[x|err|] s']; [|..|destruct H]; eexists _, s', _;
    (split; [reflexivity|split; [exact H|]]).
  - rewrite data_records_app. split; [|exact Hfit2]. f_equal. by destruct q.
  - rewrite app_nil_r. split; [reflexivity|exact Hfit0]. }
destruct q as [hw chunk|gap|observed|]; cbn [serve].
- exact (Hstage hw Hq).
- exact (Hstage [] Hq).
- exact (Hstage [] Hq).
- pose proof (stream_finish_ok base Hbase b s log Hs Hfit1) as H. cbn [requested] in *.
  destruct (stream_finish_window s) as [[[m|]|err|] s']; [..|destruct H].
  + destruct H as (segs & c & a & rs & H & Hlog & _). exists [], s', (stream_log segs rs). split; [reflexivity|].
    split; [by exists segs, c, a, rs, (Some m)|]. rewrite Hlog, data_records_seal, app_nil_r. split; [reflexivity|exact Hfit2].
  + exists [], s', log. rewrite app_nil_r. split; [reflexivity|]. split; [exact H|]. split; [reflexivity|exact Hfit0].
  + destruct H as [H|H]; eexists [], s', _; (split; [reflexivity|split; [exact H|]]).
    * rewrite app_nil_r. split; [reflexivity|exact Hfit0].
    * rewrite data_records_seal, app_nil_r. split; [reflexivity|exact Hfit2].
Qed.

Lemma serve_all_ok qs b s log :
stream_holds base b s log -> Forall request_valid qs -> stream_fits base (log ++ map requested qs) ->
exists acked s' log', serve_all qs s = Some (acked, s') /\ stream_holds base b s' log' /\
  data_records log' = data_records log ++ acked /\ stream_fits base log'.
Proof.
revert s log. induction qs as [|q qs IH]; intros s log Hs Hqs Hfit.
- exists [], s, log. rewrite app_nil_r. cbn [map] in Hfit. rewrite app_nil_r in Hfit. by split_and!.
- apply Forall_cons_1 in Hqs as (Hq & Hqs). cbn [map] in Hfit.
  destruct (serve_ok b s log q _ Hs Hq Hfit) as (acked & s1 & log1 & Hserve & Hs1 & Hlog1 & Hfit1).
  destruct (IH s1 log1 Hs1 Hqs Hfit1) as (rest & s2 & log2 & Hrest & Hs2 & Hlog2 & Hfit2).
  exists (acked ++ rest), s2, log2. cbn [serve_all]. rewrite Hserve. cbn [mbind option_bind]. rewrite Hrest.
  cbn [mbind option_bind]. rewrite Hlog2, Hlog1, app_assoc. split_and!; try reflexivity; assumption.
Qed.
End Run.

(** ** What the directory of a stream shows *)

(** Manifests of consecutive windows from a cursor and an ordinal. *)
Fixpoint consecutive (cursor : SequenceCursor) (ordinal : Z) (ms : list CaptureWindowManifest) : Prop :=
  match ms with
  | [] => True
  | m :: ms =>
      cm_first_cursor m = cursor /\ cm_window_ordinal m = ordinal /\ consecutive (cm_end_exclusive m) (ordinal + 1) ms
  end.

(** The files of a sealed segment pass validation, and hold its records. *)
Definition sealed_on_disk (files : gmap string File) (seg : list CaptureRecord * CaptureWindowManifest) : Prop :=
  let ordinal := cm_window_ordinal (snd seg) in
  exists log manifest, files !! wal_path ordinal = Some log /\ files !! manifest_path ordinal = Some manifest /\
    drop FILE_HEADER_BYTES (f_data log) = records_bytes (fst seg) /\
    validate_capture_segment (f_data log) (f_data manifest)
    = Ok (mkValidation (snd seg) (Z.of_nat (length (fst seg)))).

(** The sealed segments and the records of the current one, which a healthy
    sink holds in its file; the cursor it reports is the next one to expect. *)
Definition stream_contents (base : CaptureWalConfig) (s : CaptureSegmentStream) (log : list CaptureRecord) : Prop :=
  exists segs c rs ms L, stream_log segs rs = log /\
    consecutive (cfg_recovered_cursor base) (cfg_first_window_ordinal base) (map snd segs) /\
    Forall (sealed_on_disk (d_entries (ss_directory s))) segs /\
    ss_current_ordinal s = cfg_first_window_ordinal base + Z.of_nat (length segs) /\
    c = with_start base (cfg_recovered_cursor c) (ss_current_ordinal s) /\
    processed c rs ms L /\ stream_durable_cursor s = lg_next_cursor L /\
    (ws_poisoned (ss_current s) = false -> f_data (ws_file (ss_current s)) = header_bytes c ++ records_bytes rs).

Section Contents.
Context (base : CaptureWalConfig) (Hbase : typed base).

Lemma closed_segments b files c segs c' :
typed c -> chain base c segs c' -> closed_files base b files c segs ->
cfg_first_window_ordinal c + Z.of_nat (length segs) < 2 ^ 64 ->
Z.of_nat (log_end (concat (map fst segs))) < 2 ^ 63 ->
consecutive (cfg_recovered_cursor c) (cfg_first_window_ordinal c) (map snd segs) /\ Forall (sealed_on_disk files) segs.
Proof.
revert c. induction segs as [|[rs m] segs IH]; intros c Hc Hchain Hfiles Ho Hsize.
{ split; [exact I|constructor]. }
destruct Hchain as (Hlog & Hchain). destruct Hfiles as (((f & Hf & Hd & _) & mf & Hmf & Hmd & _) & Hfiles).
cbn [map concat fst snd length] in *. pose proof (log_end_le rs (concat (map fst segs))) as He.
destruct (seg_next_typed base Hbase c rs m Hc Hlog ltac:(lia)) as (Hn & Hno).
destruct (window_log_manifest c rs m Hc Hlog) as (_ & _ & Hord & Hfirst & _).
destruct (IH (seg_next base m) Hn Hchain Hfiles ltac:(lia) ltac:(lia)) as (Hcons & Hall).
rewrite Hno in Hcons. split; [split_and!; [exact Hfirst|exact Hord|exact Hcons]|].
constructor; [|exact Hall]. exists f, mf. cbn [fst snd]. rewrite Hord, Hd, Hmd. split; [exact Hf|]. split; [exact Hmf|]. split.
- apply drop_app_length'. by rewrite length_header_bytes.
- apply validate_sealed_segment; [exact Hc|exact Hlog|]. rewrite length_log_end by exact Hc.
  rewrite log_end_app in Hsize. lia.
Qed.

Lemma stream_holds_contents b s log : stream_holds base b s log -> stream_fits base log -> stream_contents base s log.
Proof.
intros (segs & c & a & rs & sealed & Hs & <-) Hfit. destruct (stream_config base Hbase _ _ _ _ _ _ _ Hs) as (Hc & Hsame & Ho).
pose proof (stream_fits_prefix base (concat (map fst segs)) rs Hfit) as Hfit0.
pose proof (chain_length base _ _ _ (st_chain _ _ _ _ _ _ _ _ Hs)) as Hlen. pose proof Hbase as (_ & _ & _ & Hob & _).
unfold stream_fits, unsigned in Hfit0, Hob.
destruct (closed_segments b _ base segs c Hbase (st_chain _ _ _ _ _ _ _ _ Hs) (st_closed _ _ _ _ _ _ _ _ Hs)
  (st_room _ _ _ _ _ _ _ _ Hs) ltac:(lia)) as (Hcons & Hall).
assert (Hmem : memory_inv c rs (ss_current s)).
{ by destruct (st_current _ _ _ _ _ _ _ _ Hs) as [(Hm & _)|(_ & pending & _ & (Hm & _) & _)]. }
destruct Hmem as ((ms & t & Hp & Hrec) & _). pose proof (st_ordinal _ _ _ _ _ _ _ _ Hs) as Hord.
exists segs, c, rs, ms, (ws_ledger (ss_current s)). split; [reflexivity|]. split; [exact Hcons|]. split; [exact Hall|].
split; [by rewrite Hord|]. split; [by rewrite Hord|]. split; [exact Hp|]. split.
- unfold stream_durable_cursor. by rewrite Hrec.
- intros Hp'. destruct (st_current _ _ _ _ _ _ _ _ Hs) as [(_ & _ & Hd & _)|(_ & pending & _ & (_ & Hbad & _) & _)]; [exact Hd|congruence].
Qed.
End Contents.

(** ** Properties *)



(** *** A run with a failed write *)

Definition request_of (r : CaptureRecord) : stream_request :=
  match r with
  | CSampleChunk chunk => AppendChunk window_hw chunk
  | CGap gap => AppendGap gap
  | CContinuityBreak observed => AppendBreak observed
  | CWindowSeal => FinishWindow
  end.

(** A gap, the chunk that seals the first window, a break whose write fails
    after one byte, the end of the window. *)
Definition sample_requests : list stream_request := map request_of window_records.
Definition sample_directory : Directory := mkDirectory ∅ [] [[]; []; [None; None; Some 1%nat]].

Lemma sample_directory_empty : no_segments sample_directory.
Proof.
  split; [intros n _; split; apply lookup_empty|]. intros name number [f Hf].
  pose proof (eq_trans (eq_sym Hf) (lookup_empty name)) as [=].
Qed.

Lemma sample_requests_valid : Forall request_valid sample_requests.
Proof.
  assert (Htyped : typed golden_chunk) by typed_by_compute.
  repeat (apply List.Forall_cons || apply List.Forall_nil); cbn [request_valid request_of requested item_valid];
    split_and?; try done; typed_by_compute.
Qed.

Definition sample_stream : CaptureSegmentStream :=
  match stream_open sample_config sample_directory with
  | (Ok s, _) => s
  | (_, d) => mkStream d sample_config 0 opened_sink
  end.
Definition sample_stream_after : CaptureSegmentStream :=
  match serve_all sample_requests sample_stream with Some (_, s) => s | None => sample_stream end.

Lemma sample_stream_opened : stream_open sample_config sample_directory = (Ok sample_stream, ss_directory sample_stream).
Proof. vm_compute. reflexivity. Qed.

Lemma sample_stream_served : serve_all sample_requests sample_stream = Some (take 2 window_records, sample_stream_after).
Proof. vm_compute. reflexivity. Qed.


(** The host crashes and nothing but the synced bytes is left. *)
Definition crashed_directory : Directory :=
  mkDirectory ((fun f => crash_image (f_synced f) [] f) <$> stream_files sample_stream_after) [] [].

Lemma crashed_directory_image : host_crash (stream_files sample_stream_after) (d_entries crashed_directory).
Proof.
  intros name. cbn [crashed_directory d_entries]. rewrite lookup_fmap.
  destruct (stream_files sample_stream_after !! name) as [f|]; [|reflexivity].
  exists (f_synced f), []. split; [apply le_n|reflexivity].
Qed.

