(* ===== verification/Scheduler.v ===== *)
(** * The channel scheduler (crates/sensor-host/src/channel_scheduler.rs)

    Which of the ready transactions of one half-duplex channel runs next: a
    validation of every candidate, a rank for the ready ones and the least rank
    of the list. The theorems compare the loop with the minimum it means, and
    derive the promises the services rely on. *)

From S2P Require Import Prelude Framing Transaction LifecycleWire.

Inductive TrafficClass := TControl | TMeasurement | TTimeSync | THealth | TTelemetry | TDiagnostics.

#[export] Instance TrafficClass_eq_dec : EqDecision TrafficClass.
Proof. solve_decision. Defined.

Record WorkCandidate := mkCandidate {
  work_id : Z;
  work_node_address : Z;
  work_class : TrafficClass;
  ready_at : MonotonicMicros;
  work_deadline : option MonotonicMicros;
  queued_at : MonotonicMicros;
  time_to_overflow_us : option Z;
  estimated_slot : DurationMicros
}.

Record ScheduleContext := mkScheduleContext {
  ctx_now : MonotonicMicros;
  ctx_observability : ObservabilityProfile;
  diagnostic_budget_us : Z
}.

Record ScheduledWork := mkScheduled {
  candidate_index : nat;
  scheduled_work_id : Z;
  scheduled_node_address : Z;
  scheduled_class : TrafficClass
}.

(** [ChannelScheduler] holds its policy only. *)
Record ChannelSchedulerPolicy := mkSchedulerPolicy {
  overflow_guard : DurationMicros;
  max_slot : DurationMicros
}.

Inductive SchedulerError :=
| InvalidNodeAddress (address : Z)
| SlotExceedsPolicy (work_id estimated_us maximum_us : Z)
| OverflowOnNonMeasurement (work_id : Z)
| MissingDeadline (work_id : Z)
| MissingOverflowEstimate (work_id : Z)
| DiagnosticDeadline (work_id : Z).

Abbreviation sched := (outcome SchedulerError).

(** The derived order of [Rank] is lexicographic in the order of its fields. *)
Record Rank := mkRank {
  tier : Z;
  primary : Z;
  secondary : Z;
  rank_node_address : Z;
  rank_work_id : Z
}.

Definition rank_new (tier primary secondary : Z) (candidate : WorkCandidate) : Rank :=
  mkRank tier primary secondary (work_node_address candidate) (work_id candidate).

Definition rank_lt (a b : Rank) : bool :=
  (tier a <? tier b)
  || (tier a =? tier b)
     && ((primary a <? primary b)
         || (primary a =? primary b)
            && ((secondary a <? secondary b)
                || (secondary a =? secondary b)
                   && ((rank_node_address a <? rank_node_address b)
                       || (rank_node_address a =? rank_node_address b)
                          && (rank_work_id a <? rank_work_id b)))).

Definition class_order (class : TrafficClass) : Z :=
  match class with
  | TControl => 0 | TMeasurement => 1 | TTimeSync => 2 | THealth => 3 | TTelemetry => 4
  | TDiagnostics => 5
  end.

Section Scheduler.
Context (policy : ChannelSchedulerPolicy).

Definition validate_candidate (candidate : WorkCandidate) : sched unit :=
if (work_node_address candidate =? HOST_ADDRESS) || (work_node_address candidate =? BROADCAST_ADDRESS)
then Err (InvalidNodeAddress (work_node_address candidate))
else if max_slot policy <? estimated_slot candidate
then Err (SlotExceedsPolicy (work_id candidate) (estimated_slot candidate) (max_slot policy))
else match work_class candidate with
| TMeasurement =>
    if negb (is_some (work_deadline candidate)) then Err (MissingDeadline (work_id candidate))
    else if negb (is_some (time_to_overflow_us candidate))
    then Err (MissingOverflowEstimate (work_id candidate))
    else Ok tt
| TControl | TTimeSync | THealth | TTelemetry =>
    if negb (is_some (work_deadline candidate)) then Err (MissingDeadline (work_id candidate))
    else if is_some (time_to_overflow_us candidate)
    then Err (OverflowOnNonMeasurement (work_id candidate))
    else Ok tt
| TDiagnostics =>
    if is_some (work_deadline candidate) then Err (DiagnosticDeadline (work_id candidate))
    else if is_some (time_to_overflow_us candidate)
    then Err (OverflowOnNonMeasurement (work_id candidate))
    else Ok tt
end.

(** Retained data can be overwritten within the guard interval. *)
Definition overflow_imminent (candidate : WorkCandidate) : option Z :=
match time_to_overflow_us candidate with
| Some time => if time <=? overflow_guard policy then Some time else None
| None => None
end.

(** The transaction would complete at or after its deadline if started now. *)
Definition deadline_reached (context : ScheduleContext) (candidate : WorkCandidate) : option Z :=
match work_deadline candidate with
| Some deadline =>
    if deadline <=? saturating_add 64 (ctx_now context) (estimated_slot candidate)
    then Some deadline else None
| None => None
end.

Definition rank (context : ScheduleContext) (candidate : WorkCandidate) : option Rank :=
if ctx_now context <? ready_at candidate then None
else if bool_decide (work_class candidate = TDiagnostics)
        && (negb (bool_decide (ctx_observability context = Diagnostic))
            || (diagnostic_budget_us context <? estimated_slot candidate))
then None
else match overflow_imminent candidate with
| Some time => Some (rank_new 0 time (queued_at candidate) candidate)
| None =>
    match deadline_reached context candidate with
    | Some deadline => Some (rank_new 1 deadline (class_order (work_class candidate)) candidate)
    | None =>
        match work_class candidate with
        | TMeasurement =>
            Some (rank_new 2 (default U64_MAX (time_to_overflow_us candidate)) (queued_at candidate) candidate)
        | TControl => Some (rank_new 3 (queued_at candidate) 0 candidate)
        | TDiagnostics => Some (rank_new 4 (queued_at candidate) 0 candidate)
        | TTimeSync | THealth | TTelemetry => None
        end
    end
end.

(** The loop from index [i] on. *)
Fixpoint select_loop (context : ScheduleContext) (candidates : list WorkCandidate) (i : nat)
  (selected : option (nat * Rank)) : sched (option (nat * Rank)) :=
match candidates with
| [] => Ok selected
| candidate :: candidates =>
    _ ← validate_candidate candidate;
    match rank context candidate with
    | None => select_loop context candidates (S i) selected
    | Some r =>
        let better := match selected with None => true | Some (_, s) => rank_lt r s end in
        select_loop context candidates (S i) (if better then Some (i, r) else selected)
    end
end.

Definition select (context : ScheduleContext) (candidates : list WorkCandidate)
  : sched (option ScheduledWork) :=
selected ← select_loop context candidates 0 None;
match selected with
| None => Ok None
| Some (index, _) =>
    candidate ← expect (candidates !! index);
    Ok (Some (mkScheduled index (work_id candidate) (work_node_address candidate) (work_class candidate)))
end.

(** ** The order of ranks *)

Definition rank_le (a b : Rank) : Prop := rank_lt b a = false.

Lemma rank_lt_spec (a b : Rank) :
rank_lt a b = true <->
tier a < tier b \/ tier a = tier b /\
(primary a < primary b \/ primary a = primary b /\
 (secondary a < secondary b \/ secondary a = secondary b /\
  (rank_node_address a < rank_node_address b \/ rank_node_address a = rank_node_address b /\
   rank_work_id a < rank_work_id b))).
Proof.
unfold rank_lt. rewrite !orb_true_iff, !andb_true_iff, !orb_true_iff, !andb_true_iff, !orb_true_iff,
  !andb_true_iff, !orb_true_iff, !andb_true_iff, !Z.ltb_lt, !Z.eqb_eq. tauto.
Qed.

Lemma rank_le_refl (a : Rank) : rank_le a a.
Proof. unfold rank_le. destruct (rank_lt a a) eqn:H; [|done]. apply rank_lt_spec in H. lia. Qed.

Lemma rank_lt_le (a b : Rank) : rank_lt a b = true -> rank_le a b.
Proof.
unfold rank_le. intros H. destruct (rank_lt b a) eqn:H'; [|done].
apply rank_lt_spec in H, H'. lia.
Qed.

Lemma rank_le_trans (a b c : Rank) : rank_le a b -> rank_le b c -> rank_le a c.
Proof.
unfold rank_le. intros H1 H2. destruct (rank_lt c a) eqn:H; [|done]. exfalso.
assert (rank_lt b a = true \/ rank_lt c b = true) as [|]; [|congruence..].
apply rank_lt_spec in H. rewrite !rank_lt_spec. lia.
Qed.

Lemma rank_le_lt_trans (a b c : Rank) : rank_le a b -> rank_lt b c = true -> rank_lt a c = true.
Proof.
unfold rank_le. intros H1 H2. destruct (rank_lt a c) eqn:H; [done|]. exfalso.
assert (rank_lt b a = true \/ rank_lt a c = true) as [|]; [|congruence..].
apply rank_lt_spec in H2. rewrite !rank_lt_spec. lia.
Qed.

(** ** The loop computes the least rank *)

Definition valid_candidate (candidate : WorkCandidate) : Prop := validate_candidate candidate = Ok tt.

(** [selected] is the first candidate of [l] with the least rank. *)
Definition best (context : ScheduleContext) (l : list WorkCandidate) (selected : option (nat * Rank)) : Prop :=
match selected with
| None => forall i c, l !! i = Some c -> rank context c = None
| Some (i, r) =>
    (exists c, l !! i = Some c /\ rank context c = Some r) /\
    forall j c r', l !! j = Some c -> rank context c = Some r' ->
      rank_le r r' /\ ((j < i)%nat -> rank_lt r r' = true)
end.

(** The first candidate of [l] the scheduler refuses, with its error. *)
Definition first_invalid (l : list WorkCandidate) (e : SchedulerError) : Prop :=
exists i c, l !! i = Some c /\ validate_candidate c = Err e /\
  Forall valid_candidate (take i l).

Lemma first_invalid_unique (l : list WorkCandidate) (e e' : SchedulerError) :
first_invalid l e -> first_invalid l e' -> e = e'.
Proof.
intros (i & c & Hi & He & Hv) (j & d & Hj & He' & Hv').
assert (Hij : i = j).
{ destruct (Nat.lt_trichotomy i j) as [Hlt|[|Hlt]]; [|done|]; exfalso.
  - apply (Forall_lookup_1 _ _ i c) in Hv'; [|by rewrite lookup_take_lt]. unfold valid_candidate in Hv'. congruence.
  - apply (Forall_lookup_1 _ _ j d) in Hv; [|by rewrite lookup_take_lt]. unfold valid_candidate in Hv. congruence. }
subst j. simplify_eq. congruence.
Qed.

Lemma best_snoc_none (context : ScheduleContext) (l : list WorkCandidate) sel c :
best context l sel -> rank context c = None -> best context (l ++ [c]) sel.
Proof.
intros Hb Hr. destruct sel as [[i r]|]; cbn in *.
- destruct Hb as [(c0 & Hc0 & Hr0) Hmin]. split.
  + exists c0. rewrite lookup_app_l by eauto using lookup_lt_Some. done.
  + intros j d r' [Hd|(_ & Hd)]%lookup_app_Some Hr'; [by eapply Hmin|].
    apply list_lookup_singleton_Some in Hd as [_ <-]. congruence.
- intros i d [Hd|(_ & Hd)]%lookup_app_Some; [by eapply Hb|].
  by apply list_lookup_singleton_Some in Hd as [_ <-].
Qed.

Lemma best_snoc_some (context : ScheduleContext) (l : list WorkCandidate) sel c r :
best context l sel -> rank context c = Some r ->
best context (l ++ [c])
  (if match sel with None => true | Some (_, s) => rank_lt r s end then Some (length l, r) else sel).
Proof.
intros Hb Hr. destruct sel as [[i s]|]; [destruct (rank_lt r s) eqn:Hlt|]; cbn in *.
- destruct Hb as [_ Hmin]. split.
  + exists c. rewrite lookup_app_r, Nat.sub_diag by lia. done.
  + intros j d r' [Hd|(Hj & Hd)]%lookup_app_Some Hr'.
    * destruct (Hmin j d r' Hd Hr') as [Hle _].
      assert (rank_lt r r' = true).
      { destruct (rank_lt r r') eqn:H; [done|]. exfalso.
        assert (Hc : rank_le s r) by (by eapply rank_le_trans). unfold rank_le in Hc. congruence. }
      split; [by apply rank_lt_le | done].
    * apply list_lookup_singleton_Some in Hd as [? <-]. rewrite Hr in Hr'. injection Hr' as <-.
      split; [apply rank_le_refl | lia].
- destruct Hb as [(c0 & Hc0 & Hr0) Hmin]. split.
  + exists c0. rewrite lookup_app_l by eauto using lookup_lt_Some. done.
  + intros j d r' [Hd|(Hj & Hd)]%lookup_app_Some Hr'; [by eapply Hmin|].
    apply list_lookup_singleton_Some in Hd as [? <-]. rewrite Hr in Hr'. injection Hr' as <-.
    apply lookup_lt_Some in Hc0. split; [done | lia].
- split.
  + exists c. rewrite lookup_app_r, Nat.sub_diag by lia. done.
  + intros j d r' [Hd|(Hj & Hd)]%lookup_app_Some Hr'.
    * rewrite (Hb j d Hd) in Hr'. done.
    * apply list_lookup_singleton_Some in Hd as [? <-]. rewrite Hr in Hr'. injection Hr' as <-.
      split; [apply rank_le_refl | lia].
Qed.

Lemma validate_candidate_total (c : WorkCandidate) : no_panic (validate_candidate c).
Proof. unfold no_panic, validate_candidate. repeat case_match; done. Qed.

Lemma select_loop_spec (context : ScheduleContext) (rest : list WorkCandidate) : forall seen sel,
Forall valid_candidate seen -> best context seen sel ->
match select_loop context rest (length seen) sel with
| Ok sel' => Forall valid_candidate (seen ++ rest) /\ best context (seen ++ rest) sel'
| Err e => first_invalid (seen ++ rest) e
| Panic => False
end.
Proof.
induction rest as [|c rest IH]; intros seen sel Hv Hb; cbn [select_loop].
{ by rewrite app_nil_r. }
pose proof (validate_candidate_total c) as Ht.
destruct (validate_candidate c) as [[]|e|] eqn:Hc; cbn [mbind outcome_bind]; [| |done].
- assert (Hv' : Forall valid_candidate (seen ++ [c])) by (apply Forall_app; by repeat constructor).
  replace (S (length seen)) with (length (seen ++ [c])) by (rewrite length_app; cbn; lia).
  replace (seen ++ c :: rest) with ((seen ++ [c]) ++ rest) by (by rewrite <- app_assoc).
  destruct (rank context c) as [r|] eqn:Hr.
  + apply IH; [done|]. by apply best_snoc_some.
  + apply IH; [done|]. by apply best_snoc_none.
- exists (length seen), c. rewrite lookup_app_r, Nat.sub_diag by lia. split; [done|]. split; [done|].
  by rewrite take_app_length.
Qed.

Lemma best_nil (context : ScheduleContext) : best context [] None.
Proof. intros i c H. by rewrite lookup_nil in H. Qed.

Lemma select_spec (context : ScheduleContext) (l : list WorkCandidate) :
match select context l with
| Ok None => Forall valid_candidate l /\ Forall (fun c => rank context c = None) l
| Ok (Some w) =>
    Forall valid_candidate l /\
    exists c r, l !! candidate_index w = Some c /\
      w = mkScheduled (candidate_index w) (work_id c) (work_node_address c) (work_class c) /\
      rank context c = Some r /\
      forall j c' r', l !! j = Some c' -> rank context c' = Some r' ->
        rank_le r r' /\ ((j < candidate_index w)%nat -> rank_lt r r' = true)
| Err e => first_invalid l e
| Panic => False
end.
Proof.
pose proof (select_loop_spec context l [] None (Forall_nil_2 _) (best_nil context)) as H.
cbn [length app] in H. unfold select.
destruct (select_loop context l 0 None) as [[[i r]|]|e|]; cbn [mbind outcome_bind]; [|..|done|done].
- destruct H as (Hv & (c & Hc & Hr) & Hmin). rewrite Hc. cbn. eauto 8.
- destruct H as [Hv Hn]. split; [done|]. apply Forall_lookup_2. eauto.
Qed.
End Scheduler.

(** ** What a selection promises *)

Ltac rank_cases := 
  unfold rank, rank_new; repeat case_match; intros; simplify_eq; cbn [tier primary secondary].

Lemma rank_ready (p : ChannelSchedulerPolicy) context c r :
  rank p context c = Some r -> ready_at c <= ctx_now context.
Proof. rank_cases; lia. Qed.

Lemma rank_diagnostics (p : ChannelSchedulerPolicy) context c r :
  rank p context c = Some r -> work_class c = TDiagnostics ->
  ctx_observability context = Diagnostic /\ estimated_slot c <= diagnostic_budget_us context.
Proof.
  unfold rank. intros H Hc. destruct (_ <? _); [done|].
  rewrite bool_decide_eq_true_2 in H by done. cbn [andb] in H.
  case_bool_decide; cbn [negb orb] in H; [|done].
  destruct (_ <? _) eqn:Hb; [done|]. split; [done | lia].
Qed.

Lemma valid_overflow (p : ChannelSchedulerPolicy) c time :
  valid_candidate p c -> overflow_imminent p c = Some time -> work_class c = TMeasurement.
Proof.
  unfold valid_candidate, validate_candidate, overflow_imminent. intros Hv Ho.
  destruct (time_to_overflow_us c); [|done]. cbn in Hv.
  repeat case_match; done.
Qed.

Lemma valid_diagnostics_deadline (p : ChannelSchedulerPolicy) c :
  valid_candidate p c -> work_class c = TDiagnostics -> work_deadline c = None.
Proof.
  unfold valid_candidate, validate_candidate. intros Hv Hc. rewrite Hc in Hv.
  destruct (work_deadline c); [|done]. cbn in Hv. repeat case_match; done.
Qed.

(** The candidate may be ranked at all. *)
Definition eligible (context : ScheduleContext) (c : WorkCandidate) : Prop :=
  ready_at c <= ctx_now context /\ work_class c <> TDiagnostics.

Lemma rank_eligible (p : ChannelSchedulerPolicy) context c :
  eligible context c ->
  rank p context c =
    match overflow_imminent p c with
    | Some time => Some (rank_new 0 time (queued_at c) c)
    | None =>
        match deadline_reached context c with
        | Some deadline => Some (rank_new 1 deadline (class_order (work_class c)) c)
        | None =>
            match work_class c with
            | TMeasurement => Some (rank_new 2 (default U64_MAX (time_to_overflow_us c)) (queued_at c) c)
            | TControl => Some (rank_new 3 (queued_at c) 0 c)
            | _ => None
            end
        end
    end.
Proof.
  intros [Hr Hc]. unfold rank. rewrite (proj2 (Z.ltb_ge _ _)) by lia.
  rewrite bool_decide_eq_false_2 by done. cbn [andb].
  destruct (overflow_imminent p c), (deadline_reached context c), (work_class c); done.
Qed.

Lemma rank_diagnostics_tier (p : ChannelSchedulerPolicy) context c r :
  valid_candidate p c -> rank p context c = Some r -> work_class c = TDiagnostics -> tier r = 4.
Proof.
  intros Hv Hr Hc.
  assert (Ho : overflow_imminent p c = None).
  { destruct (overflow_imminent p c) eqn:H; [|done]. apply valid_overflow in H; [congruence | done]. }
  assert (Hd : deadline_reached context c = None).
  { unfold deadline_reached. by rewrite (valid_diagnostics_deadline p c) by done. }
  unfold rank in Hr. rewrite Ho, Hd, Hc in Hr. repeat case_match; by simplify_eq.
Qed.

Lemma rank_le_tier (a b : Rank) : rank_le a b -> tier a <= tier b.
Proof.
  unfold rank_le. intros H. destruct (decide (tier b < tier a)); [|lia].
  exfalso. assert (rank_lt b a = true) by (apply rank_lt_spec; lia). congruence.
Qed.

Lemma rank_le_primary (a b : Rank) : rank_le a b -> tier a = tier b -> primary a <= primary b.
Proof.
  unfold rank_le. intros H Ht. destruct (decide (primary b < primary a)); [|lia].
  exfalso. assert (rank_lt b a = true) by (apply rank_lt_spec; lia). congruence.
Qed.

Lemma rank_tier_zero (p : ChannelSchedulerPolicy) context c r :
  rank p context c = Some r -> tier r <= 0 -> overflow_imminent p c = Some (primary r).
Proof. rank_cases; done || lia. Qed.

Lemma rank_tier_one (p : ChannelSchedulerPolicy) context c r :
  rank p context c = Some r -> tier r = 1 -> deadline_reached context c = Some (primary r).
Proof. rank_cases; done || lia. Qed.

Lemma rank_tier_nonneg (p : ChannelSchedulerPolicy) context c r :
  rank p context c = Some r -> 0 <= tier r.
Proof. rank_cases; lia. Qed.

Lemma valid_candidate_bounds (p : ChannelSchedulerPolicy) c :
  valid_candidate p c ->
  work_node_address c <> HOST_ADDRESS /\ work_node_address c <> BROADCAST_ADDRESS /\
  estimated_slot c <= max_slot p.
Proof.
  unfold valid_candidate, validate_candidate. intros Hv.
  destruct (_ || _) eqn:Ha; [done|]. destruct (max_slot p <? _) eqn:Hb; [done|].
  apply orb_false_iff in Ha as [?%Z.eqb_neq ?%Z.eqb_neq]. split_and!; [done..|lia].
Qed.

(** C40. Selecting never panics and computes the least rank: the call returns
    the error of the first invalid candidate of the list, no work exactly when
    all candidates are valid and none has a rank, and otherwise the first of the
    candidates with the least rank, with its own identifier, address and class. *)
Theorem scheduler_selects_minimum (p : ChannelSchedulerPolicy) (context : ScheduleContext)
    (l : list WorkCandidate) :
  no_panic (select p context l) /\
  (forall e, select p context l = Err e <-> first_invalid p l e) /\
  (select p context l = Ok None <->
     Forall (valid_candidate p) l /\ Forall (fun c => rank p context c = None) l) /\
  (forall w, select p context l = Ok (Some w) <->
     Forall (valid_candidate p) l /\
     exists c r, l !! candidate_index w = Some c /\
       w = mkScheduled (candidate_index w) (work_id c) (work_node_address c) (work_class c) /\
       rank p context c = Some r /\
       forall j c' r', l !! j = Some c' -> rank p context c' = Some r' ->
         rank_le r r' /\ ((j < candidate_index w)%nat -> rank_lt r r' = true)).
Proof.
  pose proof (select_spec p context l) as H.
  assert (Hexcl : forall e, first_invalid p l e -> Forall (valid_candidate p) l -> False).
  { intros e (i & c & Hi & He & _) Hv. eapply Forall_lookup_1 in Hv; [|exact Hi].
    unfold valid_candidate in Hv. congruence. }
  split_and!.
  - intros Hp. by rewrite Hp in H.
  - intros e. split; [by intros He; rewrite He in H|]. intros Hf.
    destruct (select p context l) as [[w|]|e'|] eqn:Hs; [| | |done].
    + by destruct (Hexcl e Hf (proj1 H)).
    + by destruct (Hexcl e Hf (proj1 H)).
    + by rewrite (first_invalid_unique p l e e').
  - split; [by intros He; rewrite He in H|]. intros [Hv Hn].
    destruct (select p context l) as [[w|]|e'|]; [|done|by destruct (Hexcl e')|done].
    destruct H as (_ & c & r & Hc & _ & Hr & _). eapply Forall_lookup_1 in Hn; [|exact Hc].
    cbn in Hn. congruence.
  - intros w. split; [by intros He; rewrite He in H|]. intros (Hv & c & r & Hc & Hw & Hr & Hmin).
    destruct (select p context l) as [[w'|]|e'|]; [| |by destruct (Hexcl e')|done].
    + destruct H as (_ & c' & r' & Hc' & Hw' & Hr' & Hmin'). f_equal. f_equal.
      assert (Heq : candidate_index w' = candidate_index w).
      { destruct (Hmin _ _ _ Hc' Hr') as [H1 H2]. destruct (Hmin' _ _ _ Hc Hr) as [H3 H4].
        unfold rank_le in H1, H3. 
        destruct (Nat.lt_trichotomy (candidate_index w) (candidate_index w')) as [Hlt|[|Hlt]]; [|done|].
        - rewrite (H4 Hlt) in H1. done.
        - rewrite (H2 Hlt) in H3. done. }
      rewrite Heq in Hc'. rewrite Hc in Hc'. injection Hc' as <-.
      rewrite Hw, Hw', Heq. done.
    + destruct H as [_ Hn]. eapply Forall_lookup_1 in Hn; [|exact Hc]. cbn in Hn. congruence.
Qed.

(** What a selection promises to the services: the work exists, is
    addressed to a node, is ready and fits the slot limit; while some ready
    measurement is about to be overwritten, the selection is a measurement at
    least as close to its overflow; while some ready production work has its
    deadline due, the selection is an imminent overflow or a due deadline at
    least as early; diagnostics run only in the diagnostic profile, within
    their budget, and never while a measurement or an explicit request is ready. *)
Lemma scheduler_priorities (p : ChannelSchedulerPolicy) (context : ScheduleContext)
    (l : list WorkCandidate) (w : ScheduledWork) :
  select p context l = Ok (Some w) ->
  exists c, l !! candidate_index w = Some c /\
    scheduled_work_id w = work_id c /\ scheduled_node_address w = work_node_address c /\
    work_node_address c <> HOST_ADDRESS /\ work_node_address c <> BROADCAST_ADDRESS /\
    ready_at c <= ctx_now context /\ estimated_slot c <= max_slot p /\
    (forall d time, d ∈ l -> eligible context d -> overflow_imminent p d = Some time ->
       exists time', overflow_imminent p c = Some time' /\ time' <= time /\ work_class c = TMeasurement) /\
    (forall d deadline, d ∈ l -> eligible context d -> deadline_reached context d = Some deadline ->
       is_some (overflow_imminent p c) = true \/
       exists deadline', deadline_reached context c = Some deadline' /\ deadline' <= deadline) /\
    (work_class c = TDiagnostics ->
       ctx_observability context = Diagnostic /\ estimated_slot c <= diagnostic_budget_us context /\
       forall d, d ∈ l -> eligible context d ->
         work_class d <> TMeasurement /\ work_class d <> TControl /\ deadline_reached context d = None).
Proof.
  intros Hs. pose proof (select_spec p context l) as H. rewrite Hs in H.
  destruct H as (Hv & c & r & Hc & Hw & Hr & Hmin). exists c.
  pose proof (Forall_lookup_1 _ _ _ _ Hv Hc) as Hvc. cbn in Hvc.
  assert (Hle : forall d r', d ∈ l -> rank p context d = Some r' -> rank_le r r').
  { intros d r' [j Hj]%list_elem_of_lookup Hr'. by destruct (Hmin j d r' Hj Hr'). }
  destruct (valid_candidate_bounds p c Hvc) as (Ha & Hb & Hm).
  rewrite Hw. cbn. split_and!; try done.
  - by eapply rank_ready.
  - intros d time Hd He Ho.
    pose proof (rank_eligible p context d He) as Hrd. rewrite Ho in Hrd.
    pose proof (Hle _ _ Hd Hrd) as Hled.
    pose proof (rank_le_tier _ _ Hled) as Ht. cbn in Ht.
    pose proof (rank_tier_zero _ _ _ _ Hr Ht) as Hoc. exists (primary r). split; [done|].
    split; [|by eapply valid_overflow].
    apply (rank_le_primary _ _ Hled). pose proof (rank_tier_nonneg _ _ _ _ Hr). cbn. lia.
  - intros d deadline Hd He Hdl.
    pose proof (rank_eligible p context d He) as Hrd. rewrite Hdl in Hrd.
    destruct (overflow_imminent p c) eqn:Hoc; [by left | right].
    pose proof (rank_tier_nonneg _ _ _ _ Hr) as Hn.
    destruct (decide (tier r = 0)) as [Ht|Ht].
    { apply rank_tier_zero in Hr; [congruence | lia]. }
    destruct (overflow_imminent p d) eqn:Hod; pose proof (Hle _ _ Hd Hrd) as Hled;
      pose proof (rank_le_tier _ _ Hled) as Htd; cbn in Htd; [lia|].
    assert (Ht1 : tier r = 1) by lia. exists (primary r). split; [by eapply rank_tier_one|].
    apply (rank_le_primary _ _ Hled). done.
  - intros Hdiag. destruct (rank_diagnostics _ _ _ _ Hr Hdiag) as [? ?]. do 2 (split; [done|]).
    intros d Hd He. pose proof (rank_diagnostics_tier _ _ _ _ Hvc Hr Hdiag) as Ht.
    pose proof (rank_eligible p context d He) as Hrd.
    destruct (overflow_imminent p d), (deadline_reached context d), (work_class d) eqn:Hcd;
      try (pose proof (rank_le_tier _ _ (Hle _ _ Hd Hrd)) as Htd; cbn in Htd; lia); done.
Qed.

Definition sample_policy : ChannelSchedulerPolicy := mkSchedulerPolicy 1000 500.

Definition sample_context : ScheduleContext := mkScheduleContext 10000 Diagnostic 400.

Definition sample_candidates : list WorkCandidate :=
  [ mkCandidate 1 3 TDiagnostics 0 None 5 None 100;
    mkCandidate 2 4 TMeasurement 0 (Some 90000) 7 (Some 900) 200;
    mkCandidate 3 5 TTimeSync 0 (Some 10050) 9 None 100 ].

Lemma scheduler_priorities_witness :
  exists c, sample_candidates !! 1%nat = Some c /\ ready_at c <= 10000 /\ work_class c = TMeasurement.
Proof.
  assert (H : select sample_policy sample_context sample_candidates =
    Ok (Some (mkScheduled 1 2 4 TMeasurement))) by reflexivity.
  destruct (scheduler_priorities sample_policy sample_context sample_candidates _ H)
    as (c & Hc & _ & _ & _ & _ & Hr & _).
  exists c. split; [exact Hc|]. split; [exact Hr|]. cbn in Hc. by injection Hc as <-.
Defined.
