(* ===== verification/StreamRecovery.v ===== *)
(** * Stream recovery (crates/sensor-host/src/stream_recovery.rs)

    After a restart the host holds the durable cursor of its Capture log and the
    node reports the state of its journal. Reconciliation decides whether the
    two describe one stream, and with which delivery session it goes on. *)

From S2P Require Import Prelude Core Measurement MeasurementWire NodeSession.

Record ExpectedStreamState := mkExpected {
  ex_hardware_id : HardwareId;
  ex_boot_epoch : BootEpoch;
  ex_journal_capacity_samples : Z
}.

Record CaptureRecoveryEvidence := mkEvidence {
  ce_hardware_id : HardwareId;
  ce_boot_epoch : BootEpoch;
  ce_durable_cursor : SequenceCursor
}.

Record NewCaptureBoundary := mkBoundary {
  nb_hardware_id : HardwareId;
  nb_boot_epoch : BootEpoch;
  nb_cursor : SequenceCursor
}.

Inductive RecoveryContinuity :=
| Contiguous
| JournalGapRequired (first_missing : SequenceCursor) (missing_count : Z).

Record ReconciledStream := mkReconciled {
  rs_session : NodeSession;
  rs_continuity : RecoveryContinuity
}.

Inductive StreamRecoveryError :=
| InvalidNodeState (error : MeasurementContractError)
| CaptureHardwareMismatch
| CaptureBootEpochMismatch (expected actual : BootEpoch)
| NodeBootEpochMismatch (expected actual : BootEpoch)
| JournalCapacityMismatch (expected actual : Z)
| ReleasedBeyondDurable (released durable : SequenceCursor)
| CaptureAheadOfNode (durable produced : SequenceCursor)
| RecoverySession (error : SessionError).

Abbreviation recovery := (outcome StreamRecoveryError).

Definition validate_capture_identity (expected : ExpectedStreamState)
    (capture : CaptureRecoveryEvidence) : recovery unit :=
  if negb (bool_decide (ce_hardware_id capture = ex_hardware_id expected)) then Err CaptureHardwareMismatch
  else if negb (ce_boot_epoch capture =? ex_boot_epoch expected)
  then Err (CaptureBootEpochMismatch (ex_boot_epoch expected) (ce_boot_epoch capture))
  else Ok tt.

Definition validate_node_identity (expected : ExpectedStreamState) (node : StreamState) : recovery unit :=
  if negb (ss_boot_epoch node =? ex_boot_epoch expected)
  then Err (NodeBootEpochMismatch (ex_boot_epoch expected) (ss_boot_epoch node))
  else if negb (ss_capacity_samples node =? ex_journal_capacity_samples expected)
  then Err (JournalCapacityMismatch (ex_journal_capacity_samples expected) (ss_capacity_samples node))
  else Ok tt.

Definition reconcile_existing_capture (expected : ExpectedStreamState) (capture : CaptureRecoveryEvidence)
    (node : StreamState) : recovery ReconciledStream :=
  node ← map_err InvalidNodeState (stream_state_validate node);
  _ ← validate_capture_identity expected capture;
  _ ← validate_node_identity expected node;
  let durable := ce_durable_cursor capture in
  if durable <? ss_released node then Err (ReleasedBeyondDurable (ss_released node) durable)
  else if ss_produced node <? durable then Err (CaptureAheadOfNode durable (ss_produced node))
  else
    continuity ←
      (if durable <? ss_retained_from node then
         missing_count ← sub (ss_retained_from node) durable;
         Ok (JournalGapRequired durable missing_count)
       else Ok Contiguous);
    session ← map_err RecoverySession
      (recovered (ex_hardware_id expected) (ex_boot_epoch expected) durable (ss_released node));
    Ok (mkReconciled session continuity).

Definition new_capture_boundary (expected : ExpectedStreamState) (node : StreamState)
    : recovery NewCaptureBoundary :=
  node ← map_err InvalidNodeState (stream_state_validate node);
  _ ← validate_node_identity expected node;
  Ok (mkBoundary (ex_hardware_id expected) (ex_boot_epoch expected) (ss_produced node)).

(** ** What reconciliation means *)

(** The log and the node describe one stream. *)
Definition same_stream (expected : ExpectedStreamState) (capture : CaptureRecoveryEvidence)
    (node : StreamState) : Prop :=
  ce_hardware_id capture = ex_hardware_id expected /\
  ce_boot_epoch capture = ex_boot_epoch expected /\
  ss_boot_epoch node = ex_boot_epoch expected /\
  ss_capacity_samples node = ex_journal_capacity_samples expected.

(** What each refusal says about its inputs. *)
Definition refusal (expected : ExpectedStreamState) (capture : CaptureRecoveryEvidence)
    (node : StreamState) (e : StreamRecoveryError) : Prop :=
  match e with
  | InvalidNodeState error => stream_state_validate node = Err error
  | CaptureHardwareMismatch => ce_hardware_id capture <> ex_hardware_id expected
  | CaptureBootEpochMismatch x a =>
      x = ex_boot_epoch expected /\ a = ce_boot_epoch capture /\ a <> x
  | NodeBootEpochMismatch x a => x = ex_boot_epoch expected /\ a = ss_boot_epoch node /\ a <> x
  | JournalCapacityMismatch x a =>
      x = ex_journal_capacity_samples expected /\ a = ss_capacity_samples node /\ a <> x
  | ReleasedBeyondDurable r d => r = ss_released node /\ d = ce_durable_cursor capture /\ d < r
  | CaptureAheadOfNode d p => d = ce_durable_cursor capture /\ p = ss_produced node /\ p < d
  | RecoverySession _ => False
  end.

Lemma reconcile_spec (expected : ExpectedStreamState) (capture : CaptureRecoveryEvidence)
    (node : StreamState) :
  match reconcile_existing_capture expected capture node with
  | Ok r =>
      stream_state_validate node = Ok node /\ same_stream expected capture node /\
      ss_released node <= ce_durable_cursor capture <= ss_produced node /\
      rs_session r = mkSession (ex_hardware_id expected) (ex_boot_epoch expected)
        (mkCursors (ce_durable_cursor capture) (ce_durable_cursor capture) (ss_released node))
        Ready None None None None None /\
      rs_continuity r =
        if ce_durable_cursor capture <? ss_retained_from node
        then JournalGapRequired (ce_durable_cursor capture)
               (ss_retained_from node - ce_durable_cursor capture)
        else Contiguous
  | Err e => refusal expected capture node e
  | Panic => False
  end.
Proof.
  unfold reconcile_existing_capture. destruct (stream_state_validator node) as (Hnp & Hok).
  destruct (stream_state_validate node) as [n|e|] eqn:Hv; [|done|by destruct Hnp].
  rewrite (Hok n eq_refl) in *. cbn [map_err mbind outcome_bind].
  unfold validate_capture_identity, validate_node_identity.
  case_bool_decide; cbn [negb]; [|done].
  destruct (Z.eqb_spec (ce_boot_epoch capture) (ex_boot_epoch expected)); cbn; [|done].
  destruct (Z.eqb_spec (ss_boot_epoch node) (ex_boot_epoch expected)); cbn; [|done].
  destruct (Z.eqb_spec (ss_capacity_samples node) (ex_journal_capacity_samples expected)); cbn; [|done].
  destruct (Z.ltb_spec (ce_durable_cursor capture) (ss_released node)); [done|].
  destruct (Z.ltb_spec (ss_produced node) (ce_durable_cursor capture)); [done|].
  assert (Hrec : recovered (ex_hardware_id expected) (ex_boot_epoch expected) (ce_durable_cursor capture)
    (ss_released node) = Ok (mkSession (ex_hardware_id expected) (ex_boot_epoch expected)
        (mkCursors (ce_durable_cursor capture) (ce_durable_cursor capture) (ss_released node))
        Ready None None None None None)).
  { unfold recovered, cursors_new. rewrite Z.ltb_irrefl, (proj2 (Z.ltb_ge _ _)) by lia. done. }
  rewrite Hrec. unfold same_stream.
  destruct (Z.ltb_spec (ce_durable_cursor capture) (ss_retained_from node)).
  - rewrite sub_ok by lia. cbn. split_and!; done || lia.
  - cbn. split_and!; done || lia.
Qed.

(** The first exchange of a reconciled session whose journal lost a range. *)
Definition first_exchange (max : Z) (node : StreamState) : session PendingPersistence :=
  _ ← begin_pull max;
  _ ← accept_range_unavailable node;
  take_pending_persistence.

Ltac ns_eval :=
  repeat progress (autorewrite with st;
    cbv beta iota delta [ns_hardware_id ns_boot_epoch ns_cursors ns_phase ns_active_pull ns_pending_chunk
      ns_pending_gap ns_pending_continuity_break ns_pending_receipt set_phase set_active_pull
      set_pending_chunk set_pending_gap set_pending_break set_pending_receipt received durable released
      pull_boot_epoch pull_from pull_release_before pull_max_samples first_missing missing_count
      gap_hardware_id gap_boot_epoch map_err ok_or negb persistence_receipt fst]).

Section FirstExchange.
Context (hw : HardwareId) (e d rel max : Z) (node : StreamState).
Context (Hnode : typed node) (Hv : stream_state_validate node = Ok node).
Context (He : ss_boot_epoch node = e) (Hr : 0 <= rel <= d) (Hd : d < ss_retained_from node).

Lemma begin_pull_ready :
0 < max ->
begin_pull max (mkSession hw e (mkCursors d d rel) Ready None None None None None)
= (Ok (mkPull e d d max),
   mkSession hw e (mkCursors d d rel) AwaitingPull (Some (mkPull e d d max)) None None None None).
Proof.
intros Hmax. apply stream_state_Ok in Hv as (He0 & _).
unfold begin_pull, require_phase. ns_eval. rewrite bool_decide_eq_true_2 by done. ns_eval.
unfold pull_request_new. rewrite (proj2 (Z.eqb_neq e 0)), (proj2 (Z.eqb_neq max 0)), Z.ltb_irrefl by lia.
reflexivity.
Qed.

Lemma accept_range_unavailable_awaiting :
accept_range_unavailable node
  (mkSession hw e (mkCursors d d rel) AwaitingPull (Some (mkPull e d d max)) None None None None)
= (Ok (mkGap hw e d (ss_retained_from node - d) JournalOverflow),
   mkSession hw e (mkCursors (ss_retained_from node) d d) PersistingGap None None
     (Some (mkGap hw e d (ss_retained_from node - d) JournalOverflow)) None
     (Some (mkReceipt hw e (ss_retained_from node)))).
Proof.
destruct Hnode as (_ & Hret & _).
unfold accept_range_unavailable, active_pull, require_phase, validate_state_for_active_stream.
ns_eval. rewrite bool_decide_eq_true_2 by done. ns_eval. rewrite Hv. ns_eval.
rewrite He, Z.eqb_refl. ns_eval. rewrite (proj2 (Z.leb_gt _ _)) by lia. ns_eval.
rewrite release_durable, sub_ok by lia. ns_eval. rewrite gap_new_intro by ilia. ns_eval.
rewrite gap_from_received, add_ok by ilia. ns_eval.
replace (d + (ss_retained_from node - d)) with (ss_retained_from node) by lia. reflexivity.
Qed.

Lemma first_exchange_gap :
0 < max ->
fst (first_exchange max node (mkSession hw e (mkCursors d d rel) Ready None None None None None))
= Ok (PGap (mkGap hw e d (ss_retained_from node - d) JournalOverflow)).
Proof.
intros Hmax. destruct Hnode as (_ & Hret & _). unfold first_exchange. cbv [mbind st_bind].
rewrite begin_pull_ready, accept_range_unavailable_awaiting by done.
unfold take_pending_persistence. ns_eval. rewrite add_ok by ilia.
replace (d + (ss_retained_from node - d)) with (ss_retained_from node) by lia.
cbn [mbind outcome_bind]. ns_eval. rewrite bool_decide_eq_true_2 by done. reflexivity.
Qed.
End FirstExchange.

(** C39. Reconciliation is exact and loses nothing: it never panics; it
    succeeds exactly when the node's state is valid, log and node name the same
    sensor, boot epoch and journal, and [released <= durable <= produced]; each
    refusal states a true disagreement. The session goes on at the durable
    cursor and with the node's release. A journal gap is announced exactly when
    the node has overwritten the durable cursor's successor, and then the first
    pull, answered with that state, hands exactly the announced range to storage. *)
Theorem reconciliation_exact (expected : ExpectedStreamState) (capture : CaptureRecoveryEvidence)
    (node : StreamState) :
  typed node -> u64 (ce_durable_cursor capture) ->
  no_panic (reconcile_existing_capture expected capture node) /\
  (forall e, reconcile_existing_capture expected capture node = Err e -> refusal expected capture node e) /\
  ((exists r, reconcile_existing_capture expected capture node = Ok r) <->
     stream_state_validate node = Ok node /\ same_stream expected capture node /\
     ss_released node <= ce_durable_cursor capture <= ss_produced node) /\
  (forall r, reconcile_existing_capture expected capture node = Ok r ->
     recovered (ex_hardware_id expected) (ex_boot_epoch expected) (ce_durable_cursor capture)
       (ss_released node) = Ok (rs_session r) /\
     match rs_continuity r with
     | Contiguous => ss_retained_from node <= ce_durable_cursor capture
     | JournalGapRequired f n =>
         f = ce_durable_cursor capture /\ 0 < n /\ f + n = ss_retained_from node /\
         forall max, 0 < max ->
           fst (first_exchange max node (rs_session r)) =
           Ok (PGap (mkGap (ex_hardware_id expected) (ex_boot_epoch expected) f n JournalOverflow))
     end).
Proof.
  intros Hn Hc. pose proof (reconcile_spec expected capture node) as H.
  destruct (reconcile_existing_capture expected capture node) as [r|e|]; [| |done].
  - destruct H as (Hv & Hsame & Hb & Hs & Hcont). split_and!; [apply no_panic_Ok|done| |].
    { split; eauto. }
    intros r' [= <-]. split.
    { rewrite Hs. unfold recovered, cursors_new. rewrite Z.ltb_irrefl, (proj2 (Z.ltb_ge _ _)) by lia. done. }
    rewrite Hcont, Hs. destruct (Z.ltb_spec (ce_durable_cursor capture) (ss_retained_from node)); [|done].
    split_and!; [done|lia|lia|]. intros max Hmax. pose proof Hn as (_ & _ & _ & Hrel & _).
    apply first_exchange_gap; auto; [apply Hsame|ilia].
  - split_and!; [apply no_panic_Err|by intros ? [= <-]| |done].
    split; [by intros [? ?]|]. intros (Hv & (H1 & H2 & H3 & H4) & Hb).
    destruct e; cbn in H; try congruence; try naive_solver lia.
Qed.

Definition recovering_node : StreamState := mkStreamState sample_epoch 30 90 16 64 0.

Lemma reconciliation_exact_witness :
  exists r, reconcile_existing_capture (mkExpected sample_hw sample_epoch 64)
    (mkEvidence sample_hw sample_epoch 20) recovering_node = Ok r /\
  rs_continuity r = JournalGapRequired 20 10 /\
  fst (first_exchange 48 recovering_node (rs_session r)) =
    Ok (PGap (mkGap sample_hw sample_epoch 20 10 JournalOverflow)).
Proof.
  eexists. split; [reflexivity|]. split; [reflexivity|].
  assert (H := reconciliation_exact (mkExpected sample_hw sample_epoch 64)
    (mkEvidence sample_hw sample_epoch 20) recovering_node).
  destruct H as (_ & _ & _ & H); [typed_by_compute|typed_by_compute|].
  destruct (H _ eq_refl) as (_ & _ & _ & _ & Hf). apply (Hf 48). reflexivity.
Defined.
