(* ===== verification/Persistence.v ===== *)
(** * The persistence boundary (crates/sensor-host/src/measurement_persistence.rs)

    The traits of durable storage as classes, with their promises; the records
    and envelopes that cross the boundary (bounded_writer.rs); and
    [persist_pending], which moves a transfer's record through a sink. *)

From S2P Require Import Prelude Core Measurement MeasurementWire NodeSession MeasurementTransfer.

(** ** Records and sinks *)

Inductive PersistenceRecord :=
| RecordChunk (hardware_id : HardwareId) (chunk : SampleChunk)
| RecordGap (gap : Gap)
| RecordContinuityBreak (observed : ContinuityBreak).

#[export] Instance PersistenceRecord_eq_dec : EqDecision PersistenceRecord.
Proof. solve_decision. Defined.

Class DurableMeasurementSink (S E : Type) : Type := {
  persist_chunk : HardwareId -> SampleChunk -> st S E unit;
  persist_gap : Gap -> st S E unit;
  persist_continuity_break : ContinuityBreak -> st S E unit
}.
#[export] Hint Mode DurableMeasurementSink + - : typeclass_instances.

(** The dispatch on a record's kind of [PersistenceEnvelope::persist]. *)
Definition persist_record {S E : Type} `{DurableMeasurementSink S E} (record : PersistenceRecord) : st S E unit :=
  match record with
  | RecordChunk hardware_id chunk => persist_chunk hardware_id chunk
  | RecordGap gap => persist_gap gap
  | RecordContinuityBreak observed => persist_continuity_break observed
  end.

Definition record_of_pending (p : PendingPersistence) : PersistenceRecord :=
  match p with
  | PChunk hardware_id chunk => RecordChunk hardware_id chunk
  | PGap gap => RecordGap gap
  | PContinuityBreak observed => RecordContinuityBreak observed
  end.

Definition pending_of_record (r : PersistenceRecord) : PendingPersistence :=
  match r with
  | RecordChunk hardware_id chunk => PChunk hardware_id chunk
  | RecordGap gap => PGap gap
  | RecordContinuityBreak observed => PContinuityBreak observed
  end.

(** What the validators and constructors of a record guarantee. *)
Definition persistable (r : PersistenceRecord) : Prop := record_valid (pending_of_record r).

(** The promise of the trait: [holds s l], the log of [s] is durably [l]; a
    record is appended before [Ok] returns. After an error nothing is promised:
    the sink is given up for a recovered one. [admits] bounds the logs the
    storage can hold. *)
Class DurableSink (S E : Type) `{DurableMeasurementSink S E} : Type := {
  holds : S -> list PersistenceRecord -> Prop;
  admits : list PersistenceRecord -> Prop;
  admits_prefix (l l' : list PersistenceRecord) : admits (l ++ l') -> admits l;
  persist_durable (s : S) (l : list PersistenceRecord) (r : PersistenceRecord) :
    holds s l -> persistable r -> admits (l ++ [r]) ->
    match persist_record r s with
    | (Ok _, s') => holds s' (l ++ [r])
    | (Err _, _) => True
    | (Panic, _) => False
    end
}.
#[export] Hint Mode DurableSink + - - : typeclass_instances.

(** ** Envelopes *)

Inductive PersistenceEnvelopeError :=
| InvalidChunk (error : MeasurementWireError)
| InvalidContract (error : MeasurementContractError).

Record PersistenceEnvelope := mkEnvelope {
  pe_record : PersistenceRecord;
  pe_receipt : DurableReceipt
}.

#[export] Instance PersistenceEnvelope_eq_dec : EqDecision PersistenceEnvelope.
Proof. solve_decision. Defined.

Abbreviation envelope := (outcome PersistenceEnvelopeError).

Definition envelope_chunk (hardware_id : HardwareId) (chunk : SampleChunk) : envelope PersistenceEnvelope :=
  _ ← map_err InvalidChunk (sample_chunk_validate chunk);
  end_ ← map_err InvalidContract (chunk_end (header chunk));
  Ok (mkEnvelope (RecordChunk hardware_id chunk)
        (mkReceipt hardware_id (chunk_boot_epoch (header chunk)) end_)).

Definition envelope_gap (gap : Gap) : envelope PersistenceEnvelope :=
  end_ ← expect (checked_add 64 (first_missing gap) (missing_count gap));
  Ok (mkEnvelope (RecordGap gap) (mkReceipt (gap_hardware_id gap) (gap_boot_epoch gap) end_)).

Definition envelope_continuity_break (observed : ContinuityBreak) : envelope PersistenceEnvelope :=
  end_ ← break_end observed;
  Ok (mkEnvelope (RecordContinuityBreak observed)
        (mkReceipt (break_hardware_id observed) (break_boot_epoch observed) end_)).

Definition from_pending (record : PendingPersistence) : envelope PersistenceEnvelope :=
  match record with
  | PChunk hardware_id chunk => envelope_chunk hardware_id chunk
  | PGap gap => envelope_gap gap
  | PContinuityBreak observed => envelope_continuity_break observed
  end.

Definition envelope_hardware_id (self : PersistenceEnvelope) : HardwareId :=
  receipt_hardware_id (pe_receipt self).
Definition envelope_boot_epoch (self : PersistenceEnvelope) : BootEpoch :=
  receipt_boot_epoch (pe_receipt self).
Definition start_cursor (self : PersistenceEnvelope) : SequenceCursor :=
  match pe_record self with
  | RecordChunk _ chunk => chunk_first (header chunk)
  | RecordGap gap => first_missing gap
  | RecordContinuityBreak observed => break_at observed
  end.
Definition end_cursor (self : PersistenceEnvelope) : SequenceCursor := receipt_end (pe_receipt self).

Definition envelope_persist {S E : Type} `{DurableMeasurementSink S E} (self : PersistenceEnvelope) : st S E unit :=
  persist_record (pe_record self).

(** An envelope made by the constructors above from a valid record. *)
Definition envelope_valid (e : PersistenceEnvelope) : Prop :=
  persistable (pe_record e) /\
  persistence_receipt (pending_of_record (pe_record e)) = Ok (pe_receipt e).

Lemma record_receipt (p : PendingPersistence) :
  record_valid p ->
  exists r, persistence_receipt p = Ok r /\ record_first p < receipt_end r < 2 ^ 64 /\ 0 <= record_first p.
Proof.
  destruct p as [hw c|g|b]; cbn [record_valid persistence_receipt record_first].
  - intros (_ & ((_ & _ & _ & Hf & Hn) & _) & Hv). apply sample_chunk_validate_Ok in Hv as (Hs & _).
    apply chunk_structure_Ok in Hs as (_ & _ & Hne & Hb & _).
    rewrite add_ok by ilia. eexists. split; [reflexivity|]. cbn. ilia.
  - intros (Ht & Hne & Hb). destruct Ht as (_ & _ & Hf & Hn).
    rewrite add_ok by ilia. eexists. split; [reflexivity|]. cbn. ilia.
  - intros (Ht & Hb). rewrite break_end_valid by done. eexists. split; [reflexivity|]. cbn.
    destruct Ht as (_ & _ & Hf). ilia.
Qed.

(** Constructing the envelope of a valid record succeeds, with the session's receipt. *)
Lemma from_pending_ok (p : PendingPersistence) :
  record_valid p ->
  exists e, from_pending p = Ok e /\ envelope_valid e /\ pe_record e = record_of_pending p /\
    start_cursor e = record_first p.
Proof.
  intros Hp. destruct (record_receipt p Hp) as (r & Hr & Hb & _). exists (mkEnvelope (record_of_pending p) r).
  assert (Hval : envelope_valid (mkEnvelope (record_of_pending p) r)).
  { unfold envelope_valid, persistable. cbn [pe_record pe_receipt]. by destruct p. }
  destruct p as [hw c|g|b]; cbn [from_pending].
  - destruct Hp as (_ & ((_ & _ & _ & Hf & Hn) & _) & Hv). cbn in Hr, Hb. unfold envelope_chunk.
    rewrite Hv. cbn [map_err mbind outcome_bind]. unfold chunk_end, checked_advance.
    apply sample_chunk_validate_Ok in Hv as (Hs & _). apply chunk_structure_Ok in Hs as (_ & _ & Hne & Hbd & _).
    rewrite add_ok in Hr by lia. injection Hr as <-. rewrite checked_add_ok by ilia. done.
  - destruct Hp as (Ht & Hne & Hbd). cbn in Hr. rewrite add_ok in Hr by ilia. injection Hr as <-.
    unfold envelope_gap. rewrite checked_add_ok by ilia. done.
  - cbn in Hr. rewrite break_end_valid in Hr by done. injection Hr as <-.
    unfold envelope_continuity_break. rewrite break_end_valid by done. done.
Qed.

Lemma envelope_range (e : PersistenceEnvelope) :
  envelope_valid e -> 0 <= start_cursor e < end_cursor e /\ end_cursor e < 2 ^ 64.
Proof.
  intros (Hp & Hr). destruct (record_receipt _ Hp) as (r & Hr' & Hb & H0). rewrite Hr in Hr'. injection Hr' as <-.
  unfold end_cursor. assert (start_cursor e = record_first (pending_of_record (pe_record e))) as ->; [|lia].
  unfold start_cursor. by destruct (pe_record e).
Qed.

(** ** Moving a transfer's record through a sink *)

Inductive PersistenceError (E : Type) :=
| PersistUnexpectedPhase
| PersistMissingPending
| PersistNonWireChunk
| PersistCursorOverflow
| PersistContract (error : MeasurementContractError)
| PersistSink (error : E)
| PersistTransfer (error : MeasurementTransferError).
Arguments PersistUnexpectedPhase {E}.
Arguments PersistMissingPending {E}.
Arguments PersistNonWireChunk {E}.
Arguments PersistCursorOverflow {E}.
Arguments PersistContract {E} error.
Arguments PersistSink {E} error.
Arguments PersistTransfer {E} error.

Section PersistPending.
Context {S E : Type} `{DurableMeasurementSink S E}.

Abbreviation persisting := (st (MeasurementTransfer * S) (PersistenceError E)).

Definition on_sink {A : Type} (m : st S E A) : persisting A :=
zoom snd (fun s x => (fst x, s)) PersistSink m.

Definition on_transfer {A : Type} (m : transfer A) : persisting A :=
zoom fst (fun t x => (t, snd x)) PersistTransfer m.

Definition persist_pending : persisting DurableReceipt :=
session ← gets (fun x => mt_session (fst x));
receipt ←
  match ns_phase session with
  | PersistingChunk =>
      chunk ← lift (ok_or (pending_wire_chunk session) PersistNonWireChunk);
      _ ← on_sink (persist_chunk (ns_hardware_id session) chunk);
      end_ ← lift (map_err PersistContract (chunk_end (header chunk)));
      mret (mkReceipt (ns_hardware_id session) (ns_boot_epoch session) end_)
  | PersistingGap =>
      gap ← lift (ok_or (ns_pending_gap session) PersistMissingPending);
      _ ← on_sink (persist_gap gap);
      end_ ← lift (ok_or (checked_add 64 (first_missing gap) (missing_count gap)) PersistCursorOverflow);
      mret (mkReceipt (gap_hardware_id gap) (gap_boot_epoch gap) end_)
  | PersistingContinuityBreak =>
      observed ← lift (ok_or (ns_pending_continuity_break session) PersistMissingPending);
      _ ← on_sink (persist_continuity_break observed);
      end_ ← lift (break_end observed);
      mret (mkReceipt (break_hardware_id observed) (break_boot_epoch observed) end_)
  | _ => throw PersistUnexpectedPhase
  end;
_ ← on_transfer (transfer_confirm_durable receipt);
mret receipt.
End PersistPending.

Section PersistPendingProof.
Context {S E : Type} `{DurableSink S E}.
Context (hw : HardwareId) (e : BootEpoch).

(** The end of [persist_pending] once the record is on the sink. *)
Lemma confirm_after_persist d n phase chunk gap brk (t : MeasurementTransfer) (s : S) :
0 <= d -> 0 < n -> d + n < 2 ^ 64 -> u16 (mt_max_samples t) ->
phase = PersistingChunk \/ phase = PersistingGap \/ phase = PersistingContinuityBreak ->
mt_session t = mkSession hw e (mkCursors (d + n) d d) phase None chunk gap brk
  (Some (mkReceipt hw e (d + n))) ->
exists t', (_ ← on_transfer (E:=E) (transfer_confirm_durable (mkReceipt hw e (d + n)));
            mret (mkReceipt hw e (d + n))) (t, s) = (Ok (mkReceipt hw e (d + n)), (t', s)) /\
  transfer_rel hw e (d + n) None t'.
Proof.
intros Hd Hn Hb Hmax Hph Ht. unfold on_transfer, transfer_confirm_durable, on_session. st_eval.
rewrite Ht, confirm_pending by done. eexists. split; [reflexivity|]. split; [|done].
apply rel_ready; lia.
Qed.

(** The record in the slot of the session's phase. *)
Definition pending_record (self : NodeSession) : option PersistenceRecord :=
match ns_phase self with
| PersistingChunk => RecordChunk (ns_hardware_id self) <$> pending_wire_chunk self
| PersistingGap => RecordGap <$> ns_pending_gap self
| PersistingContinuityBreak => RecordContinuityBreak <$> ns_pending_continuity_break self
| _ => None
end.

Lemma pending_slot_record d n phase chunk gap brk waiting cursors receipt :
pending_slot hw e d n phase chunk gap brk waiting -> 0 <= d -> 0 < n -> d + n < 2 ^ 64 ->
match pending_record (mkSession hw e cursors phase None chunk gap brk receipt) with
| Some r => waiting = Some (pending_of_record r) /\ persistable r /\ record_first (pending_of_record r) = d /\
    persistence_receipt (pending_of_record r) = Ok (mkReceipt hw e (d + n))
| None => phase = PersistingChunk \/ phase = PersistingGap \/ phase = PersistingContinuityBreak
end.
Proof.
intros Hsl Hd Hn Hb. destruct Hsl as [c Hc Hh|h sm|r Hg|r -> Hbr|phase [->|[->| ->]]]; cbn; auto.
- rewrite Hh. cbn. rewrite add_ok by lia. auto.
- rewrite add_ok by lia. auto.
- rewrite break_end_valid by done. auto.
Qed.

Lemma persist_pending_slot d n phase chunk gap brk waiting (t : MeasurementTransfer) (s : S) (l : list PersistenceRecord) :
holds s l -> 0 <= d -> 0 < n -> d + n < 2 ^ 64 ->
u16 (mt_max_samples t) -> pending_slot hw e d n phase chunk gap brk waiting ->
mt_session t = mkSession hw e (mkCursors (d + n) d d) phase None chunk gap brk
  (Some (mkReceipt hw e (d + n))) ->
match pending_record (mt_session t) with
| Some r => admits (S:=S) (l ++ [r]) ->
    match persist_pending (E:=E) (t, s) with
    | (Ok receipt, (t', s')) =>
        receipt = mkReceipt hw e (d + n) /\ transfer_rel hw e (d + n) None t' /\ holds s' (l ++ [r])
    | (Err (PersistSink _), (t', _)) => t' = t
    | _ => False
    end
| None => exists err, persist_pending (E:=E) (t, s) = (Err err, (t, s)) /\
    (err = PersistMissingPending \/ err = PersistNonWireChunk)
end.
Proof.
intros Hl Hd Hn Hb Hmax Hsl Ht. pose proof (pending_phase _ _ _ _ _ _ _ _ _ Hsl) as Hph.
pose proof (pending_slot_record _ _ _ _ _ _ _ (mkCursors (d + n) d d) (Some (mkReceipt hw e (d + n)))
  Hsl Hd Hn Hb) as Hrec. rewrite Ht.
assert (Hstep : forall r k, persistable r -> admits (S:=S) (l ++ [r]) ->
  (forall x, k x = (_ ← on_transfer (E:=E) (transfer_confirm_durable (mkReceipt hw e (d + n)));
              mret (mkReceipt hw e (d + n))) x) ->
  match (_ ← on_sink (persist_record r); k) (t, s) with
    | (Ok receipt, (t', s')) =>
        receipt = mkReceipt hw e (d + n) /\ transfer_rel hw e (d + n) None t' /\ holds s' (l ++ [r])
    | (Err (PersistSink _), (t', _)) => t' = t
    | _ => False
    end).
{ intros r k Hr Hadm Hk. unfold on_sink. st_eval. pose proof (persist_durable s l r Hl Hr Hadm) as Hp.
  destruct (persist_record r s) as [[[]|err|] s']; [|done|done].
  rewrite Hk. destruct (confirm_after_persist d n phase chunk gap brk t s' Hd Hn Hb Hmax Hph Ht)
    as (t' & -> & Hrel). auto. }
unfold persist_pending. autorewrite with st. cbn [fst]. rewrite Ht.
destruct Hsl as [c Hc Hh|h sm|r Hg|r -> Hbr|phase Hph'].
- cbn [pending_record ns_phase pending_wire_chunk ns_pending_chunk ok_or fmap option_fmap option_map] in *.
  autorewrite with st. intros Hadm. apply (Hstep (RecordChunk hw c)); [apply Hrec|done|].
  intros x. cbn [ns_hardware_id ns_boot_epoch]. unfold chunk_end, checked_advance. rewrite Hh.
  cbn [chunk_first chunk_sample_count]. rewrite checked_add_ok by lia. reflexivity.
- cbn [pending_record ns_phase pending_wire_chunk ns_pending_chunk ok_or]. autorewrite with st.
  cbn [fmap option_fmap option_map]. eauto.
- cbn [pending_record ns_phase ns_pending_gap ok_or fmap option_fmap option_map] in *. autorewrite with st.
  intros Hadm. apply (Hstep (RecordGap (mkGap hw e d n r))); [apply Hrec|done|].
  intros x. cbn [first_missing missing_count]. rewrite checked_add_ok by lia. reflexivity.
- cbn [pending_record ns_phase ns_pending_continuity_break ok_or fmap option_fmap option_map] in *.
  autorewrite with st. intros Hadm.
  apply (Hstep (RecordContinuityBreak (mkBreak hw e d r))); [apply Hrec|done|].
  intros x. rewrite break_end_valid by done. reflexivity.
- destruct Hph' as [->|[->| ->]];
    cbn [pending_record ns_phase pending_wire_chunk ns_pending_chunk ns_pending_gap ns_pending_continuity_break
      ok_or];
    autorewrite with st; cbn [fmap option_fmap option_map]; eauto.
Qed.

Lemma pending_record_persistable d open (t : MeasurementTransfer) (r : PersistenceRecord) :
transfer_rel hw e d open t -> pending_record (mt_session t) = Some r -> persistable r.
Proof.
intros (Hrel & _). destruct Hrel as [| |d n phase chunk gap brk waiting Hd Hn Hb Hsl|]; try discriminate.
pose proof (pending_slot_record _ _ _ _ _ _ _ (mkCursors (d + n) d d) (Some (mkReceipt hw e (d + n)))
  Hsl Hd Hn Hb) as Hrec.
intros Hr. rewrite Hr in Hrec. apply Hrec.
Qed.

(** A persisted transfer and a failed sink: what the sink was asked. *)
Lemma persist_pending_asked (t t' : MeasurementTransfer) (s s' : S) x :
persist_pending (E:=E) (t, s) = (x, (t', s')) ->
match x with
| Ok _ => exists r, pending_record (mt_session t) = Some r /\ persist_record r s = (Ok tt, s')
| Err (PersistSink err) => exists r, pending_record (mt_session t) = Some r /\ persist_record r s = (Err err, s')
| _ => True
end.
Proof.
intros Hp. unfold persist_pending, on_sink, on_transfer in Hp. unfold pending_record.
st_run Hp; simplify_eq; try exact I; cbn [fst snd] in *;
  repeat match goal with u : unit |- _ => destruct u end;
  try (eexists; split; [reflexivity|done]).
unfold break_end, expect in *. by repeat case_match.
Qed.

(** Every transfer: what [persist_pending] does with it. *)
Lemma persist_pending_spec d open (t : MeasurementTransfer) (s : S) (l : list PersistenceRecord) :
transfer_rel hw e d open t -> holds s l ->
(forall r, pending_record (mt_session t) = Some r -> admits (S:=S) (l ++ [r])) ->
match persist_pending (E:=E) (t, s) with
| (Ok receipt, (t', s')) => exists r end_,
    pending_record (mt_session t) = Some r /\ open = Some (end_, Some (pending_of_record r)) /\ persistable r /\
    record_first (pending_of_record r) = d /\
    persistence_receipt (pending_of_record r) = Ok receipt /\ receipt = mkReceipt hw e end_ /\
    transfer_rel hw e end_ None t' /\ holds s' (l ++ [r])
| (Err (PersistSink _), (t', _)) => t' = t /\ pending_record (mt_session t) <> None
| (Err PersistUnexpectedPhase, x) => x = (t, s) /\ open = None
| (Err (PersistMissingPending | PersistNonWireChunk), x) =>
    x = (t, s) /\ pending_record (mt_session t) = None /\ open <> None
| _ => False
end.
Proof.
intros (Hrel & Hmax) Hl Hadm. remember (mt_session t) as sess eqn:Ht.
destruct Hrel as [d rel Hr Hd|d rel mx Hr Hd Hm|d n phase chunk gap brk waiting Hd Hn Hb Hsl|d rel act Hr Hd].
1,2,4: unfold persist_pending; autorewrite with st; cbn [fst]; rewrite <- Ht; cbn [ns_phase];
  by autorewrite with st.
symmetry in Ht.
pose proof (persist_pending_slot d n phase chunk gap brk waiting t s l Hl Hd Hn Hb Hmax Hsl Ht) as Hp.
rewrite Ht in Hp.
pose proof (pending_slot_record _ _ _ _ _ _ _ (mkCursors (d + n) d d) (Some (mkReceipt hw e (d + n)))
  Hsl Hd Hn Hb) as Hrec.
destruct (pending_record _) as [r|].
- specialize (Hp (Hadm r eq_refl)). destruct Hrec as (-> & Hr & Hf & Hre).
  destruct (persist_pending (t, s)) as [[receipt|[| | | | |err|]|] [t' s']]; try done.
  destruct Hp as (-> & Hrel & Hh). exists r, (d + n). split_and!; done.
- destruct Hp as (err & -> & [->| ->]); done.
Qed.
End PersistPendingProof.
