(* ===== verification/WalStorage.v ===== *)
(** * The Capture log behind the persistence boundary

    [impl DurableMeasurementSink for CaptureWalSink]: the write-ahead log keeps
    the promise of the trait, under any faults of its disk. *)

From S2P Require Import Prelude Core NodeSession MeasurementTransfer CaptureSink Persistence.

#[export] Instance wal_measurement_sink : DurableMeasurementSink CaptureWalSink CaptureWalError := {
  persist_chunk := wal_persist_chunk;
  persist_gap := wal_persist_gap;
  persist_continuity_break := wal_persist_continuity_break
}.

(** The log record of a persistence record. *)
Definition capture_record_of (r : PersistenceRecord) : CaptureRecord :=
  match r with
  | RecordChunk _ chunk => CSampleChunk chunk
  | RecordGap gap => CGap gap
  | RecordContinuityBreak observed => CContinuityBreak observed
  end.

Definition record_hardware_id (r : PersistenceRecord) : HardwareId :=
  match r with
  | RecordChunk hardware_id _ => hardware_id
  | RecordGap gap => gap_hardware_id gap
  | RecordContinuityBreak observed => break_hardware_id observed
  end.

Lemma persist_record_stages (r : PersistenceRecord) (s : CaptureWalSink) :
  persist_record r s = with_batch (stage_all (record_hardware_id r) [capture_record_of r]) s.
Proof. by destruct r. Qed.

Lemma persistable_item (r : PersistenceRecord) : persistable r -> item_valid (capture_record_of r).
Proof. unfold persistable. destruct r; cbn; [intros (_ & ? & ?)|..]; auto. Qed.

Section WalStorage.
Context (c : CaptureWalConfig) (Hc : typed c).

(** The log of an open sink: [base], what was in it, and the records. *)
Context (base : list CaptureRecord).

Definition wal_log (l : list PersistenceRecord) : list CaptureRecord := base ++ map capture_record_of l.

(** The open log is exactly the records, all of them acknowledged. *)
Definition wal_holds (s : CaptureWalSink) (l : list PersistenceRecord) : Prop :=
sink_ok c (Some (wal_log l)) (wal_log l) s.

Definition wal_admits (l : list PersistenceRecord) : Prop := fits c (wal_log l).

Lemma wal_log_app (l l' : list PersistenceRecord) : wal_log (l ++ l') = wal_log l ++ map capture_record_of l'.
Proof. unfold wal_log. by rewrite map_app, app_assoc. Qed.

Lemma fits_prefix (rs rs' : list CaptureRecord) : fits c (rs ++ rs') -> fits c rs.
Proof. unfold fits, sized. rewrite log_end_app. lia. Qed.

(** One record offered to the sink. *)
Lemma persist_record_wal (rs : list CaptureRecord) (r : PersistenceRecord) (s : CaptureWalSink) :
sink_ok c (Some rs) rs s -> persistable r -> fits c (rs ++ [capture_record_of r]) ->
match persist_record r s with
| (Ok _, s') => sink_ok c (Some (rs ++ [capture_record_of r])) (rs ++ [capture_record_of r]) s' /\
    record_hardware_id r = cfg_hardware_id c
| (Err err, s') => s' = s \/ (err = Io /\ sink_failed c (Some rs) rs [capture_record_of r] s')
| (Panic, _) => False
end.
Proof.
intros Hs Hr%persistable_item Hfit. rewrite persist_record_stages.
pose proof (persist_ok c Hc _ _ (record_hardware_id r) [capture_record_of r] s Hs
  (proj2 (Forall_singleton _ _) Hr) Hfit) as Hp.
pose proof (persist_stream c Hc (Some rs) rs (record_hardware_id r) (capture_record_of r) s) as Hst.
destruct (with_batch _ s) as [res s']. destruct Hp as [(-> & err & ->)|(_ & Hp)]; [by left|].
destruct res as [u|err|]; [|by right|done]. split; [exact Hp|].
specialize (Hst u s' Hs Hr Hfit eq_refl). by destruct r; injection Hst.
Qed.

Program Definition wal_durable_sink : DurableSink CaptureWalSink CaptureWalError := {|
holds := wal_holds;
admits := wal_admits
|}.
Next Obligation.
unfold wal_admits. intros l l'. rewrite wal_log_app. apply fits_prefix.
Qed.
Next Obligation.
intros s l r Hl Hr Hadm. unfold wal_holds, wal_admits in *. rewrite wal_log_app in *.
pose proof (persist_record_wal _ r s Hl Hr Hadm) as Hp. 
destruct (persist_record r s) as [[]]; [apply Hp|exact I|exact Hp].
Qed.

(** What a later opening finds after a failed append of one record, whatever a
    crash keeps beyond the synced bytes. *)
Lemma failed_append_reopens (rs : list CaptureRecord) (r : CaptureRecord) (s : CaptureWalSink) (k : nat) :
sink_failed c (Some rs) rs [r] s -> fits c (rs ++ [r]) -> (f_synced (ws_file s) <= k)%nat ->
exists s', sink_open c (crash_image k [] (ws_file s)) = (Ok s', ws_file s') /\
  (sink_ok c (Some rs) rs s' \/ sink_ok c (Some rs) (rs ++ [r]) s').
Proof.
intros (_ & _ & Hdisk) Hfit Hk. apply (disk_inv_crash c _ _ _ k []) in Hdisk; [|done].
pose proof Hdisk as (_ & _ & (Hlow & Hsync) & n & Hdata). cbn [sure_end] in Hlow.
assert (Hlen : (length (f_data (crash_image k [] (ws_file s))) <= log_end (rs ++ [r]))%nat).
{ rewrite Hdata, length_take, length_log_end by done. lia. }
assert (Hne : f_data (crash_image k [] (ws_file s)) <> []).
{ intros H. rewrite H in Hsync. unfold log_end in Hlow. cbn [length] in Hsync.
  change FILE_HEADER_BYTES with 64%nat in Hlow. lia. }
assert (Hsized : sized c (length (f_data (crash_image k [] (ws_file s))))) by (unfold fits, sized in *; lia).
pose proof (sink_open_ok c Hc _ _ _ Hdisk Hsized Hne) as Hopen.
destruct (sink_open c _) as [[s'|err|] f']; [| |done].
- destruct Hopen as (rs' & Hpre & Hok & ->). exists s'. split; [done|].
  pose proof Hok as (_ & _ & _ & _ & [tl ->] & _). apply prefix_app_inv in Hpre as [tl' Htl].
  destruct tl as [|r' tl]; [left; by rewrite app_nil_r in Hok|]. injection Htl as -> Htl.
  destruct tl; [by right|discriminate Htl].
- destruct Hopen as (_ & [(_ & H)|(_ & H)]); [done|].
  unfold log_end in Hlow. change FILE_HEADER_BYTES with 64%nat in *. lia.
Qed.
End WalStorage.

(** ** The transfer and its sink *)


Definition lost_range : Gap := mkGap window_hw window_epoch 17 3 JournalOverflow.
Definition gap_transfer : MeasurementTransfer :=
  mkTransfer 7 48
    (mkSession window_hw window_epoch (mkCursors 20 17 17) PersistingGap None None (Some lost_range) None
       (Some (mkReceipt window_hw window_epoch 20))) None None None.
Definition chunk_transfer : MeasurementTransfer :=
  mkTransfer 7 48
    (mkSession window_hw window_epoch (mkCursors 22 20 20) PersistingChunk None (Some (Wire golden_chunk)) None None
       (Some (mkReceipt window_hw window_epoch 22))) None None None.

Lemma opened_sink_holds : wal_holds sample_config [] opened_sink [].
Proof.
  assert (Heq : sink_open sample_config faulty_disk = (Ok opened_sink, ws_file opened_sink))
    by (vm_compute; reflexivity).
  pose proof (sink_open_fresh sample_config sample_config_typed faulty_disk eq_refl) as Hf.
  rewrite Heq in Hf. apply Hf. split; vm_compute; reflexivity.
Qed.

Lemma committed_sink_holds : sink_ok sample_config (Some [sample_gap]) [sample_gap] committed_sink.
Proof.
  pose proof (persist_record_wal sample_config sample_config_typed [] (RecordGap lost_range) opened_sink
    opened_sink_holds) as H.
  assert (Heq : persist_record (E:=CaptureWalError) (RecordGap lost_range) opened_sink = (Ok tt, committed_sink))
    by (vm_compute; reflexivity).
  rewrite Heq in H. apply H; [typed_by_compute|split; vm_compute; reflexivity].
Qed.

Lemma gap_transfer_rel :
  transfer_rel window_hw window_epoch 17 (Some (17 + 3, Some (PGap lost_range))) gap_transfer.
Proof.
  split; [|typed_by_compute]. apply (rel_persisting _ _ 17 3); [typed_by_compute..|].
  apply (slot_gap _ _ 17 3). typed_by_compute.
Qed.

Lemma chunk_transfer_rel :
  transfer_rel window_hw window_epoch 20 (Some (20 + 2, Some (PChunk window_hw golden_chunk))) chunk_transfer.
Proof.
  split; [|typed_by_compute]. apply (rel_persisting _ _ 20 2); [typed_by_compute..|].
  apply (slot_wire _ _ 20 2); [|reflexivity]. typed_by_compute.
Qed.

