(* ===== verification/BoundedWriter.v ===== *)
(** * The bounded persistence worker (crates/sensor-host/src/bounded_writer.rs)

    The storage-side queue between a channel and its sink: jobs are accepted in
    order up to a capacity, written one at a time, and each is completed once
    the sink has it. A failure keeps the uncertain job for the recovered sink. *)

From S2P Require Import Prelude Core NodeSession Persistence WalStorage CaptureSink.

Abbreviation WriteJobId := Z.

Record WriteJob := mkJob {
  job_id : WriteJobId;
  job_envelope : PersistenceEnvelope
}.

(** [result] is [Ok] of a receipt or [Err] of the sink's error. *)
Record WriteCompletion (E : Type) := mkCompletion {
  completion_id : WriteJobId;
  completion_result : DurableReceipt + E
}.
Arguments mkCompletion {E}.
Arguments completion_id {E}.
Arguments completion_result {E}.

Inductive SubmitErrorKind := QueueFull | WorkerFaulted | JobIdExhausted.

Record SubmitError := mkSubmitError {
  se_kind : SubmitErrorKind;
  se_envelope : PersistenceEnvelope
}.

Inductive BoundedWriterError := ZeroCapacity | ZeroProcessLimit.

Record BoundedPersistenceWorker (S E : Type) := mkWorker {
  bw_sink : S;
  bw_capacity : nat;
  bw_next_job_id : Z;
  bw_pending : list WriteJob;
  bw_failed_job : option WriteJob;
  bw_completions : list (WriteCompletion E);
  bw_faulted : bool
}.
Arguments mkWorker {S E}.
Arguments bw_sink {S E}.
Arguments bw_capacity {S E}.
Arguments bw_next_job_id {S E}.
Arguments bw_pending {S E}.
Arguments bw_failed_job {S E}.
Arguments bw_completions {S E}.
Arguments bw_faulted {S E}.

Section Worker.
Context {S E : Type} `{DurableMeasurementSink S E}.

Abbreviation worker := (BoundedPersistenceWorker S E).

Definition worker_new (sink : S) (capacity : nat) : outcome BoundedWriterError worker :=
if (capacity =? 0)%nat then Err ZeroCapacity
else Ok (mkWorker sink capacity 1 [] None [] false).

Definition accepted_record_count (self : worker) : nat :=
length (bw_pending self) + (if is_some (bw_failed_job self) then 1 else 0).

Definition submit (envelope : PersistenceEnvelope) : st worker SubmitError WriteJobId :=
self ← get;
if bw_faulted self then throw (mkSubmitError WorkerFaulted envelope)
else if (bw_capacity self <=? accepted_record_count self + length (bw_completions self))%nat
then throw (mkSubmitError QueueFull envelope)
else
  let id := bw_next_job_id self in
  next_job_id ← lift (ok_or (checked_add 64 id 1) (mkSubmitError JobIdExhausted envelope));
  _ ← modify (fun s => mkWorker (bw_sink s) (bw_capacity s) next_job_id
                         (bw_pending s ++ [mkJob id envelope]) (bw_failed_job s)
                         (bw_completions s) (bw_faulted s));
  mret id.

(** The loop of [process_ready], from [processed] jobs on, at most [n] more. *)
Fixpoint process_loop (n processed : nat) : st worker BoundedWriterError nat :=
match n with
| O => mret processed
| Datatypes.S n => fun self =>
    match bw_pending self with
    | [] => (Ok processed, self)
    | job :: pending =>
        match envelope_persist (job_envelope job) (bw_sink self) with
        | (Ok _, sink) =>
            process_loop n (Datatypes.S processed)
              (mkWorker sink (bw_capacity self) (bw_next_job_id self) pending (bw_failed_job self)
                 (bw_completions self ++ [mkCompletion (job_id job) (inl (pe_receipt (job_envelope job)))])
                 (bw_faulted self))
        | (Err error, sink) =>
            (Ok (Datatypes.S processed),
             mkWorker sink (bw_capacity self) (bw_next_job_id self) pending (Some job)
               (bw_completions self ++ [mkCompletion (job_id job) (inr error)]) true)
        | (Panic, sink) =>
            (Panic,
             mkWorker sink (bw_capacity self) (bw_next_job_id self) pending (bw_failed_job self)
               (bw_completions self) (bw_faulted self))
        end
    end
end.

Definition process_ready (limit : nat) : st worker BoundedWriterError nat :=
if (limit =? 0)%nat then throw ZeroProcessLimit
else
  self ← get;
  if bw_faulted self then mret 0%nat else process_loop limit 0.

Definition poll_completion (self : worker) : option (WriteCompletion E) * worker :=
match bw_completions self with
| [] => (None, self)
| c :: completions =>
    (Some c, mkWorker (bw_sink self) (bw_capacity self) (bw_next_job_id self) (bw_pending self)
               (bw_failed_job self) completions (bw_faulted self))
end.

Definition replace_recovered_sink (sink : S) (self : worker) : worker :=
mkWorker sink (bw_capacity self) (bw_next_job_id self)
  (match bw_failed_job self with Some job => job :: bw_pending self | None => bw_pending self end) None (bw_completions self) false.

Definition available_capacity (self : worker) : nat :=
bw_capacity self - (accepted_record_count self + length (bw_completions self)).
End Worker.

(** ** Settling jobs *)

Definition job_record (j : WriteJob) : PersistenceRecord := pe_record (job_envelope j).

(** The jobs left open by a sequence of completions: a success settles the
    first open job with its own receipt, a failure names it and leaves it open.
    [None]: the completions do not belong to the jobs in this order. *)
Fixpoint settle {E : Type} (jobs : list WriteJob) (cs : list (WriteCompletion E)) : option (list WriteJob) :=
  match cs with
  | [] => Some jobs
  | c :: cs =>
      match jobs with
      | [] => None
      | j :: rest =>
          if negb (completion_id c =? job_id j) then None
          else match completion_result c with
          | inl receipt => if bool_decide (receipt = pe_receipt (job_envelope j)) then settle rest cs else None
          | inr _ => settle jobs cs
          end
      end
  end.

Section Settle.
Context {E : Type}.

Lemma settle_app (jobs : list WriteJob) (cs cs' : list (WriteCompletion E)) :
settle jobs (cs ++ cs') = settle jobs cs ≫= fun rest => settle rest cs'.
Proof.
revert jobs. induction cs as [|c cs IH]; intros jobs; [done|]. cbn.
destruct jobs as [|j jobs]; [done|]. destruct (negb _); [done|].
destruct (completion_result c); [case_bool_decide|]; auto.
Qed.

Lemma settle_more (jobs rest more : list WriteJob) (cs : list (WriteCompletion E)) :
settle jobs cs = Some rest -> settle (jobs ++ more) cs = Some (rest ++ more).
Proof.
revert jobs. induction cs as [|c cs IH]; intros jobs; cbn; [by intros [= <-]|].
destruct jobs as [|j jobs]; [done|]. cbn [app]. destruct (negb _); [done|].
destruct (completion_result c); [case_bool_decide; auto; done|]. apply (IH (j :: jobs)).
Qed.

(** The successes of a sequence of completions. *)
Definition confirmed (cs : list (WriteCompletion E)) : list (WriteJobId * DurableReceipt) :=
omap (fun c => match completion_result c with inl r => Some (completion_id c, r) | inr _ => None end) cs.

(** The settled jobs are a prefix, completed in order. *)
Lemma settle_prefix (jobs rest : list WriteJob) (cs : list (WriteCompletion E)) :
settle jobs cs = Some rest ->
exists settled, jobs = settled ++ rest /\
  confirmed cs = map (fun j => (job_id j, pe_receipt (job_envelope j))) settled.
Proof.
revert jobs. induction cs as [|c cs IH]; intros jobs; cbn [settle]; [intros [= <-]; by exists []|].
destruct jobs as [|j jobs]; [done|]. destruct (Z.eqb_spec (completion_id c) (job_id j)) as [Hid|]; [|done].
cbn [negb]. unfold confirmed in *. cbn [omap list_omap].
destruct (completion_result c) as [r|err].
- case_bool_decide as Hr; [|done]. intros Hs. destruct (IH _ Hs) as (settled & -> & Hok).
  exists (j :: settled). cbn [map app]. by rewrite Hok, Hid, Hr.
- intros Hs. destruct (IH _ Hs) as (settled & Heq & Hok). by exists settled.
Qed.

Lemma settle_ok (j : WriteJob) (jobs : list WriteJob) :
settle (j :: jobs) [mkCompletion (E:=E) (job_id j) (inl (pe_receipt (job_envelope j)))] = Some jobs.
Proof. cbn. rewrite Z.eqb_refl. cbn. by rewrite bool_decide_eq_true_2. Qed.

Lemma settle_err (j : WriteJob) (jobs : list WriteJob) (err : E) :
settle (j :: jobs) [mkCompletion (job_id j) (inr err)] = Some (j :: jobs).
Proof. cbn. by rewrite Z.eqb_refl. Qed.
End Settle.

(** ** Histories of a worker *)

(** A worker with the jobs it has accepted and the completions polled so far. *)
Record worker_state (S E : Type) := mkWorkerState {
  ws_worker : BoundedPersistenceWorker S E;
  ws_accepted : list WriteJob;
  ws_polled : list (WriteCompletion E)
}.
Arguments mkWorkerState {S E}.
Arguments ws_worker {S E}.
Arguments ws_accepted {S E}.
Arguments ws_polled {S E}.

Section History.
Context {S E : Type} `{DurableSink S E}.
(** The log of the first sink. *)
Context (log : list PersistenceRecord).

Abbreviation worker := (BoundedPersistenceWorker S E).

(** All completions so far, in order. *)
Definition all_completions (x : worker_state S E) : list (WriteCompletion E) :=
ws_polled x ++ bw_completions (ws_worker x).

(** The jobs not yet settled, in order. *)
Definition open_jobs (w : worker) : list WriteJob :=
match bw_failed_job w with Some job => job :: bw_pending w | None => bw_pending w end.

(** The log a sink must hold when [settled] jobs are done. *)
Definition log_of (settled : list WriteJob) : list PersistenceRecord := log ++ map job_record settled.

(** One call. A recovered sink must hold the settled jobs and not the failed one. *)
Inductive worker_step : worker_state S E -> worker_state S E -> Prop :=
| step_submit w accepted polled envelope id w' :
  envelope_valid envelope -> submit envelope w = (Ok id, w') ->
  worker_step (mkWorkerState w accepted polled)
    (mkWorkerState w' (accepted ++ [mkJob id envelope]) polled)
| step_submit_refused w accepted polled envelope err w' :
  submit envelope w = (Err err, w') ->
  worker_step (mkWorkerState w accepted polled) (mkWorkerState w' accepted polled)
| step_process w accepted polled limit n w' :
  admits (S:=S) (log ++ map job_record accepted) -> process_ready limit w = (Ok n, w') ->
  worker_step (mkWorkerState w accepted polled) (mkWorkerState w' accepted polled)
| step_poll w accepted polled c w' :
  poll_completion w = (Some c, w') ->
  worker_step (mkWorkerState w accepted polled) (mkWorkerState w' accepted (polled ++ [c]))
| step_replace w accepted polled sink settled :
  accepted = settled ++ open_jobs w -> holds sink (log_of settled) ->
  worker_step (mkWorkerState w accepted polled)
    (mkWorkerState (replace_recovered_sink sink w) accepted polled).

Inductive worker_reachable : worker_state S E -> Prop :=
| worker_start sink capacity w :
  holds sink log -> worker_new sink capacity = Ok w ->
  worker_reachable (mkWorkerState w [] [])
| worker_next x y : worker_reachable x -> worker_step x y -> worker_reachable y.

Definition worker_inv (x : worker_state S E) : Prop :=
let w := ws_worker x in
exists settled,
  ws_accepted x = settled ++ open_jobs w /\
  settle (ws_accepted x) (all_completions x) = Some (open_jobs w) /\
  (if bw_faulted w then bw_failed_job w <> None
   else bw_failed_job w = None /\ holds (bw_sink w) (log_of settled)) /\
  Forall (fun j => envelope_valid (job_envelope j)) (ws_accepted x) /\
  map job_id (ws_accepted x) = seqZ 1 (Z.of_nat (length (ws_accepted x))) /\
  bw_next_job_id w = Z.of_nat (length (ws_accepted x)) + 1 /\ bw_next_job_id w < 2 ^ 64 /\
  (0 < bw_capacity w)%nat /\
  (length (open_jobs w) + length (confirmed (bw_completions w)) <= bw_capacity w)%nat.

Lemma confirmed_app (cs cs' : list (WriteCompletion E)) : confirmed (cs ++ cs') = confirmed cs ++ confirmed cs'.
Proof. apply omap_app. Qed.

Lemma log_of_snoc settled j : log_of (settled ++ [j]) = log_of settled ++ [job_record j].
Proof. unfold log_of. by rewrite map_app, app_assoc. Qed.

Lemma process_loop_inv n : forall processed w accepted polled,
admits (S:=S) (log ++ map job_record accepted) ->
bw_faulted w = false -> worker_inv (mkWorkerState w accepted polled) ->
match process_loop n processed w with
| (Ok _, w') => worker_inv (mkWorkerState w' accepted polled)
| (Err _, _) => False
| (Panic, _) => False
end.
Proof.
induction n as [|n IH]; intros processed w accepted polled Hadm Hf Hinv; [done|]. cbn [process_loop].
destruct w as [sink capacity next pending failed completions faulted]. cbn in Hf. subst faulted.
cbn [bw_pending bw_sink bw_failed_job bw_faulted bw_capacity bw_next_job_id bw_completions].
destruct pending as [|job pending]; [done|].
destruct Hinv as (settled & Hacc & Hset & (Hnone & Hlog) & Hval & Hids & Hnext & Hb & Hcap & Hlen).
cbn [ws_worker ws_accepted ws_polled bw_failed_job bw_pending bw_sink bw_completions bw_next_job_id
  bw_capacity] in *. subst failed.
unfold open_jobs, all_completions in *. cbn [bw_failed_job bw_pending app ws_polled ws_worker
  bw_completions length] in *.
assert (Hjob : envelope_valid (job_envelope job)).
{ rewrite Hacc in Hval. apply Forall_app in Hval as (_ & Hval). by inversion Hval. }
assert (Hadm' : admits (S:=S) (log_of settled ++ [job_record job])).
{ apply (admits_prefix _ (map job_record pending)). unfold log_of. rewrite Hacc, map_app in Hadm.
  by rewrite <- !app_assoc. }
pose proof (persist_durable sink (log_of settled) (job_record job) Hlog (proj1 Hjob) Hadm') as Hp.
unfold envelope_persist. fold (job_record job).
destruct (persist_record (job_record job) sink) as [[u|err|] sink']; [| |done].
- apply IH; [done|done|]. exists (settled ++ [job]).
  cbn [ws_worker ws_accepted ws_polled bw_faulted bw_failed_job bw_sink bw_next_job_id bw_capacity
    bw_pending bw_completions].
  unfold open_jobs, all_completions. cbn [bw_failed_job bw_pending app ws_polled ws_worker
    bw_completions]. rewrite log_of_snoc, !app_assoc, settle_app, Hset, confirmed_app, length_app.
  cbn [mbind option_bind]. rewrite settle_ok, <- app_assoc. cbn [app confirmed omap list_omap completion_result length].
  split_and!; auto. lia.
- exists settled. cbn [ws_worker ws_accepted ws_polled bw_faulted bw_failed_job bw_sink bw_next_job_id bw_capacity].
  unfold open_jobs, all_completions. cbn [bw_failed_job bw_pending app ws_polled ws_worker
    bw_completions]. rewrite app_assoc, settle_app, Hset, confirmed_app, length_app.
  cbn [mbind option_bind]. rewrite settle_err. cbn [confirmed omap list_omap completion_result length].
  split_and!; auto; lia.
Qed.

Lemma worker_inv_step x y : worker_inv x -> worker_step x y -> worker_inv y.
Proof.
intros Hinv Hstep.
destruct Hstep as [w accepted polled env id w' Henv Hs|w accepted polled env err w' Hs
  |w accepted polled limit n w' Hadm Hs|w accepted polled c w' Hs|w accepted polled sink settled' Hacc' Hlog'].
- destruct Hinv as (settled & Hacc & Hset & Hlog & Hval & Hids & Hnext & Hb & Hcap & Hlen).
  unfold submit in Hs. autorewrite with st in Hs. destruct (bw_faulted w) eqn:Hf; [done|].
  destruct (Nat.leb_spec (bw_capacity w) (accepted_record_count w + length (bw_completions w))) as [|Hroom];
    [done|].
  destruct (checked_add 64 (bw_next_job_id w) 1) as [next|] eqn:Hc; [|done].
  apply checked_add_Some in Hc as (-> & Hn). autorewrite with st in Hs. cbn [ok_or] in Hs.
  autorewrite with st in Hs. injection Hs as <- <-.
  exists settled. unfold open_jobs, all_completions, accepted_record_count in *.
  cbn [ws_worker ws_accepted ws_polled bw_failed_job bw_pending bw_sink bw_completions bw_next_job_id
    bw_capacity bw_faulted] in *. rewrite Hf in *. cbn [negb].
  destruct Hlog as (Hnone & Hlog). rewrite Hnone in *. cbn [option_list app is_some] in *.
  assert (Hok : (length (confirmed (bw_completions w)) <= length (bw_completions w))%nat).
  { clear. unfold confirmed. induction (bw_completions w) as [|c cs IH]; [done|]. cbn.
    destruct (completion_result c); cbn; lia. }
  split_and!; auto.
  + by rewrite Hacc at 1; rewrite <- app_assoc.
  + by apply settle_more.
  + apply Forall_app. split; [done|]. by apply Forall_singleton.
  + rewrite map_app, Hids, length_app, Nat2Z.inj_add. cbn [length map]. 
    rewrite seqZ_app by lia. f_equal. rewrite Hnext.
    replace (1 + Z.of_nat (length accepted)) with (Z.of_nat (length accepted) + 1) by lia. done.
  + rewrite length_app. cbn. lia.
  + rewrite length_app. cbn. lia.
- unfold submit in Hs. st_run Hs; by simplify_eq.
- unfold process_ready in Hs. destruct (limit =? 0)%nat; [done|]. autorewrite with st in Hs.
  destruct (bw_faulted w) eqn:Hf; [autorewrite with st in Hs; by simplify_eq|].
  pose proof (process_loop_inv limit 0 w accepted polled Hadm Hf Hinv) as Hp. by rewrite Hs in Hp.
- destruct Hinv as (settled & Hacc & Hset & Hlog & Hval & Hids & Hnext & Hb & Hcap & Hlen).
  unfold poll_completion in Hs. destruct w as [sink capacity next pending failed completions faulted].
  cbn [bw_completions] in Hs. destruct completions as [|c' cs]; [done|]. injection Hs as -> <-.
  exists settled. unfold open_jobs, all_completions in *.
  cbn [ws_worker ws_accepted ws_polled bw_failed_job bw_pending bw_sink bw_completions bw_next_job_id
    bw_capacity bw_faulted] in *. rewrite <- app_assoc. split_and!; auto.
  change (c :: cs) with ([c] ++ cs) in Hlen. rewrite confirmed_app, length_app in Hlen. lia.
- destruct Hinv as (settled & Hacc & Hset & Hlog & Hval & Hids & Hnext & Hb & Hcap & Hlen).
  exists settled. unfold replace_recovered_sink, open_jobs, all_completions in *.
  cbn [ws_worker ws_accepted ws_polled bw_failed_job bw_pending bw_sink bw_completions bw_next_job_id
    bw_capacity bw_faulted app] in *.
  assert (settled' = settled) as -> by (rewrite Hacc in Hacc'; by simplify_list_eq).
  split_and!; auto.
Qed.

Lemma worker_reachable_inv x : worker_reachable x -> worker_inv x.
Proof.
induction 1 as [sink capacity w Hlog Hnew|x y _ IH Hstep]; [|by eapply worker_inv_step].
unfold worker_new in Hnew. destruct (Nat.eqb_spec capacity 0); [done|]. injection Hnew as <-.
exists []. unfold open_jobs, all_completions, log_of. cbn. rewrite app_nil_r. split_and!; auto; lia.
Qed.
End History.

(** Every accepted record is written once, in order, and confirmed after
    it is durable: in every history of a worker on any lawful sink - submissions,
    processing, polling and replacements of a failed sink by one that holds
    exactly the settled records - the accepted jobs, numbered from 1, are a
    settled prefix and the open jobs; the successes delivered so far are those
    of the settled jobs, in order, each with its own receipt, and a failure is
    reported only for the first open job; a worker that is not faulted has a
    sink whose log is exactly the settled records after the original log; a
    faulted one keeps the failed job at the head of the open ones; the records
    held never exceed the capacity; and processing never panics. *)
Theorem bounded_worker_exactly_once {S E : Type} `{DurableSink S E} (log : list PersistenceRecord)
    (x : worker_state S E) :
  worker_reachable log x ->
  let w := ws_worker x in
  exists settled,
    ws_accepted x = settled ++ open_jobs w /\
    settle (ws_accepted x) (all_completions x) = Some (open_jobs w) /\
    confirmed (all_completions x) = map (fun j => (job_id j, pe_receipt (job_envelope j))) settled /\
    map job_id (ws_accepted x) = seqZ 1 (Z.of_nat (length (ws_accepted x))) /\
    (if bw_faulted w then head (open_jobs w) = bw_failed_job w /\ bw_failed_job w <> None
     else holds (bw_sink w) (log_of log settled)) /\
    (length (open_jobs w) + length (confirmed (bw_completions w)) <= bw_capacity w)%nat /\
    forall limit, admits (S:=S) (log ++ map job_record (ws_accepted x)) ->
      no_panic (fst (process_ready limit w)).
Proof.
  intros Hreach w. pose proof (worker_reachable_inv log x Hreach) as Hinv.
  assert (Hnp : forall limit, admits (S:=S) (log ++ map job_record (ws_accepted x)) ->
    no_panic (fst (process_ready limit w))).
  { intros limit Hadm. unfold process_ready. destruct (limit =? 0)%nat; [apply no_panic_Err|].
    autorewrite with st. destruct (bw_faulted w) eqn:Hf; [apply no_panic_Ok|].
    destruct x as [w' accepted polled]. pose proof (process_loop_inv log limit 0 w accepted polled Hadm Hf Hinv) as Hp.
    destruct (process_loop limit 0 w) as [[n|err|] w1]; [apply no_panic_Ok|done|done]. }
  destruct Hinv as (settled & Hacc & Hset & Hlog & Hval & Hids & Hnext & Hb & Hcap & Hlen).
  exists settled. fold w in Hacc, Hset, Hlog, Hlen. split_and!; auto.
  - destruct (settle_prefix _ _ _ Hset) as (settled' & Hacc' & Hok). rewrite Hok.
    rewrite Hacc in Hacc'. by simplify_list_eq.
  - destruct (bw_faulted w); [|apply Hlog]. unfold open_jobs. by destruct (bw_failed_job w).
Qed.

(** *** A worker on a log whose second sync fails *)

#[local] Instance sample_storage : DurableSink CaptureWalSink CaptureWalError :=
  wal_durable_sink sample_config sample_config_typed [].

Definition gap_envelope : PersistenceEnvelope :=
  mkEnvelope (RecordGap (mkGap window_hw window_epoch 17 3 JournalOverflow))
    (mkReceipt window_hw window_epoch 20).
Definition chunk_envelope : PersistenceEnvelope :=
  mkEnvelope (RecordChunk window_hw golden_chunk) (mkReceipt window_hw window_epoch 22).

Definition worker0 : BoundedPersistenceWorker CaptureWalSink CaptureWalError :=
  mkWorker opened_sink 4 1 [] None [] false.
Definition worker1 := snd (submit gap_envelope worker0).
Definition worker2 := snd (submit chunk_envelope worker1).
Definition worker3 := snd (process_ready 5 worker2).

Lemma worker3_reachable :
  worker_reachable []
    (mkWorkerState worker3 [mkJob 1 gap_envelope; mkJob 2 chunk_envelope] []).
Proof.
  assert (Hadm : admits (S:=CaptureWalSink) ([] ++ map job_record [mkJob 1 gap_envelope; mkJob 2 chunk_envelope]))
    by (split; vm_compute; reflexivity).
  eapply (worker_next _ (mkWorkerState worker2 _ [])); [|apply (step_process _ _ _ _ 5 2 _ Hadm); vm_compute; reflexivity].
  eapply (worker_next _ (mkWorkerState worker1 [mkJob 1 gap_envelope] []));
    [|apply (step_submit _ _ [mkJob 1 gap_envelope] [] chunk_envelope 2); [|vm_compute; reflexivity]].
  - eapply (worker_next _ (mkWorkerState worker0 [] []));
      [|apply (step_submit _ _ [] [] gap_envelope 1); [|vm_compute; reflexivity]].
    + by apply (worker_start _ opened_sink 4); [apply opened_sink_holds|].
    + split; [typed_by_compute|reflexivity].
  - split; [typed_by_compute|reflexivity].
Qed.

Lemma bounded_worker_exactly_once_witness :
  exists settled,
    [mkJob 1 gap_envelope; mkJob 2 chunk_envelope] = settled ++ open_jobs worker3 /\
    confirmed (bw_completions worker3) = [(1, mkReceipt window_hw window_epoch 20)] /\
    bw_failed_job worker3 = Some (mkJob 2 chunk_envelope) /\
    confirmed (bw_completions worker3) = map (fun j => (job_id j, pe_receipt (job_envelope j))) settled.
Proof.
  destruct (bounded_worker_exactly_once [] _
    worker3_reachable) as (settled & Hacc & _ & Hok & _).
  exists settled. split; [exact Hacc|]. split; [vm_compute; reflexivity|]. split; [vm_compute; reflexivity|].
  exact Hok.
Defined.
