(* ===== verification/GroupedWriter.v ===== *)
(** * Group commit (crates/sensor-host/src/persistence_executor.rs)

    The deterministic core of the storage executors: classification of a
    recovered cursor against the uncertain records, the worker that writes one
    contiguous group at a time, and the retry or confirmation of the group a
    failed barrier left uncertain. *)

From S2P Require Import Prelude Core NodeSession Persistence WalStorage BoundedWriter.

(** ** Classification *)

Inductive RecoveryDisposition := RetryUncommitted | ConfirmAlreadyDurable.

Record WriteRecoveryRange := mkRange {
  rg_hardware_id : HardwareId;
  rg_boot_epoch : BootEpoch;
  rg_start : SequenceCursor;
  rg_end : SequenceCursor
}.

Record RecoveredCursorEvidence := mkRecovered {
  rv_hardware_id : HardwareId;
  rv_boot_epoch : BootEpoch;
  rv_durable : SequenceCursor
}.

Record GroupRecoveryDisposition := mkDisposition { confirmed_prefix_records : nat }.

Inductive RecoveryClassificationError :=
| IdentityMismatch
| InvalidPendingRange
| CursorInsidePendingRecord
| EmptyPendingGroup
| NonContiguousPendingGroup
| CursorBeforePendingRange.

Abbreviation classified := (outcome RecoveryClassificationError).

Definition classify_recovery (pending : WriteRecoveryRange) (recovered : RecoveredCursorEvidence)
    : classified RecoveryDisposition :=
  if negb (bool_decide (rg_hardware_id pending = rv_hardware_id recovered))
     || negb (rg_boot_epoch pending =? rv_boot_epoch recovered)
  then Err IdentityMismatch
  else if rg_end pending <=? rg_start pending then Err InvalidPendingRange
  else if rv_durable recovered =? rg_start pending then Ok RetryUncommitted
  else if rg_end pending <=? rv_durable recovered then Ok ConfirmAlreadyDurable
  else Err CursorInsidePendingRecord.

(** The first loop: the identity and the contiguity of the ranges; the end of the last one. *)
Fixpoint check_ranges (pending : list WriteRecoveryRange) (recovered : RecoveredCursorEvidence)
    (expected_start : SequenceCursor) : classified SequenceCursor :=
  match pending with
  | [] => Ok expected_start
  | range :: pending =>
      if negb (bool_decide (rg_hardware_id range = rv_hardware_id recovered))
         || negb (rg_boot_epoch range =? rv_boot_epoch recovered)
      then Err IdentityMismatch
      else if rg_end range <=? rg_start range then Err InvalidPendingRange
      else if negb (rg_start range =? expected_start) then Err NonContiguousPendingGroup
      else check_ranges pending recovered (rg_end range)
  end.

(** The second loop; its end is [unreachable!]. *)
Fixpoint find_boundary (pending : list WriteRecoveryRange) (durable : SequenceCursor) (index : nat)
    : classified GroupRecoveryDisposition :=
  match pending with
  | [] => Panic
  | range :: pending =>
      if durable =? rg_start range then Ok (mkDisposition index)
      else if durable <? rg_end range then Err CursorInsidePendingRecord
      else find_boundary pending durable (S index)
  end.

Definition classify_group_recovery (pending : list WriteRecoveryRange) (recovered : RecoveredCursorEvidence)
    : classified GroupRecoveryDisposition :=
  match pending with
  | [] => Err EmptyPendingGroup
  | first :: _ =>
      expected_start ← check_ranges pending recovered (rg_start first);
      if rv_durable recovered <? rg_start first then Err CursorBeforePendingRange
      else if expected_start <=? rv_durable recovered then Ok (mkDisposition (length pending))
      else find_boundary pending (rv_durable recovered) 0
  end.

(** ** Grouped sinks *)

Inductive GroupPersistError (E : Type) :=
| Preparation (error : E)
| Commit (attempted_records : nat) (error : E).
Arguments Preparation {E} error.
Arguments Commit {E} attempted_records error.

(** [persist_group]: the number of persisted records. *)
Class GroupDurableMeasurementSink (S E : Type) : Type :=
  persist_group : list PersistenceEnvelope -> st S (GroupPersistError E) nat.
#[export] Hint Mode GroupDurableMeasurementSink + - : typeclass_instances.

(** ** The worker *)

Record GroupedPersistenceWorker (S E : Type) := mkGrouped {
  gw_sink : S;
  gw_capacity : nat;
  gw_max_group_records : nat;
  gw_next_job_id : Z;
  gw_pending : list WriteJob;
  gw_failed_group : list WriteJob;
  gw_completions : list (WriteCompletion E);
  gw_faulted : bool
}.
Arguments mkGrouped {S E}.
Arguments gw_sink {S E}.
Arguments gw_capacity {S E}.
Arguments gw_max_group_records {S E}.
Arguments gw_next_job_id {S E}.
Arguments gw_pending {S E}.
Arguments gw_failed_group {S E}.
Arguments gw_completions {S E}.
Arguments gw_faulted {S E}.

Inductive GroupedWriterError := GroupZeroCapacity | ZeroGroupLimit | InvalidSinkProgress.

(** Whether an envelope follows in the stream of [hw] and [e] at [expected]. *)
Definition follows (hw : HardwareId) (e : BootEpoch) (expected : SequenceCursor) (envelope : PersistenceEnvelope) : bool :=
  bool_decide (envelope_hardware_id envelope = hw) && (envelope_boot_epoch envelope =? e)
  && (start_cursor envelope =? expected).

(** The loop of [contiguous_group_len] over the first [n] commands. *)
Fixpoint group_len_loop (n : nat) (pending : list WriteJob) (hw : HardwareId) (e : BootEpoch)
    (expected : SequenceCursor) : nat :=
  match n, pending with
  | S n, command :: pending =>
      if follows hw e expected (job_envelope command)
      then S (group_len_loop n pending hw e (end_cursor (job_envelope command)))
      else 0
  | _, _ => 0
  end.

(** The completion of a durable job. *)
Definition completed {E : Type} (command : WriteJob) : WriteCompletion E :=
  mkCompletion (job_id command) (inl (pe_receipt (job_envelope command))).

Section Grouped.
Context {S E : Type} `{GroupDurableMeasurementSink S E}.

Abbreviation grouped := (GroupedPersistenceWorker S E).

Definition grouped_new (sink : S) (capacity max_group_records : nat) : outcome GroupedWriterError grouped :=
if (capacity =? 0)%nat then Err GroupZeroCapacity
else if (max_group_records =? 0)%nat then Err ZeroGroupLimit
else Ok (mkGrouped sink capacity max_group_records 1 [] [] [] false).

Definition contiguous_group_len (self : grouped) : nat :=
match gw_pending self with
| [] => 0
| first :: _ =>
    group_len_loop (gw_max_group_records self) (gw_pending self)
      (envelope_hardware_id (job_envelope first)) (envelope_boot_epoch (job_envelope first))
      (start_cursor (job_envelope first))
end.

(** The pops of the first [n] commands stay in range by the guards before them. *)
Definition process_one_group : st grouped GroupedWriterError nat := fun self =>
if gw_faulted self || (length (gw_pending self) =? 0)%nat then (Ok 0%nat, self)
else
  let group_len := contiguous_group_len self in
  let envelopes := map job_envelope (take group_len (gw_pending self)) in
  let update sink pending failed completions faulted :=
    mkGrouped sink (gw_capacity self) (gw_max_group_records self) (gw_next_job_id self)
      pending failed completions faulted in
  match persist_group envelopes (gw_sink self) with
  | (Ok persisted, sink) =>
      if (persisted =? 0)%nat || (group_len <? persisted)%nat then
        (Err InvalidSinkProgress,
         update sink (gw_pending self) (gw_failed_group self) (gw_completions self) (gw_faulted self))
      else
        (Ok persisted,
         update sink (drop persisted (gw_pending self)) (gw_failed_group self)
           (gw_completions self ++ map completed (take persisted (gw_pending self))) (gw_faulted self))
  | (Err (Preparation error), sink) =>
      match gw_pending self with
      | [] => (Panic, self)
      | command :: pending =>
          (Ok 1%nat,
           update sink pending (gw_failed_group self ++ [command])
             (gw_completions self ++ [mkCompletion (job_id command) (inr error)]) true)
      end
  | (Err (Commit attempted error), sink) =>
      if (attempted =? 0)%nat || (group_len <? attempted)%nat then
        (Err InvalidSinkProgress,
         update sink (gw_pending self) (gw_failed_group self) (gw_completions self) (gw_faulted self))
      else
        let failed := gw_failed_group self ++ take attempted (gw_pending self) in
        match failed with
        | [] => (Panic, self)
        | command :: _ =>
            (Ok attempted,
             update sink (drop attempted (gw_pending self)) failed
               (gw_completions self ++ [mkCompletion (job_id command) (inr error)]) true)
        end
  | (Panic, sink) =>
      (Panic, update sink (gw_pending self) (gw_failed_group self) (gw_completions self) (gw_faulted self))
  end.

Definition range_of (command : WriteJob) : WriteRecoveryRange :=
mkRange (envelope_hardware_id (job_envelope command)) (envelope_boot_epoch (job_envelope command))
  (start_cursor (job_envelope command)) (end_cursor (job_envelope command)).

Definition failed_ranges (self : grouped) : list WriteRecoveryRange := map range_of (gw_failed_group self).

(** Confirms the durable prefix, and puts the rest of the group back in front. *)
Definition grouped_replace_recovered_sink (sink : S) (evidence : RecoveredCursorEvidence)
  : st grouped RecoveryClassificationError GroupRecoveryDisposition := fun self =>
match classify_group_recovery (failed_ranges self) evidence with
| Ok decision =>
    let n := confirmed_prefix_records decision in
    if (length (gw_failed_group self) <? n)%nat then (Panic, self)
    else
      (Ok decision,
       mkGrouped sink (gw_capacity self) (gw_max_group_records self) (gw_next_job_id self)
         (drop n (gw_failed_group self) ++ gw_pending self) []
         (gw_completions self ++ map completed (take n (gw_failed_group self))) false)
| Err error => (Err error, self)
| Panic => (Panic, self)
end.

Definition grouped_poll_completion (self : grouped) : option (WriteCompletion E) * grouped :=
match gw_completions self with
| [] => (None, self)
| c :: completions =>
    (Some c, mkGrouped (gw_sink self) (gw_capacity self) (gw_max_group_records self)
               (gw_next_job_id self) (gw_pending self) (gw_failed_group self) completions (gw_faulted self))
end.

Definition grouped_full (self : grouped) : bool :=
(gw_capacity self <=? length (gw_pending self) + length (gw_failed_group self) + length (gw_completions self))%nat.

Definition push_pending (command : WriteJob) (next_job_id : Z) (self : grouped) : grouped :=
mkGrouped (gw_sink self) (gw_capacity self) (gw_max_group_records self) next_job_id
  (gw_pending self ++ [command]) (gw_failed_group self) (gw_completions self) (gw_faulted self).

Definition enqueue_assigned (command : WriteJob) (self : grouped) : bool * grouped :=
if gw_faulted self || grouped_full self then (false, self)
else (true, push_pending command (gw_next_job_id self) self).

Definition submit_record (envelope : PersistenceEnvelope) : st grouped SubmitError WriteJobId :=
self ← get;
if gw_faulted self then throw (mkSubmitError WorkerFaulted envelope)
else if grouped_full self then throw (mkSubmitError QueueFull envelope)
else
  let id := gw_next_job_id self in
  next ← lift (ok_or (checked_add 64 id 1) (mkSubmitError JobIdExhausted envelope));
  _ ← modify (push_pending (mkJob id envelope) next);
  mret id.
End Grouped.

(** ** What classification decides *)

(** Non-empty records of one stream that continue each other from [start] to [end_]. *)
Inductive chained (hw : HardwareId) (e : BootEpoch) : Z -> list WriteRecoveryRange -> Z -> Prop :=
| chained_nil start : chained hw e start [] start
| chained_cons start next rs end_ :
    start < next -> chained hw e next rs end_ ->
    chained hw e start (mkRange hw e start next :: rs) end_.

(** The cursor of a log that ends after the first [k] records. *)
Definition boundary (rs : list WriteRecoveryRange) (end_ : Z) (k : nat) : Z :=
  match rs !! k with Some r => rg_start r | None => end_ end.

Lemma boundary_O r rs end_ : boundary (r :: rs) end_ 0 = rg_start r.
Proof. done. Qed.
Lemma boundary_S r rs end_ k : boundary (r :: rs) end_ (S k) = boundary rs end_ k.
Proof. done. Qed.
Lemma boundary_length rs end_ : boundary rs end_ (length rs) = end_.
Proof. unfold boundary. by rewrite lookup_ge_None_2. Qed.

Section Classification.
Context (v : RecoveredCursorEvidence).
Let hw := rv_hardware_id v.
Let e := rv_boot_epoch v.

Lemma check_ranges_spec rs start :
match check_ranges rs v start with
| Ok end_ => chained hw e start rs end_
| Err err => (forall end_, ~ chained hw e start rs end_) /\
  err <> CursorInsidePendingRecord /\ err <> CursorBeforePendingRange /\ err <> EmptyPendingGroup
| Panic => False
end.
Proof.
revert start. induction rs as [|r rs IH]; intros start; cbn [check_ranges]; [constructor|].
destruct r as [rhw re rstart rend]. cbn [rg_hardware_id rg_boot_epoch rg_start rg_end].
assert (Hno : forall P : Prop, P -> (rhw <> hw \/ re <> e \/ rend <= rstart \/ rstart <> start) ->
(forall end_, ~ chained hw e start (mkRange rhw re rstart rend :: rs) end_) /\ P).
{ intros P HP Hbad. split; [|done]. intros end_ Hc. inversion Hc; subst. lia || naive_solver lia. }
case_bool_decide as Hh; cbn [negb orb]; [|apply Hno; auto].
destruct (Z.eqb_spec re (rv_boot_epoch v)) as [He|]; cbn [negb]; [|apply Hno; auto].
destruct (Z.leb_spec rend rstart); [apply Hno; auto|].
destruct (Z.eqb_spec rstart start) as [->|]; cbn [negb]; [|apply Hno; auto].
specialize (IH rend). destruct (check_ranges rs v rend) as [end_|err|]; [| |done].
- subst. by constructor.
- destruct IH as [Hnot Herr]. split; [|done]. intros end_ Hc. inversion Hc; subst. by eapply Hnot.
Qed.

Lemma chained_fun rs start end1 end2 : chained hw e start rs end1 -> chained hw e start rs end2 -> end1 = end2.
Proof. intros H. revert end2. induction H; intros end2 H2; inversion H2; subst; auto. Qed.

Lemma chained_le rs start end_ : chained hw e start rs end_ -> start <= end_ /\ (rs <> [] -> start < end_).
Proof. induction 1 as [|s n rs en Hlt Hc IH]; [naive_solver lia|]. split; intros; lia. Qed.

Lemma chained_boundary rs start end_ k :
chained hw e start rs end_ -> start <= boundary rs end_ k <= end_.
Proof.
intros Hc. revert k. induction Hc as [|s n rs en Hlt Hc IH]; intros k.
- unfold boundary. rewrite lookup_nil. lia.
- pose proof (chained_le _ _ _ Hc). destruct k as [|k]; rewrite ?boundary_O, ?boundary_S; cbn [rg_start]; [lia|].
specialize (IH k). lia.
Qed.

Lemma find_boundary_spec rs start end_ index :
chained hw e start rs end_ -> start <= rv_durable v < end_ ->
match find_boundary rs (rv_durable v) index with
| Ok d => exists k, (k < length rs)%nat /\ d = mkDisposition (index + k) /\ rv_durable v = boundary rs end_ k
| Err err => err = CursorInsidePendingRecord /\
  exists k r, rs !! k = Some r /\ rg_start r < rv_durable v < rg_end r
| Panic => False
end.
Proof.
intros Hc. revert index. induction Hc as [|s n rs en Hlt Hc IH]; intros index Hd; [lia|].
cbn [find_boundary rg_start rg_end]. destruct (Z.eqb_spec (rv_durable v) s) as [Heq|].
{ exists 0%nat. rewrite Nat.add_0_r. cbn. split; [lia|done]. }
destruct (Z.ltb_spec (rv_durable v) n).
{ split; [done|]. exists 0%nat, (mkRange hw e s n). cbn. split; [done|lia]. }
specialize (IH (S index) ltac:(lia)). destruct (find_boundary rs _ _) as [d|err|]; [| |done].
- destruct IH as (k & Hk & -> & Hb). exists (S k). cbn [length]. split; [lia|]. split; [f_equal; lia|done].
- destruct IH as (-> & k & r & Hr & Hin). split; [done|]. by exists (S k), r.
Qed.

(** The boundaries of a chain are distinct. *)
Lemma boundary_lt rs start end_ j k :
chained hw e start rs end_ -> (j < k)%nat -> (j < length rs)%nat -> boundary rs end_ j < boundary rs end_ k.
Proof.
intros Hc. revert j k. induction Hc as [|s n rs en Hlt Hc IH]; intros j k Hjk Hj; [cbn in Hj; lia|].
destruct k as [|k]; [lia|]. destruct j as [|j].
- pose proof (chained_boundary _ _ _ k Hc). rewrite boundary_O, boundary_S. cbn [rg_start]. lia.
- cbn [length] in Hj. rewrite !boundary_S. apply IH; lia.
Qed.

Lemma boundary_inj rs start end_ j k :
chained hw e start rs end_ -> (j <= length rs)%nat -> (k <= length rs)%nat ->
boundary rs end_ j = boundary rs end_ k -> j = k.
Proof.
intros Hc Hj Hk Heq. destruct (Nat.lt_trichotomy j k) as [Hlt|[|Hlt]]; [|done|].
- pose proof (boundary_lt _ _ _ j k Hc Hlt ltac:(lia)). lia.
- pose proof (boundary_lt _ _ _ k j Hc Hlt ltac:(lia)). lia.
Qed.

Lemma classify_group_spec rs :
match classify_group_recovery rs v with
| Ok d => exists start end_ k, chained hw e start rs end_ /\ rs <> [] /\ d = mkDisposition k /\
  (k <= length rs)%nat /\
  (rv_durable v = boundary rs end_ k \/ k = length rs /\ end_ <= rv_durable v)
| Err CursorInsidePendingRecord => exists start end_ k r, chained hw e start rs end_ /\
  rs !! k = Some r /\ rg_start r < rv_durable v < rg_end r
| Err CursorBeforePendingRange => exists start end_, chained hw e start rs end_ /\ rs <> [] /\ rv_durable v < start
| Err EmptyPendingGroup => rs = []
| Err _ => rs <> [] /\ forall start end_, ~ chained hw e start rs end_
| Panic => False
end.
Proof.
unfold classify_group_recovery. destruct rs as [|first rs]; [done|].
pose proof (check_ranges_spec (first :: rs) (rg_start first)) as Hcheck.
destruct (check_ranges _ _ _) as [end_|err|]; cbn [mbind outcome_bind]; [| |done].
2:{ destruct Hcheck as (Hno & H1 & H2 & H3).
  assert (Hall : forall start end_, ~ chained hw e start (first :: rs) end_).
  { intros start end_ Hc. assert (start = rg_start first) by by inversion Hc. subst. by eapply Hno. }
  by destruct err. }
destruct (Z.ltb_spec (rv_durable v) (rg_start first)); [by eauto 10|].
destruct (Z.leb_spec end_ (rv_durable v)).
{ exists (rg_start first), end_, (length (first :: rs)). split_and!; auto; lia. }
pose proof (find_boundary_spec _ _ _ 0 Hcheck ltac:(lia)) as Hfind.
destruct (find_boundary _ _ _) as [d|err|]; [| |done].
- destruct Hfind as (k & Hk & -> & Hb). exists (rg_start first), end_, k. split_and!; auto; lia.
- destruct Hfind as (-> & k & r & Hr & Hin). eauto 10.
Qed.

Lemma boundary_next rs start end_ k r :
chained hw e start rs end_ -> rs !! k = Some r -> boundary rs end_ (S k) = rg_end r.
Proof.
intros Hc. revert k. induction Hc as [|s n rs en Hlt Hc IH]; intros k Hr; [by rewrite lookup_nil in Hr|].
rewrite boundary_S. destruct k as [|k]; [|by apply IH]. injection Hr as <-. by destruct Hc.
Qed.

(** Where the cursor lies between two boundaries. *)
Lemma between rs start end_ j k r :
chained hw e start rs end_ -> rs !! j = Some r -> (k <= length rs)%nat ->
~ rg_start r < boundary rs end_ k < rg_end r.
Proof.
intros Hc Hr Hk Hin. pose proof (lookup_lt_Some _ _ _ Hr).
assert (Hbj : boundary rs end_ j = rg_start r) by (unfold boundary; by rewrite Hr).
pose proof (boundary_next _ _ _ _ _ Hc Hr) as Hbj'. destruct (Nat.le_gt_cases k j) as [Hle|Hgt].
- destruct (Nat.eq_dec k j) as [->|]; [lia|]. pose proof (boundary_lt _ _ _ k j Hc ltac:(lia) ltac:(lia)). lia.
- destruct (Nat.eq_dec k (S j)) as [->|]; [lia|].
pose proof (boundary_lt _ _ _ (S j) k Hc ltac:(lia) ltac:(lia)). lia.
Qed.

Lemma check_ranges_complete rs start end_ : chained hw e start rs end_ -> check_ranges rs v start = Ok end_.
Proof.
intros Hc. pose proof (check_ranges_spec rs start) as H. destruct (check_ranges rs v start) as [x|err|]; [| |done].
- f_equal. by eapply chained_fun.
- by destruct (proj1 H end_).
Qed.

Lemma classify_group_chained rs start end_ :
chained hw e start rs end_ -> rs <> [] ->
classify_group_recovery rs v =
(if rv_durable v <? start then Err CursorBeforePendingRange
 else if end_ <=? rv_durable v then Ok (mkDisposition (length rs))
 else find_boundary rs (rv_durable v) 0).
Proof.
intros Hc Hne. unfold classify_group_recovery. destruct rs as [|r rs]; [done|].
assert (rg_start r = start) as -> by by inversion Hc. by rewrite (check_ranges_complete _ _ _ Hc).
Qed.

Lemma classify_group_past rs start end_ :
chained hw e start rs end_ -> rs <> [] -> end_ <= rv_durable v ->
classify_group_recovery rs v = Ok (mkDisposition (length rs)).
Proof.
intros Hc Hne Hd. rewrite (classify_group_chained _ _ _ Hc Hne). pose proof (chained_le _ _ _ Hc).
rewrite (proj2 (Z.ltb_ge _ _)), (proj2 (Z.leb_le _ _)) by lia. done.
Qed.

Lemma classify_group_inside rs start end_ k r :
chained hw e start rs end_ -> rs !! k = Some r -> rg_start r < rv_durable v < rg_end r ->
classify_group_recovery rs v = Err CursorInsidePendingRecord.
Proof.
intros Hc Hr Hin. assert (Hne : rs <> []) by (by intros ->).
pose proof (chained_boundary _ _ _ k Hc) as Hb. pose proof (chained_boundary _ _ _ (S k) Hc) as Hb'.
assert (Hbk : boundary rs end_ k = rg_start r) by (unfold boundary; by rewrite Hr).
assert (Hbk' : boundary rs end_ (S k) = rg_end r) by (by eapply boundary_next).
rewrite (classify_group_chained _ _ _ Hc Hne). rewrite (proj2 (Z.ltb_ge _ _)), (proj2 (Z.leb_gt _ _)) by lia.
pose proof (find_boundary_spec _ _ _ 0 Hc ltac:(lia)) as Hfind.
destruct (find_boundary _ _ _) as [d|err|]; [|by destruct Hfind as (-> & _)|done]. exfalso.
destruct Hfind as (j & Hj & _ & Hd). apply (between _ _ _ k j r Hc Hr); [lia|]. by rewrite <- Hd.
Qed.

(** A log that ends at a record boundary of the group is found there. *)
Lemma classify_group_boundary rs start end_ k :
chained hw e start rs end_ -> rs <> [] -> (k <= length rs)%nat -> rv_durable v = boundary rs end_ k ->
classify_group_recovery rs v = Ok (mkDisposition k).
Proof.
intros Hc Hne Hk Hd. pose proof (chained_boundary _ _ _ k Hc) as Hb.
destruct (Z.le_gt_cases end_ (rv_durable v)) as [Hge|Hlt].
- rewrite (classify_group_past _ _ _ Hc Hne Hge). f_equal. f_equal.
eapply boundary_inj; [exact Hc|lia|done|]. rewrite boundary_length. lia.
- rewrite (classify_group_chained _ _ _ Hc Hne). rewrite (proj2 (Z.ltb_ge _ _)), (proj2 (Z.leb_gt _ _)) by lia.
pose proof (find_boundary_spec _ _ _ 0 Hc ltac:(lia)) as Hfind.
destruct (find_boundary _ _ _) as [d|err|]; [| |done].
+ destruct Hfind as (j & Hj & -> & Hd'). f_equal. f_equal. cbn [Nat.add].
  eapply boundary_inj; [exact Hc|lia|done|]. by rewrite <- Hd'.
+ exfalso. destruct Hfind as (_ & j & r & Hr & Hin).
  apply (between _ _ _ j k r Hc Hr Hk). by rewrite <- Hd.
Qed.
End Classification.

(** ** The promise of a grouped sink *)

(** Valid records of one stream, in sequence: what a worker hands to a sink. *)
Definition group_valid (envelopes : list PersistenceEnvelope) : Prop :=
  envelopes <> [] /\ Forall envelope_valid envelopes /\
  exists hw e start end_,
    chained hw e start (map (fun x => mkRange (envelope_hardware_id x) (envelope_boot_epoch x) (start_cursor x)
      (end_cursor x)) envelopes) end_.

Class GroupDurableSink (S E : Type) `{DurableSink S E, !GroupDurableMeasurementSink S E} : Prop :=
  persist_group_durable (s : S) (l : list PersistenceRecord) (envelopes : list PersistenceEnvelope) :
    holds s l -> group_valid envelopes -> admits (S:=S) (l ++ map pe_record envelopes) ->
    match persist_group envelopes s with
    | (Ok n, s') => (0 < n <= length envelopes)%nat /\ holds s' (l ++ map pe_record (take n envelopes))
    | (Err (Commit n _), _) => (0 < n <= length envelopes)%nat
    | (Err (Preparation _), _) => True
    | (Panic, _) => False
    end.

(** ** Histories of a grouped worker *)

Record grouped_state (S E : Type) := mkGroupedState {
  gs_worker : GroupedPersistenceWorker S E;
  gs_accepted : list WriteJob;
  gs_polled : list (WriteCompletion E)
}.
Arguments mkGroupedState {S E}.
Arguments gs_worker {S E}.
Arguments gs_accepted {S E}.
Arguments gs_polled {S E}.

Section GroupedHistory.
Context {S E : Type} `{GroupDurableSink S E}.
Context (log : list PersistenceRecord).

Abbreviation grouped := (GroupedPersistenceWorker S E).

Definition grouped_completions (x : grouped_state S E) : list (WriteCompletion E) :=
gs_polled x ++ gw_completions (gs_worker x).

Definition grouped_open (w : grouped) : list WriteJob := gw_failed_group w ++ gw_pending w.

(** The recovery evidence is true of the sink: it holds, beyond the settled
  records, the first [k] of the uncertain group, and its cursor says so. *)
Definition truthful (sink : S) (evidence : RecoveredCursorEvidence) (settled failed : list WriteJob) : Prop :=
exists k start end_,
  (k <= length failed)%nat /\ holds sink (log_of log (settled ++ take k failed)) /\
  chained (rv_hardware_id evidence) (rv_boot_epoch evidence) start (map range_of failed) end_ /\
  rv_durable evidence = boundary (map range_of failed) end_ k.

Inductive grouped_step : grouped_state S E -> grouped_state S E -> Prop :=
| grouped_submits w accepted polled envelope id w' :
  envelope_valid envelope -> submit_record envelope w = (Ok id, w') ->
  grouped_step (mkGroupedState w accepted polled)
    (mkGroupedState w' (accepted ++ [mkJob id envelope]) polled)
| grouped_refuses w accepted polled envelope err w' :
  submit_record envelope w = (Err err, w') ->
  grouped_step (mkGroupedState w accepted polled) (mkGroupedState w' accepted polled)
| grouped_processes w accepted polled n w' :
  admits (S:=S) (log ++ map job_record accepted) -> process_one_group w = (Ok n, w') ->
  grouped_step (mkGroupedState w accepted polled) (mkGroupedState w' accepted polled)
| grouped_polls w accepted polled c w' :
  grouped_poll_completion w = (Some c, w') ->
  grouped_step (mkGroupedState w accepted polled) (mkGroupedState w' accepted (polled ++ [c]))
| grouped_recovers w accepted polled sink evidence settled w' r :
  accepted = settled ++ grouped_open w -> truthful sink evidence settled (gw_failed_group w) ->
  grouped_replace_recovered_sink sink evidence w = (r, w') ->
  grouped_step (mkGroupedState w accepted polled) (mkGroupedState w' accepted polled)
| grouped_recovery_refused w accepted polled sink evidence err w' :
  grouped_replace_recovered_sink sink evidence w = (Err err, w') ->
  grouped_step (mkGroupedState w accepted polled) (mkGroupedState w' accepted polled).

Inductive grouped_reachable : grouped_state S E -> Prop :=
| grouped_start sink capacity max_group_records w :
  holds sink log -> grouped_new sink capacity max_group_records = Ok w ->
  grouped_reachable (mkGroupedState w [] [])
| grouped_next x y : grouped_reachable x -> grouped_step x y -> grouped_reachable y.

Definition grouped_inv (x : grouped_state S E) : Prop :=
let w := gs_worker x in
exists settled,
  gs_accepted x = settled ++ grouped_open w /\
  settle (gs_accepted x) (grouped_completions x) = Some (grouped_open w) /\
  (if gw_faulted w
   then gw_failed_group w <> [] /\ exists hw e start end_, chained hw e start (map range_of (gw_failed_group w)) end_
   else gw_failed_group w = [] /\ holds (gw_sink w) (log_of log settled)) /\
  Forall (fun j => envelope_valid (job_envelope j)) (gs_accepted x) /\
  map job_id (gs_accepted x) = seqZ 1 (Z.of_nat (length (gs_accepted x))) /\
  gw_next_job_id w = Z.of_nat (length (gs_accepted x)) + 1 /\ gw_next_job_id w < 2 ^ 64 /\
  (0 < gw_max_group_records w)%nat /\
  (length (grouped_open w) + length (confirmed (gw_completions w)) <= gw_capacity w)%nat.

(** The group of a worker: at least one command, at most the limit, one chain. *)
Lemma group_len_spec n pending hw e expected :
Forall (fun j => envelope_valid (job_envelope j)) pending ->
let g := group_len_loop n pending hw e expected in
(g <= n)%nat /\ (g <= length pending)%nat /\
exists end_, chained hw e expected (map range_of (take g pending)) end_.
Proof.
intros Hval. revert n expected. induction Hval as [|j pending Hj Hval IH]; intros n expected.
{ destruct n; cbn; (split_and!; [lia..|eexists; constructor]). }
destruct n as [|n]; cbn [group_len_loop]; [cbn; split_and!; [lia..|eexists; constructor]|].
unfold follows. case_bool_decide as Hh; cbn [andb]; [|cbn; split_and!; [lia..|eexists; constructor]].
destruct (Z.eqb_spec (envelope_boot_epoch (job_envelope j)) e) as [He|]; cbn [andb];
  [|cbn; split_and!; [lia..|eexists; constructor]].
destruct (Z.eqb_spec (start_cursor (job_envelope j)) expected) as [Hs|];
  [|cbn; split_and!; [lia..|eexists; constructor]].
destruct (IH n (end_cursor (job_envelope j))) as (Hn & Hl & end_ & Hc).
cbn [length take map]. split_and!; [lia..|]. exists end_. unfold range_of at 1. rewrite Hh, He, Hs.
constructor; [|done]. pose proof (envelope_range _ Hj). lia.
Qed.

Lemma contiguous_group_spec (w : grouped) j rest :
gw_pending w = j :: rest -> (0 < gw_max_group_records w)%nat ->
Forall (fun j => envelope_valid (job_envelope j)) (gw_pending w) ->
(0 < contiguous_group_len w <= length (gw_pending w))%nat /\
exists hw e start end_, chained hw e start (map range_of (take (contiguous_group_len w) (gw_pending w))) end_.
Proof.
intros Hp Hmax Hval. unfold contiguous_group_len. rewrite Hp in *.
pose proof (group_len_spec (gw_max_group_records w) (j :: rest) (envelope_hardware_id (job_envelope j))
  (envelope_boot_epoch (job_envelope j)) (start_cursor (job_envelope j)) Hval) as (_ & Hl & end_ & Hc).
split; [|eauto 10]. split; [|done]. destruct (gw_max_group_records w) as [|n]; [lia|].
cbn [group_len_loop]. unfold follows. rewrite bool_decide_eq_true_2, !Z.eqb_refl by done. cbn. lia.
Qed.

Lemma chained_take hw e start rs end_ k :
chained hw e start rs end_ -> exists end', chained hw e start (take k rs) end'.
Proof.
intros Hc. revert k. induction Hc as [|s n rs en Hlt Hc IH]; intros k; [rewrite take_nil; eexists; constructor|].
destruct k as [|k]; [eexists; constructor|]. destruct (IH k) as (end' & Hc'). exists end'. by constructor.
Qed.

(** Completing the first open jobs settles them. *)
Lemma settle_completed (jobs rest : list WriteJob) :
settle (jobs ++ rest) (map (completed (E:=E)) jobs) = Some rest.
Proof.
induction jobs as [|j jobs IH]; [done|]. cbn [app map]. unfold completed at 1.
cbn [settle completion_id completion_result]. rewrite Z.eqb_refl. cbn [negb].
by rewrite bool_decide_eq_true_2.
Qed.

Lemma confirmed_completed (jobs : list WriteJob) : length (confirmed (map (completed (E:=E)) jobs)) = length jobs.
Proof. induction jobs as [|j jobs IH]; [done|]. cbn. f_equal. exact IH. Qed.

Lemma confirmed_le (cs : list (WriteCompletion E)) : (length (confirmed cs) <= length cs)%nat.
Proof.
unfold confirmed. induction cs as [|c cs IH]; [done|]. cbn. destruct (completion_result c); cbn; lia.
Qed.

Lemma confirmed_snoc_err (cs : list (WriteCompletion E)) id err :
confirmed (cs ++ [mkCompletion id (inr err)]) = confirmed cs.
Proof. unfold confirmed. rewrite omap_app. cbn. by rewrite app_nil_r. Qed.

Ltac grouped_simpl :=
unfold grouped_open, grouped_completions in *;
cbn [gs_worker gs_accepted gs_polled gw_sink gw_capacity gw_max_group_records gw_next_job_id gw_pending
  gw_failed_group gw_completions gw_faulted app] in *.

Lemma log_of_app settled jobs : log_of log (settled ++ jobs) = log_of log settled ++ map job_record jobs.
Proof. unfold log_of. by rewrite map_app, app_assoc. Qed.

Lemma map_pe_record jobs : map pe_record (map job_envelope jobs) = map job_record jobs.
Proof. by rewrite map_map. Qed.

Lemma process_one_group_inv w accepted polled :
admits (S:=S) (log ++ map job_record accepted) -> grouped_inv (mkGroupedState w accepted polled) ->
match process_one_group w with
| (Ok n, w') => grouped_inv (mkGroupedState w' accepted polled) /\
    (gw_faulted w = false -> gw_pending w <> [] -> (0 < n)%nat)
| _ => False
end.
Proof.
intros Hadm Hinv. pose proof Hinv as (settled & Hacc & Hset & Hlog & Hval & Hids & Hnext & Hb & Hmax & Hlen).
unfold process_one_group. grouped_simpl. destruct (gw_faulted w) eqn:Hf; cbn [orb]; [by split|].
destruct Hlog as (Hnone & Hlog). destruct (gw_pending w) as [|j rest] eqn:Hp; [by split|].
cbn [length Nat.eqb]. rewrite <- Hp in *. 
grouped_simpl. rewrite Hnone in *. cbn [app] in *.
assert (Hvp : Forall (fun j => envelope_valid (job_envelope j)) (gw_pending w)).
{ rewrite Hacc in Hval. by apply Forall_app in Hval as (_ & Hval). }
destruct (contiguous_group_spec w j rest Hp Hmax Hvp) as (Hg & hw & e & start & end_ & Hchain).
set (g := contiguous_group_len w) in *. set (group := take g (gw_pending w)) in *.
assert (Hgl : length (map job_envelope group) = g) by (rewrite length_map; unfold group; rewrite length_take; lia).
assert (Hgv : group_valid (map job_envelope group)).
{ split; [intros Hn; rewrite Hn in Hgl; cbn in Hgl; lia|]. split.
  - apply Forall_map, Forall_take. exact Hvp.
  - exists hw, e, start, end_. rewrite map_map. exact Hchain. }
assert (Hga : admits (S:=S) (log_of log settled ++ map pe_record (map job_envelope group))).
{ apply (admits_prefix _ (map job_record (drop g (gw_pending w)))). rewrite map_pe_record.
  unfold log_of. rewrite <- !app_assoc, <- map_app. unfold group. rewrite take_drop, <- map_app, <- Hacc. exact Hadm. }
pose proof (persist_group_durable (gw_sink w) _ _ Hlog Hgv Hga) as Hpg. rewrite Hgl in Hpg.
destruct (persist_group (map job_envelope group) (gw_sink w)) as [[n|[err|n err]|] sink]; [| | |done].
- destruct Hpg as (Hn & Hh). rewrite (proj2 (Nat.eqb_neq n 0)), (proj2 (Nat.ltb_ge g n)) by lia. cbn [orb].
  split; [|intros; lia]. exists (settled ++ take n (gw_pending w)). grouped_simpl.
  split_and!; auto.
  + by rewrite <- app_assoc, take_drop.
  + rewrite app_assoc, settle_app, Hset. cbn [mbind option_bind].
    rewrite <- (take_drop n (gw_pending w)) at 1. apply settle_completed.
  + rewrite log_of_app. unfold group in Hh. rewrite firstn_map, take_take, Nat.min_l, map_pe_record in Hh by lia.
    exact Hh.
  + rewrite confirmed_app, !length_app, confirmed_completed, length_take, length_drop. lia.
- rewrite Hp. split; [|intros; lia]. exists settled. grouped_simpl. rewrite Hp in *. cbn [app].
  rewrite confirmed_snoc_err. split_and!; auto.
  + rewrite app_assoc, settle_app, Hset. cbn [mbind option_bind]. apply settle_err.
  + pose proof (envelope_range (job_envelope j)) as Hr. inversion Hvp; subst.
    exists (envelope_hardware_id (job_envelope j)), (envelope_boot_epoch (job_envelope j)),
      (start_cursor (job_envelope j)), (end_cursor (job_envelope j)). constructor; [|constructor]. by apply Hr.
- rewrite (proj2 (Nat.eqb_neq n 0)), (proj2 (Nat.ltb_ge g n)) by lia. cbn [orb].
  destruct (take n (gw_pending w)) as [|c cs] eqn:Ht.
  { apply (f_equal length) in Ht. rewrite length_take in Ht. cbn in Ht. lia. }
  split; [|intros; lia]. exists settled. grouped_simpl. rewrite confirmed_snoc_err.
  assert (Hpend : gw_pending w = c :: cs ++ drop n (gw_pending w)).
  { rewrite <- (take_drop n (gw_pending w)) at 1. by rewrite Ht. }
  split_and!; auto.
  + by rewrite <- Hpend.
  + rewrite app_assoc, settle_app, Hset. cbn [mbind option_bind]. rewrite Hpend at 1. rewrite settle_err.
    by rewrite <- Hpend.
  + destruct (chained_take _ _ _ _ _ n Hchain) as (end' & Hc'). exists hw, e, start, end'.
    unfold group in Hc'. rewrite firstn_map, take_take, Nat.min_l, Ht in Hc' by lia. exact Hc'.
  + rewrite <- Hpend. exact Hlen.
Qed.

(** Recovery with true evidence confirms exactly the durable part of the group. *)
Lemma grouped_recovers_inv w accepted polled sink evidence settled r w' :
grouped_inv (mkGroupedState w accepted polled) ->
accepted = settled ++ grouped_open w -> truthful sink evidence settled (gw_failed_group w) ->
grouped_replace_recovered_sink sink evidence w = (r, w') ->
grouped_inv (mkGroupedState w' accepted polled) /\
if gw_faulted w
then gw_faulted w' = false /\ exists k, r = Ok (mkDisposition k) /\
  holds sink (log_of log (settled ++ take k (gw_failed_group w)))
else r = Err EmptyPendingGroup /\ w' = w.
Proof.
intros Hinv Hacc' (k & start & end_ & Hk & Hh & Hc & Hd) Hr.
pose proof Hinv as (settled' & Hacc & Hset & Hlog & Hval & Hids & Hnext & Hb & Hmax & Hlen).
unfold grouped_replace_recovered_sink, failed_ranges in Hr. grouped_simpl.
assert (settled' = settled) as -> by (rewrite Hacc in Hacc'; by simplify_list_eq).
destruct (gw_faulted w) eqn:Hf.
2:{ destruct Hlog as (Hnone & _). rewrite Hnone in *. cbn in Hr. by simplify_eq. }
destruct Hlog as (Hne & _).
rewrite (classify_group_boundary evidence _ _ _ k Hc) in Hr;
  [|by destruct (gw_failed_group w)|by rewrite length_map|done].
cbn [confirmed_prefix_records] in Hr. rewrite (proj2 (Nat.ltb_ge _ _)) in Hr by lia.
injection Hr as <- <-. split; [|by eauto]. exists (settled ++ take k (gw_failed_group w)). grouped_simpl.
split_and!; auto.
- by rewrite <- app_assoc, (app_assoc (take k _)), take_drop.
- rewrite app_assoc, settle_app, Hset. cbn [mbind option_bind].
  rewrite <- (take_drop k (gw_failed_group w)) at 1. rewrite <- app_assoc. apply settle_completed.
- rewrite confirmed_app, !length_app, confirmed_completed, length_take, length_drop. 
  rewrite length_app in Hlen. lia.
Qed.

Lemma grouped_inv_step x y : grouped_inv x -> grouped_step x y -> grouped_inv y.
Proof.
intros Hinv Hstep.
destruct Hstep as [w accepted polled env id w' Henv Hs|w accepted polled env err w' Hs
  |w accepted polled n w' Hadm Hs|w accepted polled c w' Hs
  |w accepted polled sink evidence settled' w' r Hacc' Htrue Hs|w accepted polled sink evidence err w' Hs].
- destruct Hinv as (settled & Hacc & Hset & Hlog & Hval & Hids & Hnext & Hb & Hmax & Hlen).
  unfold submit_record in Hs. autorewrite with st in Hs. destruct (gw_faulted w) eqn:Hf; [done|].
  unfold grouped_full in Hs. destruct (Nat.leb_spec (gw_capacity w) (length (gw_pending w) +
    length (gw_failed_group w) + length (gw_completions w))) as [|Hroom]; [done|].
  destruct (checked_add 64 (gw_next_job_id w) 1) as [next|] eqn:Hc; [|done].
  apply checked_add_Some in Hc as (-> & Hn). autorewrite with st in Hs. cbn [ok_or] in Hs.
  autorewrite with st in Hs. injection Hs as <- <-.
  exists settled. unfold push_pending. grouped_simpl. rewrite Hf in *. destruct Hlog as (Hnone & Hlog).
  rewrite Hnone in *. cbn [app] in *. pose proof (confirmed_le (gw_completions w)) as Hok.
  split_and!; auto.
  + by rewrite Hacc at 1; rewrite <- app_assoc.
  + by apply settle_more.
  + apply Forall_app. split; [done|]. by apply Forall_singleton.
  + rewrite map_app, Hids, length_app, Nat2Z.inj_add. cbn [length map].
    rewrite seqZ_app by lia. f_equal. rewrite Hnext.
    replace (1 + Z.of_nat (length accepted)) with (Z.of_nat (length accepted) + 1) by lia. done.
  + rewrite length_app. cbn. lia.
  + rewrite length_app. cbn in *. lia.
- unfold submit_record in Hs. st_run Hs; by simplify_eq.
- pose proof (process_one_group_inv w accepted polled Hadm Hinv) as Hp. rewrite Hs in Hp. apply Hp.
- destruct Hinv as (settled & Hacc & Hset & Hlog & Hval & Hids & Hnext & Hb & Hmax & Hlen).
  unfold grouped_poll_completion in Hs. destruct w as [sink capacity mx next pending failed completions faulted].
  cbn [gw_completions] in Hs. destruct completions as [|c' cs]; [done|]. injection Hs as -> <-.
  exists settled. grouped_simpl. rewrite <- app_assoc. split_and!; auto.
  change (c :: cs) with ([c] ++ cs) in Hlen. rewrite confirmed_app, (length_app (confirmed [c])) in Hlen. lia.
- by apply (grouped_recovers_inv _ _ _ _ _ _ _ _ Hinv Hacc' Htrue) in Hs as [Hs _].
- unfold grouped_replace_recovered_sink in Hs. destruct (classify_group_recovery _ _) as [d|e|];
    [|by simplify_eq|done]. destruct (_ <? _)%nat; done.
Qed.

Lemma grouped_reachable_inv x : grouped_reachable x -> grouped_inv x.
Proof.
induction 1 as [sink capacity mx w Hlog Hnew|x y _ IH Hstep]; [|by eapply grouped_inv_step].
unfold grouped_new in Hnew. destruct (Nat.eqb_spec capacity 0); [done|].
destruct (Nat.eqb_spec mx 0); [done|]. injection Hnew as <-.
exists []. unfold log_of. grouped_simpl. cbn. rewrite app_nil_r. split_and!; auto; lia.
Qed.
End GroupedHistory.

(** ** Properties *)

(** Classification of an uncertain group is exact: it never panics (the
    [unreachable!] is not reached); it confirms [k] records exactly when the
    ranges are a non-empty chain of the recovered stream and its cursor is the
    boundary after [k] of them, or lies at or past their end and [k] is all; a
    cursor strictly inside a record is refused as such and never rounded; and on
    a single record it agrees with [classify_recovery]. *)
Lemma classification_exact (rs : list WriteRecoveryRange) (v : RecoveredCursorEvidence) :
  let hw := rv_hardware_id v in
  let e := rv_boot_epoch v in
  no_panic (classify_group_recovery rs v) /\
  (forall k, classify_group_recovery rs v = Ok (mkDisposition k) <->
     rs <> [] /\ exists start end_, chained hw e start rs end_ /\ (k <= length rs)%nat /\
       (rv_durable v = boundary rs end_ k \/ k = length rs /\ end_ <= rv_durable v)) /\
  (classify_group_recovery rs v = Err CursorInsidePendingRecord <->
     exists start end_ k r, chained hw e start rs end_ /\ rs !! k = Some r /\
       rg_start r < rv_durable v < rg_end r) /\
  forall r, classify_recovery r v =
    match classify_group_recovery [r] v with
    | Ok d => Ok (if (confirmed_prefix_records d =? 0)%nat then RetryUncommitted else ConfirmAlreadyDurable)
    | Err CursorBeforePendingRange => Err CursorInsidePendingRecord
    | Err err => Err err
    | Panic => Panic
    end.
Proof.
  intros hw e. pose proof (classify_group_spec v rs) as H. split_and!.
  - intros Hp. by rewrite Hp in H.
  - intros k. split.
    + intros Hk. rewrite Hk in H. destruct H as (start & end_ & k' & Hc & Hne & Heq & Hl & Hd).
      injection Heq as ->. split; [done|]. by exists start, end_.
    + intros (Hne & start & end_ & Hc & Hl & [Hd|(-> & Hd)]); [by eapply classify_group_boundary|].
      by eapply classify_group_past.
  - split.
    + intros Hk. rewrite Hk in H. exact H.
    + intros (start & end_ & k & r & Hc & Hr & Hin). by eapply classify_group_inside.
  - intros [rhw re rs' re']. unfold classify_recovery, classify_group_recovery, check_ranges, find_boundary.
    cbn [rg_hardware_id rg_boot_epoch rg_start rg_end length].
    destruct (_ || _); [done|]. destruct (Z.leb_spec re' rs'); [done|]. rewrite Z.eqb_refl. cbn [negb mbind outcome_bind].
    destruct (Z.eqb_spec (rv_durable v) rs'), (Z.ltb_spec (rv_durable v) rs'), (Z.leb_spec re' (rv_durable v)),
      (Z.ltb_spec (rv_durable v) re'); try lia; done.
Qed.

(** C36. Group commit writes every accepted record once, in order, whatever the
    barriers do: in every history of a worker on a lawful grouped sink -
    submissions, groups, partial groups, failed preparations and commits,
    polling, and recoveries whose evidence truly says how much of the uncertain
    group is durable - the accepted jobs are a settled prefix and the open ones;
    the successes delivered are those of the settled jobs in order, a failure
    names the first open job; a healthy worker's sink holds exactly the settled
    records; a recovery confirms exactly the durable part of the group and
    retries the rest; every call on a healthy worker with pending jobs settles
    or faults at least one; the records held never exceed the capacity; and
    processing never panics or reports a broken sink. *)
Theorem group_commit_exactly_once {S E : Type} `{GroupDurableSink S E} (log : list PersistenceRecord)
    (x : grouped_state S E) :
  grouped_reachable log x ->
  let w := gs_worker x in
  exists settled,
    gs_accepted x = settled ++ grouped_open w /\
    settle (gs_accepted x) (grouped_completions x) = Some (grouped_open w) /\
    confirmed (grouped_completions x) = map (fun j => (job_id j, pe_receipt (job_envelope j))) settled /\
    map job_id (gs_accepted x) = seqZ 1 (Z.of_nat (length (gs_accepted x))) /\
    (if gw_faulted w then gw_failed_group w <> [] else gw_failed_group w = [] /\ holds (gw_sink w) (log_of log settled)) /\
    (length (grouped_open w) + length (confirmed (gw_completions w)) <= gw_capacity w)%nat /\
    (admits (S:=S) (log ++ map job_record (gs_accepted x)) ->
       exists n, fst (process_one_group w) = Ok n /\
         (gw_faulted w = false -> gw_pending w <> [] -> (0 < n)%nat)) /\
    (forall sink evidence, gw_faulted w = true -> truthful log sink evidence settled (gw_failed_group w) ->
       exists k w', grouped_replace_recovered_sink sink evidence w = (Ok (mkDisposition k), w') /\
         gw_faulted w' = false /\ holds sink (log_of log (settled ++ take k (gw_failed_group w)))).
Proof.
  intros Hreach w. pose proof (grouped_reachable_inv log x Hreach) as Hinv.
  destruct x as [w0 accepted polled]. cbn [gs_worker gs_accepted gs_polled] in *. subst w.
  pose proof Hinv as (settled & Hacc & Hset & Hlog & Hval & Hids & Hnext & Hb & Hmax & Hlen).
  cbn [gs_worker gs_accepted gs_polled] in *. exists settled. split_and!; auto.
  - destruct (settle_prefix _ _ _ Hset) as (settled' & Hacc' & Hok). rewrite Hok.
    rewrite Hacc in Hacc'. by simplify_list_eq.
  - destruct (gw_faulted w0); [apply Hlog|done].
  - intros Hadm. pose proof (process_one_group_inv log w0 accepted polled Hadm Hinv) as Hp.
    destruct (process_one_group w0) as [[n|err|] w']; [|done|done]. exists n. split; [done|apply Hp].
  - intros sink evidence Hf Htrue.
    destruct (grouped_replace_recovered_sink sink evidence w0) as [r w'] eqn:Hr.
    destruct (grouped_recovers_inv log _ _ _ _ _ _ _ _ Hinv Hacc Htrue Hr) as (_ & Hpost).
    rewrite Hf in Hpost. destruct Hpost as (Hf' & k & -> & Hh). eauto.
Qed.
