(* ===== verification/CaptureRepository.v ===== *)
(** * The repository of recorded streams (crates/sensor-host/src/capture_repository.rs)

    The router from a channel's persistence to one segmented stream per sensor
    and boot epoch: the fixed set of streams, rollover to the successor of a
    restarted node, batches bound to one stream, and the group commit of the
    storage executors. *)

From stdpp Require Import strings gmap.
From S2P Require Import Prelude Core NodeSession Persistence WalStorage BoundedWriter GroupedWriter.
From S2P Require Export SegmentStream.

#[local] Open Scope Z_scope.

(** The directory of a stream is given by its files; distinct streams have
    distinct directories. *)
Record CaptureStreamSpec := mkStreamSpec {
  spec_directory : Directory;
  spec_config : CaptureWalConfig
}.

Record CaptureRepository := mkRepository { rp_streams : list CaptureSegmentStream }.

Record CaptureStreamRollover := mkRollover {
  sealed_previous : option CaptureWindowManifest;
  rollover_durable : SequenceCursor
}.

Record CaptureRepositoryBatch := mkRepositoryBatch {
  rb_hardware_id : HardwareId;
  rb_boot_epoch : BootEpoch;
  rb_wal : CaptureWalBatch
}.

Inductive CaptureRepositoryError :=
| NoStreams
| DuplicateStream (hardware_id : HardwareId) (boot_epoch : BootEpoch)
| UnknownStream (hardware_id : HardwareId) (boot_epoch : BootEpoch)
| UnchangedBootEpoch (hardware_id : HardwareId) (boot_epoch : BootEpoch)
| RepositorySegment (error : CaptureSegmentError).

Abbreviation repository_op := (st CaptureRepository CaptureRepositoryError).
Abbreviation repository_batch_op := (st CaptureRepositoryBatch CaptureRepositoryError).

(** ** Batches *)

Definition rb_record_count (self : CaptureRepositoryBatch) : Z := wb_record_count (rb_wal self).
Definition rb_byte_len (self : CaptureRepositoryBatch) : nat := length (wb_bytes (rb_wal self)).
Definition durable_cursor_after_commit (self : CaptureRepositoryBatch) : SequenceCursor :=
  cr_durable_cursor (wb_recovery (rb_wal self)).
Definition seals_window (self : CaptureRepositoryBatch) : bool := wb_sealed (rb_wal self).

Definition on_wal {A : Type} (m : batch_op A) : repository_batch_op A :=
  zoom rb_wal (fun b s => mkRepositoryBatch (rb_hardware_id s) (rb_boot_epoch s) b)
    (fun error => RepositorySegment (SegmentWal error)) m.

Definition rb_stage_chunk (chunk : SampleChunk) : repository_batch_op SequenceCursor :=
  self ← get;
  on_wal (stage_chunk (rb_hardware_id self) chunk).
Definition rb_stage_gap (gap : Gap) : repository_batch_op SequenceCursor := on_wal (stage_gap gap).
Definition rb_stage_continuity_break (observed : ContinuityBreak) : repository_batch_op SequenceCursor :=
  on_wal (stage_continuity_break observed).

(** ** The repository *)

(** The stream of a sensor and a boot epoch. *)
Definition is_stream (hw : HardwareId) (e : BootEpoch) (s : CaptureSegmentStream) : bool :=
  bool_decide (stream_hardware_id s = hw) && (stream_boot_epoch s =? e).

(** [Iterator::position]. *)
Fixpoint position {A : Type} (p : A -> bool) (l : list A) : option nat :=
  match l with
  | [] => None
  | x :: l => if p x then Some 0%nat else Datatypes.S <$> position p l
  end.

Fixpoint open_streams (specs : list CaptureStreamSpec) (streams : list CaptureSegmentStream)
    : outcome CaptureRepositoryError (list CaptureSegmentStream) :=
  match specs with
  | [] => Ok streams
  | spec :: specs =>
      let hw := cfg_hardware_id (spec_config spec) in
      let e := cfg_boot_epoch (spec_config spec) in
      if existsb (is_stream hw e) streams then Err (DuplicateStream hw e)
      else
        sink ← map_err RepositorySegment (fst (stream_open (spec_config spec) (spec_directory spec)));
        open_streams specs (streams ++ [sink])
  end.

(** [CaptureRepository::open]. *)
Definition repository_open (specs : list CaptureStreamSpec) : outcome CaptureRepositoryError CaptureRepository :=
  streams ← open_streams specs [];
  if (length streams =? 0)%nat then Err NoStreams else Ok (mkRepository streams).

Definition stream_count (self : CaptureRepository) : nat := length (rp_streams self).

Definition durable_cursors (self : CaptureRepository) : list (HardwareId * BootEpoch * SequenceCursor) :=
  map (fun s => (stream_hardware_id s, stream_boot_epoch s, stream_durable_cursor s)) (rp_streams self).

Definition set_stream (i : nat) (s : CaptureSegmentStream) (self : CaptureRepository) : CaptureRepository :=
  mkRepository (<[i := s]> (rp_streams self)).

(** [stream_mut(hw, e)?] and an operation of that stream. *)
Definition on_stream {A : Type} (hw : HardwareId) (e : BootEpoch) (m : stream_op A) : repository_op A := fun self =>
  match position (is_stream hw e) (rp_streams self) with
  | Some i =>
      match rp_streams self !! i with
      | Some s => let '(r, s) := m s in (map_err RepositorySegment r, set_stream i s self)
      | None => (Panic, self)
      end
  | None => (Err (UnknownStream hw e), self)
  end.

Definition finish_stream (hw : HardwareId) (e : BootEpoch) : repository_op (option CaptureWindowManifest) :=
  on_stream hw e stream_finish_window.

Definition rollover_stream (previous_boot_epoch : BootEpoch) (next : CaptureStreamSpec)
    : repository_op CaptureStreamRollover :=
  let hw := cfg_hardware_id (spec_config next) in
  let next_boot_epoch := cfg_boot_epoch (spec_config next) in
  if previous_boot_epoch =? next_boot_epoch then throw (UnchangedBootEpoch hw next_boot_epoch)
  else
    self ← get;
    previous_index ← lift (ok_or (position (is_stream hw previous_boot_epoch) (rp_streams self))
                             (UnknownStream hw previous_boot_epoch));
    match List.find (is_stream hw next_boot_epoch) (rp_streams self) with
    | Some existing => mret (mkRollover None (stream_durable_cursor existing))
    | None =>
        sealed_previous ← on_stream hw previous_boot_epoch stream_finish_window;
        let durable := cfg_recovered_cursor (spec_config next) in
        successor ← lift (map_err RepositorySegment (fst (stream_open (spec_config next) (spec_directory next))));
        (* debug_assert_eq! *)
        if negb (stream_durable_cursor successor =? durable) then lift Panic
        else
          _ ← modify (fun self => mkRepository (rp_streams self ++ [successor]));
          mret (mkRollover sealed_previous durable)
    end.

(** The loop of [finish_all_streams]: the manifests, the first error, the streams. *)
Fixpoint finish_each (streams : list CaptureSegmentStream)
    : outcome CaptureRepositoryError (list CaptureWindowManifest * option CaptureRepositoryError) * list CaptureSegmentStream :=
  match streams with
  | [] => (Ok ([], None), [])
  | s :: rest =>
      let '(r, s) := stream_finish_window s in
      match r with
      | Panic => (Panic, s :: rest)
      | _ =>
          let '(rs, rest) := finish_each rest in
          (match rs with
           | Ok (manifests, first_error) =>
               match r with
               | Ok (Some manifest) => Ok (manifest :: manifests, first_error)
               | Err error => Ok (manifests, Some (RepositorySegment error))
               | _ => Ok (manifests, first_error)
               end
           | other => other
           end, s :: rest)
      end
  end.

Definition finish_all_streams : repository_op (list CaptureWindowManifest) := fun self =>
  let '(r, streams) := finish_each (rp_streams self) in
  (match r with
   | Ok (manifests, None) => Ok manifests
   | Ok (_, Some error) => Err error
   | Err error => Err error
   | Panic => Panic
   end, mkRepository streams).

Definition repository_begin_batch (hw : HardwareId) (e : BootEpoch) : repository_op CaptureRepositoryBatch :=
  wal ← on_stream hw e stream_begin_batch;
  mret (mkRepositoryBatch hw e wal).

Definition repository_commit_batch (batch : CaptureRepositoryBatch) : repository_op unit :=
  on_stream (rb_hardware_id batch) (rb_boot_epoch batch) (stream_commit_batch (rb_wal batch)).

(** [impl DurableMeasurementSink for CaptureRepository]. *)
Definition repository_persist_chunk (hw : HardwareId) (chunk : SampleChunk) : repository_op unit :=
  on_stream hw (chunk_boot_epoch (header chunk)) (stream_persist_chunk hw chunk).
Definition repository_persist_gap (gap : Gap) : repository_op unit :=
  on_stream (gap_hardware_id gap) (gap_boot_epoch gap) (stream_persist_gap gap).
Definition repository_persist_continuity_break (observed : ContinuityBreak) : repository_op unit :=
  on_stream (break_hardware_id observed) (break_boot_epoch observed) (stream_persist_continuity_break observed).

#[export] Instance repository_measurement_sink : DurableMeasurementSink CaptureRepository CaptureRepositoryError := {
  persist_chunk := repository_persist_chunk;
  persist_gap := repository_persist_gap;
  persist_continuity_break := repository_persist_continuity_break
}.

(** ** Group commit *)

Definition stage_envelope (envelope : PersistenceEnvelope) : repository_batch_op SequenceCursor :=
  match pe_record envelope with
  | RecordChunk _ chunk => rb_stage_chunk chunk
  | RecordGap gap => rb_stage_gap gap
  | RecordContinuityBreak observed => rb_stage_continuity_break observed
  end.

(** The loop of [persist_group]; [debug_assert_eq!(index, 0)] included. *)
Fixpoint stage_group (index staged : nat) (envelopes : list PersistenceEnvelope) (batch : CaptureRepositoryBatch)
    : outcome (GroupPersistError CaptureRepositoryError) (nat * CaptureRepositoryBatch) :=
  match envelopes with
  | [] => Ok (staged, batch)
  | envelope :: envelopes =>
      if negb (bool_decide (envelope_hardware_id envelope = rb_hardware_id batch))
         || negb (envelope_boot_epoch envelope =? rb_boot_epoch batch)
         || (0 <? staged)%nat && negb (start_cursor envelope =? durable_cursor_after_commit batch)
      then Ok (staged, batch)
      else
        match stage_envelope envelope batch with
        | (Ok _, batch) =>
            if seals_window batch then Ok (Datatypes.S staged, batch)
            else stage_group (Datatypes.S index) (Datatypes.S staged) envelopes batch
        | (Err error, batch) =>
            if (staged =? 0)%nat then if (index =? 0)%nat then Err (Preparation error) else Panic
            else Ok (staged, batch)
        | (Panic, _) => Panic
        end
  end.

#[export] Instance repository_group_sink : GroupDurableMeasurementSink CaptureRepository CaptureRepositoryError :=
  fun envelopes =>
    match envelopes with
    | [] => mret 0%nat
    | first :: _ =>
        batch ← zoom id (fun s _ => s) Preparation
                  (repository_begin_batch (envelope_hardware_id first) (envelope_boot_epoch first));
        '(staged, batch) ← lift (stage_group 0 0 envelopes batch);
        _ ← zoom id (fun s _ => s) (Commit staged) (repository_commit_batch batch);
        mret staged
    end.

(** ** Staging the records of a group *)

Section Staging.
Context (c : CaptureWalConfig) (Hc : typed c) (base : CaptureWalRecovery).

(** A batch whose records continue the open window, and seal it at most at their end. *)
Definition group_state (rs items : list CaptureRecord) (b : CaptureWalBatch) : Prop :=
batch_state c base rs items b /\
exists sealed, window_log c (rs ++ items) sealed /\ wb_sealed b = is_some sealed.

Lemma stage_one hw r rs items b :
group_state rs items b -> wb_sealed b = false -> room c (length (rs ++ items) + 1) -> item_valid r ->
match stage hw r b with
| (Ok _, b') => group_state rs (items ++ [r]) b'
| (Err _, b') => b' = b
| (Panic, _) => False
end.
Proof.
intros (Hb & sealed & Hlog & Hsealed) Hopen Hroom Hr.
pose proof (stage_ok c Hc base hw r rs items b Hb Hroom Hr) as Hs. rewrite Hopen in Hs, Hsealed.
destruct sealed as [m|]; [discriminate Hsealed|].
destruct (stageable c hw r (wb_ledger b)); [|by destruct Hs as (err & ->)].
destruct Hs as (b' & -> & Hb' & _ & sealed & Happ & Hsealed'). split; [exact Hb'|]. exists sealed.
split; [|exact Hsealed']. pose proof Hb' as (_ & _ & (ms' & t' & (Hrs' & _) & _) & _).
rewrite app_assoc in Hrs' |- *. apply Forall_app in Hrs' as (_ & Hr'%List.Forall_inv).
pose proof Hb as (_ & _ & (ms & t & Hp & _) & _). destruct (window_log_processed c Hc _ _ Hlog) as (L & Hp' & _).
destruct (processed_unique c _ _ _ _ _ Hp Hp') as (-> & _).
exact (window_log_snoc c _ _ r sealed _ Hp Hr' Happ).
Qed.

(** The loop: a prefix of the envelopes is staged, not empty when the first
    envelope is of the batch's stream. *)
Lemma stage_group_ok hw e index n envelopes rs items b :
group_state rs items b -> wb_sealed b = false -> room c (length (rs ++ items) + length envelopes) ->
Forall envelope_valid envelopes -> (n = 0 -> index = 0)%nat ->
match stage_group index n envelopes (mkRepositoryBatch hw e b) with
| Ok (n', batch) => exists k b', n' = (n + k)%nat /\ (k <= length envelopes)%nat /\ batch = mkRepositoryBatch hw e b' /\
    group_state rs (items ++ map capture_record_of (map pe_record (take k envelopes))) b' /\
    (n = 0%nat -> forall first rest, envelopes = first :: rest ->
       envelope_hardware_id first = hw -> envelope_boot_epoch first = e -> (0 < k)%nat)
| Err (Preparation _) => True
| _ => False
end.
Proof.
intros Hb Hopen Hroom Hval Hindex. revert index n items b Hb Hopen Hroom Hindex.
induction Hval as [|envelope envelopes Henv Hval IH]; intros index n items b Hb Hopen Hroom Hindex; cbn [stage_group].
{ exists 0%nat, b. cbn [take map]. rewrite app_nil_r. split_and!; try done; lia. }
cbn [rb_hardware_id rb_boot_epoch length] in *.
destruct (negb (bool_decide (envelope_hardware_id envelope = hw)) || negb (envelope_boot_epoch envelope =? e)
  || (0 <? n)%nat && negb (start_cursor envelope =? durable_cursor_after_commit _)) eqn:Hbreak.
{ exists 0%nat, b. cbn [take map]. rewrite app_nil_r. split_and!; try done; try lia.
  intros -> first rest [= <- _] Hh He. rewrite Hh, He, bool_decide_eq_true_2, Z.eqb_refl in Hbreak by done. discriminate Hbreak. }
set (r := capture_record_of (pe_record envelope)).
assert (Hitem : item_valid r) by (apply persistable_item; apply Henv).
assert (Hstage : stage_envelope envelope (mkRepositoryBatch hw e b) =
  let '(res, b') := stage hw r b in (map_err (fun err => RepositorySegment (SegmentWal err)) res, mkRepositoryBatch hw e b')).
{ unfold stage_envelope, r. destruct (pe_record envelope); reflexivity. }
pose proof (stage_one hw r rs items b Hb Hopen ltac:(unfold room in *; lia) Hitem) as Hone. rewrite Hstage.
destruct (stage hw r b) as [[x|err|] b']; cbn [map_err]; [| |destruct Hone].
- assert (Htake : forall k, items ++ map capture_record_of (map pe_record (take (S k) (envelope :: envelopes)))
    = (items ++ [r]) ++ map capture_record_of (map pe_record (take k envelopes))).
  { intros k. cbn [take map]. by rewrite <- app_assoc. }
  unfold seals_window. cbn [rb_wal]. destruct (wb_sealed b') eqn:Hsealed.
  + exists 1%nat, b'. cbn [take map]. split_and!; try done; lia.
  + specialize (IH (S index) (S n) (items ++ [r]) b' Hone Hsealed).
    specialize (IH ltac:(unfold room in *; rewrite !length_app in *; cbn [length] in *; lia) ltac:(lia)).
    destruct (stage_group (S index) (S n) envelopes _) as [[n' batch]|[err|k err]|]; try done.
    destruct IH as (k & b2 & -> & Hk & -> & Hb2 & _). exists (S k), b2. rewrite Htake. split_and!; try done; lia.
- subst b'. destruct (Nat.eqb_spec n 0) as [->|Hn].
  + rewrite Hindex by done. done.
  + exists 0%nat, b. cbn [take map]. rewrite app_nil_r. split_and!; try done; lia.
Qed.
End Staging.

(** ** A batch on one stream *)

Section StreamBatch.
Context (base : CaptureWalConfig) (Hbase : typed base) (b : bool).

(** The stream whose open window a batch of [items] continues. *)
Definition stream_batch (s : CaptureSegmentStream) (log items : list CaptureRecord) (batch : CaptureWalBatch) : Prop :=
exists segs c a rs, stream_state base b s segs c a rs None /\ stream_log segs rs = log /\
  sink_ok c a rs (ss_current s) /\ group_state c (ws_recovery (ss_current s)) rs items batch.

Lemma stream_begin_ok s log :
stream_holds base b s log -> stream_fits base log ->
match stream_begin_batch s with
| (Ok batch, s') => stream_batch s' log [] batch /\ wb_sealed batch = false
| (Err _, s') => stream_holds base b s' log
| (Panic, _) => False
end.
Proof.
intros Hs Hfit. unfold stream_begin_batch. cbv [mbind st_bind].
pose proof (stream_rotated base Hbase b s log Hs Hfit) as Hrot.
destruct (rotate_if_needed s) as [[x|err|] s1]; [|exact Hrot|exact Hrot].
destruct Hrot as (segs & c & a & rs & Hs1 & <-). destruct (stream_config base Hbase _ _ _ _ _ _ _ Hs1) as (Hc & _).
unfold on_current, zoom. destruct (st_current _ _ _ _ _ _ _ _ Hs1) as [Hk|(_ & pending & sealed & (_ & Hp & _) & _)].
- destruct (begin_batch_ok c a rs (ss_current s1) Hk) as (batch & -> & Hb & Hsealed). cbn [map_err].
  fold (with_current (ss_current s1) s1). split; [|exact Hsealed].
  exists segs, c, a, rs. split; [by apply stream_unchanged|]. split; [reflexivity|]. split; [exact Hk|].
  split; [exact Hb|]. exists None. rewrite app_nil_r. split; [exact (st_log _ _ _ _ _ _ _ _ Hs1)|exact Hsealed].
- rewrite poisoned_begin by exact Hp. cbn [map_err]. exists segs, c, a, rs, None. split; [|reflexivity].
  exact (stream_unchanged base b s1 segs c a rs Hs1).
Qed.

Lemma stream_commit_ok s log items batch :
stream_batch s log items batch -> items <> [] -> stream_fits base (log ++ items) ->
match stream_commit_batch batch s with
| (Ok _, s') => stream_holds base b s' (log ++ items)
| (Err _, s') => stream_holds base b s' log
| (Panic, _) => False
end.
Proof.
intros (segs & c & a & rs & Hs & <- & Hk & Hb & sealed & Hlog & _) Hne Hfit.
destruct (stream_config base Hbase _ _ _ _ _ _ _ Hs) as (Hc & _ & Ho).
assert (Hlogs : stream_log segs rs ++ items = stream_log segs (rs ++ items)) by (unfold stream_log; by rewrite app_assoc).
rewrite Hlogs in *. pose proof (stream_fits_append base Hbase _ _ _ _ _ _ _ _ Hs Hfit) as Hfits.
pose proof (commit_batch_ok c Hc a rs _ items batch (ss_current s) Hk Hb Hfits) as Hcommit.
unfold stream_commit_batch, on_current, zoom. destruct (commit_batch batch (ss_current s)) as [r k'].
rewrite decide_False, decide_True in Hcommit by done.
pose proof (stream_appended base b s segs c a rs items r k' Hs ltac:(by exists sealed) Hfit Hcommit) as Happ.
destruct r as [[]|err|]; cbn [map_err]; [|by exists segs, c, a, rs, None|exact Happ].
destruct Happ as (sealed' & Happ). by exists segs, c, (Some (rs ++ items)), (rs ++ items), sealed'.
Qed.
End StreamBatch.

(** ** The repository as the storage of a channel *)

Definition record_boot_epoch (r : PersistenceRecord) : BootEpoch :=
  match r with
  | RecordChunk _ chunk => chunk_boot_epoch (header chunk)
  | RecordGap gap => gap_boot_epoch gap
  | RecordContinuityBreak observed => break_boot_epoch observed
  end.

(** The stream a record belongs to, and the one a configuration is of. *)
Definition record_stream (r : PersistenceRecord) : HardwareId * BootEpoch := (record_hardware_id r, record_boot_epoch r).
Definition config_stream (base : CaptureWalConfig) : HardwareId * BootEpoch := (cfg_hardware_id base, cfg_boot_epoch base).

Section Routing.
(** The configured streams, each with what it held at the start. *)
Context (inits : list (CaptureWalConfig * list CaptureRecord)).
Context (Hinits : Forall (fun init => typed (fst init)) inits).
Context (Hkeys : NoDup (map (config_stream ∘ fst) inits)).

(** The log of a stream after the records [l] of the channel. *)
Definition routed (init : CaptureWalConfig * list CaptureRecord) (l : list PersistenceRecord) : list CaptureRecord :=
snd init ++ map capture_record_of (List.filter (fun r => bool_decide (record_stream r = config_stream (fst init))) l).

Definition repository_holds (self : CaptureRepository) (l : list PersistenceRecord) : Prop :=
Forall2 (fun init s => stream_holds (fst init) true s (routed init l)) inits (rp_streams self).

Definition repository_admits (l : list PersistenceRecord) : Prop :=
Forall (fun init => stream_fits (fst init) (routed init l)) inits.

Lemma routed_app init l l' :
routed init (l ++ l') = routed init l ++
  map capture_record_of (List.filter (fun r => bool_decide (record_stream r = config_stream (fst init))) l').
Proof. unfold routed. by rewrite List.filter_app, map_app, app_assoc. Qed.

Lemma repository_admits_prefix l l' : repository_admits (l ++ l') -> repository_admits l.
Proof.
unfold repository_admits. intros H. eapply List.Forall_impl; [|exact H]. intros init Hfit. cbv beta in Hfit. rewrite routed_app in Hfit. exact (stream_fits_prefix _ _ _ Hfit).
Qed.

Lemma filter_all {A : Type} (p : A -> bool) (l : list A) : Forall (fun x => p x = true) l -> List.filter p l = l.
Proof. induction 1 as [|x l Hx Hl IH]; [done|]. cbn. by rewrite Hx, IH. Qed.

Lemma filter_none {A : Type} (p : A -> bool) (l : list A) : Forall (fun x => p x = false) l -> List.filter p l = [].
Proof. induction 1 as [|x l Hx Hl IH]; [done|]. cbn. by rewrite Hx, IH. Qed.

(** Records of one stream reach its log only. *)
Lemma routed_one i init recs j init' l :
inits !! i = Some init -> inits !! j = Some init' -> Forall (fun r => record_stream r = config_stream (fst init)) recs ->
routed init' (l ++ recs) = if decide (i = j) then routed init' l ++ map capture_record_of recs else routed init' l.
Proof.
intros Hi Hj Hrecs. rewrite routed_app. destruct (decide (i = j)) as [<-|Hne].
- replace init' with init by congruence. rewrite filter_all; [done|]. eapply List.Forall_impl; [|exact Hrecs].
  intros r Hr. by apply bool_decide_eq_true_2.
- rewrite filter_none; [by rewrite app_nil_r|]. eapply List.Forall_impl; [|exact Hrecs]. intros r Hr.
  apply bool_decide_eq_false_2. rewrite Hr. intros Heq. apply Hne.
  eapply NoDup_lookup; [exact Hkeys|rewrite list_lookup_fmap, Hi; reflexivity|rewrite list_lookup_fmap, Hj].
  cbn. unfold compose. by rewrite Heq.
Qed.

Lemma repository_updated self l i init s recs :
repository_holds self l -> inits !! i = Some init -> Forall (fun r => record_stream r = config_stream (fst init)) recs ->
stream_holds (fst init) true s (routed init l ++ map capture_record_of recs) ->
repository_holds (set_stream i s self) (l ++ recs).
Proof.
intros Hself Hi Hrecs Hs. unfold repository_holds in *. cbn [set_stream rp_streams].
apply Forall2_same_length_lookup_2.
{ rewrite length_insert. by eapply Forall2_length. }
intros j init' s' Hj Hs'. rewrite (routed_one i init recs j init' l Hi Hj Hrecs).
destruct (decide (i = j)) as [<-|Hne].
- assert (Hlt : (i < length (rp_streams self))%nat).
  { rewrite <- (Forall2_length Hself). by eapply lookup_lt_Some. }
  rewrite list_lookup_insert_eq in Hs' by exact Hlt. replace s' with s by congruence. by replace init' with init by congruence.
- rewrite list_lookup_insert_ne in Hs' by exact Hne. exact (Forall2_lookup_lr _ _ _ _ _ _ Hself Hj Hs').
Qed.

Lemma position_Some {A : Type} (p : A -> bool) (l : list A) (i : nat) :
position p l = Some i -> exists x, l !! i = Some x /\ p x = true.
Proof.
revert i. induction l as [|y l IH]; intros i; [done|]. cbn [position]. destruct (p y) eqn:Hy.
- intros [= <-]. by exists y.
- intros (j & Hj & ->)%fmap_Some. apply IH. exact Hj.
Qed.

Lemma position_insert {A : Type} (p : A -> bool) (l : list A) (i : nat) (x : A) :
position p l = Some i -> p x = true -> position p (<[i := x]> l) = Some i.
Proof.
revert i. induction l as [|y l IH]; intros i; [done|]. cbn [position]. destruct (p y) eqn:Hy.
- intros [= <-] Hx. cbn. by rewrite Hx.
- intros (j & Hj & ->)%fmap_Some Hx. change (<[S j:=x]> (y :: l)) with (y :: <[j:=x]> l). cbn [position]. by rewrite Hy, (IH j Hj Hx).
Qed.

Lemma stream_holds_base base b s log : stream_holds base b s log -> ss_base_config s = base.
Proof. intros (segs & c & a & rs & sealed & Hs & _). exact (st_base _ _ _ _ _ _ _ _ Hs). Qed.

Lemma is_stream_holds hw e base b s log :
stream_holds base b s log -> is_stream hw e s = bool_decide (config_stream base = (hw, e)).
Proof.
intros Hs. unfold is_stream, stream_hardware_id, stream_boot_epoch, config_stream. rewrite (stream_holds_base _ _ _ _ Hs).
destruct (Z.eqb_spec (cfg_boot_epoch base) e) as [<-|Hne].
- rewrite andb_true_r. apply bool_decide_ext. split; [intros <-; reflexivity|congruence].
- rewrite andb_false_r. symmetry. apply bool_decide_eq_false_2. congruence.
Qed.

(** The stream that [stream_mut] finds. *)
Lemma found_stream hw e self l i :
repository_holds self l -> position (is_stream hw e) (rp_streams self) = Some i ->
exists init s, inits !! i = Some init /\ rp_streams self !! i = Some s /\ typed (fst init) /\
  config_stream (fst init) = (hw, e) /\ stream_holds (fst init) true s (routed init l).
Proof.
intros Hself (s & Hs & His)%position_Some. destruct (Forall2_lookup_r _ _ _ _ _ Hself Hs) as (init & Hi & Hholds).
exists init, s. split; [exact Hi|]. split; [exact Hs|]. split; [exact (Forall_lookup_1 _ _ _ _ Hinits Hi)|].
split; [|exact Hholds]. rewrite (is_stream_holds _ _ _ _ _ _ Hholds) in His. by apply bool_decide_eq_true_1 in His.
Qed.

Lemma admitted_fits l recs i init :
repository_admits (l ++ recs) -> inits !! i = Some init ->
Forall (fun r => record_stream r = config_stream (fst init)) recs ->
stream_fits (fst init) (routed init l ++ map capture_record_of recs).
Proof.
intros Hadm Hi Hrecs. pose proof (Forall_lookup_1 _ _ _ _ Hadm Hi) as H. cbv beta in H.
rewrite (routed_one i init recs i init l Hi Hi Hrecs), decide_True in H by reflexivity. exact H.
Qed.

(** An operation that appends [recs] to the stream it is called on, or leaves it. *)
Lemma on_stream_ok {A : Type} hw e (m : stream_op A) self l recs :
repository_holds self l -> repository_admits (l ++ recs) -> Forall (fun r => record_stream r = (hw, e)) recs ->
(forall base s log, typed base -> stream_holds base true s log -> stream_fits base (log ++ map capture_record_of recs) ->
   match m s with
   | (Ok _, s') => stream_holds base true s' (log ++ map capture_record_of recs)
   | (Err _, s') => stream_holds base true s' log
   | (Panic, _) => False
   end) ->
match on_stream hw e m self with
| (Ok _, self') => repository_holds self' (l ++ recs)
| (Err _, self') => repository_holds self' l
| (Panic, _) => False
end.
Proof.
intros Hself Hadm Hrecs Hm. unfold on_stream. destruct (position _ (rp_streams self)) as [i|] eqn:Hpos; [|exact Hself].
destruct (found_stream hw e self l i Hself Hpos) as (init & s & Hi & Hs & Hbase & Hconfig & Hholds). rewrite Hs.
rewrite <- Hconfig in Hrecs. specialize (Hm (fst init) s _ Hbase Hholds (admitted_fits l recs i init Hadm Hi Hrecs)).
destruct (m s) as [[x|err|] s']; cbn [map_err]; [| |exact Hm].
- exact (repository_updated self l i init s' recs Hself Hi Hrecs Hm).
- rewrite <- (app_nil_r l). apply (repository_updated self l i init s' []); [exact Hself|exact Hi|constructor|].
  cbn [map]. rewrite app_nil_r. exact Hm.
Qed.

Lemma repository_persist_ok self l r :
repository_holds self l -> persistable r -> repository_admits (l ++ [r]) ->
match persist_record r self with
| (Ok _, self') => repository_holds self' (l ++ [r])
| (Err _, self') => repository_holds self' l
| (Panic, _) => False
end.
Proof.
intros Hself Hr Hadm.
assert (Heq : persist_record r self = on_stream (record_hardware_id r) (record_boot_epoch r)
  (stream_stage (record_hardware_id r) (capture_record_of r)) self) by (destruct r; reflexivity).
rewrite Heq. apply on_stream_ok; [exact Hself|exact Hadm|by repeat constructor|].
intros base s log Hbase Hs Hfit. exact (stream_stage_ok base Hbase true s log _ _ Hs (persistable_item r Hr) Hfit).
Qed.

Lemma envelope_stream x : envelope_valid x -> record_stream (pe_record x) = (envelope_hardware_id x, envelope_boot_epoch x).
Proof.
destruct x as [r rec]. intros (_ & Hr). cbn [pe_record pe_receipt] in Hr. unfold record_stream, envelope_hardware_id, envelope_boot_epoch.
destruct r; cbn [pending_of_record persistence_receipt] in Hr; apply outcome_bind_Ok in Hr as (end_ & _ & [= <-]); reflexivity.
Qed.

Lemma chained_streams hw e start (envelopes : list PersistenceEnvelope) end_ :
chained hw e start (map (fun x => mkRange (envelope_hardware_id x) (envelope_boot_epoch x) (start_cursor x)
  (end_cursor x)) envelopes) end_ ->
Forall (fun x => (envelope_hardware_id x, envelope_boot_epoch x) = (hw, e)) envelopes.
Proof.
revert start. induction envelopes as [|x envelopes IH]; intros start H; [constructor|]. cbn [map] in H.
inversion H; subst. constructor; [reflexivity|]. by eapply IH.
Qed.

(** The batch of a group, from its beginning to its commit. *)
Lemma group_on_stream base s log hw e first rest :
typed base -> stream_holds base true s log -> Forall envelope_valid (first :: rest) ->
envelope_hardware_id first = hw -> envelope_boot_epoch first = e ->
stream_fits base (log ++ map capture_record_of (map pe_record (first :: rest))) ->
match stream_begin_batch s with
| (Ok batch, s1) => ss_base_config s1 = base /\ stream_batch base true s1 log [] batch /\
    match stage_group 0 0 (first :: rest) (mkRepositoryBatch hw e batch) with
    | Ok (n, batch') => (0 < n <= length (first :: rest))%nat /\
        let '(r, s2) := stream_commit_batch (rb_wal batch') s1 in
        rb_hardware_id batch' = hw /\ rb_boot_epoch batch' = e /\
        match r with
        | Ok _ => stream_holds base true s2 (log ++ map capture_record_of (map pe_record (take n (first :: rest))))
        | Err _ => stream_holds base true s2 log
        | Panic => False
        end
    | Err (Preparation _) => stream_holds base true s1 log
    | _ => False
    end
| (Err _, s1) => stream_holds base true s1 log
| (Panic, _) => False
end.
Proof.
intros Hbase Hs Hval Hh He Hfit. set (envelopes := first :: rest) in *.
pose proof (stream_begin_ok base Hbase true s log Hs (stream_fits_prefix base _ _ Hfit)) as Hbegin.
destruct (stream_begin_batch s) as [[batch|err|] s1]; [|exact Hbegin|exact Hbegin].
destruct Hbegin as (Hbatch & Hopen). pose proof Hbatch as (segs & c & a & rs & Hs1 & Hlog & Hk & Hg).
destruct (stream_config base Hbase _ _ _ _ _ _ _ Hs1) as (Hc & _). split; [exact (st_base _ _ _ _ _ _ _ _ Hs1)|].
split; [exact Hbatch|].
assert (Hfits : fits c (rs ++ map capture_record_of (map pe_record envelopes))).
{ apply (stream_fits_append base Hbase _ _ _ _ _ _ _ _ Hs1). unfold stream_log in *. rewrite app_assoc, Hlog. exact Hfit. }
apply fits_room in Hfits. rewrite length_app, !length_map in Hfits.
pose proof (stage_group_ok c Hc _ hw e 0 0 envelopes rs [] batch Hg Hopen) as Hstage. rewrite app_nil_r in Hstage.
specialize (Hstage Hfits Hval ltac:(done)).
destruct (stage_group 0 0 envelopes _) as [[n batch']|[err|k err]|]; [|by exists segs, c, a, rs, None|exact Hstage|exact Hstage].
destruct Hstage as (k & b' & -> & Hlen & -> & Hg' & Hpos). specialize (Hpos eq_refl first rest eq_refl Hh He).
cbn [Nat.add app rb_wal rb_hardware_id rb_boot_epoch] in *. split; [lia|].
pose proof (stream_commit_ok base Hbase true s1 log (map capture_record_of (map pe_record (take k envelopes))) b') as Hcommit.
destruct (stream_commit_batch b' s1) as [r s2]. split; [reflexivity|]. split; [reflexivity|]. apply Hcommit.
- exists segs, c, a, rs. split_and!; assumption.
- unfold envelopes. destruct k; [lia|done].
- rewrite <- (take_drop k envelopes), !map_app, app_assoc in Hfit. exact (stream_fits_prefix base _ _ Hfit).
Qed.

Lemma persist_group_ok self l envelopes :
repository_holds self l -> group_valid envelopes -> repository_admits (l ++ map pe_record envelopes) ->
match persist_group envelopes self with
| (Ok n, self') => (0 < n <= length envelopes)%nat /\ repository_holds self' (l ++ map pe_record (take n envelopes))
| (Err (Commit n _), self') => (0 < n <= length envelopes)%nat /\ repository_holds self' l
| (Err (Preparation _), self') => repository_holds self' l
| (Panic, _) => False
end.
Proof.
intros Hself (Hne & Hval & hw & e & start & end_ & Hchain) Hadm. destruct envelopes as [|first rest]; [done|].
pose proof (chained_streams _ _ _ _ _ Hchain) as Hstreams. pose proof (List.Forall_inv Hstreams) as Hfirst. cbv beta in Hfirst.
injection Hfirst as Hh He. unfold persist_group, repository_group_sink. cbv [mbind st_bind].
set (envelopes := first :: rest) in *. rewrite Hh, He.
assert (Hrecs : forall k, Forall (fun r => record_stream r = (hw, e)) (map pe_record (take k envelopes))).
{ intros k. apply Forall_map. apply Forall_take. apply Forall_forall. intros x Hx.
  rewrite (envelope_stream x); [|by eapply Forall_forall]. pattern x. by eapply Forall_forall in Hx. }
unfold repository_begin_batch, zoom at 1. unfold id at 1. cbv [mbind st_bind]. unfold on_stream at 1.
destruct (position (is_stream hw e) (rp_streams self)) as [i|] eqn:Hpos; [|cbn [map_err]; exact Hself].
destruct (found_stream hw e self l i Hself Hpos) as (init & s & Hi & Hs & Hbase & Hconfig & Hholds). rewrite Hs.
assert (Hput : forall s' k, stream_holds (fst init) true s' (routed init l ++ map capture_record_of (map pe_record (take k envelopes))) ->
  repository_holds (set_stream i s' self) (l ++ map pe_record (take k envelopes))).
{ intros s' k. apply repository_updated; [exact Hself|exact Hi|]. rewrite Hconfig. apply Hrecs. }
assert (Hback : forall s', stream_holds (fst init) true s' (routed init l) -> repository_holds (set_stream i s' self) l).
{ intros s' Hs'. specialize (Hput s' 0%nat). cbn [take map] in Hput. rewrite !app_nil_r in Hput. exact (Hput Hs'). }
pose proof (group_on_stream (fst init) s (routed init l) hw e first rest Hbase Hholds Hval Hh He) as Hgroup.
specialize (Hgroup ltac:(apply (admitted_fits l (map pe_record envelopes) i init Hadm Hi); rewrite Hconfig;
  rewrite <- (firstn_all envelopes); apply Hrecs)). fold envelopes in Hgroup.
destruct (stream_begin_batch s) as [[batch|err|] s1]; cbn [map_err]; [|exact (Hback s1 Hgroup)|exact Hgroup].
destruct Hgroup as (Hbase1 & Hbatch & Hgroup). unfold mret, st_ret. cbn [fst snd map_err]. unfold lift at 1.
destruct (stage_group 0 0 envelopes _) as [[n batch']|[err|k err]|];
  [|exact (Hback s1 Hgroup)|destruct Hgroup|destruct Hgroup].
destruct Hgroup as (Hn & Hcommit). destruct (stream_commit_batch (rb_wal batch') s1) as [r s2] eqn:Hrun.
destruct Hcommit as (Hhw & He' & Hcommit). unfold zoom, id, repository_commit_batch, on_stream. rewrite Hhw, He'.
cbn [set_stream rp_streams]. rewrite (position_insert _ _ _ _ Hpos), list_lookup_insert_eq, Hrun.
- assert (Htwice : set_stream i s2 (set_stream i s1 self) = set_stream i s2 self).
  { unfold set_stream. cbn [rp_streams]. f_equal. apply list_insert_insert_eq. }
  destruct r as [[]|err|]; cbn [map_err]; rewrite ?Htwice; [|split; [exact Hn|exact (Hback s2 Hcommit)]|exact Hcommit].
  split; [exact Hn|exact (Hput s2 n Hcommit)].
- by eapply lookup_lt_Some.
- unfold is_stream, stream_hardware_id, stream_boot_epoch. rewrite Hbase1. injection Hconfig as -> ->.
  by rewrite bool_decide_eq_true_2, Z.eqb_refl.
Qed.

(** The repository keeps the promises of a channel's storage. *)
Program Definition repository_durable_sink : DurableSink CaptureRepository CaptureRepositoryError := {|
holds := repository_holds;
admits := repository_admits
|}.
Next Obligation. intros l l'. apply repository_admits_prefix. Qed.
Next Obligation.
intros s l r Hs Hr Hadm. pose proof (repository_persist_ok s l r Hs Hr Hadm) as H.
by destruct (persist_record r s) as [[x|err|] s'].
Qed.

Lemma repository_group_durable : GroupDurableSink (H0 := repository_durable_sink) CaptureRepository CaptureRepositoryError.
Proof.
intros s l envelopes Hs Hval Hadm. pose proof (persist_group_ok s l envelopes Hs Hval Hadm) as H.
destruct (persist_group envelopes s) as [[n|[err|n err]|] s']; [exact H|exact I|apply H|exact H].
Qed.
End Routing.

(** ** Properties *)

(** C37. The storage of a channel is atomic, stream by stream: on a repository
    whose streams hold, besides what they held at the start, exactly the
    channel's records of their own sensor and boot epoch, neither a single
    record nor a contiguous group makes anything panic; success reports how
    many records, at least one and a prefix of the group, their stream then
    holds durably; after any error every stream holds what it held (the records
    of a failed barrier being uncertain, but never counted); and records of a
    stream that is not configured are refused without touching anything. *)
Theorem repository_groups_atomic (inits : list (CaptureWalConfig * list CaptureRecord)) (self : CaptureRepository)
    (l : list PersistenceRecord) :
  Forall (fun init => typed (fst init)) inits -> NoDup (map (config_stream ∘ fst) inits) ->
  repository_holds inits self l ->
  (forall envelopes, group_valid envelopes -> repository_admits inits (l ++ map pe_record envelopes) ->
   match persist_group envelopes self with
   | (Ok n, self') =>
       (0 < n <= length envelopes)%nat /\ repository_holds inits self' (l ++ map pe_record (take n envelopes))
   | (Err (Commit n _), self') => (0 < n <= length envelopes)%nat /\ repository_holds inits self' l
   | (Err (Preparation _), self') => repository_holds inits self' l
   | (Panic, _) => False
   end) /\
  (forall r, persistable r -> repository_admits inits (l ++ [r]) ->
   match persist_record r self with
   | (Ok _, self') => repository_holds inits self' (l ++ [r])
   | (Err _, self') => repository_holds inits self' l
   | (Panic, _) => False
   end) /\
  forall r, record_stream r ∉ map (config_stream ∘ fst) inits ->
    persist_record r self = (Err (UnknownStream (record_hardware_id r) (record_boot_epoch r)), self).
Proof.
  intros Htyped Hkeys Hself. split; [|split].
  - intros envelopes. by apply persist_group_ok.
  - intros r. by apply repository_persist_ok.
  - intros r Hr. assert (Heq : persist_record r self = on_stream (record_hardware_id r) (record_boot_epoch r)
      (stream_stage (record_hardware_id r) (capture_record_of r)) self) by (destruct r; reflexivity).
    rewrite Heq. unfold on_stream. destruct (position _ (rp_streams self)) as [i|] eqn:Hpos; [|reflexivity].
    destruct (found_stream inits Htyped _ _ self l i Hself Hpos) as (init & _ & Hi & _ & _ & Hconfig & _).
    destruct Hr. apply list_elem_of_fmap. exists init. split; [exact (eq_sym Hconfig)|]. by eapply list_elem_of_lookup_2.
Qed.

(** *** A worker on the repository, and a write that fails *)

Definition sample_inits : list (CaptureWalConfig * list CaptureRecord) := [(sample_config, [])].
Definition sample_repository : CaptureRepository := mkRepository [sample_stream].

Lemma sample_inits_typed : Forall (fun init => typed (fst init)) sample_inits.
Proof. repeat constructor; exact sample_config_typed || apply sample_config_typed. Qed.

Lemma sample_inits_keys : NoDup (map (config_stream ∘ fst) sample_inits).
Proof. apply NoDup_singleton. Qed.

Lemma sample_repository_holds : repository_holds sample_inits sample_repository [].
Proof.
  constructor; [|constructor]. pose proof (stream_open_new sample_config sample_config_typed sample_directory
    sample_directory_empty ltac:(vm_compute; reflexivity)) as H. rewrite sample_stream_opened in H. exact H.
Qed.

Definition break_envelope : PersistenceEnvelope :=
  mkEnvelope (RecordContinuityBreak (mkBreak window_hw window_epoch 22 SensorReadUncertain))
    (mkReceipt window_hw window_epoch 23).

Lemma sample_group_valid : group_valid [gap_envelope; chunk_envelope; break_envelope].
Proof.
  split; [done|]. split.
  - repeat apply List.Forall_cons; try apply List.Forall_nil; (split; [typed_by_compute|reflexivity]).
  - exists window_hw, window_epoch, 17, 23. repeat (apply chained_cons; [vm_compute; reflexivity|]). apply chained_nil.
Qed.

Lemma repository_groups_atomic_witness :
  exists self', persist_group [gap_envelope; chunk_envelope; break_envelope] sample_repository = (Ok 2%nat, self') /\
    repository_holds sample_inits self' [pe_record gap_envelope; pe_record chunk_envelope].
Proof.
  destruct (repository_groups_atomic sample_inits sample_repository [] sample_inits_typed sample_inits_keys
    sample_repository_holds) as (H & _).
  specialize (H _ sample_group_valid ltac:(repeat constructor; vm_compute; reflexivity)).
  assert (Hok : fst (persist_group [gap_envelope; chunk_envelope; break_envelope] sample_repository) = Ok 2%nat)
    by (vm_compute; reflexivity).
  destruct (persist_group _ sample_repository) as [r self']. cbn [fst] in Hok. subst r. exists self'. split; [reflexivity|].
  exact (proj2 H).
Defined.

#[local] Instance sample_repository_storage : DurableSink CaptureRepository CaptureRepositoryError :=
  repository_durable_sink sample_inits sample_inits_typed sample_inits_keys.
#[local] Instance sample_repository_groups : GroupDurableSink CaptureRepository CaptureRepositoryError :=
  repository_group_durable sample_inits sample_inits_typed sample_inits_keys.

Definition grouped0 : GroupedPersistenceWorker CaptureRepository CaptureRepositoryError :=
  mkGrouped sample_repository 4 8 1 [] [] [] false.
Definition grouped1 := snd (submit_record gap_envelope grouped0).
Definition grouped2 := snd (submit_record chunk_envelope grouped1).
Definition grouped3 := snd (submit_record break_envelope grouped2).
(** The group ends with the window; the write of the next one fails. *)
Definition grouped4 := snd (process_one_group grouped3).
Definition grouped5 := snd (process_one_group grouped4).

Definition sample_jobs : list WriteJob := [mkJob 1 gap_envelope; mkJob 2 chunk_envelope; mkJob 3 break_envelope].

Lemma sample_jobs_admitted : admits (S:=CaptureRepository) ([] ++ map job_record sample_jobs).
Proof. repeat constructor; vm_compute; reflexivity. Qed.

Lemma grouped5_reachable : grouped_reachable [] (mkGroupedState grouped5 sample_jobs []).
Proof.
  destruct sample_group_valid as (_ & Hval & _). apply Forall_cons_1 in Hval as (H1 & Hval).
  apply Forall_cons_1 in Hval as (H2 & Hval). apply Forall_cons_1 in Hval as (H3 & _).
  eapply (grouped_next _ (mkGroupedState grouped4 sample_jobs []));
    [|apply (grouped_processes _ _ _ _ 1 _ sample_jobs_admitted); vm_compute; reflexivity].
  eapply (grouped_next _ (mkGroupedState grouped3 sample_jobs []));
    [|apply (grouped_processes _ _ _ _ 2 _ sample_jobs_admitted); vm_compute; reflexivity].
  eapply (grouped_next _ (mkGroupedState grouped2 _ []));
    [|apply (grouped_submits _ _ (take 2 sample_jobs) [] break_envelope 3 _ H3); vm_compute; reflexivity].
  eapply (grouped_next _ (mkGroupedState grouped1 _ []));
    [|apply (grouped_submits _ _ (take 1 sample_jobs) [] chunk_envelope 2 _ H2); vm_compute; reflexivity].
  eapply (grouped_next _ (mkGroupedState grouped0 [] []));
    [|apply (grouped_submits _ _ [] [] gap_envelope 1 _ H1); vm_compute; reflexivity].
  apply (grouped_start _ sample_repository 4 8); [exact sample_repository_holds|reflexivity].
Qed.

Lemma group_commit_exactly_once_witness :
  gw_faulted grouped5 = true /\
  exists settled, sample_jobs = settled ++ grouped_open grouped5 /\
    confirmed (gw_completions grouped5) = map (fun j => (job_id j, pe_receipt (job_envelope j))) settled /\
    gw_failed_group grouped5 = [mkJob 3 break_envelope].
Proof.
  split; [vm_compute; reflexivity|].
  destruct (group_commit_exactly_once [] _ grouped5_reachable) as (settled & Hacc & _ & Hconf & _).
  exists settled. split; [exact Hacc|]. split; [exact Hconf|vm_compute; reflexivity].
Defined.
