(* ===== verification/SafeState.v ===== *)
(** * Safe-state convergence (crates/sensor-host/src/safe_state.rs, the
      [SafeStateConverger])

    The channel owner asks for a quiescent runtime state; the converger chooses
    the next lifecycle command from the last observed state, counts failures,
    escalates to a restart of the node and finally gives up. It owns no clock
    and no wire: [next_action] picks a command, [complete] and [fail] report
    what the node answered. *)

From S2P Require Export Prelude.
From S2P Require Import LifecycleWire.

Module Target.
Inductive SafeStateTarget := Idle | Maintenance | Recording.
End Target.

Module Action.
Inductive SafeStateAction :=
| GetState | Start | Stop | EnterMaintenance | ExitMaintenance | Restart.
End Action.

Export Target(SafeStateTarget).
Export Action(SafeStateAction).

#[export] Instance SafeStateTarget_eq_dec : EqDecision SafeStateTarget.
Proof. solve_decision. Defined.
#[export] Instance SafeStateAction_eq_dec : EqDecision SafeStateAction.
Proof. solve_decision. Defined.

Inductive SafeStateStatus :=
| Converging
| Reached (target : SafeStateTarget)
| ConvergenceFailed
| Offline.

#[export] Instance SafeStateStatus_eq_dec : EqDecision SafeStateStatus.
Proof. solve_decision. Defined.

Inductive SafeStateError :=
| ZeroOrderlyAttempts
| ZeroRestartAttempts
| ZeroRestartCycles
| ActionAlreadyPending
| NoPendingAction
| WrongCompletion (expected received : SafeStateAction).

Record SafeStatePolicy := mkSafeStatePolicy {
  orderly_attempts : Z;
  restart_attempts : Z;
  restart_cycles : Z;
}.

#[export] Instance SafeStatePolicy_typed : Typed SafeStatePolicy := fun p =>
  u8 (orderly_attempts p) /\ u8 (restart_attempts p) /\ u8 (restart_cycles p).

Definition safe_state_policy_validate (p : SafeStatePolicy) :
    outcome SafeStateError SafeStatePolicy :=
  if orderly_attempts p =? 0 then Err ZeroOrderlyAttempts
  else if restart_attempts p =? 0 then Err ZeroRestartAttempts
  else if restart_cycles p =? 0 then Err ZeroRestartCycles
  else Ok p.

Record SafeStateConverger := mkConverger {
  target : SafeStateTarget;
  safe_state_policy : SafeStatePolicy;
  observed : option RuntimeState;
  pending_action : option SafeStateAction;
  orderly_failures : Z;
  restart_failures : Z;
  completed_restart_cycles : Z;
  status : SafeStateStatus;
}.

Definition converger_new (t : SafeStateTarget) (p : SafeStatePolicy) :
    outcome SafeStateError SafeStateConverger :=
  (fun p => mkConverger t p None None 0 0 0 Converging) <$> safe_state_policy_validate p.

Abbreviation conv := (st SafeStateConverger SafeStateError).

Definition set_status (x : SafeStateStatus) (c : SafeStateConverger) : SafeStateConverger :=
  mkConverger (target c) (safe_state_policy c) (observed c) (pending_action c)
    (orderly_failures c) (restart_failures c) (completed_restart_cycles c) x.

Definition set_pending_action (x : option SafeStateAction) (c : SafeStateConverger) :
    SafeStateConverger :=
  mkConverger (target c) (safe_state_policy c) (observed c) x
    (orderly_failures c) (restart_failures c) (completed_restart_cycles c) (status c).

(** What [next_action] decides for a converging controller without a pending
    action: the command to issue, or the status that ends the convergence. *)
Definition decide_action (c : SafeStateConverger) : SafeStateAction + SafeStateStatus :=
  if orderly_attempts (safe_state_policy c) <=? orderly_failures c then
    if restart_cycles (safe_state_policy c) <=? completed_restart_cycles c
    then inr ConvergenceFailed
    else inl Action.Restart
  else
    match observed c, target c with
    | None, _ => inl Action.GetState
    | Some Idle, Target.Idle => inr (Reached Target.Idle)
    | Some Maintenance, Target.Maintenance => inr (Reached Target.Maintenance)
    | Some Recording, Target.Recording => inr (Reached Target.Recording)
    | Some Idle, Target.Recording => inl Action.Start
    | Some Idle, _ => inl Action.EnterMaintenance
    | Some Maintenance, _ => inl Action.ExitMaintenance
    | Some (Recording | Stopping), _ => inl Action.Stop
    | Some Faulted, _ => inl Action.Restart
    end.

Definition next_action : conv (option SafeStateAction) :=
  c ← get;
  if is_some (pending_action c) then throw ActionAlreadyPending
  else if negb (bool_decide (status c = Converging)) then mret None
  else
    match decide_action c with
    | inr s => modify (set_status s);; mret None
    | inl a => modify (set_pending_action (Some a));; mret (Some a)
    end.

Definition take_pending (a : SafeStateAction) : conv unit :=
  c ← get;
  match pending_action c with
  | Some expected =>
      if decide (expected = a) then modify (set_pending_action None)
      else throw (WrongCompletion expected a)
  | None => throw NoPendingAction
  end.

Definition complete (a : SafeStateAction) (state : RuntimeState) : conv unit :=
  take_pending a;;
  modify (fun c =>
    if decide (a = Action.Restart)
    then mkConverger (target c) (safe_state_policy c) None (pending_action c) 0 0
           (saturating_add 8 (completed_restart_cycles c) 1) (status c)
    else mkConverger (target c) (safe_state_policy c) (Some state) (pending_action c) 0
           (restart_failures c) (completed_restart_cycles c) (status c)).

Definition fail (a : SafeStateAction) : conv unit :=
  take_pending a;;
  modify (fun c =>
    if decide (a = Action.Restart)
    then
      let failures := saturating_add 8 (restart_failures c) 1 in
      mkConverger (target c) (safe_state_policy c) (observed c) (pending_action c)
        (orderly_failures c) failures (completed_restart_cycles c)
        (if restart_attempts (safe_state_policy c) <=? failures then Offline else status c)
    else mkConverger (target c) (safe_state_policy c) (observed c) (pending_action c)
           (saturating_add 8 (orderly_failures c) 1) (restart_failures c)
           (completed_restart_cycles c) (status c)).

Definition fall_back_to_idle : conv unit :=
  c ← get;
  if is_some (pending_action c) then throw ActionAlreadyPending
  else if bool_decide (status c = Offline) then mret tt
  else modify (fun c =>
         mkConverger Target.Idle (safe_state_policy c) (observed c) (pending_action c) 0
           (restart_failures c) (completed_restart_cycles c) Converging).

(** ** The command on the wire and the answers that complete it *)

Definition safe_runtime_operation (a : SafeStateAction) : RuntimeOperation :=
  match a with
  | Action.GetState => GetState
  | Action.Start => StartRecording
  | Action.Stop => StopRecording
  | Action.EnterMaintenance => EnterMaintenance
  | Action.ExitMaintenance => ExitMaintenance
  | Action.Restart => RestartNode
  end.

Definition runtime_result_matches_action (a : SafeStateAction) (s : RuntimeState) : bool :=
  match a with
  | Action.GetState | Action.Restart => true
  | Action.Start => bool_decide (s = Recording)
  | Action.Stop | Action.ExitMaintenance => bool_decide (s = Idle)
  | Action.EnterMaintenance => bool_decide (s = Maintenance)
  end.

(** One round of the channel worker: the next command and its answer, [None]
    for a timeout, a rejected command or a failed post-restart handshake; an
    answer in a state the command does not lead to is a failure too. *)
Definition report (a : SafeStateAction) (answer : option RuntimeState) : conv unit :=
  match answer with
  | Some s => if runtime_result_matches_action a s then complete a s else fail a
  | None => fail a
  end.

Definition round (answer : option RuntimeState) : conv unit :=
  next ← next_action;
  match next with
  | Some a => report a answer
  | None => mret tt
  end.

Fixpoint converge (answers : list (option RuntimeState)) : conv unit :=
  match answers with
  | [] => mret tt
  | answer :: rest => round answer;; converge rest
  end.

(** ** The ranking argument *)

Definition faulted_answers (answers : list (option RuntimeState)) : Z :=
  Z.of_nat (length (filter (.= Some Faulted) answers)).

(** Commands still needed when every answer succeeds. *)
Definition distance (c : SafeStateConverger) : Z :=
  match observed c, target c with
  | None, _ => 3
  | Some Idle, Target.Idle => 0
  | Some Idle, _ => 1
  | Some Maintenance, Target.Maintenance => 0
  | Some Maintenance, Target.Idle => 1
  | Some Maintenance, Target.Recording => 2
  | Some Recording, Target.Recording => 0
  | Some (Recording | Stopping), Target.Idle => 1
  | Some (Recording | Stopping), _ => 2
  | Some Faulted, _ => 0
  end.

Definition observed_fault (c : SafeStateConverger) : Z :=
  if decide (observed c = Some Faulted) then 1 else 0.

(** Rounds of one boot of the node. *)
Definition cycle_rounds (p : SafeStatePolicy) : Z :=
  3 * (orderly_attempts p + 1) + orderly_attempts p + restart_attempts p + 1.

(** Restarts the run may still see, and rounds left in this boot. *)
Definition restarts_left (c : SafeStateConverger) (faults : Z) : Z :=
  Z.max 0 (restart_cycles (safe_state_policy c) - completed_restart_cycles c)
  + faults + observed_fault c.

Definition rounds_left (c : SafeStateConverger) : Z :=
  let p := safe_state_policy c in
  distance c * (orderly_attempts p + 1) + (orderly_attempts p - orderly_failures c)
  + (restart_attempts p - restart_failures c).

Definition rank (c : SafeStateConverger) (faults : Z) : Z :=
  restarts_left c faults * cycle_rounds (safe_state_policy c) + rounds_left c.

(** The counters of a converging controller between two rounds, and what its
    status says about the last observation. *)
Record converger_wf (c : SafeStateConverger) : Prop := {
  wf_policy : typed (safe_state_policy c);
  wf_no_pending : pending_action c = None;
  wf_orderly : 0 <= orderly_failures c <= orderly_attempts (safe_state_policy c);
  wf_orderly_attempts : 0 < orderly_attempts (safe_state_policy c);
  wf_restart : 0 <= restart_failures c < restart_attempts (safe_state_policy c);
  wf_cycles : u8 (completed_restart_cycles c);
}.

Lemma converger_new_wf t p c :
  typed p -> converger_new t p = Ok c ->
  converger_wf c /\ status c = Converging /\ safe_state_policy c = p /\
  forall faults, rank c faults = (restart_cycles p + faults + 1) * cycle_rounds p - 1.
Proof.
  intros Ht. unfold converger_new, safe_state_policy_validate. intros H. run_in H. subst c.
  destruct Ht as (Ha & Hr & Hc). split; [|split_and!; [done..|]].
  - split; cbn; [done..| | | |]; ilia.
  - intros faults. unfold rank, restarts_left, rounds_left, distance, observed_fault, cycle_rounds. cbn.
    rewrite decide_False by done. rewrite Z.max_r by ilia. lia.
Qed.

Lemma distance_bounds c : 0 <= distance c <= 3.
Proof. unfold distance. destruct (observed c) as [[]|], (target c); lia. Qed.

Lemma observed_fault_bounds c : 0 <= observed_fault c <= 1.
Proof. unfold observed_fault. case_decide; lia. Qed.

Lemma cycle_rounds_nonneg c : converger_wf c -> 0 <= cycle_rounds (safe_state_policy c).
Proof. intros [(?&?&?) ? ? ? ? ?]. unfold cycle_rounds. ilia. Qed.

Lemma rounds_left_bounds c :
  converger_wf c -> 0 <= rounds_left c < cycle_rounds (safe_state_policy c).
Proof.
  intros [(?&?&?) ? ? ? ? ?]. unfold rounds_left, cycle_rounds.
  pose proof (distance_bounds c).
  pose proof (Z.mul_nonneg_nonneg (distance c) (orderly_attempts (safe_state_policy c) + 1)).
  pose proof (Z.mul_le_mono_nonneg_r (distance c) 3 (orderly_attempts (safe_state_policy c) + 1)).
  ilia.
Qed.

Lemma restarts_left_nonneg c faults : 0 <= faults -> 0 <= restarts_left c faults.
Proof. intros. unfold restarts_left. pose proof (observed_fault_bounds c). lia. Qed.

Lemma rank_nonneg c faults : converger_wf c -> 0 <= faults -> 0 <= rank c faults.
Proof.
  intros Hwf ?. unfold rank. pose proof (rounds_left_bounds c Hwf).
  apply Z.add_nonneg_nonneg; [apply Z.mul_nonneg_nonneg|];
    auto using restarts_left_nonneg, cycle_rounds_nonneg; lia.
Qed.

(** What a round may do to a converging controller that keeps converging: its
    rank falls, the faults counted being those of the answers still to come. *)
Definition progresses (c c' : SafeStateConverger) (faults faults' : Z) : Prop :=
  converger_wf c' /\ safe_state_policy c' = safe_state_policy c /\ status c' = Converging /\
  rank c' faults' < rank c faults.

(** Within one boot the rounds left fall; a completed restart starts a new boot
    with one restart less to come. *)
Lemma progresses_within_boot c c' faults faults' :
  converger_wf c -> converger_wf c' -> safe_state_policy c' = safe_state_policy c ->
  status c' = Converging ->
  restarts_left c' faults' <= restarts_left c faults -> rounds_left c' < rounds_left c ->
  progresses c c' faults faults'.
Proof.
  intros Hwf Hwf' Hp Hs Hr Hl. split_and!; [done..|]. unfold rank. rewrite Hp.
  pose proof (cycle_rounds_nonneg c Hwf).
  pose proof (Z.mul_le_mono_nonneg_r _ _ _ (cycle_rounds_nonneg c Hwf) Hr). lia.
Qed.

Lemma progresses_next_boot c c' faults faults' :
  converger_wf c -> converger_wf c' -> safe_state_policy c' = safe_state_policy c ->
  status c' = Converging ->
  restarts_left c' faults' < restarts_left c faults -> progresses c c' faults faults'.
Proof.
  intros Hwf Hwf' Hp Hs Hr. split_and!; [done..|]. unfold rank. rewrite Hp.
  pose proof (cycle_rounds_nonneg c Hwf) as Hc.
  assert (restarts_left c' faults' + 1 <= restarts_left c faults) as Hr' by lia.
  pose proof (Z.mul_le_mono_nonneg_r _ _ _ Hc Hr').
  pose proof (rounds_left_bounds c Hwf). pose proof (rounds_left_bounds c' Hwf') as Hb.
  rewrite Hp in Hb. lia.
Qed.

(** A failed command moves one counter. *)
Lemma fail_progresses a c faults faults' :
  converger_wf c -> status c = Converging -> decide_action c = inl a ->
  0 <= faults' <= faults ->
  exists c', fail a (set_pending_action (Some a) c) = (Ok tt, c') /\
    (status c' <> Converging \/ progresses c c' faults faults').
Proof.
  intros Hwf Hs Hd Hf. pose proof Hwf as [(?&?&?) Hn Ho Hoa Hr Hc]. unfold fail, take_pending.
  st_eval. cbn [pending_action set_pending_action]. rewrite decide_True by done.
  eexists. split; [done|]. case_decide as Ha; cbn.
  - destruct (_ <=? _) eqn:Hl; [left; done|right; to_prop]. unfold saturating_add in *.
    apply progresses_within_boot; [done|split; cbn; [done..| |done]|done..| |]; cbn.
    + ilia.
    + unfold restarts_left, observed_fault; cbn. lia.
    + unfold rounds_left, distance; cbn. ilia.
  - right. assert (orderly_failures c < orderly_attempts (safe_state_policy c)).
    { unfold decide_action in Hd. destruct (_ <=? _) eqn:Hl; [|by to_prop].
      destruct (_ <=? _) in Hd; congruence. }
    unfold saturating_add.
    apply progresses_within_boot; [done|split; cbn; [done..| |done|done|done]|done..| |]; cbn.
    + ilia.
    + unfold restarts_left, observed_fault; cbn. lia.
    + unfold rounds_left, distance; cbn. ilia.
Qed.

Definition fault_of (s : RuntimeState) : Z := if decide (s = Faulted) then 1 else 0.

(** A completed command that is not a restart brings the node nearer. *)
Lemma decide_action_distance a s c :
  decide_action c = inl a -> a <> Action.Restart -> runtime_result_matches_action a s = true ->
  forall c', observed c' = Some s -> target c' = target c ->
  distance c' < distance c /\ observed_fault c = 0 /\ observed_fault c' = fault_of s.
Proof.
  unfold decide_action, distance, observed_fault, fault_of. intros Hd Ha Hm c' -> ->.
  destruct (_ <=? _) in Hd; [destruct (_ <=? _) in Hd; congruence|].
  destruct (observed c) as [[]|], (target c); simplify_eq/=; to_prop;
    destruct s; simplify_eq/=; repeat case_decide; simplify_eq/=; lia.
Qed.

(** A restart is chosen for a fault, or while restarts remain. *)
Lemma decide_action_restart c :
  decide_action c = inl Action.Restart ->
  observed_fault c = 1 \/ completed_restart_cycles c < restart_cycles (safe_state_policy c).
Proof.
  unfold decide_action, observed_fault. intros Hd.
  destruct (_ <=? _) in Hd.
  - destruct (_ <=? _) eqn:Hc in Hd; [done|]. to_prop. lia.
  - destruct (observed c) as [[]|], (target c); try done; case_decide; naive_solver.
Qed.

Lemma complete_progresses a s c faults faults' :
  converger_wf c -> status c = Converging -> decide_action c = inl a ->
  runtime_result_matches_action a s = true ->
  faults' + fault_of s = faults ->
  exists c', complete a s (set_pending_action (Some a) c) = (Ok tt, c') /\
    progresses c c' faults faults'.
Proof.
  intros Hwf Hs Hd Hm <-. pose proof Hwf as [(?&?&?) Hn Ho Hoa Hr Hc].
  unfold complete, take_pending.
  st_eval. cbn [pending_action set_pending_action]. rewrite decide_True by done.
  eexists. split; [done|]. case_decide as Ha; cbn.
  - subst a. apply decide_action_restart in Hd. unfold saturating_add.
    apply progresses_next_boot; [done|split; cbn; [done..| |done| |]|done..|]; cbn; try ilia.
    unfold restarts_left, fault_of. pose proof (observed_fault_bounds c).
    change (observed_fault (mkConverger _ _ None _ _ _ _ _)) with 0.
    cbn [safe_state_policy completed_restart_cycles]. case_decide; destruct Hd; ilia.
  - destruct (decide_action_distance a s c Hd Ha Hm (mkConverger (target c)
      (safe_state_policy c) (Some s) None 0 (restart_failures c)
      (completed_restart_cycles c) (status c))) as (Hdist & Hf & Hf'); [done..|].
    apply progresses_within_boot; [done|split; cbn; [done..| |done|done|done]|done..| |]; cbn.
    + lia.
    + unfold restarts_left. rewrite Hf, Hf'. cbn. lia.
    + unfold rounds_left. cbn [safe_state_policy restart_failures orderly_failures].
      set (d' := distance _) in *. nia.
Qed.

(** ** Convergence *)

Lemma faulted_answers_cons answer answers :
  faulted_answers (answer :: answers) =
  faulted_answers answers + (if decide (answer = Some Faulted) then 1 else 0).
Proof. unfold faulted_answers. rewrite filter_cons. case_decide; cbn; lia. Qed.

Lemma faulted_answers_nonneg answers : 0 <= faulted_answers answers.
Proof. unfold faulted_answers. lia. Qed.

(** A round whose command is decided: it ends the convergence or lowers the
    rank, whatever the node answers. *)
Lemma round_progresses answer answers c :
  converger_wf c -> status c = Converging ->
  exists c', round answer c = (Ok tt, c') /\
    (status c' <> Converging \/
     progresses c c' (faulted_answers (answer :: answers)) (faulted_answers answers)).
Proof.
  intros Hwf Hs. pose proof (wf_no_pending c Hwf) as Hn.
  pose proof (faulted_answers_nonneg answers) as Hf.
  rewrite faulted_answers_cons. unfold round, next_action. st_eval.
  rewrite Hn, Hs. cbn [is_some]. rewrite bool_decide_eq_true_2 by done.
  destruct (decide_action c) as [a|s] eqn:Hd.
  - unfold report. destruct answer as [s|].
    + destruct (runtime_result_matches_action a s) eqn:Hm.
      * destruct (complete_progresses a s c _ (faulted_answers answers) Hwf Hs Hd Hm eq_refl)
          as (c' & -> & Hp).
        exists c'. split; [done|right].
        replace (if decide (Some s = Some Faulted) then 1 else 0) with (fault_of s); [done|].
        unfold fault_of. repeat case_decide; naive_solver.
      * eapply fail_progresses in Hd as (c' & -> & Hp); [exists c'; split; [done|exact Hp]|done..|].
        case_decide; lia.
    + eapply fail_progresses in Hd as (c' & -> & Hp); [exists c'; split; [done|exact Hp]|done..|].
      case_decide; lia.
  - eexists. split; [done|]. left. cbn. unfold decide_action in Hd.
    repeat split_guard_in Hd; congruence.
Qed.

(** The stable state a target names. *)
Definition target_state (t : SafeStateTarget) : RuntimeState :=
  match t with
  | Target.Idle => Idle
  | Target.Maintenance => Maintenance
  | Target.Recording => Recording
  end.

(** Between rounds: no command is pending, and success is claimed only for the
    requested target, on the node's own last report. *)
Definition honest (t : SafeStateTarget) (c : SafeStateConverger) : Prop :=
  pending_action c = None /\ target c = t /\
  forall t', status c = Reached t' -> t' = t /\ observed c = Some (target_state t).

Lemma decide_action_honest c t :
  decide_action c = inr (Reached t) -> t = target c /\ observed c = Some (target_state t).
Proof.
  unfold decide_action. intros Hd. destruct (_ <=? _) in Hd; [by destruct (_ <=? _) in Hd|].
  destruct (observed c) as [[]|], (target c); naive_solver.
Qed.

Lemma report_honest t a answer c c' :
  honest t c -> status c = Converging ->
  report a answer (set_pending_action (Some a) c) = (Ok tt, c') -> honest t c'.
Proof.
  intros (Hn & Ht & Hr) Hs H. unfold report in H.
  destruct answer as [s|]; [destruct (runtime_result_matches_action a s)|];
    unfold complete, fail, take_pending in H; st_unfold H;
    cbn [pending_action set_pending_action] in H; rewrite decide_True in H by done;
    injection H as <-; unfold honest; case_decide; cbn; split_and!; try done;
    try (destruct (_ <=? _)); intros ?; rewrite ?Hs; done.
Qed.

Lemma round_honest t answer c c' :
  honest t c -> round answer c = (Ok tt, c') -> honest t c'.
Proof.
  intros Hh H. pose proof Hh as (Hn & Ht & Hr). unfold round, next_action in H.
  st_unfold H. rewrite Hn in H. cbn [is_some] in H.
  case_bool_decide as Hs; cbn in H; [|by simplify_eq].
  destruct (decide_action c) as [a|s] eqn:Hd.
  - by eapply report_honest.
  - injection H as <-. unfold honest. cbn. split_and!; [done..|]. intros t' ->.
    apply decide_action_honest in Hd. naive_solver.
Qed.

Lemma round_decided a answer c :
  pending_action c = None -> status c = Converging -> decide_action c = inl a ->
  round answer c = report a answer (set_pending_action (Some a) c).
Proof.
  intros Hn Hs Hd. unfold round, next_action. st_eval. rewrite Hn, Hs, Hd. done.
Qed.

Lemma round_stable answer c :
  pending_action c = None -> status c <> Converging -> round answer c = (Ok tt, c).
Proof.
  intros Hn Hs. unfold round, next_action. st_eval. rewrite Hn. cbn.
  by rewrite bool_decide_eq_false_2.
Qed.

Lemma converge_stable answers c :
  pending_action c = None -> status c <> Converging -> converge answers c = (Ok tt, c).
Proof.
  intros Hn Hs. induction answers as [|answer answers IH]; cbn; [done|].
  st_eval. by rewrite round_stable.
Qed.

Lemma converge_settles t answers c :
  converger_wf c -> status c = Converging -> honest t c ->
  rank c (faulted_answers answers) < Z.of_nat (length answers) ->
  exists c', converge answers c = (Ok tt, c') /\ status c' <> Converging /\ honest t c'.
Proof.
  revert c. induction answers as [|answer answers IH]; intros c Hwf Hs Hh Hr.
  { pose proof (rank_nonneg c _ Hwf (faulted_answers_nonneg [])). cbn in *. lia. }
  destruct (round_progresses answer answers c Hwf Hs) as (c1 & Hc1 & Hc1s).
  pose proof (round_honest t _ _ _ Hh Hc1) as Hh1.
  cbn. st_eval. rewrite Hc1. destruct Hc1s as [Hs1|(Hwf1 & _ & Hs1 & Hr1)].
  - exists c1. split; [apply converge_stable; [apply Hh1|done]|done].
  - apply IH; [done..|]. cbn in Hr. lia.
Qed.

(** C18. Convergence terminates: with [A] orderly attempts, [R] restart attempts
    and [C] restart cycles, after at most [(C + f + 1) * (4 * A + R + 4)] rounds,
    whatever the node answers and however often it does not, where [f] counts
    the [GetState] answers that report a fault, no call failed and the
    controller is settled: the target is reached, on the node's own report of
    that state, or the node is given up as failed or offline; further rounds
    change nothing. *)
Theorem convergence_terminates (t : SafeStateTarget) (p : SafeStatePolicy)
    (c : SafeStateConverger) (answers : list (option RuntimeState)) :
  typed p -> converger_new t p = Ok c ->
  (restart_cycles p + faulted_answers answers + 1)
    * (4 * orderly_attempts p + restart_attempts p + 4) <= Z.of_nat (length answers) ->
  exists c', converge answers c = (Ok tt, c') /\
    (status c' = Reached t /\ observed c' = Some (target_state t) \/
     status c' = ConvergenceFailed \/ status c' = Offline) /\
    forall more, converge more c' = (Ok tt, c').
Proof.
  intros Ht Hnew Hlen. destruct (converger_new_wf t p c Ht Hnew) as (Hwf & Hs & Hp & Hrank).
  assert (honest t c) as Hh.
  { unfold converger_new in Hnew. destruct (safe_state_policy_validate p); [|done..].
    injection Hnew as <-. by split_and!. }
  destruct (converge_settles t answers c Hwf Hs Hh) as (c' & Hc & Hs' & Hn & _ & Hr).
  { rewrite Hrank. unfold cycle_rounds. lia. }
  exists c'. split; [done|]. split; [|intros; by apply converge_stable].
  destruct (status c') as [|t'| |]; [done| |auto..]. destruct (Hr t' eq_refl). naive_solver.
Qed.

(** A node that never answers, under one attempt of everything. *)
Lemma convergence_terminates_witness :
  exists c', converge (replicate 18 None)
      (mkConverger Target.Idle (mkSafeStatePolicy 1 1 1) None None 0 0 0 Converging) = (Ok tt, c') /\
    (status c' = Reached Target.Idle /\ observed c' = Some Idle \/
     status c' = ConvergenceFailed \/ status c' = Offline) /\
    forall more, converge more c' = (Ok tt, c').
Proof.
  apply (convergence_terminates Target.Idle (mkSafeStatePolicy 1 1 1)); [|done|done].
  repeat split; vm_compute; congruence.
Defined.

(** A node that reports a fault after every restart is restarted for ever:
    [restart_cycles] bounds only the restarts that failed commands ask for. *)
Lemma faulted_node_never_settles (t : SafeStateTarget) (p : SafeStatePolicy)
    (c : SafeStateConverger) (n : nat) :
  typed p -> converger_new t p = Ok c ->
  exists c', converge (concat (replicate n [Some Faulted; Some Idle])) c = (Ok tt, c') /\
    status c' = Converging.
Proof.
  intros ((Hp & _) & _) H. unfold converger_new, safe_state_policy_validate in H.
  run_in H. subst c. generalize 0 at 3 as cycles.
  assert ((orderly_attempts p <=? 0) = false) as Ha by (apply Z.leb_gt; lia).
  induction n as [|n IH]; intros cycles; [by eexists|].
  destruct (IH (saturating_add 8 cycles 1)) as (c' & Hc' & Hs). exists c'. split; [|done].
  rewrite <- Hc'. cbn [concat replicate app converge]. cbv [mbind st_bind].
  assert (round (Some Faulted) (mkConverger t p None None 0 0 cycles Converging) =
    (Ok tt, mkConverger t p (Some Faulted) None 0 0 cycles Converging)) as ->.
  { rewrite (round_decided Action.GetState); [done..|]. unfold decide_action. cbn. by rewrite Ha. }
  assert (round (Some Idle) (mkConverger t p (Some Faulted) None 0 0 cycles Converging) =
    (Ok tt, mkConverger t p None None 0 0 (saturating_add 8 cycles 1) Converging)) as ->.
  { rewrite (round_decided Action.Restart); [done..|]. unfold decide_action. cbn. by rewrite Ha. }
  done.
Qed.

Lemma faulted_node_never_settles_example :
  (snd (converge (concat (replicate 40 [Some Faulted; Some Idle]))
    (mkConverger Target.Maintenance (mkSafeStatePolicy 1 1 1) None None 0 0 0 Converging))) =
  mkConverger Target.Maintenance (mkSafeStatePolicy 1 1 1) None None 0 0 40 Converging.
Proof. reflexivity. Qed.
