(* ===== verification/Handshake.v ===== *)
(** * The node handshake (crates/sensor-host/src/handshake.rs)

    Before a node is used, its identity and then its capabilities are read and
    held against what the installation requires of it. *)

From S2P Require Export Identity Transaction.

Definition GET_IDENTITY_MESSAGE_ID : Z := 1.
Definition GET_CAPABILITIES_MESSAGE_ID : Z := 2.
Definition IDENTITY_SERVICE_ID : Z := service_code Application.Identity.

Record HandshakeRequirements := mkRequirements {
  req_hardware_id : HardwareId;
  req_node_address : Z;
  req_board_revision : Z;
  req_required_services : Z;
  req_required_features : Z;
  req_required_output_rate : option OutputRateCode;
  req_schema_1_migration_firmware : option FirmwareVersion
}.

#[export] Instance HandshakeRequirements_typed : Typed HandshakeRequirements := fun r =>
  hardware_id_typed (req_hardware_id r) /\ u8 (req_node_address r) /\
  u8 (req_board_revision r) /\ u32 (req_required_services r) /\ u64 (req_required_features r).

Definition recording_node (hardware_id : HardwareId) (node_address board_revision features : Z) :
    HandshakeRequirements :=
  mkRequirements hardware_id node_address board_revision
    (Z.lor (Z.lor (service_capability_bit Application.Identity)
                  (service_capability_bit Application.Measurement))
           (service_capability_bit Application.Lifecycle))
    features None None.

Definition for_schema_1_migration (firmware : FirmwareVersion) (r : HandshakeRequirements) :
    HandshakeRequirements :=
  mkRequirements (req_hardware_id r) (req_node_address r) (req_board_revision r)
    (req_required_services r) (req_required_features r) (req_required_output_rate r)
    (Some firmware).

Definition with_output_rate (rate : OutputRateCode) (r : HandshakeRequirements) :
    HandshakeRequirements :=
  mkRequirements (req_hardware_id r) (req_node_address r) (req_board_revision r)
    (req_required_services r) (req_required_features r) (Some rate)
    (req_schema_1_migration_firmware r).

Inductive HandshakePhase := NeedIdentity | NeedCapabilities | HandshakeReady.

#[export] Instance HandshakePhase_eq_dec : EqDecision HandshakePhase.
Proof. solve_decision. Defined.

Record NodeHandshake := mkHandshake {
  hs_requirements : HandshakeRequirements;
  hs_phase : HandshakePhase;
  hs_identity : option NodeIdentity;
  hs_capabilities : option NodeCapabilities
}.

Inductive HandshakeError :=
| HandshakeUnexpectedPhase
| HandshakeContract (error : IdentityContractError)
| HardwareIdMismatch
| NodeAddressMismatch
| BoardRevisionMismatch
| FirmwareVersionMismatch
| MissingServices (bits : Z)
| MissingFeatures (bits : Z)
| UnsupportedOutputRate (rate : OutputRateCode).

Abbreviation handshake := (st NodeHandshake HandshakeError).

Definition handshake_new (r : HandshakeRequirements) : NodeHandshake :=
  mkHandshake r NeedIdentity None None.

Definition accept_identity (payload : bytes) : handshake unit :=
  self ← get;
  let r := hs_requirements self in
  if negb (bool_decide (hs_phase self = NeedIdentity)) then throw HandshakeUnexpectedPhase
  else
    decoded ← lift (map_err HandshakeContract (identity_decode payload));
    node ← lift (map_err HandshakeContract (require_local_protocol decoded));
    if negb (bool_decide (id_hardware_id node = req_hardware_id r)) then throw HardwareIdMismatch
    else if negb (id_node_address node =? req_node_address r) then throw NodeAddressMismatch
    else if negb (id_board_revision node =? req_board_revision r) then throw BoardRevisionMismatch
    else modify (fun self => mkHandshake (hs_requirements self) NeedCapabilities (Some node)
                               (hs_capabilities self)).

(** The capabilities of a payload: schema 2, or schema 1 from the one firmware
    version that is being migrated. *)
Definition decode_capabilities (self : NodeHandshake) (payload : bytes) :
    outcome HandshakeError NodeCapabilities :=
  match capabilities_decode payload with
  | Ok capabilities => Ok capabilities
  | Panic => Panic
  | Err error =>
      match req_schema_1_migration_firmware (hs_requirements self) with
      | None => Err (HandshakeContract error)
      | Some expected =>
          if negb (bool_decide (id_firmware <$> hs_identity self = Some expected))
          then Err FirmwareVersionMismatch
          else map_err HandshakeContract (decode_schema_1_for_migration payload)
      end
  end.

Definition accept_capabilities (payload : bytes) : handshake unit :=
  self ← get;
  let r := hs_requirements self in
  if negb (bool_decide (hs_phase self = NeedCapabilities)) then throw HandshakeUnexpectedPhase
  else
    capabilities ← lift (decode_capabilities self payload);
    let missing_services :=
      Z.land (req_required_services r) (bit_not 32 (service_flags capabilities)) in
    let missing_features :=
      Z.land (req_required_features r) (bit_not 64 (feature_flags capabilities)) in
    if negb (missing_services =? 0) then throw (MissingServices missing_services)
    else if negb (missing_features =? 0) then throw (MissingFeatures missing_features)
    else
      _ ← match req_required_output_rate r with
          | Some rate =>
              if negb (supports_output_rate capabilities rate)
              then throw (UnsupportedOutputRate rate) else mret tt
          | None => mret tt
          end;
      modify (fun self => mkHandshake (hs_requirements self) HandshakeReady (hs_identity self)
                            (Some capabilities)).

Definition identity_request (node_address : Z) (timeout : DurationMicros) : RequestSpec :=
  mkRequestSpec node_address IDENTITY_SERVICE_ID GET_IDENTITY_MESSAGE_ID GET_IDENTITY_MESSAGE_ID
    timeout RetrySafe.

Definition capabilities_request (node_address : Z) (timeout : DurationMicros) : RequestSpec :=
  mkRequestSpec node_address IDENTITY_SERVICE_ID GET_CAPABILITIES_MESSAGE_ID
    GET_CAPABILITIES_MESSAGE_ID timeout RetrySafe.

(** ** Histories of a handshake *)

Inductive HandshakeCall := CallIdentity (payload : bytes) | CallCapabilities (payload : bytes).

Definition handshake_call (c : HandshakeCall) : handshake unit :=
  match c with
  | CallIdentity payload => accept_identity payload
  | CallCapabilities payload => accept_capabilities payload
  end.

Fixpoint handshake_run (cs : list HandshakeCall) (self : NodeHandshake) : NodeHandshake :=
  match cs with
  | [] => self
  | c :: cs => handshake_run cs (snd (handshake_call c self))
  end.

(** ** What a ready handshake has established *)

(** Every bit of [required] is set in [flags]. *)
Definition covers (flags required : Z) : Prop :=
  forall n, 0 <= n -> Z.testbit required n = true -> Z.testbit flags n = true.

Record identity_meets (r : HandshakeRequirements) (node : NodeIdentity) : Prop := {
  meets_hardware_id : id_hardware_id node = req_hardware_id r;
  meets_node_address : id_node_address node = req_node_address r;
  meets_board_revision : id_board_revision node = req_board_revision r;
  meets_protocol : id_protocol node = LOCAL_PROTOCOL_VERSION;
  meets_identity_valid : identity_validate node = Ok node
}.

Record capabilities_meet (r : HandshakeRequirements) (node : NodeIdentity) (c : NodeCapabilities)
    : Prop := {
  meets_schema :
    capabilities_validate c = Ok c \/
    schema_version c = 1 /\ validate_payload_contract c false = Ok c /\
    req_schema_1_migration_firmware r = Some (id_firmware node);
  meets_services : covers (service_flags c) (req_required_services r);
  meets_features : covers (feature_flags c) (req_required_features r);
  meets_rate : forall rate, req_required_output_rate r = Some rate ->
    supports_output_rate c rate = true
}.

(** The phase says which answers have been accepted. *)
Definition handshake_ok (r : HandshakeRequirements) (self : NodeHandshake) : Prop :=
  hs_requirements self = r /\
  match hs_phase self with
  | NeedIdentity => hs_identity self = None /\ hs_capabilities self = None
  | NeedCapabilities =>
      exists node, hs_identity self = Some node /\ hs_capabilities self = None /\
        identity_meets r node
  | HandshakeReady =>
      exists node c, hs_identity self = Some node /\ hs_capabilities self = Some c /\
        identity_meets r node /\ capabilities_meet r node c
  end.

(** ** Proofs *)

Lemma bit_not_testbit (w z n : Z) :
  0 <= n < w -> Z.testbit (bit_not w z) n = negb (Z.testbit z n).
Proof.
  intros Hn. unfold bit_not. rewrite Z.lxor_spec.
  replace (2 ^ w - 1) with (Z.ones w) by (rewrite Z.ones_equiv; lia).
  rewrite Z.ones_spec_low by lia. by destruct (Z.testbit z n).
Qed.

(** Nothing of [required] is missing from [flags]. *)
Lemma covers_intro (w flags required : Z) :
  0 <= w -> unsigned w required -> Z.land required (bit_not w flags) = 0 -> covers flags required.
Proof.
  intros Hw Hr Hl n Hn Hb. destruct (decide (n < w)) as [Hlt|].
  - apply (f_equal (fun z => Z.testbit z n)) in Hl.
    rewrite Z.land_spec, bit_not_testbit, Hb, Z.bits_0 in Hl by lia.
    by destruct (Z.testbit flags n).
  - rewrite <- (Z.mod_small required (2 ^ w)), Z.mod_pow2_bits_high in Hb by (done || lia). done.
Qed.

Lemma require_local_protocol_inv (i j : NodeIdentity) :
  require_local_protocol i = Ok j -> j = i /\ id_protocol i = LOCAL_PROTOCOL_VERSION.
Proof.
  unfold require_local_protocol, check_compatible. intros H.
  destruct (_ && _)%bool eqn:Hc; cbn in H; [|discriminate H]. to_prop. injection H as <-.
  split; [done|]. unfold LOCAL_PROTOCOL_VERSION in *.
  destruct (id_protocol i). cbn in *. naive_solver.
Qed.

Lemma decode_capabilities_inv (self : NodeHandshake) (payload : bytes) (c : NodeCapabilities) :
  decode_capabilities self payload = Ok c ->
  typed c /\
  (capabilities_validate c = Ok c \/
   schema_version c = 1 /\ validate_payload_contract c false = Ok c /\
   exists firmware, req_schema_1_migration_firmware (hs_requirements self) = Some firmware /\
     id_firmware <$> hs_identity self = Some firmware).
Proof.
  unfold decode_capabilities. intros H.
  destruct (capabilities_decode payload) as [c'| |] eqn:Hd; [|clear Hd|done].
  - injection H as <-. unfold capabilities_decode in Hd.
    apply outcome_bind_Ok in Hd as (c0 & [Ht _]%capabilities_fields_inv & Hv).
    pose proof (capabilities_validate_same _ _ Hv) as ->. auto.
  - destruct (req_schema_1_migration_firmware _) as [firmware|]; [|done].
    case_bool_decide as Hfw; [|done]. cbn in H. apply map_err_Ok in H.
    unfold decode_schema_1_for_migration in H.
    apply outcome_bind_Ok in H as (c0 & [Ht _]%capabilities_fields_inv & Hv).
    destruct (Z.eqb_spec (schema_version c0) 1) as [Hs|]; [|done]. cbn in Hv.
    pose proof (payload_contract_same _ _ _ Hv) as ->. eauto 10.
Qed.

Lemma decode_capabilities_no_panic (self : NodeHandshake) (payload : bytes) :
  no_panic (decode_capabilities self payload).
Proof.
  unfold decode_capabilities.
  assert (no_panic (capabilities_decode payload)) as Hp.
  { apply no_panic_bind; auto with rust. }
  destruct (capabilities_decode payload); [auto with rust| |done].
  destruct (req_schema_1_migration_firmware _); [|auto with rust].
  destruct (negb _); [auto with rust|]. apply no_panic_map_err. unfold decode_schema_1_for_migration.
  apply no_panic_bind; [auto with rust|]. intros c _. destruct (negb _); auto with rust.
Qed.
#[export] Hint Resolve decode_capabilities_no_panic : rust.

(** What one call may do: succeed and move on, or refuse the payload and leave
    the handshake as it was. *)
Definition handshake_sound (r : HandshakeRequirements) (m : handshake unit) : Prop :=
  forall self res self', handshake_ok r self -> m self = (res, self') ->
    handshake_ok r self' /\
    match res with Ok _ => True | Err _ => self' = self | Panic => False end.

Lemma accept_identity_sound (r : HandshakeRequirements) (payload : bytes) :
  handshake_sound r (accept_identity payload).
Proof.
  intros self res self' Hok H. pose proof Hok as (Hr & Hp). unfold accept_identity in H.
  autorewrite with st in H. case_bool_decide as Hn; cbn [negb] in H; [|by st_unfold H; simplify_eq].
  rewrite Hn in Hp. destruct Hp as (Hi & Hc).
  assert (no_panic (identity_decode payload)) as Hnp by apply identity_decode_no_panic.
  st_unfold H. destruct (identity_decode payload) as [i| |] eqn:Hd; [|by simplify_eq|done].
  destruct (require_local_protocol i) as [j| |] eqn:Hl;
    [|by simplify_eq|unfold require_local_protocol, check_compatible in Hl; by destruct (_ && _)%bool].
  apply require_local_protocol_inv in Hl as (-> & Hl).
  apply identity_decode_inv in Hd as (_ & Hv & _).
  st_run H; simplify_eq; try (split; done).
  split; [|done]. split; [done|]. cbn. rewrite Hc. eauto 10 using Build_identity_meets.
Qed.

Lemma accept_capabilities_sound (r : HandshakeRequirements) (payload : bytes) :
  typed r -> handshake_sound r (accept_capabilities payload).
Proof.
  intros (_ & _ & _ & Hs32 & Hf64) self res self' Hok H. pose proof Hok as (Hr & Hp).
  unfold accept_capabilities in H.
  autorewrite with st in H. case_bool_decide as Hn; cbn [negb] in H; [|by st_unfold H; simplify_eq].
  rewrite Hn in Hp. destruct Hp as (node & Hi & _ & Hm).
  pose proof (decode_capabilities_no_panic self payload) as Hnp.
  st_unfold H. rewrite Hr in H.
  destruct (decode_capabilities self payload) as [c| |] eqn:Hd; [|by simplify_eq|done].
  apply decode_capabilities_inv in Hd as (Ht & Hv). rewrite Hr, Hi in Hv.
  destruct (req_required_output_rate r) as [rate|] eqn:Hrate; st_run H; simplify_eq; try (split; done).
  all: split; [|done]; split; [done|]; cbn; exists node, c; split_and!; [done..|].
  all: split; [naive_solver|by apply (covers_intro 32)|by apply (covers_intro 64)|].
  all: intros rate' Hrate'; rewrite Hrate in Hrate'; naive_solver.
Qed.

Lemma handshake_call_sound (r : HandshakeRequirements) (c : HandshakeCall) :
  typed r -> handshake_sound r (handshake_call c).
Proof. destruct c; eauto using accept_identity_sound, accept_capabilities_sound. Qed.

Lemma handshake_call_moves (c : HandshakeCall) (self self' : NodeHandshake) :
  handshake_call c self = (Ok tt, self') -> hs_phase self' <> hs_phase self.
Proof.
  destruct c; cbn [handshake_call]; intros H.
  - unfold accept_identity in H. autorewrite with st in H.
    case_bool_decide as Hn; cbn [negb] in H; [|done]. st_run H; simplify_eq; by rewrite Hn.
  - unfold accept_capabilities in H. autorewrite with st in H.
    case_bool_decide as Hn; cbn [negb] in H; [|done].
    destruct (req_required_output_rate _); st_run H; simplify_eq; by rewrite Hn.
Qed.

Lemma handshake_run_ok (r : HandshakeRequirements) (cs : list HandshakeCall) (self : NodeHandshake) :
  typed r -> handshake_ok r self -> handshake_ok r (handshake_run cs self).
Proof.
  intros Ht. revert self. induction cs as [|c cs IH]; intros self Hok; [done|]. cbn.
  apply IH. destruct (handshake_call c self) as [res self'] eqn:Hc.
  by apply (handshake_call_sound r c Ht) in Hc as [].
Qed.

(** C20. A handshake is ready only for the node it requires: whatever payloads
    arrive in whatever order, a ready handshake holds an identity with the
    required hardware id, address and board revision and the host's protocol
    version, and capabilities that pass the capability checks (or schema 1 from
    exactly the firmware being migrated), offer every required service and
    feature bit and the required output rate; before that it never reports
    capabilities; and a refused payload changes nothing. *)
Theorem handshake_ready_exact (r : HandshakeRequirements) (cs : list HandshakeCall) :
  typed r ->
  let self := handshake_run cs (handshake_new r) in
  handshake_ok r self /\
  forall c, match handshake_call c self with
            | (Ok _, self') => hs_phase self' <> hs_phase self
            | (Err _, self') => self' = self
            | (Panic, _) => False
            end.
Proof.
  intros Ht self. assert (handshake_ok r self) as Hok by by apply handshake_run_ok.
  split; [done|]. intros c. destruct (handshake_call c self) as [res self'] eqn:Hc.
  destruct (handshake_call_sound r c Ht _ _ _ Hok Hc) as (_ & Hres).
  destruct res as [[]| |]; [|done..]. exact (handshake_call_moves c _ _ Hc).
Qed.

(** ** Witnesses *)

Definition golden_identity_payload : bytes :=
  literal
    [0x00; 0x2f; 0x13; 0x34; 0x94; 0x50; 0xfa; 0x40; 0x84; 0x88; 0x77; 0x66; 0x55; 0x44; 0x33; 0x22;
     0x11; 0x07; 0x02; 0x00; 0x05; 0x00; 0x03; 0x05].

Definition sample_requirements : HandshakeRequirements :=
  with_output_rate RateHz1000
    (mkRequirements (literal [0x2f; 0x13; 0x34; 0x94; 0x50; 0xfa; 0x40; 0x84]) 7 2 3 3 None None).

(** Capabilities out of order are refused, then the exchange completes; the
    capabilities of a recording node must also name the Lifecycle service. *)
Lemma handshake_ready_exact_witness :
  let self := handshake_run [CallCapabilities golden_capabilities_payload;
    CallIdentity golden_identity_payload; CallIdentity golden_identity_payload;
    CallCapabilities golden_capabilities_payload] (handshake_new sample_requirements) in
  hs_phase self = HandshakeReady /\ hs_capabilities self = Some golden_capabilities /\
  handshake_ok sample_requirements self /\
  fst (accept_capabilities golden_capabilities_payload (handshake_run
    [CallIdentity golden_identity_payload] (handshake_new (recording_node
      (req_hardware_id sample_requirements) 7 2 3)))) = Err (MissingServices 32).
Proof.
  split; [vm_compute; reflexivity|]. split; [vm_compute; reflexivity|].
  split; [|vm_compute; reflexivity].
  apply handshake_ready_exact. repeat split; vm_compute; congruence.
Defined.
