(* ===== verification/ControlOperation.v ===== *)
(** * Logical operations across wire transactions

    Lifecycle, configuration and commissioning requests
    (crates/sensor-host/src: lifecycle.rs, configuration.rs, commissioning.rs)
    are each one logical operation that may need several wire attempts: every
    retry gets a fresh transaction from the transaction core, and the operation
    keeps its own command. This file is what the three have in common: their
    phases, the interface [LogicalOperation] with its laws, and the histories
    the laws allow. *)

From S2P Require Export Transaction.

(** [LifecyclePhase], [ConfigurationPhase] and [CommissioningPhase] have the
    same five constructors. *)
Inductive OperationPhase :=
| ReadyToSend | AwaitingResponse | ReconcileRequired | OperationComplete | OperationFailed.

#[export] Instance OperationPhase_eq_dec : EqDecision OperationPhase.
Proof. solve_decision. Defined.

(** [phase == ReadyToSend || phase == ReconcileRequired]. *)
Definition sendable (p : OperationPhase) : bool :=
  bool_decide (p = ReadyToSend) || bool_decide (p = ReconcileRequired).

Lemma sendable_guard (p : OperationPhase) :
  negb (bool_decide (p = ReadyToSend)) && negb (bool_decide (p = ReconcileRequired))
  = negb (sendable p).
Proof. by destruct p. Qed.

(** ** Payload buffers *)

(** The length of what a chain of writes produces. *)
Ltac writes_length H :=
  repeat (let Hp := fresh "Hp" in apply outcome_bind_Ok in H as (? & Hp & H);
          try (unfold put1 in Hp; apply length_put in Hp));
  try (unfold put1 in H; apply length_put in H);
  repeat match goal with
  | Hl : length ?l = length _ |- context [length ?l] => rewrite Hl
  end; try reflexivity.

(** A payload copied to the front of a zeroed buffer. *)
Lemma padded_buffer (E : Type) (l : bytes) (n size : nat) :
  length l = n -> (n <= size)%nat ->
  exists buffer, put (E:=E) 0 n l (zeros size) = Ok buffer /\ length buffer = size.
Proof.
  intros Hl Hn. assert (length (zeros size) = size) as Hz by apply repeat_length.
  eexists. split; [apply put_first; [done|lia]|]. rewrite length_app, length_drop. lia.
Qed.

(** ** The interface *)

(** [O] the operation, [C] what it asks for and of whom, [A] an attempt on the
    wire, [R] what an answer means to the owner. *)
Class LogicalOperation (O C E A R : Type) := {
  op_phase : O -> OperationPhase;
  op_command : O -> C;
  op_unexpected : E;
  op_begin : DurationMicros -> st O E A;
  op_timeout : st O E unit;
  op_accept : bytes -> st O E R;
  op_wire : C -> DurationMicros -> outcome E A;
  op_terminal : R -> bool
}.
#[export] Hint Mode LogicalOperation ! - - - - : typeclass_instances.
Arguments op_unexpected O {C E A R _}.
Arguments op_wire O {C E A R _} c timeout.
Arguments op_terminal O {C E A R _} x.

(** Only the phase moves. [begin]: a sendable operation goes on the wire as its
    command says. [timeout]: an open attempt is closed. [accept]: an answer
    closes the open attempt; a terminal outcome completes the operation, another
    one allows the next attempt, and a refused answer ends the sending. *)
Record lawful_operation (O C E A R : Type) `{LogicalOperation O C E A R} : Prop := {
  law_begin (t : DurationMicros) (o o' : O) (r : outcome E A) : op_begin t o = (r, o') ->
    op_command o' = op_command o /\
    if sendable (op_phase o)
    then r = op_wire O (op_command o) t /\
         match r with Ok _ => op_phase o' = AwaitingResponse | _ => o' = o end
    else r = Err (op_unexpected O) /\ o' = o;
  law_timeout (o o' : O) (r : outcome E unit) : op_timeout o = (r, o') ->
    op_command o' = op_command o /\
    if decide (op_phase o = AwaitingResponse)
    then r = Ok tt /\ op_phase o' <> AwaitingResponse
    else r = Err (op_unexpected O) /\ o' = o;
  law_accept (payload : bytes) (o o' : O) (r : outcome E R) : op_accept payload o = (r, o') ->
    op_command o' = op_command o /\
    if decide (op_phase o = AwaitingResponse)
    then match r with
         | Ok x => if op_terminal O x then op_phase o' = OperationComplete
                   else sendable (op_phase o') = true
         | Err _ => sendable (op_phase o') = false
         | Panic => False
         end
    else r = Err (op_unexpected O) /\ o' = o
}.
Arguments lawful_operation O {C E A R _}.

(** ** Histories *)

Inductive OperationCall :=
| OpBegin (timeout : DurationMicros)
| OpTimeout
| OpAccept (payload : bytes).

Inductive OperationEvent (A R : Type) :=
| Attempted (timeout : DurationMicros) (attempt : A)
| GaveUp
| Answered (outcome : R).
Arguments Attempted {A R} timeout attempt.
Arguments GaveUp {A R}.
Arguments Answered {A R} outcome.

Section Histories.
Context {O C E A R : Type} `{LogicalOperation O C E A R}.

Definition operation_call (c : OperationCall) : st O E (OperationEvent A R) :=
  match c with
  | OpBegin t => a ← op_begin t; mret (Attempted t a)
  | OpTimeout => _ ← op_timeout; mret GaveUp
  | OpAccept payload => x ← op_accept payload; mret (Answered x)
  end.

Fixpoint operation_run (cs : list OperationCall) (o : O)
    : list (outcome E (OperationEvent A R)) * O :=
  match cs with
  | [] => ([], o)
  | c :: cs =>
      let '(r, o) := operation_call c o in
      let '(rs, o) := operation_run cs o in
      (r :: rs, o)
  end.

(** Every attempt is the wire form of [c]; an answer or a timeout belongs to an
    attempt that is still open; nothing follows a terminal outcome. *)
Fixpoint retries (c : C) (open : bool) (events : list (OperationEvent A R)) : Prop :=
  match events with
  | [] => True
  | Attempted t a :: events => op_wire O c t = Ok a /\ retries c true events
  | GaveUp :: events => open = true /\ retries c false events
  | Answered x :: events =>
      open = true /\ if op_terminal O x then events = [] else retries c false events
  end.

(** The commands that can be put on the wire at all. *)
Definition encodable (c : C) : Prop := forall t, exists a : A, op_wire O c t = Ok a.

Context (Hlaw : lawful_operation O).

(** What every call keeps, as the owner of the operation needs it. *)
Lemma begin_keeps (t : DurationMicros) (o o' : O) (r : outcome E A) :
  (exists a : A, op_wire O (op_command o) t = Ok a) -> op_begin t o = (r, o') ->
  op_command o' = op_command o /\
  match r with Ok a => op_wire O (op_command o) t = Ok a | Err _ => True | Panic => False end.
Proof.
  intros [a Ha] Hb. destruct (law_begin _ _ _ _ _ Hlaw t o o' r Hb) as (Hsame & Hr).
  split; [done|]. destruct (sendable _); destruct Hr as (-> & _); [by rewrite Ha|done].
Qed.

Lemma timeout_keeps (o o' : O) (r : outcome E unit) :
  op_timeout o = (r, o') -> op_command o' = op_command o /\ r <> Panic.
Proof.
  intros Ht. destruct (law_timeout _ _ _ _ _ Hlaw o o' r Ht) as (Hsame & Hr).
  split; [done|]. case_decide; by destruct Hr as (-> & _).
Qed.

Lemma accept_keeps (payload : bytes) (o o' : O) (r : outcome E R) :
  op_accept payload o = (r, o') -> op_command o' = op_command o /\ r <> Panic.
Proof.
  intros Ha. destruct (law_accept _ _ _ _ _ Hlaw payload o o' r Ha) as (Hsame & Hr).
  split; [done|]. case_decide; [by destruct r|by destruct Hr as (-> & _)].
Qed.

Lemma operation_call_inv (c : OperationCall) (o o' : O) (r : outcome E (OperationEvent A R)) :
  encodable (op_command o) -> operation_call c o = (r, o') ->
  op_command o' = op_command o /\
  match r with
  | Ok (Attempted t a) => op_wire O (op_command o) t = Ok a /\ op_phase o' = AwaitingResponse
      /\ sendable (op_phase o) = true
  | Ok GaveUp => op_phase o = AwaitingResponse /\ op_phase o' <> AwaitingResponse
  | Ok (Answered x) => op_phase o = AwaitingResponse /\
      (if op_terminal O x then op_phase o' = OperationComplete else sendable (op_phase o') = true)
  | Err _ => o' = o \/ op_phase o = AwaitingResponse /\ sendable (op_phase o') = false
  | Panic => False
  end.
Proof.
  intros Henc Hc. destruct c as [t| |payload]; cbn [operation_call] in Hc; st_unfold Hc.
  - destruct (op_begin t o) as [r1 o1] eqn:Hb.
    destruct (law_begin _ _ _ _ _ Hlaw t o o1 r1 Hb) as (Hsame & Hr).
    destruct (sendable (op_phase o)) eqn:Hs; [|destruct Hr as (-> & ->); naive_solver].
    destruct (Henc t) as [a Ha]. destruct Hr as (-> & Hr). rewrite Ha in *. naive_solver.
  - destruct (op_timeout o) as [r1 o1] eqn:Ht.
    destruct (law_timeout _ _ _ _ _ Hlaw o o1 r1 Ht) as (Hsame & Hr).
    case_decide; destruct Hr as (-> & Hr); naive_solver.
  - destruct (op_accept payload o) as [r1 o1] eqn:Ha.
    destruct (law_accept _ _ _ _ _ Hlaw payload o o1 r1 Ha) as (Hsame & Hr).
    case_decide; [|destruct Hr as (-> & ->); naive_solver].
    destruct r1 as [x|e|]; naive_solver.
Qed.

Lemma operation_run_complete (cs : list OperationCall) (o : O) :
  encodable (op_command o) -> op_phase o = OperationComplete ->
  Forall no_panic (fst (operation_run cs o)) /\ omap outcome_ok (fst (operation_run cs o)) = [].
Proof.
  intros Henc Hp. induction cs as [|c cs IH]; [done|]. cbn [operation_run].
  destruct (operation_call c o) as [r o1] eqn:Hc.
  destruct (operation_call_inv c o o1 r Henc Hc) as (_ & Hr). rewrite Hp in Hr.
  destruct r as [[t a| |x]|e|]; try naive_solver.
  destruct Hr as [->|[? _]]; [|done]. destruct (operation_run cs o) as [rs o2].
  cbn in *. destruct IH. split; [constructor|]; done.
Qed.

Lemma retries_weaken (c : C) (open : bool) (events : list (OperationEvent A R)) :
  retries c false events -> retries c open events.
Proof. destruct events as [|[]]; naive_solver. Qed.

(** However often it is attempted, timed out and answered, an operation never
    panics and its history is that of retries of its one command. *)
Lemma operation_run_retries (cs : list OperationCall) (o : O) :
  encodable (op_command o) ->
  let '(rs, o') := operation_run cs o in
  Forall no_panic rs /\ op_command o' = op_command o /\
  retries (op_command o) (bool_decide (op_phase o = AwaitingResponse)) (omap outcome_ok rs).
Proof.
  revert o. induction cs as [|c cs IH]; intros o Henc; [done|]. cbn [operation_run].
  destruct (operation_call c o) as [r o1] eqn:Hc.
  destruct (operation_call_inv c o o1 r Henc Hc) as (Hsame & Hr).
  pose proof (IH o1 ltac:(by rewrite Hsame)) as Hrun.
  pose proof (operation_run_complete cs o1) as Hdone.
  destruct (operation_run cs o1) as [rs o2]. destruct Hrun as (Hnp & Hsame2 & Hret).
  rewrite Hsame in *. split_and!; [|congruence|].
  { constructor; [|done]. by destruct r. }
  destruct r as [[t a| |x]|e|]; cbn [omap list_omap outcome_ok retries].
  - destruct Hr as (Ha & Hp & _). rewrite Hp, bool_decide_eq_true_2 in Hret by done. done.
  - destruct Hr as (Hp & Hp'). rewrite bool_decide_eq_false_2 in Hret by done.
    by rewrite bool_decide_eq_true_2.
  - destruct Hr as (Hp & Hx). rewrite bool_decide_eq_true_2 by done. split; [done|].
    destruct (op_terminal O x); [by apply Hdone|].
    rewrite bool_decide_eq_false_2 in Hret; [done|]. intros Hp'. by rewrite Hp' in Hx.
  - destruct Hr as [->|(Hp & Hs)]; [done|]. rewrite (bool_decide_eq_true_2 (_ = _)) by done.
    destruct (decide (op_phase o1 = AwaitingResponse)) as [Hp1|Hp1].
    + by rewrite bool_decide_eq_true_2 in Hret.
    + rewrite bool_decide_eq_false_2 in Hret by done. by apply retries_weaken.
  - done.
Qed.
End Histories.
