(* ===== verification/LifecycleOperation.v ===== *)
(** * A lifecycle operation (crates/sensor-host/src/lifecycle.rs)

    One runtime command across any number of wire transactions. *)

From S2P Require Export ControlOperation LifecycleWire.

Definition LIFECYCLE_SERVICE_ID : Z := service_code Application.Lifecycle.

Inductive LifecycleOutcome :=
| LifecycleNotAccepted
| LifecycleInProgress (result : RuntimeResult)
| LifecycleComplete (result : RuntimeResult).

Record LifecycleAttempt := mkLifecycleAttempt {
  la_request : RequestSpec;
  la_encoded : EncodedRuntimeCommand
}.

(** [LifecycleAttempt::payload]. *)
Definition lifecycle_attempt_payload {E : Type} (a : LifecycleAttempt) : outcome E bytes :=
  slice 0 (payload_size (la_encoded a)) (enc_payload (la_encoded a)).

Inductive LifecycleError :=
| LifecycleUnexpectedPhase
| LifecycleWire (error : LifecycleWireError)
| LifecycleOperationIdMismatch (expected received : Z).

Record LifecycleOperation := mkLifecycleOperation {
  lo_node_address : Z;
  lo_command : RuntimeCommand;
  lo_phase : OperationPhase;
  lo_terminal_result : option RuntimeResult
}.

Definition lifecycle_new (node_address : Z) (command : RuntimeCommand) :
    outcome LifecycleError LifecycleOperation :=
  _ ← map_err LifecycleWire (encode_lifecycle_request command);
  Ok (mkLifecycleOperation node_address command ReadyToSend None).

Abbreviation lifecycle := (st LifecycleOperation LifecycleError).

Definition lifecycle_set_phase (p : OperationPhase) (self : LifecycleOperation) :
    LifecycleOperation :=
  mkLifecycleOperation (lo_node_address self) (lo_command self) p (lo_terminal_result self).

Definition lifecycle_begin_attempt (timeout : DurationMicros) : lifecycle LifecycleAttempt :=
  self ← get;
  if negb (bool_decide (lo_phase self = ReadyToSend))
     && negb (bool_decide (lo_phase self = ReconcileRequired))
  then throw LifecycleUnexpectedPhase
  else
    encoded ← lift (map_err LifecycleWire (encode_lifecycle_request (lo_command self)));
    _ ← modify (lifecycle_set_phase AwaitingResponse);
    mret (mkLifecycleAttempt
      (mkRequestSpec (lo_node_address self) LIFECYCLE_SERVICE_ID (enc_message encoded)
         (enc_message encoded) timeout ReconcileState) encoded).

Definition lifecycle_mark_timeout : lifecycle unit :=
  self ← get;
  if negb (bool_decide (lo_phase self = AwaitingResponse)) then throw LifecycleUnexpectedPhase
  else modify (lifecycle_set_phase ReconcileRequired).

Definition lifecycle_accept_result (result : RuntimeResult) : lifecycle LifecycleOutcome :=
  self ← get;
  let expected := cmd_operation_id (lo_command self) in
  if negb (rr_operation_id result =? expected) then
    _ ← modify (lifecycle_set_phase OperationFailed);
    throw (LifecycleOperationIdMismatch expected (rr_operation_id result))
  else if bool_decide (rr_code result = ResultInProgress) then
    _ ← modify (lifecycle_set_phase ReconcileRequired);
    mret (LifecycleInProgress result)
  else
    _ ← modify (fun self => mkLifecycleOperation (lo_node_address self) (lo_command self)
                              OperationComplete (Some result));
    mret (LifecycleComplete result).

Definition lifecycle_accept_response (payload : bytes) : lifecycle LifecycleOutcome :=
  self ← get;
  if negb (bool_decide (lo_phase self = AwaitingResponse)) then throw LifecycleUnexpectedPhase
  else
    match decode_lifecycle_response payload with
    | Ok result => lifecycle_accept_result result
    | Err (LifecycleRemoteError Busy) =>
        _ ← modify (lifecycle_set_phase ReadyToSend);
        mret LifecycleNotAccepted
    | Err error =>
        _ ← modify (lifecycle_set_phase OperationFailed);
        throw (LifecycleWire error)
    | Panic => lift Panic
    end.

(** ** The operation implements the interface *)

Definition lifecycle_wire (c : Z * RuntimeCommand) (timeout : DurationMicros) :
    outcome LifecycleError LifecycleAttempt :=
  encoded ← map_err LifecycleWire (encode_lifecycle_request (snd c));
  Ok (mkLifecycleAttempt
    (mkRequestSpec (fst c) LIFECYCLE_SERVICE_ID (enc_message encoded) (enc_message encoded)
       timeout ReconcileState) encoded).

#[export] Instance lifecycle_logical : LogicalOperation LifecycleOperation (Z * RuntimeCommand)
    LifecycleError LifecycleAttempt LifecycleOutcome := {
  op_phase := lo_phase;
  op_command o := (lo_node_address o, lo_command o);
  op_unexpected := LifecycleUnexpectedPhase;
  op_begin := lifecycle_begin_attempt;
  op_timeout := lifecycle_mark_timeout;
  op_accept := lifecycle_accept_response;
  op_wire := lifecycle_wire;
  op_terminal x := match x with LifecycleComplete _ => true | _ => false end
}.

Lemma lifecycle_new_encodable (node : Z) (c : RuntimeCommand) (o : LifecycleOperation) :
  lifecycle_new node c = Ok o ->
  o = mkLifecycleOperation node c ReadyToSend None /\ encodable (O:=LifecycleOperation) (node, c).
Proof.
  unfold lifecycle_new. intros (encoded & Henc & [= <-])%outcome_bind_Ok. split; [done|].
  intros t. cbn [op_wire lifecycle_logical]. unfold lifecycle_wire. cbn [snd]. rewrite Henc. by eexists.
Qed.

Lemma lifecycle_lawful : lawful_operation LifecycleOperation.
Proof.
  split; cbn [op_phase op_command op_unexpected op_begin op_timeout op_accept op_wire op_terminal
    lifecycle_logical].
  - intros t o o' r H. unfold lifecycle_begin_attempt in H. autorewrite with st in H.
    rewrite sendable_guard in H. st_unfold H. destruct (sendable (lo_phase o)); [|by simplify_eq].
    unfold lifecycle_wire. cbn [snd fst].
    destruct (encode_lifecycle_request (lo_command o)); cbn; by simplify_eq.
  - intros o o' r H. unfold lifecycle_mark_timeout in H. st_unfold H.
    case_bool_decide; case_decide; cbn [negb] in H; by simplify_eq.
  - intros payload o o' r H. unfold lifecycle_accept_response, lifecycle_accept_result in H. st_unfold H.
    pose proof (codec_decode_total _ _ lifecycle_response_lawful payload) as Hnp.
    cbn [wire_decode lifecycle_response_codec] in Hnp.
    case_bool_decide; case_decide; cbn [negb] in H; try done; [|by simplify_eq].
    destruct (decode_lifecycle_response payload) as [res|e|]; [| |done].
    + st_run H; by simplify_eq.
    + destruct e as [| | | |[]| | | |]; by simplify_eq.
Qed.
