(* ===== verification/ConfigurationOperation.v ===== *)
(** * A configuration operation (crates/sensor-host/src/configuration.rs)

    Reading, validating, applying or resetting a node's configuration. *)

From S2P Require Export ControlOperation ConfigurationWire.

Definition CONFIGURATION_SERVICE_ID : Z := service_code Application.Configuration.
Definition GET_CONFIG_MESSAGE_ID : Z := 1.
Definition VALIDATE_CONFIG_MESSAGE_ID : Z := 2.
Definition APPLY_CONFIG_MESSAGE_ID : Z := 3.
Definition RESET_CONFIG_MESSAGE_ID : Z := 4.

(** The operation id and the expected revision of [Reset] are the fields of
    [ResetRequest], the argument pair of its codec. *)
Inductive ConfigurationRequest :=
| ConfigGet
| ConfigValidate (configuration : MeasurementConfiguration)
| ConfigApply (request : ConfigOperationRequest)
| ConfigReset (request : ResetRequest).

Definition configuration_operation_id (self : ConfigurationRequest) : option Z :=
  match self with
  | ConfigApply value => Some (req_operation_id value)
  | ConfigReset value => Some (reset_operation_id value)
  | ConfigGet | ConfigValidate _ => None
  end.

Definition configuration_message_id (self : ConfigurationRequest) : Z :=
  match self with
  | ConfigGet => GET_CONFIG_MESSAGE_ID
  | ConfigValidate _ => VALIDATE_CONFIG_MESSAGE_ID
  | ConfigApply _ => APPLY_CONFIG_MESSAGE_ID
  | ConfigReset _ => RESET_CONFIG_MESSAGE_ID
  end.

Definition mutates (self : ConfigurationRequest) : bool :=
  match self with ConfigApply _ | ConfigReset _ => true | _ => false end.

Inductive ConfigurationOutcome :=
| ConfigNotAccepted
| ConfigObserved (observed : ObservedConfiguration)
| ConfigValidated (result : ConfigValidationResult)
| ConfigApplied (result : ConfigOperationResult).

Record ConfigurationAttempt := mkConfigurationAttempt {
  ca_request : RequestSpec;
  ca_payload : bytes;
  ca_payload_size : nat
}.

(** [ConfigurationAttempt::payload]. *)
Definition configuration_attempt_payload {E : Type} (a : ConfigurationAttempt) : outcome E bytes :=
  slice 0 (ca_payload_size a) (ca_payload a).

Inductive ConfigurationError :=
| ConfigInvalidNodeAddress (address : Z)
| ConfigUnexpectedPhase
| ConfigOperationIdMismatch (expected received : Z)
| ConfigWire (error : ConfigurationWireError).

Record ConfigurationOperation := mkConfigurationOperation {
  co_node_address : Z;
  co_request : ConfigurationRequest;
  co_phase : OperationPhase
}.

Definition config_validate_request (request : ConfigurationRequest) :
    outcome ConfigurationError unit :=
  match request with
  | ConfigGet => Ok tt
  | ConfigValidate value => map_err ConfigWire ((fun _ => tt) <$> encode_configuration value)
  | ConfigApply value => map_err ConfigWire ((fun _ => tt) <$> encode_apply_config_request value)
  | ConfigReset value => map_err ConfigWire ((fun _ => tt) <$> encode_reset_config_request value)
  end.

Definition configuration_new (node_address : Z) (request : ConfigurationRequest) :
    outcome ConfigurationError ConfigurationOperation :=
  if negb ((1 <=? node_address) && (node_address <=? 253))
  then Err (ConfigInvalidNodeAddress node_address)
  else
    _ ← config_validate_request request;
    Ok (mkConfigurationOperation node_address request ReadyToSend).

Abbreviation configuration_op := (st ConfigurationOperation ConfigurationError).

Definition configuration_set_phase (p : OperationPhase) (self : ConfigurationOperation) :
    ConfigurationOperation :=
  mkConfigurationOperation (co_node_address self) (co_request self) p.

(** The payload buffer and the used part of it. *)
Definition config_payload (request : ConfigurationRequest) :
    outcome ConfigurationError (bytes * nat) :=
  let payload := zeros APPLY_CONFIG_REQUEST_BYTES in
  match request with
  | ConfigGet => Ok (payload, 0%nat)
  | ConfigValidate value =>
      encoded ← map_err ConfigWire (encode_configuration value);
      payload ← put 0 (length encoded) encoded payload;
      Ok (payload, length encoded)
  | ConfigApply value =>
      encoded ← map_err ConfigWire (encode_apply_config_request value);
      payload ← put 0 (length payload) encoded payload;
      Ok (payload, length encoded)
  | ConfigReset value =>
      encoded ← map_err ConfigWire (encode_reset_config_request value);
      payload ← put 0 (length encoded) encoded payload;
      Ok (payload, length encoded)
  end.

Definition configuration_begin_attempt (timeout : DurationMicros) :
    configuration_op ConfigurationAttempt :=
  self ← get;
  if negb (bool_decide (co_phase self = ReadyToSend))
     && negb (bool_decide (co_phase self = ReconcileRequired))
  then throw ConfigUnexpectedPhase
  else
    encoded ← lift (config_payload (co_request self));
    let '(payload, payload_size) := encoded in
    _ ← modify (configuration_set_phase AwaitingResponse);
    mret (mkConfigurationAttempt
      (mkRequestSpec (co_node_address self) CONFIGURATION_SERVICE_ID
         (configuration_message_id (co_request self)) (configuration_message_id (co_request self))
         timeout (if mutates (co_request self) then ReconcileState else RetrySafe))
      payload payload_size).

Definition configuration_mark_timeout : configuration_op unit :=
  self ← get;
  if negb (bool_decide (co_phase self = AwaitingResponse)) then throw ConfigUnexpectedPhase
  else modify (configuration_set_phase ReconcileRequired).

(** The answer a request expects. *)
Definition config_decode (request : ConfigurationRequest) (payload : bytes) :
    cwire ConfigurationOutcome :=
  match request with
  | ConfigGet => ConfigObserved <$> decode_get_config_response payload
  | ConfigValidate _ => ConfigValidated <$> decode_validate_config_response payload
  | ConfigApply _ | ConfigReset _ => ConfigApplied <$> decode_config_operation_response payload
  end.

(** [self.request.operation_id().unwrap()] in the mismatch branch. *)
Definition configuration_fail_mismatch (received : Z) : configuration_op ConfigurationOutcome :=
  self ← get;
  _ ← modify (configuration_set_phase OperationFailed);
  expected ← lift (expect (configuration_operation_id (co_request self)));
  throw (ConfigOperationIdMismatch expected received).

Definition configuration_accept_response (payload : bytes) : configuration_op ConfigurationOutcome :=
  self ← get;
  if negb (bool_decide (co_phase self = AwaitingResponse)) then throw ConfigUnexpectedPhase
  else
    match config_decode (co_request self) payload with
    | Ok outcome =>
        match outcome with
        | ConfigApplied result =>
            if negb (bool_decide (Some (res_operation_id result)
                                  = configuration_operation_id (co_request self)))
            then configuration_fail_mismatch (res_operation_id result)
            else _ ← modify (configuration_set_phase OperationComplete); mret outcome
        | _ => _ ← modify (configuration_set_phase OperationComplete); mret outcome
        end
    | Err (ConfigRemote Busy) =>
        _ ← modify (configuration_set_phase
              (if mutates (co_request self) then ReconcileRequired else ReadyToSend));
        mret ConfigNotAccepted
    | Err error =>
        _ ← modify (configuration_set_phase OperationFailed);
        throw (ConfigWire error)
    | Panic => lift Panic
    end.

(** ** The operation implements the interface *)

Definition config_wire (c : Z * ConfigurationRequest) (timeout : DurationMicros) :
    outcome ConfigurationError ConfigurationAttempt :=
  encoded ← config_payload (snd c);
  Ok (mkConfigurationAttempt
    (mkRequestSpec (fst c) CONFIGURATION_SERVICE_ID (configuration_message_id (snd c))
       (configuration_message_id (snd c)) timeout
       (if mutates (snd c) then ReconcileState else RetrySafe)) (fst encoded) (snd encoded)).

#[export] Instance configuration_logical : LogicalOperation ConfigurationOperation
    (Z * ConfigurationRequest) ConfigurationError ConfigurationAttempt ConfigurationOutcome := {
  op_phase := co_phase;
  op_command o := (co_node_address o, co_request o);
  op_unexpected := ConfigUnexpectedPhase;
  op_begin := configuration_begin_attempt;
  op_timeout := configuration_mark_timeout;
  op_accept := configuration_accept_response;
  op_wire := config_wire;
  op_terminal x := match x with ConfigNotAccepted => false | _ => true end
}.

Lemma encode_configuration_length (c : MeasurementConfiguration) (l : bytes) :
  encode_configuration c = Ok l -> length l = 12%nat.
Proof. intros H. unfold encode_configuration in H. writes_length H. Qed.

Lemma encode_apply_length (r : ConfigOperationRequest) (l : bytes) :
  encode_apply_config_request r = Ok l -> length l = 20%nat.
Proof. intros H. unfold encode_apply_config_request in H. writes_length H. Qed.

Lemma encode_reset_length (r : ResetRequest) (l : bytes) :
  encode_reset_config_request r = Ok l -> length l = 8%nat.
Proof. intros H. unfold encode_reset_config_request in H. writes_length H. Qed.

Lemma config_payload_encodable (request : ConfigurationRequest) :
  config_validate_request request = Ok tt ->
  exists payload used, config_payload request = Ok (payload, used) /\
    length payload = 20%nat /\ (used <= 20)%nat.
Proof.
  destruct request; cbn [config_validate_request config_payload]; intros H.
  - eexists _, _. split; [reflexivity|]. split; [reflexivity|lia].
  - destruct (encode_configuration configuration) as [l| |] eqn:He; try done.
    pose proof (encode_configuration_length _ _ He) as Hl. destruct (padded_buffer ConfigurationError l _ 20 Hl) as (p & Hp & Hlp); [lia|].
    cbn [mbind outcome_bind map_err]. rewrite Hl. change APPLY_CONFIG_REQUEST_BYTES with 20%nat. rewrite Hp. eexists _, _. split; [reflexivity|lia].
  - destruct (encode_apply_config_request request) as [l| |] eqn:He; try done.
    pose proof (encode_apply_length _ _ He) as Hl. destruct (padded_buffer ConfigurationError l _ 20 Hl) as (p & Hp & Hlp); [lia|].
    cbn [mbind outcome_bind map_err]. rewrite Hl. change (length (zeros APPLY_CONFIG_REQUEST_BYTES)) with 20%nat.
    change APPLY_CONFIG_REQUEST_BYTES with 20%nat. rewrite Hp. eexists _, _. split; [reflexivity|lia].
  - destruct (encode_reset_config_request request) as [l| |] eqn:He; try done.
    pose proof (encode_reset_length _ _ He) as Hl. destruct (padded_buffer ConfigurationError l _ 20 Hl) as (p & Hp & Hlp); [lia|].
    cbn [mbind outcome_bind map_err]. rewrite Hl. change APPLY_CONFIG_REQUEST_BYTES with 20%nat. rewrite Hp. eexists _, _. split; [reflexivity|lia].
Qed.

Lemma configuration_new_encodable (node : Z) (r : ConfigurationRequest) (o : ConfigurationOperation) :
  configuration_new node r = Ok o ->
  o = mkConfigurationOperation node r ReadyToSend /\ 1 <= node <= 253 /\
  encodable (O:=ConfigurationOperation) (node, r).
Proof.
  unfold configuration_new. intros H. destruct (negb _) eqn:Hn; [done|]. to_prop.
  apply outcome_bind_Ok in H as ([] & Hv & [= <-]). split; [done|]. split; [lia|].
  intros t. cbn [op_wire configuration_logical]. unfold config_wire. cbn [snd].
  destruct (config_payload_encodable r Hv) as (p & u & -> & _). by eexists.
Qed.

Lemma config_decode_no_panic (r : ConfigurationRequest) (payload : bytes) :
  no_panic (config_decode r payload).
Proof.
  destruct r; cbn [config_decode]; apply no_panic_fmap.
  - apply (codec_decode_total _ _ get_config_lawful).
  - apply (codec_decode_total _ _ validate_config_lawful).
  - apply (codec_decode_total _ _ config_operation_lawful).
  - apply (codec_decode_total _ _ config_operation_lawful).
Qed.

(** Only a request with an operation id expects [Applied]. *)
Lemma config_decode_applied (r : ConfigurationRequest) (payload : bytes) result :
  config_decode r payload = Ok (ConfigApplied result) -> mutates r = true.
Proof.
  destruct r; cbn [config_decode]; [destruct (decode_get_config_response _)
    |destruct (decode_validate_config_response _)|..]; done.
Qed.

Lemma config_decode_accepted (r : ConfigurationRequest) (payload : bytes) :
  config_decode r payload <> Ok ConfigNotAccepted.
Proof.
  destruct r; cbn [config_decode]; [destruct (decode_get_config_response _)
    |destruct (decode_validate_config_response _)
    |destruct (decode_config_operation_response _)..]; done.
Qed.

Lemma configuration_lawful_operation : lawful_operation ConfigurationOperation.
Proof.
  split; cbn [op_phase op_command op_unexpected op_begin op_timeout op_accept op_wire op_terminal
    configuration_logical].
  - intros t o o' r H. unfold configuration_begin_attempt in H. autorewrite with st in H.
    rewrite sendable_guard in H. st_unfold H. destruct (sendable (co_phase o)); [|by simplify_eq].
    unfold config_wire. cbn [snd fst].
    destruct (config_payload (co_request o)) as [[p n]| |]; cbn; by simplify_eq.
  - intros o o' r H. unfold configuration_mark_timeout in H. st_unfold H.
    case_bool_decide; case_decide; cbn [negb] in H; by simplify_eq.
  - intros payload o o' r H. unfold configuration_accept_response, configuration_fail_mismatch in H.
    st_unfold H. pose proof (config_decode_no_panic (co_request o) payload) as Hnp.
    case_bool_decide; case_decide; cbn [negb] in H; try done; [|by simplify_eq].
    destruct (config_decode (co_request o) payload) as [x|e|] eqn:Hd; [| |done].
    + destruct x as [| | |result]; [by apply config_decode_accepted in Hd|by simplify_eq..|].
      apply config_decode_applied in Hd. destruct (bool_decide _); [by simplify_eq|].
      destruct (co_request o) eqn:Hr; try done; cbn in H; injection H as <- <-; cbn; by rewrite Hr.
    + destruct e; try by simplify_eq. destruct status; simplify_eq; try done.
      split; [done|]. cbn. by destruct (mutates _).
Qed.
