(* ===== verification/CommissioningOperation.v ===== *)
(** * A commissioning operation (crates/sensor-host/src/commissioning.rs)

    Probing one discovery slot and assigning an address: broadcast requests
    answered from the commissioning address. *)

From S2P Require Export ControlOperation CommissioningWire.

Definition COMMISSIONING_SERVICE_ID : Z := service_code Application.Commissioning.
Definition PROBE_SLOT_MESSAGE_ID : Z := 1.
Definition ASSIGN_ADDRESS_MESSAGE_ID : Z := 2.

Inductive CommissioningRequest :=
| Probe (request : ProbeSlotRequest)
| Assign (request : AssignAddressRequest).

Definition commissioning_operation_id (self : CommissioningRequest) : option Z :=
  match self with
  | Probe _ => None
  | Assign value => Some (assign_operation_id value)
  end.

Inductive CommissioningOutcome :=
| CommissioningNotAccepted
| Discovered (found : CommissioningIdentity)
| Assigned (response : AssignAddressResponse).

Record CommissioningAttempt := mkCommissioningAttempt {
  ma_routed_request : RoutedRequestSpec;
  ma_routed_payload : bytes;
  ma_routed_payload_size : nat
}.

(** [CommissioningAttempt::payload]. *)
Definition commissioning_attempt_payload {E : Type} (a : CommissioningAttempt) : outcome E bytes :=
  slice 0 (ma_routed_payload_size a) (ma_routed_payload a).

Inductive CommissioningError :=
| CommissioningUnexpectedPhase
| RoundNonceMismatch
| OperationIdMismatch
| AssignmentMismatch
| CommissioningWire (error : CommissioningWireError).

Record CommissioningOperation := mkCommissioningOperation {
  mo_request : CommissioningRequest;
  mo_phase : OperationPhase
}.

Definition commissioning_validate_request (request : CommissioningRequest) :
    outcome CommissioningError unit :=
  match request with
  | Probe value => map_err CommissioningWire ((fun _ => tt) <$> encode_probe_slot_request value)
  | Assign value =>
      map_err CommissioningWire ((fun _ => tt) <$> encode_assign_address_request value)
  end.

Definition commissioning_new (request : CommissioningRequest) :
    outcome CommissioningError CommissioningOperation :=
  _ ← commissioning_validate_request request;
  Ok (mkCommissioningOperation request ReadyToSend).

Abbreviation commissioning := (st CommissioningOperation CommissioningError).

Definition commissioning_set_phase (p : OperationPhase) (self : CommissioningOperation) :
    CommissioningOperation :=
  mkCommissioningOperation (mo_request self) p.

(** The message, the payload buffer, its used part and the recovery class. *)
Definition commissioning_payload (request : CommissioningRequest) :
    outcome CommissioningError (Z * bytes * nat * TimeoutRecovery) :=
  let payload := zeros ASSIGN_ADDRESS_REQUEST_BYTES in
  match request with
  | Probe value =>
      encoded ← map_err CommissioningWire (encode_probe_slot_request value);
      payload ← put 0 (length encoded) encoded payload;
      Ok (PROBE_SLOT_MESSAGE_ID, payload, length encoded, RetrySafe)
  | Assign value =>
      encoded ← map_err CommissioningWire (encode_assign_address_request value);
      payload ← put 0 (length payload) encoded payload;
      Ok (ASSIGN_ADDRESS_MESSAGE_ID, payload, length encoded, ReconcileState)
  end.

Definition commissioning_request_spec (message : Z) (timeout : DurationMicros)
    (recovery : TimeoutRecovery) : RoutedRequestSpec :=
  mkRoutedRequestSpec BROADCAST_ADDRESS COMMISSIONING_ADDRESS COMMISSIONING_SERVICE_ID message
    message timeout recovery.

Definition commissioning_begin_attempt (timeout : DurationMicros) :
    commissioning CommissioningAttempt :=
  self ← get;
  if negb (bool_decide (mo_phase self = ReadyToSend))
     && negb (bool_decide (mo_phase self = ReconcileRequired))
  then throw CommissioningUnexpectedPhase
  else
    encoded ← lift (commissioning_payload (mo_request self));
    let '(message, payload, payload_size, recovery) := encoded in
    _ ← modify (commissioning_set_phase AwaitingResponse);
    mret (mkCommissioningAttempt (commissioning_request_spec message timeout recovery)
            payload payload_size).

Definition commissioning_mark_timeout : commissioning unit :=
  self ← get;
  if negb (bool_decide (mo_phase self = AwaitingResponse)) then throw CommissioningUnexpectedPhase
  else modify (commissioning_set_phase
         match mo_request self with
         | Probe _ => OperationComplete
         | Assign _ => ReconcileRequired
         end).

Definition commissioning_mark_transmit_failed : commissioning unit :=
  self ← get;
  if negb (bool_decide (mo_phase self = AwaitingResponse)) then throw CommissioningUnexpectedPhase
  else modify (commissioning_set_phase
         match mo_request self with
         | Probe _ => ReadyToSend
         | Assign _ => ReconcileRequired
         end).

(** [CommissioningOperation::fail]. *)
Definition commissioning_fail {T : Type} (error : CommissioningError) : commissioning T :=
  _ ← modify (commissioning_set_phase OperationFailed);
  throw error.

Definition commissioning_complete (outcome : CommissioningOutcome) :
    commissioning CommissioningOutcome :=
  _ ← modify (commissioning_set_phase OperationComplete);
  mret outcome.

Definition commissioning_accept_response (payload : bytes) : commissioning CommissioningOutcome :=
  self ← get;
  if negb (bool_decide (mo_phase self = AwaitingResponse)) then throw CommissioningUnexpectedPhase
  else
    match mo_request self with
    | Probe expected =>
        node ← lift (map_err CommissioningWire (decode_probe_slot_response payload));
        if negb (com_round_nonce node =? probe_round_nonce expected)
        then commissioning_fail RoundNonceMismatch
        else commissioning_complete (Discovered node)
    | Assign expected =>
        match decode_assign_address_response payload with
        | Ok assigned =>
            if negb (assigned_operation_id assigned =? assign_operation_id expected)
            then commissioning_fail OperationIdMismatch
            else if negb (bool_decide (assigned_hardware_id assigned = assign_hardware_id expected))
                    || negb (assigned_node_address assigned =? assign_node_address expected)
            then commissioning_fail AssignmentMismatch
            else commissioning_complete (Assigned assigned)
        | Err (CommissioningRemote Busy) =>
            _ ← modify (commissioning_set_phase ReconcileRequired);
            mret CommissioningNotAccepted
        | Err error => commissioning_fail (CommissioningWire error)
        | Panic => lift Panic
        end
    end.

(** ** The operation implements the interface *)

Definition commissioning_wire (c : CommissioningRequest) (timeout : DurationMicros) :
    outcome CommissioningError CommissioningAttempt :=
  encoded ← commissioning_payload c;
  let '(message, payload, payload_size, recovery) := encoded in
  Ok (mkCommissioningAttempt (commissioning_request_spec message timeout recovery)
        payload payload_size).

#[export] Instance commissioning_logical : LogicalOperation CommissioningOperation
    CommissioningRequest CommissioningError CommissioningAttempt CommissioningOutcome := {
  op_phase := mo_phase;
  op_command := mo_request;
  op_unexpected := CommissioningUnexpectedPhase;
  op_begin := commissioning_begin_attempt;
  op_timeout := commissioning_mark_timeout;
  op_accept := commissioning_accept_response;
  op_wire := commissioning_wire;
  op_terminal x := match x with CommissioningNotAccepted => false | _ => true end
}.

Lemma encode_probe_length (r : ProbeSlotRequest) (l : bytes) :
  encode_probe_slot_request r = Ok l -> length l = 12%nat.
Proof. intros H. unfold encode_probe_slot_request in H. writes_length H. Qed.

Lemma encode_assign_length (r : AssignAddressRequest) (l : bytes) :
  encode_assign_address_request r = Ok l -> length l = 21%nat.
Proof. intros H. unfold encode_assign_address_request in H. writes_length H. Qed.

Lemma commissioning_payload_encodable (request : CommissioningRequest) :
  commissioning_validate_request request = Ok tt ->
  exists message payload used recovery,
    commissioning_payload request = Ok (message, payload, used, recovery) /\
    length payload = 21%nat /\ (used <= 21)%nat.
Proof.
  destruct request; cbn [commissioning_validate_request commissioning_payload]; intros H.
  - destruct (encode_probe_slot_request request) as [l| |] eqn:He; try done.
    pose proof (encode_probe_length _ _ He) as Hl.
    destruct (padded_buffer CommissioningError l 12 21 Hl) as (p & Hp & Hlp); [lia|].
    cbn [mbind outcome_bind map_err]. rewrite Hl.
    change ASSIGN_ADDRESS_REQUEST_BYTES with 21%nat. rewrite Hp.
    eexists _, _, _, _. split; [reflexivity|lia].
  - destruct (encode_assign_address_request request) as [l| |] eqn:He; try done.
    pose proof (encode_assign_length _ _ He) as Hl.
    destruct (padded_buffer CommissioningError l 21 21 Hl) as (p & Hp & Hlp); [lia|].
    cbn [mbind outcome_bind map_err]. rewrite Hl.
    change (length (zeros ASSIGN_ADDRESS_REQUEST_BYTES)) with 21%nat.
    change ASSIGN_ADDRESS_REQUEST_BYTES with 21%nat. rewrite Hp.
    eexists _, _, _, _. split; [reflexivity|lia].
Qed.

Lemma commissioning_new_encodable (r : CommissioningRequest) (o : CommissioningOperation) :
  commissioning_new r = Ok o ->
  o = mkCommissioningOperation r ReadyToSend /\ encodable (O:=CommissioningOperation) r.
Proof.
  unfold commissioning_new. intros ([] & Hv & [= <-])%outcome_bind_Ok. split; [done|].
  intros t. cbn [op_wire commissioning_logical]. unfold commissioning_wire.
  destruct (commissioning_payload_encodable r Hv) as (m & p & u & c & -> & _). by eexists.
Qed.

Lemma commissioning_lawful_operation : lawful_operation CommissioningOperation.
Proof.
  split; cbn [op_phase op_command op_unexpected op_begin op_timeout op_accept op_wire op_terminal
    commissioning_logical].
  - intros t o o' r H. unfold commissioning_begin_attempt in H. autorewrite with st in H.
    rewrite sendable_guard in H. st_unfold H. destruct (sendable (mo_phase o)); [|by simplify_eq].
    unfold commissioning_wire.
    destruct (commissioning_payload (mo_request o)) as [[[[m p] n] c]| |]; cbn; by simplify_eq.
  - intros o o' r H. unfold commissioning_mark_timeout in H. st_unfold H.
    case_bool_decide; case_decide; cbn [negb] in H; [|done..|by simplify_eq].
    injection H as <- <-. cbn. by destruct (mo_request o).
  - intros payload o o' r H.
    unfold commissioning_accept_response, commissioning_fail, commissioning_complete in H. st_unfold H.
    case_bool_decide as Hp; case_decide; cbn [negb] in H; try done; [|by simplify_eq].
    destruct (mo_request o) as [probe|assign] eqn:Hr.
    + pose proof (codec_decode_total _ _ probe_response_lawful payload) as Hnp.
      cbn [wire_decode probe_response_codec] in Hnp.
      destruct (decode_probe_slot_response payload) as [res|e|]; [| |done].
      * st_run H; simplify_eq; by rewrite Hr || done.
      * simplify_eq. by rewrite Hr, Hp.
    + pose proof (codec_decode_total _ _ assign_response_lawful payload) as Hnp.
      cbn [wire_decode assign_response_codec] in Hnp.
      destruct (decode_assign_address_response payload) as [res|e|]; [| |done].
      * destruct (_ =? _); [|by simplify_eq; cbn; rewrite Hr].
        destruct (_ || _)%bool; simplify_eq; cbn; by rewrite Hr.
      * destruct e; try (simplify_eq; cbn; by rewrite Hr).
        destruct status; simplify_eq; cbn; by rewrite Hr.
Qed.
