(* ===== verification/OperationRetries.v ===== *)
(** * Control operations are retried, never changed

    The lifecycle, configuration and commissioning operations discharge the
    interface of [ControlOperation]; this file applies its theorem to all three. *)

From S2P Require Export LifecycleOperation ConfigurationOperation CommissioningOperation.

(** Under any calls, [o] neither panics nor forgets its command, and its history
    is that of attempts at [c] alone. *)
Definition only_retries {O C E A R : Type} `{LogicalOperation O C E A R} (c : C) (o : O) : Prop :=
  forall cs, let '(rs, o') := operation_run cs o in
    Forall no_panic rs /\ op_command o' = c /\ retries (O:=O) c false (omap outcome_ok rs).

Lemma encodable_only_retries {O C E A R : Type} `{LogicalOperation O C E A R}
    (Hlaw : lawful_operation O) (c : C) (o : O) :
  op_command o = c -> op_phase o = ReadyToSend -> encodable (O:=O) c -> only_retries c o.
Proof.
  intros Hc Hp Henc cs. pose proof (operation_run_retries Hlaw cs o) as H0. rewrite Hc, Hp in H0.
  specialize (H0 Henc). by destruct (operation_run cs o).
Qed.

(** C19. A control operation is retried, never changed: whatever sequence of
    attempts, timeouts and answers (malformed ones included) follows the creation
    of a lifecycle, configuration or commissioning operation, no call panics; every
    attempt carries the encoding of the one command it was created with, operation
    id included; an attempt closes by a timeout or an answer before the next; an
    answer is only accepted while an attempt is open; and nothing follows a
    terminal outcome. *)
Theorem control_operations_retry :
  (forall node c o, lifecycle_new node c = Ok o -> only_retries (node, c) o) /\
  (forall node r o, configuration_new node r = Ok o -> only_retries (node, r) o) /\
  (forall r o, commissioning_new r = Ok o -> only_retries r o).
Proof.
  split_and!.
  - intros node c o (-> & Henc)%lifecycle_new_encodable.
    by apply (encodable_only_retries lifecycle_lawful).
  - intros node r o (-> & _ & Henc)%configuration_new_encodable.
    by apply (encodable_only_retries configuration_lawful_operation).
  - intros r o (-> & Henc)%commissioning_new_encodable.
    by apply (encodable_only_retries commissioning_lawful_operation).
Qed.

(** ** Witness *)

Definition stop_command : RuntimeCommand := mkCommand 9 StopRecording Production.
Definition stop_operation : LifecycleOperation := mkLifecycleOperation 7 stop_command ReadyToSend None.

(** A first attempt times out, a second is answered by an interim state and a
    third by the final one. *)
Definition stop_calls : list OperationCall :=
  [OpBegin 1000; OpTimeout; OpBegin 1000;
   ControlOperation.OpAccept (result_wire (mkResult 9 ResultInProgress LifecycleWire.Stopping Production SensorOk));
   OpBegin 1000;
   ControlOperation.OpAccept (result_wire (mkResult 9 ResultOk LifecycleWire.Idle Production SensorOk))].

Lemma control_operations_retry_witness :
  lifecycle_new 7 stop_command = Ok stop_operation /\
  length (omap outcome_ok (fst (operation_run stop_calls stop_operation))) = 6%nat /\
  retries (O:=LifecycleOperation) (7, stop_command) false
    (omap outcome_ok (fst (operation_run stop_calls stop_operation))).
Proof.
  assert (lifecycle_new 7 stop_command = Ok stop_operation) as Hnew by reflexivity.
  pose proof (proj1 control_operations_retry 7 stop_command stop_operation Hnew stop_calls) as Hrun.
  split; [exact Hnew|]. split; [vm_compute; reflexivity|].
  destruct (operation_run stop_calls stop_operation). apply Hrun.
Defined.
