(* ===== verification/ChannelAgent.v ===== *)
(** * The channel agent (crates/sensor-host/src/channel_agent.rs)

    One agent owns one half-duplex channel: it queues the work for its nodes,
    runs one piece of work at a time through the transaction core, and turns
    responses, timeouts and transmit failures into events for its owner. The
    agent holds no port and no clock: [poll] may leave a frame to send, the
    owner reports [transmit_completed] or [transmit_failed] and passes every
    received frame to [receive]. *)

From S2P Require Export Handshake LifecycleOperation ConfigurationOperation CommissioningOperation.
From S2P Require Export MeasurementTransfer ObservationWire ClockModel.

Definition GET_STREAM_STATE_MESSAGE_ID : Z := 1.
Definition TIME_SERVICE_ID : Z := service_code Application.Time.
Definition OBSERVE_CLOCK_MESSAGE_ID : Z := 1.
Definition TELEMETRY_SERVICE_ID : Z := service_code Application.Telemetry.
Definition GET_TELEMETRY_SNAPSHOT_MESSAGE_ID : Z := 1.

Record ChannelPolicy := mkChannelPolicy {
  transaction_timeout : DurationMicros;
  retry_delay : DurationMicros;
  measurement_attempts_per_slot : Z;
  max_pending_work_items : Z
}.

(** ** Events *)

Inductive ChannelEvent :=
| EvIdle
| EvTransmitReady
| EvHandshakeProgress (node_address : Z) (phase : HandshakePhase)
| EvHandshakeComplete (node_address : Z) (node : NodeIdentity) (capabilities : NodeCapabilities)
| EvHandshakeTimedOut (node_address : Z) (phase : HandshakePhase)
| EvStreamState (node_address : Z) (state : StreamState)
| EvStreamStateTimedOut (node_address : Z)
| EvStreamStateNotAccepted (node_address : Z)
| EvMeasurementNotAccepted (node_address : Z)
| EvMeasurementNoData (node_address : Z) (state : StreamState)
| EvMeasurementPersistenceRequired (node_address : Z) (kind : PersistenceKind)
| EvMeasurementRecoveryRequired (node_address : Z) (reason : RecoveryReason)
| EvMeasurementTimedOut (node_address : Z)
| EvMeasurementAttemptsExhausted (node_address : Z)
| EvTimeObservation (node_address : Z) (observation : ClockObservation)
| EvTimeSyncTimedOut (node_address : Z)
| EvTimeSyncNotAccepted (node_address : Z)
| EvTimeSyncInvalidObservation (node_address : Z) (error : ClockObservationError)
| EvTelemetrySnapshot (node_address : Z) (snapshot : TelemetrySnapshot)
| EvTelemetryTimedOut (node_address : Z)
| EvTelemetryNotAccepted (node_address : Z)
| EvMeasurementHandoffPending (node_address : Z)
| EvLifecycleNotAccepted (node_address operation_id : Z)
| EvLifecycleProgress (node_address operation_id : Z) (state : RuntimeState)
| EvLifecycleComplete (node_address : Z) (result : RuntimeResult)
| EvLifecycleTimedOut (node_address operation_id : Z)
| EvConfigurationNotAccepted (node_address : Z) (operation_id : option Z)
| EvConfigurationComplete (node_address : Z) (result : ConfigurationOutcome)
| EvConfigurationTimedOut (node_address : Z) (operation_id : option Z)
| EvCommissioningSlotEmpty (round_nonce slot_index : Z)
| EvCommissioningNotAccepted (operation_id : Z)
| EvCommissioningComplete (result : CommissioningOutcome)
| EvCommissioningTimedOut (operation_id : Z)
| EvWireAttemptFailed (node_address : Z)
| EvQuarantineEnded
| EvUnrelatedResponse
| EvLateResponse
| EvUnsolicitedResponse.

Inductive ControlWorkKey :=
| KeyHandshake (node_address : Z)
| KeyStreamState (node_address : Z)
| KeyLifecycle (node_address operation_id : Z)
| KeyConfiguration (node_address : Z) (operation_id : option Z)
| KeyCommissioningProbe (round_nonce slot_index : Z)
| KeyCommissioningAssignment (operation_id : Z).

Inductive AbandonedControlWork :=
| AbandonedQueued (key : ControlWorkKey)
| AbandonedActive (key : ControlWorkKey).

(** ** Work *)

Record TimeSyncAttempt := mkTimeSync {
  ts_node_address : Z;
  ts_expected_boot_epoch : BootEpoch;
  ts_host_send_us : option Z
}.

Inductive PendingWork :=
| WorkHandshake (self : NodeHandshake)
| WorkStreamState (node_address : Z)
| WorkLifecycle (self : LifecycleOperation)
| WorkConfiguration (self : ConfigurationOperation)
| WorkCommissioning (self : CommissioningOperation)
| WorkMeasurement (self : MeasurementTransfer)
| WorkTimeSync (self : TimeSyncAttempt)
| WorkTelemetry (node_address : Z).

Definition work_node_address (w : PendingWork) : Z :=
  match w with
  | WorkHandshake h => req_node_address (hs_requirements h)
  | WorkStreamState node_address => node_address
  | WorkLifecycle o => lo_node_address o
  | WorkConfiguration o => co_node_address o
  | WorkCommissioning _ => COMMISSIONING_ADDRESS
  | WorkMeasurement t => mt_node_address t
  | WorkTimeSync a => ts_node_address a
  | WorkTelemetry node_address => node_address
  end.

Definition matches_control_key (w : PendingWork) (key : ControlWorkKey) : bool :=
  match w, key with
  | WorkHandshake h, KeyHandshake node => req_node_address (hs_requirements h) =? node
  | WorkStreamState pending, KeyStreamState node => pending =? node
  | WorkLifecycle o, KeyLifecycle node id =>
      (lo_node_address o =? node) && (cmd_operation_id (lo_command o) =? id)
  | WorkConfiguration o, KeyConfiguration node id =>
      (co_node_address o =? node)
      && bool_decide (configuration_operation_id (co_request o) = id)
  | WorkCommissioning o, KeyCommissioningProbe nonce slot =>
      match mo_request o with
      | Probe value => (probe_round_nonce value =? nonce) && (slot_index value =? slot)
      | Assign _ => false
      end
  | WorkCommissioning o, KeyCommissioningAssignment id =>
      bool_decide (commissioning_operation_id (mo_request o) = Some id)
  | _, _ => false
  end.

Definition work_uses_operation_id (w : PendingWork) (id : Z) : bool :=
  match w with
  | WorkLifecycle o => cmd_operation_id (lo_command o) =? id
  | WorkConfiguration o => bool_decide (configuration_operation_id (co_request o) = Some id)
  | WorkCommissioning o => bool_decide (commissioning_operation_id (mo_request o) = Some id)
  | _ => false
  end.

Record ActiveWork := mkActiveWork {
  aw_work : PendingWork;
  aw_retry_not_before : MonotonicMicros;
  aw_attempts_started : Z
}.

(** ** The agent *)

Record ChannelAgent := mkChannelAgent {
  ag_transactions : TransactionCore;
  ag_policy : ChannelPolicy;
  ag_next_operation_id : Z;
  ag_pending : list PendingWork;
  ag_active : option ActiveWork;
  ag_outbound : option Frame;
  ag_completed_measurement : option MeasurementTransfer
}.

Inductive ChannelAgentError :=
| ZeroQueueCapacity
| ZeroMeasurementAttemptBudget
| QueueFull
| OperationIdExhausted
| OutboundNotTaken
| AgentTimeOverflow
| InvariantViolation
| AgentTransaction (error : TransactionError)
| AgentHandshake (error : HandshakeError)
| AgentLifecycle (error : LifecycleError)
| AgentConfiguration (error : ConfigurationError)
| AgentCommissioning (error : CommissioningError)
| AgentMeasurement (error : MeasurementTransferError)
| AgentStreamStateWire (error : MeasurementWireError)
| AgentTimeWire (error : TimeWireError)
| AgentTelemetryWire (error : TelemetryWireError)
| AgentFrame (error : FrameError)
| InvalidTimeNodeAddress (address : Z)
| InvalidTelemetryNodeAddress (address : Z)
| InvalidStreamStateNodeAddress (address : Z)
| ZeroTimeBootEpoch
| ControlAttemptInFlight (key : ControlWorkKey)
| ControlWorkNotFound (key : ControlWorkKey)
| TimeBootEpochMismatch
| TimeRequestNotTransmitted.

Definition channel_policy_validate (p : ChannelPolicy) : outcome ChannelAgentError ChannelPolicy :=
  if max_pending_work_items p =? 0 then Err ZeroQueueCapacity
  else if measurement_attempts_per_slot p =? 0 then Err ZeroMeasurementAttemptBudget
  else Ok p.

Definition agent_new (transaction_seed operation_seed : Z) (quarantine_duration : DurationMicros)
    (policy : ChannelPolicy) : outcome ChannelAgentError ChannelAgent :=
  policy ← channel_policy_validate policy;
  Ok (mkChannelAgent (transaction_new transaction_seed quarantine_duration) policy
        (if operation_seed =? 0 then 1 else operation_seed) [] None None None).

Abbreviation agent := (st ChannelAgent ChannelAgentError).

Definition set_transactions (x : TransactionCore) (self : ChannelAgent) : ChannelAgent :=
  mkChannelAgent x (ag_policy self) (ag_next_operation_id self) (ag_pending self)
    (ag_active self) (ag_outbound self) (ag_completed_measurement self).
Definition set_next_operation_id (x : Z) (self : ChannelAgent) : ChannelAgent :=
  mkChannelAgent (ag_transactions self) (ag_policy self) x (ag_pending self)
    (ag_active self) (ag_outbound self) (ag_completed_measurement self).
Definition set_pending (x : list PendingWork) (self : ChannelAgent) : ChannelAgent :=
  mkChannelAgent (ag_transactions self) (ag_policy self) (ag_next_operation_id self) x
    (ag_active self) (ag_outbound self) (ag_completed_measurement self).
Definition set_active (x : option ActiveWork) (self : ChannelAgent) : ChannelAgent :=
  mkChannelAgent (ag_transactions self) (ag_policy self) (ag_next_operation_id self)
    (ag_pending self) x (ag_outbound self) (ag_completed_measurement self).
Definition set_outbound (x : option Frame) (self : ChannelAgent) : ChannelAgent :=
  mkChannelAgent (ag_transactions self) (ag_policy self) (ag_next_operation_id self)
    (ag_pending self) (ag_active self) x (ag_completed_measurement self).
Definition set_completed_measurement (x : option MeasurementTransfer) (self : ChannelAgent) :
    ChannelAgent :=
  mkChannelAgent (ag_transactions self) (ag_policy self) (ag_next_operation_id self)
    (ag_pending self) (ag_active self) (ag_outbound self) x.

(** ** Access to the parts of the agent *)

(** A call on [self.transactions]. *)
Definition on_transactions {A : Type} (m : transaction A) : agent A :=
  zoom ag_transactions set_transactions AgentTransaction m.

(** [self.active.as_mut().ok_or(InvariantViolation)?]. *)
Definition active_work : agent ActiveWork :=
  self ← get; lift (ok_or (ag_active self) InvariantViolation).

Definition set_work (w : PendingWork) (self : ChannelAgent) : ChannelAgent :=
  set_active ((fun a => mkActiveWork w (aw_retry_not_before a) (aw_attempts_started a))
                <$> ag_active self) self.
Definition set_retry_not_before (t : MonotonicMicros) (self : ChannelAgent) : ChannelAgent :=
  set_active ((fun a => mkActiveWork (aw_work a) t (aw_attempts_started a)) <$> ag_active self) self.
Definition set_attempts_started (n : Z) (self : ChannelAgent) : ChannelAgent :=
  set_active ((fun a => mkActiveWork (aw_work a) (aw_retry_not_before a) n) <$> ag_active self) self.

(** A call on the operation [s] inside the active work, which [wrap] puts back;
    the operation may have changed when the call fails. *)
Definition on_work {S E A : Type} (wrap : S -> PendingWork) (conv : E -> ChannelAgentError)
    (m : st S E A) (s : S) : agent A :=
  fun self => let '(r, s') := m s in (map_err conv r, set_work (wrap s') self).

(** [active.retry_not_before = now.checked_add(self.policy.retry_delay)?]. *)
Definition delay_retry (now : MonotonicMicros) : agent unit :=
  self ← get;
  t ← lift (ok_or (monotonic_checked_add now (retry_delay (ag_policy self))) AgentTimeOverflow);
  modify (set_retry_not_before t).

Definition queued_work_items (self : ChannelAgent) : Z :=
  Z.of_nat (length (ag_pending self))
  + (if is_some (ag_active self) then 1 else 0)
  + (if is_some (ag_completed_measurement self) then 1 else 0).

Definition completed_measurement_node (self : ChannelAgent) : option Z :=
  mt_node_address <$> ag_completed_measurement self.

Definition take_completed_measurement : agent (option MeasurementTransfer) :=
  self ← get;
  _ ← modify (set_completed_measurement None);
  mret (ag_completed_measurement self).

(** ** Submitting work *)

Definition ensure_queue_capacity : agent unit :=
  self ← get;
  if max_pending_work_items (ag_policy self) <=? queued_work_items self then throw QueueFull
  else mret tt.

Definition operation_id_in_use (self : ChannelAgent) (id : Z) : bool :=
  match ag_active self with
  | Some a => work_uses_operation_id (aw_work a) id
  | None => false
  end || existsb (fun w => work_uses_operation_id w id) (ag_pending self).

(** [next_operation_id.wrapping_add(1)], never [0]. *)
Definition succ_operation_id (id : Z) : Z :=
  let next := wrapping_add 32 id 1 in if next =? 0 then 1 else next.

Fixpoint allocate_loop (attempts : nat) : agent Z :=
  match attempts with
  | O => throw OperationIdExhausted
  | S attempts =>
      self ← get;
      let candidate := ag_next_operation_id self in
      _ ← modify (set_next_operation_id (succ_operation_id candidate));
      if negb (candidate =? 0) && negb (operation_id_in_use self candidate) then mret candidate
      else allocate_loop attempts
  end.

(** [usize] is 64 bits wide. *)
Definition allocate_operation_id : agent Z :=
  self ← get;
  allocate_loop (Z.to_nat (saturating_add 64 (max_pending_work_items (ag_policy self)) 1)).

(** [self.pending.push_back(work)]. *)
Definition push_back (w : PendingWork) : agent unit :=
  modify (fun self => set_pending (ag_pending self ++ [w]) self).

Definition submit_lifecycle (node_address : Z) (operation : RuntimeOperation)
    (requested_profile : ObservabilityProfile) : agent Z :=
  _ ← ensure_queue_capacity;
  id ← allocate_operation_id;
  o ← lift (map_err AgentLifecycle
        (lifecycle_new node_address (mkCommand id operation requested_profile)));
  _ ← push_back (WorkLifecycle o);
  mret id.

Definition submit_configuration (o : ConfigurationOperation) : agent unit :=
  _ ← ensure_queue_capacity;
  push_back (WorkConfiguration o).

Definition submit_get_configuration (node_address : Z) : agent unit :=
  o ← lift (map_err AgentConfiguration (configuration_new node_address ConfigGet));
  submit_configuration o.

Definition submit_validate_configuration (node_address : Z) (value : MeasurementConfiguration) :
    agent unit :=
  o ← lift (map_err AgentConfiguration (configuration_new node_address (ConfigValidate value)));
  submit_configuration o.

Definition submit_apply_configuration (node_address expected_revision : Z)
    (value : MeasurementConfiguration) : agent Z :=
  _ ← ensure_queue_capacity;
  id ← allocate_operation_id;
  o ← lift (map_err AgentConfiguration (configuration_new node_address
        (ConfigApply (mkOperationRequest id expected_revision value))));
  _ ← push_back (WorkConfiguration o);
  mret id.

Definition submit_reset_configuration (node_address expected_revision : Z) : agent Z :=
  _ ← ensure_queue_capacity;
  id ← allocate_operation_id;
  o ← lift (map_err AgentConfiguration (configuration_new node_address
        (ConfigReset (mkReset id expected_revision))));
  _ ← push_back (WorkConfiguration o);
  mret id.

Definition submit_commissioning_probe (request : ProbeSlotRequest) : agent unit :=
  _ ← ensure_queue_capacity;
  o ← lift (map_err AgentCommissioning (commissioning_new (Probe request)));
  push_back (WorkCommissioning o).

Definition submit_commissioning_assignment (round_nonce : Z) (hardware_id : HardwareId)
    (node_address : Z) : agent Z :=
  _ ← ensure_queue_capacity;
  id ← allocate_operation_id;
  o ← lift (map_err AgentCommissioning (commissioning_new
        (Assign (mkAssign id round_nonce hardware_id node_address))));
  _ ← push_back (WorkCommissioning o);
  mret id.

Definition submit_handshake (requirements : HandshakeRequirements) : agent unit :=
  _ ← ensure_queue_capacity;
  push_back (WorkHandshake (handshake_new requirements)).

Definition host_or_broadcast (address : Z) : bool :=
  (address =? HOST_ADDRESS) || (address =? BROADCAST_ADDRESS).

Definition submit_stream_state (node_address : Z) : agent unit :=
  _ ← ensure_queue_capacity;
  if host_or_broadcast node_address then throw (InvalidStreamStateNodeAddress node_address)
  else push_back (WorkStreamState node_address).

(** [try_submit_measurement]; a rejected transfer goes back to the caller with
    the error. [submit_measurement] keeps only the error. *)
Definition submit_measurement (t : MeasurementTransfer) : agent unit :=
  _ ← ensure_queue_capacity;
  push_back (WorkMeasurement t).

Definition submit_time_sync (node_address : Z) (expected_boot_epoch : BootEpoch) : agent unit :=
  _ ← ensure_queue_capacity;
  if host_or_broadcast node_address then throw (InvalidTimeNodeAddress node_address)
  else if expected_boot_epoch =? 0 then throw ZeroTimeBootEpoch
  else push_back (WorkTimeSync (mkTimeSync node_address expected_boot_epoch None)).

Definition submit_telemetry (node_address : Z) : agent unit :=
  _ ← ensure_queue_capacity;
  if host_or_broadcast node_address then throw (InvalidTelemetryNodeAddress node_address)
  else push_back (WorkTelemetry node_address).

(** ** Timers *)

Definition handoff_active_measurement : agent Z :=
  a ← active_work;
  _ ← modify (set_active None);
  match aw_work a with
  | WorkMeasurement t =>
      self ← get;
      _ ← modify (set_completed_measurement (Some t));
      if is_some (ag_completed_measurement self) then throw InvariantViolation
      else mret (mt_node_address t)
  | _ => throw InvariantViolation
  end.

(** The active work learns of the timeout: [inl] is an event to return at once,
    [inr] the event to return after the retry is scheduled. *)
Definition mark_work_timed_out (w : PendingWork) : agent (ChannelEvent + ChannelEvent) :=
  match w with
  | WorkHandshake h =>
      mret (inr (EvHandshakeTimedOut (req_node_address (hs_requirements h)) (hs_phase h)))
  | WorkStreamState node => mret (inr (EvStreamStateTimedOut node))
  | WorkLifecycle o =>
      _ ← on_work WorkLifecycle AgentLifecycle lifecycle_mark_timeout o;
      mret (inr (EvLifecycleTimedOut (lo_node_address o) (cmd_operation_id (lo_command o))))
  | WorkConfiguration o =>
      _ ← on_work WorkConfiguration AgentConfiguration configuration_mark_timeout o;
      mret (inr (EvConfigurationTimedOut (co_node_address o)
                   (configuration_operation_id (co_request o))))
  | WorkCommissioning o =>
      _ ← on_work WorkCommissioning AgentCommissioning commissioning_mark_timeout o;
      match mo_request o with
      | Probe probe =>
          _ ← modify (set_active None);
          mret (inl (EvCommissioningSlotEmpty (probe_round_nonce probe) (slot_index probe)))
      | Assign assign => mret (inr (EvCommissioningTimedOut (assign_operation_id assign)))
      end
  | WorkMeasurement t =>
      _ ← on_work WorkMeasurement AgentMeasurement mark_attempt_uncertain t;
      mret (inr (EvMeasurementTimedOut (mt_node_address t)))
  | WorkTimeSync a => mret (inr (EvTimeSyncTimedOut (ts_node_address a)))
  | WorkTelemetry node => mret (inr (EvTelemetryTimedOut node))
  end.

Definition is_measurement (w : PendingWork) : bool :=
  match w with WorkMeasurement _ => true | _ => false end.
(** Work that is not retried. *)
Definition is_one_shot (w : PendingWork) : bool :=
  match w with WorkTimeSync _ | WorkTelemetry _ => true | _ => false end.

Definition attempts_exhausted (self : ChannelAgent) (a : ActiveWork) : bool :=
  is_measurement (aw_work a)
  && (measurement_attempts_per_slot (ag_policy self) <=? aw_attempts_started a).

Definition poll_timed_out (now : MonotonicMicros) : agent ChannelEvent :=
  a ← active_work;
  marked ← mark_work_timed_out (aw_work a);
  match marked with
  | inl event => mret event
  | inr event =>
      self ← get;
      _ ← delay_retry now;
      if attempts_exhausted self a then
        node ← handoff_active_measurement;
        mret (EvMeasurementAttemptsExhausted node)
      else if is_one_shot (aw_work a) then
        _ ← modify (set_active None);
        mret event
      else mret event
  end.

(** ** Sending *)

(** [self.transactions.prepare(request)?.request_frame(payload)?]. *)
Definition prepare_frame (request : RequestSpec) (payload : bytes) : agent (option Frame) :=
  prepared ← on_transactions (prepare request);
  frame ← lift (map_err AgentFrame (prepared_request_frame prepared payload));
  mret (Some frame).

Definition prepare_routed_frame (request : RoutedRequestSpec) (payload : bytes) :
    agent (option Frame) :=
  prepared ← on_transactions (prepare_routed request);
  frame ← lift (map_err AgentFrame (prepared_request_frame prepared payload));
  mret (Some frame).

(** A retry-safe request that asks a service for one message. *)
Definition read_request (node_address service message : Z) (timeout : DurationMicros) : RequestSpec :=
  mkRequestSpec node_address service message message timeout RetrySafe.

(** The frame of the next attempt of the active work; [None] when the work is
    not ready to send. *)
Definition attempt_frame (w : PendingWork) : agent (option Frame) :=
  self ← get;
  let timeout := transaction_timeout (ag_policy self) in
  match w with
  | WorkHandshake h =>
      let node := req_node_address (hs_requirements h) in
      match hs_phase h with
      | NeedIdentity => prepare_frame (identity_request node timeout) []
      | NeedCapabilities => prepare_frame (capabilities_request node timeout) []
      | HandshakeReady => throw InvariantViolation
      end
  | WorkStreamState node =>
      prepare_frame (read_request node (service_code Application.Measurement)
                        GET_STREAM_STATE_MESSAGE_ID timeout) []
  | WorkLifecycle o =>
      if negb (sendable (lo_phase o)) then mret None
      else
        attempt ← on_work WorkLifecycle AgentLifecycle (lifecycle_begin_attempt timeout) o;
        payload ← lift (lifecycle_attempt_payload attempt);
        prepare_frame (la_request attempt) payload
  | WorkConfiguration o =>
      if negb (sendable (co_phase o)) then mret None
      else
        attempt ← on_work WorkConfiguration AgentConfiguration (configuration_begin_attempt timeout) o;
        payload ← lift (configuration_attempt_payload attempt);
        prepare_frame (ca_request attempt) payload
  | WorkCommissioning o =>
      if negb (sendable (mo_phase o)) then mret None
      else
        attempt ← on_work WorkCommissioning AgentCommissioning (commissioning_begin_attempt timeout) o;
        payload ← lift (commissioning_attempt_payload attempt);
        prepare_routed_frame (ma_routed_request attempt) payload
  | WorkMeasurement t =>
      attempt ← on_work WorkMeasurement AgentMeasurement (begin_attempt timeout) t;
      _ ← modify (fun self =>
        set_attempts_started (saturating_add 8
          match ag_active self with Some a => aw_attempts_started a | None => 0 end 1) self);
      prepare_frame (ma_request attempt) (ma_payload attempt)
  | WorkTimeSync a =>
      _ ← modify (set_work (WorkTimeSync
            (mkTimeSync (ts_node_address a) (ts_expected_boot_epoch a) None)));
      prepare_frame (read_request (ts_node_address a) TIME_SERVICE_ID
                        OBSERVE_CLOCK_MESSAGE_ID timeout) []
  | WorkTelemetry node =>
      prepare_frame (read_request node TELEMETRY_SERVICE_ID
                        GET_TELEMETRY_SNAPSHOT_MESSAGE_ID timeout) []
  end.

(** [self.pending.pop_front()] into [self.active]. *)
Definition activate_next (now : MonotonicMicros) : agent unit :=
  modify (fun self =>
    match ag_active self, ag_pending self with
    | None, w :: rest => set_pending rest (set_active (Some (mkActiveWork w now 0)) self)
    | _, _ => self
    end).

Definition poll_send (now : MonotonicMicros) : agent ChannelEvent :=
  _ ← activate_next now;
  self ← get;
  match ag_active self with
  | None => mret EvIdle
  | Some a =>
      if (now <? aw_retry_not_before a) || negb (is_idle (ag_transactions self)) then mret EvIdle
      else
        frame ← attempt_frame (aw_work a);
        match frame with
        | None => mret EvIdle
        | Some frame =>
            _ ← modify (set_outbound (Some frame));
            mret EvTransmitReady
        end
  end.

Definition poll (now : MonotonicMicros) : agent ChannelEvent :=
  self ← get;
  if is_some (ag_outbound self) then mret EvTransmitReady
  else
    match completed_measurement_node self with
    | Some node => mret (EvMeasurementHandoffPending node)
    | None =>
        timer ← on_transactions (on_timer now);
        match timer with
        | TimedOut _ _ _ => poll_timed_out now
        | QuarantineEnded => mret EvQuarantineEnded
        | TimerNone => poll_send now
        end
    end.

Definition take_outbound : agent (option Frame) :=
  self ← get;
  _ ← modify (set_outbound None);
  mret (ag_outbound self).

Definition transmit_completed (now : MonotonicMicros) : agent unit :=
  self ← get;
  if is_some (ag_outbound self) then throw OutboundNotTaken
  else
    _ ← on_transactions (mark_transmitted now);
    self ← get;
    match aw_work <$> ag_active self with
    | Some (WorkTimeSync a) =>
        modify (set_work (WorkTimeSync
          (mkTimeSync (ts_node_address a) (ts_expected_boot_epoch a) (Some now))))
    | _ => mret tt
    end.

Definition mark_work_transmit_failed (w : PendingWork) : agent unit :=
  match w with
  | WorkLifecycle o => on_work WorkLifecycle AgentLifecycle lifecycle_mark_timeout o
  | WorkConfiguration o => on_work WorkConfiguration AgentConfiguration configuration_mark_timeout o
  | WorkCommissioning o =>
      on_work WorkCommissioning AgentCommissioning commissioning_mark_transmit_failed o
  | WorkMeasurement t => on_work WorkMeasurement AgentMeasurement mark_attempt_uncertain t
  | WorkHandshake _ | WorkStreamState _ | WorkTimeSync _ | WorkTelemetry _ => mret tt
  end.

Definition transmit_failed (now : MonotonicMicros) : agent ChannelEvent :=
  _ ← modify (set_outbound None);
  _ ← on_transactions cancel_transmit;
  a ← active_work;
  _ ← mark_work_transmit_failed (aw_work a);
  self ← get;
  _ ← delay_retry now;
  if attempts_exhausted self a then
    node ← handoff_active_measurement;
    mret (EvMeasurementAttemptsExhausted node)
  else
    _ ← (if is_one_shot (aw_work a) then modify (set_active None) else mret tt);
    mret (EvWireAttemptFailed (work_node_address (aw_work a))).

(** ** Receiving *)

(** After an accepted payload: a ready handshake leaves the channel. *)
Definition finish_handshake (now : MonotonicMicros) (node : Z) : agent ChannelEvent :=
  a ← active_work;
  match aw_work a with
  | WorkHandshake h =>
      if bool_decide (hs_phase h = HandshakeReady) then
        found ← lift (ok_or (hs_identity h) InvariantViolation);
        capabilities ← lift (ok_or (hs_capabilities h) InvariantViolation);
        _ ← modify (set_active None);
        mret (EvHandshakeComplete node found capabilities)
      else
        _ ← modify (set_retry_not_before now);
        mret (EvHandshakeProgress node (hs_phase h))
  | _ => throw InvariantViolation
  end.

Definition receive_handshake (now : MonotonicMicros) (h : NodeHandshake) (payload : bytes) :
    agent ChannelEvent :=
  _ ← match hs_phase h with
      | NeedIdentity => on_work WorkHandshake AgentHandshake (accept_identity payload) h
      | NeedCapabilities => on_work WorkHandshake AgentHandshake (accept_capabilities payload) h
      | HandshakeReady => throw InvariantViolation
      end;
  finish_handshake now (req_node_address (hs_requirements h)).

Definition receive_stream_state (now : MonotonicMicros) (node : Z) (payload : bytes) :
    agent ChannelEvent :=
  match decode_stream_state_success payload with
  | Ok state => _ ← modify (set_active None); mret (EvStreamState node state)
  | Err (RemoteError Busy) => _ ← delay_retry now; mret (EvStreamStateNotAccepted node)
  | Err error => _ ← modify (set_active None); throw (AgentStreamStateWire error)
  | Panic => lift Panic
  end.

Definition receive_lifecycle (now : MonotonicMicros) (o : LifecycleOperation) (payload : bytes) :
    agent ChannelEvent :=
  answer ← on_work WorkLifecycle AgentLifecycle (lifecycle_accept_response payload) o;
  match answer with
  | LifecycleNotAccepted =>
      _ ← delay_retry now;
      mret (EvLifecycleNotAccepted (lo_node_address o) (cmd_operation_id (lo_command o)))
  | LifecycleInProgress result =>
      _ ← delay_retry now;
      mret (EvLifecycleProgress (lo_node_address o) (rr_operation_id result) (rr_state result))
  | LifecycleComplete result =>
      _ ← modify (set_active None);
      mret (EvLifecycleComplete (lo_node_address o) result)
  end.

Definition receive_configuration (now : MonotonicMicros) (o : ConfigurationOperation)
    (payload : bytes) : agent ChannelEvent :=
  answer ← on_work WorkConfiguration AgentConfiguration (configuration_accept_response payload) o;
  match answer with
  | ConfigNotAccepted =>
      _ ← delay_retry now;
      mret (EvConfigurationNotAccepted (co_node_address o)
              (configuration_operation_id (co_request o)))
  | _ =>
      _ ← modify (set_active None);
      mret (EvConfigurationComplete (co_node_address o) answer)
  end.

Definition receive_commissioning (now : MonotonicMicros) (o : CommissioningOperation)
    (payload : bytes) : agent ChannelEvent :=
  answer ← on_work WorkCommissioning AgentCommissioning (commissioning_accept_response payload) o;
  match answer with
  | CommissioningNotAccepted =>
      id ← lift (ok_or (commissioning_operation_id (mo_request o)) InvariantViolation);
      _ ← delay_retry now;
      mret (EvCommissioningNotAccepted id)
  | _ =>
      _ ← modify (set_active None);
      mret (EvCommissioningComplete answer)
  end.

(** The event of an answer that ends the transfer's turn. *)
Definition measurement_event (node : Z) (answer : MeasurementOutcome) : ChannelEvent :=
  match answer with
  | NotAccepted => EvMeasurementNotAccepted node
  | NoData state => EvMeasurementNoData node state
  | PersistenceRequired kind => EvMeasurementPersistenceRequired node kind
  | OutcomeRecoveryRequired reason => EvMeasurementRecoveryRequired node reason
  end.

Definition receive_measurement (now : MonotonicMicros) (t : MeasurementTransfer) (payload : bytes) :
    agent ChannelEvent :=
  let node := mt_node_address t in
  answer ← on_work WorkMeasurement AgentMeasurement (accept_response payload) t;
  if bool_decide (answer = NotAccepted) then
    _ ← delay_retry now;
    a ← active_work;
    self ← get;
    if measurement_attempts_per_slot (ag_policy self) <=? aw_attempts_started a then
      node ← handoff_active_measurement;
      mret (EvMeasurementAttemptsExhausted node)
    else mret (EvMeasurementNotAccepted node)
  else
    _ ← handoff_active_measurement;
    mret (measurement_event node answer).

Definition receive_time_sync (now : MonotonicMicros) (t : TimeSyncAttempt) (payload : bytes) :
    agent ChannelEvent :=
  let node := ts_node_address t in
  _ ← modify (set_active None);
  match decode_time_response payload with
  | Ok decoded =>
      if negb (time_boot_epoch decoded =? ts_expected_boot_epoch t) then throw TimeBootEpochMismatch
      else
        match ts_host_send_us t with
        | None => throw TimeRequestNotTransmitted
        | Some host_send =>
            match clock_observation_new (time_boot_epoch decoded) host_send
                    (ObservationWire.node_receive_us decoded) (ObservationWire.node_send_us decoded) now with
            | Ok value => mret (EvTimeObservation node value)
            | Err error => mret (EvTimeSyncInvalidObservation node error)
            | Panic => lift Panic
            end
        end
  | Err (TimeRemote _) => mret (EvTimeSyncNotAccepted node)
  | Err error => throw (AgentTimeWire error)
  | Panic => lift Panic
  end.

Definition receive_telemetry (node : Z) (payload : bytes) : agent ChannelEvent :=
  _ ← modify (set_active None);
  match decode_telemetry_snapshot payload with
  | Ok snapshot => mret (EvTelemetrySnapshot node snapshot)
  | Err (TelemetryRemote _) => mret (EvTelemetryNotAccepted node)
  | Err error => throw (AgentTelemetryWire error)
  | Panic => lift Panic
  end.

(** The accepted response goes to the active work. *)
Definition receive_accepted (now : MonotonicMicros) (payload : bytes) : agent ChannelEvent :=
  a ← active_work;
  match aw_work a with
  | WorkHandshake h => receive_handshake now h payload
  | WorkStreamState node => receive_stream_state now node payload
  | WorkLifecycle o => receive_lifecycle now o payload
  | WorkConfiguration o => receive_configuration now o payload
  | WorkCommissioning o => receive_commissioning now o payload
  | WorkMeasurement t => receive_measurement now t payload
  | WorkTimeSync t => receive_time_sync now t payload
  | WorkTelemetry node => receive_telemetry node payload
  end.

Definition agent_receive (now : MonotonicMicros) (frame : Frame) : agent ChannelEvent :=
  disposition ← on_transactions (Transaction.receive now frame);
  match disposition with
  | Unrelated => mret EvUnrelatedResponse
  | Late => mret EvLateResponse
  | Unsolicited => mret EvUnsolicitedResponse
  | Accepted =>
      payload ← lift (map_err AgentFrame (frame_payload frame));
      receive_accepted now payload
  end.

(** ** Abandoning control work *)

Fixpoint remove_first (p : PendingWork -> bool) (l : list PendingWork) :
    option (list PendingWork) :=
  match l with
  | [] => None
  | w :: rest => if p w then Some rest else (cons w) <$> remove_first p rest
  end.

Definition abandon_control_work (key : ControlWorkKey) : agent AbandonedControlWork :=
  self ← get;
  if match ag_active self with
     | Some a => matches_control_key (aw_work a) key
     | None => false
     end
  then
    if is_some (ag_outbound self) || negb (is_idle (ag_transactions self))
    then throw (ControlAttemptInFlight key)
    else
      _ ← modify (set_active None);
      mret (AbandonedActive key)
  else
    match remove_first (fun w => matches_control_key w key) (ag_pending self) with
    | None => throw (ControlWorkNotFound key)
    | Some rest =>
        _ ← modify (set_pending rest);
        mret (AbandonedQueued key)
    end.
