(* ===== verification/AgentHistory.v ===== *)
(** * Histories of a channel agent

    Whatever its owner submits, polls, transmits, receives and abandons, in
    whatever order, the agent keeps one piece of work on the channel, never
    reaches one of its own invariant violations and gives every measurement
    transfer back in the order of submission. *)

From S2P Require Export ChannelAgent.

(** ** Calls *)

Inductive Submission :=
| SubmitLifecycle (node_address : Z) (op : RuntimeOperation) (profile : ObservabilityProfile)
| SubmitGetConfiguration (node_address : Z)
| SubmitValidateConfiguration (node_address : Z) (value : MeasurementConfiguration)
| SubmitApplyConfiguration (node_address revision : Z) (value : MeasurementConfiguration)
| SubmitResetConfiguration (node_address revision : Z)
| SubmitCommissioningProbe (request : ProbeSlotRequest)
| SubmitCommissioningAssignment (nonce : Z) (hardware_id : HardwareId) (node_address : Z)
| SubmitHandshake (requirements : HandshakeRequirements)
| SubmitStreamState (node_address : Z)
| SubmitTimeSync (node_address : Z) (epoch : BootEpoch)
| SubmitTelemetry (node_address : Z).

Definition submit (s : Submission) : agent (option Z) :=
  match s with
  | SubmitLifecycle node op profile => id ← submit_lifecycle node op profile; mret (Some id)
  | SubmitGetConfiguration node => _ ← submit_get_configuration node; mret None
  | SubmitValidateConfiguration node value =>
      _ ← submit_validate_configuration node value; mret None
  | SubmitApplyConfiguration node revision value =>
      id ← submit_apply_configuration node revision value; mret (Some id)
  | SubmitResetConfiguration node revision =>
      id ← submit_reset_configuration node revision; mret (Some id)
  | SubmitCommissioningProbe request => _ ← submit_commissioning_probe request; mret None
  | SubmitCommissioningAssignment nonce hardware_id node =>
      id ← submit_commissioning_assignment nonce hardware_id node; mret (Some id)
  | SubmitHandshake requirements => _ ← submit_handshake requirements; mret None
  | SubmitStreamState node => _ ← submit_stream_state node; mret None
  | SubmitTimeSync node epoch => _ ← submit_time_sync node epoch; mret None
  | SubmitTelemetry node => _ ← submit_telemetry node; mret None
  end.

Inductive AgentCall :=
| ASubmit (s : Submission)
| ASubmitMeasurement (t : MeasurementTransfer)
| APoll (now : MonotonicMicros)
| ATakeOutbound
| ATransmitCompleted (now : MonotonicMicros)
| ATransmitFailed (now : MonotonicMicros)
| AReceive (now : MonotonicMicros) (frame : Frame)
| ATakeMeasurement
| AAbandon (key : ControlWorkKey).

Inductive AgentReply :=
| ReplyDone
| ReplyOperationId (id : option Z)
| ReplyEvent (event : ChannelEvent)
| ReplyFrame (frame : option Frame)
| ReplyTransfer (t : option MeasurementTransfer)
| ReplyAbandoned (work : AbandonedControlWork).

Definition agent_call (c : AgentCall) : agent AgentReply :=
  match c with
  | ASubmit s => id ← submit s; mret (ReplyOperationId id)
  | ASubmitMeasurement t => _ ← submit_measurement t; mret ReplyDone
  | APoll now => event ← poll now; mret (ReplyEvent event)
  | ATakeOutbound => frame ← take_outbound; mret (ReplyFrame frame)
  | ATransmitCompleted now => _ ← transmit_completed now; mret ReplyDone
  | ATransmitFailed now => event ← transmit_failed now; mret (ReplyEvent event)
  | AReceive now frame => event ← agent_receive now frame; mret (ReplyEvent event)
  | ATakeMeasurement => t ← take_completed_measurement; mret (ReplyTransfer t)
  | AAbandon key => work ← abandon_control_work key; mret (ReplyAbandoned work)
  end.

Fixpoint agent_run (cs : list AgentCall) (self : ChannelAgent) :
    list (outcome ChannelAgentError AgentReply) * ChannelAgent :=
  match cs with
  | [] => ([], self)
  | c :: cs =>
      let '(r, self) := agent_call c self in
      let '(rs, self) := agent_run cs self in
      (r :: rs, self)
  end.

(** ** What the arguments of a call satisfy *)

(** A transfer around some node's session, as [MeasurementTransfer] relates it
    to the delivery contract. *)
Definition transfer_ok (t : MeasurementTransfer) : Prop :=
  exists hw e d open, hardware_id_typed hw /\ u64 e /\ transfer_rel hw e d open t.

Definition submission_typed (s : Submission) : Prop :=
  match s with
  | SubmitLifecycle _ _ _ | SubmitGetConfiguration _ => True
  | SubmitValidateConfiguration _ value => typed value
  | SubmitApplyConfiguration _ revision value => u32 revision /\ typed value
  | SubmitResetConfiguration _ revision => u32 revision
  | SubmitCommissioningProbe request => typed request
  | SubmitCommissioningAssignment nonce hardware_id node =>
      u64 nonce /\ hardware_id_typed hardware_id /\ u8 node
  | SubmitHandshake requirements => typed requirements
  | SubmitStreamState _ | SubmitTimeSync _ _ | SubmitTelemetry _ => True
  end.

Definition call_typed (c : AgentCall) : Prop :=
  match c with
  | ASubmit s => submission_typed s
  | ASubmitMeasurement t => transfer_ok t
  | AReceive _ frame => no_panic (frame_payload frame)
  | _ => True
  end.

(** ** The invariant *)

Definition all_work (a : ChannelAgent) : list PendingWork :=
  match ag_active a with Some w => [aw_work w] | None => [] end ++ ag_pending a.

Definition work_operation_id (w : PendingWork) : option Z :=
  match w with
  | WorkLifecycle o => Some (cmd_operation_id (lo_command o))
  | WorkConfiguration o => configuration_operation_id (co_request o)
  | WorkCommissioning o => commissioning_operation_id (mo_request o)
  | _ => None
  end.

Definition work_transfer (w : PendingWork) : option MeasurementTransfer :=
  match w with WorkMeasurement t => Some t | _ => None end.

(** What a queued piece of work satisfies. *)
Definition work_ok (w : PendingWork) : Prop :=
  match w with
  | WorkHandshake h =>
      typed (hs_requirements h) /\ handshake_ok (hs_requirements h) h /\ hs_phase h <> HandshakeReady
  | WorkLifecycle o => exists encoded, encode_lifecycle_request (lo_command o) = Ok encoded
  | WorkConfiguration o => config_validate_request (co_request o) = Ok tt
  | WorkCommissioning o => commissioning_validate_request (mo_request o) = Ok tt
  | WorkMeasurement t => transfer_ok t
  | WorkStreamState _ | WorkTimeSync _ | WorkTelemetry _ => True
  end.

(** The transfers the agent holds, in the order it will give them back. *)
Definition held (a : ChannelAgent) : list MeasurementTransfer :=
  match ag_completed_measurement a with Some t => [t] | None => [] end
  ++ omap work_transfer (all_work a).

(** The calls of the agent on a transfer: attempts and answers, never storage. *)
Definition wire_call (c : TransferCall) : bool :=
  match c with
  | CallBeginAttempt _ | CallMarkAttemptUncertain | CallAcceptResponse _ => true
  | CallTakePending | CallConfirm _ => false
  end.

(** [t'] is [t] after some of the agent's calls on it. *)
Definition evolves (t t' : MeasurementTransfer) : Prop :=
  exists cs, Forall wire_call cs /\ snd (transfer_run cs t) = t'.

Definition on_wire (s : State) : bool :=
  match s with Transmitting _ | Awaiting _ => true | _ => false end.

(** [f] is the request of the exchange [tc] is transmitting: what
    [PreparedTransaction::request_frame] builds for it; the node of the work [w] answers it. *)
Definition carries (tc : TransactionCore) (w : PendingWork) (f : Frame) : Prop :=
  exists p payload, state tc = Transmitting p /\ pt_node_address p = work_node_address w /\
    prepared_request_frame p payload = Ok f.

(** [limit] is the queue's capacity; [owed] are the transfers submitted and not
    yet given back. *)
Record agent_inv (limit : Z) (owed : list MeasurementTransfer) (a : ChannelAgent) : Prop := {
  inv_on_wire : on_wire (state (ag_transactions a)) = true -> is_some (ag_active a) = true;
  inv_outbound : forall f, ag_outbound a = Some f ->
    exists x, ag_active a = Some x /\ carries (ag_transactions a) (aw_work x) f;
  inv_completed : is_some (ag_completed_measurement a) = true -> ag_active a = None;
  inv_work : Forall work_ok (all_work a);
  inv_ids : NoDup (omap work_operation_id (all_work a));
  inv_nonzero : Forall (fun id => 1 <= id < 2 ^ 32) (omap work_operation_id (all_work a));
  inv_next : 1 <= ag_next_operation_id a < 2 ^ 32;
  inv_limit : max_pending_work_items (ag_policy a) = limit;
  inv_bound : queued_work_items a <= max_pending_work_items (ag_policy a);
  inv_owed : Forall2 evolves owed (held a)
}.

(** ** Safe computations *)

Definition internal (e : ChannelAgentError) : Prop := e = InvariantViolation.

#[export] Instance evolves_reflexive : Reflexive evolves.
Proof. intros t. exists []. by split. Qed.

#[export] Instance evolves_transitive : Transitive evolves.
Proof.
  intros t1 t2 t3 (cs1 & H1 & <-) (cs2 & H2 & <-). exists (cs1 ++ cs2).
  split; [by apply Forall_app_2|]. clear H1 H2. revert t1.
  induction cs1 as [|c cs1 IH]; intros t1; [done|]. cbn [app transfer_run].
  destruct (transfer_call c t1) as [r t']. specialize (IH t').
  destruct (transfer_run (cs1 ++ cs2) t') as [rs t3]. destruct (transfer_run cs1 t') as [rs' t4].
  cbn [snd] in *. done.
Qed.

(** How a call may change the active work. *)
Record work_step (w w' : PendingWork) : Prop := {
  step_ok : work_ok w';
  step_id : work_operation_id w' = work_operation_id w;
  step_node : work_node_address w' = work_node_address w;
  step_transfer : option_Forall2 evolves (work_transfer w) (work_transfer w')
}.

(** *** Steps of the work's own state machines *)

Lemma lifecycle_step (o o' : LifecycleOperation) :
  op_command o' = op_command o -> work_ok (WorkLifecycle o) ->
  work_step (WorkLifecycle o) (WorkLifecycle o').
Proof.
  cbn. intros [= Hn Hc] Hok. split; cbn; rewrite ?Hc; [done|done|done|constructor].
Qed.

Lemma configuration_step (o o' : ConfigurationOperation) :
  op_command o' = op_command o -> work_ok (WorkConfiguration o) ->
  work_step (WorkConfiguration o) (WorkConfiguration o').
Proof.
  cbn. intros [= Hn Hc] Hok. split; cbn; rewrite ?Hc; [done|done|done|constructor].
Qed.

Lemma commissioning_step (o o' : CommissioningOperation) :
  op_command o' = op_command o -> work_ok (WorkCommissioning o) ->
  work_step (WorkCommissioning o) (WorkCommissioning o').
Proof. cbn. intros Hc Hok. split; cbn; rewrite ?Hc; [done|done|done|constructor]. Qed.

(** No call of a transfer changes its node. *)
Lemma transfer_call_address (c : TransferCall) (t t' : MeasurementTransfer) r :
  transfer_call c t = (r, t') -> mt_node_address t' = mt_node_address t.
Proof.
  intros H. destruct c; cbn [transfer_call] in H;
    unfold begin_attempt, mark_attempt_uncertain, accept_response, accept_decoded,
      transfer_take_pending_persistence, transfer_confirm_durable, on_session in H;
    st_run H; simplify_eq; done.
Qed.

(** One call of a transfer, seen through its delivery relation. *)
Lemma transfer_step (c : TransferCall) (t t' : MeasurementTransfer) r :
  wire_call c -> transfer_ok t -> transfer_call c t = (r, t') ->
  work_step (WorkMeasurement t) (WorkMeasurement t') /\ r <> Panic.
Proof.
  intros Hw (hw & e & d & open & Hhw & He & Hrel) Hc.
  destruct (transfer_call_refines hw e Hhw He c d open t r t' Hrel Hc)
    as (Hexp & d' & open' & Hrel' & _).
  split; [|by intros ->]. split; [by exists hw, e, d', open'|done|by eapply transfer_call_address|].
  cbn. constructor.
  exists [c]. split; [by constructor|]. cbn. by rewrite Hc.
Qed.

Section Safe.
Context (limit : Z) (owed : list MeasurementTransfer).

(** From a state with the invariant and [P], [m] does not panic, reports no
    invariant violation, keeps the invariant and, when it succeeds, ends in [Q]. *)
Definition safe {A : Type} (P : ChannelAgent -> Prop) (m : agent A)
    (Q : A -> ChannelAgent -> Prop) : Prop :=
  forall a r a', agent_inv limit owed a -> P a -> m a = (r, a') ->
    agent_inv limit owed a' /\
    match r with Ok x => Q x a' | Err e => ~ internal e | Panic => False end.

Lemma safe_bind {A B : Type} P (m : agent A) Q (k : A -> agent B) R :
  safe P m Q -> (forall x, safe (Q x) (k x) R) -> safe P (m ≫= k) R.
Proof.
  intros Hm Hk a r a' Hi HP H. cbv [mbind st_bind] in H.
  destruct (m a) as [r1 a1] eqn:H1. destruct (Hm a r1 a1 Hi HP H1) as (Hi1 & Hr1).
  destruct r1 as [x|e|]; [by eapply Hk|by simplify_eq|done].
Qed.

Lemma safe_ret {A : Type} (P : ChannelAgent -> Prop) (x : A) :
  safe P (mret x) (fun y a => y = x /\ P a).
Proof. intros a r a' Hi HP [= <- <-]. done. Qed.

Lemma safe_post {A : Type} P (m : agent A) Q R :
  safe P m Q -> (forall x a, Q x a -> R x a) -> safe P m R.
Proof. intros Hm HQ a r a' Hi HP H. destruct (Hm a r a' Hi HP H) as [? Hr]. destruct r; eauto. Qed.

Lemma safe_pre {A : Type} (P P' : ChannelAgent -> Prop) (m : agent A) Q :
  safe P' m Q -> (forall a, agent_inv limit owed a -> P a -> P' a) -> safe P m Q.
Proof. intros Hm HP a r a' Hi HPa H. eauto. Qed.

Lemma safe_throw {A : Type} P (e : ChannelAgentError) Q :
  ~ internal e -> safe P (throw e : agent A) Q.
Proof. intros He a r a' Hi HP [= <- <-]. done. Qed.

Lemma safe_get P : safe P get (fun x a => x = a /\ P a).
Proof. intros a r a' Hi HP [= <- <-]. done. Qed.

Lemma safe_get_bind {A : Type} P (k : ChannelAgent -> agent A) Q :
  (forall x, agent_inv limit owed x -> P x -> safe (eq x) (k x) Q) -> safe P (get ≫= k) Q.
Proof. intros Hk a r a' Hi HP H. by apply (Hk a Hi HP a). Qed.

Lemma safe_lift {A : Type} P (m : outcome ChannelAgentError A) :
  no_panic m -> (forall e, m = Err e -> ~ internal e) -> safe P (lift m) (fun x a => m = Ok x /\ P a).
Proof. intros Hp He a r a' Hi HP [= <- <-]. split; [done|]. destruct m; [done|by apply He|done]. Qed.

Lemma safe_modify P (f : ChannelAgent -> ChannelAgent) (Q : ChannelAgent -> Prop) :
  (forall a, agent_inv limit owed a -> P a -> agent_inv limit owed (f a) /\ Q (f a)) ->
  safe P (modify f) (fun _ => Q).
Proof. intros Hf a r a' Hi HP [= <- <-]. by apply Hf. Qed.

(** An assumption of the precondition that does not mention the state. *)
Lemma safe_pure {A : Type} (P : ChannelAgent -> Prop) (X : Prop) (m : agent A) Q :
  (X -> safe P m Q) -> safe (fun a => X /\ P a) m Q.
Proof. intros Hm a r a' Hi [HX HP] H. by eapply Hm. Qed.

(** *** Parts of the state *)

(** The channel is in [s], and the active work is [w]. *)
Definition channel_in (s : State -> Prop) (a : ChannelAgent) : Prop := s (state (ag_transactions a)).
Definition active_is (w : PendingWork) (a : ChannelAgent) : Prop :=
  exists x, ag_active a = Some x /\ aw_work x = w.
Definition quiet (s : State) : Prop := on_wire s = false.

(** Replacing the active work by a step of it. *)
Lemma inv_set_work (a : ChannelAgent) (x : ActiveWork) (w : PendingWork) :
  agent_inv limit owed a -> ag_active a = Some x -> work_step (aw_work x) w ->
  agent_inv limit owed (set_work w a).
Proof.
  intros [Hwire Hout Hcomp Hwork Hids Hnz Hnext Hlimit Hbound Howed] Ha [Hok Hid Hnode Htr].
  unfold set_work, held, all_work, queued_work_items in *. rewrite Ha in *.
  split; unfold held, all_work, queued_work_items; cbn in *; try rewrite Hid; try done.
  - intros f (y & [= <-] & p & payload & Hp & Hd & Hf)%Hout. eexists. split; [done|].
    exists p, payload. cbn. by rewrite Hnode.
  - intros Hc. by apply Hcomp in Hc.
  - inversion Hwork; subst. by constructor.
  - etransitivity; [exact Howed|]. apply Forall2_app; [reflexivity|]. cbn.
    destruct Htr; [constructor; [done|]|]; reflexivity.
Qed.

(** Fields of the active work that the invariant does not mention. *)
Lemma inv_set_active_same (a : ChannelAgent) (x y : ActiveWork) :
  agent_inv limit owed a -> ag_active a = Some x -> aw_work y = aw_work x ->
  agent_inv limit owed (set_active (Some y) a).
Proof.
  intros [Hwire Hout Hcomp Hwork Hids Hnz Hnext Hlimit Hbound Howed] Ha Hy.
  split; unfold held, all_work, queued_work_items in *; cbn; rewrite Ha in *; rewrite ?Hy; try done.
  - intros f (z & [= <-] & Hf)%Hout. exists y. by rewrite Hy.
  - intros Hc. by apply Hcomp in Hc.
Qed.

Lemma inv_set_transactions (a : ChannelAgent) (tc : TransactionCore) :
  agent_inv limit owed a ->
  (on_wire (state tc) = true -> is_some (ag_active a) = true) ->
  ag_outbound a = None \/ state tc = state (ag_transactions a) ->
  agent_inv limit owed (set_transactions tc a).
Proof.
  intros [Hwire Hout] Hw Ho. split; try done. cbn. intros f Hf. destruct Ho as [Ho|Ho]; [congruence|].
  destruct (Hout f Hf) as (x & Hx & Hc). exists x. split; [done|]. unfold carries. by rewrite Ho.
Qed.

(** A frame is announced only while its exchange is being transmitted. *)
Lemma inv_outbound_none (a : ChannelAgent) :
  agent_inv limit owed a -> (forall p, state (ag_transactions a) <> Transmitting p) -> ag_outbound a = None.
Proof.
  intros Hi Hs. destruct (ag_outbound a) as [f|] eqn:Hf; [|done].
  destruct (inv_outbound _ _ _ Hi f Hf) as (x & _ & p & payload & Hp & _). by destruct (Hs p).
Qed.

Lemma inv_outbound_quiet (a : ChannelAgent) :
  agent_inv limit owed a -> quiet (state (ag_transactions a)) -> ag_outbound a = None.
Proof. intros Hi Hq. apply inv_outbound_none; [done|]. intros p Hp. by rewrite Hp in Hq. Qed.

Lemma carries_built (tc : TransactionCore) (w : PendingWork) (f : Frame) :
  carries tc w f -> exists payload, frame_built f payload.
Proof.
  intros (p & payload & _ & _ & Hf). exists payload. pose proof Hf as (_ & _ & ->)%frame_new_inv. exact Hf.
Qed.

Lemma inv_set_outbound (a : ChannelAgent) (f : option Frame) :
  agent_inv limit owed a ->
  (forall g, f = Some g -> exists x, ag_active a = Some x /\ carries (ag_transactions a) (aw_work x) g) ->
  agent_inv limit owed (set_outbound f a).
Proof. intros [] ?. by split. Qed.

(** Finished work leaves the channel. *)
Lemma inv_clear_active (a : ChannelAgent) (x : ActiveWork) :
  agent_inv limit owed a -> ag_active a = Some x -> work_transfer (aw_work x) = None ->
  quiet (state (ag_transactions a)) ->
  agent_inv limit owed (set_active None a).
Proof.
  intros Hi Ha Hx Hq. pose proof (inv_outbound_quiet a Hi Hq) as Ho.
  destruct Hi as [Hwire Hout Hcomp Hwork Hids Hnz Hnext Hlimit Hbound Howed].
  unfold held, all_work, queued_work_items, quiet in *. rewrite Ha in *. cbn in *. rewrite Hx in *.
  split; unfold held, all_work, queued_work_items; cbn; try done.
  - by rewrite Hq.
  - by rewrite Ho.
  - by inversion Hwork.
  - destruct (work_operation_id _); [by inversion Hids|done].
  - destruct (work_operation_id _); [by inversion Hnz|done].
  - lia.
Qed.

(** A transfer moves from the channel to the hand-over slot. *)
Lemma inv_hand_over (a : ChannelAgent) (x : ActiveWork) (t : MeasurementTransfer) :
  agent_inv limit owed a -> ag_active a = Some x -> aw_work x = WorkMeasurement t ->
  quiet (state (ag_transactions a)) ->
  ag_completed_measurement a = None /\
  agent_inv limit owed (set_completed_measurement (Some t) (set_active None a)).
Proof.
  intros Hi Ha Hx Hq. pose proof (inv_outbound_quiet a Hi Hq) as Ho.
  destruct Hi as [Hwire Hout Hcomp Hwork Hids Hnz Hnext Hlimit Hbound Howed].
  assert (ag_completed_measurement a = None) as Hnone.
  { destruct (ag_completed_measurement a); [|done]. rewrite Hcomp in Ha; done. }
  unfold held, all_work, queued_work_items, quiet in *. rewrite Ha, Hnone in *. cbn in *.
  rewrite Hx in *. split; [done|].
  split; unfold held, all_work, queued_work_items; cbn; try done.
  - by rewrite Hq.
  - by rewrite Ho.
  - by inversion Hwork.
  - lia.
Qed.

Lemma inv_pop_front (a : ChannelAgent) (w : PendingWork) (rest : list PendingWork) (now : Z) :
  agent_inv limit owed a -> ag_active a = None -> ag_pending a = w :: rest ->
  ag_completed_measurement a = None ->
  agent_inv limit owed (set_pending rest (set_active (Some (mkActiveWork w now 0)) a)).
Proof.
  intros [Hwire Hout Hcomp Hwork Hids Hnz Hnext Hlimit Hbound Howed] Ha Hw Hc.
  unfold held, all_work, queued_work_items in *. rewrite Ha, Hw, Hc in *. cbn in *.
  split; unfold held, all_work, queued_work_items; cbn; rewrite ?Hc; try done; [|cbn; lia].
  intros f (x & ? & _)%Hout. congruence.
Qed.

Lemma operation_id_in_use_spec (a : ChannelAgent) (id : Z) :
  operation_id_in_use a id = bool_decide (id ∈ omap work_operation_id (all_work a)).
Proof.
  assert (forall w, work_uses_operation_id w id = bool_decide (work_operation_id w = Some id)) as Hw.
  { intros []; cbn; try (by rewrite bool_decide_eq_false_2); [|done..].
    apply eq_true_iff_eq. rewrite Z.eqb_eq, bool_decide_eq_true. naive_solver. }
  apply eq_true_iff_eq. unfold operation_id_in_use, all_work.
  rewrite bool_decide_eq_true, orb_true_iff, existsb_exists, list_elem_of_omap.
  setoid_rewrite list_elem_of_In. setoid_rewrite in_app_iff. split.
  - intros [H|(w & Hin & H)].
    + destruct (ag_active a) as [x|]; [|done]. exists (aw_work x). rewrite Hw in H. to_prop.
      split; [by left; left|done].
    + exists w. rewrite Hw in H. to_prop. auto.
  - intros (w & [Hin|Hin] & H).
    + left. destruct (ag_active a) as [x|]; [|done]. destruct Hin as [->|[]].
      rewrite Hw. by apply bool_decide_eq_true_2.
    + right. exists w. rewrite Hw. split; [done|]. by apply bool_decide_eq_true_2.
Qed.

Lemma all_work_push_back (a : ChannelAgent) (w : PendingWork) :
  all_work (set_pending (ag_pending a ++ [w]) a) = all_work a ++ [w].
Proof. unfold all_work. cbn. by rewrite app_assoc. Qed.

(** New work joins the queue; a transfer among it is owed. *)
Lemma inv_push_back (a : ChannelAgent) (w : PendingWork) :
  agent_inv limit owed a -> queued_work_items a < max_pending_work_items (ag_policy a) ->
  work_ok w ->
  match work_operation_id w with
  | Some id => operation_id_in_use a id = false /\ 1 <= id < 2 ^ 32
  | None => True
  end ->
  agent_inv limit (owed ++ option_list (work_transfer w)) (set_pending (ag_pending a ++ [w]) a).
Proof.
  intros [Hwire Hout Hcomp Hwork Hids Hnz Hnext Hlimit Hbound Howed] Hq Hok Hid.
  split; try done; unfold held; rewrite ?all_work_push_back.
  - by apply Forall_app_2; [|constructor].
  - rewrite omap_app. apply list.NoDup_app. split; [done|]. cbn.
    destruct (work_operation_id w) as [id|]; cbn; [|split; [by intros ? ? ?%elem_of_nil|constructor]].
    destruct Hid as [Hid _]. rewrite operation_id_in_use_spec in Hid. to_prop.
    split; [|apply NoDup_singleton]. by intros y Hy ->%list_elem_of_singleton.
  - rewrite omap_app. apply Forall_app_2; [done|]. cbn.
    destruct (work_operation_id w); [|constructor]. destruct Hid. constructor; [done|constructor].
  - unfold queued_work_items in *. cbn. rewrite length_app. cbn. lia.
  - cbn. rewrite omap_app, app_assoc. apply Forall2_app; [done|]. cbn.
    destruct (work_transfer w); repeat constructor. reflexivity.
Qed.

(** *** Rules for the agent's building blocks *)

Lemma inv_active_ok (a : ChannelAgent) (w : PendingWork) :
  agent_inv limit owed a -> active_is w a -> work_ok w.
Proof.
  intros Hi (x & Hx & <-). pose proof (inv_work _ _ _ Hi) as Hw. unfold all_work in Hw.
  rewrite Hx in Hw. by inversion Hw.
Qed.

Lemma safe_active_work (C : State -> Prop) :
  safe (fun a => channel_in C a /\ is_some (ag_active a) = true) active_work
    (fun x a => channel_in C a /\ ag_active a = Some x).
Proof.
  intros a r a' Hi [HC Ha] H. unfold active_work in H. st_unfold H.
  destruct (ag_active a) eqn:Hx; [|done]. by simplify_eq.
Qed.

Lemma safe_on_work {S' E A : Type} (C : State -> Prop) (wrap : S' -> PendingWork)
    (conv : E -> ChannelAgentError) (m : st S' E A) (s : S') (Q : A -> S' -> Prop) :
  (forall r s', work_ok (wrap s) -> m s = (r, s') ->
    work_step (wrap s) (wrap s') /\
    match r with Ok x => Q x s' | Err e => ~ internal (conv e) | Panic => False end) ->
  safe (fun a => channel_in C a /\ active_is (wrap s) a) (on_work wrap conv m s)
    (fun x a => channel_in C a /\ exists s', active_is (wrap s') a /\ Q x s').
Proof.
  intros Hm a r a' Hi [HC Hact] H. pose proof (inv_active_ok a _ Hi Hact) as Hok.
  destruct Hact as (x & Hx & Hw). unfold on_work in H. destruct (m s) as [r1 s1] eqn:H1.
  destruct (Hm r1 s1 Hok eq_refl) as (Hstep & Hr1). injection H as <- <-. rewrite <- Hw in Hstep.
  split; [by eapply inv_set_work|].
  assert (active_is (wrap s1) (set_work (wrap s1) a)) as Hact'.
  { unfold active_is, set_work. cbn. rewrite Hx. by eexists. }
  destruct r1; cbn; eauto 10.
Qed.

Lemma safe_delay_retry (C : State -> Prop) (w : PendingWork) (now : MonotonicMicros) :
  safe (fun a => channel_in C a /\ active_is w a) (delay_retry now)
    (fun _ a => channel_in C a /\ active_is w a).
Proof.
  intros a r a' Hi [HC (x & Hx & Hw)] H. unfold delay_retry in H. st_unfold H.
  destruct (monotonic_checked_add _ _) as [t|]; simplify_eq; [|done].
  unfold set_retry_not_before. rewrite Hx. cbn.
  split; [by eapply inv_set_active_same|]. split; [done|]. by eexists.
Qed.

(** Only a measurement is handed over. *)
Lemma safe_handoff (t : MeasurementTransfer) :
  safe (fun a => channel_in quiet a /\ active_is (WorkMeasurement t) a) handoff_active_measurement
    (fun node _ => node = mt_node_address t).
Proof.
  intros a r a' Hi [HC (x & Hx & Hw)] H. unfold handoff_active_measurement, active_work in H.
  destruct (inv_hand_over a x t Hi Hx Hw HC) as (Hnone & Hinv).
  st_unfold H. rewrite Hx, Hw in H. cbn in H. rewrite Hnone in H. cbn in H. by simplify_eq.
Qed.

Lemma safe_clear_active (w : PendingWork) :
  work_transfer w = None ->
  safe (fun a => channel_in quiet a /\ active_is w a) (modify (set_active None)) (fun _ _ => True).
Proof.
  intros Hw. apply safe_modify. intros a Hi (HC & x & Hx & <-). split; [|done].
  by eapply inv_clear_active.
Qed.

(** The active work belongs to the node at this address. *)
Definition addressed (node : Z) (a : ChannelAgent) : Prop :=
  exists x, ag_active a = Some x /\ work_node_address (aw_work x) = node.

Definition transmitting (p : PreparedTransaction) (a : ChannelAgent) : Prop :=
  state (ag_transactions a) = Transmitting p /\ addressed (pt_node_address p) a.

(** A frame ready for the wire: the request of the exchange that was prepared. *)
Definition announced (f : option Frame) (a : ChannelAgent) : Prop :=
  forall g, f = Some g -> exists x, ag_active a = Some x /\ carries (ag_transactions a) (aw_work x) g.

(** The frame of a prepared transaction. *)
Lemma safe_request_frame (prepared : PreparedTransaction) (payload : bytes) :
  safe (transmitting prepared)
    (frame ← lift (map_err AgentFrame (prepared_request_frame prepared payload)); mret (Some frame))
    announced.
Proof.
  eapply safe_bind; [apply safe_lift|].
  - apply no_panic_map_err, frame_new_no_panic.
  - intros e He. destruct (prepared_request_frame _ _); by simplify_eq/=.
  - intros f. eapply safe_post; [apply safe_ret|].
    intros o a (-> & Hf%map_err_Ok & Ht & x & Hx & Hn) g [= <-]. exists x. split; [done|].
    by exists prepared, payload.
Qed.

Ltac prepared_exchange H Hi Hidle Hx Hn :=
  st_run H; simplify_eq; (split; [|done || (split; [done|eexists; split; [exact Hx|exact Hn]])]);
  (apply inv_set_transactions; [done|intros; by rewrite Hx|]);
  left; apply (inv_outbound_none _ Hi); intros p; by rewrite <- Hidle.

Lemma safe_prepare (request : RequestSpec) (payload : bytes) :
  safe (fun a => channel_in (eq Transaction.Idle) a /\ addressed (rq_node_address request) a)
    (prepare_frame request payload)
    announced.
Proof.
  unfold prepare_frame. eapply safe_bind; [|intros prepared; apply safe_request_frame].
  intros a r a' Hi [Hidle (x & Hx & Hn)] H. unfold on_transactions, prepare in H. st_unfold H.
  prepared_exchange H Hi Hidle Hx Hn.
Qed.

Lemma safe_prepare_routed (request : RoutedRequestSpec) (payload : bytes) :
  safe (fun a => channel_in (eq Transaction.Idle) a /\ addressed (rr_response_source request) a)
    (prepare_routed_frame request payload)
    announced.
Proof.
  unfold prepare_routed_frame. eapply safe_bind; [|intros prepared; apply safe_request_frame].
  intros a r a' Hi [Hidle (x & Hx & Hn)] H. unfold on_transactions, prepare_routed in H. st_unfold H.
  prepared_exchange H Hi Hidle Hx Hn.
Qed.

Lemma active_is_some (a : ChannelAgent) (w : PendingWork) :
  active_is w a -> is_some (ag_active a) = true.
Proof. by intros (x & -> & _). Qed.

Lemma active_addressed (a : ChannelAgent) (w : PendingWork) :
  active_is w a -> addressed (work_node_address w) a.
Proof. intros (x & Hx & <-). by exists x. Qed.

(** The rest of an attempt, once the work has been told. *)
Lemma safe_send_payload (P : ChannelAgent -> Prop) (payload : outcome ChannelAgentError bytes)
    (k : bytes -> agent (option Frame)) :
  no_panic payload -> (forall e, payload = Err e -> ~ internal e) ->
  (forall l, safe P (k l) announced) ->
  safe P (l ← lift payload; k l) announced.
Proof.
  intros Hp He Hk. eapply safe_bind; [by apply safe_lift|].
  intros l. apply safe_pure. intros _. apply Hk.
Qed.

Lemma lifecycle_payload_no_panic (c : RuntimeCommand) (a : LifecycleAttempt) :
  encode_lifecycle_request c = Ok (la_encoded a) ->
  exists l, lifecycle_attempt_payload (E:=ChannelAgentError) a = Ok l.
Proof.
  unfold lifecycle_attempt_payload, encode_lifecycle_request. intros H.
  destruct (_ =? 0); [done|]. apply outcome_bind_Ok in H as (p & Hp%length_put & H).
  change (length (zeros LIFECYCLE_PROFILE_REQUEST_BYTES)) with 5%nat in Hp.
  case_bool_decide; [apply outcome_bind_Ok in H as (q & Hq%length_put & H)|];
    injection H as <-; cbn [payload_size enc_payload]; eexists; apply slice_Ok;
    change LIFECYCLE_PROFILE_REQUEST_BYTES with 5%nat;
    change LIFECYCLE_OPERATION_REQUEST_BYTES with 4%nat; lia.
Qed.

Lemma safe_prepare_for (w : PendingWork) (request : RequestSpec) (payload : bytes) :
  rq_node_address request = work_node_address w ->
  safe (fun a => channel_in (eq Transaction.Idle) a /\ active_is w a)
    (prepare_frame request payload) announced.
Proof.
  intros Hn. eapply safe_pre; [apply safe_prepare|]. intros a _ [? ?]. rewrite Hn. eauto using active_addressed.
Qed.

Lemma attempt_lifecycle (timeout : DurationMicros) (o : LifecycleOperation) :
  safe (fun a => channel_in (eq Transaction.Idle) a /\ active_is (WorkLifecycle o) a)
    (attempt ← on_work WorkLifecycle AgentLifecycle (lifecycle_begin_attempt timeout) o;
     payload ← lift (lifecycle_attempt_payload attempt);
     prepare_frame (la_request attempt) payload) announced.
Proof.
  eapply safe_bind.
  - apply safe_on_work with (Q := fun attempt o' =>
      rq_node_address (la_request attempt) = lo_node_address o' /\
      exists c, encode_lifecycle_request c = Ok (la_encoded attempt)).
    intros r o' Hok H. assert (exists a, op_wire LifecycleOperation (op_command o) timeout = Ok a) as Hw.
    { destruct Hok as [encoded He]. cbn. unfold lifecycle_wire. cbn. rewrite He. by eexists. }
    destruct (begin_keeps lifecycle_lawful timeout o o' r Hw H) as (Hsame & Hr).
    split; [by apply lifecycle_step|]. destruct r as [attempt| |]; [|done..].
    cbn in Hr. unfold lifecycle_wire in Hr. apply outcome_bind_Ok in Hr as (enc & He & [= <-]).
    apply map_err_Ok in He. injection Hsame as Hn _. split; [by rewrite Hn|by eexists].
  - intros attempt a r a' Hi (HC & o' & Hact & Hn & c & Hc).
    destruct (lifecycle_payload_no_panic c attempt Hc) as (l & Hl). rewrite Hl.
    intros H. autorewrite with st in H. by eapply (safe_prepare_for (WorkLifecycle o') _ l Hn).
Qed.

Lemma attempt_configuration (timeout : DurationMicros) (o : ConfigurationOperation) :
  safe (fun a => channel_in (eq Transaction.Idle) a /\ active_is (WorkConfiguration o) a)
    (attempt ← on_work WorkConfiguration AgentConfiguration (configuration_begin_attempt timeout) o;
     payload ← lift (configuration_attempt_payload attempt);
     prepare_frame (ca_request attempt) payload) announced.
Proof.
  eapply safe_bind.
  - apply safe_on_work with (Q := fun attempt o' =>
      rq_node_address (ca_request attempt) = co_node_address o' /\
      (ca_payload_size attempt <= length (ca_payload attempt))%nat).
    intros r o' Hok H. destruct (config_payload_encodable (co_request o) Hok) as (p & u & Hp & Hl & Hu).
    assert (exists a, op_wire ConfigurationOperation (op_command o) timeout = Ok a) as Hw.
    { cbn. unfold config_wire. cbn. rewrite Hp. by eexists. }
    destruct (begin_keeps configuration_lawful_operation timeout o o' r Hw H) as (Hsame & Hr).
    split; [by apply configuration_step|]. destruct r as [attempt| |]; [|done..].
    cbn in Hr. unfold config_wire in Hr. cbn in Hr. rewrite Hp in Hr. injection Hr as <-. cbn.
    injection Hsame as Hn _. split; [by rewrite Hn|lia].
  - intros attempt a r a' Hi (HC & o' & Hact & Hn & Hle). unfold configuration_attempt_payload.
    rewrite slice_Ok by lia. intros H. autorewrite with st in H.
    by eapply (safe_prepare_for (WorkConfiguration o') _ _ Hn).
Qed.

Lemma attempt_commissioning (timeout : DurationMicros) (o : CommissioningOperation) :
  safe (fun a => channel_in (eq Transaction.Idle) a /\ active_is (WorkCommissioning o) a)
    (attempt ← on_work WorkCommissioning AgentCommissioning (commissioning_begin_attempt timeout) o;
     payload ← lift (commissioning_attempt_payload attempt);
     prepare_routed_frame (ma_routed_request attempt) payload) announced.
Proof.
  eapply safe_bind.
  - apply safe_on_work with (Q := fun attempt o' =>
      rr_response_source (ma_routed_request attempt) = COMMISSIONING_ADDRESS /\
      (ma_routed_payload_size attempt <= length (ma_routed_payload attempt))%nat).
    intros r o' Hok H.
    destruct (commissioning_payload_encodable (mo_request o) Hok) as (m & p & u & c & Hp & Hl & Hu).
    assert (exists a, op_wire CommissioningOperation (op_command o) timeout = Ok a) as Hw.
    { cbn. unfold commissioning_wire. rewrite Hp. by eexists. }
    destruct (begin_keeps commissioning_lawful_operation timeout o o' r Hw H) as (Hsame & Hr).
    split; [by apply commissioning_step|]. destruct r as [attempt| |]; [|done..].
    cbn in Hr. unfold commissioning_wire in Hr. rewrite Hp in Hr. injection Hr as <-. cbn.
    split; [done|lia].
  - intros attempt a r a' Hi (HC & o' & Hact & Hn & Hle). unfold commissioning_attempt_payload.
    rewrite slice_Ok by lia. intros H. autorewrite with st in H.
    eapply safe_prepare_routed; [done| |done]. rewrite Hn. split; [done|]. by apply active_addressed in Hact.
Qed.

(** [begin_attempt] is the transfer call without its observation. *)
Lemma begin_attempt_step (timeout : DurationMicros) (t t' : MeasurementTransfer) r :
  transfer_ok t -> begin_attempt timeout t = (r, t') ->
  work_step (WorkMeasurement t) (WorkMeasurement t') /\ r <> Panic.
Proof.
  intros Ht H. destruct (transfer_call (CallBeginAttempt timeout) t) as [r2 t2] eqn:Hc.
  destruct (transfer_step (CallBeginAttempt timeout) t t2 r2 I Ht Hc) as (Hstep & Hp). cbn [transfer_call] in Hc. st_unfold Hc.
  rewrite H in Hc. destruct r as [attempt|e|]; [|by simplify_eq..].
  split; [|done]. by destruct (decode_pull_request _); simplify_eq/=.
Qed.

Lemma safe_no_frame (P : ChannelAgent -> Prop) : safe P (mret None) announced.
Proof. eapply safe_post; [apply safe_ret|]. by intros x a [-> _]. Qed.

Lemma begin_attempt_request (timeout : DurationMicros) (t t' : MeasurementTransfer) attempt :
  begin_attempt timeout t = (Ok attempt, t') -> rq_node_address (ma_request attempt) = mt_node_address t'.
Proof.
  unfold begin_attempt, on_session. intros H. st_run H. by simplify_eq.
Qed.

Lemma safe_attempt_frame (w : PendingWork) :
  work_ok w -> (forall h, w = WorkHandshake h -> hs_phase h <> HandshakeReady) ->
  safe (fun a => channel_in (eq Transaction.Idle) a /\ active_is w a) (attempt_frame w)
    announced.
Proof.
  intros Hok Hh. unfold attempt_frame. apply safe_get_bind. intros x _ Hx.
  eapply safe_pre with (P' := fun a => channel_in (eq Transaction.Idle) a /\ active_is w a);
    [|intros a _ Heq; by rewrite <- Heq]. clear Hx.
  destruct w as [h|node|o|o|o|t|ts|node].
  - specialize (Hh h eq_refl). destruct (hs_phase h); [by apply safe_prepare_for..|done].
  - by apply safe_prepare_for.
  - destruct (sendable _); cbn [negb]; [apply attempt_lifecycle|apply safe_no_frame].
  - destruct (sendable _); cbn [negb]; [apply attempt_configuration|apply safe_no_frame].
  - destruct (sendable _); cbn [negb]; [apply attempt_commissioning|apply safe_no_frame].
  - eapply safe_bind.
    + apply safe_on_work with (Q := fun attempt t' => rq_node_address (ma_request attempt) = mt_node_address t').
      intros r t' Hok' H. destruct (begin_attempt_step _ t t' r Hok' H) as [? ?].
      split; [done|]. destruct r; [by eapply begin_attempt_request|done|done].
    + intros attempt. eapply safe_bind; [|intros u; apply safe_prepare].
      apply safe_modify. intros a Hi (HC & t' & (y & Hy & Hw) & Hn).
      unfold set_attempts_started. rewrite Hy. cbn.
      split; [by eapply inv_set_active_same|]. split; [done|]. eexists. split; [done|]. cbn. by rewrite Hw.
  - eapply safe_bind; [|intros u; apply safe_prepare].
    apply safe_modify. intros a Hi (HC & y & Hy & Hw).
    split; [eapply inv_set_work; [done|done|]; rewrite Hw; split; [done|done|done|constructor]|].
    unfold channel_in, addressed, set_work. cbn. rewrite Hy. split; [done|]. by eexists.
  - by apply safe_prepare_for.
Qed.

(** *** Timers and transmission *)

(** The same kind of work: what the agent asks of the work after telling it. *)
Definition same_kind (w w' : PendingWork) : Prop :=
  is_measurement w' = is_measurement w /\ is_one_shot w' = is_one_shot w.

(** After the work has been told, it is still there and of the same kind. *)
Lemma safe_tell {S' E : Type} (C : State -> Prop) (wrap : S' -> PendingWork)
    (conv : E -> ChannelAgentError) (m : st S' E unit) (s : S') :
  (forall s', same_kind (wrap s) (wrap s')) -> (forall e, ~ internal (conv e)) ->
  (forall r s', work_ok (wrap s) -> m s = (r, s') -> work_step (wrap s) (wrap s') /\ r <> Panic) ->
  safe (fun a => channel_in C a /\ active_is (wrap s) a) (on_work wrap conv m s)
    (fun _ a => channel_in C a /\ exists w', active_is w' a /\ same_kind (wrap s) w').
Proof.
  intros Hk He Hm. eapply safe_post.
  - apply safe_on_work with (Q := fun _ _ => True). intros r s' Hok H.
    destruct (Hm r s' Hok H) as [Hstep Hr]. split; [done|]. destruct r; [done|apply He|done].
  - intros u a (HC & s' & Hact & _). split; [done|]. by exists (wrap s').
Qed.

Lemma tell_lifecycle (C : State -> Prop) (o : LifecycleOperation) :
  safe (fun a => channel_in C a /\ active_is (WorkLifecycle o) a)
    (on_work WorkLifecycle AgentLifecycle lifecycle_mark_timeout o)
    (fun _ a => channel_in C a /\ exists w', active_is w' a /\ same_kind (WorkLifecycle o) w').
Proof.
  apply safe_tell; [done|done|]. intros r o' Hok H.
  destruct (timeout_keeps lifecycle_lawful o o' r H) as [Hs Hr]. split; [by apply lifecycle_step|done].
Qed.

Lemma tell_configuration (C : State -> Prop) (o : ConfigurationOperation) :
  safe (fun a => channel_in C a /\ active_is (WorkConfiguration o) a)
    (on_work WorkConfiguration AgentConfiguration configuration_mark_timeout o)
    (fun _ a => channel_in C a /\ exists w', active_is w' a /\ same_kind (WorkConfiguration o) w').
Proof.
  apply safe_tell; [done|done|]. intros r o' Hok H.
  destruct (timeout_keeps configuration_lawful_operation o o' r H) as [Hs Hr].
  split; [by apply configuration_step|done].
Qed.

Lemma tell_commissioning (C : State -> Prop) (o : CommissioningOperation) :
  safe (fun a => channel_in C a /\ active_is (WorkCommissioning o) a)
    (on_work WorkCommissioning AgentCommissioning commissioning_mark_timeout o)
    (fun _ a => channel_in C a /\ exists w', active_is w' a /\ same_kind (WorkCommissioning o) w').
Proof.
  apply safe_tell; [done|done|]. intros r o' Hok H.
  destruct (timeout_keeps commissioning_lawful_operation o o' r H) as [Hs Hr].
  split; [by apply commissioning_step|done].
Qed.

Lemma tell_transmit_failed (C : State -> Prop) (o : CommissioningOperation) :
  safe (fun a => channel_in C a /\ active_is (WorkCommissioning o) a)
    (on_work WorkCommissioning AgentCommissioning commissioning_mark_transmit_failed o)
    (fun _ a => channel_in C a /\ exists w', active_is w' a /\ same_kind (WorkCommissioning o) w').
Proof.
  apply safe_tell; [done|done|]. intros r o' Hok H.
  unfold commissioning_mark_transmit_failed in H. st_run H; simplify_eq;
    (split; [by apply commissioning_step|done]).
Qed.

Lemma tell_measurement (C : State -> Prop) (t : MeasurementTransfer) :
  safe (fun a => channel_in C a /\ active_is (WorkMeasurement t) a)
    (on_work WorkMeasurement AgentMeasurement mark_attempt_uncertain t)
    (fun _ a => channel_in C a /\ exists w', active_is w' a /\ same_kind (WorkMeasurement t) w').
Proof.
  apply safe_tell; [done|done|]. intros r t' Hok H.
  destruct (transfer_call CallMarkAttemptUncertain t) as [r2 t2] eqn:Hc.
  destruct (transfer_step CallMarkAttemptUncertain t t2 r2 I Hok Hc) as (Hstep & Hp).
  cbn [transfer_call] in Hc. apply st_bind_pure in Hc as (r0 & Hc & ->).
  rewrite H in Hc. simplify_eq. split; [done|]. by destruct r0.
Qed.

Lemma safe_keep_work (C : State -> Prop) (w : PendingWork) {X : Type} (x : X) :
  safe (fun a => channel_in C a /\ active_is w a) (mret x)
    (fun _ a => channel_in C a /\ exists w', active_is w' a /\ same_kind w w').
Proof. eapply safe_post; [apply safe_ret|]. intros y a (_ & HC & Hw). split; [done|]. by exists w. Qed.

(** The transition of [mark_work_timed_out]. *)
Definition timed_out_post (w : PendingWork) (m : ChannelEvent + ChannelEvent) (a : ChannelAgent) :
    Prop :=
  match m with
  | inl _ => True
  | inr _ => channel_in quiet a /\ exists w', active_is w' a /\ same_kind w w'
  end.

Lemma safe_told (w : PendingWork) (m : agent unit) (event : ChannelEvent) :
  safe (fun a => channel_in quiet a /\ active_is w a) m
    (fun _ a => channel_in quiet a /\ exists w', active_is w' a /\ same_kind w w') ->
  safe (fun a => channel_in quiet a /\ active_is w a) (_ ← m; mret (inr event)) (timed_out_post w).
Proof.
  intros Hm. eapply safe_bind; [exact Hm|]. intros u. eapply safe_post; [apply safe_ret|].
  by intros y a [-> H].
Qed.

Lemma safe_mark_timed_out (w : PendingWork) :
  safe (fun a => channel_in quiet a /\ active_is w a) (mark_work_timed_out w) (timed_out_post w).
Proof.
  assert (forall event, safe (fun a => channel_in quiet a /\ active_is w a)
    (mret (inr event)) (timed_out_post w)) as Hret.
  { intros event. eapply safe_post; [apply safe_ret|]. intros y a (-> & HC & Hw).
    split; [done|]. by exists w. }
  destruct w as [h|node|o|o|o|t|ts|node]; cbn [mark_work_timed_out]; try apply Hret.
  - apply safe_told, tell_lifecycle.
  - apply safe_told, tell_configuration.
  - destruct (mo_request o) as [probe|assign] eqn:Hr; [|apply safe_told, tell_commissioning].
    eapply safe_bind; [apply tell_commissioning|]. intros u.
    eapply safe_bind with (Q := fun _ _ => True); [|intros u'; eapply safe_post; [apply safe_ret|by intros y a [-> _]]].
    apply safe_modify. intros a Hi (HC & w' & (x & Hx & <-) & Hk & _). split; [|done].
    eapply inv_clear_active; [done|done| |done]. destruct (aw_work x); by cbn in Hk.
  - apply safe_told, tell_measurement.
Qed.

(** What remains to be done once the work knows that its attempt failed: the
    retry is scheduled, an exhausted transfer is handed over and work that is
    not retried leaves the channel. *)
Lemma safe_after_failure {X : Type} (w : PendingWork) (now : MonotonicMicros)
    (exhausted : ChannelAgent -> bool) (event : Z -> X) (rest : agent X) :
  (forall self, exhausted self = true -> is_measurement w = true) ->
  safe (fun a => channel_in quiet a /\ exists w', active_is w' a /\ same_kind w w') rest (fun _ _ => True) ->
  safe (fun a => channel_in quiet a /\ exists w', active_is w' a /\ same_kind w w')
    (self ← get;
     _ ← delay_retry now;
     if exhausted self then node ← handoff_active_measurement; mret (event node) else rest)
    (fun _ _ => True).
Proof.
  intros Hex Hrest. apply safe_get_bind. intros self Hi (HC & w' & Hact & Hk).
  eapply safe_pre with (P' := fun a => channel_in quiet a /\ active_is w' a);
    [|intros a _ <-; done].
  eapply safe_bind; [apply safe_delay_retry|]. intros u. destruct (exhausted self) eqn:He.
  - apply Hex in He. destruct Hk as [Hm _]. rewrite He in Hm. destruct w'; try done.
    eapply safe_bind; [apply safe_handoff|]. intros node. eapply safe_post; [apply safe_ret|done].
  - eapply safe_pre; [exact Hrest|]. intros a _ [? ?]. eauto.
Qed.

Lemma safe_drop_one_shot {X : Type} (w : PendingWork) (x : X) :
  is_one_shot w = true ->
  safe (fun a => channel_in quiet a /\ exists w', active_is w' a /\ same_kind w w')
    (_ ← modify (set_active None); mret x) (fun _ _ => True).
Proof.
  intros Ho. eapply safe_bind with (Q := fun _ _ => True); [|intros u; eapply safe_post; [apply safe_ret|done]].
  apply safe_modify. intros a Hi (HC & w' & (y & Hy & <-) & _ & Hk). split; [|done].
  rewrite Ho in Hk. eapply inv_clear_active; [done|done| |done]. by destruct (aw_work y).
Qed.

Lemma safe_true {X : Type} P (x : X) : safe P (mret x) (fun _ _ => True).
Proof. eapply safe_post; [apply safe_ret|done]. Qed.

Lemma safe_poll_timed_out (now : MonotonicMicros) :
  safe (fun a => channel_in quiet a /\ is_some (ag_active a) = true) (poll_timed_out now)
    (fun _ _ => True).
Proof.
  unfold poll_timed_out. eapply safe_bind; [apply safe_active_work|]. intros x.
  eapply safe_bind.
  { eapply safe_pre; [apply (safe_mark_timed_out (aw_work x))|]. intros a _ [HC Ha].
    split; [done|]. by exists x. }
  intros [event|event]; [apply safe_true|]. cbn [timed_out_post].
  apply (safe_after_failure (aw_work x) now (fun self => attempts_exhausted self x)).
  - unfold attempts_exhausted. intros self H. by to_prop.
  - destruct (is_one_shot (aw_work x)) eqn:Ho; [by apply safe_drop_one_shot|apply safe_true].
Qed.

Lemma safe_mark_transmit_failed (w : PendingWork) :
  safe (fun a => channel_in quiet a /\ active_is w a) (mark_work_transmit_failed w)
    (fun _ a => channel_in quiet a /\ exists w', active_is w' a /\ same_kind w w').
Proof.
  destruct w; cbn [mark_work_transmit_failed]; try apply safe_keep_work;
    auto using tell_lifecycle, tell_configuration, tell_transmit_failed, tell_measurement.
Qed.

Lemma safe_transmit_failed (now : MonotonicMicros) :
  safe (fun _ => True) (transmit_failed now) (fun _ _ => True).
Proof.
  unfold transmit_failed. eapply safe_bind with (Q := fun _ a => ag_outbound a = None).
  { apply safe_modify. intros a Hi _. split; [|done]. by apply inv_set_outbound. }
  intros u. eapply safe_bind with (Q := fun _ a => channel_in quiet a /\ is_some (ag_active a) = true).
  { intros a r a' Hi Ho H. unfold on_transactions, cancel_transmit in H. st_unfold H.
    pose proof (inv_on_wire _ _ _ Hi) as Hw.
    assert (forall tc, on_wire (state tc) = false -> agent_inv limit owed (set_transactions tc a)) as Hset.
    { intros tc Htc. apply inv_set_transactions; [done|by rewrite Htc|by left]. }
    destruct (state (ag_transactions a)) eqn:Hs; simplify_eq; cbn.
    - split; [|done]. apply Hset. by rewrite Hs.
    - split; [by apply Hset|]. split; [done|by apply Hw].
    - split; [|done]. apply inv_set_transactions; [done|by rewrite Hs|by left].
    - split; [|done]. apply Hset. by rewrite Hs. }
  intros u'. eapply safe_bind; [apply safe_active_work|]. intros x. eapply safe_bind.
  { eapply safe_pre; [apply (safe_mark_transmit_failed (aw_work x))|]. intros a _ [HC Ha].
    split; [done|]. by exists x. }
  intros u''. apply (safe_after_failure (aw_work x) now (fun self => attempts_exhausted self x)).
  - unfold attempts_exhausted. intros self H. by to_prop.
  - destruct (is_one_shot (aw_work x)) eqn:Ho; [by apply safe_drop_one_shot|].
    eapply safe_bind; [apply safe_ret|]. intros ?. apply safe_true.
Qed.

Lemma safe_poll_send (now : MonotonicMicros) :
  safe (fun a => ag_completed_measurement a = None) (poll_send now) (fun _ _ => True).
Proof.
  unfold poll_send. eapply safe_bind with (Q := fun _ _ => True).
  { apply safe_modify. intros a Hi Hc. split; [|done]. destruct (ag_active a) eqn:Ha; [done|].
    destruct (ag_pending a) eqn:Hp; [done|]. by apply inv_pop_front. }
  intros u. apply safe_get_bind. intros self Hi _.
  destruct (ag_active self) as [x|] eqn:Ha; [|apply safe_true].
  destruct (_ || _)%bool eqn:Hg; [apply safe_true|]. to_prop.
  assert (state (ag_transactions self) = Transaction.Idle) as Hidle.
  { unfold is_idle in *. by destruct (state (ag_transactions self)). }
  assert (work_ok (aw_work x)) as Hok by (eapply inv_active_ok; [done|by exists x]).
  eapply safe_bind.
  - eapply safe_pre; [apply safe_attempt_frame; [exact Hok|]|].
    + intros h Hh. rewrite Hh in Hok. apply Hok.
    + intros a _ <-. split; [by symmetry|]. by exists x.
  - intros [frame|]; [|apply safe_true].
    eapply safe_bind with (Q := fun _ _ => True); [|intros u'; apply safe_true].
    apply safe_modify. intros a Hia Ht. split; [|done]. by apply inv_set_outbound.
Qed.

Lemma safe_poll (now : MonotonicMicros) : safe (fun _ => True) (poll now) (fun _ _ => True).
Proof.
  unfold poll. apply safe_get_bind. intros self Hi _.
  destruct (is_some (ag_outbound self)) eqn:Ho; [apply safe_true|].
  unfold completed_measurement_node.
  destruct (ag_completed_measurement self) as [t|] eqn:Hc; [apply safe_true|]. cbn [fmap option_fmap option_map].
  eapply safe_bind with (Q := fun event a => ag_completed_measurement a = None /\
    match event with TimedOut _ _ _ => channel_in quiet a /\ is_some (ag_active a) = true | _ => True end).
  { intros a r a' Hia <- H. unfold on_transactions, on_timer, enter_quarantine in H. st_unfold H.
    pose proof (inv_on_wire _ _ _ Hi) as Hw.
    assert (forall tc, (on_wire (state tc) = true -> on_wire (state (ag_transactions self)) = true) ->
      agent_inv limit owed (set_transactions tc self)) as Hset.
    { intros tc Htc. apply inv_set_transactions; [done|by auto|]. left. by destruct (ag_outbound self). }
    destruct (state (ag_transactions self)) as [|p|active|expired til] eqn:Hs.
    - simplify_eq. split; [apply Hset; by rewrite Hs|done].
    - simplify_eq. split; [apply Hset; by rewrite Hs|done].
    - destruct (now <=? _); [simplify_eq; split; [apply Hset; by rewrite Hs|done]|].
      destruct (monotonic_checked_add _ _); simplify_eq; cbn.
      + split; [by apply Hset|]. split; [done|]. split; [done|]. by apply Hw.
      + split; [|done]. apply Hset. by rewrite Hs.
    - destruct (now <? _); simplify_eq; (split; [apply Hset; cbn; by rewrite ?Hs|done]). }
  intros [|id recovery til|].
  - eapply safe_pre; [apply safe_poll_send|]. by intros a _ [? _].
  - eapply safe_pre; [apply safe_poll_timed_out|]. by intros a _ [_ ?].
  - apply safe_true.
Qed.

Lemma safe_transmit_completed (now : MonotonicMicros) :
  safe (fun _ => True) (transmit_completed now) (fun _ _ => True).
Proof.
  unfold transmit_completed. apply safe_get_bind. intros self Hi _.
  destruct (is_some (ag_outbound self)) eqn:Ho; [by apply safe_throw|].
  eapply safe_bind with (Q := fun _ _ => True).
  - intros a r a' Hia <- H. unfold on_transactions, mark_transmitted in H. st_unfold H.
    pose proof (inv_on_wire _ _ _ Hi) as Hw.
    assert (forall tc, (on_wire (state tc) = true -> on_wire (state (ag_transactions self)) = true) ->
      agent_inv limit owed (set_transactions tc self)) as Hset.
    { intros tc Htc. apply inv_set_transactions; [done|by auto|]. left. by destruct (ag_outbound self). }
    destruct (state (ag_transactions self)) eqn:Hs; try destruct (monotonic_checked_add _ _);
      simplify_eq; cbn; (split; [apply Hset; cbn; by rewrite ?Hs|done]).
  - intros active. apply safe_get_bind. intros self' Hi' _.
    destruct (ag_active self') as [x|] eqn:Hx; [|apply safe_true]. cbn.
    destruct (aw_work x) eqn:Hw; try apply safe_true.
    apply safe_modify. intros a _ <-. split; [|done]. eapply inv_set_work; [done..|].
    rewrite Hw. split; [done|done|done|constructor].
Qed.

Lemma safe_take_outbound : safe (fun _ => True) take_outbound (fun _ _ => True).
Proof.
  unfold take_outbound. apply safe_get_bind. intros self Hi _.
  eapply safe_bind with (Q := fun _ _ => True); [|intros u; apply safe_true].
  apply safe_modify. intros a Hia _. split; [|done]. by apply inv_set_outbound.
Qed.

(** *** Responses *)

Lemma safe_told_work {X : Type} (w : PendingWork) (now : MonotonicMicros) (x : X) :
  safe (fun a => channel_in quiet a /\ active_is w a) (_ ← delay_retry now; mret x) (fun _ _ => True).
Proof. eapply safe_bind; [apply safe_delay_retry|]. intros u. apply safe_true. Qed.

Lemma safe_finish {X : Type} (w : PendingWork) (m : agent X) :
  work_transfer w = None -> safe (fun _ => True) m (fun _ _ => True) ->
  safe (fun a => channel_in quiet a /\ active_is w a) (_ ← modify (set_active None); m)
    (fun _ _ => True).
Proof.
  intros Hw Hm. eapply safe_bind; [by apply safe_clear_active|]. intros u. exact Hm.
Qed.

Lemma safe_receive_lifecycle (now : MonotonicMicros) (o : LifecycleOperation) (payload : bytes) :
  safe (fun a => channel_in quiet a /\ active_is (WorkLifecycle o) a)
    (receive_lifecycle now o payload) (fun _ _ => True).
Proof.
  unfold receive_lifecycle. eapply safe_bind.
  - apply safe_on_work with (Q := fun _ _ => True). intros r o' Hok H.
    destruct (accept_keeps lifecycle_lawful payload o o' r H) as [Hs Hr].
    split; [by apply lifecycle_step|by destruct r].
  - intros answer a r a' Hi (HC & o' & Hact & _) H. revert H.
    destruct answer; [eapply (safe_told_work (WorkLifecycle o'))..|eapply (safe_finish (WorkLifecycle o'))];
      try done. apply safe_true.
Qed.

Lemma safe_receive_configuration (now : MonotonicMicros) (o : ConfigurationOperation) (payload : bytes) :
  safe (fun a => channel_in quiet a /\ active_is (WorkConfiguration o) a)
    (receive_configuration now o payload) (fun _ _ => True).
Proof.
  unfold receive_configuration. eapply safe_bind.
  - apply safe_on_work with (Q := fun _ _ => True). intros r o' Hok H.
    destruct (accept_keeps configuration_lawful_operation payload o o' r H) as [Hs Hr].
    split; [by apply configuration_step|by destruct r].
  - intros answer a r a' Hi (HC & o' & Hact & _) H. revert H.
    destruct answer; [eapply (safe_told_work (WorkConfiguration o'))
      |eapply (safe_finish (WorkConfiguration o'))..]; try done; apply safe_true.
Qed.

(** Only an assignment is ever not accepted. *)
Lemma commissioning_not_accepted (payload : bytes) (o o' : CommissioningOperation) :
  commissioning_accept_response payload o = (Ok CommissioningNotAccepted, o') ->
  exists id, commissioning_operation_id (mo_request o) = Some id.
Proof.
  unfold commissioning_accept_response, commissioning_complete, commissioning_fail. intros H.
  destruct (mo_request o) eqn:Hr; [|by eexists]. st_unfold H. rewrite Hr in H.
  destruct (bool_decide _); [|done]. destruct (decode_probe_slot_response payload); [|done..].
  by destruct (_ =? _).
Qed.

Lemma safe_receive_commissioning (now : MonotonicMicros) (o : CommissioningOperation) (payload : bytes) :
  safe (fun a => channel_in quiet a /\ active_is (WorkCommissioning o) a)
    (receive_commissioning now o payload) (fun _ _ => True).
Proof.
  unfold receive_commissioning. eapply safe_bind.
  - apply safe_on_work with (Q := fun answer _ => answer = CommissioningNotAccepted ->
      exists id, commissioning_operation_id (mo_request o) = Some id). intros r o' Hok H.
    destruct (accept_keeps commissioning_lawful_operation payload o o' r H) as [Hs Hr].
    split; [by apply commissioning_step|]. destruct r; [|done..].
    intros ->. by eapply commissioning_not_accepted.
  - intros answer a r a' Hi (HC & o' & Hact & Hid) H. revert H.
    destruct answer; [|eapply (safe_finish (WorkCommissioning o')); try done; apply safe_true..].
    destruct (Hid eq_refl) as [id ->]. cbn [ok_or]. rewrite st_bind_lift_Ok. intros H.
    by eapply (safe_told_work (WorkCommissioning o')) in H.
Qed.

Lemma accept_response_step (payload : bytes) (t t' : MeasurementTransfer) r :
  transfer_ok t -> accept_response payload t = (r, t') ->
  work_step (WorkMeasurement t) (WorkMeasurement t') /\ r <> Panic.
Proof.
  intros Ht H. destruct (transfer_call (CallAcceptResponse payload) t) as [r2 t2] eqn:Hc.
  destruct (transfer_step (CallAcceptResponse payload) t t2 r2 I Ht Hc) as (Hstep & Hp).
  cbn [transfer_call] in Hc. apply st_bind_pure in Hc as (r0 & Hc & ->).
  rewrite H in Hc. simplify_eq. split; [done|]. by destruct r0.
Qed.

Lemma safe_receive_measurement (now : MonotonicMicros) (t : MeasurementTransfer) (payload : bytes) :
  safe (fun a => channel_in quiet a /\ active_is (WorkMeasurement t) a)
    (receive_measurement now t payload) (fun _ _ => True).
Proof.
  unfold receive_measurement. eapply safe_bind.
  - apply safe_on_work with (Q := fun _ _ => True). intros r t' Hok H.
    destruct (accept_response_step payload t t' r Hok H) as [Hs Hr]. split; [done|by destruct r].
  - intros answer a r a' Hi (HC & t' & Hact & _) H. revert H. revert a r a' Hi HC Hact.
    assert (forall X (k : Z -> agent X), (forall n, safe (fun _ => True) (k n) (fun _ _ => True)) ->
      safe (fun a => channel_in quiet a /\ active_is (WorkMeasurement t') a)
        (node ← handoff_active_measurement; k node) (fun _ _ => True)) as Hgive.
    { intros X k Hk. eapply safe_bind; [apply safe_handoff|]. intros node.
      eapply safe_pre; [apply Hk|done]. }
    assert (safe (fun a => channel_in quiet a /\ active_is (WorkMeasurement t') a)
      (if bool_decide (answer = NotAccepted) then
        _ ← delay_retry now;
        a ← active_work;
        self ← get;
        if measurement_attempts_per_slot (ag_policy self) <=? aw_attempts_started a then
          node ← handoff_active_measurement; mret (EvMeasurementAttemptsExhausted node)
        else mret (EvMeasurementNotAccepted (mt_node_address t))
      else
        _ ← handoff_active_measurement;
        mret (measurement_event (mt_node_address t) answer)) (fun _ _ => True)) as Hrest.
    { case_bool_decide as Hans; [|apply Hgive; intros; apply safe_true].
      eapply safe_bind; [apply safe_delay_retry|]. intros u.
      eapply safe_bind with (Q := fun _ a => channel_in quiet a /\ active_is (WorkMeasurement t') a).
      - intros a r a' Hi [HC Hact] H. pose proof (active_is_some _ _ Hact) as Hsome.
        pose proof (safe_active_work quiet a r a' Hi (conj HC Hsome) H) as (Hi' & Hr).
        assert (a' = a) as ->. { unfold active_work in H. st_unfold H. by simplify_eq. }
        by destruct r.
      - intros x. apply safe_get_bind. intros self Hi (HC & Hact).
        eapply safe_pre with (P' := fun a => channel_in quiet a /\ active_is (WorkMeasurement t') a);
          [|intros a _ <-; done].
        destruct (_ <=? _); [apply Hgive; intros; apply safe_true|apply safe_true]. }
    intros a r a' Hi HC Hact H. by eapply Hrest.
Qed.

Lemma decode_stream_state_no_panic (payload : bytes) : no_panic (decode_stream_state_success payload).
Proof. apply (codec_decode_total _ _ stream_state_lawful). Qed.

Lemma safe_receive_stream_state (now : MonotonicMicros) (node : Z) (payload : bytes) :
  safe (fun a => channel_in quiet a /\ active_is (WorkStreamState node) a)
    (receive_stream_state now node payload) (fun _ _ => True).
Proof.
  unfold receive_stream_state. pose proof (decode_stream_state_no_panic payload) as Hp.
  assert (forall e, safe (fun a => channel_in quiet a /\ active_is (WorkStreamState node) a)
    (_ ← modify (set_active None); throw (AgentStreamStateWire e) : agent ChannelEvent) (fun _ _ => True)) as Herr.
  { intros e. eapply safe_finish; [done|]. by apply safe_throw. }
  destruct (decode_stream_state_success payload) as [state|e|]; [| |done].
  - eapply safe_finish; [done|apply safe_true].
  - destruct e; try apply Herr. destruct status; try apply Herr. apply safe_told_work.
Qed.

Lemma clock_observation_no_panic (e hs nr ns hr : Z) : no_panic (clock_observation_new e hs nr ns hr).
Proof. unfold clock_observation_new. repeat (destruct (_ <? _) || destruct (_ =? _)); auto with rust. Qed.

Lemma safe_receive_time_sync (now : MonotonicMicros) (t : TimeSyncAttempt) (payload : bytes) :
  safe (fun a => channel_in quiet a /\ active_is (WorkTimeSync t) a)
    (receive_time_sync now t payload) (fun _ _ => True).
Proof.
  unfold receive_time_sync. apply safe_finish; [done|].
  pose proof (codec_decode_total _ _ time_lawful payload) as Hp. cbn [wire_decode time_codec] in Hp.
  destruct (decode_time_response payload) as [decoded|e|]; [| |done].
  - destruct (_ =? _); [|by apply safe_throw]. cbn [negb].
    destruct (ts_host_send_us t) as [sent|]; [|by apply safe_throw].
    pose proof (clock_observation_no_panic (time_boot_epoch decoded) sent
      (ObservationWire.node_receive_us decoded) (ObservationWire.node_send_us decoded) now) as Ho.
    destruct (clock_observation_new _ _ _ _ _); [apply safe_true..|done].
  - destruct e; (apply safe_true || by apply safe_throw).
Qed.

Lemma safe_receive_telemetry (node : Z) (payload : bytes) :
  safe (fun a => channel_in quiet a /\ active_is (WorkTelemetry node) a)
    (receive_telemetry node payload) (fun _ _ => True).
Proof.
  unfold receive_telemetry. apply safe_finish; [done|].
  pose proof (decode_telemetry_no_panic payload) as Hp.
  destruct (decode_telemetry_snapshot payload) as [snapshot|e|]; [apply safe_true| |done].
  destruct e; (apply safe_true || by apply safe_throw).
Qed.

(** A handshake that has just become ready leaves the channel in the same call. *)
Lemma safe_accept_handshake (now : MonotonicMicros) (c : HandshakeCall) (h : NodeHandshake) (node : Z) :
  safe (fun a => channel_in quiet a /\ active_is (WorkHandshake h) a)
    (_ ← on_work WorkHandshake AgentHandshake (handshake_call c) h; finish_handshake now node)
    (fun _ _ => True).
Proof.
  intros a r a' Hi (HC & Hact) H. pose proof (inv_active_ok a _ Hi Hact) as (Ht & Hok & Hnr).
  destruct Hact as (x & Hx & Hw). unfold on_work, finish_handshake, active_work in H.
  destruct (handshake_call c h) as [r1 h1] eqn:Hc.
  destruct (handshake_call_sound _ c Ht h r1 h1 Hok Hc) as (Hok1 & Hr1).
  pose proof (proj1 Hok1) as Hreq.
  assert (hs_phase h1 <> HandshakeReady -> agent_inv limit owed (set_work (WorkHandshake h1) a)) as Hset.
  { intros Hn. eapply inv_set_work; [done..|]. rewrite Hw. split; [|done|by cbn; rewrite Hreq|constructor].
    cbn. rewrite Hreq. auto. }
  st_unfold H. destruct r1 as [u|e|]; [| |done].
  2: { subst h1. simplify_eq. split; [auto|done]. }
  unfold set_work in H at 1. cbn in H. rewrite Hx in H. cbn in H.
  case_bool_decide as Hready.
  - destruct Hok1 as (_ & Hok1). rewrite Hready in Hok1.
    destruct Hok1 as (node1 & c1 & Hn & Hc1 & _). rewrite Hn, Hc1 in H. simplify_eq.
    split; [|done]. change (set_active None _) with (set_active None a).
    eapply inv_clear_active; [done..| |done]. by rewrite Hw.
  - simplify_eq. split; [|done]. specialize (Hset Hready).
    unfold set_retry_not_before, set_work. cbn. rewrite Hx. cbn.
    change (set_active _ (set_active _ a)) with
      (set_active (Some (mkActiveWork (WorkHandshake h1) now (aw_attempts_started x)))
        (set_work (WorkHandshake h1) a)).
    eapply inv_set_active_same; [exact Hset|unfold set_work; cbn; by rewrite Hx|done].
Qed.

Lemma safe_receive_handshake (now : MonotonicMicros) (h : NodeHandshake) (payload : bytes) :
  work_ok (WorkHandshake h) ->
  safe (fun a => channel_in quiet a /\ active_is (WorkHandshake h) a)
    (receive_handshake now h payload) (fun _ _ => True).
Proof.
  intros (_ & _ & Hnr). unfold receive_handshake. destruct (hs_phase h); [| |done].
  - apply (safe_accept_handshake now (CallIdentity payload)).
  - apply (safe_accept_handshake now (CallCapabilities payload)).
Qed.

Lemma safe_receive_accepted (now : MonotonicMicros) (payload : bytes) :
  safe (fun a => channel_in quiet a /\ is_some (ag_active a) = true) (receive_accepted now payload)
    (fun _ _ => True).
Proof.
  unfold receive_accepted. eapply safe_bind; [apply safe_active_work|]. intros x a r a' Hi (HC & Hx).
  assert (active_is (aw_work x) a) as Hact by by exists x.
  pose proof (inv_active_ok a _ Hi Hact) as Hok. revert Hi.
  pose proof (conj HC Hact) as HP. revert HP. revert a r a' HC Hx Hact.
  assert (safe (fun a => channel_in quiet a /\ active_is (aw_work x) a)
    match aw_work x with
    | WorkHandshake h => receive_handshake now h payload
    | WorkStreamState node => receive_stream_state now node payload
    | WorkLifecycle o => receive_lifecycle now o payload
    | WorkConfiguration o => receive_configuration now o payload
    | WorkCommissioning o => receive_commissioning now o payload
    | WorkMeasurement t => receive_measurement now t payload
    | WorkTimeSync t => receive_time_sync now t payload
    | WorkTelemetry node => receive_telemetry node payload
    end (fun _ _ => True)) as Hs.
  { destruct (aw_work x); auto using safe_receive_handshake, safe_receive_stream_state,
      safe_receive_lifecycle, safe_receive_configuration, safe_receive_commissioning,
      safe_receive_measurement, safe_receive_time_sync, safe_receive_telemetry. }
  intros a r a' _ _ _ HP Hi H. by eapply Hs.
Qed.

Lemma safe_agent_receive (now : MonotonicMicros) (frame : Frame) :
  no_panic (frame_payload frame) ->
  safe (fun _ => True) (agent_receive now frame) (fun _ _ => True).
Proof.
  intros Hf. unfold agent_receive.
  eapply safe_bind with (Q := fun d a =>
    d = Accepted -> channel_in quiet a /\ is_some (ag_active a) = true).
  - intros a r a' Hi _ H. unfold on_transactions, Transaction.receive, enter_quarantine in H.
    st_unfold H. pose proof (inv_on_wire _ _ _ Hi) as Hw. pose proof (inv_outbound_none _ Hi) as Ho.
    assert (forall tc, (on_wire (state tc) = true -> on_wire (state (ag_transactions a)) = true) ->
      (state tc = state (ag_transactions a) \/ forall p, state (ag_transactions a) <> Transmitting p) ->
      agent_inv limit owed (set_transactions tc a)) as Hset.
    { intros tc Htc Htp. apply inv_set_transactions; [done|by auto|]. destruct Htp; auto. }
    destruct (state (ag_transactions a)) as [|p|active|expired til] eqn:Hs.
    + simplify_eq. split; [apply Hset; rewrite Hs; auto|done].
    + simplify_eq. split; [apply Hset; rewrite Hs; auto|done].
    + destruct (now <=? _).
      * destruct (active_matches active frame); simplify_eq; cbn.
        -- split; [apply Hset; [done|by right]|]. intros _. split; [done|by apply Hw].
        -- split; [apply Hset; rewrite Hs; auto|done].
      * destruct (monotonic_checked_add _ _); simplify_eq; cbn.
        -- split; [apply Hset; [done|by right]|]. by destruct (active_matches active frame).
        -- split; [apply Hset; rewrite Hs; auto|done].
    + simplify_eq. split; [apply Hset; rewrite Hs; auto|]. by destruct (active_matches expired frame).
  - intros []; [|apply safe_true..]. eapply safe_bind; [apply safe_lift|].
    + by apply no_panic_map_err.
    + intros e He. destruct (frame_payload frame); by simplify_eq/=.
    + intros payload. apply safe_pure. intros _. eapply safe_pre; [apply safe_receive_accepted|].
      intros a _ Ha. by apply Ha.
Qed.

(** *** Abandoned and submitted work *)

Lemma matches_control_key_control (w : PendingWork) (key : ControlWorkKey) :
  matches_control_key w key = true -> work_transfer w = None.
Proof. by destruct w, key. Qed.

Lemma remove_first_spec (p : PendingWork -> bool) (l rest : list PendingWork) :
  remove_first p l = Some rest ->
  exists l1 w l2, l = l1 ++ w :: l2 /\ p w = true /\ rest = l1 ++ l2.
Proof.
  revert rest. induction l as [|w l IH]; intros rest H; [done|]. cbn in H.
  destruct (p w) eqn:Hp.
  - injection H as <-. by exists [], w, l.
  - destruct (remove_first p l) as [rest'|]; [|done]. injection H as <-.
    destruct (IH rest' eq_refl) as (l1 & w' & l2 & -> & ? & ->). by exists (w :: l1), w', l2.
Qed.

Lemma inv_remove_pending (a : ChannelAgent) (l1 l2 : list PendingWork) (w : PendingWork) :
  agent_inv limit owed a -> ag_pending a = l1 ++ w :: l2 -> work_transfer w = None ->
  agent_inv limit owed (set_pending (l1 ++ l2) a).
Proof.
  intros [Hwire Hout Hcomp Hwork Hids Hnz Hnext Hlimit Hbound Howed] Hp Hw.
  unfold held, all_work, queued_work_items in *. rewrite Hp in *.
  set (l0 := match ag_active a with Some x => [aw_work x] | None => [] end) in *.
  assert (forall B (f : PendingWork -> option B), omap f (l0 ++ l1 ++ w :: l2) =
    omap f l0 ++ omap f l1 ++ option_list (f w) ++ omap f l2) as Homap.
  { intros B f. rewrite !omap_app. cbn. by destruct (f w). }
  split; unfold held, all_work, queued_work_items; cbn; fold l0; try done.
  - apply Forall_app in Hwork as [? Hwork]. apply Forall_app in Hwork as [? Hwork].
    apply Forall_cons_1 in Hwork as [_ ?]. by repeat apply Forall_app_2.
  - rewrite !omap_app. rewrite Homap in Hids. eapply sublist_NoDup; [exact Hids|].
    apply sublist_app; [done|]. apply sublist_app; [done|]. by apply sublist_inserts_l.
  - rewrite Homap in Hnz. rewrite !omap_app.
    apply Forall_app in Hnz as [? Hnz]. apply Forall_app in Hnz as [? Hnz].
    apply Forall_app in Hnz as [_ ?]. by repeat apply Forall_app_2.
  - rewrite length_app in *. cbn in Hbound. lia.
  - rewrite !omap_app. rewrite Homap, Hw in Howed. exact Howed.
Qed.

Lemma safe_abandon (key : ControlWorkKey) :
  safe (fun _ => True) (abandon_control_work key) (fun _ _ => True).
Proof.
  unfold abandon_control_work. apply safe_get_bind. intros self Hi _.
  destruct (match ag_active self with Some _ => _ | None => _ end) eqn:Hm.
  - destruct (ag_active self) as [x|] eqn:Hx; [|done].
    destruct (is_some (ag_outbound self)); [by apply safe_throw|]. cbn [orb].
    destruct (is_idle (ag_transactions self)) eqn:Hidle; cbn [negb]; [|by apply safe_throw].
    eapply safe_bind with (Q := fun _ _ => True); [|intros u; apply safe_true].
    apply safe_modify. intros a _ <-. split; [|done].
    eapply inv_clear_active; [done..|by eapply matches_control_key_control|].
    unfold is_idle in Hidle. unfold quiet. by destruct (state (ag_transactions self)).
  - destruct (remove_first _ _) as [rest|] eqn:Hr; [|by apply safe_throw].
    apply remove_first_spec in Hr as (l1 & w & l2 & Hp & Hk & ->).
    eapply safe_bind with (Q := fun _ _ => True); [|intros u; apply safe_true].
    apply safe_modify. intros a _ <-. split; [|done].
    eapply inv_remove_pending; [done..|by eapply matches_control_key_control].
Qed.

Definition has_room (a : ChannelAgent) : Prop :=
  queued_work_items a < max_pending_work_items (ag_policy a).

Lemma safe_capacity : safe (fun _ => True) ensure_queue_capacity (fun _ => has_room).
Proof.
  unfold ensure_queue_capacity. apply safe_get_bind. intros self Hi _.
  destruct (_ <=? _) eqn:Hle; [by apply safe_throw|]. to_prop.
  eapply safe_post; [apply safe_ret|]. intros u a [_ <-]. done.
Qed.

(** The id no queued work uses, and never 0. *)
Definition fresh_id (id : Z) (a : ChannelAgent) : Prop :=
  operation_id_in_use a id = false /\ 1 <= id < 2 ^ 32.

Lemma succ_operation_id_range (id : Z) : 1 <= succ_operation_id id < 2 ^ 32.
Proof.
  unfold succ_operation_id, wrapping_add.
  pose proof (Z.mod_pos_bound (id + 1) (2 ^ 32) ltac:(lia)).
  destruct (Z.eqb_spec ((id + 1) mod 2 ^ 32) 0); lia.
Qed.

Lemma safe_allocate : safe has_room allocate_operation_id (fun id a => has_room a /\ fresh_id id a).
Proof.
  unfold allocate_operation_id. apply safe_get_bind. intros x _ Hx.
  eapply safe_pre with (P' := has_room); [|by intros a _ <-]. clear Hx.
  generalize (Z.to_nat (saturating_add 64 (max_pending_work_items (ag_policy x)) 1)) as n.
  induction n as [|n IH]; [by apply safe_throw|]. cbn [allocate_loop].
  apply safe_get_bind. intros self Hi Hroom.
  eapply safe_bind with (Q := fun _ a => a = set_next_operation_id
    (succ_operation_id (ag_next_operation_id self)) self).
  { apply safe_modify. intros a _ <-. split; [|done]. destruct Hi. split; try done.
    apply succ_operation_id_range. }
  intros u. destruct (_ && _)%bool eqn:Hg.
  - to_prop. eapply safe_post; [apply safe_ret|]. intros id a [-> ->]. split; [done|].
    split; [done|]. apply (inv_next _ _ _ Hi).
  - eapply safe_pre; [exact IH|]. by intros a _ ->.
Qed.

Lemma safe_push (w : PendingWork) :
  work_ok w -> work_transfer w = None ->
  safe (fun a => has_room a /\ match work_operation_id w with Some id => fresh_id id a | None => True end)
    (push_back w) (fun _ _ => True).
Proof.
  intros Hok Hw. apply safe_modify. intros a Hi (Hroom & Hid). split; [|done].
  pose proof (inv_push_back a w Hi Hroom Hok) as Hinv. rewrite Hw, app_nil_r in Hinv.
  apply Hinv. by destruct (work_operation_id w).
Qed.

(** Creating an operation and queueing it. *)
Lemma safe_queue_new {E O : Type} (new : outcome E O) (conv : E -> ChannelAgentError)
    (wrap : O -> PendingWork) (id : option Z) :
  no_panic new -> (forall e, ~ internal (conv e)) ->
  (forall o, new = Ok o ->
     work_ok (wrap o) /\ work_transfer (wrap o) = None /\ work_operation_id (wrap o) = id) ->
  safe (fun a => has_room a /\ match id with Some id => fresh_id id a | None => True end)
    (o ← lift (map_err conv new); push_back (wrap o)) (fun _ _ => True).
Proof.
  intros Hp He Hnew. eapply safe_bind; [apply safe_lift|].
  - by apply no_panic_map_err.
  - intros e. destruct new; intros [= <-]. apply He.
  - intros o. apply safe_pure. rewrite map_err_Ok. intros Ho.
    destruct (Hnew o Ho) as (Hok & Htr & Hid). rewrite <- Hid. by apply safe_push.
Qed.

Lemma safe_submit_with_id {E O : Type} (new : Z -> outcome E O) (conv : E -> ChannelAgentError)
    (wrap : O -> PendingWork) :
  (forall id, 1 <= id < 2 ^ 32 -> no_panic (new id)) -> (forall e, ~ internal (conv e)) ->
  (forall id o, new id = Ok o ->
     work_ok (wrap o) /\ work_transfer (wrap o) = None /\ work_operation_id (wrap o) = Some id) ->
  safe (fun _ => True)
    (_ ← ensure_queue_capacity;
     id ← allocate_operation_id;
     o ← lift (map_err conv (new id));
     _ ← push_back (wrap o);
     mret id) (fun _ _ => True).
Proof.
  intros Hp He Hnew. eapply safe_bind; [apply safe_capacity|]. intros u.
  eapply safe_bind; [apply safe_allocate|]. intros id a r a' Hi (Hroom & Hfresh) H.
  pose proof (safe_queue_new (new id) conv wrap (Some id) (Hp id (proj2 Hfresh)) He (Hnew id)) as Hq.
  revert H. cbv [mbind st_bind lift mret st_ret] in *. unfold safe in Hq.
  specialize (Hq a). destruct (map_err conv (new id)) as [o|e|].
  - destruct (push_back (wrap o) a) as [r1 a1] eqn:Hb.
    destruct (Hq r1 a1 Hi (conj Hroom Hfresh) eq_refl) as (Hi1 & Hr1).
    destruct r1; intros [= <- <-]; done.
  - intros [= <- <-]. by apply (Hq _ _ Hi (conj Hroom Hfresh) eq_refl).
  - intros [= <- <-]. by apply (Hq _ _ Hi (conj Hroom Hfresh) eq_refl).
Qed.

Lemma lifecycle_new_no_panic (node : Z) (c : RuntimeCommand) :
  1 <= cmd_operation_id c < 2 ^ 32 -> no_panic (lifecycle_new node c).
Proof.
  intros Hc. unfold lifecycle_new.
  destruct (proj1 lifecycle_wire_lawful c) as (e & used & -> & _); [ilia|lia|done].
Qed.

Lemma config_validate_no_panic (r : ConfigurationRequest) :
  match r with
  | ConfigGet => True
  | ConfigValidate value => typed value
  | ConfigApply request => typed request
  | ConfigReset request => typed request
  end -> no_panic (config_validate_request r).
Proof.
  destruct r; cbn [config_validate_request]; intros Ht; [done|..];
    apply no_panic_map_err, no_panic_fmap.
  - by apply (codec_encode_total _ _ configuration_lawful).
  - by apply (codec_encode_total _ _ apply_config_lawful).
  - by apply (codec_encode_total _ _ reset_config_lawful).
Qed.

Lemma configuration_new_no_panic (node : Z) (r : ConfigurationRequest) :
  no_panic (config_validate_request r) -> no_panic (configuration_new node r).
Proof.
  intros Hr. unfold configuration_new. destruct (negb _); [done|].
  apply no_panic_bind; auto with rust.
Qed.

Lemma configuration_new_ok (node : Z) (r : ConfigurationRequest) (o : ConfigurationOperation) :
  configuration_new node r = Ok o ->
  work_ok (WorkConfiguration o) /\ work_transfer (WorkConfiguration o) = None /\
  work_operation_id (WorkConfiguration o) = configuration_operation_id r.
Proof.
  unfold configuration_new. destruct (negb _); [done|].
  intros ([] & Hv & [= <-])%outcome_bind_Ok. done.
Qed.

Lemma commissioning_new_ok (r : CommissioningRequest) (o : CommissioningOperation) :
  commissioning_new r = Ok o ->
  work_ok (WorkCommissioning o) /\ work_transfer (WorkCommissioning o) = None /\
  work_operation_id (WorkCommissioning o) = commissioning_operation_id r.
Proof. unfold commissioning_new. by intros ([] & Hv & [= <-])%outcome_bind_Ok. Qed.

Lemma commissioning_new_no_panic (r : CommissioningRequest) :
  match r with Probe request => typed request | Assign request => typed request end ->
  no_panic (commissioning_new r).
Proof.
  intros Ht. unfold commissioning_new. apply no_panic_bind; [|auto with rust].
  destruct r; cbn [commissioning_validate_request]; apply no_panic_map_err, no_panic_fmap.
  - by apply (codec_encode_total _ _ probe_request_lawful).
  - by apply (codec_encode_total _ _ assign_request_lawful).
Qed.

(** Work without an operation id, once there is room. *)
Lemma safe_submit_plain (m : agent unit) :
  safe has_room m (fun _ _ => True) ->
  safe (fun _ => True) (_ ← ensure_queue_capacity; m) (fun _ _ => True).
Proof. intros Hm. eapply safe_bind; [apply safe_capacity|]. intros u. exact Hm. Qed.

Lemma safe_push_plain (w : PendingWork) :
  work_ok w -> work_transfer w = None -> work_operation_id w = None ->
  safe has_room (push_back w) (fun _ _ => True).
Proof.
  intros Hok Hw Hid. eapply safe_pre; [by apply safe_push|]. intros a _ Hroom.
  by rewrite Hid.
Qed.

(** A configuration request without an operation id is built before the queue
    is looked at. *)
Lemma safe_submit_configuration (node : Z) (r : ConfigurationRequest) :
  configuration_operation_id r = None -> no_panic (config_validate_request r) ->
  safe (fun _ => True)
    (o ← lift (map_err AgentConfiguration (configuration_new node r)); submit_configuration o)
    (fun _ _ => True).
Proof.
  intros Hid Hp. eapply safe_bind; [apply safe_lift|].
  - by apply no_panic_map_err, configuration_new_no_panic.
  - intros e. destruct (configuration_new node r); by intros [= <-].
  - intros o. apply safe_pure. rewrite map_err_Ok. intros Ho.
    destruct (configuration_new_ok node r o Ho) as (Hok & Hw & Hwid).
    apply safe_submit_plain, safe_push_plain; [done..|]. by rewrite Hwid.
Qed.

Lemma safe_submit (s : Submission) :
  submission_typed s -> safe (fun _ => True) (submit s) (fun _ _ => True).
Proof.
  intros Ht. destruct s; cbn [submit submission_typed] in *;
    (eapply safe_bind with (Q := fun _ _ => True); [|intros x; apply safe_true]).
  - apply (safe_submit_with_id (fun id => lifecycle_new node_address (mkCommand id op profile)));
      [intros; by apply lifecycle_new_no_panic|done|].
    intros id o. unfold lifecycle_new. intros (e & He%map_err_Ok & [= <-])%outcome_bind_Ok.
    split; [by exists e|done].
  - by apply safe_submit_configuration.
  - apply safe_submit_configuration; [done|]. by apply config_validate_no_panic.
  - apply (safe_submit_with_id (fun id => configuration_new node_address
      (ConfigApply (mkOperationRequest id revision value)))); [|done|].
    + intros id Hid. apply configuration_new_no_panic, config_validate_no_panic.
      destruct Ht. split_and!; cbn; [ilia|done..].
    + intros id o. apply configuration_new_ok.
  - apply (safe_submit_with_id (fun id => configuration_new node_address
      (ConfigReset (mkReset id revision)))); [|done|].
    + intros id Hid. apply configuration_new_no_panic, config_validate_no_panic.
      split; cbn; [ilia|done].
    + intros id o. apply configuration_new_ok.
  - apply safe_submit_plain. eapply safe_pre.
    + apply (safe_queue_new _ _ _ None); [by apply commissioning_new_no_panic|done|].
      intros o. apply commissioning_new_ok.
    + intros a _ ?. done.
  - apply (safe_submit_with_id (fun id => commissioning_new
      (Assign (mkAssign id nonce hardware_id node_address)))); [|done|].
    + intros id Hid. apply commissioning_new_no_panic. destruct Ht as (? & ? & ?).
      split_and!; cbn; [ilia|done..].
    + intros id o. apply commissioning_new_ok.
  - apply safe_submit_plain, safe_push_plain; [|done..]. by split_and!.
  - apply safe_submit_plain. destruct (host_or_broadcast _); [by apply safe_throw|].
    by apply safe_push_plain.
  - apply safe_submit_plain. destruct (host_or_broadcast _); [by apply safe_throw|].
    destruct (_ =? _); [by apply safe_throw|]. by apply safe_push_plain.
  - apply safe_submit_plain. destruct (host_or_broadcast _); [by apply safe_throw|].
    by apply safe_push_plain.
Qed.
End Safe.

(** ** Histories *)

(** The transfer a call submitted, and the one it gave back. *)
Definition accepted_transfer (c : AgentCall) (r : outcome ChannelAgentError AgentReply) :
    list MeasurementTransfer :=
  match c, r with ASubmitMeasurement t, Ok _ => [t] | _, _ => [] end.

Definition returned_transfer (r : outcome ChannelAgentError AgentReply) :
    list MeasurementTransfer :=
  match r with Ok (ReplyTransfer (Some t)) => [t] | _ => [] end.

Definition accepted_transfers (cs : list AgentCall)
    (rs : list (outcome ChannelAgentError AgentReply)) : list MeasurementTransfer :=
  concat (zip_with accepted_transfer cs rs).

Definition returned_transfers (rs : list (outcome ChannelAgentError AgentReply)) :
    list MeasurementTransfer :=
  concat (returned_transfer <$> rs).

(** Neither a panic nor a violated invariant. *)
Definition sound_result (r : outcome ChannelAgentError AgentReply) : Prop :=
  match r with Ok _ => True | Err e => e <> InvariantViolation | Panic => False end.

(** One call settles what it owes. *)
Definition settles (limit : Z) (c : AgentCall) (owed : list MeasurementTransfer) (a : ChannelAgent)
    (r : outcome ChannelAgentError AgentReply) (a' : ChannelAgent) : Prop :=
  sound_result r /\
  exists paid owed', owed ++ accepted_transfer c r = paid ++ owed' /\
    Forall2 evolves paid (returned_transfer r) /\ agent_inv limit owed' a'.

(** A call whose reply involves no transfer. *)
Lemma settles_plain {X : Type} (limit : Z) (c : AgentCall) (owed : list MeasurementTransfer) (m : agent X)
    (reply : X -> AgentReply) (a : ChannelAgent) r a' :
  safe limit owed (fun _ => True) m (fun _ _ => True) ->
  (forall r, accepted_transfer c r = []) -> (forall x, returned_transfer (Ok (reply x)) = []) ->
  agent_inv limit owed a -> (x ← m; mret (reply x)) a = (r, a') -> settles limit c owed a r a'.
Proof.
  intros Hm Hc Hx Hi H. apply st_bind_pure in H as (r0 & H & ->).
  destruct (Hm a r0 a' Hi I H) as (Hi' & Hr0).
  split; [destruct r0; [done|exact Hr0|done]|].
  exists [], owed. rewrite Hc, app_nil_r. split; [done|]. split; [|done].
  destruct r0; rewrite ?Hx; constructor.
Qed.

Lemma settles_submit_measurement (limit : Z) (t : MeasurementTransfer) (owed : list MeasurementTransfer)
    (a : ChannelAgent) r a' :
  transfer_ok t -> agent_inv limit owed a -> agent_call (ASubmitMeasurement t) a = (r, a') ->
  settles limit (ASubmitMeasurement t) owed a r a'.
Proof.
  intros Ht Hi H. cbn [agent_call] in H. apply st_bind_pure in H as (r0 & H & ->).
  unfold submit_measurement in H. cbv [mbind st_bind] in H.
  destruct (ensure_queue_capacity a) as [r1 a1] eqn:Hcap.
  destruct (safe_capacity limit owed a r1 a1 Hi I Hcap) as (Hi1 & Hr1).
  destruct r1 as [u|e|]; [|simplify_eq; split; [exact Hr1|]|done].
  - injection H as <- <-. split; [done|]. exists [], (owed ++ [t]). split; [done|].
    split; [constructor|]. by apply (inv_push_back limit owed a1 (WorkMeasurement t)).
  - exists [], owed. cbn. rewrite app_nil_r. split; [done|]. by split; [constructor|].
Qed.

Lemma settles_take_measurement (limit : Z) (owed : list MeasurementTransfer) (a : ChannelAgent) r a' :
  agent_inv limit owed a -> agent_call ATakeMeasurement a = (r, a') -> settles limit ATakeMeasurement owed a r a'.
Proof.
  intros Hi H. cbn [agent_call] in H. unfold take_completed_measurement in H. st_unfold H.
  injection H as <- <-. split; [done|]. cbn. rewrite app_nil_r.
  destruct Hi as [Hwire Hout Hcomp Hwork Hids Hnz Hnext Hlimit Hbound Howed].
  destruct (ag_completed_measurement a) as [t|] eqn:Hc.
  - unfold held in Howed. rewrite Hc in Howed. apply Forall2_cons_inv_r in Howed as (t0 & owed' & Ht & Hrest & ->).
    exists [t0], owed'. split; [done|]. split; [by repeat constructor|].
    split; try done. unfold queued_work_items in *. rewrite Hc in Hbound. cbn in *. lia.
  - exists [], owed. split; [done|]. split; [constructor|].
    unfold held, queued_work_items in *. rewrite Hc in *.
    split; try done.
Qed.

Lemma agent_call_settles (limit : Z) (c : AgentCall) (owed : list MeasurementTransfer) (a : ChannelAgent) r a' :
  call_typed c -> agent_inv limit owed a -> agent_call c a = (r, a') -> settles limit c owed a r a'.
Proof.
  intros Ht Hi H. destruct c; cbn [agent_call call_typed] in *.
  - refine (settles_plain limit _ owed _ _ a r a' _ _ _ Hi H); [by apply safe_submit|done..].
  - by apply settles_submit_measurement.
  - refine (settles_plain limit _ owed _ _ a r a' _ _ _ Hi H); [by apply safe_poll|done..].
  - refine (settles_plain limit _ owed _ _ a r a' _ _ _ Hi H); [by apply safe_take_outbound|done..].
  - refine (settles_plain limit _ owed _ _ a r a' _ _ _ Hi H); [by apply safe_transmit_completed|done..].
  - refine (settles_plain limit _ owed _ _ a r a' _ _ _ Hi H); [by apply safe_transmit_failed|done..].
  - refine (settles_plain limit _ owed _ _ a r a' _ _ _ Hi H); [by apply safe_agent_receive|done..].
  - by apply settles_take_measurement.
  - refine (settles_plain limit _ owed _ _ a r a' _ _ _ Hi H); [by apply safe_abandon|done..].
Qed.

Lemma agent_run_settles (limit : Z) (cs : list AgentCall) (owed : list MeasurementTransfer) (a : ChannelAgent) :
  Forall call_typed cs -> agent_inv limit owed a ->
  let '(rs, a') := agent_run cs a in
  Forall sound_result rs /\ length rs = length cs /\
  Forall2 evolves (owed ++ accepted_transfers cs rs) (returned_transfers rs ++ held a') /\
  exists owed', agent_inv limit owed' a'.
Proof.
  revert owed a. induction cs as [|c cs IH]; intros owed a Ht Hi.
  { cbn. rewrite app_nil_r. split_and!; [constructor|done|apply (inv_owed _ _ _ Hi)|by exists owed]. }
  apply Forall_cons_1 in Ht as [Hc Ht]. cbn [agent_run].
  destruct (agent_call c a) as [r a1] eqn:Hcall.
  destruct (agent_call_settles limit c owed a r a1 Hc Hi Hcall) as (Hr & paid & owed' & Howed & Hpaid & Hi1).
  specialize (IH owed' a1 Ht Hi1). destruct (agent_run cs a1) as [rs a2].
  destruct IH as (Hrs & Hlen & Hf & Hfin).
  split; [by constructor|]. split; [by cbn; rewrite Hlen|]. split; [|done].
  unfold accepted_transfers, returned_transfers. cbn.
  rewrite (assoc_L (++) owed), Howed, <- !(assoc_L (++)). by apply Forall2_app.
Qed.

Lemma agent_new_inv (seed operations : Z) (q : DurationMicros) (policy : ChannelPolicy)
    (a : ChannelAgent) :
  u32 operations -> 0 <= max_pending_work_items policy ->
  agent_new seed operations q policy = Ok a -> agent_inv (max_pending_work_items policy) [] a.
Proof.
  intros Hop Hmax. unfold agent_new, channel_policy_validate.
  intros (p & Hp & [= <-])%outcome_bind_Ok. run_in Hp. subst p.
  assert (1 <= (if operations =? 0 then 1 else operations) < 2 ^ 32) as Hnext.
  { destruct (operations =? 0) eqn:Ho; to_prop; ilia. }
  split; cbn; done || constructor.
Qed.

(** The request of the exchange in transmission, field by field. *)
Definition announces (tc : TransactionCore) (w : PendingWork) (f : Frame) : Prop :=
  exists p, state tc = Transmitting p /\ pt_node_address p = work_node_address w /\
    frame_role f = Request /\ destination f = pt_request_destination p /\
    Framing.source f = HOST_ADDRESS /\ service f = pt_service p /\
    message f = pt_request_message p /\ transaction_id f = pt_transaction_id p.

Lemma carries_announces (tc : TransactionCore) (w : PendingWork) (f : Frame) :
  carries tc w f -> announces tc w f.
Proof.
  intros (p & payload & Hp & Hn & (_ & _ & ->)%frame_new_inv). exists p. by split_and!.
Qed.

(** C3. The agent keeps its own invariants: whatever is submitted, polled, sent,
    received and abandoned on a new agent, in any order and at any times, no
    call panics and none reports an invariant violation; the queued, active and
    unclaimed work never exceeds the queue's capacity; the operation ids of the
    queued work are non-zero and pairwise different, so no answer can belong to
    two operations; an announced frame is the request of the exchange the transaction
    core is transmitting, with its transaction id, and the node it expects the
    answer from is that of the active work; and whenever the wire is in use some
    work owns it. *)
Theorem agent_history_safe (seed operations : Z) (q : DurationMicros) (policy : ChannelPolicy)
    (a : ChannelAgent) (cs : list AgentCall) :
  u32 operations -> 0 <= max_pending_work_items policy ->
  agent_new seed operations q policy = Ok a -> Forall call_typed cs ->
  let '(rs, a') := agent_run cs a in
  Forall sound_result rs /\
  queued_work_items a' <= max_pending_work_items policy /\
  NoDup (omap work_operation_id (all_work a')) /\
  Forall (fun id => 1 <= id < 2 ^ 32) (omap work_operation_id (all_work a')) /\
  (forall f, ag_outbound a' = Some f -> exists x, ag_active a' = Some x /\ announces (ag_transactions a') (aw_work x) f) /\
  (on_wire (state (ag_transactions a')) = true -> is_some (ag_active a') = true).
Proof.
  intros Hop Hmax Hnew Ht. pose proof (agent_new_inv seed operations q policy a Hop Hmax Hnew) as Hi.
  pose proof (agent_run_settles _ cs [] a Ht Hi) as Hrun.
  destruct (agent_run cs a) as [rs a']. destruct Hrun as (Hrs & _ & _ & owed & Hi').
  split; [done|]. destruct Hi' as [Hwire Hout Hcomp Hwork Hids Hnz Hnext Hlimit Hbound Howed].
  rewrite Hlimit in Hbound. split_and!; try done.
  intros f (x & Hx & Hf)%Hout. exists x. split; [done|]. by apply carries_announces.
Qed.

(** C4. No transfer is lost, duplicated or overtaken: the transfers an agent
    has accepted are, in order of submission, those it has given back followed
    by those it still holds, each having gone through nothing but attempts and
    answers of its own delivery session; so what a returned transfer hands to
    storage obeys the delivery contract from the cursor it was submitted with,
    and nothing of it was handed over or confirmed on the way. *)
Theorem agent_transfers_in_order (seed operations : Z) (q : DurationMicros) (policy : ChannelPolicy)
    (a : ChannelAgent) (cs : list AgentCall) :
  u32 operations -> 0 <= max_pending_work_items policy ->
  agent_new seed operations q policy = Ok a -> Forall call_typed cs ->
  let '(rs, a') := agent_run cs a in
  Forall2 evolves (accepted_transfers cs rs) (returned_transfers rs ++ held a').
Proof.
  intros Hop Hmax Hnew Ht. pose proof (agent_new_inv seed operations q policy a Hop Hmax Hnew) as Hi.
  pose proof (agent_run_settles _ cs [] a Ht Hi) as Hrun.
  destruct (agent_run cs a) as [rs a']. by destruct Hrun as (_ & _ & Hf & _).
Qed.

(** ** Witnesses *)

Definition sample_agent : ChannelAgent :=
  mkChannelAgent (transaction_new 100 500) (mkChannelPolicy 1000 200 2 4) 1 [] None None None.

Definition sample_transfer : MeasurementTransfer :=
  mkTransfer 7 48
    (mkSession sample_hw sample_epoch (mkCursors 20 20 16) Ready None None None None None)
    None None None.

Lemma sample_transfer_ok : transfer_ok sample_transfer.
Proof.
  exists sample_hw, sample_epoch, 20, None. split; [done|]. split; [vm_compute; split; congruence|].
  split; [|vm_compute; split; congruence]. by apply (recovered_rel sample_hw sample_epoch 20 16); [ilia|ilia|].
Qed.

(** A response of node 7 to the host. *)
Definition sample_reply (service message id : Z) (payload : bytes) : Frame :=
  mkFrame Response HOST_ADDRESS 7 service message id
    (payload ++ zeros (MAX_PAYLOAD_BYTES - length payload)) (length payload).

(** The transmission of what is on the queue, at time [t]. *)
Definition send_at (t : MonotonicMicros) : list AgentCall :=
  [APoll t; ATakeOutbound; ATransmitCompleted (t + 10)].

(** A pull answered with a chunk and handed over; then a lifecycle command whose
    first attempt times out and whose retry is answered. *)
Definition sample_agent_calls : list AgentCall :=
  [ASubmitMeasurement sample_transfer; ASubmit (SubmitLifecycle 7 StopRecording Production)]
  ++ send_at 0 ++ [AReceive 50 (sample_reply 2 2 100 golden_chunk_payload); APoll 60;
    ATakeMeasurement] ++ send_at 100 ++ [APoll 1111; APoll 1700] ++ send_at 1800
  ++ [AReceive 1900 (sample_reply 6 3 102 (result_wire
        (mkResult 1 ResultOk LifecycleWire.Idle Production SensorOk)))].

Definition reply_events (rs : list (outcome ChannelAgentError AgentReply)) : list ChannelEvent :=
  omap (fun r => match r with Ok (ReplyEvent e) => Some e | _ => None end) rs.

Lemma sample_agent_calls_typed : Forall call_typed sample_agent_calls.
Proof.
  unfold sample_agent_calls, send_at. cbn [app].
  repeat (apply List.Forall_cons; [first [exact I | exact sample_transfer_ok | by vm_compute]|]).
  apply List.Forall_nil.
Qed.

Example sample_agent_events :
  reply_events (fst (agent_run sample_agent_calls sample_agent)) =
  [EvTransmitReady; EvMeasurementPersistenceRequired 7 (KindSampleChunk 2);
   EvMeasurementHandoffPending 7; EvTransmitReady; EvLifecycleTimedOut 7 1; EvQuarantineEnded;
   EvTransmitReady; EvLifecycleComplete 7 (mkResult 1 ResultOk LifecycleWire.Idle Production SensorOk)].
Proof. vm_compute. reflexivity. Qed.

(** Stopped where the last command is announced. *)
Definition announcing_calls : list AgentCall :=
  [ASubmit (SubmitLifecycle 7 StopRecording Production); ASubmit (SubmitTelemetry 8); APoll 100].

Lemma announcing_calls_typed : Forall call_typed announcing_calls.
Proof. repeat (apply List.Forall_cons; [exact I|]). apply List.Forall_nil. Qed.

Lemma agent_history_safe_witness :
  let '(rs, a') := agent_run announcing_calls sample_agent in
  Forall sound_result rs /\ queued_work_items a' <= 4 /\ NoDup (omap work_operation_id (all_work a')) /\
  exists f x, ag_outbound a' = Some f /\ ag_active a' = Some x /\ transaction_id f = 100 /\
    announces (ag_transactions a') (aw_work x) f.
Proof.
  pose proof (agent_history_safe 100 1 500 (mkChannelPolicy 1000 200 2 4) sample_agent
    announcing_calls ltac:(ilia) ltac:(cbn; lia) eq_refl announcing_calls_typed) as H.
  assert (transaction_id <$> ag_outbound (snd (agent_run announcing_calls sample_agent)) = Some 100) as Hid
    by (vm_compute; reflexivity).
  destruct (agent_run announcing_calls sample_agent) as [rs a']. destruct H as (Hs & Hq & Hn & _ & Hf & _).
  split; [exact Hs|]. split; [exact Hq|]. split; [exact Hn|]. cbn [snd] in Hid.
  destruct (ag_outbound a') as [f|]; [|discriminate Hid]. injection Hid as Hid.
  destruct (Hf f eq_refl) as (x & Hx & Ha). exists f, x. split_and!; assumption || reflexivity.
Defined.

Lemma agent_transfers_in_order_witness :
  let '(rs, a') := agent_run sample_agent_calls sample_agent in
  accepted_transfers sample_agent_calls rs = [sample_transfer] /\
  length (returned_transfers rs) = 1%nat /\ held a' = [] /\
  Forall2 evolves (accepted_transfers sample_agent_calls rs) (returned_transfers rs ++ held a').
Proof.
  pose proof (agent_transfers_in_order 100 1 500 (mkChannelPolicy 1000 200 2 4) sample_agent
    sample_agent_calls ltac:(ilia) ltac:(cbn; lia) eq_refl sample_agent_calls_typed) as H.
  destruct (agent_run sample_agent_calls sample_agent) as [rs a'] eqn:Hrun.
  assert (rs = fst (agent_run sample_agent_calls sample_agent)) as Hrs by (rewrite Hrun; reflexivity).
  assert (a' = snd (agent_run sample_agent_calls sample_agent)) as Ha by (rewrite Hrun; reflexivity).
  split; [rewrite Hrs; vm_compute; reflexivity|].
  split; [rewrite Hrs; vm_compute; reflexivity|].
  split; [rewrite Ha; vm_compute; reflexivity|]. exact H.
Defined.

(** ** A response after the deadline strands the operation *)

(** The response arrives between the deadline (1010) and the next poll: the
    transaction core enters its quarantine inside [receive], so no poll ever
    reports the timeout to the active work. *)
Definition late_response_calls : list AgentCall :=
  ASubmit (SubmitLifecycle 7 StopRecording Production) :: send_at 0 ++
  [AReceive 1500 (sample_reply 6 3 100 (result_wire
     (mkResult 1 ResultOk LifecycleWire.Idle Production SensorOk))); APoll 1600].

(** From then on the agent is idle for ever: the lifecycle operation waits for
    a response that the channel has already discarded, and is never retried. *)
Lemma late_response_strands_operation (times : list MonotonicMicros) :
  let '(rs, a) := agent_run late_response_calls sample_agent in
  reply_events rs = [EvTransmitReady; EvLateResponse; EvQuarantineEnded] /\
  (exists o, aw_work <$> ag_active a = Some (WorkLifecycle o) /\ lo_phase o = AwaitingResponse) /\
  Forall (fun r => r = Ok (ReplyEvent EvIdle)) (fst (agent_run (APoll <$> times) a)).
Proof.
  destruct (agent_run late_response_calls sample_agent) as [rs a] eqn:Hrun.
  vm_compute in Hrun. injection Hrun as <- <-.
  split; [reflexivity|]. split; [eexists; split; reflexivity|].
  induction times as [|t times IH]; [constructor|]. cbn [fmap list_fmap agent_run].
  set (a := mkChannelAgent _ _ _ _ _ _ _) in *.
  assert (agent_call (APoll t) a = (Ok (ReplyEvent EvIdle), a)) as ->.
  { subst a. cbv -[Z.ltb]. by destruct (t <? 0). }
  destruct (agent_run (APoll <$> times) a) as [rs' a']. by constructor.
Qed.
