(* ===== verification/ChannelPort.v ===== *)
(** * The byte port of a channel (crates/sensor-host/src/channel_port.rs)

    A bounded adapter between a byte device and frames: one encoded frame goes
    out per [transmit]; received bytes go through a fixed buffer and the stream
    decoder, one event per [poll_receive]. *)

From stdpp Require Import strings.
From S2P Require Export Core Framing.

Definition READ_BUFFER_BYTES : nat := 256.

(** ** The device *)

(** The [std::io] errors the port tells apart. *)
Inductive IoErrorKind := IoTimedOut | IoWouldBlock | IoOther.

(** The [Read + Write] a port is built on: [read] into a buffer of
    [READ_BUFFER_BYTES] gives the bytes read (none at the end of the stream),
    [write_all] and [flush] succeed or fail. [delivered] are the bytes the device
    has handed out so far, [written] those it has accepted. *)
Class ByteDevice (P : Type) := {
  io_read : P -> outcome IoErrorKind bytes * P;
  io_write_all : bytes -> P -> outcome IoErrorKind unit * P;
  io_flush : P -> outcome IoErrorKind unit * P;
  delivered : P -> bytes;
  written : P -> bytes
}.

(** What [Read] and [Write] document: a read returns at most the buffer, a
    successful [write_all] accepted the whole slice and a failed one a part of it,
    and no call panics. *)
Record lawful_device (P : Type) `{ByteDevice P} : Prop := {
  read_law (p p' : P) r : io_read p = (r, p') ->
    written p' = written p /\
    match r with
    | Ok l => (length l <= READ_BUFFER_BYTES)%nat /\ delivered p' = delivered p ++ l
    | Err _ => delivered p' = delivered p
    | Panic => False
    end;
  write_law (l : bytes) (p p' : P) r : io_write_all l p = (r, p') ->
    delivered p' = delivered p /\
    match r with
    | Ok _ => written p' = written p ++ l
    | Err _ => exists n, written p' = written p ++ firstn n l
    | Panic => False
    end;
  flush_law (p p' : P) r : io_flush p = (r, p') ->
    r <> Panic /\ delivered p' = delivered p /\ written p' = written p
}.
Arguments lawful_device P {_}.

Inductive ReceiveEvent :=
| NoData
| FrameReady
| DecodeError (error : FrameError)
| Disconnected.

(** Of opening a serial port only the configuration's checks are modelled. *)
Inductive ChannelPortError :=
| EmptyDevicePath
| ZeroBaudRate
| ZeroIoTimeout
| PortIo (error : IoErrorKind).

(** [device] is the path's string, [io_timeout] in nanoseconds. *)
Record SerialPortConfig := mkSerialPort {
  device : string;
  baud_rate : Z;
  io_timeout : Z
}.

Definition rs485 (device : string) (baud_rate : Z) : SerialPortConfig :=
  mkSerialPort device baud_rate 10000000.

Definition serial_port_validate (self : SerialPortConfig) : outcome ChannelPortError unit :=
  if String.eqb (device self) EmptyString then Err EmptyDevicePath
  else if baud_rate self =? 0 then Err ZeroBaudRate
  else if io_timeout self =? 0 then Err ZeroIoTimeout
  else Ok tt.

Record ChannelPort (P : Type) := mkPort {
  cp_port : P;
  cp_decoder : StreamDecoder;
  cp_read_buffer : bytes;
  cp_read_cursor : nat;
  cp_read_len : nat;
  cp_received : option Frame;
  cp_write_buffer : bytes
}.
Arguments mkPort {P}.
Arguments cp_port {P}.
Arguments cp_decoder {P}.
Arguments cp_read_buffer {P}.
Arguments cp_read_cursor {P}.
Arguments cp_read_len {P}.
Arguments cp_received {P}.
Arguments cp_write_buffer {P}.

Section Port.
Context {P : Type} `{ByteDevice P}.

Definition from_io (port : P) : ChannelPort P :=
  mkPort port decoder_new (zeros READ_BUFFER_BYTES) 0 0 None (zeros MAX_WIRE_FRAME_BYTES).

Abbreviation port := (st (ChannelPort P) ChannelPortError).

Definition set_port (x : P) (self : ChannelPort P) : ChannelPort P :=
  mkPort x (cp_decoder self) (cp_read_buffer self) (cp_read_cursor self) (cp_read_len self)
    (cp_received self) (cp_write_buffer self).
Definition set_received (x : option Frame) (self : ChannelPort P) : ChannelPort P :=
  mkPort (cp_port self) (cp_decoder self) (cp_read_buffer self) (cp_read_cursor self)
    (cp_read_len self) x (cp_write_buffer self).
Definition set_write_buffer (x : bytes) (self : ChannelPort P) : ChannelPort P :=
  mkPort (cp_port self) (cp_decoder self) (cp_read_buffer self) (cp_read_cursor self)
    (cp_read_len self) (cp_received self) x.
Definition set_read (buffer : bytes) (cursor len : nat) (self : ChannelPort P) : ChannelPort P :=
  mkPort (cp_port self) (cp_decoder self) buffer cursor len (cp_received self) (cp_write_buffer self).
Definition set_decoder (d : StreamDecoder) (cursor : nat) (self : ChannelPort P) : ChannelPort P :=
  mkPort (cp_port self) d (cp_read_buffer self) cursor (cp_read_len self) (cp_received self)
    (cp_write_buffer self).

(** A call on [self.port]. *)
Definition on_port {A : Type} (m : st P IoErrorKind A) : port A := zoom cp_port set_port PortIo m.

(** [Frame::encode] cannot fail; its slices stay in range for a frame of the
    type's invariants. *)
Definition port_transmit (frame : Frame) : port unit :=
  self ← get;
  encoded ← lift match frame_encode frame (cp_write_buffer self) with
                 | Ok encoded => Ok encoded
                 | _ => Panic
                 end;
  let '(wire_len, buffer) := encoded in
  _ ← modify (set_write_buffer buffer);
  wire ← lift (slice 0 wire_len buffer);
  _ ← on_port (io_write_all wire);
  on_port io_flush.

(** [while self.read_cursor < self.read_len]. *)
Fixpoint decode_loop (remaining : nat) : port (option ReceiveEvent) :=
  match remaining with
  | O => mret None
  | Datatypes.S remaining =>
      self ← get;
      match cp_read_buffer self !! cp_read_cursor self with
      | None => lift Panic
      | Some byte =>
          match push byte (cp_decoder self) with
          | (Ok decoded, decoder) =>
              _ ← modify (set_decoder decoder (cp_read_cursor self + 1));
              match decoded with
              | None => decode_loop remaining
              | Some (Ok frame) => _ ← modify (set_received (Some frame)); mret (Some FrameReady)
              | Some (Err error) => mret (Some (DecodeError error))
              | Some Panic => lift Panic
              end
          | _ => lift Panic
          end
      end
  end.

Definition decode_buffered : port (option ReceiveEvent) :=
  self ← get; decode_loop (cp_read_len self - cp_read_cursor self).

(** [Err(error) if matches!(error.kind(), TimedOut | WouldBlock) => NoData]. *)
Definition port_read : port (option bytes) := fun self =>
  let '(r, p) := io_read (cp_port self) in
  (match r with
   | Ok l => Ok (Some l)
   | Err (IoTimedOut | IoWouldBlock) => Ok None
   | Err error => Err (PortIo error)
   | Panic => Panic
   end, set_port p self).

Definition poll_receive : port ReceiveEvent :=
  self ← get;
  if is_some (cp_received self) then mret FrameReady
  else
    buffered ← decode_buffered;
    match buffered with
    | Some event => mret event
    | None =>
        read ← port_read;
        match read with
        | None => mret NoData
        | Some l =>
            if (length l =? 0)%nat then mret Disconnected
            else
              _ ← modify (fun self =>
                set_read (l ++ skipn (length l) (cp_read_buffer self)) 0 (length l) self);
              decoded ← decode_buffered;
              mret match decoded with Some event => event | None => NoData end
        end
    end.

Definition take_received : port (option Frame) :=
  self ← get;
  _ ← modify (set_received None);
  mret (cp_received self).

Definition discard_partial_receive : port unit :=
  modify (fun self =>
    set_decoder (discard_partial (cp_decoder self)) (cp_read_len self) self).
End Port.

(** ** What a port has heard and said *)

(** The calls of the port's owner and their replies. *)
Inductive PortCall :=
| CallTransmit (frame : Frame)
| CallPoll
| CallTake
| CallDiscard.

Inductive PortReply :=
| Sent (frame : Frame) (result : outcome ChannelPortError unit)
| Polled (result : outcome ChannelPortError ReceiveEvent)
| Taken (result : outcome ChannelPortError (option Frame))
| Discarded (result : outcome ChannelPortError unit).

Definition reply_no_panic (reply : PortReply) : Prop :=
  match reply with
  | Sent _ r => no_panic r
  | Polled r => no_panic r
  | Taken r => no_panic r
  | Discarded r => no_panic r
  end.

(** The decoder's events a reply hands over, and the one the port still holds. *)
Definition decoded_events (reply : PortReply) : list (framing Frame) :=
  match reply with
  | Polled (Ok (DecodeError error)) => [Err error]
  | Taken (Ok (Some frame)) => [Ok frame]
  | _ => []
  end.
Definition held_event (received : option Frame) : list (framing Frame) :=
  match received with Some frame => [Ok frame] | None => [] end.

(** A poll that gave no event and no frame. *)
Definition idle_reply (reply : PortReply) : bool :=
  match reply with
  | Polled (Ok (NoData | Disconnected)) | Polled (Err _) => true
  | _ => false
  end.
Definition is_discard (reply : PortReply) : bool :=
  match reply with Discarded _ => true | _ => false end.

(** The bytes on the line: each frame's encoding, whole when the transmission
    succeeded and possibly cut short when it failed. *)
Fixpoint line_output (log : list PortReply) (line : bytes) : Prop :=
  match log with
  | [] => line = []
  | Sent frame r :: log => exists wire n rest,
      transmit frame = Ok wire /\ (r = Ok tt -> n = length wire) /\
      line = firstn n wire ++ rest /\ line_output log rest
  | _ :: log => line_output log line
  end.

(** A stream heard in pieces: what was decoded, then what a discard dropped. *)
Definition pieces_bytes (pieces : list (bytes * bytes)) : bytes :=
  concat (map (fun p => fst p ++ snd p) pieces).
Definition pieces_events (pieces : list (bytes * bytes)) : list (framing Frame) :=
  concat (map (fun p => stream_events [] (fst p)) pieces).

Section History.
Context {P : Type} `{ByteDevice P}.

Definition port_call (call : PortCall) (self : ChannelPort P) : PortReply * ChannelPort P :=
  match call with
  | CallTransmit frame => let '(r, self) := port_transmit frame self in (Sent frame r, self)
  | CallPoll => let '(r, self) := poll_receive self in (Polled r, self)
  | CallTake => let '(r, self) := take_received self in (Taken r, self)
  | CallDiscard => let '(r, self) := discard_partial_receive self in (Discarded r, self)
  end.

Fixpoint port_run (calls : list PortCall) (self : ChannelPort P)
    : list PortReply * ChannelPort P :=
  match calls with
  | [] => ([], self)
  | call :: calls =>
      let '(reply, self) := port_call call self in
      let '(replies, self) := port_run calls self in
      (reply :: replies, self)
  end.

(** The frames of the sensor protocol: made by [Frame::new]. *)
Definition call_frame (call : PortCall) : Prop :=
  match call with
  | CallTransmit frame => exists payload, frame_built frame payload
  | _ => True
  end.

(** The decoder holds the segment [seg]; [unread] waits in the read buffer. *)
Definition port_holds (self : ChannelPort P) (seg unread : bytes) : Prop :=
  decoder_holds (cp_decoder self) seg /\
  length (cp_read_buffer self) = READ_BUFFER_BYTES /\
  length (cp_write_buffer self) = MAX_WIRE_FRAME_BYTES /\
  cp_read_len self = (cp_read_cursor self + length unread)%nat /\
  exists pre post, cp_read_buffer self = pre ++ unread ++ post /\ length pre = cp_read_cursor self.

Lemma port_holds_new (p : P) : port_holds (from_io p) [] [].
Proof.
  split; [apply decoder_holds_new|]. split_and!; [done..|].
  by exists [], (zeros READ_BUFFER_BYTES).
Qed.

Lemma port_holds_unread (self : ChannelPort P) (seg unread : bytes) :
  port_holds self seg unread -> (length unread <= READ_BUFFER_BYTES)%nat.
Proof.
  intros (_ & Hl & _ & _ & pre & post & He & _). rewrite He, !length_app in Hl. lia.
Qed.

(** One byte goes from the buffer to the decoder. *)
Lemma port_holds_byte (self : ChannelPort P) (seg unread seg' : bytes) (b : byte) d :
  port_holds self seg (b :: unread) -> decoder_holds d seg' ->
  port_holds (set_decoder d (cp_read_cursor self + 1) self) seg' unread.
Proof.
  intros (_ & Hr & Hw & Hlen & pre & post & He & Hp) Hd. split; [done|].
  cbn [set_decoder cp_read_buffer cp_write_buffer cp_read_len cp_read_cursor length] in *.
  split_and!; [done..|lia|]. exists (pre ++ [b]), post. rewrite length_app. cbn [length].
  split; [|lia]. by rewrite He, <- app_assoc.
Qed.

(** A fresh read replaces a fully decoded buffer. *)
Lemma port_holds_refill (self : ChannelPort P) (seg l : bytes) :
  port_holds self seg [] -> (length l <= READ_BUFFER_BYTES)%nat ->
  port_holds (set_read (l ++ skipn (length l) (cp_read_buffer self)) 0 (length l) self) seg l.
Proof.
  intros (Hd & Hr & Hw & _) Hl. split; [done|].
  cbn [set_read cp_read_buffer cp_write_buffer cp_read_len cp_read_cursor].
  split_and!; [rewrite length_app, length_drop; lia|done..|]. by exists [], (skipn (length l) (cp_read_buffer self)).
Qed.

Lemma segment_event_no_panic (seg : bytes) : segment_event seg <> Some Panic.
Proof.
  unfold segment_event. pose proof (decode_body_no_panic seg). repeat case_match; congruence.
Qed.

(** What the decode loop does to the port: it decodes [used] and stops at the
    first event, which is the only one of [used]. *)
Definition decoded_prefix (self self' : ChannelPort P) (seg unread : bytes)
    (r : option ReceiveEvent) : Prop :=
  exists used rest, unread = used ++ rest /\ port_holds self' (open_segment seg used) rest /\
    cp_port self' = cp_port self /\
    match r with
    | None => rest = [] /\ cp_received self' = cp_received self /\ stream_events seg used = []
    | Some FrameReady => exists frame, cp_received self' = Some frame /\ stream_events seg used = [Ok frame]
    | Some (DecodeError error) =>
        cp_received self' = cp_received self /\ stream_events seg used = [Err error]
    | Some _ => False
    end.

Lemma decoded_prefix_cons (self self1 self' : ChannelPort P) (seg seg1 unread : bytes) (b : byte) r :
  (forall used, stream_events seg (b :: used) = stream_events seg1 used) ->
  (forall used, open_segment seg (b :: used) = open_segment seg1 used) ->
  cp_port self1 = cp_port self -> cp_received self1 = cp_received self ->
  decoded_prefix self1 self' seg1 unread r -> decoded_prefix self self' seg (b :: unread) r.
Proof.
  intros He Ho Hp Hr (used & rest & -> & Hh & Hp' & Hcase). exists (b :: used), rest.
  rewrite He, Ho, <- Hp, <- Hr. done.
Qed.

Lemma decode_loop_spec (unread seg : bytes) (self : ChannelPort P) :
  port_holds self seg unread ->
  exists r self', decode_loop (length unread) self = (Ok r, self') /\
    decoded_prefix self self' seg unread r.
Proof.
  revert seg self. induction unread as [|b unread IH]; intros seg self Hself.
  - exists None, self. split; [done|]. by exists [], [].
  - cbn [length decode_loop]. rewrite st_bind_get.
    assert (Hb : cp_read_buffer self !! cp_read_cursor self = Some b).
    { destruct Hself as (_ & _ & _ & _ & pre & post & -> & <-). cbn [app]. apply list_lookup_middle. done. }
    rewrite Hb. destruct (Z.eqb_spec (b2z b) 0) as [H0|Hv].
    + destruct (push_delimiter b (cp_decoder self) seg H0 (proj1 Hself)) as (d & -> & Hd).
      pose proof (port_holds_byte self seg unread [] b d Hself Hd) as Hself1.
      pose proof (segment_event_no_panic seg) as Hp. rewrite st_bind_modify.
      assert (Hone : stream_events seg [b] = match segment_event seg with Some e => [e] | None => [] end).
      { cbn [stream_events]. rewrite H0. cbn [Z.eqb]. apply app_nil_r. }
      assert (Hopen : open_segment seg [b] = []) by (cbn [open_segment]; by rewrite H0).
      destruct (segment_event seg) as [[frame|error|]|] eqn:Hseg; [| |done|].
      * do 2 eexists. split; [done|]. exists [b], unread. rewrite Hone, Hopen.
        split_and!; [done..|eauto].
      * do 2 eexists. split; [done|]. exists [b], unread. by rewrite Hone, Hopen.
      * destruct (IH [] _ Hself1) as (r & self' & Hrun & Hspec). exists r, self'. split; [done|].
        eapply decoded_prefix_cons; [..|done]; [intros; cbn [stream_events open_segment]; rewrite H0..|done|done];
          cbn [Z.eqb]; by rewrite ?Hseg.
    + destruct (push_visible b (cp_decoder self) seg Hv (proj1 Hself)) as (d & -> & Hd).
      pose proof (port_holds_byte self seg unread _ b d Hself Hd) as Hself1. rewrite st_bind_modify.
      destruct (IH _ _ Hself1) as (r & self' & Hrun & Hspec). exists r, self'. split; [done|].
      eapply decoded_prefix_cons; [..|done]; [intros; cbn [stream_events open_segment]..|done|done];
        by rewrite (proj2 (Z.eqb_neq _ _) Hv).
Qed.

Lemma decode_buffered_spec (unread seg : bytes) (self : ChannelPort P) :
  port_holds self seg unread ->
  exists r self', decode_buffered self = (Ok r, self') /\ decoded_prefix self self' seg unread r.
Proof.
  intros Hself. unfold decode_buffered. rewrite st_bind_get.
  replace (cp_read_len self - cp_read_cursor self)%nat with (length unread).
  - by apply decode_loop_spec.
  - destruct Hself as (_ & _ & _ & -> & _). lia.
Qed.

(** The account of what a port heard: everything the device delivered was
    decoded, dropped by a discard or still waits, and the events handed over are
    those of the decoded pieces. *)
Definition port_heard (p0 : P) (events : list (framing Frame)) (self : ChannelPort P)
    (pieces : list (bytes * bytes)) (last unread : bytes) : Prop :=
  delivered (cp_port self) = delivered p0 ++ pieces_bytes pieces ++ last ++ unread /\
  port_holds self (open_segment [] last) unread /\
  events ++ held_event (cp_received self) = pieces_events pieces ++ stream_events [] last.

(** What it said: a sequence of frames. *)
Definition port_said (p0 : P) (log : list PortReply) (self : ChannelPort P) : Prop :=
  exists line, written (cp_port self) = written p0 ++ line /\ line_output log line.

Definition poll_event (r : option ReceiveEvent) : ReceiveEvent :=
  match r with Some event => event | None => NoData end.

(** Decoding moves bytes from the unread ones to those heard. *)
Lemma port_heard_decode (p0 : P) events (self self' : ChannelPort P) pieces last unread r :
  port_heard p0 events self pieces last unread -> cp_received self = None ->
  decoded_prefix self self' (open_segment [] last) unread r ->
  exists last' unread',
    port_heard p0 (events ++ decoded_events (Polled (Ok (poll_event r)))) self' pieces last' unread' /\
    (r = None -> unread' = [] /\ cp_received self' = None) /\ cp_port self' = cp_port self.
Proof.
  intros (Hd & Hself & He) Hnone (used & rest & -> & Hself' & Hp & Hr).
  rewrite Hnone in *. cbn [held_event] in He. rewrite app_nil_r in He.
  exists (last ++ used), rest. unfold port_heard.
  rewrite Hp, Hd, <- !app_assoc, He, stream_events_app, open_segment_app.
  destruct r as [[]|]; cbn [poll_event decoded_events app] in *; try done.
  - destruct Hr as (frame & -> & ->). split; [|done]. cbn [held_event app]. by rewrite <- app_assoc.
  - destruct Hr as [-> ->]. split; [|done]. cbn [held_event app]. by rewrite <- app_assoc.
  - destruct Hr as (-> & Hrec & ->). split; [|by rewrite Hrec]. rewrite Hrec.
    cbn [held_event app]. by rewrite ?app_nil_r.
Qed.

(** One poll, whatever the device answers. *)
Lemma poll_receive_heard (law : lawful_device P) (p0 : P) events (self : ChannelPort P) pieces last unread :
  port_heard p0 events self pieces last unread ->
  exists r self' last' unread', poll_receive self = (r, self') /\ no_panic r /\
    port_heard p0 (events ++ decoded_events (Polled r)) self' pieces last' unread' /\
    (idle_reply (Polled r) = true -> unread' = []) /\
    written (cp_port self') = written (cp_port self).
Proof.
  intros Hh. unfold poll_receive. rewrite st_bind_get.
  destruct (cp_received self) as [frame|] eqn:Hrec; cbn [is_some].
  { exists (Ok FrameReady), self, last, unread. cbn [decoded_events]. rewrite app_nil_r. done. }
  destruct (decode_buffered_spec _ _ _ (proj1 (proj2 Hh))) as (r & self1 & Hrun & Hspec).
  destruct (port_heard_decode p0 events self self1 _ _ _ r Hh Hrec Hspec)
    as (last1 & unread1 & Hh1 & Hnone & Hp1).
  cbv [mbind st_bind]. rewrite Hrun. destruct r as [event|].
  { exists (Ok event), self1, last1, unread1. rewrite Hp1. split_and!; [done..| |done].
    destruct event; try done; by destruct Hspec as (? & ? & _ & _ & _ & []). }
  destruct (Hnone eq_refl) as [-> Hrec1]. cbn [poll_event decoded_events] in Hh1.
  rewrite app_nil_r in Hh1. unfold port_read.
  destruct (io_read (cp_port self1)) as [r p] eqn:Hread.
  destruct (read_law _ law _ _ _ Hread) as [Hw Hd]. rewrite Hp1 in Hw.
  assert (Hquiet : delivered p = delivered (cp_port self1) ->
            port_heard p0 (events ++ []) (set_port p self1) pieces last1 []).
  { rewrite app_nil_r. destruct Hh1 as (Hd1 & Hs1 & He1). intros Hd'. by rewrite <- Hd' in Hd1. }
  destruct r as [l|[]|]; [|..|done].
  2-4: do 4 eexists; split; [done|split_and!; [done|exact (Hquiet Hd)|done|done]].
  destruct Hd as [Hl Hd]. cbv beta iota. destruct (Nat.eqb_spec (length l) 0) as [H0|Hne].
  { apply nil_length_inv in H0 as ->. rewrite app_nil_r in Hd.
    do 4 eexists. split; [done|]. split_and!; [done|exact (Hquiet Hd)|done|done]. }
  set (self2 := set_read (l ++ skipn (length l) (cp_read_buffer (set_port p self1))) 0 (length l)
                  (set_port p self1)).
  assert (Hh2 : port_heard p0 events self2 pieces last1 l).
  { destruct Hh1 as (Hd1 & Hs1 & He1). unfold port_heard. split_and!; [|by apply port_holds_refill|done].
    cbn [self2 set_read set_port cp_port]. rewrite Hd, Hd1, <- !app_assoc. by rewrite app_nil_l. }
  destruct (decode_buffered_spec _ _ _ (proj1 (proj2 Hh2))) as (r & self3 & Hrun3 & Hspec3).
  destruct (port_heard_decode p0 events self2 self3 _ _ _ r Hh2 Hrec1 Hspec3)
    as (last3 & unread3 & Hh3 & Hnone3 & Hp3).
  cbv [modify]. fold self2. rewrite Hrun3. exists (Ok (poll_event r)), self3, last3, unread3.
  rewrite Hp3. split_and!; [by destruct r|done|done| |done].
  destruct r as [[]|]; try done; [by destruct Hspec3 as (? & ? & _ & _ & _ & [])| |by intros _; apply Hnone3].
  by destruct Hspec3 as (? & ? & _ & _ & _ & []).
Qed.

Lemma port_heard_call (p0 : P) events (self self' : ChannelPort P) pieces last unread :
  port_heard p0 events self pieces last unread ->
  delivered (cp_port self') = delivered (cp_port self) ->
  port_holds self' (open_segment [] last) unread -> cp_received self' = cp_received self ->
  port_heard p0 events self' pieces last unread.
Proof. intros (Hd & Hs & He) Hd' Hs' Hr. unfold port_heard. by rewrite Hd', Hr. Qed.

(** One transmission: the frame's encoding and nothing else reaches the device. *)
Lemma port_transmit_spec (law : lawful_device P) (self : ChannelPort P) frame payload seg unread :
  frame_built frame payload -> port_holds self seg unread ->
  exists r self', port_transmit frame self = (r, self') /\ no_panic r /\
    port_holds self' seg unread /\ cp_received self' = cp_received self /\
    delivered (cp_port self') = delivered (cp_port self) /\
    exists line, written (cp_port self') = written (cp_port self) ++ line /\
      line_output [Sent frame r] line.
Proof.
  intros Hwf (Hdec & Hr & Hw & Hlen & Hbuf). unfold port_transmit. rewrite st_bind_get.
  rewrite (frame_encode_spec _ _ _ Hwf Hw). rewrite st_bind_lift_Ok, st_bind_modify.
  rewrite slice_front by (rewrite length_app; done). rewrite st_bind_lift_Ok.
  pose proof (transmit_spec _ _ Hwf) as Hwire.
  set (wire := frame_wire frame payload ++ [z2b 0]) in *.
  set (buffer := wire ++ skipn (length (frame_wire frame payload) + 1) (cp_write_buffer self)).
  assert (Hb : length buffer = MAX_WIRE_FRAME_BYTES).
  { subst buffer wire. rewrite !length_app, length_drop, Hw. cbn [length].
    pose proof (frame_wire_length _ _ Hwf). change MAX_WIRE_FRAME_BYTES with 530%nat. lia. }
  assert (Hkeep : forall p, port_holds (set_port p (set_write_buffer buffer self)) seg unread) by done.
  cbv [mbind st_bind on_port zoom]. cbn [cp_port set_write_buffer].
  destruct (io_write_all wire (cp_port self)) as [rw p] eqn:Hwrite.
  destruct (write_law _ law _ _ _ _ Hwrite) as [Hdw Hww].
  destruct rw as [u|error|]; [|destruct Hww as [n Hww]|done]; cbn [map_err].
  - cbn [set_port cp_port]. destruct (io_flush p) as [rf p'] eqn:Hflush.
    destruct (flush_law _ law _ _ _ Hflush) as (Hnp & Hdf & Hwf').
    do 2 eexists. split; [done|]. split; [by destruct rf|]. split; [apply Hkeep|].
    split; [done|]. cbn [set_port cp_port]. split; [congruence|].
    exists wire. split; [congruence|]. exists wire, (length wire), [].
    by rewrite firstn_all, app_nil_r.
  - do 2 eexists. split; [done|]. split; [done|]. split; [apply Hkeep|]. split; [done|].
    cbn [set_port cp_port]. split; [done|]. exists (firstn n wire). split; [done|].
    exists wire, n, []. by rewrite app_nil_r.
Qed.

(** The account of a whole history, [log] being its replies so far. *)
Definition port_inv (p0 : P) (log : list PortReply) (self : ChannelPort P) : Prop :=
  port_said p0 log self /\ Forall reply_no_panic log /\
  exists pieces heard unread,
    port_heard p0 (concat (map decoded_events log)) self pieces heard unread /\
    length pieces = length (List.filter is_discard log) /\
    (forall reply, list.last log = Some reply ->
       idle_reply reply = true -> unread = []).

Lemma line_output_snoc (log : list PortReply) (reply : PortReply) (line new : bytes) :
  line_output log line -> line_output [reply] new -> line_output (log ++ [reply]) (line ++ new).
Proof.
  intros Hlog Hnew. revert line Hlog. induction log as [|x log IH]; intros line Hlog.
  - cbn [line_output] in Hlog. by subst.
  - destruct x as [frame r| | |]; try by apply IH.
    destruct Hlog as (wire & n & rest & Hw & Hn & -> & Hlog). exists wire, n, (rest ++ new).
    rewrite <- app_assoc. split_and!; [done..|]. by apply IH.
Qed.

Lemma port_said_call (p0 : P) (log : list PortReply) (self self' : ChannelPort P) reply line :
  port_said p0 log self -> written (cp_port self') = written (cp_port self) ++ line ->
  line_output [reply] line -> port_said p0 (log ++ [reply]) self'.
Proof.
  intros (l & Hw & Hl) Hw' Hr. exists (l ++ line). rewrite Hw', Hw, app_assoc. split; [done|].
  by apply line_output_snoc.
Qed.

Lemma port_inv_call (law : lawful_device P) (p0 : P) log (self : ChannelPort P) (call : PortCall) :
  call_frame call -> port_inv p0 log self ->
  exists reply self', port_call call self = (reply, self') /\ port_inv p0 (log ++ [reply]) self'.
Proof.
  intros Hcall (Hsaid & Hnp & pieces & last & unread & Hheard & Hn & Hidle).
  assert (Hfit : forall reply self' pieces' last' unread',
    reply_no_panic reply ->
    port_said p0 (log ++ [reply]) self' ->
    port_heard p0 (concat (map decoded_events log) ++ decoded_events reply) self' pieces' last' unread' ->
    length pieces' = (length (List.filter is_discard log) + Nat.b2n (is_discard reply))%nat ->
    (idle_reply reply = true -> unread' = []) ->
    port_inv p0 (log ++ [reply]) self').
  { intros reply self' pieces' last' unread' Hp Hs Hh Hl Hi. split; [done|]. split.
    { apply Forall_app; split; [done|]. by repeat constructor. }
    exists pieces', last', unread'. rewrite map_app, concat_app, List.filter_app, length_app.
    cbn [map concat]. rewrite app_nil_r. split; [done|]. split.
    { rewrite Hl. cbn [List.filter]. by destruct (is_discard reply). }
    intros reply'. rewrite last_snoc. by intros [= <-]. }
  destruct call as [frame| | |]; cbn [port_call].
  - destruct Hcall as [payload Hwf].
    destruct (port_transmit_spec law self frame payload _ unread Hwf (proj1 (proj2 Hheard)))
      as (r & self' & -> & Hr & Hs' & Hrec & Hd & line & Hw & Hline).
    do 2 eexists. split; [done|]. apply (Hfit _ _ pieces last unread); [done|..|cbn; lia|done].
    + by eapply port_said_call.
    + cbn [decoded_events]. rewrite app_nil_r. by eapply port_heard_call.
  - destruct (poll_receive_heard law p0 _ self _ _ _ Hheard)
      as (r & self' & last' & unread' & -> & Hr & Hh & Hi & Hw).
    do 2 eexists. split; [done|]. apply (Hfit _ _ pieces last' unread'); [done|..|cbn; lia|done]; [|done].
    eapply port_said_call; [done|by rewrite app_nil_r|done].
  - cbn. do 2 eexists. split; [done|].
    apply (Hfit _ _ pieces last unread); [done|..|cbn; lia|done].
    + eapply port_said_call; [done|by rewrite app_nil_r|done].
    + destruct Hheard as (Hd & Hs & He). unfold port_heard. split_and!; [done..|]. rewrite <- He.
      cbn [set_received cp_received held_event]. by destruct (cp_received self); rewrite app_nil_r.
  - cbn. do 2 eexists. split; [done|].
    apply (Hfit _ _ (pieces ++ [(last, unread)]) [] []); [done|..|by rewrite length_app; cbn; lia|done].
    + eapply port_said_call; [done|by rewrite app_nil_r|done].
    + destruct Hheard as (Hd & (Hdec & Hr & Hw & Hlen & pre & post & Hb & Hpre) & He).
      unfold port_heard. cbn [decoded_events set_decoder cp_port cp_received stream_events open_segment].
      rewrite !app_nil_r, He. unfold pieces_bytes, pieces_events.
      rewrite !map_app, !concat_app. cbn [map concat fst snd]. rewrite !app_nil_r.
      split_and!; [done| |done]. split; [by eapply discard_partial_holds|].
      cbn [set_decoder cp_read_buffer cp_write_buffer cp_read_len cp_read_cursor length].
      split_and!; [done..|]. exists (pre ++ unread), post. rewrite length_app. split; [|lia].
      by rewrite Hb, <- app_assoc.
Qed.

Lemma port_inv_new (p0 : P) : port_inv p0 [] (from_io p0).
Proof.
  split; [exists []; by rewrite app_nil_r|]. split; [done|]. exists [], [], [].
  unfold port_heard. cbn. rewrite app_nil_r. split_and!; [done|apply port_holds_new|done..].
Qed.

Lemma port_run_inv (law : lawful_device P) (p0 : P) calls log (self : ChannelPort P) :
  Forall call_frame calls -> port_inv p0 log self ->
  exists replies self', port_run calls self = (replies, self') /\ port_inv p0 (log ++ replies) self' /\
    length replies = length calls.
Proof.
  intros Hcalls. revert log self. induction Hcalls as [|call calls Hcall _ IH]; intros log self Hinv.
  - exists [], self. by rewrite app_nil_r.
  - destruct (port_inv_call law p0 log self call Hcall Hinv) as (reply & self1 & He & Hinv1).
    destruct (IH _ _ Hinv1) as (replies & self' & Hrun & Hinv' & Hl). cbn [port_run].
    rewrite He, Hrun. exists (reply :: replies), self'. rewrite <- app_assoc in Hinv'.
    cbn [length]. by rewrite Hl.
Qed.
End History.

(** C17. A channel port loses no byte and invents no frame: over any lawful device
    and any sequence of polls, takes, discards and transmissions of frames
    built by [Frame::new], no call panics; the bytes the device delivered are exactly those
    decoded, those a discard dropped (one piece per discard) and at most 256 still
    in the read buffer, none of which remain after a poll that reported no data, a
    disconnection or an error; the frames taken and the decoding errors reported
    are, in order, exactly the events of the decoded bytes, bar the frame the
    port still holds; and the line received each frame's encoding, whole unless
    that transmission failed. *)
Theorem port_decodes_stream {P : Type} `{ByteDevice P} (law : lawful_device P) (p0 : P)
    (calls : list PortCall) replies self :
  Forall call_frame calls -> port_run calls (from_io p0) = (replies, self) ->
  length replies = length calls /\ Forall reply_no_panic replies /\
  (exists line, written (cp_port self) = written p0 ++ line /\ line_output replies line) /\
  exists pieces heard unread,
    delivered (cp_port self) = delivered p0 ++ pieces_bytes pieces ++ heard ++ unread /\
    concat (map decoded_events replies) ++ held_event (cp_received self) =
      pieces_events pieces ++ stream_events [] heard /\
    length pieces = length (List.filter is_discard replies) /\
    (length unread <= READ_BUFFER_BYTES)%nat /\
    (forall reply, list.last replies = Some reply -> idle_reply reply = true -> unread = []).
Proof.
  intros Hcalls Hrun.
  destruct (port_run_inv law p0 calls [] _ Hcalls (port_inv_new p0)) as (replies' & self' & Hrun' & Hinv & Hl).
  rewrite Hrun in Hrun'. injection Hrun' as <- <-. cbn [app] in Hinv.
  destruct Hinv as (Hsaid & Hnp & pieces & heard & unread & (Hd & Hs & He) & Hn & Hidle).
  split_and!; [done..|]. exists pieces, heard, unread. split_and!; [done..| |done].
  by eapply port_holds_unread.
Qed.

(** A device that plays a script: [None] is a read that times out. *)
Record Script := mkScript {
  incoming : list (option bytes);
  played : bytes;
  recorded : bytes
}.

#[export] Instance script_device : ByteDevice Script := {
  io_read s :=
    match incoming s with
    | [] => (Ok [], s)
    | None :: rest => (Err IoTimedOut, mkScript rest (played s) (recorded s))
    | Some l :: rest =>
        let l := firstn READ_BUFFER_BYTES l in
        (Ok l, mkScript rest (played s ++ l) (recorded s))
    end;
  io_write_all l s := (Ok tt, mkScript (incoming s) (played s) (recorded s ++ l));
  io_flush s := (Ok tt, s);
  delivered := played;
  written := recorded
}.

Lemma script_lawful : lawful_device Script.
Proof.
  split.
  - intros [[|[l|] rest] d w] p' r [= <- <-]; split; try done.
    + split; [by apply Nat.leb_le|cbn; by rewrite app_nil_r].
    + split; [|done]. change (length (firstn READ_BUFFER_BYTES l) <= READ_BUFFER_BYTES)%nat.
      rewrite length_take. lia.
  - by intros l p p' r [= <- <-].
  - by intros p p' r [= <- <-].
Qed.

Definition noise : bytes := literal [7; 0].

Lemma port_decodes_stream_witness :
  exists self replies,
    port_run [CallTransmit mixed_frame; CallPoll; CallPoll; CallPoll; CallTake; CallPoll]
      (from_io (mkScript [Some (noise ++ firstn 4 mixed_wire); Some (skipn 4 mixed_wire); None] [] []))
      = (replies, self) /\
    replies = [Sent mixed_frame (Ok tt); Polled (Ok (DecodeError MalformedCobs)); Polled (Ok FrameReady);
               Polled (Ok FrameReady); Taken (Ok (Some mixed_frame)); Polled (Ok NoData)] /\
    Forall reply_no_panic replies /\ recorded (cp_port self) = mixed_wire.
Proof.
  eexists _, _. split; [by vm_compute|]. split; [done|]. split; [|done].
  eapply (port_decodes_stream script_lawful
    (mkScript [Some (noise ++ firstn 4 mixed_wire); Some (skipn 4 mixed_wire); None] [] [])
    [CallTransmit mixed_frame; CallPoll; CallPoll; CallPoll; CallTake; CallPoll]); [|by vm_compute].
  repeat constructor. exists mixed_payload. exact (frame_wf_built _ _ mixed_frame_wf).
Defined.
