(* ===== verification/ChannelEndpoint.v ===== *)
(** * The endpoint of a channel (crates/sensor-host/src/channel_endpoint.rs)

    The composition of a channel's agent, byte port and clock: one [step] does at
    most one observable action. Over any history of steps and of its owner's
    calls on the agent, the endpoint is a history of the agent and a history of
    the port, with the frames of one handed to the other. *)

From S2P Require Export AgentHistory ChannelPort.

(** [MonotonicClock::now]; a reading may advance the clock. *)
Class MonotonicClock (C : Type) := clock_now : C -> MonotonicMicros * C.

Inductive ChannelEndpointEvent :=
| EndpointIdle
| TransmissionComplete (node_address : Z)
| AgentEvent (event : ChannelEvent)
| EndpointDecodeError (error : FrameError)
| EndpointDisconnected.

Inductive ChannelEndpointError :=
| EndpointInvariantViolation
| EndpointAgent (error : ChannelAgentError)
| EndpointPort (error : ChannelPortError).

Record ChannelEndpoint (P C : Type) := mkEndpoint {
  ep_agent : ChannelAgent;
  ep_port : ChannelPort P;
  ep_clock : C
}.
Arguments mkEndpoint {P C}.
Arguments ep_agent {P C}.
Arguments ep_port {P C}.
Arguments ep_clock {P C}.

Section Endpoint.
Context {P C : Type} `{ByteDevice P} `{MonotonicClock C}.

Abbreviation endpoint := (st (ChannelEndpoint P C) ChannelEndpointError).

Definition set_ep_agent (x : ChannelAgent) (self : ChannelEndpoint P C) : ChannelEndpoint P C :=
  mkEndpoint x (ep_port self) (ep_clock self).
Definition set_ep_port (x : ChannelPort P) (self : ChannelEndpoint P C) : ChannelEndpoint P C :=
  mkEndpoint (ep_agent self) x (ep_clock self).

(** [self.clock.now()], and calls on [self.agent] and [self.port]. *)
Definition endpoint_now : endpoint MonotonicMicros := fun self =>
  let '(t, clock) := clock_now (ep_clock self) in
  (Ok t, mkEndpoint (ep_agent self) (ep_port self) clock).
Definition on_agent {A : Type} (m : st ChannelAgent ChannelAgentError A) : endpoint A :=
  zoom ep_agent set_ep_agent EndpointAgent m.
Definition on_channel_port {A : Type} (m : st (ChannelPort P) ChannelPortError A) : endpoint A :=
  zoom ep_port set_ep_port EndpointPort m.

(** [if let Err(error) = self.port.transmit(&frame)]: the error as a value. *)
Definition try_transmit (frame : Frame) : endpoint (option ChannelPortError) := fun self =>
  let '(r, port) := port_transmit frame (ep_port self) in
  (match r with
   | Ok _ => Ok None
   | Err error => Ok (Some error)
   | Panic => Panic
   end, set_ep_port port self).

(** [agent_event == TransmitReady]. *)
Definition endpoint_send : endpoint ChannelEndpointEvent :=
  outbound ← on_agent take_outbound;
  frame ← lift (ok_or outbound EndpointInvariantViolation);
  sent ← try_transmit frame;
  now ← endpoint_now;
  match sent with
  | Some error =>
      _ ← on_agent (transmit_failed now);
      throw (EndpointPort error)
  | None =>
      _ ← on_agent (transmit_completed now);
      mret (TransmissionComplete (destination frame))
  end.

Definition endpoint_listen : endpoint ChannelEndpointEvent :=
  event ← on_channel_port poll_receive;
  match event with
  | NoData => mret EndpointIdle
  | FrameReady =>
      received ← on_channel_port take_received;
      frame ← lift (ok_or received EndpointInvariantViolation);
      now ← endpoint_now;
      event ← on_agent (agent_receive now frame);
      mret (AgentEvent event)
  | DecodeError error => mret (EndpointDecodeError error)
  | Disconnected => mret EndpointDisconnected
  end.

Definition endpoint_step : endpoint ChannelEndpointEvent :=
  now ← endpoint_now;
  agent_event ← on_agent (poll now);
  match agent_event with
  | EvTransmitReady => endpoint_send
  | EvIdle => endpoint_listen
  | _ => mret (AgentEvent agent_event)
  end.

(** ** Histories *)

(** A step, or a call of the owner through [agent_mut]. *)
Inductive EndpointCall :=
| EndpointStep
| OwnerCall (c : AgentCall).

Inductive EndpointReply :=
| StepReply (r : outcome ChannelEndpointError ChannelEndpointEvent)
| OwnerReply (r : outcome ChannelAgentError AgentReply).

Definition endpoint_call (c : EndpointCall) (self : ChannelEndpoint P C) :
    EndpointReply * ChannelEndpoint P C :=
  match c with
  | EndpointStep => let '(r, self) := endpoint_step self in (StepReply r, self)
  | OwnerCall c =>
      let '(r, a) := agent_call c (ep_agent self) in (OwnerReply r, set_ep_agent a self)
  end.

Fixpoint endpoint_run (cs : list EndpointCall) (self : ChannelEndpoint P C) :
    list EndpointReply * ChannelEndpoint P C :=
  match cs with
  | [] => ([], self)
  | c :: cs =>
      let '(r, self) := endpoint_call c self in
      let '(rs, self) := endpoint_run cs self in
      (r :: rs, self)
  end.
End Endpoint.

(** The owner submits, collects and abandons work; sending and receiving belong
    to the steps. *)
Definition owner_typed (c : EndpointCall) : Prop :=
  match c with
  | EndpointStep => True
  | OwnerCall c =>
      match c with
      | ASubmit _ | ASubmitMeasurement _ | ATakeMeasurement | AAbandon _ => call_typed c
      | _ => False
      end
  end.

(** Neither a panic nor a violated invariant, of the endpoint or of its agent. *)
Definition sound_reply (r : EndpointReply) : Prop :=
  match r with
  | StepReply (Ok _) | StepReply (Err (EndpointPort _)) => True
  | StepReply (Err (EndpointAgent e)) => e <> InvariantViolation
  | StepReply (Err EndpointInvariantViolation) | StepReply Panic => False
  | OwnerReply r => sound_result r
  end.

(** The frames an agent handed out and was given, and those a port was told to
    send and gave back. *)
Definition handed_out (ars : list (outcome ChannelAgentError AgentReply)) : list Frame :=
  omap (fun r => match r with Ok (ReplyFrame f) => f | _ => None end) ars.
Definition given (acs : list AgentCall) : list Frame :=
  omap (fun c => match c with AReceive _ f => Some f | _ => None end) acs.
Definition told_to_send (prs : list PortReply) : list Frame :=
  omap (fun r => match r with Sent f _ => Some f | _ => None end) prs.
Definition given_back (prs : list PortReply) : list Frame :=
  omap (fun r => match r with Taken (Ok f) => f | _ => None end) prs.

(** ** What a poll announces *)

(** Every successful result of [m] satisfies [Q]. *)
Definition yields {A : Type} (m : agent A) (Q : A -> ChannelAgent -> Prop) : Prop :=
  forall a x a', m a = (Ok x, a') -> Q x a'.

Lemma yields_bind {A B : Type} (m : agent A) (k : A -> agent B) Q :
  (forall x, yields (k x) Q) -> yields (m ≫= k) Q.
Proof.
  intros Hk a y a' H. cbv [mbind st_bind] in H. destruct (m a) as [[x|e|] a1]; [|discriminate H..].
  by eapply Hk.
Qed.

Lemma yields_bind_state {A B : Type} (m : agent A) (k : A -> agent B) Q R :
  yields m R -> (forall x a y a', R x a -> k x a = (Ok y, a') -> Q y a') -> yields (m ≫= k) Q.
Proof.
  intros Hm Hk a y a' H. cbv [mbind st_bind] in H. destruct (m a) as [[x|e|] a1] eqn:Hma; [|discriminate H..].
  eapply Hk; [by eapply Hm|done].
Qed.

Lemma yields_ret {A : Type} (x : A) (Q : A -> ChannelAgent -> Prop) :
  (forall a, Q x a) -> yields (mret x) Q.
Proof. intros HQ a y a' H. rewrite st_ret_eq in H. by injection H as <- <-. Qed.

(** An event other than [TransmitReady], or a frame is announced. *)
Definition ready_announced (event : ChannelEvent) (a : ChannelAgent) : Prop :=
  event = EvTransmitReady -> is_some (ag_outbound a) = true.

Lemma yields_other (event : ChannelEvent) :
  event <> EvTransmitReady -> yields (mret event) ready_announced.
Proof. intros Hne. apply yields_ret. by intros a ?. Qed.

Lemma yields_marked (w : PendingWork) :
  yields (mark_work_timed_out w) (fun marked _ =>
    match marked with inl event | inr event => event <> EvTransmitReady end).
Proof.
  destruct w; cbn [mark_work_timed_out]; repeat (apply yields_bind; intros ?);
    try (by apply yields_ret).
  destruct (mo_request _); [apply yields_bind; intros _|]; by apply yields_ret.
Qed.

Lemma yields_poll_timed_out (now : MonotonicMicros) : yields (poll_timed_out now) ready_announced.
Proof.
  unfold poll_timed_out. apply yields_bind. intros x. eapply yields_bind_state; [apply yields_marked|].
  intros [event|event] a y a' Hne H; [by eapply (yields_other event)|].
  revert a y a' H. change (yields
    (self ← get; _ ← delay_retry now;
     if attempts_exhausted self x then
       node ← handoff_active_measurement; mret (EvMeasurementAttemptsExhausted node)
     else if is_one_shot (aw_work x) then _ ← modify (set_active None); mret event
     else mret event) ready_announced).
  apply yields_bind. intros self. apply yields_bind. intros _.
  destruct (attempts_exhausted self x); [apply yields_bind; intros node; by apply yields_other|].
  destruct (is_one_shot _); [apply yields_bind; intros _|]; by apply yields_other.
Qed.

Lemma poll_announces (now : MonotonicMicros) : yields (poll now) ready_announced.
Proof.
  intros a event a' H. unfold poll in H. rewrite st_bind_get in H.
  destruct (is_some (ag_outbound a)) eqn:Ho.
  { rewrite st_ret_eq in H. injection H as <- <-. by intros _. }
  destruct (completed_measurement_node a) as [node|]; [by eapply (yields_other (EvMeasurementHandoffPending node))|].
  revert event a' H. generalize a. change (forall a : ChannelAgent, _) with (yields
    (timer ← on_transactions (on_timer now);
     match timer with
     | TimerNone => poll_send now
     | TimedOut _ _ _ => poll_timed_out now
     | QuarantineEnded => mret EvQuarantineEnded
     end) ready_announced).
  apply yields_bind. intros [| |]; [|apply yields_poll_timed_out|by apply yields_other].
  unfold poll_send. apply yields_bind. intros u. apply yields_bind. intros self.
  destruct (ag_active self) as [x|]; [|by apply yields_other].
  destruct (_ || _)%bool; [by apply yields_other|]. apply yields_bind. intros [frame|]; [|by apply yields_other].
  intros a1 event a2 H. rewrite st_bind_modify, st_ret_eq in H. injection H as <- <-. by intros _.
Qed.

(** ** The endpoint drives its agent and its port *)

Definition owner_kind (c : AgentCall) : bool :=
  match c with
  | ASubmit _ | ASubmitMeasurement _ | ATakeMeasurement | AAbandon _ => true
  | _ => false
  end.

(** The owner's calls with their replies, as the agent and as the endpoint saw them. *)
Abbreviation AgentLog := (list (AgentCall * outcome ChannelAgentError AgentReply)).

Definition owner_log (acs : list AgentCall) (ars : list (outcome ChannelAgentError AgentReply)) : AgentLog :=
  List.filter (fun cr => owner_kind (fst cr)) (zip acs ars).
Definition endpoint_owner_log (cs : list EndpointCall) (rs : list EndpointReply) : AgentLog :=
  omap (fun cr => match cr with (OwnerCall c, OwnerReply r) => Some (c, r) | _ => None end) (zip cs rs).

Lemma agent_run_app (cs1 cs2 : list AgentCall) (a : ChannelAgent) :
  agent_run (cs1 ++ cs2) a =
    let '(rs1, a1) := agent_run cs1 a in
    let '(rs2, a2) := agent_run cs2 a1 in (rs1 ++ rs2, a2).
Proof.
  revert a. induction cs1 as [|c cs1 IH]; intros a; cbn [app agent_run].
  - by destruct (agent_run cs2 a).
  - destruct (agent_call c a) as [r a1]. rewrite IH.
    destruct (agent_run cs1 a1) as [rs1 a2]. by destruct (agent_run cs2 a2).
Qed.

Lemma length_agent_run (cs : list AgentCall) (a : ChannelAgent) :
  length (fst (agent_run cs a)) = length cs.
Proof.
  revert a. induction cs as [|c cs IH]; intros a; cbn [agent_run]; [done|].
  destruct (agent_call c a) as [r a1]. specialize (IH a1). destruct (agent_run cs a1). cbn in *. by rewrite IH.
Qed.

Lemma port_run_app {P : Type} `{ByteDevice P} (cs1 cs2 : list PortCall) (p : ChannelPort P) :
  port_run (cs1 ++ cs2) p =
    let '(rs1, p1) := port_run cs1 p in
    let '(rs2, p2) := port_run cs2 p1 in (rs1 ++ rs2, p2).
Proof.
  revert p. induction cs1 as [|c cs1 IH]; intros p; cbn [app port_run].
  - by destruct (port_run cs2 p).
  - destruct (port_call c p) as [r p1]. rewrite IH.
    destruct (port_run cs1 p1) as [rs1 p2]. by destruct (port_run cs2 p2).
Qed.

Section Driven.
Context {P C : Type} `{ByteDevice P} `{MonotonicClock C}.
Context (law : lawful_device P) (p0 : P) (limit : Z) (a0 : ChannelAgent) (Ha0 : agent_inv limit [] a0).

(** [a] and [p] are reached by a history of the agent and one of the port; the
    frames of [out] still have to be sent, those of [inn] to be received. *)
Definition driven (out inn : list Frame) (log : AgentLog) (a : ChannelAgent) (p : ChannelPort P) : Prop :=
  exists acs ars pcs prs,
    agent_run acs a0 = (ars, a) /\ Forall call_typed acs /\
    port_run pcs (from_io p0) = (prs, p) /\ Forall call_frame pcs /\
    handed_out ars = told_to_send prs ++ out /\ given_back prs = given acs ++ inn /\
    owner_log acs ars = log.

Lemma driven_start : driven [] [] [] a0 (from_io p0).
Proof. by exists [], [], [], []. Qed.

Lemma driven_agent_inv out inn log a p : driven out inn log a p -> exists owed, agent_inv limit owed a.
Proof.
  intros (acs & ars & _ & _ & Hrun & Ht & _). pose proof (agent_run_settles limit acs [] a0 Ht Ha0) as Hs.
  rewrite Hrun in Hs. by destruct Hs as (_ & _ & _ & Hi).
Qed.

Lemma driven_port_inv out inn log a p : driven out inn log a p -> exists prs, port_inv p0 prs p.
Proof.
  intros (_ & _ & pcs & prs & _ & _ & Hrun & Hf & _).
  destruct (port_run_inv law p0 pcs [] _ Hf (port_inv_new p0)) as (prs' & p' & Hrun' & Hi & _).
  rewrite Hrun in Hrun'. injection Hrun' as <- <-. by exists prs.
Qed.

Lemma driven_agent_call c r out inn log a a' p :
  call_typed c -> agent_call c a = (r, a') -> driven out (given [c] ++ inn) log a p ->
  sound_result r /\
  driven (out ++ handed_out [r]) inn (log ++ if owner_kind c then [(c, r)] else []) a' p.
Proof.
  intros Hc Hcall Hd. destruct (driven_agent_inv _ _ _ _ _ Hd) as [owed Hi].
  destruct (agent_call_settles limit c owed a r a' Hc Hi Hcall) as [Hr _]. split; [done|].
  destruct Hd as (acs & ars & pcs & prs & Hrun & Ht & Hport & Hf & Ho & Hin & Hlog).
  exists (acs ++ [c]), (ars ++ [r]), pcs, prs. rewrite agent_run_app, Hrun. cbn [agent_run]. rewrite Hcall.
  split; [done|]. split; [by apply Forall_app_2; [|repeat constructor]|]. split; [done|]. split; [done|].
  unfold handed_out, given, owner_log in *. rewrite !omap_app, Ho, <- app_assoc. split; [done|].
  rewrite Hin, <- app_assoc. split; [done|].
  pose proof (length_agent_run acs a0) as Hl. rewrite Hrun in Hl. cbn [fst] in Hl.
  rewrite zip_with_app by done. rewrite List.filter_app, Hlog. cbn. by destruct (owner_kind c).
Qed.

Lemma driven_port_call c r out inn log a p p' :
  call_frame c -> port_call c p = (r, p') -> driven (told_to_send [r] ++ out) inn log a p ->
  reply_no_panic r /\ driven out (inn ++ given_back [r]) log a p'.
Proof.
  intros Hc Hcall (acs & ars & pcs & prs & Hrun & Ht & Hport & Hf & Ho & Hin & Hlog).
  destruct (port_run_inv law p0 pcs [] _ Hf (port_inv_new p0)) as (prs' & p1 & Hrun' & Hi & _).
  rewrite Hport in Hrun'. injection Hrun' as <- <-.
  destruct (port_inv_call law p0 _ p c Hc Hi) as (r' & p1 & Hcall' & _ & Hnp & _).
  rewrite Hcall in Hcall'. injection Hcall' as <- <-. apply Forall_app in Hnp as [_ Hnp].
  apply Forall_cons_1 in Hnp as [Hnp _]. split; [done|].
  exists acs, ars, (pcs ++ [c]), (prs ++ [r]). rewrite port_run_app, Hport. cbn [port_run]. rewrite Hcall.
  split; [done|]. split; [done|]. split; [done|]. split; [by apply Forall_app_2; [|repeat constructor]|].
  unfold told_to_send, given_back in *. rewrite !omap_app, Ho, Hin, <- !app_assoc. done.
Qed.

(** A call of the endpoint on its agent. *)
Lemma driven_agent_step {X : Type} c (m : agent X) (f : X -> AgentReply) r out inn log a a' p :
  agent_call c = (x ← m; mret (f x)) -> owner_kind c = false -> call_typed c ->
  m a = (r, a') -> driven out (given [c] ++ inn) log a p ->
  match r with Ok _ => True | Err e => e <> InvariantViolation | Panic => False end /\
  driven (out ++ match r with Ok x => handed_out [Ok (f x)] | _ => [] end) inn log a' p.
Proof.
  intros Hdef Hk Ht Hm Hd.
  assert (agent_call c a = (match r with Ok x => Ok (f x) | Err e => Err e | Panic => Panic end, a')) as Hc.
  { rewrite Hdef. cbv [mbind st_bind]. rewrite Hm. by destruct r. }
  destruct (driven_agent_call _ _ _ _ _ _ _ _ Ht Hc Hd) as [Hr Hd']. rewrite Hk, app_nil_r in Hd'.
  by destruct r.
Qed.

(** A frame the port decoded carries a payload. *)
Lemma stream_events_payload (seg l : bytes) (f : Frame) :
  In (Ok f) (stream_events seg l) -> no_panic (frame_payload f).
Proof.
  revert seg. induction l as [|b l IH]; intros seg Hin; cbn [stream_events] in Hin; [done|].
  destruct (_ =? 0); [|by eapply IH]. apply in_app_or in Hin as [Hin|Hin]; [|by eapply IH].
  unfold segment_event in Hin. destruct (length seg =? 0)%nat; [done|].
  destruct (_ <? _)%nat; destruct Hin as [Hin|[]]; [discriminate Hin|].
  apply decode_body_inv in Hin as (payload & tail & Hwf & _).
  apply frame_wf_built, frame_built_payload in Hwf as (_ & _ & Hp). rewrite Hp. apply no_panic_Ok.
Qed.

Lemma driven_received_payload out inn log a p f :
  driven out inn log a p -> cp_received p = Some f -> no_panic (frame_payload f).
Proof.
  intros Hd Hf. destruct (driven_port_inv _ _ _ _ _ Hd) as (prs & _ & _ & pieces & heard & unread & Hheard & _).
  destruct Hheard as (_ & _ & He). rewrite Hf in He. cbn [held_event] in He.
  assert (In (Ok f) (pieces_events pieces ++ stream_events [] heard)) as Hin.
  { rewrite <- He. apply in_or_app. right. by left. }
  apply in_app_or in Hin as [Hin|Hin]; [|by eapply stream_events_payload].
  unfold pieces_events in Hin. apply in_concat in Hin as (l & Hl & Hin).
  apply in_map_iff in Hl as (piece & <- & _). by eapply stream_events_payload.
Qed.

(** What a computation of the endpoint keeps: it ends with every frame handed
    over, and with a sound result. *)
Definition step_sound {A : Type} (r : outcome ChannelEndpointError A) : Prop :=
  match r with
  | Ok _ | Err (EndpointPort _) => True
  | Err (EndpointAgent e) => e <> InvariantViolation
  | Err EndpointInvariantViolation | Panic => False
  end.
Definition ends_driven {A : Type} (log : AgentLog) (r : outcome ChannelEndpointError A)
    (e' : ChannelEndpoint P C) : Prop :=
  step_sound r /\ driven [] [] log (ep_agent e') (ep_port e').

(** The frame [f] has been handed out: it is sent and the agent is told. *)
Lemma endpoint_send_driven log (e : ChannelEndpoint P C) r e' :
  is_some (ag_outbound (ep_agent e)) = true ->
  driven [] [] log (ep_agent e) (ep_port e) -> endpoint_send e = (r, e') -> ends_driven log r e'.
Proof.
  intros Ho Hd Hrun. destruct (ag_outbound (ep_agent e)) as [f|] eqn:Hf; [|done].
  destruct (driven_agent_inv _ _ _ _ _ Hd) as [owed Hi].
  destruct (inv_outbound _ _ _ Hi f Hf) as (y & _ & [payload Hb]%carries_built). unfold endpoint_send in Hrun.
  destruct (take_outbound (ep_agent e)) as [ro a1] eqn:Htake.
  destruct (driven_agent_step ATakeOutbound take_outbound ReplyFrame ro [] [] log _ _ _
    eq_refl eq_refl I Htake Hd) as [_ Hd1].
  unfold take_outbound in Htake. rewrite st_bind_get, st_bind_modify, st_ret_eq in Htake.
  injection Htake as <- Ha1. rewrite Hf in Hd1. cbn in Hd1.
  cbv [mbind st_bind on_agent zoom] in Hrun. unfold take_outbound in Hrun.
  cbv [mbind st_bind get modify mret st_ret] in Hrun. rewrite Ha1, Hf in Hrun.
  cbv [map_err lift ok_or try_transmit] in Hrun. cbn [ep_port set_ep_agent] in Hrun.
  destruct (port_transmit f (ep_port e)) as [rt p1] eqn:Hsend.
  assert (port_call (CallTransmit f) (ep_port e) = (Sent f rt, p1)) as Hcall by (cbn; by rewrite Hsend).
  destruct (driven_port_call (CallTransmit f) _ [] [] log _ _ _ (ex_intro _ payload Hb) Hcall Hd1) as [Hnp Hd2].
  cbn [app given_back omap list_omap] in Hd2. unfold endpoint_now in Hrun.
  destruct rt as [u|error|]; [| |done]; cbn [ep_clock set_ep_port set_ep_agent ep_agent ep_port] in Hrun;
    destruct (clock_now (ep_clock e)) as [t clock]; cbn [ep_agent ep_port set_ep_agent] in Hrun.
  - destruct (transmit_completed t a1) as [rc a2] eqn:Hc.
    destruct (driven_agent_step (ATransmitCompleted t) (transmit_completed t) (fun _ => ReplyDone) rc
      [] [] log _ _ _ eq_refl eq_refl I Hc Hd2) as [Hr Hd3].
    destruct rc; cbn in Hrun; injection Hrun as <- <-; by split.
  - destruct (transmit_failed t a1) as [rc a2] eqn:Hc.
    destruct (driven_agent_step (ATransmitFailed t) (transmit_failed t) ReplyEvent rc
      [] [] log _ _ _ eq_refl eq_refl I Hc Hd2) as [Hr Hd3].
    destruct rc; cbn in Hrun; injection Hrun as <- <-; by split.
Qed.

(** A poll that reports a frame leaves it in the port. *)
Lemma poll_receive_frame (p p' : ChannelPort P) seg unread :
  port_holds p seg unread -> poll_receive p = (Ok FrameReady, p') -> is_some (cp_received p') = true.
Proof.
  intros Hp Hrun. unfold poll_receive in Hrun. rewrite st_bind_get in Hrun.
  destruct (is_some (cp_received p)) eqn:Hr; [rewrite st_ret_eq in Hrun; by injection Hrun as <-|].
  destruct (decode_buffered_spec _ _ _ Hp) as (r & p1 & Hdec & used & rest & _ & Hp1 & _ & Hcase).
  cbv [mbind st_bind] in Hrun. rewrite Hdec in Hrun. destruct r as [event|].
  { rewrite st_ret_eq in Hrun. injection Hrun as -> <-. by destruct Hcase as (f & -> & _). }
  destruct Hcase as (-> & _). unfold port_read in Hrun.
  destruct (io_read (cp_port p1)) as [[l|[]|] p2] eqn:Hread; cbv beta iota in Hrun; try discriminate Hrun.
  destruct (length l =? 0)%nat; [discriminate Hrun|].
  destruct (read_law _ law _ _ _ Hread) as [_ [Hl _]].
  pose proof (port_holds_refill (set_port p2 p1) _ l Hp1 Hl) as Hp3. cbv [modify] in Hrun.
  destruct (decode_buffered_spec _ _ _ Hp3) as (r & p4 & Hdec4 & used4 & rest4 & _ & _ & _ & Hcase).
  rewrite Hdec4 in Hrun. destruct r as [event|]; [|discriminate Hrun]. cbv beta iota in Hrun.
  injection Hrun as -> <-. by destruct Hcase as (f & -> & _).
Qed.

(** Nothing to send: a frame the port decoded goes to the agent. *)
Lemma endpoint_listen_driven log (e : ChannelEndpoint P C) r e' :
  driven [] [] log (ep_agent e) (ep_port e) -> endpoint_listen e = (r, e') -> ends_driven log r e'.
Proof.
  intros Hd Hrun. unfold endpoint_listen in Hrun. cbv [mbind st_bind on_channel_port zoom] in Hrun.
  destruct (poll_receive (ep_port e)) as [rp p1] eqn:Hpoll.
  assert (port_call CallPoll (ep_port e) = (Polled rp, p1)) as Hcall by (cbn; by rewrite Hpoll).
  destruct (driven_port_call CallPoll _ [] [] log _ _ _ I Hcall Hd) as [Hnp Hd1].
  destruct rp as [[]| |]; cbn [map_err] in Hrun; try (injection Hrun as <- <-; by split).
  destruct (driven_port_inv _ _ _ _ _ Hd) as (prs & _ & _ & pieces & heard & unread & (_ & Hp & _) & _).
  pose proof (poll_receive_frame _ _ _ _ Hp Hpoll) as Hsome.
  destruct (cp_received p1) as [f|] eqn:Hf; [|done].
  assert (port_call CallTake p1 = (Taken (Ok (Some f)), set_received None p1)) as Htake.
  { cbv [port_call take_received mbind st_bind get modify mret st_ret]. by rewrite Hf. }
  destruct (driven_port_call CallTake _ [] [] log _ _ _ I Htake Hd1) as [_ Hd2].
  cbn [app given_back omap list_omap] in Hd2.
  pose proof (driven_received_payload _ _ _ _ _ _ Hd1 Hf) as Hpayload.
  cbv [take_received mbind st_bind get modify mret st_ret] in Hrun. cbn [ep_port set_ep_port] in Hrun.
  rewrite Hf in Hrun. cbv [map_err lift ok_or endpoint_now] in Hrun.
  cbn [ep_clock set_ep_port ep_agent ep_port] in Hrun.
  destruct (clock_now (ep_clock e)) as [t clock]. unfold on_agent, zoom in Hrun. cbn [ep_agent] in Hrun.
  destruct (agent_receive t f (ep_agent e)) as [rr a2] eqn:Hrecv.
  destruct (driven_agent_step (AReceive t f) (agent_receive t f) ReplyEvent rr
    [] [] log _ _ _ eq_refl eq_refl Hpayload Hrecv Hd2) as [Hr Hd3].
  destruct rr; cbn in Hrun; injection Hrun as <- <-; by split.
Qed.

Lemma endpoint_step_driven log (e : ChannelEndpoint P C) r e' :
  driven [] [] log (ep_agent e) (ep_port e) -> endpoint_step e = (r, e') -> ends_driven log r e'.
Proof.
  intros Hd Hrun. unfold endpoint_step in Hrun. cbv [mbind st_bind endpoint_now on_agent zoom] in Hrun.
  destruct (clock_now (ep_clock e)) as [t clock]. cbn [ep_agent] in Hrun.
  destruct (poll t (ep_agent e)) as [rp a1] eqn:Hpoll.
  destruct (driven_agent_step (APoll t) (poll t) ReplyEvent rp [] [] log _ _ _
    eq_refl eq_refl I Hpoll Hd) as [Hr Hd1].
  destruct rp as [event|error|]; cbn [map_err] in Hrun; [|injection Hrun as <- <-; by split|done].
  cbn [app handed_out omap list_omap] in Hd1.
  destruct event; try (injection Hrun as <- <-; by split).
  - refine (endpoint_listen_driven log _ r e' _ Hrun). exact Hd1.
  - refine (endpoint_send_driven log _ r e' _ _ Hrun); [|exact Hd1].
    exact (poll_announces t _ _ _ Hpoll eq_refl).
Qed.

Lemma endpoint_call_driven log c (e : ChannelEndpoint P C) r e' :
  owner_typed c -> driven [] [] log (ep_agent e) (ep_port e) -> endpoint_call c e = (r, e') ->
  sound_reply r /\ driven [] [] (log ++ endpoint_owner_log [c] [r]) (ep_agent e') (ep_port e').
Proof.
  intros Ht Hd Hcall. destruct c as [|c]; cbn [endpoint_call] in Hcall.
  - destruct (endpoint_step e) as [rs e1] eqn:Hstep. injection Hcall as <- <-.
    destruct (endpoint_step_driven log e rs e1 Hd Hstep) as [Hs Hd']. cbn. rewrite app_nil_r.
    split; [|done]. by destruct rs as [|[]|].
  - destruct (agent_call c (ep_agent e)) as [ra a1] eqn:Hac. injection Hcall as <- <-.
    assert (call_typed c /\ owner_kind c = true /\ given [c] = []) as (Hc & Hk & Hg) by (by destruct c).
    destruct (driven_agent_call c ra [] [] log _ _ (ep_port e) Hc Hac) as [Hr Hd']; [by rewrite Hg|].
    split; [done|]. rewrite Hk in Hd'. cbn [endpoint_owner_log zip_with omap list_omap set_ep_agent ep_agent ep_port].
    assert (handed_out [ra] = []) as Hout; [|by rewrite Hout in Hd'].
    destruct c; try done; cbn [agent_call] in Hac; apply st_bind_pure in Hac as ([x|x|] & _ & ->); done.
Qed.

Lemma endpoint_run_driven log cs (e : ChannelEndpoint P C) :
  Forall owner_typed cs -> driven [] [] log (ep_agent e) (ep_port e) ->
  let '(rs, e') := endpoint_run cs e in
  length rs = length cs /\ Forall sound_reply rs /\
  driven [] [] (log ++ endpoint_owner_log cs rs) (ep_agent e') (ep_port e').
Proof.
  intros Hcs. revert log e. induction Hcs as [|c cs Hc _ IH]; intros log e Hd.
  - cbn. by rewrite app_nil_r.
  - cbn [endpoint_run]. destruct (endpoint_call c e) as [r e1] eqn:Hcall.
    destruct (endpoint_call_driven log c e r e1 Hc Hd Hcall) as [Hr Hd1].
    specialize (IH _ _ Hd1). destruct (endpoint_run cs e1) as [rs e2]. destruct IH as (Hl & Hrs & Hd2).
    cbn [length]. rewrite Hl. split; [done|]. split; [by constructor|].
    unfold endpoint_owner_log in *. rewrite <- app_assoc in Hd2. cbn [zip_with omap list_omap] in *.
    by destruct (match (c, r) with (OwnerCall c, OwnerReply r) => Some (c, r) | _ => None end).
Qed.
End Driven.

(** C5. An endpoint only ever drives its agent and its port: whatever its owner
    submits, collects and abandons between steps, over any lawful device and any
    clock, no step panics or reports an invariant violation of the endpoint or of
    the agent; the endpoint's state is that of one history of agent calls and one
    history of port calls, to which the theorems on both apply; the frames the
    agent announced are exactly those given to the port to send, and they are all
    that reaches the line, in order; the frames the port decoded and gave up are
    exactly those the agent received; and the owner's calls got the agent's
    replies. *)
Theorem endpoint_drives_channel {P C : Type} `{ByteDevice P} `{MonotonicClock C}
    (law : lawful_device P) (p0 : P) (clock : C) (seed operations : Z) (q : DurationMicros)
    (policy : ChannelPolicy) (a : ChannelAgent) (cs : list EndpointCall) :
  u32 operations -> 0 <= max_pending_work_items policy ->
  agent_new seed operations q policy = Ok a -> Forall owner_typed cs ->
  let '(rs, e) := endpoint_run cs (mkEndpoint a (from_io p0) clock) in
  length rs = length cs /\ Forall sound_reply rs /\
  exists acs ars pcs prs,
    agent_run acs a = (ars, ep_agent e) /\ Forall call_typed acs /\
    port_run pcs (from_io p0) = (prs, ep_port e) /\ Forall call_frame pcs /\
    handed_out ars = told_to_send prs /\ given_back prs = given acs /\
    (exists line, written (cp_port (ep_port e)) = written p0 ++ line /\ line_output prs line) /\
    owner_log acs ars = endpoint_owner_log cs rs.
Proof.
  intros Hop Hmax Hnew Ht. pose proof (agent_new_inv seed operations q policy a Hop Hmax Hnew) as Ha.
  pose proof (endpoint_run_driven law p0 _ a Ha [] cs (mkEndpoint a (from_io p0) clock) Ht
    (driven_start p0 a)) as Hrun.
  destruct (endpoint_run cs _) as [rs e]. destruct Hrun as (Hl & Hrs & Hd). split; [done|]. split; [done|].
  destruct Hd as (acs & ars & pcs & prs & Hrun & Hta & Hport & Hf & Ho & Hin & Hlog).
  destruct (port_run_inv law p0 pcs [] _ Hf (port_inv_new p0)) as (prs' & p1 & Hrun' & [Hsaid _] & _).
  rewrite Hport in Hrun'. injection Hrun' as <- <-. rewrite app_nil_r in Ho, Hin.
  exists acs, ars, pcs, prs. by split_and!.
Qed.

(** ** Witness *)

(** A clock that plays a list of readings. *)
#[export] Instance script_clock : MonotonicClock (list MonotonicMicros) :=
  fun l => match l with t :: l => (t, l) | [] => (0, []) end.

(** The response of node 7 to the lifecycle command, on the wire. *)
Definition stop_reply : Frame :=
  sample_reply 6 3 100 (result_wire (mkResult 1 ResultOk LifecycleWire.Idle Production SensorOk)).
Definition stop_reply_wire : bytes :=
  match transmit stop_reply with Ok wire => wire | _ => [] end.

Definition sample_endpoint (times : list MonotonicMicros) :
    ChannelEndpoint Script (list MonotonicMicros) :=
  mkEndpoint sample_agent (from_io (mkScript [Some stop_reply_wire; None; None] [] [])) times.

Definition sample_endpoint_calls : list EndpointCall :=
  [OwnerCall (ASubmit (SubmitLifecycle 7 StopRecording Production));
   EndpointStep; EndpointStep; EndpointStep].

Example sample_endpoint_replies :
  fst (endpoint_run sample_endpoint_calls (sample_endpoint [0; 10; 900; 950; 1600])) =
  [OwnerReply (Ok (ReplyOperationId (Some 1))); StepReply (Ok (TransmissionComplete 7));
   StepReply (Ok (AgentEvent (EvLifecycleComplete 7
     (mkResult 1 ResultOk LifecycleWire.Idle Production SensorOk)))); StepReply (Ok EndpointIdle)].
Proof. vm_compute. reflexivity. Qed.

Lemma endpoint_drives_channel_witness :
  let '(rs, e) := endpoint_run sample_endpoint_calls (sample_endpoint [0; 10; 900; 950; 1600]) in
  length rs = 4%nat /\ Forall sound_reply rs.
Proof.
  pose proof (endpoint_drives_channel script_lawful
    (mkScript [Some stop_reply_wire; None; None] [] []) [0; 10; 900; 950; 1600]
    100 1 500 (mkChannelPolicy 1000 200 2 4) sample_agent sample_endpoint_calls
    ltac:(ilia) ltac:(cbn; lia) eq_refl ltac:(repeat constructor)) as Hrun.
  change (mkEndpoint sample_agent _ [0; 10; 900; 950; 1600])
    with (sample_endpoint [0; 10; 900; 950; 1600]) in Hrun.
  destruct (endpoint_run sample_endpoint_calls _) as [rs e]. destruct Hrun as (Hl & Hrs & _).
  split; [exact Hl|exact Hrs].
Defined.

(** A step reads the clock twice: when the deadline (1010) passes between the
    poll (900) and the reception (1500), the response is discarded as late and
    the operation is stranded, as [late_response_strands_operation] shows. *)
Lemma late_read_strands_operation :
  let '(rs, e) := endpoint_run sample_endpoint_calls (sample_endpoint [0; 10; 900; 1500; 1600]) in
  rs = [OwnerReply (Ok (ReplyOperationId (Some 1))); StepReply (Ok (TransmissionComplete 7));
        StepReply (Ok (AgentEvent EvLateResponse)); StepReply (Ok (AgentEvent EvQuarantineEnded))] /\
  exists o, aw_work <$> ag_active (ep_agent e) = Some (WorkLifecycle o) /\ lo_phase o = AwaitingResponse.
Proof. vm_compute. split; [reflexivity|]. eexists. split; reflexivity. Qed.
