(* ===== verification/ChannelRuntime.v ===== *)
(** * The channel runtime (crates/sensor-host/src/channel_runtime.rs)

    The scheduling state of the nodes of one channel: when each is due, how far
    it was read and how it fails. The runtime turns it into candidates for the
    scheduler, hands out one dispatch at a time and takes back its completion,
    failure or cancellation; a measurement whose record is still on its way to
    storage is parked, so that the channel can serve other nodes. *)

From S2P Require Export Core Transaction LifecycleWire Scheduler.

Definition NANO_HERTZ_MICROS_PER_SAMPLE : Z := 1000000000000000.

(** ** Configuration *)

Record NodeScheduleConfig := mkNodeConfig {
  nc_node_address : Z;
  nc_output_rate : SampleRate;
  nc_journal_capacity_samples : Z;
  nc_max_sample_chunk_samples : Z;
  nc_target_chunk_samples : Z;
  nc_measurement_slot : DurationMicros;
  nc_maximum_service_interval : DurationMicros;
  nc_retry_base_delay : DurationMicros;
  nc_retry_max_delay : DurationMicros;
  nc_retry_attempt_limit : Z;
  nc_offline_probe_interval : DurationMicros
}.

Record MeasurementProgress := mkProgress {
  mp_received : SequenceCursor;
  mp_produced : SequenceCursor
}.

Record MeasurementDispatch := mkMeasurementDispatch {
  md_work_id : Z;
  md_node_address : Z;
  md_max_samples : Z
}.

(** [RecoveryDispatch], [TimeSyncDispatch] and [TelemetryDispatch]. *)
Record ServiceDispatch := mkServiceDispatch {
  sd_work_id : Z;
  sd_node_address : Z
}.

Inductive RecoveryCause :=
| CauseStreamChanged | CauseInvalidRelease | CauseInvalidResponse | CauseStreamRegressed.

Inductive OfflineCause := Unresponsive | OfflineRecovery (cause : RecoveryCause).

Inductive NodeAvailability :=
| Online
| RetryBackoff (failures : Z)
| Recovering (cause : RecoveryCause) (failures : Z)
| NodeOffline (cause : OfflineCause) (failures : Z).

Inductive ChannelDispatch :=
| DispatchMeasurement (d : MeasurementDispatch)
| DispatchRecovery (d : ServiceDispatch)
| DispatchTimeSync (d : ServiceDispatch)
| DispatchTelemetry (d : ServiceDispatch).

#[export] Instance MeasurementDispatch_eq_dec : EqDecision MeasurementDispatch.
Proof. solve_decision. Defined.
#[export] Instance ServiceDispatch_eq_dec : EqDecision ServiceDispatch.
Proof. solve_decision. Defined.
#[export] Instance ChannelDispatch_eq_dec : EqDecision ChannelDispatch.
Proof. solve_decision. Defined.

Inductive ChannelRuntimeError :=
| ZeroNodeCapacity
| NodeCapacityReached
| RuntimeInvalidNodeAddress (address : Z)
| DuplicateNode (address : Z)
| DuplicateTimeSync (address : Z)
| DuplicateTelemetry (address : Z)
| TelemetryNotConfigured (address : Z)
| UnknownNode (address : Z)
| ZeroJournalCapacity
| InvalidChunkSize
| InvalidTargetChunkSize
| SlotExceedsServiceInterval
| InvalidRetryDelays
| ZeroRetryLimit
| TimeSyncSlotExceedsInterval
| TelemetrySlotExceedsInterval
| ReceivedAheadOfProduced
| StreamRegressed
| RecoveryNotRequired (address : Z)
| RecoveryRequired (address : Z)
| ResumeWhileActive
| ReconfigurationWhileActive
| ResumeCursorMismatch (address scheduled recovered : Z)
| ClockRegressed
| RuntimeTimeOverflow
| StaleDispatch
| WorkIdExhausted
| RuntimeInvariantViolation
| UnifiedDispatchRequired
| RuntimeScheduler (error : SchedulerError).

Abbreviation runtime_out := (outcome ChannelRuntimeError).

Definition node_config_validate (self : NodeScheduleConfig) : runtime_out NodeScheduleConfig :=
  if (nc_node_address self =? HOST_ADDRESS) || (nc_node_address self =? BROADCAST_ADDRESS)
  then Err (RuntimeInvalidNodeAddress (nc_node_address self))
  else if nc_journal_capacity_samples self =? 0 then Err ZeroJournalCapacity
  else if (nc_max_sample_chunk_samples self =? 0)
          || (nc_journal_capacity_samples self <? nc_max_sample_chunk_samples self)
  then Err InvalidChunkSize
  else if (nc_target_chunk_samples self =? 0)
          || (nc_max_sample_chunk_samples self <? nc_target_chunk_samples self)
  then Err InvalidTargetChunkSize
  else if nc_maximum_service_interval self <? nc_measurement_slot self
  then Err SlotExceedsServiceInterval
  else if nc_retry_max_delay self <? nc_retry_base_delay self then Err InvalidRetryDelays
  else if nc_retry_attempt_limit self =? 0 then Err ZeroRetryLimit
  else Ok self.

Definition progress_validate (self : MeasurementProgress) : runtime_out MeasurementProgress :=
  if mp_produced self <? mp_received self then Err ReceivedAheadOfProduced else Ok self.

(** [NodeAvailability]: [failures], [recovery_cause], [is_offline], [allows_auxiliary]. *)
Definition failures (self : NodeAvailability) : Z :=
  match self with
  | Online => 0
  | RetryBackoff failures | Recovering _ failures | NodeOffline _ failures => failures
  end.

Definition recovery_cause (self : NodeAvailability) : option RecoveryCause :=
  match self with
  | Recovering cause _ | NodeOffline (OfflineRecovery cause) _ => Some cause
  | _ => None
  end.

Definition is_offline (self : NodeAvailability) : bool :=
  match self with NodeOffline _ _ => true | _ => false end.

Definition allows_auxiliary (self : NodeAvailability) : bool :=
  match self with Online | RetryBackoff _ => true | _ => false end.

(** The two periodic services have structures and operations of one shape
    ([TimeSyncScheduleConfig], [TelemetryScheduleConfig]). *)
Inductive PeriodicService := TimeSyncService | TelemetryService.

Record PeriodicConfig := mkPeriodic {
  pc_interval : DurationMicros;
  pc_estimated_slot : DurationMicros;
  pc_retry_delay : DurationMicros
}.

Definition periodic_validate (s : PeriodicService) (self : PeriodicConfig) : runtime_out PeriodicConfig :=
  if pc_interval self <? pc_estimated_slot self
  then Err match s with
           | TimeSyncService => TimeSyncSlotExceedsInterval
           | TelemetryService => TelemetrySlotExceedsInterval
           end
  else Ok self.

Definition time_sync_config_new (interval estimated_slot retry_delay : DurationMicros) :
    runtime_out PeriodicConfig :=
  periodic_validate TimeSyncService (mkPeriodic interval estimated_slot retry_delay).
Definition telemetry_config_new (interval estimated_slot retry_delay : DurationMicros) :
    runtime_out PeriodicConfig :=
  periodic_validate TelemetryService (mkPeriodic interval estimated_slot retry_delay).

Record PeriodicState := mkPeriodicState {
  ps_node_address : Z;
  ps_config : PeriodicConfig;
  ps_deadline : MonotonicMicros;
  ps_ready_at : MonotonicMicros;
  ps_queued_at : MonotonicMicros;
  ps_work_id : Z;
  ps_in_flight : bool
}.

Definition periodic_class (s : PeriodicService) : TrafficClass :=
  match s with TimeSyncService => TTimeSync | TelemetryService => TTelemetry end.

Definition periodic_candidate (s : PeriodicService) (self : PeriodicState) : option WorkCandidate :=
  if ps_in_flight self then None
  else Some (mkCandidate (ps_work_id self) (ps_node_address self) (periodic_class s)
               (ps_ready_at self) (Some (ps_deadline self)) (ps_queued_at self) None
               (pc_estimated_slot (ps_config self))).

(** ** Nodes *)

Record NodeScheduleState := mkNode {
  nd_config : NodeScheduleConfig;
  nd_received : SequenceCursor;
  nd_observed_produced : SequenceCursor;
  nd_observed_at : MonotonicMicros;
  nd_service_deadline : MonotonicMicros;
  nd_ready_at : MonotonicMicros;
  nd_queued_at : MonotonicMicros;
  nd_availability : NodeAvailability;
  nd_work_id : Z;
  nd_in_flight : bool
}.

Record NodeScheduleSnapshot := mkSnapshot {
  sn_node_address : Z;
  sn_received : SequenceCursor;
  sn_observed_produced : SequenceCursor;
  sn_time_to_overflow_us : Z;
  sn_service_deadline : MonotonicMicros;
  sn_ready_at : MonotonicMicros;
  sn_consecutive_failures : Z;
  sn_offline : bool;
  sn_in_flight : bool;
  sn_recovery_required : bool;
  sn_availability : NodeAvailability
}.

(** [div_ceil] of the file; dividing by zero panics. *)
Definition div_ceil_128 (numerator denominator : Z) : runtime_out Z :=
  if denominator =? 0 then Panic
  else add 128 (numerator / denominator) (if numerator mod denominator =? 0 then 0 else 1).

(** The unchecked [*] and the [/] of [u128]. *)
Definition mul_128 (a b : Z) : runtime_out Z := expect (checked_mul 128 a b).
Definition div_128 (a b : Z) : runtime_out Z := if b =? 0 then Panic else Ok (a / b).

(** [u64::try_from(x).unwrap_or(u64::MAX)]. *)
Definition clamp_u64 (x : Z) : Z := if x <=? U64_MAX then x else U64_MAX.

Definition node_time_to_overflow_us (self : NodeScheduleState) (now : MonotonicMicros) : runtime_out Z :=
  elapsed_us ← ok_or (checked_sub now (nd_observed_at self)) ClockRegressed;
  produced_nano ← mul_128 (nc_output_rate (nd_config self)) elapsed_us;
  produced_since_observation ← div_ceil_128 produced_nano NANO_HERTZ_MICROS_PER_SAMPLE;
  let estimated_produced := saturating_add 128 (nd_observed_produced self) produced_since_observation in
  let backlog := saturating_sub estimated_produced (nd_received self) in
  let capacity := nc_journal_capacity_samples (nd_config self) in
  let free_samples := saturating_sub capacity (Z.min backlog capacity) in
  micros ← div_128 (saturating_mul 128 free_samples NANO_HERTZ_MICROS_PER_SAMPLE)
             (nc_output_rate (nd_config self));
  Ok (clamp_u64 micros).

Definition node_candidate (self : NodeScheduleState) (now : MonotonicMicros) :
    runtime_out (option WorkCandidate) :=
  if nd_in_flight self then Ok None
  else if is_some (recovery_cause (nd_availability self)) then
    Ok (Some (mkCandidate (nd_work_id self) (nc_node_address (nd_config self)) TControl
      (nd_ready_at self) (Some (nd_ready_at self)) (nd_queued_at self) None
      (nc_measurement_slot (nd_config self))))
  else
    time ← node_time_to_overflow_us self now;
    Ok (Some (mkCandidate (nd_work_id self) (nc_node_address (nd_config self)) TMeasurement
      (nd_ready_at self) (Some (nd_service_deadline self)) (nd_queued_at self) (Some time)
      (nc_measurement_slot (nd_config self)))).

Definition node_snapshot (self : NodeScheduleState) (now : MonotonicMicros) :
    runtime_out NodeScheduleSnapshot :=
  time ← node_time_to_overflow_us self now;
  Ok (mkSnapshot (nc_node_address (nd_config self)) (nd_received self) (nd_observed_produced self)
    time (nd_service_deadline self) (nd_ready_at self) (failures (nd_availability self))
    (is_offline (nd_availability self)) (nd_in_flight self)
    (is_some (recovery_cause (nd_availability self))) (nd_availability self)).

(** ** The runtime *)

(** [candidates] is scratch space, cleared before each use, and is left out. *)
Record ChannelRuntime := mkRuntime {
  rt_scheduler : ChannelSchedulerPolicy;
  rt_observability : ObservabilityProfile;
  rt_max_nodes : nat;
  rt_next_work_id : Z;
  rt_nodes : list NodeScheduleState;
  rt_time_sync : list PeriodicState;
  rt_telemetry : list PeriodicState;
  rt_active_dispatch : option ChannelDispatch
}.

Abbreviation runtime := (st ChannelRuntime ChannelRuntimeError).

Definition set_next_work_id (x : Z) (self : ChannelRuntime) : ChannelRuntime :=
  mkRuntime (rt_scheduler self) (rt_observability self) (rt_max_nodes self) x (rt_nodes self)
    (rt_time_sync self) (rt_telemetry self) (rt_active_dispatch self).
Definition set_nodes (x : list NodeScheduleState) (self : ChannelRuntime) : ChannelRuntime :=
  mkRuntime (rt_scheduler self) (rt_observability self) (rt_max_nodes self) (rt_next_work_id self) x
    (rt_time_sync self) (rt_telemetry self) (rt_active_dispatch self).
Definition set_active_dispatch (x : option ChannelDispatch) (self : ChannelRuntime) : ChannelRuntime :=
  mkRuntime (rt_scheduler self) (rt_observability self) (rt_max_nodes self) (rt_next_work_id self)
    (rt_nodes self) (rt_time_sync self) (rt_telemetry self) x.

(** [self.time_sync] or [self.telemetry]. *)
Definition periodic (s : PeriodicService) (self : ChannelRuntime) : list PeriodicState :=
  match s with TimeSyncService => rt_time_sync self | TelemetryService => rt_telemetry self end.
Definition set_periodic (s : PeriodicService) (x : list PeriodicState) (self : ChannelRuntime) :
    ChannelRuntime :=
  match s with
  | TimeSyncService =>
      mkRuntime (rt_scheduler self) (rt_observability self) (rt_max_nodes self) (rt_next_work_id self)
        (rt_nodes self) x (rt_telemetry self) (rt_active_dispatch self)
  | TelemetryService =>
      mkRuntime (rt_scheduler self) (rt_observability self) (rt_max_nodes self) (rt_next_work_id self)
        (rt_nodes self) (rt_time_sync self) x (rt_active_dispatch self)
  end.

Definition set_observability (x : ObservabilityProfile) (self : ChannelRuntime) : ChannelRuntime :=
  mkRuntime (rt_scheduler self) x (rt_max_nodes self) (rt_next_work_id self) (rt_nodes self)
    (rt_time_sync self) (rt_telemetry self) (rt_active_dispatch self).

Definition runtime_new (scheduler : ChannelSchedulerPolicy) (observability : ObservabilityProfile)
    (max_nodes : nat) (work_id_seed : Z) : runtime_out ChannelRuntime :=
  if (max_nodes =? 0)%nat then Err ZeroNodeCapacity
  else Ok (mkRuntime scheduler observability max_nodes (Z.max work_id_seed 1) [] [] [] None).

(** [iter().position(p)] with the element found, and [iter().find(p)]. *)
Fixpoint position {A : Type} (p : A -> bool) (l : list A) : option (nat * A) :=
  match l with
  | [] => None
  | x :: l =>
      if p x then Some (0%nat, x)
      else match position p l with Some (i, y) => Some (Datatypes.S i, y) | None => None end
  end.

Definition at_address (address : Z) (node : NodeScheduleState) : bool :=
  nc_node_address (nd_config node) =? address.
Definition periodic_at (address : Z) (state : PeriodicState) : bool := ps_node_address state =? address.

Definition find_node (address : Z) : runtime (nat * NodeScheduleState) :=
  self ← get; lift (ok_or (position (at_address address) (rt_nodes self)) (UnknownNode address)).

(** Writing through a [&mut] to the element at [i]. *)
Definition put_node (i : nat) (node : NodeScheduleState) : runtime unit :=
  modify (fun self => set_nodes (<[i := node]> (rt_nodes self)) self).
Definition put_periodic (s : PeriodicService) (i : nat) (state : PeriodicState) : runtime unit :=
  modify (fun self => set_periodic s (<[i := state]> (periodic s self)) self).

Definition work_id_used (id : Z) (self : ChannelRuntime) : bool :=
  existsb (fun node => nd_work_id node =? id) (rt_nodes self)
  || existsb (fun state => ps_work_id state =? id) (rt_time_sync self)
  || existsb (fun state => ps_work_id state =? id) (rt_telemetry self).

Fixpoint work_id_loop (attempts : nat) : runtime Z :=
  match attempts with
  | O => throw WorkIdExhausted
  | Datatypes.S attempts =>
      self ← get;
      let candidate := Z.max (rt_next_work_id self) 1 in
      _ ← modify (set_next_work_id (Z.max (wrapping_add 64 candidate 1) 1));
      if negb (work_id_used candidate self) then mret candidate else work_id_loop attempts
  end.

Definition allocate_work_id : runtime Z :=
  self ← get; work_id_loop (Datatypes.S (rt_max_nodes self)).

Definition register_node (config : NodeScheduleConfig) (recovered_cursor : SequenceCursor)
    (now : MonotonicMicros) : runtime unit :=
  config ← lift (node_config_validate config);
  self ← get;
  if (rt_max_nodes self <=? length (rt_nodes self))%nat then throw NodeCapacityReached
  else if existsb (at_address (nc_node_address config)) (rt_nodes self)
  then throw (DuplicateNode (nc_node_address config))
  else
    work_id ← allocate_work_id;
    modify (fun self => set_nodes (rt_nodes self ++
      [mkNode config recovered_cursor recovered_cursor now now now now Online work_id false]) self).

Definition reconfigure_node (config : NodeScheduleConfig) (now : MonotonicMicros) : runtime unit :=
  config ← lift (node_config_validate config);
  self ← get;
  if is_some (rt_active_dispatch self) then throw ReconfigurationWhileActive
  else
    found ← find_node (nc_node_address config);
    let '(i, node) := found in
    if nd_in_flight node || is_some (recovery_cause (nd_availability node))
    then throw ReconfigurationWhileActive
    else
      put_node i (mkNode config (nd_received node) (nd_observed_produced node) now now now now
                    (nd_availability node) (nd_work_id node) (nd_in_flight node)).

(** *** Periodic services *)

Definition configure_periodic (s : PeriodicService) (node_address : Z) (config : PeriodicConfig)
    (first_deadline : MonotonicMicros) : runtime unit :=
  config ← lift (periodic_validate s config);
  found ← find_node node_address;
  if is_some (recovery_cause (nd_availability (snd found))) then throw (RecoveryRequired node_address)
  else
    self ← get;
    if existsb (periodic_at node_address) (periodic s self)
    then throw match s with
               | TimeSyncService => DuplicateTimeSync node_address
               | TelemetryService => DuplicateTelemetry node_address
               end
    else
      work_id ← allocate_work_id;
      let first_ready_at := saturating_sub first_deadline (pc_estimated_slot config) in
      modify (fun self => set_periodic s (periodic s self ++
        [mkPeriodicState node_address config first_deadline first_ready_at first_ready_at work_id false])
        self).

Definition configure_time_sync : Z -> PeriodicConfig -> MonotonicMicros -> runtime unit :=
  configure_periodic TimeSyncService.
Definition configure_telemetry : Z -> PeriodicConfig -> MonotonicMicros -> runtime unit :=
  configure_periodic TelemetryService.

(** The configuration is replaced before the deadline is computed. *)
Definition reconfigure_telemetry (node_address : Z) (config : PeriodicConfig) (now : MonotonicMicros) :
    runtime unit :=
  config ← lift (periodic_validate TelemetryService config);
  self ← get;
  found ← lift (ok_or (position (periodic_at node_address) (rt_telemetry self))
                  (TelemetryNotConfigured node_address));
  let '(i, state) := found in
  _ ← put_periodic TelemetryService i
        (mkPeriodicState (ps_node_address state) config (ps_deadline state) (ps_ready_at state)
           (ps_queued_at state) (ps_work_id state) (ps_in_flight state));
  if ps_in_flight state then mret tt
  else
    deadline ← lift (ok_or (monotonic_checked_add now (pc_interval config)) RuntimeTimeOverflow);
    put_periodic TelemetryService i
      (mkPeriodicState (ps_node_address state) config deadline
         (saturating_sub deadline (pc_estimated_slot config)) now (ps_work_id state)
         (ps_in_flight state)).

(** *** Selection *)

Fixpoint node_candidates (now : MonotonicMicros) (nodes : list NodeScheduleState) :
    runtime_out (list WorkCandidate) :=
  match nodes with
  | [] => Ok []
  | node :: nodes =>
      candidate ← node_candidate node now;
      rest ← node_candidates now nodes;
      Ok (option_list candidate ++ rest)
  end.

Definition node_available (address : Z) (node : NodeScheduleState) : bool :=
  at_address address node && allows_auxiliary (nd_availability node) && negb (nd_in_flight node).

Definition periodic_candidates (s : PeriodicService) (self : ChannelRuntime) : list WorkCandidate :=
  omap (fun state =>
    if existsb (node_available (ps_node_address state)) (rt_nodes self)
    then periodic_candidate s state else None) (periodic s self).

Definition select_context (now : MonotonicMicros) (self : ChannelRuntime) : ScheduleContext :=
  mkScheduleContext now (rt_observability self) 0.

Definition with_work_id (id : Z) (node : NodeScheduleState) : bool := nd_work_id node =? id.
Definition periodic_with_work_id (id : Z) (state : PeriodicState) : bool := ps_work_id state =? id.

Definition node_in_flight (x : bool) (node : NodeScheduleState) : NodeScheduleState :=
  mkNode (nd_config node) (nd_received node) (nd_observed_produced node) (nd_observed_at node)
    (nd_service_deadline node) (nd_ready_at node) (nd_queued_at node) (nd_availability node)
    (nd_work_id node) x.
Definition periodic_in_flight (x : bool) (state : PeriodicState) : PeriodicState :=
  mkPeriodicState (ps_node_address state) (ps_config state) (ps_deadline state) (ps_ready_at state)
    (ps_queued_at state) (ps_work_id state) x.

Definition find_work (id : Z) : runtime (nat * NodeScheduleState) :=
  self ← get; lift (ok_or (position (with_work_id id) (rt_nodes self)) RuntimeInvariantViolation).

Definition measurement_of (node : NodeScheduleState) : MeasurementDispatch :=
  mkMeasurementDispatch (nd_work_id node) (nc_node_address (nd_config node))
    (nc_max_sample_chunk_samples (nd_config node)).

Definition periodic_dispatch (s : PeriodicService) (d : ServiceDispatch) : ChannelDispatch :=
  match s with TimeSyncService => DispatchTimeSync d | TelemetryService => DispatchTelemetry d end.

Definition dispatch_periodic (s : PeriodicService) (id : Z) : runtime ChannelDispatch :=
  self ← get;
  found ← lift (ok_or (position (periodic_with_work_id id) (periodic s self)) RuntimeInvariantViolation);
  let '(i, state) := found in
  _ ← put_periodic s i (periodic_in_flight true state);
  mret (periodic_dispatch s (mkServiceDispatch (ps_work_id state) (ps_node_address state))).

(** [match selected.class]. *)
Definition dispatch_selected (selected : ScheduledWork) : runtime ChannelDispatch :=
  match scheduled_class selected with
  | TControl =>
      found ← find_work (scheduled_work_id selected);
      let '(i, node) := found in
      if negb (is_some (recovery_cause (nd_availability node))) then throw RuntimeInvariantViolation
      else
        _ ← put_node i (node_in_flight true node);
        mret (DispatchRecovery (mkServiceDispatch (nd_work_id node) (nc_node_address (nd_config node))))
  | TMeasurement =>
      found ← find_work (scheduled_work_id selected);
      let '(i, node) := found in
      _ ← put_node i (node_in_flight true node);
      mret (DispatchMeasurement (measurement_of node))
  | TTimeSync => dispatch_periodic TimeSyncService (scheduled_work_id selected)
  | TTelemetry => dispatch_periodic TelemetryService (scheduled_work_id selected)
  | _ => throw RuntimeInvariantViolation
  end.

Definition select_work (now : MonotonicMicros) : runtime (option ChannelDispatch) :=
  self ← get;
  if is_some (rt_active_dispatch self) then mret None
  else
    nodes ← lift (node_candidates now (rt_nodes self));
    let candidates := nodes ++ periodic_candidates TimeSyncService self
                        ++ periodic_candidates TelemetryService self in
    selected ← lift (map_err RuntimeScheduler
                 (select (rt_scheduler self) (select_context now self) candidates));
    match selected with
    | None => mret None
    | Some selected =>
        dispatch ← dispatch_selected selected;
        _ ← modify (set_active_dispatch (Some dispatch));
        mret (Some dispatch)
    end.

Definition select_measurement (now : MonotonicMicros) : runtime (option MeasurementDispatch) :=
  self ← get;
  if negb ((length (rt_time_sync self) =? 0)%nat && (length (rt_telemetry self) =? 0)%nat)
  then throw UnifiedDispatchRequired
  else if is_some (rt_active_dispatch self) then mret None
  else
    candidates ← lift (node_candidates now (rt_nodes self));
    selected ← lift (map_err RuntimeScheduler
                 (select (rt_scheduler self) (select_context now self) candidates));
    match selected with
    | None => mret None
    | Some selected =>
        if negb (bool_decide (scheduled_class selected = TMeasurement)) then mret None
        else
          found ← find_work (scheduled_work_id selected);
          let '(i, node) := found in
          if nd_in_flight node then throw RuntimeInvariantViolation
          else
            _ ← put_node i (node_in_flight true node);
            _ ← modify (set_active_dispatch (Some (DispatchMeasurement (measurement_of node))));
            mret (Some (measurement_of node))
    end.

Definition select_shutdown_measurement (node_address : Z) (now : MonotonicMicros) :
    runtime (option MeasurementDispatch) :=
  self ← get;
  if is_some (rt_active_dispatch self) then mret None
  else
    found ← find_node node_address;
    let '(i, node) := found in
    if is_some (recovery_cause (nd_availability node)) then mret None
    else if nd_in_flight node then mret None
    else if (0 <? failures (nd_availability node)) && (now <? nd_ready_at node) then mret None
    else
      _ ← put_node i (node_in_flight true node);
      let dispatch := mkMeasurementDispatch (nd_work_id node) node_address
                        (nc_max_sample_chunk_samples (nd_config node)) in
      _ ← modify (set_active_dispatch (Some (DispatchMeasurement dispatch)));
      mret (Some dispatch).

(** *** The owner of a dispatch *)

Definition in_flight_node_index (dispatch : MeasurementDispatch) : runtime (nat * NodeScheduleState) :=
  found ← find_node (md_node_address dispatch);
  let node := snd found in
  if negb (nd_in_flight node) || negb (nd_work_id node =? md_work_id dispatch) then throw StaleDispatch
  else if negb (nc_max_sample_chunk_samples (nd_config node) =? md_max_samples dispatch)
  then throw StaleDispatch
  else mret found.

Definition active_node_index (dispatch : MeasurementDispatch) : runtime (nat * NodeScheduleState) :=
  self ← get;
  if negb (bool_decide (rt_active_dispatch self = Some (DispatchMeasurement dispatch)))
  then throw StaleDispatch
  else in_flight_node_index dispatch.

Definition active_recovery_index (dispatch : ServiceDispatch) : runtime (nat * NodeScheduleState) :=
  self ← get;
  if negb (bool_decide (rt_active_dispatch self = Some (DispatchRecovery dispatch)))
  then throw StaleDispatch
  else
    found ← find_node (sd_node_address dispatch);
    let node := snd found in
    if negb (nd_in_flight node) || negb (nd_work_id node =? sd_work_id dispatch) then throw StaleDispatch
    else mret found.

Definition active_periodic_index (s : PeriodicService) (dispatch : ServiceDispatch) :
    runtime (nat * PeriodicState) :=
  self ← get;
  if negb (bool_decide (rt_active_dispatch self = Some (periodic_dispatch s dispatch)))
  then throw StaleDispatch
  else
    found ← lift (ok_or (position (periodic_at (sd_node_address dispatch)) (periodic s self))
                    (UnknownNode (sd_node_address dispatch)));
    let state := snd found in
    if negb (ps_in_flight state) || negb (ps_work_id state =? sd_work_id dispatch) then throw StaleDispatch
    else mret found.

(** *** Completion of measurements *)

Definition exponential_delay_step (maximum delay : Z) : Z := Z.min (saturating_mul 64 delay 2) maximum.

(** [for _ in 1..failure_count]; [DurationMicros::new(..).expect(..)] panics on zero. *)
Definition exponential_delay (base maximum : DurationMicros) (failure_count : Z) : runtime_out DurationMicros :=
  let delay := Nat.iter (Z.to_nat (failure_count - 1)) (exponential_delay_step maximum) base in
  let delay := Z.min delay maximum in
  if delay =? 0 then Panic else Ok delay.

Definition next_measurement_ready_at (config : NodeScheduleConfig) (progress : MeasurementProgress)
    (now : MonotonicMicros) : runtime_out MonotonicMicros :=
  backlog ← sub (mp_produced progress) (mp_received progress);
  let missing_samples := saturating_sub (nc_target_chunk_samples config) backlog in
  fill_time_us ← div_128 (saturating_mul 128 missing_samples NANO_HERTZ_MICROS_PER_SAMPLE)
                   (nc_output_rate config);
  let latest_safe_start_us :=
    saturating_sub (nc_maximum_service_interval config) (nc_measurement_slot config) in
  let wait_us := Z.min (clamp_u64 fill_time_us) latest_safe_start_us in
  ok_or (checked_add 64 now wait_us) RuntimeTimeOverflow.

Definition stream_regressed (node : NodeScheduleState) (progress : MeasurementProgress) : bool :=
  (mp_received progress <? nd_received node) || (mp_produced progress <? nd_observed_produced node).

Definition regressed_node (node : NodeScheduleState) (now : MonotonicMicros) : NodeScheduleState :=
  mkNode (nd_config node) (nd_received node) (nd_observed_produced node) (nd_observed_at node)
    (nd_service_deadline node) now (nd_queued_at node) (Recovering CauseStreamRegressed 0)
    (nd_work_id node) false.

(** From [let next_deadline] on: the node's fields are assigned up to the call of
    [next_measurement_ready_at], whose error leaves them half updated. *)
Definition advance_node (i : nat) (node : NodeScheduleState) (progress : MeasurementProgress)
    (now : MonotonicMicros) : runtime unit :=
  next_deadline ← lift (ok_or (monotonic_checked_add now (nc_maximum_service_interval (nd_config node)))
                          RuntimeTimeOverflow);
  next_work_id ← allocate_work_id;
  let partly := mkNode (nd_config node) (mp_received progress) (mp_produced progress) now next_deadline
                  (nd_ready_at node) (nd_queued_at node) (nd_availability node) (nd_work_id node)
                  (nd_in_flight node) in
  _ ← put_node i partly;
  ready_at ← lift (next_measurement_ready_at (nd_config node) progress now);
  put_node i (mkNode (nd_config node) (mp_received progress) (mp_produced progress) now next_deadline
                ready_at now Online next_work_id false).

Definition complete_measurement (dispatch : MeasurementDispatch) (progress : MeasurementProgress)
    (now : MonotonicMicros) : runtime unit :=
  progress ← lift (progress_validate progress);
  found ← active_node_index dispatch;
  let '(i, node) := found in
  if stream_regressed node progress then
    _ ← put_node i (regressed_node node now);
    _ ← modify (set_active_dispatch None);
    throw StreamRegressed
  else
    _ ← advance_node i node progress now;
    modify (set_active_dispatch None).

Definition park_measurement (dispatch : MeasurementDispatch) : runtime unit :=
  _ ← active_node_index dispatch;
  modify (set_active_dispatch None).

Definition complete_parked_measurement (dispatch : MeasurementDispatch) (progress : MeasurementProgress)
    (now : MonotonicMicros) : runtime unit :=
  self ← get;
  if bool_decide (rt_active_dispatch self = Some (DispatchMeasurement dispatch))
  then throw RuntimeInvariantViolation
  else
    progress ← lift (progress_validate progress);
    found ← in_flight_node_index dispatch;
    let '(i, node) := found in
    if stream_regressed node progress then
      _ ← put_node i (regressed_node node now);
      throw StreamRegressed
    else advance_node i node progress now.

Definition require_recovery (dispatch : MeasurementDispatch) (cause : RecoveryCause)
    (now : MonotonicMicros) : runtime unit :=
  found ← active_node_index dispatch;
  let '(i, node) := found in
  _ ← put_node i (mkNode (nd_config node) (nd_received node) (nd_observed_produced node)
        (nd_observed_at node) (nd_service_deadline node) now now (Recovering cause 0)
        (nd_work_id node) false);
  modify (set_active_dispatch None).

(** *** Recovery *)

(** A node put back into rotation at [received] and [produced]. *)
Definition rejoin_node (i : nat) (node : NodeScheduleState) (received produced : SequenceCursor)
    (now : MonotonicMicros) : runtime unit :=
  work_id ← allocate_work_id;
  put_node i (mkNode (nd_config node) received produced now now now now Online work_id false).

Definition complete_recovery (dispatch : ServiceDispatch) (recovered_cursor observed_produced : SequenceCursor)
    (now : MonotonicMicros) : runtime unit :=
  found ← active_recovery_index dispatch;
  let '(i, node) := found in
  if negb (is_some (recovery_cause (nd_availability node)))
  then throw (RecoveryNotRequired (sd_node_address dispatch))
  else if observed_produced <? recovered_cursor then throw ReceivedAheadOfProduced
  else
    _ ← rejoin_node i node recovered_cursor observed_produced now;
    modify (set_active_dispatch None).

Definition recover_node (node_address : Z) (recovered_cursor : SequenceCursor) (now : MonotonicMicros) :
    runtime unit :=
  found ← find_node node_address;
  let '(i, node) := found in
  if negb (is_some (recovery_cause (nd_availability node))) then throw (RecoveryNotRequired node_address)
  else
    _ ← rejoin_node i node recovered_cursor recovered_cursor now;
    modify (set_active_dispatch None).

Definition resume_node (node_address : Z) (recovered_cursor observed_produced : SequenceCursor)
    (now : MonotonicMicros) : runtime unit :=
  self ← get;
  if is_some (rt_active_dispatch self) then throw ResumeWhileActive
  else
    found ← find_node node_address;
    let '(i, node) := found in
    if is_some (recovery_cause (nd_availability node)) then throw (RecoveryRequired node_address)
    else if negb (nd_received node =? recovered_cursor)
    then throw (ResumeCursorMismatch node_address (nd_received node) recovered_cursor)
    else
      work_id ← allocate_work_id;
      put_node i (mkNode (nd_config node) (nd_received node) observed_produced now now now now Online
                    work_id (nd_in_flight node)).

Definition replace_quiesced_node (node_address : Z) (recovered_cursor observed_produced : SequenceCursor)
    (now : MonotonicMicros) : runtime unit :=
  self ← get;
  if is_some (rt_active_dispatch self) then throw ResumeWhileActive
  else
    found ← find_node node_address;
    let '(i, node) := found in
    rejoin_node i node recovered_cursor observed_produced now.

(** *** Failures *)

Definition retry_delay_of (config : NodeScheduleConfig) (count : Z) : runtime_out DurationMicros :=
  if nc_retry_attempt_limit config <? count then Ok (nc_offline_probe_interval config)
  else exponential_delay (nc_retry_base_delay config) (nc_retry_max_delay config) count.

Definition fail_measurement (dispatch : MeasurementDispatch) (now : MonotonicMicros) : runtime unit :=
  found ← active_node_index dispatch;
  let '(i, node) := found in
  let count := saturating_add 8 (failures (nd_availability node)) 1 in
  delay ← lift (retry_delay_of (nd_config node) count);
  let availability :=
    if nc_retry_attempt_limit (nd_config node) <? count then NodeOffline Unresponsive count
    else RetryBackoff count in
  let failed ready_at in_flight :=
    mkNode (nd_config node) (nd_received node) (nd_observed_produced node) (nd_observed_at node)
      (nd_service_deadline node) ready_at (nd_queued_at node) availability (nd_work_id node) in_flight in
  _ ← put_node i (failed (nd_ready_at node) (nd_in_flight node));
  ready_at ← lift (ok_or (monotonic_checked_add now delay) RuntimeTimeOverflow);
  _ ← put_node i (failed ready_at false);
  modify (set_active_dispatch None).

Definition fail_recovery (dispatch : ServiceDispatch) (now : MonotonicMicros) : runtime unit :=
  found ← active_recovery_index dispatch;
  let '(i, node) := found in
  cause ← lift (ok_or (recovery_cause (nd_availability node))
                  (RecoveryNotRequired (sd_node_address dispatch)));
  let count := saturating_add 8 (failures (nd_availability node)) 1 in
  delay ← lift (retry_delay_of (nd_config node) count);
  let availability :=
    if nc_retry_attempt_limit (nd_config node) <? count then NodeOffline (OfflineRecovery cause) count
    else Recovering cause count in
  let failed ready_at queued_at in_flight :=
    mkNode (nd_config node) (nd_received node) (nd_observed_produced node) (nd_observed_at node)
      (nd_service_deadline node) ready_at queued_at availability (nd_work_id node) in_flight in
  _ ← put_node i (failed (nd_ready_at node) (nd_queued_at node) (nd_in_flight node));
  ready_at ← lift (ok_or (monotonic_checked_add now delay) RuntimeTimeOverflow);
  _ ← put_node i (failed ready_at now false);
  modify (set_active_dispatch None).

Definition cancel_measurement (dispatch : MeasurementDispatch) : runtime unit :=
  found ← active_node_index dispatch;
  let '(i, node) := found in
  _ ← put_node i (node_in_flight false node);
  modify (set_active_dispatch None).

(** *** Completion of periodic work *)

Definition complete_periodic (s : PeriodicService) (dispatch : ServiceDispatch) (now : MonotonicMicros) :
    runtime unit :=
  found ← active_periodic_index s dispatch;
  let '(i, state) := found in
  next_deadline ← lift (ok_or (monotonic_checked_add now (pc_interval (ps_config state)))
                          RuntimeTimeOverflow);
  next_work_id ← allocate_work_id;
  _ ← put_periodic s i (mkPeriodicState (ps_node_address state) (ps_config state) next_deadline now now
        next_work_id false);
  modify (set_active_dispatch None).

Definition fail_periodic (s : PeriodicService) (dispatch : ServiceDispatch) (now : MonotonicMicros) :
    runtime unit :=
  found ← active_periodic_index s dispatch;
  let '(i, state) := found in
  ready_at ← lift (ok_or (monotonic_checked_add now (pc_retry_delay (ps_config state)))
                     RuntimeTimeOverflow);
  _ ← put_periodic s i (mkPeriodicState (ps_node_address state) (ps_config state) (ps_deadline state)
        ready_at now (ps_work_id state) false);
  modify (set_active_dispatch None).

Definition cancel_periodic (s : PeriodicService) (dispatch : ServiceDispatch) : runtime unit :=
  found ← active_periodic_index s dispatch;
  let '(i, state) := found in
  _ ← put_periodic s i (periodic_in_flight false state);
  modify (set_active_dispatch None).

Definition complete_time_sync := complete_periodic TimeSyncService.
Definition fail_time_sync := fail_periodic TimeSyncService.
Definition cancel_time_sync := cancel_periodic TimeSyncService.
Definition complete_telemetry := complete_periodic TelemetryService.
Definition fail_telemetry := fail_periodic TelemetryService.
Definition cancel_telemetry := cancel_periodic TelemetryService.

Definition snapshot (node_address : Z) (now : MonotonicMicros) (self : ChannelRuntime) :
    runtime_out NodeScheduleSnapshot :=
  found ← ok_or (position (at_address node_address) (rt_nodes self)) (UnknownNode node_address);
  node_snapshot (snd found) now.

Definition runtime_recovery_cause (node_address : Z) (self : ChannelRuntime) :
    runtime_out (option RecoveryCause) :=
  found ← ok_or (position (at_address node_address) (rt_nodes self)) (UnknownNode node_address);
  Ok (recovery_cause (nd_availability (snd found))).
