(* ===== verification/RuntimeHistory.v ===== *)
(** * Histories of a channel runtime

    The dispatches a runtime has handed out and not taken back are exactly its
    nodes and periodic services marked in flight: whatever its owner selects,
    completes, parks, fails and recovers, each dispatch is settled at most once
    and nothing is dispatched twice. *)

From stdpp Require Import list list_tactics.
From S2P Require Export ChannelRuntime.

(** ** What is in flight *)

Definition node_dispatch (node : NodeScheduleState) : option ChannelDispatch :=
  if nd_in_flight node then
    Some (if is_some (recovery_cause (nd_availability node))
          then DispatchRecovery (mkServiceDispatch (nd_work_id node) (nc_node_address (nd_config node)))
          else DispatchMeasurement (measurement_of node))
  else None.

Definition state_dispatch (s : PeriodicService) (state : PeriodicState) : option ChannelDispatch :=
  if ps_in_flight state
  then Some (periodic_dispatch s (mkServiceDispatch (ps_work_id state) (ps_node_address state)))
  else None.

Definition outstanding (r : ChannelRuntime) : list ChannelDispatch :=
  omap node_dispatch (rt_nodes r) ++ omap (state_dispatch TimeSyncService) (rt_time_sync r)
  ++ omap (state_dispatch TelemetryService) (rt_telemetry r).

Definition is_measurement_dispatch (d : ChannelDispatch) : bool :=
  match d with DispatchMeasurement _ => true | _ => false end.

Definition dispatch_work_id (d : ChannelDispatch) : Z :=
  match d with
  | DispatchMeasurement d => md_work_id d
  | DispatchRecovery d | DispatchTimeSync d | DispatchTelemetry d => sd_work_id d
  end.

(** ** The invariant *)

#[export] Instance node_config_typed : Typed NodeScheduleConfig := fun c =>
  u8 (nc_node_address c) /\ (u64 (nc_output_rate c) /\ nc_output_rate c <> 0) /\
  u32 (nc_journal_capacity_samples c) /\ u16 (nc_max_sample_chunk_samples c) /\
  u16 (nc_target_chunk_samples c) /\
  (u64 (nc_measurement_slot c) /\ nc_measurement_slot c <> 0) /\
  (u64 (nc_maximum_service_interval c) /\ nc_maximum_service_interval c <> 0) /\
  (u64 (nc_retry_base_delay c) /\ nc_retry_base_delay c <> 0) /\
  (u64 (nc_retry_max_delay c) /\ nc_retry_max_delay c <> 0) /\
  u8 (nc_retry_attempt_limit c) /\
  (u64 (nc_offline_probe_interval c) /\ nc_offline_probe_interval c <> 0).

Record node_ok (node : NodeScheduleState) : Prop := {
  node_typed : typed (nd_config node);
  node_valid : node_config_validate (nd_config node) = Ok (nd_config node);
  node_received_typed : u64 (nd_received node);
  node_produced_typed : u64 (nd_observed_produced node);
  node_observed_typed : u64 (nd_observed_at node)
}.

Definition node_address (node : NodeScheduleState) : Z := nc_node_address (nd_config node).
Definition work_ids (r : ChannelRuntime) : list Z :=
  (nd_work_id <$> rt_nodes r) ++ (ps_work_id <$> rt_time_sync r) ++ (ps_work_id <$> rt_telemetry r).

Record runtime_inv (r : ChannelRuntime) : Prop := {
  ri_nodes : Forall node_ok (rt_nodes r);
  ri_addresses : NoDup (node_address <$> rt_nodes r);
  ri_time_sync : NoDup (ps_node_address <$> rt_time_sync r);
  ri_telemetry : NoDup (ps_node_address <$> rt_telemetry r);
  ri_ids : NoDup (work_ids r);
  ri_id_range : Forall (fun id => 1 <= id < 2 ^ 64) (work_ids r);
  ri_next : u64 (rt_next_work_id r);
  ri_active : forall d, rt_active_dispatch r = Some d -> d ∈ outstanding r;
  ri_parked : forall d, d ∈ outstanding r ->
    rt_active_dispatch r = Some d \/ is_measurement_dispatch d = true
}.

(** ** Lists with one element replaced *)

Lemma position_split {A : Type} (p : A -> bool) (l : list A) (i : nat) (x : A) :
  position p l = Some (i, x) ->
  exists l1 l2, l = l1 ++ x :: l2 /\ length l1 = i /\ p x = true.
Proof.
  revert i. induction l as [|y l IH]; intros i H; [done|]. cbn [position] in H.
  destruct (p y) eqn:Hp.
  - injection H as <- <-. by exists [], l.
  - destruct (position p l) as [[j z]|]; [|done]. injection H as <- <-.
    destruct (IH j eq_refl) as (l1 & l2 & -> & <- & Hx). by exists (y :: l1), l2.
Qed.

Lemma position_unique {A : Type} (p : A -> bool) (l1 l2 : list A) (x : A) :
  p x = true -> Forall (fun y => p y = false) l1 ->
  position p (l1 ++ x :: l2) = Some (length l1, x).
Proof.
  intros Hx Hl. induction Hl as [|y l1 Hy _ IH]; cbn [position app length]; [by rewrite Hx|].
  by rewrite Hy, IH.
Qed.

Lemma insert_at {A : Type} (l1 l2 : list A) (x y : A) :
  <[length l1 := y]> (l1 ++ x :: l2) = l1 ++ y :: l2.
Proof. rewrite insert_app_r_alt, Nat.sub_diag by lia. done. Qed.

Lemma omap_middle {A B : Type} (f : A -> option B) (l1 l2 : list A) (x : A) :
  omap f (l1 ++ x :: l2) ≡ₚ option_list (f x) ++ omap f (l1 ++ l2).
Proof.
  rewrite !omap_app. cbn [omap list_omap]. destruct (f x); cbn [option_list app]; [|done].
  solve_Permutation.
Qed.

(** A node replaced by [node'] and the dispatches this hands out and takes back. *)
Lemma outstanding_node (r : ChannelRuntime) l1 l2 node node' :
  rt_nodes r = l1 ++ node :: l2 ->
  outstanding r ++ option_list (node_dispatch node') ≡ₚ
  option_list (node_dispatch node) ++ outstanding (set_nodes (l1 ++ node' :: l2) r).
Proof.
  intros Hr. unfold outstanding. cbn [set_nodes rt_nodes rt_time_sync rt_telemetry].
  rewrite Hr, !omap_middle. solve_Permutation.
Qed.

Lemma outstanding_periodic (s : PeriodicService) (r : ChannelRuntime) l1 l2 state state' :
  periodic s r = l1 ++ state :: l2 ->
  outstanding r ++ option_list (state_dispatch s state') ≡ₚ
  option_list (state_dispatch s state) ++ outstanding (set_periodic s (l1 ++ state' :: l2) r).
Proof.
  intros Hr. unfold outstanding. destruct s; cbn [periodic set_periodic rt_nodes rt_time_sync rt_telemetry] in *;
    rewrite Hr, !omap_middle; solve_Permutation.
Qed.

(** ** Work ids *)

Lemma dispatch_ids_sublist {A : Type} (f : A -> option ChannelDispatch) (id : A -> Z) (l : list A) :
  (forall x d, f x = Some d -> dispatch_work_id d = id x) ->
  (dispatch_work_id <$> omap f l) `sublist_of` (id <$> l).
Proof.
  intros Hf. induction l as [|x l IH]; [done|]. cbn [omap list_omap fmap list_fmap].
  destruct (f x) as [d|] eqn:Hx; [|by apply sublist_cons].
  cbn [fmap list_fmap]. rewrite (Hf x d Hx). by apply sublist_skip.
Qed.

Lemma node_dispatch_id node d : node_dispatch node = Some d -> dispatch_work_id d = nd_work_id node.
Proof.
  unfold node_dispatch. destruct (nd_in_flight node); [|done].
  destruct (is_some (recovery_cause (nd_availability node))); by intros [= <-].
Qed.

Lemma state_dispatch_id s state d : state_dispatch s state = Some d -> dispatch_work_id d = ps_work_id state.
Proof. unfold state_dispatch. destruct (ps_in_flight state), s; by intros [= <-]. Qed.

Lemma outstanding_ids (r : ChannelRuntime) :
  (dispatch_work_id <$> outstanding r) `sublist_of` work_ids r.
Proof.
  unfold outstanding, work_ids. rewrite !fmap_app.
  repeat apply sublist_app; apply dispatch_ids_sublist; eauto using node_dispatch_id, state_dispatch_id.
Qed.

Lemma outstanding_NoDup (r : ChannelRuntime) : runtime_inv r -> NoDup (outstanding r).
Proof.
  intros Hr. apply (NoDup_fmap_1 dispatch_work_id).
  eapply sublist_NoDup; [apply (ri_ids r Hr)|apply outstanding_ids].
Qed.

(** An id that no node or service uses. *)
Definition fresh_work_id (id : Z) (r : ChannelRuntime) : Prop := (id ∉ work_ids r) /\ 1 <= id < 2 ^ 64.

Lemma work_id_used_spec (id : Z) (r : ChannelRuntime) :
  work_id_used id r = bool_decide (id ∈ work_ids r).
Proof.
  apply eq_true_iff_eq. unfold work_id_used, work_ids.
  rewrite bool_decide_eq_true, !elem_of_app, !list_elem_of_fmap, !orb_true_iff, !existsb_exists.
  setoid_rewrite Z.eqb_eq. setoid_rewrite list_elem_of_In. naive_solver.
Qed.

Lemma work_id_loop_spec (attempts : nat) (r : ChannelRuntime) :
  u64 (rt_next_work_id r) ->
  exists x n, work_id_loop attempts r = (x, set_next_work_id n r) /\ u64 n /\
    match x with Ok id => fresh_work_id id r | Err e => e = WorkIdExhausted | Panic => False end.
Proof.
  revert r. induction attempts as [|attempts IH]; intros r Hr; cbn [work_id_loop].
  { exists (Err WorkIdExhausted), (rt_next_work_id r). by destruct r. }
  rewrite st_bind_get. set (candidate := Z.max (rt_next_work_id r) 1).
  assert (1 <= candidate < 2 ^ 64) as Hc by (subst candidate; ilia).
  set (next := Z.max (wrapping_add 64 candidate 1) 1).
  assert (u64 next) as Hn by (subst next; unfold wrapping_add; dlia).
  rewrite st_bind_modify, work_id_used_spec. case_bool_decide as Hused; cbn [negb].
  - destruct (IH (set_next_work_id next r) Hn) as (x & n & -> & Hx). by exists x, n.
  - by exists (Ok candidate), next.
Qed.

Lemma allocate_spec (r : ChannelRuntime) :
  runtime_inv r ->
  exists x n, allocate_work_id r = (x, set_next_work_id n r) /\ u64 n /\
    match x with Ok id => fresh_work_id id r | Err e => e = WorkIdExhausted | Panic => False end.
Proof. intros Hr. unfold allocate_work_id. rewrite st_bind_get. apply work_id_loop_spec, Hr. Qed.

(** *** Replacing one node or one service *)

Lemma inv_next (r : ChannelRuntime) (n : Z) : u64 n -> runtime_inv r -> runtime_inv (set_next_work_id n r).
Proof. intros Hn []. by split. Qed.

(** Nothing but the current dispatch, or measurements on their way to storage. *)
Definition accounted (active : option ChannelDispatch) (out : list ChannelDispatch) : Prop :=
  (forall d, active = Some d -> d ∈ out) /\
  (forall d, d ∈ out -> active = Some d \/ is_measurement_dispatch d = true).

Lemma inv_accounted (r : ChannelRuntime) : runtime_inv r -> accounted (rt_active_dispatch r) (outstanding r).
Proof. intros []. by split. Qed.

(** What an update of one node or service may do to its dispatch and to the
    current one, with what is handed out and taken back. *)
Inductive change (active : option ChannelDispatch) :
    option ChannelDispatch -> option ChannelDispatch -> option ChannelDispatch ->
    list ChannelDispatch -> list ChannelDispatch -> Prop :=
| change_keep old : change active old old active [] []
| change_settle d : active = Some d -> change active (Some d) None None [] [d]
| change_park d : active = Some (DispatchMeasurement d) ->
    change active (Some (DispatchMeasurement d)) (Some (DispatchMeasurement d)) None [] []
| change_settle_parked d : active <> Some (DispatchMeasurement d) ->
    change active (Some (DispatchMeasurement d)) None active [] [DispatchMeasurement d]
| change_hand d : active = None -> change active None (Some d) (Some d) [d] [].

Lemma change_accounted active active' old new handed settled out out' :
  change active old new active' handed settled ->
  out ++ option_list new ≡ₚ option_list old ++ out' -> NoDup out -> accounted active out ->
  accounted active' out' /\ out ++ handed ≡ₚ settled ++ out'.
Proof.
  intros Hc Hp Hn [Ha Hb].
  destruct Hc as [old|d ->|d ->|d Hd|d ->]; cbn [option_list app] in *; rewrite ?app_nil_r in *.
  - destruct old as [d|]; cbn [option_list app] in Hp; rewrite ?app_nil_r in Hp.
    + assert (out ≡ₚ out') as Hq by (apply (Permutation_cons_inv (a:=d)); rewrite <- Hp; solve_Permutation).
      split; [|done]. split; intros x; rewrite <- Hq; auto.
    + split; [|done]. split; intros x; rewrite <- Hp; auto.
  - split; [|done]. split; [done|]. intros x Hx. right.
    rewrite Hp in Hn. apply list.NoDup_cons in Hn as [Hn _].
    destruct (Hb x) as [[= ->]|?]; [rewrite Hp; by right|done|done].
  - assert (out ≡ₚ out') as Hq by (apply (Permutation_cons_inv (a:=DispatchMeasurement d)); rewrite <- Hp; solve_Permutation).
    split; [|done]. split; [done|]. intros x Hx. right.
    destruct (Hb x) as [[= <-]|?]; [by rewrite Hq|done|done].
  - split; [|done]. split.
    + intros x Hx. pose proof (Ha x Hx) as Hin. rewrite Hp in Hin. apply elem_of_cons in Hin as [->|]; done.
    + intros x Hx. apply Hb. rewrite Hp. by right.
  - assert (out' ≡ₚ d :: out) as Hq by (rewrite <- Hp; solve_Permutation).
    split; [|by rewrite Hp]. split.
    + intros x [= <-]. rewrite Hq. by left.
    + intros x. rewrite Hq. intros [->|Hx]%elem_of_cons; [by left|]. right. by destruct (Hb x Hx).
Qed.

(** An id kept or replaced by a fresh one. *)
Lemma ids_replace (l1 l2 l3 : list Z) (id id' : Z) :
  NoDup (l1 ++ (l2 ++ id :: l3)) -> Forall (fun id => 1 <= id < 2 ^ 64) (l1 ++ (l2 ++ id :: l3)) ->
  id' = id \/ ((id' ∉ l1 ++ (l2 ++ id :: l3)) /\ 1 <= id' < 2 ^ 64) ->
  NoDup (l1 ++ (l2 ++ id' :: l3)) /\ Forall (fun id => 1 <= id < 2 ^ 64) (l1 ++ (l2 ++ id' :: l3)).
Proof.
  rewrite !(assoc_L (++)). set (k := l1 ++ l2). intros Hn Hf [->|[Hid Hr]]; [done|].
  assert (forall x, k ++ x :: l3 ≡ₚ x :: (k ++ l3)) as Hp by (intros; solve_Permutation).
  rewrite Hp in Hn, Hf, Hid |- *. apply list.NoDup_cons in Hn as [_ Hn]. apply Forall_cons_1 in Hf as [_ Hf].
  split; [|by constructor]. apply list.NoDup_cons. split; [|done]. intros Hin. apply Hid. by right.
Qed.

Lemma inv_put_node (r : ChannelRuntime) l1 l2 node node' active :
  runtime_inv r -> rt_nodes r = l1 ++ node :: l2 -> node_address node' = node_address node ->
  node_ok node' -> nd_work_id node' = nd_work_id node \/ fresh_work_id (nd_work_id node') r ->
  accounted active (outstanding (set_nodes (l1 ++ node' :: l2) r)) ->
  runtime_inv (set_active_dispatch active (set_nodes (l1 ++ node' :: l2) r)).
Proof.
  intros [Hn Ha Hts Htel Hids Hr Hnext _ _] Hl Haddr Hok Hid [Hact Hpark].
  unfold fresh_work_id, work_ids in *. rewrite Hl in *.
  rewrite !fmap_app, !fmap_cons in *.
  assert (NoDup ((nd_work_id <$> l1) ++ nd_work_id node' :: (nd_work_id <$> l2) ++
      (ps_work_id <$> rt_time_sync r) ++ (ps_work_id <$> rt_telemetry r)) /\
    Forall (fun id => 1 <= id < 2 ^ 64) ((nd_work_id <$> l1) ++ nd_work_id node' :: (nd_work_id <$> l2) ++
      (ps_work_id <$> rt_time_sync r) ++ (ps_work_id <$> rt_telemetry r))) as [Hids' Hr'].
  { apply (ids_replace [] _ _ (nd_work_id node)); cbn [app];
      rewrite <- ?(assoc_L (++)) in *; cbn [app] in *; [done..|]. exact Hid. }
  split; unfold work_ids;
    cbn [set_active_dispatch set_nodes rt_nodes rt_time_sync rt_telemetry rt_next_work_id rt_active_dispatch];
    rewrite ?fmap_app, ?fmap_cons, <- ?(assoc_L (++)); try done.
  - apply Forall_app in Hn as [H1 H2]. apply Forall_cons_1 in H2 as [_ H2].
    apply Forall_app_2; [done|by constructor].
  - by rewrite Haddr.
Qed.

Lemma periodic_ids (s : PeriodicService) (r : ChannelRuntime) x :
  work_ids (set_periodic s x r) ≡ₚ
  (ps_work_id <$> x) ++ (nd_work_id <$> rt_nodes r) ++
  (ps_work_id <$> match s with TimeSyncService => rt_telemetry r | TelemetryService => rt_time_sync r end).
Proof. unfold work_ids. destruct s; cbn [set_periodic rt_nodes rt_time_sync rt_telemetry]; solve_Permutation. Qed.

Lemma inv_put_periodic (s : PeriodicService) (r : ChannelRuntime) l1 l2 state state' active :
  runtime_inv r -> periodic s r = l1 ++ state :: l2 -> ps_node_address state' = ps_node_address state ->
  ps_work_id state' = ps_work_id state \/ fresh_work_id (ps_work_id state') r ->
  accounted active (outstanding (set_periodic s (l1 ++ state' :: l2) r)) ->
  runtime_inv (set_active_dispatch active (set_periodic s (l1 ++ state' :: l2) r)).
Proof.
  intros [Hn Ha Hts Htel Hids Hr Hnext _ _] Hl Haddr Hid [Hact Hpark].
  assert (set_periodic s (l1 ++ state :: l2) r = r) as Hsame by (rewrite <- Hl; by destruct s, r).
  set (r' := set_periodic s (l1 ++ state' :: l2) r) in *.
  assert (NoDup (work_ids r') /\ Forall (fun id => 1 <= id < 2 ^ 64) (work_ids r')) as [Hids' Hr'].
  { pose proof (periodic_ids s r (l1 ++ state :: l2)) as Hp. rewrite Hsame in Hp.
    unfold r'. rewrite periodic_ids. unfold fresh_work_id in Hid. rewrite Hp in Hids, Hr, Hid.
    rewrite !fmap_app, !fmap_cons in *. rewrite <- !(assoc_L (++)) in *. cbn [app] in *.
    apply (ids_replace [] _ _ (ps_work_id state)); cbn [app]; done. }
  assert (NoDup (ps_node_address <$> l1 ++ state' :: l2)) as Hnd.
  { rewrite fmap_app, fmap_cons, Haddr, <- fmap_cons, <- fmap_app, <- Hl. by destruct s. }
  split; try done; unfold r'; by destruct s.
Qed.

(** *** One call *)

(** A call is sound when it neither panics nor finds its own tables inconsistent. *)
Definition sound {A : Type} (x : runtime_out A) : Prop := x <> Panic /\ x <> Err RuntimeInvariantViolation.

Definition handed {A : Type} (f : A -> list ChannelDispatch) (x : runtime_out A) : list ChannelDispatch :=
  match x with Ok a => f a | _ => [] end.
(** A completion that reports a regressed stream has taken its dispatch back as well. *)
Definition settled {A : Type} (d : option ChannelDispatch) (x : runtime_out A) : list ChannelDispatch :=
  match x with Ok _ | Err StreamRegressed => option_list d | _ => [] end.

Definition step_ok {A : Type} (f : A -> list ChannelDispatch) (d : option ChannelDispatch)
    (r : ChannelRuntime) (res : runtime_out A * ChannelRuntime) : Prop :=
  sound (fst res) /\ runtime_inv (snd res) /\
  outstanding r ++ handed f (fst res) ≡ₚ settled d (fst res) ++ outstanding (snd res).

Section Step.
Context {A : Type} (f : A -> list ChannelDispatch) (d : option ChannelDispatch).
Implicit Types (r : ChannelRuntime) (x : runtime_out A).

Lemma step_same r x :
  runtime_inv r -> sound x -> handed f x = [] -> settled d x = [] -> step_ok f d r (x, r).
Proof. intros Hr Hx Hh Hs. unfold step_ok. cbn [fst snd]. by rewrite Hh, Hs, app_nil_r. Qed.

Lemma step_next r n res : step_ok f d (set_next_work_id n r) res -> step_ok f d r res.
Proof. done. Qed.

Lemma step_node r l1 l2 node node' active x :
  runtime_inv r -> rt_nodes r = l1 ++ node :: l2 -> node_address node' = node_address node ->
  node_ok node' -> nd_work_id node' = nd_work_id node \/ fresh_work_id (nd_work_id node') r -> sound x ->
  change (rt_active_dispatch r) (node_dispatch node) (node_dispatch node') active (handed f x) (settled d x) ->
  step_ok f d r (x, set_active_dispatch active (set_nodes (l1 ++ node' :: l2) r)).
Proof.
  intros Hr Hl Ha Hok Hid Hx Hc.
  destruct (change_accounted _ _ _ _ _ _ _ _ Hc (outstanding_node r l1 l2 node node' Hl)
              (outstanding_NoDup r Hr) (inv_accounted r Hr)) as [Hacc Hp].
  split_and!; [done|by eapply inv_put_node|done].
Qed.

Lemma step_periodic (s : PeriodicService) r l1 l2 state state' active x :
  runtime_inv r -> periodic s r = l1 ++ state :: l2 -> ps_node_address state' = ps_node_address state ->
  ps_work_id state' = ps_work_id state \/ fresh_work_id (ps_work_id state') r -> sound x ->
  change (rt_active_dispatch r) (state_dispatch s state) (state_dispatch s state') active
    (handed f x) (settled d x) ->
  step_ok f d r (x, set_active_dispatch active (set_periodic s (l1 ++ state' :: l2) r)).
Proof.
  intros Hr Hl Ha Hid Hx Hc.
  destruct (change_accounted _ _ _ _ _ _ _ _ Hc (outstanding_periodic s r l1 l2 state state' Hl)
              (outstanding_NoDup r Hr) (inv_accounted r Hr)) as [Hacc Hp].
  split_and!; [done|by eapply inv_put_periodic|]. by destruct s.
Qed.
End Step.

(** *** Finding nodes *)

Definition node_at (r : ChannelRuntime) (address : Z) (i : nat) (node : NodeScheduleState) : Prop :=
  exists l1 l2, rt_nodes r = l1 ++ node :: l2 /\ i = length l1 /\ node_address node = address.

Lemma find_node_spec (address : Z) (r : ChannelRuntime) :
  (exists i node, find_node address r = (Ok (i, node), r) /\ node_at r address i node) \/
  find_node address r = (Err (UnknownNode address), r).
Proof.
  unfold find_node. rewrite st_bind_get. destruct (position _ _) as [[i node]|] eqn:Hp; [left|by right].
  exists i, node. split; [done|]. destruct (position_split _ _ _ _ Hp) as (l1 & l2 & Hl & Hi & Ha).
  exists l1, l2. unfold at_address in Ha. to_prop. done.
Qed.

Lemma put_node_at (r : ChannelRuntime) l1 l2 node node' :
  rt_nodes r = l1 ++ node :: l2 ->
  put_node (length l1) node' r = (Ok tt, set_nodes (l1 ++ node' :: l2) r).
Proof. intros Hl. unfold put_node, modify. by rewrite Hl, insert_at. Qed.

Lemma node_at_ok (r : ChannelRuntime) address i node :
  runtime_inv r -> node_at r address i node -> node_ok node.
Proof.
  intros Hr (l1 & l2 & Hl & _). pose proof (ri_nodes r Hr) as Hn. rewrite Hl in Hn.
  apply Forall_app in Hn as [_ Hn]. by apply Forall_cons_1 in Hn as [Hn _].
Qed.

Lemma fmap_NoDup_inj {X : Type} (g : X -> Z) (l : list X) (x y : X) :
  NoDup (g <$> l) -> x ∈ l -> y ∈ l -> g x = g y -> x = y.
Proof.
  intros Hn [i Hi]%list_elem_of_lookup [j Hj]%list_elem_of_lookup Hg.
  assert (i = j) as ->; [|congruence].
  eapply NoDup_lookup; [exact Hn|by rewrite list_lookup_fmap, Hi|rewrite list_lookup_fmap, Hj; cbn; by rewrite Hg].
Qed.

Lemma node_ids_NoDup (r : ChannelRuntime) : runtime_inv r -> NoDup (nd_work_id <$> rt_nodes r).
Proof. intros Hr. pose proof (ri_ids r Hr) as H. unfold work_ids in H. by apply list.NoDup_app in H as [H _]. Qed.

Lemma outstanding_node_elem (r : ChannelRuntime) node d :
  node ∈ rt_nodes r -> node_dispatch node = Some d -> d ∈ outstanding r.
Proof. intros Hn Hd. unfold outstanding. rewrite !elem_of_app, !list_elem_of_omap. eauto. Qed.

Lemma outstanding_measurement (r : ChannelRuntime) d :
  DispatchMeasurement d ∈ outstanding r ->
  exists node, node ∈ rt_nodes r /\ node_dispatch node = Some (DispatchMeasurement d).
Proof.
  unfold outstanding. rewrite !elem_of_app, !list_elem_of_omap.
  intros [H|[(x & _ & H)|(x & _ & H)]]; [done|unfold state_dispatch in H; destruct (ps_in_flight x); discriminate..].
Qed.

Lemma node_at_elem (r : ChannelRuntime) address i node : node_at r address i node -> node ∈ rt_nodes r.
Proof. intros (l1 & l2 & -> & _). apply elem_of_app. right. by left. Qed.

(** The owner of a dispatch is found, or the call fails and changes nothing. *)
Definition refused (e : ChannelRuntimeError) : Prop := e = StaleDispatch \/ exists a, e = UnknownNode a.

Lemma in_flight_node_spec (d : MeasurementDispatch) (r : ChannelRuntime) :
  (exists i node, in_flight_node_index d r = (Ok (i, node), r) /\ node_at r (md_node_address d) i node /\
     nd_in_flight node = true /\ measurement_of node = d) \/
  (exists e, in_flight_node_index d r = (Err e, r) /\ refused e).
Proof.
  unfold in_flight_node_index. cbv [mbind st_bind].
  destruct (find_node_spec (md_node_address d) r) as [(i & node & -> & Hat)| ->]; [|right; unfold refused; eauto].
  cbn [snd]. destruct (negb (nd_in_flight node) || negb (nd_work_id node =? md_work_id d)) eqn:H1;
    [right; exists StaleDispatch; split; [done|by left]|].
  destruct (negb (nc_max_sample_chunk_samples (nd_config node) =? md_max_samples d)) eqn:H2;
    [right; exists StaleDispatch; split; [done|by left]|].
  left. exists i, node. to_prop. destruct Hat as (l1 & l2 & Hl & Hi & Ha).
  split_and!; [done|by exists l1, l2|done|].
  unfold measurement_of. unfold node_address in Ha. destruct d. cbn in *. by subst.
Qed.

Lemma measurement_dispatched (r : ChannelRuntime) node d :
  runtime_inv r -> node ∈ rt_nodes r -> nd_work_id node = md_work_id d ->
  DispatchMeasurement d ∈ outstanding r -> node_dispatch node = Some (DispatchMeasurement d).
Proof.
  intros Hr Hn Hid (node' & Hn' & Hd)%outstanding_measurement.
  rewrite (fmap_NoDup_inj nd_work_id (rt_nodes r) node node'); [done|by apply node_ids_NoDup|done..|].
  by rewrite Hid, <- (node_dispatch_id _ _ Hd).
Qed.

Lemma active_node_spec (d : MeasurementDispatch) (r : ChannelRuntime) :
  runtime_inv r ->
  (exists i node, active_node_index d r = (Ok (i, node), r) /\ node_at r (md_node_address d) i node /\
     rt_active_dispatch r = Some (DispatchMeasurement d) /\
     node_dispatch node = Some (DispatchMeasurement d)) \/
  (exists e, active_node_index d r = (Err e, r) /\ refused e).
Proof.
  intros Hr. unfold active_node_index. rewrite st_bind_get. case_bool_decide as Hact; cbn [negb];
    [|right; exists StaleDispatch; split; [done|by left]].
  destruct (in_flight_node_spec d r) as [(i & node & -> & Hat & Hf & Hd)|H]; [left|by right].
  exists i, node. split_and!; try done.
  apply (measurement_dispatched r); [done|by eapply node_at_elem|by subst d|by apply (ri_active r Hr)].
Qed.

Lemma active_recovery_spec (d : ServiceDispatch) (r : ChannelRuntime) :
  (exists i node, active_recovery_index d r = (Ok (i, node), r) /\ node_at r (sd_node_address d) i node /\
     rt_active_dispatch r = Some (DispatchRecovery d) /\
     (is_some (recovery_cause (nd_availability node)) = true ->
      node_dispatch node = Some (DispatchRecovery d))) \/
  (exists e, active_recovery_index d r = (Err e, r) /\ refused e).
Proof.
  unfold active_recovery_index. rewrite st_bind_get. case_bool_decide as Hact; cbn [negb];
    [|right; exists StaleDispatch; split; [done|by left]].
  cbv [mbind st_bind].
  destruct (find_node_spec (sd_node_address d) r) as [(i & node & -> & Hat)| ->]; [|right; unfold refused; eauto].
  cbn [snd]. destruct (negb (nd_in_flight node) || negb (nd_work_id node =? sd_work_id d)) eqn:H1;
    [right; exists StaleDispatch; split; [done|by left]|].
  left. exists i, node. to_prop. split_and!; try done. intros Hc.
  destruct Hat as (l1 & l2 & Hl & Hi & Ha). unfold node_dispatch, node_address in *.
  destruct d. cbn in *. rewrite H, Hc. by subst.
Qed.

Definition periodic_state_at (s : PeriodicService) (r : ChannelRuntime) (i : nat) (state : PeriodicState) : Prop :=
  exists l1 l2, periodic s r = l1 ++ state :: l2 /\ i = length l1.

Lemma put_periodic_at (s : PeriodicService) (r : ChannelRuntime) l1 l2 state state' :
  periodic s r = l1 ++ state :: l2 ->
  put_periodic s (length l1) state' r = (Ok tt, set_periodic s (l1 ++ state' :: l2) r).
Proof. intros Hl. unfold put_periodic, modify. by rewrite Hl, insert_at. Qed.

Lemma active_periodic_spec (s : PeriodicService) (d : ServiceDispatch) (r : ChannelRuntime) :
  (exists i state, active_periodic_index s d r = (Ok (i, state), r) /\ periodic_state_at s r i state /\
     rt_active_dispatch r = Some (periodic_dispatch s d) /\
     state_dispatch s state = Some (periodic_dispatch s d)) \/
  (exists e, active_periodic_index s d r = (Err e, r) /\ refused e).
Proof.
  unfold active_periodic_index. rewrite st_bind_get. case_bool_decide as Hact; cbn [negb];
    [|right; exists StaleDispatch; split; [done|by left]].
  destruct (position _ _) as [[i state]|] eqn:Hp; cbn [ok_or]; [|right; unfold refused; eauto].
  rewrite st_bind_lift_Ok. cbn [snd].
  destruct (negb (ps_in_flight state) || negb (ps_work_id state =? sd_work_id d)) eqn:H1;
    [right; exists StaleDispatch; split; [done|by left]|].
  left. exists i, state. to_prop.
  destruct (position_split _ _ _ _ Hp) as (l1 & l2 & Hl & Hi & Ha). unfold periodic_at in Ha. to_prop.
  split_and!; [done|by exists l1, l2|done|].
  unfold state_dispatch. rewrite H. destruct d. cbn in *. by subst.
Qed.

(** *** Completing a measurement *)

#[export] Instance progress_typed : Typed MeasurementProgress := fun p =>
  u64 (mp_received p) /\ u64 (mp_produced p).

(** A node is due again no later than the slot before its service deadline. *)
Lemma next_ready_spec (config : NodeScheduleConfig) (progress : MeasurementProgress) (now : Z) :
  typed config -> node_config_validate config = Ok config -> typed progress ->
  mp_received progress <= mp_produced progress -> u64 now ->
  now + nc_maximum_service_interval config < 2 ^ 64 ->
  exists wait, next_measurement_ready_at config progress now = Ok (now + wait) /\
    0 <= wait <= nc_maximum_service_interval config - nc_measurement_slot config /\
    (nc_target_chunk_samples config <= mp_produced progress - mp_received progress -> wait = 0) /\
    (0 < wait -> wait * nc_output_rate config <=
       (nc_target_chunk_samples config - (mp_produced progress - mp_received progress))
       * NANO_HERTZ_MICROS_PER_SAMPLE).
Proof.
  intros (_ & (Hr1 & Hr2) & _ & _ & Ht & (Hs1 & Hs2) & (Hi1 & Hi2) & _) Hv [Hp1 Hp2] Hle Hnow Hover.
  unfold node_config_validate in Hv. run_in Hv.
  unfold next_measurement_ready_at, div_128. rewrite sub_ok by done. cbn [mbind outcome_bind].
  destruct (Z.eqb_spec (nc_output_rate config) 0) as [|_]; [done|]. cbn [mbind outcome_bind].
  set (missing := saturating_sub (nc_target_chunk_samples config) (mp_produced progress - mp_received progress)).
  set (fill := saturating_mul 128 missing NANO_HERTZ_MICROS_PER_SAMPLE / nc_output_rate config).
  assert (0 <= missing) by (unfold missing, saturating_sub; lia).
  assert (0 <= fill) as Hf by (apply Z.div_pos; unfold saturating_mul, NANO_HERTZ_MICROS_PER_SAMPLE; ilia).
  assert (fill * nc_output_rate config <= missing * NANO_HERTZ_MICROS_PER_SAMPLE) as Hfill.
  { pose proof (Z.mul_div_le (saturating_mul 128 missing NANO_HERTZ_MICROS_PER_SAMPLE) (nc_output_rate config)
      ltac:(ilia)) as Hd. fold fill in Hd. unfold saturating_mul in Hd. lia. }
  set (wait := Z.min (clamp_u64 fill) (saturating_sub (nc_maximum_service_interval config) (nc_measurement_slot config))).
  assert (0 <= wait <= fill) as Hw by (unfold wait, clamp_u64, saturating_sub; destruct (Z.leb_spec fill U64_MAX); ilia).
  assert (wait <= nc_maximum_service_interval config - nc_measurement_slot config) as Hw2
    by (unfold wait, saturating_sub; lia).
  exists wait. rewrite checked_add_ok by ilia. split_and!; [done|lia|lia|..].
  - intros Hm. assert (missing = 0) as Hz by (unfold missing, saturating_sub; lia).
    rewrite Hz in Hfill. assert (0 < nc_output_rate config) by ilia. nia.
  - intros Hpos. assert (0 < nc_output_rate config) by ilia.
    assert (missing = nc_target_chunk_samples config - (mp_produced progress - mp_received progress)) as <-
      by (unfold missing, saturating_sub in *; nia).
    nia.
Qed.

(** A completed node as the code leaves it, with its new work id. *)
Definition advanced_node (node : NodeScheduleState) (progress : MeasurementProgress)
    (now ready_at work_id : Z) : NodeScheduleState :=
  mkNode (nd_config node) (mp_received progress) (mp_produced progress) now
    (now + nc_maximum_service_interval (nd_config node)) ready_at now Online work_id false.

Definition call_failed (e : ChannelRuntimeError) : Prop := e = RuntimeTimeOverflow \/ e = WorkIdExhausted.

Lemma next_work_id_same (r : ChannelRuntime) : set_next_work_id (rt_next_work_id r) r = r.
Proof. by destruct r. Qed.

(** [advance_node] moves a node on completely or leaves it as it was. *)
Lemma advance_node_spec (r : ChannelRuntime) l1 l2 node (progress : MeasurementProgress) (now : Z) :
  runtime_inv r -> rt_nodes r = l1 ++ node :: l2 -> typed progress -> u64 now ->
  mp_received progress <= mp_produced progress ->
  exists n, u64 n /\
  ((exists ready_at id, fresh_work_id id r /\
      next_measurement_ready_at (nd_config node) progress now = Ok ready_at /\
      advance_node (length l1) node progress now r =
        (Ok tt, set_nodes (l1 ++ advanced_node node progress now ready_at id :: l2) (set_next_work_id n r))) \/
   (exists e, call_failed e /\ advance_node (length l1) node progress now r = (Err e, set_next_work_id n r))).
Proof.
  intros Hr Hl Hp Hnow Hle. unfold advance_node, monotonic_checked_add.
  destruct (checked_add 64 now _) as [deadline|] eqn:Hd; cbn [ok_or].
  2: { exists (rt_next_work_id r). split; [apply Hr|]. right. exists RuntimeTimeOverflow.
       rewrite next_work_id_same. by split; [left|]. }
  apply checked_add_Some in Hd as [-> Hd].
  destruct (allocate_spec r Hr) as (x & n & Ha & Hn & Hx). exists n. split; [done|].
  rewrite st_bind_lift_Ok. cbv [mbind st_bind]. rewrite Ha.
  destruct x as [id|e|]; [|right; exists e; by split; [right|]|done]. left.
  rewrite (put_node_at _ l1 l2 node) by done.
  assert (node_ok node) as [Ht Hv _ _ _].
  { pose proof (ri_nodes r Hr) as H. rewrite Hl in H. apply Forall_app in H as [_ H].
    by apply Forall_cons_1 in H as [H _]. }
  destruct (next_ready_spec (nd_config node) progress now) as (wait & Hw & _); try done.
  exists (now + wait), id. cbv [lift]. rewrite Hw. split_and!; [done..|].
  by erewrite put_node_at.
Qed.

Lemma advanced_node_ok node progress now ready_at id :
  node_ok node -> typed progress -> u64 now -> node_ok (advanced_node node progress now ready_at id).
Proof. intros [] [] ?. by split. Qed.

Lemma refused_sound {A : Type} e : refused e -> sound (Err e : runtime_out A).
Proof. by intros [->|[a ->]]. Qed.
Lemma refused_settled {A : Type} d e : refused e -> settled d (Err e : runtime_out A) = [].
Proof. by intros [->|[a ->]]. Qed.
Lemma failed_sound {A : Type} e : call_failed e -> sound (Err e : runtime_out A).
Proof. by intros [->| ->]. Qed.
Lemma failed_settled {A : Type} d e : call_failed e -> settled d (Err e : runtime_out A) = [].
Proof. by intros [->| ->]. Qed.
#[export] Hint Resolve refused_sound refused_settled failed_sound failed_settled inv_next : rust.

Definition none_handed (_ : unit) : list ChannelDispatch := [].

(** A call that fails before it changes anything but the next work id. *)
Ltac step_refused :=
  first [done | apply step_same; eauto with rust; done].

Lemma progress_validate_spec (p : MeasurementProgress) :
  (progress_validate p = Ok p /\ mp_received p <= mp_produced p) \/
  progress_validate p = Err ReceivedAheadOfProduced.
Proof. unfold progress_validate. destruct (Z.ltb_spec (mp_produced p) (mp_received p)); [by right|left]. split; [done|lia]. Qed.

Lemma complete_measurement_ok (r : ChannelRuntime) d progress now :
  runtime_inv r -> typed progress -> u64 now ->
  step_ok none_handed (Some (DispatchMeasurement d)) r (complete_measurement d progress now r).
Proof.
  intros Hr Hp Hnow. unfold complete_measurement.
  destruct (progress_validate_spec progress) as [[-> Hle]| ->]; [|step_refused].
  rewrite st_bind_lift_Ok. cbv [mbind st_bind].
  destruct (active_node_spec d r Hr) as [(i & node & -> & Hat & Hact & Hd)|(e & -> & He)]; [|step_refused].
  pose proof (node_at_ok r _ i node Hr Hat) as Hok. destruct Hat as (l1 & l2 & Hl & -> & Ha).
  destruct (stream_regressed node progress).
  - rewrite (put_node_at _ l1 l2 node) by done. cbv [modify throw].
    eapply step_node; try done; [by destruct Hok; split|by left|]. rewrite Hd. by apply change_settle.
  - destruct (advance_node_spec r l1 l2 node progress now) as
      (n & Hn & [(ready & id & Hid & _ & ->)|(e & He & ->)]); try done.
    + apply (step_next _ _ _ n), (step_node _ _ (set_next_work_id n r) l1 l2 node); cbn [advanced_node nd_work_id];
        eauto using advanced_node_ok with rust; [by split|].
      rewrite Hd. by apply change_settle.
    + apply (step_next _ _ _ n). step_refused.
Qed.

Lemma park_measurement_ok (r : ChannelRuntime) d :
  runtime_inv r -> step_ok none_handed None r (park_measurement d r).
Proof.
  intros Hr. unfold park_measurement. cbv [mbind st_bind].
  destruct (active_node_spec d r Hr) as [(i & node & -> & Hat & Hact & Hd)|(e & -> & He)]; [|step_refused].
  pose proof (node_at_ok r _ i node Hr Hat) as Hok. destruct Hat as (l1 & l2 & Hl & -> & Ha).
  cbv [modify]. assert (set_nodes (l1 ++ node :: l2) r = r) as Hs by (rewrite <- Hl; by destruct r).
  rewrite <- Hs at 2.
  eapply step_node; try done; [by left|]. rewrite Hd. by apply change_park.
Qed.

(** A dispatch of a node in flight is a measurement, unless the node is being recovered. *)
Lemma in_flight_measurement (r : ChannelRuntime) address i node :
  runtime_inv r -> node_at r address i node -> nd_in_flight node = true ->
  (DispatchRecovery (mkServiceDispatch (nd_work_id node) address) ∉ outstanding r) ->
  node_dispatch node = Some (DispatchMeasurement (measurement_of node)).
Proof.
  intros Hr Hat Hf Hno. pose proof (node_at_elem _ _ _ _ Hat) as Hin.
  destruct Hat as (l1 & l2 & _ & _ & Ha). unfold node_dispatch. rewrite Hf.
  destruct (is_some (recovery_cause (nd_availability node))) eqn:Hc; [|done].
  destruct Hno. apply (outstanding_node_elem r node); [done|]. unfold node_dispatch.
  rewrite Hf, Hc, <- Ha. done.
Qed.

Lemma complete_parked_ok (r : ChannelRuntime) d progress now :
  runtime_inv r -> typed progress -> u64 now ->
  (DispatchRecovery (mkServiceDispatch (md_work_id d) (md_node_address d)) ∉ outstanding r) ->
  rt_active_dispatch r <> Some (DispatchMeasurement d) ->
  step_ok none_handed (Some (DispatchMeasurement d)) r (complete_parked_measurement d progress now r).
Proof.
  intros Hr Hp Hnow Hno Hact. unfold complete_parked_measurement. rewrite st_bind_get.
  rewrite bool_decide_false by done.
  destruct (progress_validate_spec progress) as [[-> Hle]| ->]; [|step_refused].
  rewrite st_bind_lift_Ok. cbv [mbind st_bind].
  destruct (in_flight_node_spec d r) as [(i & node & -> & Hat & Hf & Hd)|(e & -> & He)]; [|step_refused].
  pose proof (node_at_ok r _ i node Hr Hat) as Hok.
  assert (node_dispatch node = Some (DispatchMeasurement d)) as Hdis.
  { rewrite <- Hd at 1. eapply in_flight_measurement; try done. by subst d. }
  destruct Hat as (l1 & l2 & Hl & -> & Ha).
  destruct (stream_regressed node progress).
  - rewrite (put_node_at _ l1 l2 node) by done. cbv [throw].
    refine (step_node _ _ r l1 l2 node (regressed_node node now) (rt_active_dispatch r) _ Hr Hl eq_refl _ _ _ _);
      [by destruct Hok; split|by left|done|]. rewrite Hdis. by apply change_settle_parked.
  - destruct (advance_node_spec r l1 l2 node progress now) as
      (n & Hn & [(ready & id & Hid & _ & ->)|(e & He & ->)]); try done.
    + apply (step_next _ _ _ n). refine (step_node _ _ (set_next_work_id n r) l1 l2 node
        (advanced_node node progress now ready id) (rt_active_dispatch r) _ _ Hl eq_refl _ _ _ _);
        eauto using advanced_node_ok with rust; [by split|]. rewrite Hdis. by apply change_settle_parked.
    + apply (step_next _ _ _ n). step_refused.
Qed.

Lemma require_recovery_ok (r : ChannelRuntime) d cause now :
  runtime_inv r -> u64 now ->
  step_ok none_handed (Some (DispatchMeasurement d)) r (require_recovery d cause now r).
Proof.
  intros Hr Hnow. unfold require_recovery. cbv [mbind st_bind].
  destruct (active_node_spec d r Hr) as [(i & node & -> & Hat & Hact & Hd)|(e & -> & He)]; [|step_refused].
  pose proof (node_at_ok r _ i node Hr Hat) as Hok. destruct Hat as (l1 & l2 & Hl & -> & Ha).
  rewrite (put_node_at _ l1 l2 node) by done. cbv [modify].
  eapply step_node; try done; [by destruct Hok; split|by left|]. rewrite Hd. by apply change_settle.
Qed.

Lemma cancel_measurement_ok (r : ChannelRuntime) d :
  runtime_inv r -> step_ok none_handed (Some (DispatchMeasurement d)) r (cancel_measurement d r).
Proof.
  intros Hr. unfold cancel_measurement. cbv [mbind st_bind].
  destruct (active_node_spec d r Hr) as [(i & node & -> & Hat & Hact & Hd)|(e & -> & He)]; [|step_refused].
  pose proof (node_at_ok r _ i node Hr Hat) as Hok. destruct Hat as (l1 & l2 & Hl & -> & Ha).
  rewrite (put_node_at _ l1 l2 node) by done. cbv [modify].
  eapply step_node; try done; [by destruct Hok; split|by left|]. rewrite Hd. by apply change_settle.
Qed.

(** *** Recovery *)

Lemma rejoin_node_spec (r : ChannelRuntime) l1 l2 node received produced now :
  runtime_inv r -> rt_nodes r = l1 ++ node :: l2 ->
  exists n, u64 n /\
  ((exists id, fresh_work_id id r /\ rejoin_node (length l1) node received produced now r =
      (Ok tt, set_nodes (l1 ++ mkNode (nd_config node) received produced now now now now Online id false :: l2)
                (set_next_work_id n r))) \/
   (exists e, call_failed e /\ rejoin_node (length l1) node received produced now r = (Err e, set_next_work_id n r))).
Proof.
  intros Hr Hl. unfold rejoin_node. destruct (allocate_spec r Hr) as (x & n & Ha & Hn & Hx).
  exists n. split; [done|]. cbv [mbind st_bind]. rewrite Ha.
  destruct x as [id|e|]; [left|right; exists e; by split; [right|]|done].
  exists id. split; [done|]. by erewrite put_node_at.
Qed.

(** A node rejoins the rotation and whatever it was dispatched for is settled. *)
Lemma rejoin_step d (r : ChannelRuntime) l1 l2 node received produced now n id active :
  runtime_inv r -> rt_nodes r = l1 ++ node :: l2 -> u64 received -> u64 produced -> u64 now -> u64 n ->
  fresh_work_id id r ->
  change (rt_active_dispatch r) (node_dispatch node) None active [] (option_list d) ->
  step_ok none_handed d r (Ok tt, set_active_dispatch active
    (set_nodes (l1 ++ mkNode (nd_config node) received produced now now now now Online id false :: l2)
       (set_next_work_id n r))).
Proof.
  intros Hr Hl H1 H2 H3 Hn Hid Hc. apply (step_next _ _ _ n).
  assert (node_ok node) as [].
  { pose proof (ri_nodes r Hr) as H. rewrite Hl in H. apply Forall_app in H as [_ H].
    by apply Forall_cons_1 in H as [H _]. }
  apply (step_node _ _ (set_next_work_id n r) l1 l2 node); eauto with rust; [by split|by split].
Qed.

Lemma complete_recovery_ok (r : ChannelRuntime) d recovered produced now :
  runtime_inv r -> u64 recovered -> u64 produced -> u64 now ->
  step_ok none_handed (Some (DispatchRecovery d)) r (complete_recovery d recovered produced now r).
Proof.
  intros Hr H1 H2 H3. unfold complete_recovery. cbv [mbind st_bind].
  destruct (active_recovery_spec d r) as [(i & node & -> & Hat & Hact & Hd)|(e & -> & He)]; [|step_refused].
  destruct Hat as (l1 & l2 & Hl & -> & Ha).
  destruct (is_some (recovery_cause (nd_availability node))); cbn [negb]; [|by apply step_same].
  destruct (produced <? recovered); [by apply step_same|].
  destruct (rejoin_node_spec r l1 l2 node recovered produced now Hr Hl) as
    (n & Hn & [(id & Hid & ->)|(e & He & ->)]).
  - cbv [modify]. apply rejoin_step; try done. rewrite Hd by done. by apply change_settle.
  - apply (step_next _ _ _ n). step_refused.
Qed.

(** With no dispatch current, a node to be recovered is not in flight. *)
Lemma idle_recovery (r : ChannelRuntime) address i node :
  runtime_inv r -> rt_active_dispatch r = None -> node_at r address i node ->
  is_some (recovery_cause (nd_availability node)) = true -> node_dispatch node = None.
Proof.
  intros Hr Hact Hat Hc. destruct (node_dispatch node) as [d|] eqn:Hd; [|done].
  pose proof (outstanding_node_elem r node d (node_at_elem _ _ _ _ Hat) Hd) as Hin.
  destruct (ri_parked r Hr d Hin) as [H|H]; [congruence|].
  unfold node_dispatch in Hd. rewrite Hc in Hd. destruct (nd_in_flight node); [|done].
  by injection Hd as <-.
Qed.

Lemma recover_node_ok (r : ChannelRuntime) address recovered now :
  runtime_inv r -> rt_active_dispatch r = None -> u64 recovered -> u64 now ->
  step_ok none_handed None r (recover_node address recovered now r).
Proof.
  intros Hr Hact H1 H2. unfold recover_node. cbv [mbind st_bind].
  destruct (find_node_spec address r) as [(i & node & -> & Hat)| ->]; [|by apply step_same].
  pose proof (idle_recovery r address i node Hr Hact Hat) as Hidle. destruct Hat as (l1 & l2 & Hl & -> & Ha).
  destruct (is_some (recovery_cause (nd_availability node))); cbn [negb]; [|by apply step_same].
  destruct (rejoin_node_spec r l1 l2 node recovered recovered now Hr Hl) as
    (n & Hn & [(id & Hid & ->)|(e & He & ->)]).
  - cbv [modify]. apply rejoin_step; try done. rewrite Hidle, Hact by done. apply change_keep.
  - apply (step_next _ _ _ n). step_refused.
Qed.

(** No node at [address] is in flight. *)
Definition node_idle (address : Z) (r : ChannelRuntime) : bool :=
  forallb (fun node => negb (at_address address node && nd_in_flight node)) (rt_nodes r).

Lemma node_idle_spec (r : ChannelRuntime) address i node :
  node_idle address r = true -> node_at r address i node -> nd_in_flight node = false.
Proof.
  intros Hidle Hat. pose proof (node_at_elem _ _ _ _ Hat) as Hin. destruct Hat as (l1 & l2 & _ & _ & Ha).
  unfold node_idle in Hidle. rewrite forallb_forall in Hidle.
  specialize (Hidle node ltac:(by apply list_elem_of_In)). unfold at_address, node_address in *.
  rewrite Ha, Z.eqb_refl in Hidle. by destruct (nd_in_flight node).
Qed.

Lemma replace_quiesced_node_ok (r : ChannelRuntime) address recovered produced now :
  runtime_inv r -> node_idle address r = true -> u64 recovered -> u64 produced -> u64 now ->
  step_ok none_handed None r (replace_quiesced_node address recovered produced now r).
Proof.
  intros Hr Hidle H1 H2 H3. unfold replace_quiesced_node. rewrite st_bind_get.
  destruct (rt_active_dispatch r) as [a|] eqn:Hact; [by apply step_same|]. cbn [is_some].
  cbv [mbind st_bind]. destruct (find_node_spec address r) as [(i & node & -> & Hat)| ->]; [|by apply step_same].
  pose proof (node_idle_spec r address i node Hidle Hat) as Hf. destruct Hat as (l1 & l2 & Hl & -> & Ha).
  destruct (rejoin_node_spec r l1 l2 node recovered produced now Hr Hl) as
    (n & Hn & [(id & Hid & ->)|(e & He & ->)]).
  - refine (rejoin_step None r l1 l2 node recovered produced now n id (rt_active_dispatch r) Hr Hl H1 H2 H3 Hn Hid _).
    unfold node_dispatch. rewrite Hf. apply change_keep.
  - apply (step_next _ _ _ n). step_refused.
Qed.

Lemma resume_node_ok (r : ChannelRuntime) address recovered produced now :
  runtime_inv r -> node_idle address r = true -> u64 recovered -> u64 produced -> u64 now ->
  step_ok none_handed None r (resume_node address recovered produced now r).
Proof.
  intros Hr Hidle H1 H2 H3. unfold resume_node. rewrite st_bind_get.
  destruct (rt_active_dispatch r) as [a|] eqn:Hact; [by apply step_same|]. cbn [is_some].
  cbv [mbind st_bind]. destruct (find_node_spec address r) as [(i & node & -> & Hat)| ->]; [|by apply step_same].
  pose proof (node_idle_spec r address i node Hidle Hat) as Hf. pose proof (node_at_ok r _ i node Hr Hat) as Hok.
  destruct Hat as (l1 & l2 & Hl & -> & Ha).
  destruct (is_some (recovery_cause (nd_availability node))); [by apply step_same|].
  destruct (nd_received node =? recovered); cbn [negb]; [|by apply step_same].
  destruct (allocate_spec r Hr) as ([id|e|] & n & -> & Hn & Hx); [| |done].
  - rewrite (put_node_at _ l1 l2 node) by done. apply (step_next _ _ _ n).
    refine (step_node _ _ (set_next_work_id n r) l1 l2 node
      (mkNode (nd_config node) (nd_received node) produced now now now now Online id (nd_in_flight node))
      (rt_active_dispatch r) _ _ Hl eq_refl _ _ _ _);
      eauto with rust; [by destruct Hok; split|by split|].
    unfold node_dispatch. cbn [nd_in_flight]. rewrite Hf. apply change_keep.
  - apply (step_next _ _ _ n). subst e. apply step_same; [by apply inv_next|by split|done|done].
Qed.

(** *** Failures *)

Lemma exponential_delay_spec (base maximum count : Z) :
  0 < base <= maximum -> maximum < 2 ^ 64 ->
  exists delay, exponential_delay base maximum count = Ok delay /\ base <= delay <= maximum.
Proof.
  intros Hb Hm. unfold exponential_delay. set (steps := Z.to_nat (count - 1)).
  assert (base <= Nat.iter steps (exponential_delay_step maximum) base <= maximum) as H.
  { induction steps as [|k IH]; [cbn; lia|].
    change (Nat.iter (S k) ?f base) with (f (Nat.iter k f base)).
    revert IH. generalize (Nat.iter k (exponential_delay_step maximum) base). intros x Hx.
    unfold exponential_delay_step, saturating_mul. ilia. }
  exists (Z.min (Nat.iter steps (exponential_delay_step maximum) base) maximum).
  destruct (Z.eqb_spec (Z.min (Nat.iter steps (exponential_delay_step maximum) base) maximum) 0); [lia|].
  split; [done|lia].
Qed.

Lemma retry_delay_spec (config : NodeScheduleConfig) (count : Z) :
  typed config -> node_config_validate config = Ok config ->
  exists delay, retry_delay_of config count = Ok delay /\ 0 < delay < 2 ^ 64.
Proof.
  intros (_ & _ & _ & _ & _ & _ & _ & (Hb1 & Hb2) & (Hm1 & Hm2) & _ & (Ho1 & Ho2)) Hv.
  unfold node_config_validate in Hv. run_in Hv. unfold retry_delay_of.
  destruct (nc_retry_attempt_limit config <? count); [exists (nc_offline_probe_interval config); split; [done|ilia]|].
  destruct (exponential_delay_spec (nc_retry_base_delay config) (nc_retry_max_delay config) count)
    as (delay & -> & Hd); [ilia|ilia|]. exists delay. split; [done|ilia].
Qed.

Lemma fail_measurement_ok (r : ChannelRuntime) d now :
  runtime_inv r -> step_ok none_handed (Some (DispatchMeasurement d)) r (fail_measurement d now r).
Proof.
  intros Hr. unfold fail_measurement. cbv [mbind st_bind lift].
  destruct (active_node_spec d r Hr) as [(i & node & -> & Hat & Hact & Hd)|(e & -> & He)]; [|step_refused].
  pose proof (node_at_ok r _ i node Hr Hat) as Hok. destruct Hat as (l1 & l2 & Hl & -> & Ha).
  set (count := saturating_add 8 (failures (nd_availability node)) 1).
  destruct (retry_delay_spec (nd_config node) count) as (delay & -> & _); [apply Hok..|].
  set (availability := if nc_retry_attempt_limit (nd_config node) <? count
                       then NodeOffline Unresponsive count else RetryBackoff count).
  assert (is_some (recovery_cause availability) = false) as Hc by (unfold availability; by case_match).
  assert (is_some (recovery_cause (nd_availability node)) = false /\ nd_in_flight node = true) as [Hc' Hf].
  { unfold node_dispatch in Hd. destruct (nd_in_flight node); [|done]. by destruct (is_some _). }
  rewrite (put_node_at _ l1 l2 node) by done. unfold monotonic_checked_add.
  destruct (checked_add 64 now delay) as [ready|]; cbn [ok_or].
  - erewrite put_node_at by done. cbv [modify].
    refine (step_node _ _ r l1 l2 node _ None (Ok tt) Hr Hl _ _ _ _ _); try done; [by destruct Hok; split|by left|].
    rewrite Hd. by apply change_settle.
  - refine (step_node _ _ r l1 l2 node _ (rt_active_dispatch r) (Err RuntimeTimeOverflow) Hr Hl _ _ _ _ _);
      try done; [by destruct Hok; split|by left|].
    unfold node_dispatch, measurement_of. cbn [nd_in_flight nd_availability nd_config nd_work_id handed settled].
    rewrite Hc, Hc'. apply change_keep.
Qed.

Lemma fail_recovery_ok (r : ChannelRuntime) d now :
  runtime_inv r -> step_ok none_handed (Some (DispatchRecovery d)) r (fail_recovery d now r).
Proof.
  intros Hr. unfold fail_recovery. cbv [mbind st_bind lift].
  destruct (active_recovery_spec d r) as [(i & node & -> & Hat & Hact & Hd)|(e & -> & He)]; [|step_refused].
  pose proof (node_at_ok r _ i node Hr Hat) as Hok. destruct Hat as (l1 & l2 & Hl & -> & Ha).
  destruct (recovery_cause (nd_availability node)) as [cause|] eqn:Hcause; cbn [ok_or]; [|by apply step_same].
  set (count := saturating_add 8 (failures (nd_availability node)) 1).
  destruct (retry_delay_spec (nd_config node) count) as (delay & -> & _); [apply Hok..|].
  set (availability := if nc_retry_attempt_limit (nd_config node) <? count
                       then NodeOffline (OfflineRecovery cause) count else Recovering cause count).
  assert (is_some (recovery_cause availability) = true) as Hc by (unfold availability; by case_match).
  rewrite (put_node_at _ l1 l2 node) by done. unfold monotonic_checked_add.
  destruct (checked_add 64 now delay) as [ready|]; cbn [ok_or].
  - erewrite put_node_at by done. cbv [modify].
    refine (step_node _ _ r l1 l2 node _ None (Ok tt) Hr Hl _ _ _ _ _); try done; [by destruct Hok; split|by left|].
    rewrite (Hd eq_refl). by apply change_settle.
  - refine (step_node _ _ r l1 l2 node _ (rt_active_dispatch r) (Err RuntimeTimeOverflow) Hr Hl _ _ _ _ _);
      try done; [by destruct Hok; split|by left|].
    unfold node_dispatch. cbn [nd_in_flight nd_availability nd_config nd_work_id handed settled].
    rewrite Hc, Hcause. apply change_keep.
Qed.

(** *** Periodic services *)

Lemma complete_periodic_ok (s : PeriodicService) (r : ChannelRuntime) d now :
  runtime_inv r -> step_ok none_handed (Some (periodic_dispatch s d)) r (complete_periodic s d now r).
Proof.
  intros Hr. unfold complete_periodic. cbv [mbind st_bind lift].
  destruct (active_periodic_spec s d r) as [(i & state & -> & Hat & Hact & Hd)|(e & -> & He)]; [|step_refused].
  destruct Hat as (l1 & l2 & Hl & ->). unfold monotonic_checked_add.
  destruct (checked_add 64 now _) as [deadline|]; cbn [ok_or]; [|by apply step_same].
  destruct (allocate_spec r Hr) as ([id|e|] & n & -> & Hn & Hx); [| |done].
  - erewrite put_periodic_at by (destruct s; exact Hl). cbv [modify]. apply (step_next _ _ _ n).
    assert (periodic s (set_next_work_id n r) = l1 ++ state :: l2) as Hl' by (by destruct s).
    refine (step_periodic _ _ s (set_next_work_id n r) l1 l2 state
      (mkPeriodicState (ps_node_address state) (ps_config state) deadline now now id false)
      None (Ok tt) _ Hl' eq_refl (or_intror Hx) _ _); [by apply inv_next|done|]. rewrite Hd. by apply change_settle.
  - apply (step_next _ _ _ n). subst e. apply step_same; [by apply inv_next|by split|done|done].
Qed.

Lemma fail_periodic_ok (s : PeriodicService) (r : ChannelRuntime) d now :
  runtime_inv r -> step_ok none_handed (Some (periodic_dispatch s d)) r (fail_periodic s d now r).
Proof.
  intros Hr. unfold fail_periodic. cbv [mbind st_bind lift].
  destruct (active_periodic_spec s d r) as [(i & state & -> & Hat & Hact & Hd)|(e & -> & He)]; [|step_refused].
  destruct Hat as (l1 & l2 & Hl & ->). unfold monotonic_checked_add.
  destruct (checked_add 64 now _) as [ready|]; cbn [ok_or]; [|by apply step_same].
  erewrite put_periodic_at by done. cbv [modify].
  eapply step_periodic; try done; [by left|]. rewrite Hd. by apply change_settle.
Qed.

Lemma cancel_periodic_ok (s : PeriodicService) (r : ChannelRuntime) d :
  runtime_inv r -> step_ok none_handed (Some (periodic_dispatch s d)) r (cancel_periodic s d r).
Proof.
  intros Hr. unfold cancel_periodic. cbv [mbind st_bind lift].
  destruct (active_periodic_spec s d r) as [(i & state & -> & Hat & Hact & Hd)|(e & -> & He)]; [|step_refused].
  destruct Hat as (l1 & l2 & Hl & ->).
  erewrite put_periodic_at by done. cbv [modify].
  eapply step_periodic; try done; [by left|]. rewrite Hd. by apply change_settle.
Qed.

Lemma set_active_periodic (s : PeriodicService) x (r : ChannelRuntime) :
  set_active_dispatch (rt_active_dispatch r) (set_periodic s x r) = set_periodic s x r.
Proof. by destruct s. Qed.

Lemma reconfigure_telemetry_ok (r : ChannelRuntime) address config now :
  runtime_inv r -> step_ok none_handed None r (reconfigure_telemetry address config now r).
Proof.
  intros Hr. unfold reconfigure_telemetry, periodic_validate.
  destruct (pc_interval config <? pc_estimated_slot config); [by apply step_same|].
  cbv [mbind st_bind lift get].
  destruct (position _ _) as [[i state]|] eqn:Hp; cbn [ok_or]; [|by apply step_same].
  destruct (position_split _ _ _ _ Hp) as (l1 & l2 & Hl & <- & Ha).
  rewrite (put_periodic_at _ _ l1 l2 state) by done. unfold monotonic_checked_add.
  assert (forall state' x, ps_node_address state' = ps_node_address state -> ps_work_id state' = ps_work_id state ->
    ps_in_flight state' = ps_in_flight state -> sound x -> settled None x = [] -> handed none_handed x = [] ->
    step_ok none_handed None r (x, set_periodic TelemetryService (l1 ++ state' :: l2) r)) as Hstep.
  { intros state' x H1 H2 H3 Hx Hs Hh. rewrite <- set_active_periodic.
    refine (step_periodic _ _ TelemetryService r l1 l2 state state' _ x Hr Hl H1 (or_introl H2) Hx _).
    unfold state_dispatch. rewrite H1, H2, H3, Hs, Hh. apply change_keep. }
  destruct (ps_in_flight state) eqn:Hf; [by apply Hstep|].
  destruct (checked_add 64 now _) as [deadline|]; cbn [ok_or]; [|by apply Hstep].
  erewrite put_periodic_at by done. by apply Hstep.
Qed.

(** *** Registration *)

(** Appending a node or a service that is not in flight. *)
Lemma inv_appended (r r' : ChannelRuntime) :
  runtime_inv r -> Forall node_ok (rt_nodes r') -> NoDup (node_address <$> rt_nodes r') ->
  NoDup (ps_node_address <$> rt_time_sync r') -> NoDup (ps_node_address <$> rt_telemetry r') ->
  u64 (rt_next_work_id r') -> rt_active_dispatch r' = rt_active_dispatch r ->
  (exists id, fresh_work_id id r /\ work_ids r' ≡ₚ id :: work_ids r) ->
  outstanding r' = outstanding r -> runtime_inv r'.
Proof.
  intros [_ _ _ _ Hids Hrange _ Hact Hpark] H1 H2 H3 H4 H5 H6 (id & [Hid Hr] & Hp) Hout.
  split; try done; rewrite ?Hp, ?H6, ?Hout; try done.
  - by constructor.
  - by constructor.
Qed.

Lemma existsb_address_false {X : Type} (g : X -> Z) (a : Z) (l : list X) :
  existsb (fun x => g x =? a) l = false -> a ∉ (g <$> l).
Proof.
  intros H Hin. apply list_elem_of_fmap in Hin as (x & -> & Hx).
  assert (existsb (fun y => g y =? g x) l = true); [|congruence].
  apply existsb_exists. exists x. split; [by apply list_elem_of_In|by rewrite Z.eqb_refl].
Qed.

Lemma NoDup_snoc {X : Type} (l : list X) (x : X) : NoDup l -> x ∉ l -> NoDup (l ++ [x]).
Proof. intros Hl Hx. apply list.NoDup_app. split_and!; [done|by intros y Hy ->%list_elem_of_singleton|apply NoDup_singleton]. Qed.

Lemma node_config_validate_Ok (config config' : NodeScheduleConfig) :
  node_config_validate config = Ok config' -> config' = config.
Proof. unfold node_config_validate. intros H. run_in H. done. Qed.

Definition config_error (e : ChannelRuntimeError) : bool :=
  match e with
  | RuntimeInvalidNodeAddress _ | ZeroJournalCapacity | InvalidChunkSize | InvalidTargetChunkSize
  | SlotExceedsServiceInterval | InvalidRetryDelays | ZeroRetryLimit => true
  | _ => false
  end.

Lemma node_config_validate_cases (config : NodeScheduleConfig) :
  node_config_validate config = Ok config \/
  exists e, node_config_validate config = Err e /\ config_error e = true.
Proof. unfold node_config_validate. repeat case_match; eauto. Qed.

Lemma config_error_step {A : Type} (f : A -> list ChannelDispatch) d r e :
  runtime_inv r -> config_error e = true -> step_ok f d r (Err e : runtime_out A, r).
Proof. intros Hr He. apply step_same; [done|split; [done|by intros [= ->]]|done|by destruct e]. Qed.

Lemma register_node_ok (r : ChannelRuntime) config recovered now :
  runtime_inv r -> typed config -> u64 recovered -> u64 now ->
  step_ok none_handed None r (register_node config recovered now r).
Proof.
  intros Hr Ht H1 H2. unfold register_node. cbv [mbind st_bind lift get].
  destruct (node_config_validate_cases config) as [Hv|(e & -> & He)]; [|by apply config_error_step].
  rewrite Hv. destruct (rt_max_nodes r <=? length (rt_nodes r))%nat; [by apply step_same|].
  destruct (existsb _ _) eqn:He; [by apply step_same|].
  destruct (allocate_spec r Hr) as ([id|e|] & n & -> & Hn & Hx); [| |done].
  2: { apply (step_next _ _ _ n). subst e. apply step_same; [by apply inv_next|by split|done|done]. }
  cbv [modify]. cbn [rt_nodes set_next_work_id]. set (r' := set_nodes _ _).
  assert (outstanding r' = outstanding r) as Hout.
  { unfold r', outstanding. cbn [set_nodes set_next_work_id rt_nodes rt_time_sync rt_telemetry].
    rewrite omap_app. cbn. by rewrite app_nil_r. }
  split_and!; [by split| |by cbn [fst snd handed settled option_list app]; rewrite Hout, app_nil_r].
  apply (inv_appended r r'); try done; [| |by apply Hr..|].
  - apply Forall_app_2; [apply Hr|]. constructor; [by split|constructor].
  - unfold r'. cbn [set_nodes rt_nodes]. rewrite fmap_app. apply NoDup_snoc; [apply Hr|].
    by apply existsb_address_false in He.
  - exists id. split; [done|]. unfold r', work_ids. cbn [set_nodes set_next_work_id rt_nodes rt_time_sync rt_telemetry].
    rewrite fmap_app. cbn [fmap list_fmap nd_work_id]. solve_Permutation.
Qed.

Lemma reconfigure_node_ok (r : ChannelRuntime) config now :
  runtime_inv r -> typed config -> u64 now -> step_ok none_handed None r (reconfigure_node config now r).
Proof.
  intros Hr Ht Hnow. unfold reconfigure_node. cbv [mbind st_bind lift get].
  destruct (node_config_validate_cases config) as [Hv|(e & -> & He)]; [|by apply config_error_step].
  rewrite Hv. destruct (rt_active_dispatch r) eqn:Hact; [by apply step_same|]. cbn [is_some].
  destruct (find_node_spec (nc_node_address config) r) as [(i & node & -> & Hat)| ->]; [|by apply step_same].
  pose proof (node_at_ok r _ i node Hr Hat) as Hok. destruct Hat as (l1 & l2 & Hl & -> & Ha).
  destruct (nd_in_flight node) eqn:Hf; [by apply step_same|]. cbn [orb].
  destruct (is_some (recovery_cause (nd_availability node))); [by apply step_same|].
  rewrite (put_node_at _ l1 l2 node) by done.
  refine (step_node _ _ r l1 l2 node (mkNode config (nd_received node) (nd_observed_produced node) now now now now
      (nd_availability node) (nd_work_id node) false) (rt_active_dispatch r) (Ok tt) Hr Hl _ _ _ _ _);
    [by rewrite Ha|by destruct Hok; split|by left|done|].
  unfold node_dispatch. rewrite Hf. apply change_keep.
Qed.

Lemma configure_periodic_ok (s : PeriodicService) (r : ChannelRuntime) address config deadline :
  runtime_inv r -> step_ok none_handed None r (configure_periodic s address config deadline r).
Proof.
  intros Hr. unfold configure_periodic, periodic_validate.
  destruct (pc_interval config <? pc_estimated_slot config); [destruct s; by apply step_same|].
  cbv [mbind st_bind lift get].
  destruct (find_node_spec address r) as [(i & node & -> & Hat)| ->]; [|by apply step_same]. cbn [snd].
  destruct (is_some (recovery_cause (nd_availability node))); [by apply step_same|].
  destruct (existsb _ _) eqn:He; [destruct s; by apply step_same|].
  destruct (allocate_spec r Hr) as ([id|e|] & n & -> & Hn & Hx); [| |done].
  2: { apply (step_next _ _ _ n). subst e. apply step_same; [by apply inv_next|by split|done|done]. }
  cbv [modify]. set (state := mkPeriodicState _ _ _ _ _ _ _). set (r' := set_periodic _ _ _).
  apply existsb_address_false in He.
  assert (outstanding r' = outstanding r) as Hout.
  { unfold r', outstanding. destruct s; cbn [set_periodic periodic set_next_work_id rt_nodes rt_time_sync rt_telemetry];
    rewrite omap_app; cbn; by rewrite ?app_nil_r. }
  assert (work_ids r' ≡ₚ id :: work_ids r) as Hids.
  { unfold r', work_ids. destruct s; cbn [set_periodic periodic set_next_work_id rt_nodes rt_time_sync rt_telemetry];
    rewrite fmap_app; cbn [fmap list_fmap ps_work_id state]; solve_Permutation. }
  split_and!; [by split| |by cbn [fst snd handed settled option_list app]; rewrite Hout, app_nil_r].
  pose proof Hr as [Hn1 Hn2 Hts Htel _ _ _ _ _].
  apply (inv_appended r r'); [done|by destruct s|by destruct s| | |by destruct s|by destruct s|by exists id|done].
  - destruct s; [|done]. unfold r'. cbn [set_periodic periodic rt_time_sync set_next_work_id].
    rewrite fmap_app. by apply NoDup_snoc.
  - destruct s; [done|]. unfold r'. cbn [set_periodic periodic rt_telemetry set_next_work_id].
    rewrite fmap_app. by apply NoDup_snoc.
Qed.

(** *** Selection *)

(** Samples are produced at the configured rate; [ceil] of the nanosample count. *)
Definition samples_in (rate micros : Z) : Z := - ((- (rate * micros)) / NANO_HERTZ_MICROS_PER_SAMPLE).

Lemma samples_in_spec (rate micros n : Z) :
  samples_in rate micros <= n <-> rate * micros <= n * NANO_HERTZ_MICROS_PER_SAMPLE.
Proof.
  unfold samples_in. assert (0 < NANO_HERTZ_MICROS_PER_SAMPLE) by done.
  pose proof (Z.div_mod (- (rate * micros)) NANO_HERTZ_MICROS_PER_SAMPLE ltac:(lia)).
  pose proof (Z.mod_pos_bound (- (rate * micros)) NANO_HERTZ_MICROS_PER_SAMPLE ltac:(lia)). nia.
Qed.

Lemma div_ceil_128_spec (rate micros : Z) :
  u64 rate -> u64 micros ->
  div_ceil_128 (rate * micros) NANO_HERTZ_MICROS_PER_SAMPLE = Ok (samples_in rate micros) /\
  0 <= samples_in rate micros <= rate * micros.
Proof.
  intros Hr Hm. assert (0 <= rate * micros <= (2 ^ 64 - 1) * (2 ^ 64 - 1)) as Hb by (unfold unsigned in *; nia).
  set (x := rate * micros) in *.
  pose proof (Z.div_mod x NANO_HERTZ_MICROS_PER_SAMPLE ltac:(done)) as Hdm.
  pose proof (Z.mod_pos_bound x NANO_HERTZ_MICROS_PER_SAMPLE ltac:(done)) as Hmod.
  assert (samples_in rate micros = x / NANO_HERTZ_MICROS_PER_SAMPLE +
    (if x mod NANO_HERTZ_MICROS_PER_SAMPLE =? 0 then 0 else 1)) as Hs.
  { unfold samples_in. fold x. destruct (Z.eqb_spec (x mod NANO_HERTZ_MICROS_PER_SAMPLE) 0) as [Hz|Hz].
    - rewrite Z.div_opp_l_z by done. lia.
    - rewrite Z.div_opp_l_nz by done. lia. }
  unfold NANO_HERTZ_MICROS_PER_SAMPLE in *.
  unfold div_ceil_128. rewrite Hs. cbn [Z.eqb].
  destruct (Z.eqb_spec (x mod 1000000000000000) 0); (split; [apply add_ok|]);
    change (2 ^ 128) with 340282366920938463463374607431768211456; change (2 ^ 64) with 18446744073709551616 in *; lia.
Qed.

Definition node_backlog (node : NodeScheduleState) (now : Z) : Z :=
  Z.max (nd_observed_produced node + samples_in (nc_output_rate (nd_config node)) (now - nd_observed_at node)
         - nd_received node) 0.

Lemma overflow_spec (node : NodeScheduleState) (now : Z) :
  node_ok node -> u64 now ->
  node_time_to_overflow_us node now =
    if now <? nd_observed_at node then Err ClockRegressed
    else Ok (Z.min (Z.max (nc_journal_capacity_samples (nd_config node) - node_backlog node now) 0
                    * NANO_HERTZ_MICROS_PER_SAMPLE / nc_output_rate (nd_config node)) U64_MAX).
Proof.
  intros [(_ & (Hr1 & Hr2) & Hcap & _) _ Hrec Hprod Hobs] Hnow. unfold node_time_to_overflow_us.
  destruct (Z.ltb_spec now (nd_observed_at node)).
  { unfold checked_sub. by destruct (Z.leb_spec (nd_observed_at node) now); [lia|]. }
  rewrite checked_sub_ok by done. cbn [ok_or mbind outcome_bind].
  assert (u64 (now - nd_observed_at node)) as He by ilia.
  set (rate := nc_output_rate (nd_config node)) in *. set (elapsed := now - nd_observed_at node) in *.
  destruct (div_ceil_128_spec rate elapsed Hr1 He) as [Hdiv Hs].
  assert (rate * elapsed <= (2 ^ 64 - 1) * (2 ^ 64 - 1)) as Hb by (unfold unsigned in *; nia).
  unfold mul_128, checked_mul. rewrite (proj2 (Z.ltb_lt _ _)) by (change (2 ^ 128) with (2 ^ 64 * 2 ^ 64); ilia).
  cbn [expect mbind outcome_bind]. rewrite Hdiv. cbn [mbind outcome_bind].
  unfold div_128. rewrite (proj2 (Z.eqb_neq _ _) Hr2). cbn [mbind outcome_bind].
  unfold node_backlog. fold rate elapsed. set (produced := samples_in rate elapsed) in *.
  set (capacity := nc_journal_capacity_samples (nd_config node)) in *.
  f_equal. unfold clamp_u64, saturating_mul, saturating_sub, saturating_add, NANO_HERTZ_MICROS_PER_SAMPLE in *.
  set (free := Z.max (capacity - _) 0).
  assert (free = Z.max (capacity - Z.max (nd_observed_produced node + produced - nd_received node) 0) 0) as <-.
  { unfold free. change (2 ^ 128) with (2 ^ 64 * 2 ^ 64). ilia. }
  rewrite Z.min_l by (change (2 ^ 128 - 1) with 340282366920938463463374607431768211455; unfold free; ilia).
  destruct (Z.leb_spec (free * 1000000000000000 / rate) U64_MAX); lia.
Qed.

Definition node_source (c : WorkCandidate) (node : NodeScheduleState) : Prop :=
  nd_in_flight node = false /\ work_id c = nd_work_id node /\
  work_class c = if is_some (recovery_cause (nd_availability node)) then TControl else TMeasurement.

Lemma node_candidate_spec (node : NodeScheduleState) (now : Z) :
  node_ok node -> u64 now ->
  node_candidate node now = Err ClockRegressed \/
  (node_candidate node now = Ok None /\ nd_in_flight node = true) \/
  exists c, node_candidate node now = Ok (Some c) /\ node_source c node.
Proof.
  intros Hok Hnow. unfold node_candidate, node_source.
  destruct (nd_in_flight node); [by right; left|].
  destruct (is_some (recovery_cause (nd_availability node))); [by right; right; eexists|].
  rewrite overflow_spec by done. destruct (now <? nd_observed_at node); [by left|].
  right; right. by eexists.
Qed.

Lemma node_candidates_spec (now : Z) (nodes : list NodeScheduleState) :
  Forall node_ok nodes -> u64 now ->
  node_candidates now nodes = Err ClockRegressed \/
  exists l, node_candidates now nodes = Ok l /\
    (forall c, c ∈ l -> exists node, node ∈ nodes /\ node_source c node).
Proof.
  intros Hn Hnow. induction Hn as [|node nodes Hok Hn IH]; cbn [node_candidates].
  { right. exists []. split; [done|]. by intros c ?%not_elem_of_nil. }
  destruct (node_candidate_spec node now Hok Hnow) as [-> |[[-> _]|(c & -> & Hc)]]; [by left|..];
    cbn [mbind outcome_bind]; (destruct IH as [->|(l & -> & Hl)]; [by left|right; eexists; split; [done|]]).
  - intros c Hc. destruct (Hl c Hc) as (x & Hx & ?). exists x. split; [by right|done].
  - intros c' [->|Hc']%elem_of_cons.
    + exists node. split; [by left|done].
    + destruct (Hl c' Hc') as (x & Hx & ?). exists x. split; [by right|done].
Qed.

Lemma periodic_candidates_spec (s : PeriodicService) (r : ChannelRuntime) c :
  c ∈ periodic_candidates s r ->
  exists state, state ∈ periodic s r /\ periodic_candidate s state = Some c.
Proof.
  unfold periodic_candidates. intros (state & Hin & Hc)%list_elem_of_omap.
  exists state. split; [done|]. by destruct (existsb _ _).
Qed.

Lemma position_of {X : Type} (g : X -> Z) (l : list X) (x : X) :
  NoDup (g <$> l) -> x ∈ l ->
  exists l1 l2, l = l1 ++ x :: l2 /\ position (fun y => g y =? g x) l = Some (length l1, x).
Proof.
  intros Hn (l1 & l2 & ->)%list_elem_of_split. exists l1, l2. split; [done|].
  apply position_unique; [by apply Z.eqb_refl|]. apply List.Forall_forall. intros y Hy%list_elem_of_In.
  apply Z.eqb_neq. intros Heq. rewrite fmap_app, fmap_cons in Hn.
  apply list.NoDup_app in Hn as (_ & Hn & _). apply (Hn (g y)); [by apply list_elem_of_fmap_2|].
  rewrite Heq. by left.
Qed.

(** Handing out the dispatch of a node or a service that is not in flight. *)
Lemma dispatch_node_step {A : Type} (f : A -> list ChannelDispatch) (a : A) (r : ChannelRuntime) l1 l2 node d :
  runtime_inv r -> rt_active_dispatch r = None -> rt_nodes r = l1 ++ node :: l2 ->
  nd_in_flight node = false -> node_dispatch (node_in_flight true node) = Some d -> f a = [d] ->
  step_ok f None r (Ok a, set_active_dispatch (Some d) (set_nodes (l1 ++ node_in_flight true node :: l2) r)).
Proof.
  intros Hr Hact Hl Hf Hd Ha.
  refine (step_node f None r l1 l2 node _ (Some d) (Ok a) Hr Hl _ _ _ _ _); [done| |by left|by split|].
  - destruct (node_at_ok r (node_address node) (length l1) node Hr ltac:(by exists l1, l2)). by split.
  - cbn [handed settled option_list]. rewrite Ha, Hd, Hact. unfold node_dispatch at 1. rewrite Hf. by apply change_hand.
Qed.

Lemma dispatch_selected_ok (r : ChannelRuntime) (c : WorkCandidate) (i : nat) :
  runtime_inv r -> rt_active_dispatch r = None ->
  ((exists node, node ∈ rt_nodes r /\ node_source c node) \/
   (exists s state, state ∈ periodic s r /\ periodic_candidate s state = Some c)) ->
  exists d r', dispatch_selected (mkScheduled i (work_id c) (work_node_address c) (work_class c)) r = (Ok d, r') /\
    step_ok (fun x => option_list x) None r (Ok (Some d), set_active_dispatch (Some d) r').
Proof.
  intros Hr Hact [(node & Hin & Hf & Hid & Hclass)|(s & state & Hin & Hc)].
  - destruct (position_of nd_work_id (rt_nodes r) node (node_ids_NoDup r Hr) Hin) as (l1 & l2 & Hl & Hp).
    unfold dispatch_selected, find_work, with_work_id. cbn [scheduled_class scheduled_work_id].
    rewrite Hclass, Hid. cbv [mbind st_bind get lift].
    destruct (is_some (recovery_cause (nd_availability node))) eqn:Hcause; rewrite Hp; cbn [ok_or];
      try rewrite Hcause; cbn [negb]; rewrite (put_node_at _ l1 l2 node) by done.
    all: eexists _, _; split; [reflexivity|].
    all: apply dispatch_node_step; try done; unfold node_dispatch; cbn [node_in_flight nd_in_flight nd_availability];
      by rewrite Hcause.
  - unfold periodic_candidate in Hc. destruct (ps_in_flight state) eqn:Hf; [done|]. injection Hc as <-.
    cbn [work_id work_node_address work_class].
    assert (NoDup (ps_work_id <$> periodic s r)) as Hn.
    { pose proof (ri_ids r Hr) as Hn. unfold work_ids in Hn.
      apply list.NoDup_app in Hn as (_ & _ & Hn). apply list.NoDup_app in Hn as (? & _ & ?). by destruct s. }
    destruct (position_of ps_work_id (periodic s r) state Hn Hin) as (l1 & l2 & Hl & Hp).
    assert (dispatch_selected (mkScheduled i (ps_work_id state) (ps_node_address state) (periodic_class s)) r =
      (Ok (periodic_dispatch s (mkServiceDispatch (ps_work_id state) (ps_node_address state))),
       set_periodic s (l1 ++ periodic_in_flight true state :: l2) r)) as ->.
    { unfold dispatch_selected, periodic_class. destruct s; cbn [scheduled_class scheduled_work_id];
        unfold dispatch_periodic, periodic_with_work_id; cbv [mbind st_bind get lift]; rewrite Hp; cbn [ok_or];
        by rewrite (put_periodic_at _ _ l1 l2 state). }
    eexists _, _. split; [done|].
    refine (step_periodic _ None s r l1 l2 state _ _ _ Hr Hl _ _ _ _); [done|by left|by split|].
    rewrite Hact. unfold state_dispatch. rewrite Hf. by apply change_hand.
Qed.

Lemma select_cases (r : ChannelRuntime) (now : Z) (l : list WorkCandidate) :
  select (rt_scheduler r) (select_context now r) l = Ok None \/
  (exists i c, select (rt_scheduler r) (select_context now r) l =
     Ok (Some (mkScheduled i (work_id c) (work_node_address c) (work_class c))) /\ c ∈ l) \/
  exists e, select (rt_scheduler r) (select_context now r) l = Err e.
Proof.
  pose proof (select_spec (rt_scheduler r) (select_context now r) l) as H.
  destruct (select (rt_scheduler r) (select_context now r) l) as [[w|]|e|]; [|by left|by eauto|done].
  destruct H as (_ & c & _ & Hc & Hw & _). right; left. exists (candidate_index w), c. rewrite Hw at 1.
  split; [done|]. by eapply list_elem_of_lookup_2.
Qed.

Lemma select_work_ok (r : ChannelRuntime) (now : Z) :
  runtime_inv r -> u64 now -> step_ok (fun x => option_list x) None r (select_work now r).
Proof.
  intros Hr Hnow. unfold select_work. rewrite st_bind_get.
  destruct (rt_active_dispatch r) as [a|] eqn:Hact; [by apply step_same|]. cbn [is_some].
  destruct (node_candidates_spec now (rt_nodes r) (ri_nodes r Hr) Hnow) as [->|(l & -> & Hl)]; [by apply step_same|].
  rewrite st_bind_lift_Ok.
  set (l' := l ++ _). destruct (select_cases r now l') as [-> |[(i & c & -> & Hc)|(e & ->)]];
    [by apply step_same| |by apply step_same].
  cbn [map_err]. rewrite st_bind_lift_Ok. unfold l' in Hc.
  destruct (dispatch_selected_ok r c i Hr Hact) as (d & r' & Hd & Hstep).
  - rewrite !elem_of_app in Hc.
    destruct Hc as [Hc|[Hc|Hc]]; [left; by apply Hl|right; eauto using periodic_candidates_spec..].
  - cbv [mbind st_bind modify]. by rewrite Hd.
Qed.

Definition measurement_list (d : option MeasurementDispatch) : list ChannelDispatch :=
  option_list (DispatchMeasurement <$> d).

Lemma select_measurement_ok (r : ChannelRuntime) (now : Z) :
  runtime_inv r -> u64 now -> step_ok measurement_list None r (select_measurement now r).
Proof.
  intros Hr Hnow. unfold select_measurement. rewrite st_bind_get.
  destruct (negb _); [by apply step_same|].
  destruct (rt_active_dispatch r) as [a|] eqn:Hact; [by apply step_same|]. cbn [is_some].
  destruct (node_candidates_spec now (rt_nodes r) (ri_nodes r Hr) Hnow) as [->|(l & -> & Hl)]; [by apply step_same|].
  rewrite st_bind_lift_Ok.
  destruct (select_cases r now l) as [-> |[(i & c & -> & Hc)|(e & ->)]]; [by apply step_same| |by apply step_same].
  cbn [map_err scheduled_class scheduled_work_id]. rewrite st_bind_lift_Ok. cbn [scheduled_class scheduled_work_id].
  case_bool_decide as Hclass; cbn [negb]; [|by apply step_same].
  destruct (Hl c Hc) as (node & Hin & Hf & Hid & Hk). rewrite Hclass in Hk.
  destruct (is_some (recovery_cause (nd_availability node))) eqn:Hcause; [done|].
  destruct (position_of nd_work_id (rt_nodes r) node (node_ids_NoDup r Hr) Hin) as (l1 & l2 & Hnodes & Hp).
  unfold find_work, with_work_id. cbv [mbind st_bind get lift]. rewrite Hid, Hp. cbn [ok_or]. rewrite Hf.
  rewrite (put_node_at _ l1 l2 node) by done. cbv [modify mret st_ret].
  apply dispatch_node_step; try done. unfold node_dispatch. cbn [node_in_flight nd_in_flight nd_availability].
  by rewrite Hcause.
Qed.

Lemma select_shutdown_ok (r : ChannelRuntime) address (now : Z) :
  runtime_inv r -> step_ok measurement_list None r (select_shutdown_measurement address now r).
Proof.
  intros Hr. unfold select_shutdown_measurement. rewrite st_bind_get.
  destruct (rt_active_dispatch r) as [a|] eqn:Hact; [by apply step_same|]. cbn [is_some].
  cbv [mbind st_bind]. destruct (find_node_spec address r) as [(i & node & -> & Hat)| ->]; [|by apply step_same].
  destruct Hat as (l1 & l2 & Hl & -> & Ha).
  destruct (is_some (recovery_cause (nd_availability node))) eqn:Hcause; [by apply step_same|].
  destruct (nd_in_flight node) eqn:Hf; [by apply step_same|]. destruct (_ && _); [by apply step_same|].
  rewrite (put_node_at _ l1 l2 node) by done. cbv [modify mret st_ret].
  apply dispatch_node_step; try done. unfold node_dispatch, measurement_of, node_address in *.
  cbn [node_in_flight nd_in_flight nd_availability nd_work_id nd_config]. by rewrite Hcause, Ha.
Qed.

(** ** Histories *)

Inductive runtime_call :=
| RegisterNode (config : NodeScheduleConfig) (recovered_cursor : SequenceCursor) (now : MonotonicMicros)
| ReconfigureNode (config : NodeScheduleConfig) (now : MonotonicMicros)
| ConfigurePeriodic (s : PeriodicService) (address : Z) (config : PeriodicConfig) (deadline : MonotonicMicros)
| ReconfigureTelemetry (address : Z) (config : PeriodicConfig) (now : MonotonicMicros)
| SelectWork (now : MonotonicMicros)
| SelectMeasurement (now : MonotonicMicros)
| SelectShutdownMeasurement (address : Z) (now : MonotonicMicros)
| CompleteMeasurement (d : MeasurementDispatch) (progress : MeasurementProgress) (now : MonotonicMicros)
| ParkMeasurement (d : MeasurementDispatch)
| CompleteParked (d : MeasurementDispatch) (progress : MeasurementProgress) (now : MonotonicMicros)
| RequireRecovery (d : MeasurementDispatch) (cause : RecoveryCause) (now : MonotonicMicros)
| FailMeasurement (d : MeasurementDispatch) (now : MonotonicMicros)
| CancelMeasurement (d : MeasurementDispatch)
| CompleteRecovery (d : ServiceDispatch) (recovered observed_produced : SequenceCursor) (now : MonotonicMicros)
| FailRecovery (d : ServiceDispatch) (now : MonotonicMicros)
| RecoverNode (address : Z) (recovered : SequenceCursor) (now : MonotonicMicros)
| ResumeNode (address : Z) (recovered observed_produced : SequenceCursor) (now : MonotonicMicros)
| ReplaceQuiescedNode (address : Z) (recovered observed_produced : SequenceCursor) (now : MonotonicMicros)
| CompletePeriodic (s : PeriodicService) (d : ServiceDispatch) (now : MonotonicMicros)
| FailPeriodic (s : PeriodicService) (d : ServiceDispatch) (now : MonotonicMicros)
| CancelPeriodic (s : PeriodicService) (d : ServiceDispatch).

(** A call and the dispatch it hands out. *)
Definition quiet (m : runtime unit) : runtime (option ChannelDispatch) := _ ← m; mret None.
Definition measured (m : runtime (option MeasurementDispatch)) : runtime (option ChannelDispatch) :=
  d ← m; mret (DispatchMeasurement <$> d).

Definition runtime_step (call : runtime_call) : runtime (option ChannelDispatch) :=
  match call with
  | RegisterNode config recovered now => quiet (register_node config recovered now)
  | ReconfigureNode config now => quiet (reconfigure_node config now)
  | ConfigurePeriodic s address config deadline => quiet (configure_periodic s address config deadline)
  | ReconfigureTelemetry address config now => quiet (reconfigure_telemetry address config now)
  | SelectWork now => select_work now
  | SelectMeasurement now => measured (select_measurement now)
  | SelectShutdownMeasurement address now => measured (select_shutdown_measurement address now)
  | CompleteMeasurement d progress now => quiet (complete_measurement d progress now)
  | ParkMeasurement d => quiet (park_measurement d)
  | CompleteParked d progress now => quiet (complete_parked_measurement d progress now)
  | RequireRecovery d cause now => quiet (require_recovery d cause now)
  | FailMeasurement d now => quiet (fail_measurement d now)
  | CancelMeasurement d => quiet (cancel_measurement d)
  | CompleteRecovery d recovered produced now => quiet (complete_recovery d recovered produced now)
  | FailRecovery d now => quiet (fail_recovery d now)
  | RecoverNode address recovered now => quiet (recover_node address recovered now)
  | ResumeNode address recovered produced now => quiet (resume_node address recovered produced now)
  | ReplaceQuiescedNode address recovered produced now =>
      quiet (replace_quiesced_node address recovered produced now)
  | CompletePeriodic s d now => quiet (complete_periodic s d now)
  | FailPeriodic s d now => quiet (fail_periodic s d now)
  | CancelPeriodic s d => quiet (cancel_periodic s d)
  end.

(** The dispatch a call takes back when it succeeds. *)
Definition settles (call : runtime_call) : option ChannelDispatch :=
  match call with
  | CompleteMeasurement d _ _ | CompleteParked d _ _ | RequireRecovery d _ _ | FailMeasurement d _
  | CancelMeasurement d => Some (DispatchMeasurement d)
  | CompleteRecovery d _ _ _ | FailRecovery d _ => Some (DispatchRecovery d)
  | CompletePeriodic s d _ | FailPeriodic s d _ | CancelPeriodic s d => Some (periodic_dispatch s d)
  | _ => None
  end.

(** What the callers respect: the types of the arguments; a measurement
    completed after parking is no longer current and its work id was not
    reissued for a recovery; [recover_node], which clears the current dispatch
    unconditionally, is called while there is none; a node is resumed or replaced
    only while it is at rest. *)
Definition runtime_allowed (call : runtime_call) (r : ChannelRuntime) : Prop :=
  match call with
  | RegisterNode config recovered now => typed config /\ u64 recovered /\ u64 now
  | ReconfigureNode config now => typed config /\ u64 now
  | SelectWork now | SelectMeasurement now | RequireRecovery _ _ now => u64 now
  | CompleteMeasurement _ progress now => typed progress /\ u64 now
  | CompleteParked d progress now =>
      typed progress /\ u64 now /\ rt_active_dispatch r <> Some (DispatchMeasurement d) /\
      (DispatchRecovery (mkServiceDispatch (md_work_id d) (md_node_address d)) ∉ outstanding r)
  | CompleteRecovery _ recovered produced now => u64 recovered /\ u64 produced /\ u64 now
  | RecoverNode _ recovered now => rt_active_dispatch r = None /\ u64 recovered /\ u64 now
  | ResumeNode address recovered produced now | ReplaceQuiescedNode address recovered produced now =>
      node_idle address r = true /\ u64 recovered /\ u64 produced /\ u64 now
  | _ => True
  end.

Fixpoint runtime_run (calls : list runtime_call) (r : ChannelRuntime) :
    list (runtime_call * runtime_out (option ChannelDispatch)) * ChannelRuntime :=
  match calls with
  | [] => ([], r)
  | call :: calls =>
      let '(x, r1) := runtime_step call r in
      let '(log, r2) := runtime_run calls r1 in ((call, x) :: log, r2)
  end.

Fixpoint runtime_run_allowed (calls : list runtime_call) (r : ChannelRuntime) : Prop :=
  match calls with
  | [] => True
  | call :: calls => runtime_allowed call r /\ runtime_run_allowed calls (snd (runtime_step call r))
  end.

Definition log_handed (log : list (runtime_call * runtime_out (option ChannelDispatch))) : list ChannelDispatch :=
  concat (map (fun e => handed (fun x => option_list x) (snd e)) log).
Definition log_settled (log : list (runtime_call * runtime_out (option ChannelDispatch))) : list ChannelDispatch :=
  concat (map (fun e => settled (settles (fst e)) (snd e)) log).

Lemma quiet_ok d r (m : runtime unit) :
  step_ok none_handed d r (m r) -> step_ok (fun x => option_list x) d r (quiet m r).
Proof.
  unfold quiet, step_ok. cbv [mbind st_bind]. destruct (m r) as [[[]|e|] r']; cbn;
    intros ([H1 H2] & H & H3); (split_and!; [split; congruence|done|done]).
Qed.

Lemma measured_ok r (m : runtime (option MeasurementDispatch)) :
  step_ok measurement_list None r (m r) -> step_ok (fun x => option_list x) None r (measured m r).
Proof.
  unfold measured, step_ok. cbv [mbind st_bind]. destruct (m r) as [[x|e|] r']; cbn;
    intros ([H1 H2] & H & H3); (split_and!; [split; congruence|done|done]).
Qed.

Lemma runtime_step_ok (call : runtime_call) (r : ChannelRuntime) :
  runtime_inv r -> runtime_allowed call r ->
  step_ok (fun x => option_list x) (settles call) r (runtime_step call r).
Proof.
  intros Hr Hc. destruct call; cbn [runtime_step settles runtime_allowed] in *; destruct_and?;
    first [by apply select_work_ok | apply measured_ok | apply quiet_ok];
    first [by apply register_node_ok | by apply reconfigure_node_ok | by apply configure_periodic_ok
          |by apply reconfigure_telemetry_ok | by apply select_measurement_ok | by apply select_shutdown_ok
          |by apply complete_measurement_ok | by apply park_measurement_ok | by apply complete_parked_ok
          |by apply require_recovery_ok | by apply fail_measurement_ok | by apply cancel_measurement_ok
          |by apply complete_recovery_ok | by apply fail_recovery_ok | by apply recover_node_ok
          |by apply resume_node_ok | by apply replace_quiesced_node_ok | by apply complete_periodic_ok
          |by apply fail_periodic_ok | by apply cancel_periodic_ok].
Qed.

Lemma runtime_run_ok (calls : list runtime_call) (r : ChannelRuntime) :
  runtime_inv r -> runtime_run_allowed calls r ->
  let '(log, r') := runtime_run calls r in
  runtime_inv r' /\ Forall (fun e => sound (snd e)) log /\
  outstanding r ++ log_handed log ≡ₚ log_settled log ++ outstanding r'.
Proof.
  revert r. induction calls as [|call calls IH]; intros r Hr Hc; cbn [runtime_run].
  { split_and!; [done|constructor|]. cbn. by rewrite app_nil_r. }
  destruct Hc as [Hc Hcs]. pose proof (runtime_step_ok call r Hr Hc) as (Hx & Hr1 & Hp).
  destruct (runtime_step call r) as [x r1]. cbn [fst snd] in *.
  specialize (IH r1 Hr1 Hcs). destruct (runtime_run calls r1) as [log r2]. destruct IH as (Hr2 & Hs & Hp2).
  split_and!; [done|by constructor|]. unfold log_handed, log_settled in *. cbn [map concat fst snd].
  rewrite (assoc_L (++)), Hp, <- (assoc_L (++)), Hp2. solve_Permutation.
Qed.

Lemma runtime_new_inv policy observability max_nodes seed r :
  runtime_new policy observability max_nodes seed = Ok r -> u64 seed -> runtime_inv r.
Proof.
  unfold runtime_new. intros H Hs. run_in H. subst r.
  split; cbn; try done; [constructor..| |by intros d ?%not_elem_of_nil]. ilia.
Qed.

(** C8. The dispatches of a channel runtime are accounted for, in every history
    of registrations, selections, completions, parkings, recoveries, failures
    and cancellations whose calls respect the following: [recover_node] is
    called while no dispatch is current (it drops the current dispatch, whatever
    it is, without settling it); [resume_node] and [replace_quiesced_node] of a
    node that is not in flight; [complete_parked_measurement] of a dispatch that
    is not the current one (the code answers [InvariantViolation] otherwise)
    and whose work identifier is not that of an outstanding recovery; and times,
    cursors and configurations are within their types. Then no call panics or
    finds the tables inconsistent, and the dispatches handed out are, with
    multiplicity, those taken back and those still in flight. The latter have
    distinct work identifiers, and all but the current one are measurements
    parked on their way to storage. *)
Theorem runtime_dispatches_accounted (policy : ChannelSchedulerPolicy) (observability : ObservabilityProfile)
    (max_nodes : nat) (seed : Z) (calls : list runtime_call) (r r' : ChannelRuntime) log :
  runtime_new policy observability max_nodes seed = Ok r -> u64 seed -> runtime_run_allowed calls r ->
  runtime_run calls r = (log, r') ->
  Forall (fun e => snd e <> Panic /\ snd e <> Err RuntimeInvariantViolation) log /\
  log_handed log ≡ₚ log_settled log ++ outstanding r' /\
  NoDup (dispatch_work_id <$> outstanding r') /\
  (forall d, rt_active_dispatch r' = Some d -> d ∈ outstanding r') /\
  (forall d, d ∈ outstanding r' -> rt_active_dispatch r' = Some d \/ is_measurement_dispatch d = true).
Proof.
  intros Hnew Hseed Hc Hrun. pose proof (runtime_new_inv _ _ _ _ _ Hnew Hseed) as Hr.
  pose proof (runtime_run_ok calls r Hr Hc) as H. rewrite Hrun in H. destruct H as (Hr' & Hs & Hp).
  split_and!; [done| |eapply sublist_NoDup; [apply (ri_ids r' Hr')|apply outstanding_ids]|apply Hr'..].
  rewrite <- Hp. unfold runtime_new in Hnew. run_in Hnew. by subst r.
Qed.

(** C30. The overflow estimate of a node is exact and safe: as long as its
    backlog, overestimated at the configured rate, fits its journal, the estimate
    is the largest number of microseconds after which it still fits (up to the
    range of the type), and whatever the node really produces, if never faster
    than that rate, nothing unread leaves its journal before the estimate
    expires. A journal that may have overflowed is estimated at zero. *)
Theorem overflow_estimate_safe (node : NodeScheduleState) (now estimate : Z) :
  node_ok node -> u64 now -> node_time_to_overflow_us node now = Ok estimate ->
  let rate := nc_output_rate (nd_config node) in
  let capacity := nc_journal_capacity_samples (nd_config node) in
  (capacity < node_backlog node now -> estimate = 0) /\
  (node_backlog node now <= capacity ->
    (forall t, 0 <= t <= U64_MAX -> t <= estimate <-> node_backlog node now + samples_in rate t <= capacity) /\
    (forall produced : Z -> Z,
       produced (nd_observed_at node) = nd_observed_produced node ->
       (forall s t, nd_observed_at node <= s <= t -> produced t - produced s <= samples_in rate (t - s)) ->
       forall t, now <= t <= now + estimate -> produced t - nd_received node <= capacity)).
Proof.
  intros Hok Hnow He rate capacity. rewrite overflow_spec in He by done.
  destruct (Z.ltb_spec now (nd_observed_at node)) as [|Hle]; [done|]. injection He as <-.
  pose proof (node_typed _ Hok) as (_ & (Hr1 & Hr2) & _). fold rate capacity in Hr1, Hr2 |- *.
  assert (0 < rate) as Hpos by ilia.
  split.
  { intros Hb. rewrite Z.max_r by lia. by rewrite Z.mul_0_l, Z.div_0_l. }
  intros Hb. rewrite Z.max_l by lia. set (free := capacity - node_backlog node now).
  assert (forall t, 0 <= t <= U64_MAX ->
    t <= Z.min (free * NANO_HERTZ_MICROS_PER_SAMPLE / rate) U64_MAX <->
    node_backlog node now + samples_in rate t <= capacity) as Hiff.
  { intros t Ht. replace (node_backlog node now + samples_in rate t <= capacity) with
      (node_backlog node now + samples_in rate t <= capacity) by done.
    transitivity (samples_in rate t <= free); [|unfold free; lia]. rewrite samples_in_spec.
    pose proof (Z.div_le_lower_bound (free * NANO_HERTZ_MICROS_PER_SAMPLE) rate t Hpos).
    pose proof (Z.mul_div_le (free * NANO_HERTZ_MICROS_PER_SAMPLE) rate Hpos).
    split; [nia|intros; apply Z.min_glb; [auto|lia]]. }
  split; [done|]. intros produced H0 Hrate t Ht.
  assert (node_backlog node now + samples_in rate (t - now) <= capacity) as Hcap.
  { apply Hiff; lia. }
  pose proof (Hrate (nd_observed_at node) now ltac:(lia)). pose proof (Hrate now t ltac:(lia)).
  unfold node_backlog in Hcap. fold rate in Hcap. lia.
Qed.

(** ** An example channel *)

Definition demo_policy : ChannelSchedulerPolicy := mkSchedulerPolicy 50000 20000.
Definition demo_config (address : Z) : NodeScheduleConfig :=
  mkNodeConfig address HZ_1000 4096 256 200 5000 100000 1000 8000 2 500000.
Definition demo_channel : ChannelRuntime := mkRuntime demo_policy Production 4 7 [] [] [] None.
Definition demo_node : NodeScheduleState := mkNode (demo_config 1) 50 60 30 100030 95030 0 Online 7 false.

(** Two nodes: one parked and completed, the other failing, synchronised, recovered. *)
Definition demo_calls : list runtime_call :=
  [RegisterNode (demo_config 1) 0 0; RegisterNode (demo_config 2) 100 0; SelectWork 10; SelectWork 11;
   ParkMeasurement (mkMeasurementDispatch 7 1 256); SelectWork 20;
   CompleteParked (mkMeasurementDispatch 7 1 256) (mkProgress 50 60) 30;
   FailMeasurement (mkMeasurementDispatch 8 2 256) 2500;
   ConfigurePeriodic TimeSyncService 2 (mkPeriodic 1000000 2000 3000) 5000; SelectWork 3000;
   CompletePeriodic TimeSyncService (mkServiceDispatch 10 2) 3200; SelectWork 4000;
   RequireRecovery (mkMeasurementDispatch 8 2 256) CauseStreamChanged 4010; SelectWork 4010;
   CompleteRecovery (mkServiceDispatch 8 2) 0 5 4020; SelectWork 4020].

(** Closes the conditions of a concrete history. *)
Ltac allowed_by_compute :=
  repeat first [exact I | refine (bool_decide_unpack _ _); vm_compute; exact I | split]; vm_compute; congruence.

Lemma runtime_dispatches_accounted_witness :
  exists log r', runtime_run demo_calls demo_channel = (log, r') /\
  length (log_handed log) = 6%nat /\ length (outstanding r') = 1%nat /\
  log_handed log ≡ₚ log_settled log ++ outstanding r'.
Proof.
  assert (runtime_new demo_policy Production 4 7 = Ok demo_channel) as Hnew by reflexivity.
  assert (runtime_run_allowed demo_calls demo_channel) as Hc by allowed_by_compute.
  destruct (runtime_run demo_calls demo_channel) as [log r'] eqn:Hrun. exists log, r'.
  split; [reflexivity|].
  pose proof (runtime_dispatches_accounted _ _ _ _ demo_calls _ r' log Hnew ltac:(split; vm_compute; congruence) Hc Hrun)
    as (_ & Hp & _).
  split; [|split; [|exact Hp]].
  - change log with (fst (log, r')). rewrite <- Hrun. reflexivity.
  - change r' with (snd (log, r')). rewrite <- Hrun. reflexivity.
Defined.

Lemma demo_node_ok : node_ok demo_node.
Proof. split; [typed_by_compute|reflexivity|split; vm_compute; congruence..]. Qed.

Lemma overflow_estimate_safe_witness :
  exists estimate, node_time_to_overflow_us demo_node 1030 = Ok estimate /\
  (3000000 <= estimate <-> node_backlog demo_node 1030 + samples_in HZ_1000 3000000 <= 4096).
Proof.
  assert (node_time_to_overflow_us demo_node 1030 = Ok 4085000) as He by reflexivity.
  exists 4085000. split; [exact He|].
  destruct (overflow_estimate_safe demo_node 1030 4085000 demo_node_ok ltac:(split; vm_compute; congruence) He)
    as [_ H]. apply H; [vm_compute|split; vm_compute]; congruence.
Defined.
