(* ===== verification/RuntimeSelection.v ===== *)
(** * Selection of ready work by a channel runtime

    Whether a runtime dispatches something, and what comes first: nothing that is
    ready or due is left waiting while the channel is free, and a journal about to
    overflow is read before anything else. *)

From stdpp Require Import list.
From S2P Require Export RuntimeHistory.

Definition node_ready (now : Z) (node : NodeScheduleState) : Prop :=
  nd_in_flight node = false /\ nd_ready_at node <= now.

(** A service of a node that can be served, so late that it would be over at its
    deadline if it were started now. *)
Definition service_due (now : Z) (r : ChannelRuntime) (state : PeriodicState) : Prop :=
  ps_in_flight state = false /\ ps_ready_at state <= now /\
  ps_deadline state <= saturating_add 64 now (pc_estimated_slot (ps_config state)) /\
  existsb (node_available (ps_node_address state)) (rt_nodes r) = true.

(** The configured slots fit the scheduler and no node was observed in the future. *)
Record selectable (now : Z) (r : ChannelRuntime) : Prop := {
  sl_inv : runtime_inv r;
  sl_now : u64 now;
  sl_free : rt_active_dispatch r = None;
  sl_clock : forall node, node ∈ rt_nodes r -> nd_observed_at node <= now;
  sl_nodes : forall node, node ∈ rt_nodes r ->
    nc_measurement_slot (nd_config node) <= max_slot (rt_scheduler r);
  sl_services : forall s state, state ∈ periodic s r ->
    pc_estimated_slot (ps_config state) <= max_slot (rt_scheduler r)
}.

Lemma node_address_valid (node : NodeScheduleState) :
  node_ok node ->
  (nc_node_address (nd_config node) =? HOST_ADDRESS) || (nc_node_address (nd_config node) =? BROADCAST_ADDRESS)
  = false.
Proof. intros [_ Hv _ _ _]. unfold node_config_validate in Hv. by destruct (_ || _). Qed.

Lemma node_ok_elem (r : ChannelRuntime) (node : NodeScheduleState) :
  runtime_inv r -> node ∈ rt_nodes r -> node_ok node.
Proof. intros Hr Hin. exact (proj1 (list.Forall_forall _ _) (ri_nodes r Hr) node Hin). Qed.

(** ** Candidates *)

Section Selection.
Context (now : Z) (r : ChannelRuntime) (Hsel : selectable now r).

Lemma candidate_node (node : NodeScheduleState) (c : WorkCandidate) :
  node ∈ rt_nodes r -> node_candidate node now = Ok (Some c) ->
  valid_candidate (rt_scheduler r) c /\
  (rank (rt_scheduler r) (select_context now r) c = None <-> now < nd_ready_at node) /\
  nd_in_flight node = false.
Proof.
  intros Hin Hc. pose proof (node_ok_elem r node (sl_inv _ _ Hsel) Hin) as Hok.
  pose proof (node_address_valid node Hok) as Haddr. pose proof (sl_nodes _ _ Hsel node Hin) as Hslot.
  unfold node_candidate in Hc. destruct (nd_in_flight node); [done|].
  unfold valid_candidate, validate_candidate.
  destruct (is_some (recovery_cause (nd_availability node))).
  - injection Hc as <-. cbn [work_node_address estimated_slot work_class work_deadline time_to_overflow_us work_id].
    rewrite Haddr. destruct (Z.ltb_spec (max_slot (rt_scheduler r)) (nc_measurement_slot (nd_config node))); [lia|].
    split_and!; [done| |done]. unfold rank. cbn [select_context ctx_now ready_at work_class].
    destruct (Z.ltb_spec now (nd_ready_at node)); [done|]. split; [|lia].
    rewrite bool_decide_false by done. cbn [andb]. repeat case_match; done.
  - destruct (node_time_to_overflow_us node now) as [t|e|]; [|done..]. injection Hc as <-.
    cbn [work_node_address estimated_slot work_class work_deadline time_to_overflow_us work_id].
    rewrite Haddr. destruct (Z.ltb_spec (max_slot (rt_scheduler r)) (nc_measurement_slot (nd_config node))); [lia|].
    split_and!; [done| |done]. unfold rank. cbn [select_context ctx_now ready_at work_class].
    destruct (Z.ltb_spec now (nd_ready_at node)); [done|]. split; [|lia].
    rewrite bool_decide_false by done. cbn [andb]. repeat case_match; done.
Qed.

Lemma idle_node_candidate (node : NodeScheduleState) :
  node ∈ rt_nodes r -> nd_in_flight node = false -> exists c, node_candidate node now = Ok (Some c).
Proof.
  intros Hin Hf. pose proof (node_ok_elem r node (sl_inv _ _ Hsel) Hin) as Hok.
  unfold node_candidate. rewrite Hf. destruct (is_some _); [by eexists|].
  rewrite overflow_spec by (done || apply Hsel).
  destruct (Z.ltb_spec now (nd_observed_at node)); [|by eexists]. pose proof (sl_clock _ _ Hsel node Hin). lia.
Qed.

Lemma node_candidates_exact (nodes : list NodeScheduleState) :
  (forall node, node ∈ nodes -> node ∈ rt_nodes r) ->
  exists l, node_candidates now nodes = Ok l /\
    forall c, c ∈ l <-> exists node, node ∈ nodes /\ node_candidate node now = Ok (Some c).
Proof.
  induction nodes as [|node nodes IH]; intros Hin; cbn [node_candidates].
  { exists []. split; [done|]. intros c. rewrite elem_of_nil. split; [done|]. by intros (x & ?%not_elem_of_nil & _). }
  destruct IH as (l & -> & Hl); [intros x Hx; apply Hin; by right|].
  assert (exists o, node_candidate node now = Ok o) as [o Ho].
  { destruct (nd_in_flight node) eqn:Hf; [exists None; unfold node_candidate; by rewrite Hf|].
    destruct (idle_node_candidate node) as [c Hc]; [apply Hin; by left|done|]. by exists (Some c). }
  rewrite Ho. cbn [mbind outcome_bind]. eexists. split; [done|]. intros c. rewrite elem_of_app, Hl.
  split.
  - intros [Hc|(x & Hx & Hc)]; [|exists x; split; [by right|done]].
    destruct o as [c'|]; cbn [option_list] in Hc; [|by apply not_elem_of_nil in Hc].
    apply list_elem_of_singleton in Hc as ->. exists node. split; [by left|done].
  - intros (x & [->|Hx]%elem_of_cons & Hc); [left|right; by exists x].
    rewrite Ho in Hc. injection Hc as ->. by apply list_elem_of_singleton.
Qed.

Lemma candidate_service (s : PeriodicService) (c : WorkCandidate) :
  c ∈ periodic_candidates s r ->
  valid_candidate (rt_scheduler r) c /\
  exists state, state ∈ periodic s r /\ work_class c = periodic_class s /\
    (rank (rt_scheduler r) (select_context now r) c <> None -> service_due now r state).
Proof.
  unfold periodic_candidates. intros (state & Hin & Hc)%list_elem_of_omap.
  destruct (existsb _ _) eqn:Hav; [|done]. unfold periodic_candidate in Hc.
  destruct (ps_in_flight state) eqn:Hf; [done|]. injection Hc as <-. split.
  - apply existsb_exists in Hav as (node & Hn & Hav). apply list_elem_of_In in Hn.
    pose proof (node_ok_elem r node (sl_inv _ _ Hsel) Hn) as Hok.
    pose proof (node_address_valid node Hok) as Haddr. unfold node_available, at_address in Hav.
    apply andb_true_iff in Hav as [[Hav _]%andb_true_iff _]. apply Z.eqb_eq in Hav.
    rewrite Hav in Haddr. unfold valid_candidate, validate_candidate.
    cbn [work_node_address estimated_slot work_class work_deadline time_to_overflow_us work_id].
    rewrite Haddr. pose proof (sl_services _ _ Hsel s state Hin).
    destruct (Z.ltb_spec (max_slot (rt_scheduler r)) (pc_estimated_slot (ps_config state))); [lia|]. by destruct s.
  - exists state. split_and!; [done|done|]. unfold rank, deadline_reached, overflow_imminent.
    cbn [select_context ctx_now ready_at work_class work_deadline time_to_overflow_us estimated_slot].
    unfold service_due. intros Hr. destruct (Z.ltb_spec now (ps_ready_at state)); [done|].
    rewrite bool_decide_false in Hr by (by destruct s). cbn [andb] in Hr.
    destruct (Z.leb_spec (ps_deadline state) (saturating_add 64 now (pc_estimated_slot (ps_config state))));
      [done|by destruct s].
Qed.

Lemma due_candidate (s : PeriodicService) (state : PeriodicState) :
  state ∈ periodic s r -> service_due now r state ->
  exists c, c ∈ periodic_candidates s r /\ rank (rt_scheduler r) (select_context now r) c <> None.
Proof.
  intros Hin (Hf & Hr & Hd & Hav). eexists. split.
  - apply list_elem_of_omap. exists state. split; [done|]. rewrite Hav. unfold periodic_candidate. by rewrite Hf.
  - unfold rank, deadline_reached, overflow_imminent.
    cbn [select_context ctx_now ready_at work_class work_deadline time_to_overflow_us estimated_slot].
    destruct (Z.ltb_spec now (ps_ready_at state)); [lia|].
    rewrite bool_decide_false by (by destruct s). cbn [andb].
    destruct (Z.leb_spec (ps_deadline state) (saturating_add 64 now (pc_estimated_slot (ps_config state))));
      [done|lia].
Qed.
End Selection.

(** ** Selection *)

Lemma select_work_cases (now : Z) (r : ChannelRuntime) :
  selectable now r ->
  exists l, (forall c, c ∈ l <->
      (exists node, node ∈ rt_nodes r /\ node_candidate node now = Ok (Some c)) \/
      exists s, c ∈ periodic_candidates s r) /\
    match select (rt_scheduler r) (select_context now r) l with
    | Ok None => select_work now r = (Ok None, r)
    | Ok (Some w) => exists d r', dispatch_selected w r = (Ok d, r') /\
        select_work now r = (Ok (Some d), set_active_dispatch (Some d) r')
    | _ => False
    end.
Proof.
  intros Hsel. destruct (node_candidates_exact now r Hsel (rt_nodes r)) as (nodes & Hnodes & Hspec); [done|].
  exists (nodes ++ periodic_candidates TimeSyncService r ++ periodic_candidates TelemetryService r).
  assert (forall c, c ∈ nodes ++ periodic_candidates TimeSyncService r ++ periodic_candidates TelemetryService r <->
      (exists node, node ∈ rt_nodes r /\ node_candidate node now = Ok (Some c)) \/
      exists s, c ∈ periodic_candidates s r) as Hl.
  { intros c. rewrite !elem_of_app, Hspec. split; [naive_solver|]. intros [H|[[] H]]; auto. }
  split; [done|]. unfold select_work. rewrite st_bind_get, (sl_free _ _ Hsel). cbn [is_some].
  rewrite Hnodes, st_bind_lift_Ok. revert Hl. generalize (nodes ++ periodic_candidates TimeSyncService r
    ++ periodic_candidates TelemetryService r). intros l Hl.
  assert (Forall (valid_candidate (rt_scheduler r)) l) as Hvalid.
  { apply list.Forall_forall. intros c [(node & Hin & Hc)|(s & Hc)]%Hl;
      [by eapply candidate_node|by eapply candidate_service]. }
  pose proof (select_spec (rt_scheduler r) (select_context now r) l) as Hs.
  destruct (select (rt_scheduler r) (select_context now r) l) as [[w|]|e|]; [|done| |done].
  - destruct Hs as (_ & c & rk & Hc & Hw & _). cbn [map_err]. rewrite st_bind_lift_Ok.
    destruct (dispatch_selected_ok r c (candidate_index w) (sl_inv _ _ Hsel) (sl_free _ _ Hsel)) as (d & r' & Hd & _).
    { apply list_elem_of_lookup_2, Hl in Hc as [(node & Hin & Hc)|(s & Hc)]; [left|right].
      - exists node. split; [done|].
        destruct (node_candidate_spec node now (node_ok_elem r node (sl_inv _ _ Hsel) Hin) (sl_now _ _ Hsel))
          as [H|[[H _]|(c' & H & Hsrc)]]; rewrite Hc in H; [done..|]. by injection H as ->.
      - exists s. by apply periodic_candidates_spec. }
    rewrite <- Hw in Hd. exists d, r'. split; [done|]. cbv [mbind st_bind modify mret st_ret]. by rewrite Hd.
  - destruct Hs as (i & c & Hi & He & _). apply list_elem_of_lookup_2 in Hi.
    pose proof (proj1 (list.Forall_forall _ _) Hvalid c Hi) as Hv. unfold valid_candidate in Hv. congruence.
Qed.

(** The node behind a measurement. *)
Lemma dispatched_measurement (r r' : ChannelRuntime) (w : ScheduledWork) (d : ChannelDispatch) :
  dispatch_selected w r = (Ok d, r') -> scheduled_class w = TMeasurement ->
  exists node, node ∈ rt_nodes r /\ nd_work_id node = scheduled_work_id w /\ d = DispatchMeasurement (measurement_of node).
Proof.
  unfold dispatch_selected. intros H Hc. rewrite Hc in H. unfold find_work in H. cbv [mbind st_bind get lift] in H.
  destruct (position _ _) as [[i node]|] eqn:Hp; cbn [ok_or] in H; [|done].
  destruct (position_split _ _ _ _ Hp) as (l1 & l2 & Hl & _ & Hid). exists node.
  unfold with_work_id in Hid. apply Z.eqb_eq in Hid.
  cbv [put_node modify mret st_ret] in H. injection H as <- _. split_and!; [rewrite Hl; apply elem_of_app; right; by left|done|done].
Qed.

Lemma node_candidate_fields (node : NodeScheduleState) (now : Z) (c : WorkCandidate) :
  node_candidate node now = Ok (Some c) ->
  work_id c = nd_work_id node /\ ready_at c = nd_ready_at node /\ work_class c <> TDiagnostics /\
  (work_class c = TMeasurement -> recovery_cause (nd_availability node) = None /\
     exists t, time_to_overflow_us c = Some t /\ node_time_to_overflow_us node now = Ok t) /\
  (recovery_cause (nd_availability node) = None -> work_class c = TMeasurement).
Proof.
  unfold node_candidate. destruct (nd_in_flight node); [done|].
  destruct (recovery_cause (nd_availability node)); cbn [is_some].
  - intros [= <-]. cbn. split_and!; done.
  - destruct (node_time_to_overflow_us node now) as [t|e|]; [|done..]. intros [= <-]. cbn.
    split_and!; try done. intros _. split; [done|by exists t].
Qed.

Section Dispatch.
Context (now : Z) (r : ChannelRuntime) (Hsel : selectable now r).

(** Nothing is dispatched exactly when nothing is ready or due. *)
Lemma select_work_idle :
  (exists d r', select_work now r = (Ok (Some d), r')) \/
  (select_work now r = (Ok None, r) /\
   (forall node, node ∈ rt_nodes r -> ~ node_ready now node) /\
   (forall s state, state ∈ periodic s r -> ~ service_due now r state)).
Proof.
  destruct (select_work_cases now r Hsel) as (l & Hl & H).
  pose proof (select_spec (rt_scheduler r) (select_context now r) l) as Hs.
  destruct (select (rt_scheduler r) (select_context now r) l) as [[w|]|e|]; [|right|done..].
  - left. destruct H as (d & r' & _ & ->). eauto.
  - destruct Hs as [_ Hnone]. split_and!; [done|..].
    + intros node Hin [Hf Hready]. destruct (idle_node_candidate now r Hsel node Hin Hf) as [c Hc].
      assert (c ∈ l) as Hcl by (apply Hl; left; eauto).
      pose proof (proj1 (list.Forall_forall _ _) Hnone c Hcl) as Hr.
      apply (candidate_node now r Hsel node c Hin Hc) in Hr. lia.
    + intros s state Hin Hdue. destruct (due_candidate now r s state Hin Hdue) as (c & Hc & Hr). apply Hr.
      apply (proj1 (list.Forall_forall _ _) Hnone). apply Hl. eauto.
Qed.

(** Something dispatched was ready or due. *)
Lemma select_work_busy d r' :
  select_work now r = (Ok (Some d), r') ->
  (exists node, node ∈ rt_nodes r /\ node_ready now node) \/
  exists s state, state ∈ periodic s r /\ service_due now r state.
Proof.
  intros Hd. destruct (select_work_cases now r Hsel) as (l & Hl & H).
  pose proof (select_spec (rt_scheduler r) (select_context now r) l) as Hs.
  destruct (select (rt_scheduler r) (select_context now r) l) as [[w|]|e|]; [|congruence|done..].
  destruct Hs as (_ & c & rk & Hc & _ & Hr & _). apply list_elem_of_lookup_2, Hl in Hc as [(node & Hin & Hc)|(s & Hc)].
  - left. exists node. split; [done|]. destruct (candidate_node now r Hsel node c Hin Hc) as (_ & Hiff & Hf).
    split; [done|]. destruct (Z.lt_ge_cases now (nd_ready_at node)) as [Hlt|]; [|done].
    apply Hiff in Hlt. congruence.
  - right. destruct (candidate_service now r Hsel s c Hc) as (_ & state & Hin & _ & Hdue).
    exists s, state. split; [done|]. apply Hdue. congruence.
Qed.

(** A journal about to overflow is served before anything else. *)
Lemma select_work_imminent node t :
  node ∈ rt_nodes r -> node_ready now node -> recovery_cause (nd_availability node) = None ->
  node_time_to_overflow_us node now = Ok t -> t <= overflow_guard (rt_scheduler r) ->
  exists node' t' r', node' ∈ rt_nodes r /\ node_time_to_overflow_us node' now = Ok t' /\ t' <= t /\
    select_work now r = (Ok (Some (DispatchMeasurement (measurement_of node'))), r').
Proof.
  intros Hin [Hf Hready] Hcause Ht Hguard.
  destruct (select_work_cases now r Hsel) as (l & Hl & H).
  pose proof (select_spec (rt_scheduler r) (select_context now r) l) as Hs.
  destruct (idle_node_candidate now r Hsel node Hin Hf) as [c Hc].
  destruct (node_candidate_fields _ _ _ Hc) as (_ & Hra & Hdiag & Hm & Hclass).
  specialize (Hclass Hcause). destruct (Hm Hclass) as (_ & t0 & Hto & Ht0). rewrite Ht in Ht0. injection Ht0 as <-.
  assert (overflow_imminent (rt_scheduler r) c = Some t) as Ho.
  { unfold overflow_imminent. rewrite Hto. by rewrite (proj2 (Z.leb_le _ _)). }
  assert (c ∈ l) as Hcl by (apply Hl; left; eauto).
  assert (rank (rt_scheduler r) (select_context now r) c = Some (rank_new 0 t (queued_at c) c)) as Hrk.
  { rewrite rank_eligible by (split; [cbn; lia|done]). by rewrite Ho. }
  destruct (select (rt_scheduler r) (select_context now r) l) as [[w|]|e|]; [| |done..].
  2: { pose proof (proj1 (list.Forall_forall _ _) (proj2 Hs) c Hcl) as Hnone. cbn in Hnone. congruence. }
  destruct Hs as (Hv & c' & rk & Hc' & Hw & Hrk' & Hmin). destruct H as (d & r' & Hd & ->).
  apply list_elem_of_lookup in Hcl as [j Hj]. destruct (Hmin j c _ Hj Hrk) as [Hle _].
  pose proof (rank_le_tier _ _ Hle) as Htier. cbn [rank_new tier] in Htier.
  pose proof (rank_tier_zero _ _ _ _ Hrk' Htier) as Ho'. pose proof (rank_tier_nonneg _ _ _ _ Hrk').
  pose proof (rank_le_primary _ _ Hle ltac:(cbn; lia)) as Hp. cbn [rank_new primary] in Hp.
  apply list_elem_of_lookup_2 in Hc'. pose proof (proj1 (list.Forall_forall _ _) Hv c' Hc') as Hvc. cbn in Hvc.
  pose proof (valid_overflow _ _ _ Hvc Ho') as Hcl'.
  destruct (dispatched_measurement r r' w d Hd) as (node'' & Hin'' & Hid'' & ->); [by rewrite Hw|].
  apply Hl in Hc' as [(node' & Hin' & Hc')|(s & Hc')].
  - destruct (node_candidate_fields _ _ _ Hc') as (Hid' & _ & _ & Hm' & _).
    destruct (Hm' Hcl') as (_ & t' & Hto' & Ht').
    assert (node'' = node') as ->.
    { apply (fmap_NoDup_inj nd_work_id (rt_nodes r)); [apply node_ids_NoDup, Hsel|done|done|].
      rewrite Hid'', <- Hid'. by rewrite Hw. }
    exists node', t', (set_active_dispatch (Some (DispatchMeasurement (measurement_of node'))) r').
    split_and!; [done|done| |done]. unfold overflow_imminent in Ho'. rewrite Hto' in Ho'.
    destruct (t' <=? overflow_guard (rt_scheduler r)); [|done]. injection Ho' as ->. lia.
  - destruct (candidate_service now r Hsel s c' Hc') as (_ & state & _ & Hcs & _).
    rewrite Hcl' in Hcs. by destruct s.
Qed.
End Dispatch.

(** C9. A free channel never leaves ready work waiting. In a runtime whose
    invariant holds and which has no current dispatch, when the configured slots
    fit the scheduler and no node was observed in the future: a selection
    succeeds; it dispatches something exactly when some node that is not in
    flight has reached its ready time, or some periodic service of an available
    node is due; it changes nothing otherwise. And if some node that is not in
    flight, has reached its ready time and needs no recovery can overflow its
    journal within the guard interval, the selection dispatches the measurement
    of a node that can overflow at least as early. A node in retry backoff is not
    ready before its backoff ends, and a node that needs recovery is served by
    its recovery, however close their overflow. *)
Theorem ready_work_dispatched (now : Z) (r : ChannelRuntime) :
  selectable now r ->
  exists x r', select_work now r = (Ok x, r') /\
  (is_some x = true <->
     (exists node, node ∈ rt_nodes r /\ node_ready now node) \/
     exists s state, state ∈ periodic s r /\ service_due now r state) /\
  (x = None -> r' = r) /\
  (forall node t, node ∈ rt_nodes r -> node_ready now node -> recovery_cause (nd_availability node) = None ->
     node_time_to_overflow_us node now = Ok t -> t <= overflow_guard (rt_scheduler r) ->
     exists node' t', node' ∈ rt_nodes r /\ node_time_to_overflow_us node' now = Ok t' /\ t' <= t /\
       x = Some (DispatchMeasurement (measurement_of node'))).
Proof.
  intros Hsel. pose proof (select_work_imminent now r Hsel) as Himm.
  destruct (select_work_idle now r Hsel) as [(d & r' & Hd)|(Hd & Hnodes & Hservices)];
    rewrite Hd in Himm; [exists (Some d), r'|exists None, r]; (split; [done|]); (split_and!; [|done|]).
  - split; [intros _; by eapply select_work_busy|done].
  - intros node t H1 H2 H3 H4 H5. destruct (Himm node t H1 H2 H3 H4 H5) as (node' & t' & r'' & ? & ? & ? & [= ? ?]).
    exists node', t'. split_and!; congruence.
  - split; [done|]. intros [(node & Hin & Hr)|(s & state & Hin & Hr)]; [by destruct (Hnodes node Hin)|].
    by destruct (Hservices s state Hin).
  - intros node t H1 H2 H3 H4 H5. by destruct (Himm node t H1 H2 H3 H4 H5) as (node' & t' & r'' & ? & ? & ? & ?).
Qed.

Definition ready_channel : ChannelRuntime := snd (runtime_run (take 9 demo_calls) demo_channel).

Lemma ready_channel_selectable : selectable 3000 ready_channel.
Proof.
  split.
  - pose proof (runtime_run_ok (take 9 demo_calls) demo_channel
      (runtime_new_inv demo_policy Production 4 7 _ eq_refl ltac:(split; vm_compute; congruence))
      ltac:(allowed_by_compute)) as H.
    unfold ready_channel. destruct (runtime_run (take 9 demo_calls) demo_channel). apply H.
  - split; vm_compute; congruence.
  - reflexivity.
  - apply list.Forall_forall. vm_compute. repeat constructor; congruence.
  - apply list.Forall_forall. vm_compute. repeat constructor; congruence.
  - intros [] state Hs; revert state Hs; apply list.Forall_forall; vm_compute; repeat constructor; congruence.
Qed.

Lemma ready_work_dispatched_witness :
  exists r', select_work 3000 ready_channel = (Ok (Some (DispatchTimeSync (mkServiceDispatch 10 2))), r').
Proof.
  destruct (ready_work_dispatched 3000 ready_channel ready_channel_selectable) as (x & r' & Hx & _).
  exists r'. rewrite Hx. change (Ok x) with (fst (Ok x : runtime_out (option ChannelDispatch), r')).
  rewrite <- Hx. reflexivity.
Defined.
