(* ===== verification/RuntimeEffects.v ===== *)
(** * What a call of the channel runtime leaves alone

    For a client that mirrors the runtime's state: no call changes which nodes
    are registered but registration, nodes are observed no later than the time
    of the call, and the current dispatch changes exactly as the call says. *)

From stdpp Require Import list.
From S2P Require Export RuntimeHistory.

Lemma position_none {A : Type} (p : A -> bool) (l : list A) (x : A) : position p l = None -> x ∈ l -> p x = false.
Proof.
  intros Hp Hx. induction Hx as [x l|x y l Hx IH]; cbn in Hp.
  - by destruct (p x).
  - destruct (p y); [done|]. apply IH. by destruct (position p l) as [[]|].
Qed.

Definition addresses (r : ChannelRuntime) : list Z := node_address <$> rt_nodes r.

Definition observed_by (clock : Z) (r : ChannelRuntime) : Prop :=
  Forall (fun node => nd_observed_at node <= clock) (rt_nodes r).

Record keeps (now : Z) (r r' : ChannelRuntime) : Prop := {
  keeps_addresses : addresses r' = addresses r;
  keeps_observed : forall clock, now <= clock -> observed_by clock r -> observed_by clock r'
}.

#[export] Instance keeps_reflexive (now : Z) : Reflexive (keeps now).
Proof. by split. Qed.
#[export] Instance keeps_transitive (now : Z) : Transitive (keeps now).
Proof. intros r1 r2 r3 [] []. split; [congruence|auto]. Qed.

Lemma observed_by_le (clock clock' : Z) (r : ChannelRuntime) :
  clock <= clock' -> observed_by clock r -> observed_by clock' r.
Proof. intros Hle. apply Forall_impl. cbn. lia. Qed.

Lemma keeps_nodes (now : Z) (r r' : ChannelRuntime) : rt_nodes r' = rt_nodes r -> keeps now r r'.
Proof. intros H. unfold addresses, observed_by. split; unfold addresses, observed_by; by rewrite H. Qed.

Lemma keeps_node (now : Z) (r r' : ChannelRuntime) l1 l2 node node' :
  rt_nodes r = l1 ++ node :: l2 -> rt_nodes r' = l1 ++ node' :: l2 ->
  node_address node' = node_address node ->
  nd_observed_at node' = nd_observed_at node \/ nd_observed_at node' = now -> keeps now r r'.
Proof.
  intros H H' Ha Ho. split; unfold addresses, observed_by; rewrite H, H'.
  - by rewrite !fmap_app, !fmap_cons, Ha.
  - intros clock Hle [H1 [H2 H3]%Forall_cons_1]%Forall_app.
    apply Forall_app_2; [done|]. constructor; [lia|done].
Qed.

(** A call's effect: the nodes kept, and the current dispatch after each result. *)
Definition effect {A : Type} (now : Z) (active : runtime_out A -> option ChannelDispatch)
    (r : ChannelRuntime) (res : runtime_out A * ChannelRuntime) : Prop :=
  keeps now r (snd res) /\ rt_active_dispatch (snd res) = active (fst res).

(** The call settles the current dispatch, or fails and keeps it. *)
Definition cleared {A : Type} (before : option ChannelDispatch) (x : runtime_out A) : option ChannelDispatch :=
  match x with Ok _ | Err StreamRegressed => None | _ => before end.

(** A selection replaces it by what it hands out. *)
Definition selected_next {A : Type} (f : A -> option ChannelDispatch) (before : option ChannelDispatch)
    (x : runtime_out A) : option ChannelDispatch :=
  match x with
  | Ok a => match f a with Some d => Some d | None => before end
  | _ => before
  end.

Section Effect.
Context {A : Type} (now : Z) (active : runtime_out A -> option ChannelDispatch).
Implicit Types (r : ChannelRuntime) (x : runtime_out A).

Lemma effect_same r x : active x = rt_active_dispatch r -> effect now active r (x, r).
Proof. by split. Qed.

Lemma effect_nodes r r' x :
  rt_nodes r' = rt_nodes r -> active x = rt_active_dispatch r' -> effect now active r (x, r').
Proof. intros Hn Ha. split; [by apply keeps_nodes|done]. Qed.

Lemma effect_node r r' l1 l2 node node' x :
  rt_nodes r = l1 ++ node :: l2 -> rt_nodes r' = l1 ++ node' :: l2 ->
  node_address node' = node_address node ->
  nd_observed_at node' = nd_observed_at node \/ nd_observed_at node' = now ->
  active x = rt_active_dispatch r' -> effect now active r (x, r').
Proof. intros H H' Ha Ho Hx. split; [by eapply keeps_node|done]. Qed.
End Effect.

Lemma cleared_refused {A : Type} before e : refused e -> cleared before (Err e : runtime_out A) = before.
Proof. by intros [->|[a ->]]. Qed.
Lemma cleared_failed {A : Type} before e : call_failed e -> cleared before (Err e : runtime_out A) = before.
Proof. by intros [->| ->]. Qed.
#[export] Hint Resolve cleared_refused cleared_failed : rust.

(** A call that fails at the door, at most after taking a work id. *)
Ltac effect_refused :=
  first [apply effect_same; first [done | eauto with rust; done]
        |apply effect_nodes; [done|cbn [rt_active_dispatch set_next_work_id]; first [done | eauto with rust; done]]].
(** A call that ends by replacing the node between [l1] and [l2]. *)
Ltac effect_replaced l1 l2 node :=
  eapply (effect_node _ _ _ _ l1 l2 node); [done|reflexivity|done|by auto|done].

Section Effects.
Context (now : Z).
Implicit Types (r : ChannelRuntime).

Lemma complete_measurement_effect r d progress :
  runtime_inv r -> typed progress -> u64 now ->
  effect now (cleared (rt_active_dispatch r)) r (complete_measurement d progress now r).
Proof.
  intros Hr Hp Hnow. unfold complete_measurement.
  destruct (progress_validate_spec progress) as [[-> Hle]| ->]; [|effect_refused].
  rewrite st_bind_lift_Ok. cbv [mbind st_bind].
  destruct (active_node_spec d r Hr) as [(i & node & -> & Hat & _)|(e & -> & He)]; [|effect_refused].
  destruct Hat as (l1 & l2 & Hl & -> & Ha). destruct (stream_regressed node progress).
  - rewrite (put_node_at _ l1 l2 node) by done. cbv [modify throw]. effect_replaced l1 l2 node.
  - destruct (advance_node_spec r l1 l2 node progress now) as
      (n & Hn & [(ready & id & _ & _ & ->)|(e & He & ->)]); first [done | effect_replaced l1 l2 node | effect_refused].
Qed.

Lemma complete_parked_effect r d progress :
  runtime_inv r -> typed progress -> u64 now ->
  effect now (fun _ => rt_active_dispatch r) r (complete_parked_measurement d progress now r).
Proof.
  intros Hr Hp Hnow. unfold complete_parked_measurement. rewrite st_bind_get.
  destruct (bool_decide _); [effect_refused|].
  destruct (progress_validate_spec progress) as [[-> Hle]| ->]; [|effect_refused].
  rewrite st_bind_lift_Ok. cbv [mbind st_bind].
  destruct (in_flight_node_spec d r) as [(i & node & -> & Hat & _)|(e & -> & He)]; [|effect_refused].
  destruct Hat as (l1 & l2 & Hl & -> & Ha). destruct (stream_regressed node progress).
  - rewrite (put_node_at _ l1 l2 node) by done. cbv [throw]. effect_replaced l1 l2 node.
  - destruct (advance_node_spec r l1 l2 node progress now) as
      (n & Hn & [(ready & id & _ & _ & ->)|(e & He & ->)]); first [done | effect_replaced l1 l2 node | effect_refused].
Qed.

Lemma park_measurement_effect r d :
  runtime_inv r -> effect now (cleared (rt_active_dispatch r)) r (park_measurement d r).
Proof.
  intros Hr. unfold park_measurement. cbv [mbind st_bind].
  destruct (active_node_spec d r Hr) as [(i & node & -> & _)|(e & -> & He)]; [|effect_refused].
  cbv [modify]. by apply effect_nodes.
Qed.

Lemma require_recovery_effect r d cause :
  runtime_inv r -> effect now (cleared (rt_active_dispatch r)) r (require_recovery d cause now r).
Proof.
  intros Hr. unfold require_recovery. cbv [mbind st_bind].
  destruct (active_node_spec d r Hr) as [(i & node & -> & Hat & _)|(e & -> & He)]; [|effect_refused].
  destruct Hat as (l1 & l2 & Hl & -> & Ha).
  rewrite (put_node_at _ l1 l2 node) by done. cbv [modify]. effect_replaced l1 l2 node.
Qed.

Lemma cancel_measurement_effect r d :
  runtime_inv r -> effect now (cleared (rt_active_dispatch r)) r (cancel_measurement d r).
Proof.
  intros Hr. unfold cancel_measurement. cbv [mbind st_bind].
  destruct (active_node_spec d r Hr) as [(i & node & -> & Hat & _)|(e & -> & He)]; [|effect_refused].
  destruct Hat as (l1 & l2 & Hl & -> & Ha).
  rewrite (put_node_at _ l1 l2 node) by done. cbv [modify]. effect_replaced l1 l2 node.
Qed.

(** Of the failures only an overflow of the clock leaves the node half updated. *)
Lemma fail_measurement_effect r d :
  runtime_inv r -> effect now (cleared (rt_active_dispatch r)) r (fail_measurement d now r).
Proof.
  intros Hr. unfold fail_measurement. cbv [mbind st_bind lift].
  destruct (active_node_spec d r Hr) as [(i & node & -> & Hat & _)|(e & -> & He)]; [|effect_refused].
  pose proof (node_at_ok r _ i node Hr Hat) as Hok. destruct Hat as (l1 & l2 & Hl & -> & Ha).
  destruct (retry_delay_spec (nd_config node) (saturating_add 8 (failures (nd_availability node)) 1))
    as (delay & -> & _); [apply Hok..|].
  rewrite (put_node_at _ l1 l2 node) by done. unfold monotonic_checked_add.
  destruct (checked_add 64 now delay) as [ready|]; cbn [ok_or]; [|effect_replaced l1 l2 node].
  erewrite put_node_at by done. cbv [modify]. effect_replaced l1 l2 node.
Qed.

Lemma fail_recovery_effect r d :
  runtime_inv r -> effect now (cleared (rt_active_dispatch r)) r (fail_recovery d now r).
Proof.
  intros Hr. unfold fail_recovery. cbv [mbind st_bind lift].
  destruct (active_recovery_spec d r) as [(i & node & -> & Hat & _)|(e & -> & He)]; [|effect_refused].
  pose proof (node_at_ok r _ i node Hr Hat) as Hok. destruct Hat as (l1 & l2 & Hl & -> & Ha).
  destruct (recovery_cause (nd_availability node)) as [cause|]; cbn [ok_or]; [|effect_refused].
  destruct (retry_delay_spec (nd_config node) (saturating_add 8 (failures (nd_availability node)) 1))
    as (delay & -> & _); [apply Hok..|].
  rewrite (put_node_at _ l1 l2 node) by done. unfold monotonic_checked_add.
  destruct (checked_add 64 now delay) as [ready|]; cbn [ok_or]; [|effect_replaced l1 l2 node].
  erewrite put_node_at by done. cbv [modify]. effect_replaced l1 l2 node.
Qed.

(** A node that rejoins is observed now. *)
Lemma rejoin_node_effect r l1 l2 node received produced :
  runtime_inv r -> rt_nodes r = l1 ++ node :: l2 ->
  effect now (fun _ => rt_active_dispatch r) r (rejoin_node (length l1) node received produced now r).
Proof.
  intros Hr Hl. destruct (rejoin_node_spec r l1 l2 node received produced now Hr Hl) as
    (n & Hn & [(id & _ & ->)|(e & He & ->)]); [effect_replaced l1 l2 node|effect_refused].
Qed.

Lemma rejoin_clearing_effect r l1 l2 node received produced :
  runtime_inv r -> rt_nodes r = l1 ++ node :: l2 ->
  effect now (cleared (rt_active_dispatch r)) r
    ((_ ← rejoin_node (length l1) node received produced now; modify (set_active_dispatch None)) r).
Proof.
  intros Hr Hl. cbv [mbind st_bind].
  destruct (rejoin_node_spec r l1 l2 node received produced now Hr Hl) as
    (n & Hn & [(id & _ & ->)|(e & He & ->)]); [cbv [modify]; effect_replaced l1 l2 node|effect_refused].
Qed.

Lemma complete_recovery_effect r d recovered produced :
  runtime_inv r -> effect now (cleared (rt_active_dispatch r)) r (complete_recovery d recovered produced now r).
Proof.
  intros Hr. unfold complete_recovery. cbv [mbind st_bind].
  destruct (active_recovery_spec d r) as [(i & node & -> & Hat & _)|(e & -> & He)]; [|effect_refused].
  destruct Hat as (l1 & l2 & Hl & -> & Ha).
  destruct (is_some _); cbn [negb]; [|effect_refused]. destruct (produced <? recovered); [effect_refused|].
  by apply (rejoin_clearing_effect r l1 l2).
Qed.

Lemma recover_node_effect r address recovered :
  runtime_inv r -> effect now (cleared (rt_active_dispatch r)) r (recover_node address recovered now r).
Proof.
  intros Hr. unfold recover_node. cbv [mbind st_bind].
  destruct (find_node_spec address r) as [(i & node & -> & Hat)| ->]; [|effect_refused].
  destruct Hat as (l1 & l2 & Hl & -> & Ha). destruct (is_some _); cbn [negb]; [|effect_refused].
  by apply (rejoin_clearing_effect r l1 l2).
Qed.

Lemma replace_quiesced_node_effect r address recovered produced :
  runtime_inv r ->
  effect now (fun _ => rt_active_dispatch r) r (replace_quiesced_node address recovered produced now r).
Proof.
  intros Hr. unfold replace_quiesced_node. rewrite st_bind_get. destruct (is_some _); [effect_refused|].
  cbv [mbind st_bind]. destruct (find_node_spec address r) as [(i & node & -> & Hat)| ->]; [|effect_refused].
  destruct Hat as (l1 & l2 & Hl & -> & Ha). by apply (rejoin_node_effect r l1 l2).
Qed.

Lemma resume_node_effect r address recovered produced :
  runtime_inv r ->
  effect now (fun _ => rt_active_dispatch r) r (resume_node address recovered produced now r).
Proof.
  intros Hr. unfold resume_node. rewrite st_bind_get. destruct (is_some _); [effect_refused|].
  cbv [mbind st_bind]. destruct (find_node_spec address r) as [(i & node & -> & Hat)| ->]; [|effect_refused].
  destruct Hat as (l1 & l2 & Hl & -> & Ha). destruct (is_some _); [effect_refused|].
  destruct (negb _); [effect_refused|]. destruct (allocate_spec r Hr) as ([id|e|] & n & -> & _); [|effect_refused..].
  erewrite put_node_at by done. effect_replaced l1 l2 node.
Qed.

Lemma reconfigure_node_effect r config :
  effect now (fun _ => rt_active_dispatch r) r (reconfigure_node config now r).
Proof.
  unfold reconfigure_node. cbv [mbind st_bind lift get].
  destruct (node_config_validate_cases config) as [->|(e & -> & He)]; [|effect_refused].
  destruct (is_some (rt_active_dispatch r)); [effect_refused|].
  destruct (find_node_spec (nc_node_address config) r) as [(i & node & -> & Hat)| ->]; [|effect_refused].
  destruct Hat as (l1 & l2 & Hl & -> & Ha). destruct (_ || _); [effect_refused|].
  erewrite put_node_at by done. eapply (effect_node _ _ _ _ l1 l2 node); [done|reflexivity|done|by right|done].
Qed.

(** *** Services *)

Lemma complete_periodic_effect (s : PeriodicService) r d :
  runtime_inv r -> effect now (cleared (rt_active_dispatch r)) r (complete_periodic s d now r).
Proof.
  intros Hr. unfold complete_periodic. cbv [mbind st_bind lift].
  destruct (active_periodic_spec s d r) as [(i & state & -> & _)|(e & -> & He)]; [|effect_refused].
  destruct (monotonic_checked_add _ _); cbn [ok_or]; [|effect_refused].
  destruct (allocate_spec r Hr) as ([id|e|] & n & -> & _ & Hx); [|by subst; effect_refused|done].
  cbv [put_periodic modify]. destruct s; by apply effect_nodes.
Qed.

Lemma fail_periodic_effect (s : PeriodicService) r d :
  effect now (cleared (rt_active_dispatch r)) r (fail_periodic s d now r).
Proof.
  unfold fail_periodic. cbv [mbind st_bind lift].
  destruct (active_periodic_spec s d r) as [(i & state & -> & _)|(e & -> & He)]; [|effect_refused].
  destruct (monotonic_checked_add _ _); cbn [ok_or]; [|effect_refused].
  cbv [put_periodic modify]. destruct s; by apply effect_nodes.
Qed.

Lemma cancel_periodic_effect (s : PeriodicService) r d :
  effect now (cleared (rt_active_dispatch r)) r (cancel_periodic s d r).
Proof.
  unfold cancel_periodic. cbv [mbind st_bind lift].
  destruct (active_periodic_spec s d r) as [(i & state & -> & _)|(e & -> & He)]; [|effect_refused].
  cbv [put_periodic modify]. destruct s; by apply effect_nodes.
Qed.

Lemma configure_periodic_effect (s : PeriodicService) r address config deadline :
  runtime_inv r ->
  effect now (fun _ => rt_active_dispatch r) r (configure_periodic s address config deadline r).
Proof.
  intros Hr. unfold configure_periodic. cbv [mbind st_bind lift get].
  destruct (periodic_validate s config); [|effect_refused..].
  destruct (find_node_spec address r) as [(i & node & -> & _)| ->]; [|effect_refused].
  destruct (is_some _); [effect_refused|]. destruct (existsb _ _); [effect_refused|].
  destruct (allocate_spec r Hr) as ([id|e|] & n & -> & _); [|effect_refused..].
  cbv [modify]. destruct s; by apply effect_nodes.
Qed.

Lemma reconfigure_telemetry_effect r address config :
  effect now (fun _ => rt_active_dispatch r) r (reconfigure_telemetry address config now r).
Proof.
  unfold reconfigure_telemetry. cbv [mbind st_bind lift get].
  destruct (periodic_validate _ _); [|effect_refused..].
  destruct (position _ _) as [[i state]|]; cbn [ok_or]; [|effect_refused].
  cbv [put_periodic modify]. destruct (ps_in_flight state); [by apply effect_nodes|].
  destruct (monotonic_checked_add _ _); by apply effect_nodes.
Qed.
End Effects.

(** *** Registration and selection *)

Lemma register_node_effect (now : Z) (r : ChannelRuntime) config recovered :
  runtime_inv r ->
  match register_node config recovered now r with
  | (Ok _, r') =>
      addresses r' = addresses r ++ [nc_node_address config] /\
      (forall clock, now <= clock -> observed_by clock r -> observed_by clock r') /\
      rt_active_dispatch r' = rt_active_dispatch r
  | (x, r') => effect now (fun _ => rt_active_dispatch r) r (x, r')
  end.
Proof.
  intros Hr. unfold register_node. cbv [mbind st_bind lift get].
  destruct (node_config_validate_cases config) as [->|(e & -> & He)]; [|effect_refused].
  destruct (rt_max_nodes r <=? length (rt_nodes r))%nat; [effect_refused|].
  destruct (existsb _ _); [effect_refused|].
  destruct (allocate_spec r Hr) as ([id|e|] & n & -> & _); [|effect_refused..].
  cbv [modify]. unfold addresses, observed_by. cbn [set_nodes set_next_work_id rt_nodes rt_active_dispatch].
  rewrite fmap_app. split_and!; [done| |done]. intros clock Hle Hc.
  apply Forall_app_2; [done|]. by constructor.
Qed.

Lemma dispatch_selected_effect (now : Z) (r : ChannelRuntime) (w : ScheduledWork) :
  effect now (fun _ => rt_active_dispatch r) r (dispatch_selected w r).
Proof.
  unfold dispatch_selected, find_work. cbv [mbind st_bind get lift].
  destruct (scheduled_class w); try effect_refused.
  3,4: unfold dispatch_periodic; cbv [mbind st_bind get lift];
    destruct (position _ _) as [[i state]|]; cbn [ok_or]; [by apply effect_nodes|effect_refused].
  all: destruct (position _ _) as [[i node]|] eqn:Hp; cbn [ok_or]; [|effect_refused];
    destruct (position_split _ _ _ _ Hp) as (l1 & l2 & Hl & <- & Ha).
  1: destruct (negb _); [effect_refused|].
  all: rewrite (put_node_at _ l1 l2 node) by done; effect_replaced l1 l2 node.
Qed.

Lemma select_work_effect (now : Z) (r : ChannelRuntime) :
  runtime_inv r -> u64 now -> effect now (selected_next id (rt_active_dispatch r)) r (select_work now r).
Proof.
  intros Hr Hnow. unfold select_work. rewrite st_bind_get.
  destruct (rt_active_dispatch r) as [a|] eqn:Hact; [by apply effect_same|]. cbn [is_some].
  destruct (node_candidates_spec now (rt_nodes r) (ri_nodes r Hr) Hnow) as [->|(l & -> & Hl)]; [by apply effect_same|].
  rewrite st_bind_lift_Ok.
  destruct (select_cases r now (l ++ periodic_candidates TimeSyncService r ++ periodic_candidates TelemetryService r))
    as [-> |[(i & c & -> & Hc)|(e & ->)]]; [by apply effect_same| |by apply effect_same].
  cbn [map_err]. rewrite st_bind_lift_Ok. cbv [mbind st_bind modify].
  pose proof (dispatch_selected_effect now r (mkScheduled i (work_id c) (work_node_address c) (work_class c))) as [Hk Ha].
  destruct (dispatch_selected _ r) as [[d|e|] r1]; cbn [fst snd] in *; (split; [|first [done | cbn; congruence]]); [|done..].
  etransitivity; [exact Hk|]. by apply keeps_nodes.
Qed.

(** The drain's selection serves the node it was asked for. *)
Lemma select_shutdown_effect (now : Z) (r : ChannelRuntime) address :
  effect now (selected_next (fun d : option MeasurementDispatch => DispatchMeasurement <$> d) (rt_active_dispatch r)) r
    (select_shutdown_measurement address now r) /\
  (forall d, fst (select_shutdown_measurement address now r) = Ok (Some d) -> md_node_address d = address).
Proof.
  unfold select_shutdown_measurement. rewrite st_bind_get.
  destruct (rt_active_dispatch r) as [a|] eqn:Hact; [by split; [apply effect_same|]|]. cbn [is_some].
  cbv [mbind st_bind]. destruct (find_node_spec address r) as [(i & node & -> & Hat)| ->]; [|by split; [apply effect_same|]].
  destruct Hat as (l1 & l2 & Hl & -> & Ha).
  destruct (is_some _); [by split; [apply effect_same|]|]. destruct (nd_in_flight node); [by split; [apply effect_same|]|].
  destruct (_ && _); [by split; [apply effect_same|]|].
  rewrite (put_node_at _ l1 l2 node) by done. cbv [modify mret st_ret]. split; [effect_replaced l1 l2 node|].
  by intros d [= <-].
Qed.

(** ** Measurements out on the channel *)

(** Distinct nodes have distinct addresses, so at most one measurement each. *)
Definition measurement_dispatch (d : ChannelDispatch) : option MeasurementDispatch :=
  match d with DispatchMeasurement d => Some d | _ => None end.

Lemma measurements_of_nodes (nodes : list NodeScheduleState) :
  md_node_address <$> omap measurement_dispatch (omap node_dispatch nodes) `sublist_of` node_address <$> nodes.
Proof.
  induction nodes as [|node nodes IH]; [constructor|]. cbn. unfold node_dispatch at 1.
  destruct (nd_in_flight node); [|by constructor].
  destruct (is_some _); cbn; by constructor.
Qed.

Lemma measurement_addresses_NoDup (r : ChannelRuntime) :
  runtime_inv r -> NoDup (md_node_address <$> omap measurement_dispatch (outstanding r)).
Proof.
  intros Hr. eapply sublist_NoDup; [apply (ri_addresses r Hr)|]. unfold outstanding. rewrite !omap_app, !fmap_app.
  assert (forall s (l : list PeriodicState), omap measurement_dispatch (omap (state_dispatch s) l) = []) as Hs.
  { intros s l. induction l as [|x l IH]; [done|]. cbn. unfold state_dispatch at 1.
    destruct (ps_in_flight x); [|done]. destruct s; cbn; exact IH. }
  rewrite !Hs. cbn. rewrite app_nil_r. apply measurements_of_nodes.
Qed.

(** What a dispatched measurement promises to its client. *)
Lemma outstanding_measurement_ok (r : ChannelRuntime) d :
  runtime_inv r -> DispatchMeasurement d ∈ outstanding r ->
  u16 (md_max_samples d) /\ md_max_samples d <> 0 /\ md_node_address d ∈ addresses r.
Proof.
  intros Hr (node & Hin & Hd)%outstanding_measurement.
  pose proof (ri_nodes r Hr) as Hn. rewrite list.Forall_forall in Hn. destruct (Hn node Hin) as [Ht Hv _ _ _].
  unfold node_dispatch in Hd. destruct (nd_in_flight node); [|done]. destruct (is_some _); [done|].
  injection Hd as <-. unfold measurement_of. cbn. destruct Ht as (_ & _ & _ & Hm & _). split_and!; [done| |].
  - unfold node_config_validate in Hv. run_in Hv. done.
  - apply list_elem_of_fmap. by exists node.
Qed.

(** A dispatch that is out has its node; with it current no call refuses it. *)
Lemma outstanding_node_at (r : ChannelRuntime) d :
  runtime_inv r -> DispatchMeasurement d ∈ outstanding r ->
  exists i node, in_flight_node_index d r = (Ok (i, node), r) /\ node_at r (md_node_address d) i node /\
    node_dispatch node = Some (DispatchMeasurement d).
Proof.
  intros Hr Hin. destruct (outstanding_measurement r d Hin) as (node & Hn & Hd).
  pose proof Hd as Hd'. unfold node_dispatch in Hd. destruct (nd_in_flight node) eqn:Hf; [|done].
  destruct (is_some _); [done|]. injection Hd as <-.
  destruct (position_of node_address (rt_nodes r) node (ri_addresses r Hr) Hn) as (l1 & l2 & Hl & Hp).
  exists (length l1), node. unfold in_flight_node_index, find_node, at_address. cbv [mbind st_bind get lift].
  unfold node_address in Hp. cbn [measurement_of md_node_address md_work_id md_max_samples]. rewrite Hp. cbn [ok_or snd].
  rewrite Hf, !Z.eqb_refl. split_and!; [done|by exists l1, l2|done].
Qed.

Lemma current_node_at (r : ChannelRuntime) d :
  runtime_inv r -> rt_active_dispatch r = Some (DispatchMeasurement d) ->
  exists i node, active_node_index d r = (Ok (i, node), r) /\ node_at r (md_node_address d) i node /\
    node_dispatch node = Some (DispatchMeasurement d).
Proof.
  intros Hr Hact. destruct (outstanding_node_at r d Hr (ri_active r Hr _ Hact)) as (i & node & H & Hat & Hd).
  exists i, node. split; [|done]. unfold active_node_index. rewrite st_bind_get, bool_decide_true by done. exact H.
Qed.

(** A service is selected only for a node that is there and not in flight. *)
Definition node_free (address : Z) (r : ChannelRuntime) : Prop :=
  exists node, node ∈ rt_nodes r /\ node_address node = address /\ nd_in_flight node = false.

Lemma periodic_candidate_free (s : PeriodicService) (r : ChannelRuntime) c :
  c ∈ periodic_candidates s r ->
  exists state, state ∈ periodic s r /\ work_id c = ps_work_id state /\ work_class c = periodic_class s /\
    node_free (ps_node_address state) r.
Proof.
  unfold periodic_candidates. intros (state & Hin & Hc)%list_elem_of_omap.
  destruct (existsb _ _) eqn:He; [|done]. unfold periodic_candidate in Hc.
  destruct (ps_in_flight state); [done|]. injection Hc as <-. exists state. split_and!; [done..|].
  apply existsb_exists in He as (node & Hn%list_elem_of_In & Hav). unfold node_available, at_address in Hav.
  to_prop. exists node. done.
Qed.

Lemma dispatch_periodic_free (s : PeriodicService) (r r' : ChannelRuntime) id d :
  runtime_inv r -> (exists state, state ∈ periodic s r /\ id = ps_work_id state /\ node_free (ps_node_address state) r) ->
  dispatch_periodic s id r = (Ok (periodic_dispatch s d), r') -> node_free (sd_node_address d) r.
Proof.
  intros Hr (state & Hin & -> & Hfree). unfold dispatch_periodic. cbv [mbind st_bind get lift].
  assert (NoDup (ps_work_id <$> periodic s r)) as Hn.
  { pose proof (ri_ids r Hr) as Hn. unfold work_ids in Hn.
    apply list.NoDup_app in Hn as (_ & _ & Hn). apply list.NoDup_app in Hn as (? & _ & ?). by destruct s. }
  destruct (position_of ps_work_id (periodic s r) state Hn Hin) as (l1 & l2 & Hl & Hp).
  unfold periodic_with_work_id. rewrite Hp. cbn [ok_or].
  rewrite (put_periodic_at _ _ l1 l2 state) by done. intros [= Hd _]. by destruct s; injection Hd as <-.
Qed.

Lemma select_work_free (now : Z) (r r' : ChannelRuntime) s d :
  runtime_inv r -> u64 now -> select_work now r = (Ok (Some (periodic_dispatch s d)), r') ->
  node_free (sd_node_address d) r.
Proof.
  intros Hr Hnow. unfold select_work. rewrite st_bind_get.
  destruct (is_some (rt_active_dispatch r)); [done|].
  destruct (node_candidates_spec now (rt_nodes r) (ri_nodes r Hr) Hnow) as [->|(l & -> & Hl)]; [done|].
  rewrite st_bind_lift_Ok.
  destruct (select_cases r now (l ++ periodic_candidates TimeSyncService r ++ periodic_candidates TelemetryService r))
    as [-> |[(i & c & -> & Hc)|(e & ->)]]; [done| |done].
  cbn [map_err]. rewrite st_bind_lift_Ok. cbv [mbind st_bind modify].
  destruct (dispatch_selected _ r) as [[x|e|] r1] eqn:Hx; [|done..]. intros [= -> _].
  unfold dispatch_selected in Hx. cbn [scheduled_class scheduled_work_id] in Hx.
  assert (Hfree : forall k, c ∈ periodic_candidates k r ->
    exists state, state ∈ periodic k r /\ work_id c = ps_work_id state /\ node_free (ps_node_address state) r).
  { intros k Hk. destruct (periodic_candidate_free k r c Hk) as (state & ? & ? & _ & ?). eauto. }
  rewrite !elem_of_app in Hc. destruct Hc as [Hc|[Hc|Hc]].
  - destruct (Hl c Hc) as (node & _ & _ & _ & Hclass). exfalso. unfold find_work in Hx.
    destruct (is_some (recovery_cause (nd_availability node))); rewrite Hclass in Hx; st_run Hx;
      destruct s; discriminate Hx.
  - destruct (periodic_candidate_free _ r c Hc) as (_ & _ & _ & Hclass & _). rewrite Hclass in Hx.
    destruct s; [by eapply dispatch_periodic_free; [..|exact Hx]; auto|].
    cbn in Hx. unfold dispatch_periodic in Hx. st_run Hx.
  - destruct (periodic_candidate_free _ r c Hc) as (_ & _ & _ & Hclass & _). rewrite Hclass in Hx.
    destruct s; [|by eapply dispatch_periodic_free; [..|exact Hx]; auto].
    cbn in Hx. unfold dispatch_periodic in Hx. st_run Hx.
Qed.

Definition select_failure (e : ChannelRuntimeError) : Prop :=
  e = ClockRegressed \/ exists error, e = RuntimeScheduler error.

Lemma select_work_errors (now : Z) (r r' : ChannelRuntime) e :
  runtime_inv r -> u64 now -> select_work now r = (Err e, r') -> select_failure e.
Proof.
  intros Hr Hnow H. pose proof (select_work_ok r now Hr Hnow) as ((_ & Hne) & _). rewrite H in Hne. cbn in Hne.
  unfold select_work in H. rewrite st_bind_get in H. destruct (is_some (rt_active_dispatch r)); [done|].
  destruct (node_candidates_spec now (rt_nodes r) (ri_nodes r Hr) Hnow) as [Hl|(l & Hl & _)]; rewrite Hl in H;
    [injection H as <- _; by left|].
  rewrite st_bind_lift_Ok in H.
  destruct (select_cases r now (l ++ periodic_candidates TimeSyncService r ++ periodic_candidates TelemetryService r))
    as [Hs|[(i & c & Hs & Hc)|(error & Hs)]]; rewrite Hs in H; [done| |injection H as <- _; right; by eexists].
  cbn [map_err] in H. rewrite st_bind_lift_Ok in H. cbv [mbind st_bind modify] in H.
  destruct (dispatch_selected _ r) as [[x|e0|] r1] eqn:Hx; [done| |done]. injection H as -> _.
  destruct Hne. unfold dispatch_selected, dispatch_periodic, find_work in Hx. by st_run Hx; simplify_eq.
Qed.

Lemma select_shutdown_present (now : Z) (r : ChannelRuntime) address :
  address ∈ addresses r -> exists x, fst (select_shutdown_measurement address now r) = Ok x.
Proof.
  intros (node & -> & Hn)%list_elem_of_fmap. unfold select_shutdown_measurement. rewrite st_bind_get.
  destruct (is_some _); [by eexists|]. cbv [mbind st_bind].
  destruct (find_node_spec (node_address node) r) as [(i & x & -> & _)|Hf].
  - destruct (is_some _); [by eexists|]. destruct (nd_in_flight x); [by eexists|]. destruct (_ && _); by eexists.
  - exfalso. unfold find_node in Hf. rewrite st_bind_get in Hf.
    destruct (position _ _) as [|] eqn:Hp; [done|]. pose proof (position_none _ _ _ Hp Hn) as Hno.
    unfold at_address, node_address in Hno. by rewrite Z.eqb_refl in Hno.
Qed.

(** The service of the current dispatch is found. *)
Lemma current_periodic_at (s : PeriodicService) (r : ChannelRuntime) d :
  runtime_inv r -> rt_active_dispatch r = Some (periodic_dispatch s d) ->
  exists i state, active_periodic_index s d r = (Ok (i, state), r) /\ periodic_state_at s r i state.
Proof.
  intros Hr Hact. pose proof (ri_active r Hr _ Hact) as Hin.
  assert (exists state, state ∈ periodic s r /\ state_dispatch s state = Some (periodic_dispatch s d))
    as (state & Hs & Hd).
  { unfold outstanding in Hin. rewrite !elem_of_app, !list_elem_of_omap in Hin.
    destruct Hin as [(node & _ & H)|[(state & Hs & H)|(state & Hs & H)]].
    - unfold node_dispatch in H. destruct (nd_in_flight node); [|done]. destruct (is_some _), s; discriminate H.
    - exists state. destruct s; [done|]. unfold state_dispatch in H. by destruct (ps_in_flight state).
    - exists state. destruct s; [|done]. unfold state_dispatch in H. by destruct (ps_in_flight state). }
  unfold state_dispatch in Hd. destruct (ps_in_flight state) eqn:Hf; [|done].
  assert (d = mkServiceDispatch (ps_work_id state) (ps_node_address state)) as -> by (destruct s; cbn in Hd; congruence).
  assert (NoDup (ps_node_address <$> periodic s r)) as Hn by (destruct s; apply Hr).
  destruct (position_of ps_node_address (periodic s r) state Hn Hs) as (l1 & l2 & Hl & Hp).
  exists (length l1), state. unfold active_periodic_index, periodic_at.
  rewrite st_bind_get, bool_decide_true by done. cbn [negb sd_node_address sd_work_id]. rewrite Hp. cbn [ok_or].
  rewrite st_bind_lift_Ok. cbn [snd]. rewrite Hf, Z.eqb_refl. split; [done|by exists l1, l2].
Qed.
