(* ===== verification/NodeMetrics.v ===== *)
(** * The metrics of a node (crates/sensor-host/src/node_metrics.rs)

    One block of atomics per node: the channel worker publishes, status readers
    copy. A memory is a value for every cell, a publication the list of its
    atomic operations in program order, and a read sees a memory per load, so
    that publications and reads interleave operation by operation. *)

From stdpp Require Import list.
From S2P Require Export ChannelRuntime MeasurementTransfer ConfigurationWire ObservationWire.

(** ** The cells *)

(** [NodeMetricsAtomic]: the fields; an [AtomicBool] holds 0 or 1. *)
Inductive MetricCell :=
| CBootEpoch | CReceivedCursor | CDurableCursor | CReleasedCursor
| CProducedCursor | CHasProducedCursor
| CLastMeasurement | CHasMeasurement
| CLastTimeSync | CHasTimeSync
| CConfigurationRevision | COutputRateCode | CHasConfiguration
| CPersistedSampleCount | CGapCount | CMissingSampleCount | CContinuityBreakCount
| CAvailabilityCode | CAvailabilityFailures | CRecoveryCauseCode
| CTelemetryGeneration | CTelemetryObserved | CTelemetryCaptured | CTelemetryTemperature.

#[export] Instance MetricCell_eq_dec : EqDecision MetricCell.
Proof. solve_decision. Defined.

Definition NodeMetricsAtomic : Type := MetricCell -> Z.
Definition metrics_default : NodeMetricsAtomic := fun _ => 0.

(** [store], [fetch_add], and [saturating_add] of the file. *)
Inductive AtomicOp :=
| Store (cell : MetricCell) (value : Z)
| FetchAdd (cell : MetricCell) (amount : Z)
| SaturatingAdd (cell : MetricCell) (amount : Z).

Definition update (cell : MetricCell) (value : Z) (m : NodeMetricsAtomic) : NodeMetricsAtomic :=
  fun c => if decide (c = cell) then value else m c.

Definition apply_op (m : NodeMetricsAtomic) (op : AtomicOp) : NodeMetricsAtomic :=
  match op with
  | Store cell value => update cell value m
  | FetchAdd cell amount => update cell (wrapping_add 64 (m cell) amount) m
  | SaturatingAdd cell amount => update cell (saturating_add 64 (m cell) amount) m
  end.

Definition apply_ops (ops : list AtomicOp) (m : NodeMetricsAtomic) : NodeMetricsAtomic :=
  foldl apply_op m ops.

(** ** Publication *)

Definition encode_recovery_cause (cause : RecoveryCause) : Z :=
  match cause with
  | CauseStreamChanged => 1 | CauseInvalidRelease => 2 | CauseInvalidResponse => 3
  | CauseStreamRegressed => 4
  end.

Definition decode_recovery_cause (value : Z) : RecoveryCause :=
  match value with
  | 1 => CauseStreamChanged
  | 2 => CauseInvalidRelease
  | 4 => CauseStreamRegressed
  | _ => CauseInvalidResponse
  end.

Definition encode_availability (availability : NodeAvailability) : Z * Z * Z :=
  match availability with
  | Online => (0, 0, 0)
  | RetryBackoff failures => (1, failures, 0)
  | Recovering cause failures => (2, failures, encode_recovery_cause cause)
  | NodeOffline Unresponsive failures => (3, failures, 0)
  | NodeOffline (OfflineRecovery cause) failures => (4, failures, encode_recovery_cause cause)
  end.

Definition decode_availability (code failures cause : Z) : NodeAvailability :=
  match code with
  | 1 => RetryBackoff failures
  | 2 => Recovering (decode_recovery_cause cause) failures
  | 3 => NodeOffline Unresponsive failures
  | 4 => NodeOffline (OfflineRecovery (decode_recovery_cause cause)) failures
  | _ => Online
  end.

Definition observe_cursors (cursors : DeliveryCursors) : list AtomicOp :=
  [Store CReceivedCursor (received cursors); Store CDurableCursor (durable cursors);
   Store CReleasedCursor (released cursors)].

Definition observe_produced (produced_cursor : option Z) : list AtomicOp :=
  match produced_cursor with
  | Some produced => [Store CProducedCursor produced; Store CHasProducedCursor 1]
  | None => []
  end.

Definition observe_session (s : NodeSession) (produced_cursor : option Z) (now : MonotonicMicros) :
    list AtomicOp :=
  observe_cursors (ns_cursors s) ++ observe_produced produced_cursor ++
  [Store CLastMeasurement now; Store CHasMeasurement 1; Store CBootEpoch (ns_boot_epoch s)].

Definition observe_session_cursors (s : NodeSession) (produced_cursor : option Z) : list AtomicOp :=
  observe_cursors (ns_cursors s) ++ observe_produced produced_cursor ++
  [Store CBootEpoch (ns_boot_epoch s)].

Definition observe_time_sync (now : MonotonicMicros) : list AtomicOp :=
  [Store CLastTimeSync now; Store CHasTimeSync 1].

Definition observe_availability (availability : NodeAvailability) : list AtomicOp :=
  let '(code, failures, cause) := encode_availability availability in
  [Store CAvailabilityFailures failures; Store CRecoveryCauseCode cause; Store CAvailabilityCode code].

Definition observe_telemetry (snapshot : TelemetrySnapshot) (now : MonotonicMicros) : list AtomicOp :=
  [FetchAdd CTelemetryGeneration 1; Store CTelemetryObserved now;
   Store CTelemetryCaptured (captured_device_time_us snapshot);
   Store CTelemetryTemperature (adxl355_temperature snapshot); FetchAdd CTelemetryGeneration 1].

Definition observe_persistence (kind : PersistenceKind) : list AtomicOp :=
  match kind with
  | KindSampleChunk sample_count => [SaturatingAdd CPersistedSampleCount sample_count]
  | KindGap gap => [SaturatingAdd CGapCount 1; SaturatingAdd CMissingSampleCount (missing_count gap)]
  | KindContinuityBreak _ => [SaturatingAdd CContinuityBreakCount 1]
  end.

Definition metrics_observe_configuration (configuration : ObservedConfiguration) : list AtomicOp :=
  [Store CConfigurationRevision (revision configuration);
   Store COutputRateCode (output_rate_code (output_rate (desired configuration)));
   Store CHasConfiguration 1].

(** [NodeMetricsPublisher::new]; the reader shares the memory. *)
Definition metrics_new (initial : DeliveryCursors) : NodeMetricsAtomic :=
  apply_ops (observe_cursors initial) metrics_default.

(** ** Reading *)

Record NodeTelemetryMetricsSnapshot := mkTelemetryMetrics {
  tm_observed_monotonic_us : Z;
  tm_captured_device_time_us : Z;
  tm_adxl355_temperature_raw : Z
}.

Record NodeMetricsSnapshot := mkMetricsSnapshot {
  nm_channel_id : Z;
  nm_node_address : Z;
  nm_boot_epoch : option Z;
  nm_received_cursor : Z;
  nm_durable_cursor : Z;
  nm_released_cursor : Z;
  nm_produced_cursor : option Z;
  nm_last_measurement_monotonic_us : option Z;
  nm_last_time_sync_monotonic_us : option Z;
  nm_configuration_revision : option Z;
  nm_output_rate_code : option Z;
  nm_persisted_sample_count : Z;
  nm_gap_count : Z;
  nm_missing_sample_count : Z;
  nm_continuity_break_count : Z;
  nm_availability : NodeAvailability;
  nm_latest_telemetry : option NodeTelemetryMetricsSnapshot
}.

#[export] Instance NodeTelemetryMetricsSnapshot_eq_dec : EqDecision NodeTelemetryMetricsSnapshot.
Proof. solve_decision. Defined.

(** The memory each load of a read sees, in program order. *)
Definition loads : Type := nat -> NodeMetricsAtomic.

(** [latest_telemetry]: at most [n] attempts from the load [i] on; a temperature
    beyond [u16] panics. *)
Fixpoint telemetry_attempts (n : nat) (i : nat) (l : loads) :
    outcome False (option NodeTelemetryMetricsSnapshot) :=
  match n with
  | O => Ok None
  | S n =>
      let before := l i CTelemetryGeneration in
      if before =? 0 then Ok None
      else if negb (Z.land before 1 =? 0) then telemetry_attempts n (S i) l
      else
        let observed := l (1 + i)%nat CTelemetryObserved in
        let captured := l (2 + i)%nat CTelemetryCaptured in
        let temperature := l (3 + i)%nat CTelemetryTemperature in
        temperature ← (if temperature <=? U16_MAX then Ok temperature else Panic);
        let after := l (4 + i)%nat CTelemetryGeneration in
        if before =? after then Ok (Some (mkTelemetryMetrics observed captured temperature))
        else telemetry_attempts n (5 + i) l
  end.

Definition latest_telemetry (l : loads) : outcome False (option NodeTelemetryMetricsSnapshot) :=
  telemetry_attempts 3 0 l.

Definition optional_counter (present value : Z) : option Z := if present =? 0 then None else Some value.

(** [try_from(..).ok()]. *)
Definition fits (w : Z) (value : Z) : option Z := if value <? 2 ^ w then Some value else None.

(** [snapshot] at one instant; its own loads may see later memories like those of
    [latest_telemetry]. *)
Definition metrics_snapshot (channel_id node_address : Z) (m : NodeMetricsAtomic) :
    outcome False NodeMetricsSnapshot :=
  telemetry ← latest_telemetry (fun _ => m);
  Ok (mkMetricsSnapshot channel_id node_address
    (if m CBootEpoch =? 0 then None else Some (m CBootEpoch))
    (m CReceivedCursor) (m CDurableCursor) (m CReleasedCursor)
    (optional_counter (m CHasProducedCursor) (m CProducedCursor))
    (optional_counter (m CHasMeasurement) (m CLastMeasurement))
    (optional_counter (m CHasTimeSync) (m CLastTimeSync))
    (optional_counter (m CHasConfiguration) (m CConfigurationRevision) ≫= fits 32)
    (optional_counter (m CHasConfiguration) (m COutputRateCode) ≫= fits 8)
    (m CPersistedSampleCount) (m CGapCount) (m CMissingSampleCount) (m CContinuityBreakCount)
    (decode_availability (m CAvailabilityCode) (m CAvailabilityFailures mod 256) (m CRecoveryCauseCode))
    telemetry).

Lemma decode_encode_availability (a : NodeAvailability) :
  let '(code, failures, cause) := encode_availability a in decode_availability code failures cause = a.
Proof. by destruct a as [| |[]|[|[]]]. Qed.

Lemma update_same (cell : MetricCell) (value : Z) (m : NodeMetricsAtomic) : update cell value m cell = value.
Proof. unfold update. by rewrite decide_True. Qed.
Lemma update_other (cell c : MetricCell) (value : Z) (m : NodeMetricsAtomic) :
  cell <> c -> update cell value m c = m c.
Proof. intros. unfold update. by rewrite decide_False by congruence. Qed.

(** ** Publications interleaved with a read *)

Inductive Observation :=
| ObsSession (s : NodeSession) (produced : option Z) (now : MonotonicMicros)
| ObsSessionCursors (s : NodeSession) (produced : option Z)
| ObsTimeSync (now : MonotonicMicros)
| ObsAvailability (availability : NodeAvailability)
| ObsTelemetry (snapshot : TelemetrySnapshot) (now : MonotonicMicros)
| ObsPersistence (kind : PersistenceKind)
| ObsConfiguration (configuration : ObservedConfiguration).

Definition observation_ops (o : Observation) : list AtomicOp :=
  match o with
  | ObsSession s produced now => observe_session s produced now
  | ObsSessionCursors s produced => observe_session_cursors s produced
  | ObsTimeSync now => observe_time_sync now
  | ObsAvailability availability => observe_availability availability
  | ObsTelemetry snapshot now => observe_telemetry snapshot now
  | ObsPersistence kind => observe_persistence kind
  | ObsConfiguration configuration => metrics_observe_configuration configuration
  end.

(** What a published snapshot reads as. *)
Definition published (o : Observation) : option NodeTelemetryMetricsSnapshot :=
  match o with
  | ObsTelemetry snapshot now =>
      Some (mkTelemetryMetrics now (captured_device_time_us snapshot) (adxl355_temperature snapshot))
  | _ => None
  end.

Definition observation_typed (o : Observation) : Prop :=
  match o with ObsTelemetry snapshot _ => u16 (adxl355_temperature snapshot) | _ => True end.

(** The memory once [k] of the operations are done. *)
Definition memory_at (m : NodeMetricsAtomic) (ops : list AtomicOp) (k : nat) : NodeMetricsAtomic :=
  apply_ops (take k ops) m.

(** *** Telemetry cells *)

Definition telemetry_cells (m : NodeMetricsAtomic) : NodeTelemetryMetricsSnapshot :=
  mkTelemetryMetrics (m CTelemetryObserved) (m CTelemetryCaptured) (m CTelemetryTemperature).

Definition generation (m : NodeMetricsAtomic) : Z := m CTelemetryGeneration.

(** Every memory on the way leaves the generation or moves it on by one, and
    changes the telemetry cells only while it is odd. *)
Definition follows (m m' : NodeMetricsAtomic) : Prop :=
  generation m <= generation m' /\
  (generation m' = generation m -> Z.Even (generation m) -> telemetry_cells m' = telemetry_cells m).

#[export] Instance follows_reflexive : Reflexive follows.
Proof. by split. Qed.

Lemma follows_trans m1 m2 m3 : follows m1 m2 -> follows m2 m3 -> follows m1 m3.
Proof.
  intros [H1 H1'] [H2 H2']. split; [lia|]. intros Hg He.
  assert (generation m2 = generation m1) as Hm by lia.
  rewrite H2', H1'; [done|done|done|lia|by rewrite Hm].
Qed.

(** An even, non-zero generation shows a snapshot of [ps]; the cells always fit. *)
Definition shows (ps : list NodeTelemetryMetricsSnapshot) (m : NodeMetricsAtomic) : Prop :=
  (Z.Even (generation m) -> generation m <> 0 -> telemetry_cells m ∈ ps) /\
  0 <= m CTelemetryTemperature <= U16_MAX /\ 0 <= generation m.

Lemma shows_more ps ps' m : shows ps m -> shows (ps ++ ps') m.
Proof. intros [H1 H2]. split; [|done]. intros. rewrite elem_of_app. auto. Qed.

Lemma memory_at_app m a b k :
  memory_at m (a ++ b) k =
  if (k <=? length a)%nat then memory_at m a k else memory_at (apply_ops a m) b (k - length a).
Proof.
  unfold memory_at, apply_ops. destruct (Nat.leb_spec k (length a)).
  - by rewrite take_app_le.
  - rewrite take_app_ge by lia. by rewrite foldl_app.
Qed.

Lemma memory_at_all m ops k : (length ops <= k)%nat -> memory_at m ops k = apply_ops ops m.
Proof. intros. unfold memory_at. by rewrite take_ge. Qed.

Definition untouched (op : AtomicOp) : Prop :=
  match op with Store c _ | FetchAdd c _ | SaturatingAdd c _ =>
    c <> CTelemetryGeneration /\ c <> CTelemetryObserved /\ c <> CTelemetryCaptured /\ c <> CTelemetryTemperature
  end.

Lemma apply_untouched (ops : list AtomicOp) m :
  Forall untouched ops ->
  telemetry_cells (apply_ops ops m) = telemetry_cells m /\ generation (apply_ops ops m) = generation m.
Proof.
  intros Ho. revert m. induction Ho as [|op ops Hop _ IH]; intros m; [done|].
  change (apply_ops (op :: ops) m) with (apply_ops ops (apply_op m op)). destruct (IH (apply_op m op)) as [-> ->].
  unfold telemetry_cells, generation. destruct op; destruct Hop as (? & ? & ? & ?); cbn [apply_op];
    by rewrite !update_other.
Qed.

Lemma observation_untouched (o : Observation) : published o = None -> Forall untouched (observation_ops o).
Proof.
  destruct o as [s [p|] now|s [p|]|now|a|s now|[]|c]; intros Hp; try done;
    cbn [observation_ops]; unfold observe_session, observe_session_cursors, observe_cursors, observe_time_sync,
    observe_availability; try (destruct (encode_availability a) as [[code failures] cause]);
    repeat constructor; done.
Qed.

(** *** One publication *)

(** The memories a publication goes through. *)
Record publishes (ps : list NodeTelemetryMetricsSnapshot) (m : NodeMetricsAtomic) (ops : list AtomicOp)
    (steps : Z) : Prop := {
  pub_follows : forall j k, (j <= k)%nat -> follows (memory_at m ops j) (memory_at m ops k);
  pub_shows : forall k, shows ps (memory_at m ops k);
  pub_even : Z.Even (generation (apply_ops ops m));
  pub_generation : generation (apply_ops ops m) = generation m + steps
}.

Lemma publishes_quiet ps m ops :
  Forall untouched ops -> shows ps m -> Z.Even (generation m) -> publishes ps m ops 0.
Proof.
  intros Ho Hs He. assert (forall k, telemetry_cells (memory_at m ops k) = telemetry_cells m /\
    generation (memory_at m ops k) = generation m) as Hk.
  { intros k. apply apply_untouched. by apply Forall_take. }
  destruct (apply_untouched ops m Ho) as [_ Hg]. split.
  - intros j k _. destruct (Hk j) as [H1 H2], (Hk k) as [H3 H4]. split; [by rewrite H2, H4|]. intros _ _. congruence.
  - intros k. destruct (Hk k) as [H1 H2]. unfold shows in *. rewrite H1, H2.
    assert (memory_at m ops k CTelemetryTemperature = m CTelemetryTemperature) as ->; [|done].
    by injection H1.
  - by rewrite Hg.
  - rewrite Hg. lia.
Qed.

Lemma publishes_telemetry ps m snapshot now :
  shows ps m -> Z.Even (generation m) -> u16 (adxl355_temperature snapshot) -> generation m + 2 < 2 ^ 64 ->
  publishes (ps ++ [mkTelemetryMetrics now (captured_device_time_us snapshot) (adxl355_temperature snapshot)]) m
    (observe_telemetry snapshot now) 2.
Proof.
  intros (Hs & Ht & Hg) He Hu Hlt. unfold generation in *.
  assert (wrapping_add 64 (m CTelemetryGeneration) 1 = m CTelemetryGeneration + 1) as Hw1
    by (unfold wrapping_add; rewrite Z.mod_small; lia).
  assert (wrapping_add 64 (m CTelemetryGeneration + 1) 1 = m CTelemetryGeneration + 2) as Hw2
    by (unfold wrapping_add; rewrite Z.mod_small; lia).
  assert (forall k, exists g cells, generation (memory_at m (observe_telemetry snapshot now) k) = m CTelemetryGeneration + g /\
    telemetry_cells (memory_at m (observe_telemetry snapshot now) k) = cells /\
    0 <= tm_adxl355_temperature_raw cells <= U16_MAX /\
    ((k = 0%nat /\ g = 0 /\ cells = telemetry_cells m) \/ ((0 < k < 5)%nat /\ g = 1) \/
     ((5 <= k)%nat /\ g = 2 /\
      cells = mkTelemetryMetrics now (captured_device_time_us snapshot) (adxl355_temperature snapshot)))) as Hk.
  { intros k. unfold memory_at, observe_telemetry, generation, telemetry_cells.
    destruct k as [|[|[|[|[|k]]]]]; rewrite ?(take_ge _ (S (S (S (S (S k)))))) by (cbn; lia);
      [exists 0|exists 1|exists 1|exists 1|exists 1|exists 2]; eexists;
      cbn [take apply_ops foldl apply_op];
      repeat first [rewrite update_same | rewrite update_other by done | rewrite Hw1 | rewrite Hw2].
    all: (split; [lia|split; [reflexivity|]]); cbn [tm_adxl355_temperature_raw];
      (split; [unfold U16_MAX, unsigned in *; lia|]); auto with lia. }
  split.
  - intros j k Hjk. destruct (Hk j) as (g & c & H1 & H2 & _ & H3), (Hk k) as (g' & c' & H1' & H2' & _ & H3').
    unfold follows. rewrite H1, H1', H2, H2'. split; [lia|]. intros Hgg Heven.
    destruct H3 as [(? & ? & ->)|[[? ->]|(? & ? & ->)]], H3' as [(? & ? & ->)|[[? ->]|(? & ? & ->)]]; try done; try lia.
    exfalso. destruct He as [x He], Heven as [y Heven]. lia.
  - intros k. destruct (Hk k) as (g & c & H1 & H2 & Htemp & H3). unfold shows. rewrite H1, H2.
    assert (memory_at m (observe_telemetry snapshot now) k CTelemetryTemperature = tm_adxl355_temperature_raw c) as ->
      by by rewrite <- H2.
    split_and!; [|lia|lia|destruct H3 as [(? & ? & ?)|[[? ?]|(? & ? & ?)]]; lia].
    intros Heven Hne. rewrite elem_of_app, list_elem_of_singleton.
    destruct H3 as [(? & -> & ->)|[[? ->]|(? & ? & ->)]]; [left|exfalso|by right].
    + rewrite Z.add_0_r in Heven, Hne. by apply Hs.
    + destruct He as [x He], Heven as [y Heven]. lia.
  - destruct (Hk 5%nat) as (g & c & H1 & _ & _ & H3). rewrite memory_at_all in H1 by (cbn; lia). rewrite H1.
    destruct H3 as [(? & ? & ?)|[[? ?]|(? & -> & ?)]]; [lia..|]. destruct He as [x He]. exists (x + 1). lia.
  - destruct (Hk 5%nat) as (g & c & H1 & _ & _ & H3). rewrite memory_at_all in H1 by (cbn; lia). rewrite H1.
    unfold generation. destruct H3 as [(? & ? & ?)|[[? ?]|(? & -> & ?)]]; lia.
Qed.

(** *** Any number of publications *)

Definition all_ops (os : list Observation) : list AtomicOp := concat (map observation_ops os).

(** The steps a publication moves the generation. *)
Definition generation_steps (os : list Observation) : Z := 2 * Z.of_nat (length (omap published os)).

Lemma publishes_app ps m a b k1 k2 ps' :
  publishes ps m a k1 -> publishes (ps ++ ps') (apply_ops a m) b k2 ->
  publishes (ps ++ ps') m (a ++ b) (k1 + k2).
Proof.
  intros [Hf1 Hs1 He1 Hg1] [Hf2 Hs2 He2 Hg2].
  assert (forall k, follows (memory_at m a k) (apply_ops a m)) as Hend.
  { intros k. rewrite <- (memory_at_all m a (k + length a)) by lia. apply Hf1. lia. }
  assert (apply_ops (a ++ b) m = apply_ops b (apply_ops a m)) as Happ by apply foldl_app.
  split.
  - intros j k Hjk. rewrite !memory_at_app.
    destruct (Nat.leb_spec j (length a)), (Nat.leb_spec k (length a)); [by apply Hf1| |lia|apply Hf2; lia].
    eapply follows_trans; [apply Hend|]. exact (Hf2 0%nat _ ltac:(lia)).
  - intros k. rewrite memory_at_app. destruct (k <=? length a)%nat; [apply shows_more, Hs1|apply Hs2].
  - by rewrite Happ.
  - rewrite Happ, Hg2, Hg1. lia.
Qed.

Lemma publishes_all (os : list Observation) ps m :
  Forall observation_typed os -> shows ps m -> Z.Even (generation m) ->
  generation m + generation_steps os < 2 ^ 64 ->
  publishes (ps ++ omap published os) m (all_ops os) (generation_steps os).
Proof.
  intros Ht. revert ps m. induction Ht as [|o os Ho Ht IH]; intros ps m Hs He Hlt.
  { apply publishes_quiet; [constructor|by apply shows_more|done]. }
  unfold all_ops, generation_steps in *. cbn [map concat omap list_omap] in *.
  fold (all_ops os) in *. destruct (published o) as [p|] eqn:Hp.
  - destruct o as [| | | |snapshot now| |]; try done. injection Hp as <-. cbn [observation_ops length] in *.
    pose proof (publishes_telemetry ps m snapshot now Hs He Ho ltac:(lia)) as Hpub.
    match goal with |- publishes (ps ++ ?p :: ?l) _ _ ?n =>
      replace (ps ++ p :: l) with ((ps ++ [p]) ++ l) by (by rewrite <- (assoc_L (++)));
      replace n with (2 + 2 * Z.of_nat (length l)) by lia end.
    eapply publishes_app; [exact Hpub|]. apply IH; [|apply Hpub|rewrite (pub_generation _ _ _ _ Hpub); lia].
    rewrite <- (memory_at_all _ _ 5) by (cbn; lia). apply Hpub.
  - pose proof (publishes_quiet ps m (observation_ops o) (observation_untouched o Hp) Hs He) as Hpub.
    replace (2 * Z.of_nat (length (omap published os))) with (0 + 2 * Z.of_nat (length (omap published os))) by lia.
    eapply publishes_app; [exact Hpub|]. apply IH; [|apply Hpub|rewrite (pub_generation _ _ _ _ Hpub); lia].
    rewrite <- (memory_at_all _ _ (length (observation_ops o))) by done. apply Hpub.
Qed.

(** *** The reader *)

Lemma telemetry_attempts_spec ps (at_ : loads) (n i : nat) :
  (forall j k, (j <= k)%nat -> follows (at_ j) (at_ k)) -> (forall k, shows ps (at_ k)) ->
  match telemetry_attempts n i at_ with
  | Ok (Some p) => p ∈ ps
  | Ok None => True
  | _ => False
  end.
Proof.
  intros Hf Hs. revert i. induction n as [|n IH]; intros i; cbn [telemetry_attempts]; [done|].
  destruct (Z.eqb_spec (at_ i CTelemetryGeneration) 0) as [|Hne]; [done|].
  destruct (Z.eqb_spec (Z.land (at_ i CTelemetryGeneration) 1) 0) as [Heven|]; cbn [negb]; [|apply IH].
  destruct (Hs (3 + i)%nat) as (_ & Htemp & _).
  rewrite (proj2 (Z.leb_le _ _)) by apply Htemp. cbn [mbind outcome_bind].
  destruct (Z.eqb_spec (at_ i CTelemetryGeneration) (at_ (4 + i)%nat CTelemetryGeneration)) as [Heq|]; [|apply IH].
  assert (Z.Even (generation (at_ i))) as He.
  { apply Z.even_spec. change 1 with (Z.ones 1) in Heven. rewrite Z.land_ones in Heven by lia.
    rewrite Zeven_mod. by apply Z.eqb_eq. }
  assert (forall k, (k <= 4)%nat -> telemetry_cells (at_ (k + i)%nat) = telemetry_cells (at_ i)) as Hcells.
  { intros k Hk. destruct (Hf i (k + i)%nat ltac:(lia)) as [H1 H2].
    destruct (Hf (k + i)%nat (4 + i)%nat ltac:(lia)) as [H3 _]. apply H2; [|done]. unfold generation in *. lia. }
  pose proof (Hcells 1%nat ltac:(lia)) as H1. pose proof (Hcells 2%nat ltac:(lia)) as H2.
  pose proof (Hcells 3%nat ltac:(lia)) as H3. injection H1 as H1 _ _. injection H2 as _ H2 _. injection H3 as _ _ H3.
  unfold Nat.add in H1, H2, H3 |- *. rewrite H1, H2, H3.
  by apply (Hs i).
Qed.

Lemma metrics_new_shows (initial : DeliveryCursors) :
  shows [] (metrics_new initial) /\ generation (metrics_new initial) = 0.
Proof. by split. Qed.

Lemma final_cells (os : list Observation) m :
  telemetry_cells (apply_ops (all_ops os) m) = default (telemetry_cells m) (list.last (omap published os)).
Proof.
  revert m. induction os as [|o os IH]; intros m; [done|]. unfold all_ops. cbn [map concat omap list_omap].
  unfold apply_ops in *. rewrite foldl_app. fold (all_ops os). rewrite IH.
  destruct (published o) as [p|] eqn:Hp.
  - rewrite last_cons. destruct (list.last (omap published os)); [done|]. cbn [default].
    destruct o; try done. injection Hp as <-. cbn [observation_ops observe_telemetry foldl apply_op].
    unfold telemetry_cells. by repeat first [rewrite update_same | rewrite update_other by done].
  - f_equal. apply (apply_untouched (observation_ops o)), observation_untouched, Hp.
Qed.

(** C33. A status reader never sees a mixed telemetry snapshot: whatever the
    channel worker publishes and however the atomic operations of publications
    and the loads of one read interleave, the read does not panic and a snapshot
    it returns is one that was published as a whole; and once all publications
    are over it returns the last one. *)
Theorem telemetry_snapshot_whole (initial : DeliveryCursors) (os : list Observation) (times : nat -> nat) :
  Forall observation_typed os -> generation_steps os < 2 ^ 64 ->
  (forall j k, (j <= k)%nat -> (times j <= times k)%nat) ->
  let read := latest_telemetry (fun k => memory_at (metrics_new initial) (all_ops os) (times k)) in
  match read with
  | Ok (Some p) => p ∈ omap published os
  | Ok None => True
  | _ => False
  end /\
  ((length (all_ops os) <= times 0)%nat -> read = Ok (list.last (omap published os))).
Proof.
  intros Ht Hlt Htimes. destruct (metrics_new_shows initial) as [Hs Hg].
  pose proof (publishes_all os [] _ Ht Hs ltac:(by exists 0) ltac:(rewrite Hg; lia)) as Hp. cbn [app] in Hp.
  split.
  { apply telemetry_attempts_spec; [|by intros; apply Hp]. intros j k Hjk. by apply Hp, Htimes. }
  intros Hdone. unfold latest_telemetry.
  assert (forall k, memory_at (metrics_new initial) (all_ops os) (times k) = apply_ops (all_ops os) (metrics_new initial))
    as Hmem by (intros k; apply memory_at_all; pose proof (Htimes 0%nat k ltac:(lia)); lia).
  cbn [telemetry_attempts]. rewrite !Hmem.
  pose proof (pub_generation _ _ _ _ Hp) as Hgen. pose proof (pub_even _ _ _ _ Hp) as Heven.
  pose proof (final_cells os (metrics_new initial)) as Hcells.
  pose proof (pub_shows _ _ _ _ Hp (length (all_ops os))) as (_ & Htemp & _). rewrite memory_at_all in Htemp by done.
  unfold generation in *. set (final := apply_ops (all_ops os) (metrics_new initial)) in *.
  rewrite Hg in Hgen. unfold generation_steps in Hgen.
  destruct (list.last (omap published os)) as [p|] eqn:Hlast.
  - destruct (Z.eqb_spec (final CTelemetryGeneration) 0) as [Hz|_].
    { rewrite Hgen in Hz. destruct (omap published os); [done|cbn in Hz; lia]. }
    assert (Z.land (final CTelemetryGeneration) 1 = 0) as ->.
    { change 1 with (Z.ones 1). rewrite Z.land_ones by lia. destruct Heven as [x ->].
      change (2 ^ 1) with 2. by rewrite Z.mul_comm, Z.mod_mul. }
    cbn [Z.eqb negb]. rewrite (proj2 (Z.leb_le _ _)) by apply Htemp. cbn [mbind outcome_bind].
    rewrite Z.eqb_refl. change (telemetry_cells final = p) in Hcells. by rewrite <- Hcells.
  - apply last_None in Hlast. rewrite Hlast in Hgen. by rewrite Hgen.
Qed.

(** A read that starts before a second publication and ends after it: the first
    attempt fails, the second succeeds. *)
Definition first_telemetry : Observation := ObsTelemetry (ObservationWire.mkSnapshot 500 1885) 1000.
Definition second_telemetry : Observation := ObsTelemetry (ObservationWire.mkSnapshot 900 1886) 2000.
Definition racing_read (k : nat) : nat := if (k <=? 2)%nat then 5 + k else 10.

Lemma telemetry_snapshot_whole_witness :
  exists p, latest_telemetry (fun k => memory_at (metrics_new cursors_empty)
      (all_ops [first_telemetry; second_telemetry]) (racing_read k)) = Ok (Some p) /\
  p = mkTelemetryMetrics 2000 900 1886 /\ p ∈ omap published [first_telemetry; second_telemetry].
Proof.
  pose proof (telemetry_snapshot_whole cursors_empty [first_telemetry; second_telemetry] racing_read) as H.
  exists (mkTelemetryMetrics 2000 900 1886). split; [reflexivity|]. split; [done|].
  refine (proj1 (H _ _ _)); [repeat constructor; vm_compute; congruence|reflexivity|].
  intros j k Hjk. unfold racing_read. destruct (Nat.leb_spec j 2), (Nat.leb_spec k 2); lia.
Defined.
