(* ===== verification/MeasurementCoordinator.v ===== *)
(** * The work coordinator of a channel (crates/sensor-host/src/measurement_coordinator.rs)

    The coordinator turns what the channel runtime selects into work of the
    channel agent and settles its results: it owns the delivery session of every
    node at rest, lends it to a transfer while its measurement is on the wire or
    on its way to storage, and takes it back with the outcome. It also drains the
    channel: no new work, then one read of every node after acquisition stopped. *)

From S2P Require Export ChannelRuntime NodeMetrics ChannelAgent StreamRecovery Persistence.
From S2P Require BoundedWriter GroupedWriter.

(** ** Records handed to the observation writers *)

(** time_persistence.rs *)
Record TimeObservationRecord := mkTimeRecord {
  tr_hardware_id : HardwareId;
  tr_node_address : Z;
  tr_observation : ClockObservation
}.

Inductive TimeObservationRecordError := TimeInvalidNodeAddress (address : Z).

Definition time_record_new (hardware_id : HardwareId) (node_address : Z) (observation : ClockObservation) :
    outcome TimeObservationRecordError TimeObservationRecord :=
  if (node_address =? HOST_ADDRESS) || (node_address =? BROADCAST_ADDRESS)
  then Err (TimeInvalidNodeAddress node_address)
  else Ok (mkTimeRecord hardware_id node_address observation).

Inductive TimeObservationSubmitErrorKind := TimeQueueFull | TimeDisconnected.

Record TimeObservationSubmitError := mkTimeSubmitError {
  ts_kind : TimeObservationSubmitErrorKind;
  ts_record : TimeObservationRecord
}.

Class TimeObservationSubmitter (T : Type) : Type :=
  time_try_submit : TimeObservationRecord -> st T TimeObservationSubmitError unit.
#[export] Hint Mode TimeObservationSubmitter ! : typeclass_instances.

(** A channel without a time archive: every observation comes back. *)
Inductive RejectingTimeObservationSubmitter := TimeRejecting.
#[export] Instance rejecting_time : TimeObservationSubmitter RejectingTimeObservationSubmitter :=
  fun record => throw (mkTimeSubmitError TimeDisconnected record).

(** telemetry_repository.rs, telemetry_persistence.rs *)
Record TelemetryObservationRecord := mkTelemetryRecord {
  lr_hardware_id : HardwareId;
  lr_node_address : Z;
  lr_boot_epoch : BootEpoch;
  lr_snapshot : TelemetrySnapshot
}.

Inductive TelemetryObservationRecordError :=
| TelemetryRecordNodeAddress (address : Z)
| TelemetryZeroBootEpoch.

Definition telemetry_record_new (hardware_id : HardwareId) (node_address : Z) (boot_epoch : BootEpoch)
    (snapshot : TelemetrySnapshot) : outcome TelemetryObservationRecordError TelemetryObservationRecord :=
  if (node_address =? HOST_ADDRESS) || (node_address =? BROADCAST_ADDRESS)
  then Err (TelemetryRecordNodeAddress node_address)
  else if boot_epoch =? 0 then Err TelemetryZeroBootEpoch
  else Ok (mkTelemetryRecord hardware_id node_address boot_epoch snapshot).

Inductive TelemetryObservationSubmitErrorKind := TelemetryQueueFull | TelemetryDisconnected.

Record TelemetryObservationSubmitError := mkTelemetrySubmitError {
  ls_kind : TelemetryObservationSubmitErrorKind;
  ls_record : TelemetryObservationRecord
}.

Class TelemetryObservationSubmitter (T : Type) : Type :=
  telemetry_try_submit : TelemetryObservationRecord -> st T TelemetryObservationSubmitError unit.
#[export] Hint Mode TelemetryObservationSubmitter ! : typeclass_instances.

Inductive RejectingTelemetryObservationSubmitter := TelemetryRejecting.
#[export] Instance rejecting_telemetry : TelemetryObservationSubmitter RejectingTelemetryObservationSubmitter :=
  fun record => throw (mkTelemetrySubmitError TelemetryDisconnected record).

(** bounded_writer.rs *)
Class PersistenceSubmitter (Q : Type) : Type :=
  submit_record : PersistenceEnvelope -> st Q BoundedWriter.SubmitError BoundedWriter.WriteJobId.
#[export] Hint Mode PersistenceSubmitter ! : typeclass_instances.

#[export] Instance worker_submitter {S E : Type} `{DurableMeasurementSink S E} :
  PersistenceSubmitter (BoundedWriter.BoundedPersistenceWorker S E) := BoundedWriter.submit.

(** ** The coordinator *)

Inductive MeasurementRecoveryCause :=
| RecoverStreamChanged (epoch : BootEpoch)
| RecoverInvalidRelease (state : StreamState)
| RecoverInvalidResponse
| RecoverStreamRegressed.

Definition cause_of_reason (value : RecoveryReason) : MeasurementRecoveryCause :=
  match value with
  | ReasonStreamChanged epoch => RecoverStreamChanged epoch
  | ReasonInvalidRelease state => RecoverInvalidRelease state
  | ReasonInvalidResponse => RecoverInvalidResponse
  end.

Inductive MeasurementSettlement :=
| Persisted (node_address : Z) (progress : MeasurementProgress) (kind : PersistenceKind)
| SettledNoData (node_address : Z) (progress : MeasurementProgress)
| RetryScheduled (node_address : Z)
| SettledRecovery (node_address : Z) (cause : MeasurementRecoveryCause).

Inductive TimeSyncSettlement :=
| TimeSubmitted (node_address : Z)
| TimeRetryScheduled (node_address : Z)
| TimeBackpressured (node_address : Z) (reason : TimeObservationSubmitErrorKind).

Inductive TelemetrySettlement :=
| TelemetrySubmitted (node_address : Z)
| TelemetryRetryScheduled (node_address : Z)
| TelemetryBackpressured (node_address : Z) (reason : TelemetryObservationSubmitErrorKind).

(** The metrics publisher and its reader share one memory. *)
Record ManagedSession := mkManaged {
  ms_node_address : Z;
  ms_session : option NodeSession;
  ms_metrics : NodeMetricsAtomic
}.

Record PendingCompletion := mkPendingCompletion {
  pn_dispatch : MeasurementDispatch;
  pn_transfer : MeasurementTransfer;
  pn_envelope : option PersistenceEnvelope
}.

Record InFlightWrite := mkInFlight {
  iw_job_id : BoundedWriter.WriteJobId;
  iw_dispatch : MeasurementDispatch;
  iw_transfer : MeasurementTransfer
}.

Record ChannelWorkCoordinator := mkCoordinator {
  wc_channel_id : Z;
  wc_runtime : ChannelRuntime;
  wc_sessions : list ManagedSession;
  wc_active_dispatch : option MeasurementDispatch;
  wc_active_recovery : option ServiceDispatch;
  wc_active_time_sync : option ServiceDispatch;
  wc_active_telemetry : option ServiceDispatch;
  wc_pending_completion : option PendingCompletion;
  wc_in_flight_writes : list InFlightWrite;
  wc_quiescing : bool;
  wc_shutdown_drain_nodes : option (list Z)
}.

Inductive MeasurementCoordinatorError :=
| CoordDuplicateNode (address : Z)
| CoordUnknownNode (address : Z)
| SessionUnavailable (address : Z)
| NoActiveDispatch
| CompletedTransferUnavailable
| WrongCompletedNode
| UnexpectedSessionPhase
| CoordInvariantViolation
| PersistenceAlreadyHandedOff
| MissingObservedProgress
| UnknownWriteJob (id : BoundedWriter.WriteJobId)
| DurabilityNotConfirmed (id : BoundedWriter.WriteJobId)
| MissingPendingReceipt (id : BoundedWriter.WriteJobId)
| CoordRuntime (error : ChannelRuntimeError)
| CoordAgent (error : ChannelAgentError)
| CoordTransfer (error : MeasurementTransferError)
| TimeRecordError (error : TimeObservationRecordError)
| TelemetryRecordError (error : TelemetryObservationRecordError)
| ShutdownDrainNotReady
| ShutdownDrainNotActive
| ShutdownDrainIncomplete
| ShutdownDrainOrder
| ResumeNotReady
| ReconfigurationNotQuiescent
| CoordStreamRecovery (error : StreamRecoveryError)
| ResumeHardwareMismatch (address : Z).

Inductive MeasurementSettlementError (E : Type) :=
| SettleCoordinator (error : MeasurementCoordinatorError)
| SettlePersistence (error : PersistenceError E).
Arguments SettleCoordinator {E} error.
Arguments SettlePersistence {E} error.

Inductive MeasurementHandoffError :=
| HandoffCoordinator (error : MeasurementCoordinatorError)
| HandoffTransfer (error : MeasurementTransferError)
| HandoffEnvelope (error : PersistenceEnvelopeError)
| HandoffSubmit (kind : BoundedWriter.SubmitErrorKind).

Inductive MeasurementWriteSettlementError (E : Type) :=
| WriteUnknownJob (id : BoundedWriter.WriteJobId)
| WriteStorage (id : BoundedWriter.WriteJobId) (error : E)
| WriteTransfer (error : MeasurementTransferError)
| WriteCoordinator (error : MeasurementCoordinatorError).
Arguments WriteUnknownJob {E} id.
Arguments WriteStorage {E} id error.
Arguments WriteTransfer {E} error.
Arguments WriteCoordinator {E} error.

Abbreviation coordinator := (st ChannelWorkCoordinator MeasurementCoordinatorError).
Abbreviation channel_work := (st (ChannelWorkCoordinator * ChannelAgent) MeasurementCoordinatorError).

(** Assignments to one field of [self]. *)
Definition set_wc_runtime (x : ChannelRuntime) (s : ChannelWorkCoordinator) : ChannelWorkCoordinator :=
  mkCoordinator (wc_channel_id s) x (wc_sessions s) (wc_active_dispatch s) (wc_active_recovery s)
    (wc_active_time_sync s) (wc_active_telemetry s) (wc_pending_completion s) (wc_in_flight_writes s)
    (wc_quiescing s) (wc_shutdown_drain_nodes s).
Definition set_wc_sessions (x : list ManagedSession) (s : ChannelWorkCoordinator) : ChannelWorkCoordinator :=
  mkCoordinator (wc_channel_id s) (wc_runtime s) x (wc_active_dispatch s) (wc_active_recovery s)
    (wc_active_time_sync s) (wc_active_telemetry s) (wc_pending_completion s) (wc_in_flight_writes s)
    (wc_quiescing s) (wc_shutdown_drain_nodes s).
Definition set_wc_dispatch (x : option MeasurementDispatch) (s : ChannelWorkCoordinator) :
    ChannelWorkCoordinator :=
  mkCoordinator (wc_channel_id s) (wc_runtime s) (wc_sessions s) x (wc_active_recovery s)
    (wc_active_time_sync s) (wc_active_telemetry s) (wc_pending_completion s) (wc_in_flight_writes s)
    (wc_quiescing s) (wc_shutdown_drain_nodes s).
Definition set_wc_recovery (x : option ServiceDispatch) (s : ChannelWorkCoordinator) :
    ChannelWorkCoordinator :=
  mkCoordinator (wc_channel_id s) (wc_runtime s) (wc_sessions s) (wc_active_dispatch s) x
    (wc_active_time_sync s) (wc_active_telemetry s) (wc_pending_completion s) (wc_in_flight_writes s)
    (wc_quiescing s) (wc_shutdown_drain_nodes s).
Definition set_wc_time_sync (x : option ServiceDispatch) (s : ChannelWorkCoordinator) :
    ChannelWorkCoordinator :=
  mkCoordinator (wc_channel_id s) (wc_runtime s) (wc_sessions s) (wc_active_dispatch s)
    (wc_active_recovery s) x (wc_active_telemetry s) (wc_pending_completion s) (wc_in_flight_writes s)
    (wc_quiescing s) (wc_shutdown_drain_nodes s).
Definition set_wc_telemetry (x : option ServiceDispatch) (s : ChannelWorkCoordinator) :
    ChannelWorkCoordinator :=
  mkCoordinator (wc_channel_id s) (wc_runtime s) (wc_sessions s) (wc_active_dispatch s)
    (wc_active_recovery s) (wc_active_time_sync s) x (wc_pending_completion s) (wc_in_flight_writes s)
    (wc_quiescing s) (wc_shutdown_drain_nodes s).
Definition set_wc_pending (x : option PendingCompletion) (s : ChannelWorkCoordinator) :
    ChannelWorkCoordinator :=
  mkCoordinator (wc_channel_id s) (wc_runtime s) (wc_sessions s) (wc_active_dispatch s)
    (wc_active_recovery s) (wc_active_time_sync s) (wc_active_telemetry s) x (wc_in_flight_writes s)
    (wc_quiescing s) (wc_shutdown_drain_nodes s).
Definition set_wc_writes (x : list InFlightWrite) (s : ChannelWorkCoordinator) : ChannelWorkCoordinator :=
  mkCoordinator (wc_channel_id s) (wc_runtime s) (wc_sessions s) (wc_active_dispatch s)
    (wc_active_recovery s) (wc_active_time_sync s) (wc_active_telemetry s) (wc_pending_completion s) x
    (wc_quiescing s) (wc_shutdown_drain_nodes s).
Definition set_wc_admission (quiescing : bool) (drain : option (list Z)) (s : ChannelWorkCoordinator) :
    ChannelWorkCoordinator :=
  mkCoordinator (wc_channel_id s) (wc_runtime s) (wc_sessions s) (wc_active_dispatch s)
    (wc_active_recovery s) (wc_active_time_sync s) (wc_active_telemetry s) (wc_pending_completion s)
    (wc_in_flight_writes s) quiescing drain.

Definition coordinator_new (r : ChannelRuntime) (channel_id : Z) : ChannelWorkCoordinator :=
  mkCoordinator channel_id r [] None None None None None [] false None.

(** A call on [self.runtime] with its error mapped, and one on the agent. *)
Definition on_runtime {A : Type} (m : runtime A) : coordinator A :=
  zoom wc_runtime set_wc_runtime CoordRuntime m.
Definition on_self {A : Type} (m : coordinator A) : channel_work A :=
  zoom fst (fun s x => (s, snd x)) id m.
Definition on_agent {A : Type} (m : agent A) : channel_work A :=
  zoom snd (fun a x => (fst x, a)) CoordAgent m.

(** [if let Err(error) = m] and [match m]: the caller goes on with the error. *)
Definition attempt {S E F A : Type} (m : st S E A) : st S F (A + E) := fun s =>
  match m s with
  | (Ok a, s) => (Ok (inl a), s)
  | (Err e, s) => (Ok (inr e), s)
  | (Panic, s) => (Panic, s)
  end.

Definition has_address (address : Z) (m : ManagedSession) : bool := ms_node_address m =? address.

(** [managed_session] and [managed_session_mut]. *)
Definition managed_session (address : Z) : coordinator (nat * ManagedSession) :=
  self ← get; lift (ok_or (position (has_address address) (wc_sessions self)) (CoordUnknownNode address)).
Definition put_managed (i : nat) (m : ManagedSession) : coordinator unit :=
  modify (fun self => set_wc_sessions (<[i := m]> (wc_sessions self)) self).

(** [.session.as_ref().ok_or(SessionUnavailable)] *)
Definition session_of (address : Z) : coordinator NodeSession :=
  found ← managed_session address;
  lift (ok_or (ms_session (snd found)) (SessionUnavailable address)).

(** Publishing to a node's metrics. *)
Definition observe (ops : list AtomicOp) (address : Z) : coordinator unit :=
  found ← managed_session address;
  let '(i, m) := found in
  put_managed i (mkManaged (ms_node_address m) (ms_session m) (apply_ops ops (ms_metrics m))).

(** The same and the session put back. *)
Definition restore_session (address : Z) (ops : list AtomicOp) (s : NodeSession) : coordinator unit :=
  found ← managed_session address;
  let '(i, m) := found in
  put_managed i (mkManaged (ms_node_address m) (Some s) (apply_ops ops (ms_metrics m))).

Definition has_active_dispatch (self : ChannelWorkCoordinator) : bool :=
  is_some (wc_active_dispatch self) || is_some (wc_active_recovery self)
  || is_some (wc_active_time_sync self) || is_some (wc_active_telemetry self).

Definition has_pending_completion (self : ChannelWorkCoordinator) : bool :=
  is_some (wc_pending_completion self).

Definition no_writes (self : ChannelWorkCoordinator) : bool := (length (wc_in_flight_writes self) =? 0)%nat.

Definition is_quiescent (self : ChannelWorkCoordinator) : bool :=
  wc_quiescing self && negb (has_active_dispatch self) && negb (has_pending_completion self)
  && no_writes self.

(** ** Setup *)

Definition coordinator_configure_time_sync (node_address : Z) (config : PeriodicConfig)
    (first_deadline : MonotonicMicros) : coordinator unit :=
  on_runtime (configure_time_sync node_address config first_deadline).
Definition coordinator_configure_telemetry (node_address : Z) (config : PeriodicConfig)
    (first_deadline : MonotonicMicros) : coordinator unit :=
  on_runtime (configure_telemetry node_address config first_deadline).
Definition coordinator_reconfigure_telemetry (node_address : Z) (config : PeriodicConfig)
    (now : MonotonicMicros) : coordinator unit :=
  on_runtime (reconfigure_telemetry node_address config now).

Definition coordinator_register_node (config : NodeScheduleConfig) (s : NodeSession)
    (now : MonotonicMicros) : coordinator unit :=
  self ← get;
  if existsb (has_address (nc_node_address config)) (wc_sessions self)
  then throw (CoordDuplicateNode (nc_node_address config))
  else
    _ ← on_runtime (register_node config (received (ns_cursors s)) now);
    let metrics := apply_ops (observe_session_cursors s None) (metrics_new (ns_cursors s)) in
    modify (fun self => set_wc_sessions
      (wc_sessions self ++ [mkManaged (nc_node_address config) (Some s) metrics]) self).

Definition coordinator_reconfigure_node (config : NodeScheduleConfig) (now : MonotonicMicros) :
    coordinator unit :=
  self ← get;
  if negb (wc_quiescing self) || has_active_dispatch self || has_pending_completion self
     || negb (no_writes self) || is_some (wc_shutdown_drain_nodes self)
  then throw ReconfigurationNotQuiescent
  else on_runtime (reconfigure_node config now).

Definition observe_configuration (node_address : Z) (configuration : ObservedConfiguration) :
    coordinator unit :=
  observe (metrics_observe_configuration configuration) node_address.

(** ** Dispatching *)

(** A transfer that fails to be built drops the session it was given. *)
Definition lend_session (dispatch : MeasurementDispatch) : coordinator MeasurementTransfer :=
  found ← managed_session (md_node_address dispatch);
  let '(i, m) := found in
  s ← lift (ok_or (ms_session m) (SessionUnavailable (md_node_address dispatch)));
  _ ← put_managed i (mkManaged (ms_node_address m) None (ms_metrics m));
  lift (map_err CoordTransfer (transfer_new (md_node_address dispatch) (md_max_samples dispatch) s)).

Definition return_session (address : Z) (s : NodeSession) : coordinator unit :=
  found ← managed_session address;
  let '(i, m) := found in
  put_managed i (mkManaged (ms_node_address m) (Some s) (ms_metrics m)).

(** [agent.try_submit_measurement]: a rejection gives the transfer back. *)
Definition try_submit_measurement (t : MeasurementTransfer) : channel_work (unit + ChannelAgentError) :=
  on_agent (attempt (submit_measurement t)).

Definition coordinator_submit_measurement (dispatch : MeasurementDispatch) : channel_work unit :=
  t ← on_self (lend_session dispatch);
  submitted ← try_submit_measurement t;
  match submitted with
  | inl _ => mret tt
  | inr error =>
      _ ← on_self (return_session (md_node_address dispatch) (mt_session t));
      throw (CoordAgent error)
  end.

(** [if let Err(error) = submitted { self.runtime.cancel(..)?; return Err(error); }] *)
Definition or_cancel {A : Type} (submitted : channel_work A) (cancel : runtime unit) : channel_work A :=
  done ← attempt submitted;
  match done with
  | inl a => mret a
  | inr error => _ ← on_self (on_runtime cancel); throw error
  end.

Definition dispatch_measurement (dispatch : MeasurementDispatch) : channel_work unit :=
  _ ← or_cancel (coordinator_submit_measurement dispatch) (cancel_measurement dispatch);
  on_self (modify (set_wc_dispatch (Some dispatch))).

Definition dispatch_time_sync (sync : ServiceDispatch) : channel_work unit :=
  s ← on_self (session_of (sd_node_address sync));
  _ ← or_cancel (on_agent (submit_time_sync (sd_node_address sync) (ns_boot_epoch s)))
        (cancel_time_sync sync);
  on_self (modify (set_wc_time_sync (Some sync))).

Definition dispatch_telemetry (telemetry : ServiceDispatch) : channel_work unit :=
  _ ← or_cancel (on_agent (submit_telemetry (sd_node_address telemetry))) (cancel_telemetry telemetry);
  on_self (modify (set_wc_telemetry (Some telemetry))).

(** The drain reads the node at the front of its queue until the node has no
    more data. *)
Definition dispatch_drain (nodes : list Z) (now : MonotonicMicros) : channel_work (option ChannelDispatch) :=
  match nodes with
  | [] => mret None
  | node_address :: _ =>
      selected ← on_self (on_runtime (select_shutdown_measurement node_address now));
      match selected with
      | None => mret None
      | Some dispatch =>
          _ ← dispatch_measurement dispatch;
          mret (Some (DispatchMeasurement dispatch))
      end
  end.

Definition dispatch_next_work (now : MonotonicMicros) : channel_work (option ChannelDispatch) :=
  self ← on_self get;
  if has_active_dispatch self || has_pending_completion self then mret None
  else
    match wc_shutdown_drain_nodes self with
    | Some nodes => dispatch_drain nodes now
    | None =>
        if wc_quiescing self then mret None
        else
          selected ← on_self (on_runtime (select_work now));
          match selected with
          | None => mret None
          | Some dispatch =>
              _ ← match dispatch with
                  | DispatchRecovery d => on_self (modify (set_wc_recovery (Some d)))
                  | DispatchMeasurement d => dispatch_measurement d
                  | DispatchTimeSync d => dispatch_time_sync d
                  | DispatchTelemetry d => dispatch_telemetry d
                  end;
              mret (Some dispatch)
          end
    end.

(** The same for a coordinator that schedules measurements only: here a missing
    session or a refused transfer does not cancel the runtime's dispatch. *)
Definition dispatch_next (now : MonotonicMicros) : channel_work (option MeasurementDispatch) :=
  self ← on_self get;
  if wc_quiescing self || is_some (wc_active_dispatch self) || has_pending_completion self then mret None
  else
    selected ← on_self (on_runtime (select_measurement now));
    match selected with
    | None => mret None
    | Some dispatch =>
        t ← on_self (lend_session dispatch);
        submitted ← try_submit_measurement t;
        match submitted with
        | inr error =>
            _ ← on_self (return_session (md_node_address dispatch) (mt_session t));
            _ ← on_self (on_runtime (cancel_measurement dispatch));
            throw (CoordAgent error)
        | inl _ =>
            _ ← on_self (modify (set_wc_dispatch (Some dispatch)));
            mret (Some dispatch)
        end
    end.

(** ** Settling time synchronisation and telemetry *)

(** The node of an event of the service, [None] for any other event. *)
Definition time_sync_event_node (event : ChannelEvent) : option Z :=
  match event with
  | EvTimeObservation node_address _ | EvTimeSyncTimedOut node_address
  | EvTimeSyncNotAccepted node_address | EvTimeSyncInvalidObservation node_address _
  | EvWireAttemptFailed node_address => Some node_address
  | _ => None
  end.
Definition telemetry_event_node (event : ChannelEvent) : option Z :=
  match event with
  | EvTelemetrySnapshot node_address _ | EvTelemetryTimedOut node_address
  | EvTelemetryNotAccepted node_address | EvWireAttemptFailed node_address => Some node_address
  | _ => None
  end.

Section ObservationSettling.
Context {T : Type}.

Abbreviation settling := (st (ChannelWorkCoordinator * T) MeasurementCoordinatorError).

Definition in_coordinator {A : Type} (m : coordinator A) : settling A :=
zoom fst (fun s x => (s, snd x)) id m.
(** [match observations.try_submit(record)] *)
Definition try_submit {E A : Type} (m : st T E A) : settling (A + E) :=
zoom snd (fun s x => (fst x, s)) id (attempt m).

Definition submit_time_observation `{TimeObservationSubmitter T} (dispatch : ServiceDispatch)
  (node_address : Z) (observation : ClockObservation) (now : MonotonicMicros) : settling TimeSyncSettlement :=
s ← in_coordinator (session_of node_address);
record ← lift (map_err TimeRecordError (time_record_new (ns_hardware_id s) node_address observation));
submitted ← try_submit (time_try_submit record);
match submitted with
| inl _ =>
    _ ← in_coordinator (on_runtime (complete_time_sync dispatch now));
    _ ← in_coordinator (observe (observe_time_sync now) node_address);
    mret (TimeSubmitted node_address)
| inr error =>
    _ ← in_coordinator (on_runtime (fail_time_sync dispatch now));
    mret (TimeBackpressured node_address (ts_kind error))
end.

Definition settle_time_sync_event `{TimeObservationSubmitter T} (event : ChannelEvent)
  (now : MonotonicMicros) : settling (option TimeSyncSettlement) :=
self ← in_coordinator get;
match wc_active_time_sync self, time_sync_event_node event with
| Some dispatch, Some node_address =>
    if negb (node_address =? sd_node_address dispatch) then throw WrongCompletedNode
    else
      settlement ←
        match event with
        | EvTimeObservation _ observation => submit_time_observation dispatch node_address observation now
        | _ =>
            _ ← in_coordinator (on_runtime (fail_time_sync dispatch now));
            mret (TimeRetryScheduled node_address)
        end;
      _ ← in_coordinator (modify (set_wc_time_sync None));
      mret (Some settlement)
| _, _ => mret None
end.

Definition submit_telemetry_observation `{TelemetryObservationSubmitter T} (dispatch : ServiceDispatch)
  (node_address : Z) (observed : TelemetrySnapshot) (now : MonotonicMicros) : settling TelemetrySettlement :=
s ← in_coordinator (session_of node_address);
record ← lift (map_err TelemetryRecordError
           (telemetry_record_new (ns_hardware_id s) node_address (ns_boot_epoch s) observed));
submitted ← try_submit (telemetry_try_submit record);
match submitted with
| inl _ =>
    _ ← in_coordinator (observe (observe_telemetry observed now) node_address);
    _ ← in_coordinator (on_runtime (complete_telemetry dispatch now));
    mret (TelemetrySubmitted node_address)
| inr error =>
    _ ← in_coordinator (on_runtime (fail_telemetry dispatch now));
    mret (TelemetryBackpressured node_address (ls_kind error))
end.

Definition settle_telemetry_event `{TelemetryObservationSubmitter T} (event : ChannelEvent)
  (now : MonotonicMicros) : settling (option TelemetrySettlement) :=
self ← in_coordinator get;
match wc_active_telemetry self, telemetry_event_node event with
| Some dispatch, Some node_address =>
    if negb (node_address =? sd_node_address dispatch) then throw WrongCompletedNode
    else
      settlement ←
        match event with
        | EvTelemetrySnapshot _ observed => submit_telemetry_observation dispatch node_address observed now
        | _ =>
            _ ← in_coordinator (on_runtime (fail_telemetry dispatch now));
            mret (TelemetryRetryScheduled node_address)
        end;
      _ ← in_coordinator (modify (set_wc_telemetry None));
      mret (Some settlement)
| _, _ => mret None
end.
End ObservationSettling.

(** ** Settling measurements *)

Definition cause_of_recovery (reason : RecoveryReason) : RecoveryCause :=
  match reason with
  | ReasonStreamChanged _ => CauseStreamChanged
  | ReasonInvalidRelease _ => CauseInvalidRelease
  | ReasonInvalidResponse => CauseInvalidResponse
  end.

Definition settlement_progress (settlement : MeasurementSettlement) : option MeasurementProgress :=
  match settlement with
  | Persisted _ progress _ | SettledNoData _ progress => Some progress
  | RetryScheduled _ | SettledRecovery _ _ => None
  end.

Definition is_persisting (phase : SessionPhase) : bool :=
  match phase with
  | PersistingChunk | PersistingGap | PersistingContinuityBreak => true
  | _ => false
  end.

(** The transfer the agent completed becomes the pending completion. *)
Definition ensure_pending : channel_work unit :=
  self ← on_self get;
  if has_pending_completion self then mret tt
  else
    dispatch ← lift (ok_or (wc_active_dispatch self) NoActiveDispatch);
    completed ← on_agent take_completed_measurement;
    t ← lift (ok_or completed CompletedTransferUnavailable);
    if negb (mt_node_address t =? md_node_address dispatch) then throw WrongCompletedNode
    else on_self (modify (set_wc_pending (Some (mkPendingCompletion dispatch t None)))).

(** [self.pending_completion.take()] *)
Definition take_pending : coordinator PendingCompletion :=
  self ← get;
  _ ← modify (set_wc_pending None);
  lift (ok_or (wc_pending_completion self) CoordInvariantViolation).

(** [self.pending_completion = Some(pending); return Err(..)] *)
Definition keep_pending {E A : Type} (pending : PendingCompletion) (error : E) :
    st ChannelWorkCoordinator E A :=
  _ ← modify (set_wc_pending (Some pending)); throw error.

(** [if let Err(error) = runtime call { keep pending, return the error }] *)
Definition or_keep {A : Type} (pending : PendingCompletion) (m : runtime A) : coordinator A :=
  done ← on_runtime (attempt m);
  match done with
  | inl a => mret a
  | inr error => keep_pending pending (CoordRuntime error)
  end.

(** A session that is ready: with the progress of the answer the measurement is
    complete, without an answer it failed. *)
Definition settle_ready (pending : PendingCompletion) (phase_before_settlement : SessionPhase)
    (persistence_kind : option PersistenceKind) (now : MonotonicMicros) : coordinator MeasurementSettlement :=
  let node_address := md_node_address (pn_dispatch pending) in
  match mt_observed_produced (pn_transfer pending) with
  | Some produced =>
      let progress := mkProgress (received (ns_cursors (mt_session (pn_transfer pending)))) produced in
      done ← on_runtime (attempt (complete_measurement (pn_dispatch pending) progress now));
      match done with
      | inl _ =>
          if bool_decide (phase_before_settlement = Ready)
          then mret (SettledNoData node_address progress)
          else
            kind ← lift (ok_or persistence_kind CoordInvariantViolation);
            mret (Persisted node_address progress kind)
      | inr StreamRegressed => mret (SettledRecovery node_address RecoverStreamRegressed)
      | inr error => keep_pending pending (CoordRuntime error)
      end
  | None =>
      _ ← or_keep pending (fail_measurement (pn_dispatch pending) now);
      mret (RetryScheduled node_address)
  end.

Definition settle_recovery (pending : PendingCompletion) (now : MonotonicMicros) :
    coordinator MeasurementSettlement :=
  let reason := mt_recovery_reason (pn_transfer pending) in
  _ ← or_keep pending (require_recovery (pn_dispatch pending)
        (from_option cause_of_recovery CauseInvalidResponse reason) now);
  mret (SettledRecovery (md_node_address (pn_dispatch pending))
          (from_option cause_of_reason RecoverInvalidResponse reason)).

(** [match pending.transfer.session().phase()] *)
Definition settle_pending (pending : PendingCompletion) (phase_before_settlement : SessionPhase)
    (persistence_kind : option PersistenceKind) (now : MonotonicMicros) : coordinator MeasurementSettlement :=
  match ns_phase (mt_session (pn_transfer pending)) with
  | Ready => settle_ready pending phase_before_settlement persistence_kind now
  | NodeSession.RecoveryRequired => settle_recovery pending now
  | _ => keep_pending pending UnexpectedSessionPhase
  end.

Definition observe_shutdown_settlement (settlement : MeasurementSettlement) : coordinator unit :=
  match settlement with
  | SettledNoData node_address _ =>
      self ← get;
      match wc_shutdown_drain_nodes self with
      | None => mret tt
      | Some [] => throw ShutdownDrainOrder
      | Some (front :: nodes) =>
          if negb (front =? node_address) then throw ShutdownDrainOrder
          else modify (set_wc_admission (wc_quiescing self) (Some nodes))
      end
  | _ => mret tt
  end.

(** What a settlement publishes, given the node's availability after it. *)
Definition settlement_metrics (settlement : MeasurementSettlement) (s : NodeSession) (produced : option Z)
    (availability : NodeAvailability) (now : MonotonicMicros) : list AtomicOp :=
  match settlement with Persisted _ _ kind => observe_persistence kind | _ => [] end
  ++ (if is_some (settlement_progress settlement)
      then observe_session s produced now else observe_session_cursors s produced)
  ++ observe_availability availability.

(** The session goes back to its node with the metrics of the settlement. *)
Definition settle_session (settlement : MeasurementSettlement) (node_address : Z) (s : NodeSession)
    (produced : option Z) (now : MonotonicMicros) : coordinator unit :=
  self ← get;
  node ← lift (map_err CoordRuntime (snapshot node_address now (wc_runtime self)));
  restore_session node_address (settlement_metrics settlement s produced (sn_availability node) now) s.

(** From [let produced = settlement_progress(settlement)] on. *)
Definition finish_settlement (pending : PendingCompletion) (settlement : MeasurementSettlement)
    (now : MonotonicMicros) : coordinator MeasurementSettlement :=
  _ ← settle_session settlement (md_node_address (pn_dispatch pending)) (mt_session (pn_transfer pending))
        (mp_produced <$> settlement_progress settlement) now;
  _ ← modify (set_wc_dispatch None);
  _ ← observe_shutdown_settlement settlement;
  mret settlement.

Section SettleCompleted.
Context {S E : Type} `{DurableMeasurementSink S E}.

Abbreviation completing := (st (ChannelWorkCoordinator * ChannelAgent * S) (MeasurementSettlementError E)).

Definition in_channel {A : Type} (m : channel_work A) : completing A :=
zoom fst (fun x y => (x, snd y)) SettleCoordinator m.

(** [persist_pending(&mut pending.transfer, sink)]: the transfer and the error. *)
Definition persist_taken (t : MeasurementTransfer) : completing (MeasurementTransfer * option (PersistenceError E)) :=
fun x =>
  let '(r, (t, s)) := persist_pending (t, snd x) in
  (match r with
   | Ok _ => Ok (t, None)
   | Err error => Ok (t, Some error)
   | Panic => Panic
   end, (fst x, s)).

(** The record of a persisting session is stored before anything is settled. *)
Definition persist_if_pending (pending : PendingCompletion) : completing PendingCompletion :=
if negb (is_persisting (ns_phase (mt_session (pn_transfer pending)))) then mret pending
else
  persisted ← persist_taken (pn_transfer pending);
  let '(t, failed) := persisted in
  let pending := mkPendingCompletion (pn_dispatch pending) t (pn_envelope pending) in
  match failed with
  | None => mret pending
  | Some error =>
      _ ← in_channel (on_self (modify (set_wc_pending (Some pending))));
      throw (SettlePersistence error)
  end.

Definition settle_completed (now : MonotonicMicros) : completing MeasurementSettlement :=
_ ← in_channel ensure_pending;
pending ← in_channel (on_self take_pending);
if is_some (pn_envelope pending)
then in_channel (on_self (keep_pending pending PersistenceAlreadyHandedOff))
else
  let phase_before_settlement := ns_phase (mt_session (pn_transfer pending)) in
  let persistence_kind := mt_persistence_kind (pn_transfer pending) in
  pending ← persist_if_pending pending;
  in_channel (on_self (
    settlement ← settle_pending pending phase_before_settlement persistence_kind now;
    finish_settlement pending settlement now)).
End SettleCompleted.

(** ** Writes in flight *)

Section Handoff.
Context {Q : Type} `{PersistenceSubmitter Q}.

Abbreviation handing := (st (ChannelWorkCoordinator * ChannelAgent * Q) MeasurementHandoffError).

Definition for_handoff {A : Type} (m : channel_work A) : handing A :=
zoom fst (fun x y => (x, snd y)) HandoffCoordinator m.

(** The record leaves the session once; a refused one waits in the envelope.
    An error here drops the pending completion. *)
Definition pending_record_envelope (pending : PendingCompletion) :
  outcome MeasurementHandoffError (PersistenceEnvelope * MeasurementTransfer) :=
match pn_envelope pending with
| Some envelope => Ok (envelope, pn_transfer pending)
| None =>
    match transfer_take_pending_persistence (pn_transfer pending) with
    | (Ok record, t) => envelope ← map_err HandoffEnvelope (from_pending record); Ok (envelope, t)
    | (Err error, _) => Err (HandoffTransfer error)
    | (Panic, _) => Panic
    end
end.

(** The transfer joins the writes in flight, and the channel is released. *)
Definition park_write (id : BoundedWriter.WriteJobId) (dispatch : MeasurementDispatch)
  (t : MeasurementTransfer) : coordinator BoundedWriter.WriteJobId :=
_ ← modify (fun self => set_wc_writes (wc_in_flight_writes self ++ [mkInFlight id dispatch t]) self);
_ ← on_runtime (park_measurement dispatch);
_ ← modify (set_wc_dispatch None);
mret id.

Definition handoff_completed : handing BoundedWriter.WriteJobId :=
_ ← for_handoff ensure_pending;
pending ← for_handoff (on_self take_pending);
if negb (is_persisting (ns_phase (mt_session (pn_transfer pending))))
then for_handoff (on_self (keep_pending pending UnexpectedSessionPhase))
else
  made ← lift (pending_record_envelope pending);
  let '(envelope, t) := made in
  submitted ← zoom snd (fun q x => (fst x, q)) id (attempt (submit_record envelope));
  match submitted with
  | inr error =>
      _ ← for_handoff (on_self (modify (set_wc_pending
            (Some (mkPendingCompletion (pn_dispatch pending) t (Some (BoundedWriter.se_envelope error)))))));
      throw (HandoffSubmit (BoundedWriter.se_kind error))
  | inl id => for_handoff (on_self (park_write id (pn_dispatch pending) t))
  end.
End Handoff.

Definition is_write (id : BoundedWriter.WriteJobId) (w : InFlightWrite) : bool := iw_job_id w =? id.

(** [match self.runtime.complete_parked_measurement(..)] *)
Definition complete_write (w : InFlightWrite) (produced : SequenceCursor) (kind : PersistenceKind)
    (now : MonotonicMicros) : coordinator MeasurementSettlement :=
  let node_address := md_node_address (iw_dispatch w) in
  let progress := mkProgress (received (ns_cursors (mt_session (iw_transfer w)))) produced in
  done ← on_runtime (attempt (complete_parked_measurement (iw_dispatch w) progress now));
  match done with
  | inl _ => mret (Persisted node_address progress kind)
  | inr StreamRegressed => mret (SettledRecovery node_address RecoverStreamRegressed)
  | inr error => throw (CoordRuntime error)
  end.

Definition finish_durable_write (index : nat) (w : InFlightWrite) (now : MonotonicMicros) :
    coordinator MeasurementSettlement :=
  produced ← lift (ok_or (mt_observed_produced (iw_transfer w)) MissingObservedProgress);
  kind ← lift (ok_or (mt_persistence_kind (iw_transfer w)) CoordInvariantViolation);
  settlement ← complete_write w produced kind now;
  _ ← modify (fun self => set_wc_writes (delete index (wc_in_flight_writes self)) self);
  _ ← settle_session settlement (md_node_address (iw_dispatch w)) (mt_session (iw_transfer w))
        (Some produced) now;
  mret settlement.

(** [self.in_flight_writes[index].transfer.confirm_durable(receipt)] *)
Definition confirm_write {E : Type} (index : nat) (w : InFlightWrite) (receipt : DurableReceipt) :
    st ChannelWorkCoordinator (MeasurementWriteSettlementError E) InFlightWrite := fun self =>
  let '(r, t) := transfer_confirm_durable receipt (iw_transfer w) in
  let w := mkInFlight (iw_job_id w) (iw_dispatch w) t in
  (match r with Ok _ => Ok w | Err error => Err (WriteTransfer error) | Panic => Panic end,
   set_wc_writes (<[index := w]> (wc_in_flight_writes self)) self).

Definition settle_write_completion {E : Type} (completion : BoundedWriter.WriteCompletion E)
    (now : MonotonicMicros) : st ChannelWorkCoordinator (MeasurementWriteSettlementError E) MeasurementSettlement :=
  self ← get;
  found ← lift (ok_or (position (is_write (BoundedWriter.completion_id completion)) (wc_in_flight_writes self))
                  (WriteUnknownJob (BoundedWriter.completion_id completion)));
  let '(index, w) := found in
  match BoundedWriter.completion_result completion with
  | inr error => throw (WriteStorage (BoundedWriter.completion_id completion) error)
  | inl receipt =>
      w ← confirm_write index w receipt;
      zoom id (fun s _ => s) WriteCoordinator (finish_durable_write index w now)
  end.

Definition retry_durable_settlement (id : BoundedWriter.WriteJobId) (now : MonotonicMicros) :
    coordinator MeasurementSettlement :=
  self ← get;
  found ← lift (ok_or (position (is_write id) (wc_in_flight_writes self)) (UnknownWriteJob id));
  let '(index, w) := found in
  if negb (bool_decide (ns_phase (mt_session (iw_transfer w)) = Ready)) then throw (DurabilityNotConfirmed id)
  else finish_durable_write index w now.

Definition write_recovery_range (id : BoundedWriter.WriteJobId) (self : ChannelWorkCoordinator) :
    outcome MeasurementCoordinatorError GroupedWriter.WriteRecoveryRange :=
  found ← ok_or (position (is_write id) (wc_in_flight_writes self)) (UnknownWriteJob id);
  let s := mt_session (iw_transfer (snd found)) in
  receipt ← ok_or (ns_pending_receipt s) (MissingPendingReceipt id);
  Ok (GroupedWriter.mkRange (receipt_hardware_id receipt) (receipt_boot_epoch receipt)
        (durable (ns_cursors s)) (receipt_end receipt)).

(** ** Recovery *)

Definition coordinator_recover_node (node_address : Z) (s : NodeSession) (now : MonotonicMicros) :
    coordinator unit :=
  _ ← on_runtime (recover_node node_address (received (ns_cursors s)) now);
  restore_session node_address (observe_session s None now) s.

(** [if self.active_recovery != Some(dispatch)] *)
Definition ensure_recovery (dispatch : ServiceDispatch) : coordinator unit :=
  self ← get;
  if negb (bool_decide (wc_active_recovery self = Some dispatch)) then throw CoordInvariantViolation
  else mret tt.

Definition fail_online_recovery (dispatch : ServiceDispatch) (now : MonotonicMicros) : coordinator unit :=
  _ ← ensure_recovery dispatch;
  _ ← on_runtime (fail_recovery dispatch now);
  self ← get;
  node ← lift (map_err CoordRuntime (snapshot (sd_node_address dispatch) now (wc_runtime self)));
  _ ← observe (observe_availability (sn_availability node)) (sd_node_address dispatch);
  modify (set_wc_recovery None).

(** The same stream goes on from its durable cursor. *)
Definition same_session_evidence (s : NodeSession) (journal_capacity_samples : Z) :
    ExpectedStreamState * CaptureRecoveryEvidence :=
  (mkExpected (ns_hardware_id s) (ns_boot_epoch s) journal_capacity_samples,
   mkEvidence (ns_hardware_id s) (ns_boot_epoch s) (durable (ns_cursors s))).

(** A stream of a new boot epoch of the same node, from a cursor of the archive. *)
Definition new_session_evidence (expected : ExpectedStreamState) (durable_cursor : SequenceCursor) :
    CaptureRecoveryEvidence :=
  mkEvidence (ex_hardware_id expected) (ex_boot_epoch expected) durable_cursor.

Definition reconcile (expected : ExpectedStreamState) (capture : CaptureRecoveryEvidence)
    (stream : StreamState) : coordinator ReconciledStream :=
  lift (map_err CoordStreamRecovery (reconcile_existing_capture expected capture stream)).

(** The reconciled session is back on the channel. *)
Definition finish_recovery (dispatch : ServiceDispatch) (received_cursor : SequenceCursor)
    (reconciled : ReconciledStream) (stream : StreamState) (now : MonotonicMicros) :
    coordinator RecoveryContinuity :=
  let s := rs_session reconciled in
  _ ← on_runtime (complete_recovery dispatch received_cursor (ss_produced stream) now);
  _ ← restore_session (sd_node_address dispatch)
        (observe_session_cursors s (Some (ss_produced stream)) ++ observe_availability Online) s;
  _ ← modify (set_wc_recovery None);
  mret (rs_continuity reconciled).

Definition reconcile_online_recovery (dispatch : ServiceDispatch) (journal_capacity_samples : Z)
    (stream : StreamState) (now : MonotonicMicros) : coordinator RecoveryContinuity :=
  _ ← ensure_recovery dispatch;
  s ← session_of (sd_node_address dispatch);
  let '(expected, capture) := same_session_evidence s journal_capacity_samples in
  reconciled ← reconcile expected capture stream;
  finish_recovery dispatch (received (ns_cursors (rs_session reconciled))) reconciled stream now.

Definition ensure_same_hardware (node_address : Z) (expected : ExpectedStreamState) : coordinator unit :=
  previous ← session_of node_address;
  if negb (bool_decide (ns_hardware_id previous = ex_hardware_id expected))
  then throw (ResumeHardwareMismatch node_address) else mret tt.

Definition replace_online_recovery (dispatch : ServiceDispatch) (expected : ExpectedStreamState)
    (durable_cursor : SequenceCursor) (stream : StreamState) (now : MonotonicMicros) :
    coordinator RecoveryContinuity :=
  _ ← ensure_recovery dispatch;
  _ ← ensure_same_hardware (sd_node_address dispatch) expected;
  reconciled ← reconcile expected (new_session_evidence expected durable_cursor) stream;
  finish_recovery dispatch durable_cursor reconciled stream now.

(** [if !self.is_quiescent() || self.shutdown_drain_nodes.is_some()] *)
Definition ensure_resumable : coordinator unit :=
  self ← get;
  if negb (is_quiescent self) || is_some (wc_shutdown_drain_nodes self) then throw ResumeNotReady
  else mret tt.

Definition finish_resume (node_address : Z) (rejoin : runtime unit) (reconciled : ReconciledStream)
    (stream : StreamState) (now : MonotonicMicros) : coordinator RecoveryContinuity :=
  let s := rs_session reconciled in
  _ ← on_runtime rejoin;
  _ ← restore_session node_address (observe_session s (Some (ss_produced stream)) now) s;
  mret (rs_continuity reconciled).

Definition reconcile_resume_stream (node_address : Z) (journal_capacity_samples : Z)
    (stream : StreamState) (now : MonotonicMicros) : coordinator RecoveryContinuity :=
  _ ← ensure_resumable;
  s ← session_of node_address;
  let '(expected, capture) := same_session_evidence s journal_capacity_samples in
  reconciled ← reconcile expected capture stream;
  finish_resume node_address
    (resume_node node_address (received (ns_cursors (rs_session reconciled))) (ss_produced stream) now)
    reconciled stream now.

Definition replace_resume_stream (node_address : Z) (expected : ExpectedStreamState)
    (durable_cursor : SequenceCursor) (stream : StreamState) (now : MonotonicMicros) :
    coordinator RecoveryContinuity :=
  _ ← ensure_resumable;
  _ ← ensure_same_hardware node_address expected;
  reconciled ← reconcile expected (new_session_evidence expected durable_cursor) stream;
  finish_resume node_address
    (replace_quiesced_node node_address durable_cursor (ss_produced stream) now)
    reconciled stream now.

(** ** Quiescing and the shutdown drain *)

Definition begin_quiesce : coordinator unit :=
  modify (fun self => set_wc_admission true (wc_shutdown_drain_nodes self) self).

(** The nodes that need no recovery, in the order of their sessions. *)
Fixpoint drainable (r : ChannelRuntime) (sessions : list ManagedSession) :
    outcome MeasurementCoordinatorError (list Z) :=
  match sessions with
  | [] => Ok []
  | m :: sessions =>
      cause ← map_err CoordRuntime (runtime_recovery_cause (ms_node_address m) r);
      rest ← drainable r sessions;
      Ok (if is_some cause then rest else ms_node_address m :: rest)
  end.

Definition begin_shutdown_drain : coordinator unit :=
  self ← get;
  if negb (is_quiescent self) || is_some (wc_shutdown_drain_nodes self) then throw ShutdownDrainNotReady
  else
    nodes ← lift (drainable (wc_runtime self) (wc_sessions self));
    modify (set_wc_admission false (Some nodes)).

Definition is_shutdown_drain_complete (self : ChannelWorkCoordinator) : bool :=
  match wc_shutdown_drain_nodes self with Some [] => true | _ => false end
  && negb (has_active_dispatch self) && negb (has_pending_completion self) && no_writes self.

Definition finish_shutdown_drain : coordinator unit :=
  self ← get;
  if negb (is_shutdown_drain_complete self) then throw ShutdownDrainIncomplete
  else modify (set_wc_admission true None).

Definition abort_shutdown_drain : coordinator unit :=
  self ← get;
  if negb (is_some (wc_shutdown_drain_nodes self)) then throw ShutdownDrainNotActive
  else modify (set_wc_admission true None).

Definition resume_scheduling : coordinator unit :=
  self ← get;
  if negb (is_quiescent self) || is_some (wc_shutdown_drain_nodes self) then throw ResumeNotReady
  else modify (set_wc_admission false (wc_shutdown_drain_nodes self)).

Definition pending_completion_node (self : ChannelWorkCoordinator) : option Z :=
  (fun pending => md_node_address (pn_dispatch pending)) <$> wc_pending_completion self.

Definition in_flight_write_count (self : ChannelWorkCoordinator) : nat := length (wc_in_flight_writes self).
