(* ===== verification/CoordinatorTransfers.v ===== *)
(** * Transfers between the channel, the coordinator and storage

    What holds of a transfer while it is queued or on the wire, when it waits for
    storage and when its record is on its way: enough for a settlement or a
    handover never to find the session in a state it cannot deal with. *)

From stdpp Require Import list.
From S2P Require Export MeasurementCoordinator AgentHistory.

(** ** A session stores what it reports *)

(** A call leaves the session as it was, or not waiting for storage, or (where it
    may) it succeeded and the record of the session is there. *)
Definition stores (may : bool) {A : Type} (m : session A) : Prop :=
  forall s r s', m s = (r, s') ->
  s' = s \/ is_persisting (ns_phase s') = false \/
  (may = true /\ is_some (pending_record s') = true /\ exists a, r = Ok a).

Lemma stores_active_pull (may : bool) {A : Type} (k : PullSamplesRequest -> session A) :
  (forall q s r s', ns_phase s = AwaitingPull -> k q s = (r, s') ->
    is_persisting (ns_phase s') = false \/
    (may = true /\ is_some (pending_record s') = true /\ exists a, r = Ok a)) ->
  stores may (active_pull ≫= k).
Proof.
  intros Hk s r s' H. unfold active_pull, require_phase in H. st_unfold H.
  case_bool_decide as Hp; [|simplify_eq; by left].
  destruct (ns_active_pull s) as [q|]; [right; by eapply Hk|simplify_eq; by left].
Qed.

Lemma stores_required {A : Type} (phase : SessionPhase) (k : unit -> session A) :
  (forall s r s', ns_phase s = phase -> k tt s = (r, s') -> is_persisting (ns_phase s') = false \/ s' = s) ->
  stores false (require_phase phase ≫= k).
Proof.
  intros Hk s r s' H. rewrite require_phase_eval in H. case_bool_decide as Hp; [|simplify_eq; by left].
  destruct (Hk s r s' Hp H); auto.
Qed.

(** One branch of a call that has its request. *)
Ltac storing :=
  simplify_eq; cbn;
  first [left; cbn; first [done | by match goal with H : ns_phase _ = _ |- _ => rewrite H end]
        |right; split_and!; [done|done|by eexists]].

Ltac accepts H :=
  apply stores_active_pull; intros q s r s' Hp H;
  unfold or_recover, enter_recovery, validate_state_for_active_stream, on_cursors, awaiting in H;
  st_run H; storing.

Lemma accept_no_data_stores (state : StreamState) : stores false (accept_no_data state).
Proof. accepts H. Qed.
Lemma accept_range_unavailable_stores (state : StreamState) : stores true (accept_range_unavailable state).
Proof. accepts H. Qed.
Lemma accept_gap_stores (g : GapEvidence) : stores true (accept_gap g).
Proof. accepts H. Qed.
Lemma accept_continuity_break_stores (b : ContinuityBreakEvidence) : stores true (accept_continuity_break b).
Proof. accepts H. Qed.
Lemma invalid_release_stores (state : StreamState) : stores false (invalid_release state).
Proof. accepts H. Qed.
Lemma accept_wire_chunk_stores (chunk : SampleChunk) : stores true (accept_wire_chunk chunk).
Proof.
  intros s r s'. unfold accept_wire_chunk. destruct (sample_chunk_validate chunk) as [u|e|].
  2,3: intros [= <- <-]; by left.
  cbn [map_err]. rewrite st_bind_lift_Ok. revert s r s'. accepts H.
Qed.

Lemma begin_pull_stores (max : Z) : stores false (begin_pull max).
Proof. apply stores_required. intros s r s' Hp H. st_run H; storing. Qed.
Lemma leave_awaiting_stores (m : session unit) (phase : SessionPhase) :
  m = (_ ← require_phase AwaitingPull; _ ← modify (set_active_pull None); modify (set_phase phase)) ->
  is_persisting phase = false -> stores false m.
Proof. intros -> Hph. apply stores_required. intros s r s' Hp H. st_run H; simplify_eq; by left. Qed.

(** ** Transfers *)

(** What waits for storage is there, with what it was reported as. *)
Definition reported (t : MeasurementTransfer) : Prop :=
  is_some (mt_observed_produced t) = true /\ is_some (mt_persistence_kind t) = true.
Definition waits (t : MeasurementTransfer) : Prop :=
  is_persisting (ns_phase (mt_session t)) = true ->
  is_some (pending_record (mt_session t)) = true /\ reported t.
Definition produced_typed (t : MeasurementTransfer) : Prop :=
  forall produced, mt_observed_produced t = Some produced -> u64 produced.

(** A transfer lent to the channel. *)
Record transfer_lent (t : MeasurementTransfer) : Prop := {
  lent_ok : transfer_ok t;
  lent_typed : produced_typed t;
  lent_waits : waits t
}.

(** A call on the session and what the transfer notes about its success. *)
Lemma waits_session {A B : Type} (may : bool) (m : session A) (k : A -> transfer B) (t t' : MeasurementTransfer) r :
  stores may m -> waits t /\ produced_typed t ->
  (forall a t, exists x t', k a t = (x, t') /\ mt_session t' = mt_session t /\
     (may = true \/ reported t -> reported t') /\ (produced_typed t -> produced_typed t')) ->
  (on_session m ≫= k) t = (r, t') -> waits t' /\ produced_typed t'.
Proof.
  intros Hm [Hw Ht] Hk H. unfold on_session in H. st_unfold H. destruct (m (mt_session t)) as [r0 s1] eqn:Hs.
  assert (Hset : s1 = mt_session t -> set_session s1 t = t) by (intros ->; by destruct t).
  assert (Hp1 : produced_typed (set_session s1 t)) by exact Ht.
  destruct (Hm _ _ _ Hs) as [Hsame|[Hph|(Hmay & Hrec & a & ->)]].
  - rewrite (Hset Hsame) in *. destruct r0 as [a|e|]; [|by simplify_eq..].
    destruct (Hk a t) as (b & t1 & Hk1 & Hs1 & Hr & Hp). rewrite Hk1 in H. simplify_eq.
    split; [|by apply Hp]. intros Hph. rewrite Hs1 in Hph |- *. destruct (Hw Hph). auto.
  - destruct r0 as [a|e|]; [|simplify_eq; split; [intros Hc; cbn in Hc; congruence|done]..].
    destruct (Hk a (set_session s1 t)) as (b & t1 & Hk1 & Hs1 & Hr & Hp). rewrite Hk1 in H. simplify_eq.
    split; [|by apply Hp]. intros Hc. rewrite Hs1 in Hc. cbn in Hc. congruence.
  - destruct (Hk a (set_session s1 t)) as (b & t1 & Hk1 & Hs1 & Hr & Hp). rewrite Hk1 in H. simplify_eq.
    split; [|by apply Hp]. intros Hc. rewrite Hs1 in Hc |- *. cbn in Hc |- *. auto.
Qed.

(** Notes that keep the evidence of an answer. *)
Ltac notes :=
  intros ? ?; eexists _, _; split; [reflexivity|]; split; [done|];
  split; [unfold reported; cbn; by intros [?|[]]|unfold produced_typed; cbn; try done; by intros ? ? [= <-]].

Lemma accept_decoded_waits (response : PullResponse) (t t' : MeasurementTransfer) r :
  typed response -> waits t /\ produced_typed t -> accept_decoded response t = (r, t') ->
  waits t' /\ produced_typed t'.
Proof.
  intros Hty Hw. destruct response; cbn [accept_decoded typed PullResponse_typed] in *.
  - apply (waits_session true); [apply accept_wire_chunk_stores|done|].
    destruct Hty as ((_ & _ & Hp & _) & _). notes.
  - apply (waits_session false); [apply accept_no_data_stores|done|]. destruct Hty as (_ & _ & Hp & _). notes.
  - apply (waits_session true); [apply accept_range_unavailable_stores|done|].
    destruct Hty as (_ & _ & Hp & _). notes.
  - apply (waits_session false); [by eapply leave_awaiting_stores|done|]. notes.
  - apply (waits_session false); [apply invalid_release_stores|done|]. destruct Hty as (_ & _ & Hp & _). notes.
  - apply (waits_session true); [apply accept_gap_stores|done|]. destruct Hty as (_ & _ & Hp & _). notes.
  - apply (waits_session true); [apply accept_continuity_break_stores|done|]. destruct Hty as (_ & _ & Hp & _). notes.
Qed.

Lemma accept_response_waits (payload : bytes) (t t' : MeasurementTransfer) r :
  waits t /\ produced_typed t -> accept_response payload t = (r, t') -> waits t' /\ produced_typed t'.
Proof.
  intros Hw. unfold accept_response. destruct (decode_pull_response payload) as [response|err|] eqn:Hdec.
  - apply decode_pull_response_inv in Hdec as Ht. destruct Ht as [Ht _]. by apply accept_decoded_waits.
  - assert (Hfail : forall r t', (_ ← on_session fail_pull_for_recovery;
      _ ← modify (set_recovery_reason (Some ReasonInvalidResponse));
      mret (OutcomeRecoveryRequired ReasonInvalidResponse)) t = (r, t') -> waits t' /\ produced_typed t').
    { intros r0 t0. apply (waits_session false); [by eapply leave_awaiting_stores|done|]. notes. }
    destruct err; try apply Hfail. destruct status; try apply Hfail.
    apply (waits_session false); [by eapply leave_awaiting_stores|done|]. notes.
  - intros [= <- <-]. done.
Qed.

(** A call of the agent keeps a lent transfer in order. *)
Lemma wire_call_lent (c : TransferCall) (t t' : MeasurementTransfer) r :
  wire_call c -> transfer_lent t -> transfer_call c t = (r, t') -> transfer_lent t'.
Proof.
  intros Hc [Hok Ht Hw] H. destruct (transfer_step c t t' r Hc Hok H) as ([Hok' _ _] & _).
  cut (waits t' /\ produced_typed t'); [by intros []; split|].
  destruct c; cbn [wire_call transfer_call] in *; [| | |done..].
  - unfold begin_attempt in H. autorewrite with st in H.
    refine (waits_session false _ _ t t' r (begin_pull_stores _) (conj Hw Ht) _ H).
    intros q t0. st_eval. destruct (encode_pull_request q); [destruct (decode_pull_request _)|..];
      (eexists _, t0; split; [reflexivity|]; split_and!; [done|by intros [?|?]|done]).
  - refine (waits_session false _ (fun _ => mret []) t t' r (leave_awaiting_stores _ Ready eq_refl eq_refl) (conj Hw Ht) _ H).
    notes.
  - apply st_bind_pure in H as (r0 & H & _). by eapply accept_response_waits.
Qed.

Lemma evolves_lent (t t' : MeasurementTransfer) : evolves t t' -> transfer_lent t -> transfer_lent t'.
Proof.
  intros (cs & Hcs & <-). revert t. induction Hcs as [|c cs Hc Hcs IH]; intros t Ht; [done|].
  cbn [transfer_run]. destruct (transfer_call c t) as [r t1] eqn:H1.
  specialize (IH t1 (wire_call_lent c t t1 r Hc Ht H1)). by destruct (transfer_run cs t1).
Qed.

(** ** Lending and returning a session *)

Definition session_rest (s : NodeSession) : Prop :=
  exists hw e d, hardware_id_typed hw /\ u64 e /\ session_rel hw e d None s.

Lemma recovered_rest (hw : HardwareId) (e d rel : Z) (s : NodeSession) :
  hardware_id_typed hw -> u64 e -> u64 d -> u64 rel -> recovered hw e d rel = Ok s -> session_rest s.
Proof. intros. exists hw, e, d. eauto using recovered_rel. Qed.

Lemma rest_not_persisting hw e d s : session_rel hw e d None s -> is_persisting (ns_phase s) = false.
Proof. by inversion 1. Qed.

Lemma transfer_ok_rest (t : MeasurementTransfer) :
  transfer_ok t -> is_persisting (ns_phase (mt_session t)) = false -> session_rest (mt_session t).
Proof.
  intros (hw & e & d & open & Hhw & He & Hrel & _) Hp. exists hw, e, d. split_and!; [done..|].
  destruct Hrel as [| |d n phase chunk gap brk handed Hd Hn Hb Hsl|]; [by constructor..| |by constructor].
  cbn in Hp. destruct (pending_phase _ _ _ _ _ _ _ _ _ Hsl) as [->|[->| ->]]; discriminate Hp.
Qed.

Lemma transfer_new_lent (node max : Z) (s : NodeSession) :
  session_rest s -> u16 max -> max <> 0 ->
  exists t, transfer_new node max s = Ok t /\ transfer_lent t /\ mt_node_address t = node /\ mt_session t = s.
Proof.
  intros (hw & e & d & Hhw & He & Hrel) Hmax Hne. unfold transfer_new. rewrite (proj2 (Z.eqb_neq _ _) Hne).
  eexists. split; [done|]. split; [|done]. split; [by exists hw, e, d, None|done|].
  intros Hp. cbn in Hp. by rewrite (rest_not_persisting _ _ _ _ Hrel) in Hp.
Qed.

Lemma waits_not_stored (t : MeasurementTransfer) :
  is_persisting (ns_phase (mt_session t)) = false -> waits t.
Proof. intros Hp Hc. congruence. Qed.

(** ** On the way to storage *)

(** A transfer whose record was handed to the writer or stored. *)
Record transfer_stored (t : MeasurementTransfer) : Prop := {
  stored_ok : transfer_ok t;
  stored_typed : produced_typed t;
  stored_reported : reported t
}.

(** The same transfer around another state of its session. *)
Definition same_transfer (t t' : MeasurementTransfer) : Prop := exists s, t' = set_session s t.

Lemma same_transfer_fields (t t' : MeasurementTransfer) :
  same_transfer t t' -> mt_node_address t' = mt_node_address t /\
  mt_observed_produced t' = mt_observed_produced t /\ mt_persistence_kind t' = mt_persistence_kind t /\
  mt_recovery_reason t' = mt_recovery_reason t.
Proof. by intros [s ->]. Qed.

Lemma on_session_same {A : Type} (m : session A) (t t' : MeasurementTransfer) r :
  on_session m t = (r, t') -> same_transfer t t'.
Proof. unfold on_session, zoom. destruct (m (mt_session t)) as [x s]. intros [= _ <-]. by exists s. Qed.

Lemma same_stored (t t' : MeasurementTransfer) :
  same_transfer t t' -> transfer_ok t' -> produced_typed t -> reported t -> transfer_stored t'.
Proof. intros [s ->] Hok Ht Hr. by split. Qed.

Lemma take_pending_ok hw e d open (s : NodeSession) record :
  session_rel hw e d open s -> pending_record s = Some record ->
  record_valid (pending_of_record record) /\
  exists s', take_pending_persistence s = (Ok (pending_of_record record), s') /\ ns_phase s' = ns_phase s.
Proof.
  intros Hrel Hrec. destruct Hrel as [| |d n phase chunk gap brk handed Hd Hn Hb Hsl|]; [done..| |done].
  pose proof (pending_slot_record hw e _ _ _ _ _ _ _ (mkCursors (d + n) d d) (Some (mkReceipt hw e (d + n)))
    Hsl Hd Hn Hb) as H. rewrite Hrec in H. destruct H as (-> & Hv & _ & Hre). split; [exact Hv|].
  unfold take_pending_persistence. autorewrite with st.
  inversion Hsl; subst; cbn in Hrec; injection Hrec as <-; cbn [pending_of_record] in *;
    cbn [ns_phase ns_pending_chunk ns_hardware_id ns_pending_gap ns_pending_continuity_break ok_or];
    autorewrite with st; rewrite Hre; autorewrite with st; cbn [ns_pending_receipt set_pending_chunk set_pending_gap
      set_pending_break]; rewrite bool_decide_eq_true_2 by done; eexists; split; reflexivity.
Qed.

(** A waiting record is handed over, in an envelope storage accepts. *)
Lemma handover_ok (d : MeasurementDispatch) (t : MeasurementTransfer) :
  transfer_lent t -> is_persisting (ns_phase (mt_session t)) = true ->
  exists envelope t', pending_record_envelope (mkPendingCompletion d t None) = Ok (envelope, t') /\
    same_transfer t t' /\ transfer_stored t' /\ is_persisting (ns_phase (mt_session t')) = true /\
    envelope_valid envelope.
Proof.
  intros [Hok Ht Hw] Hp. destruct (Hw Hp) as [Hrec Hrep].
  destruct Hok as (hw & e & d0 & open & Hhw & He & Hrel & Hmax).
  destruct (pending_record (mt_session t)) as [record|] eqn:Hr; [|done].
  destruct (take_pending_ok hw e d0 open _ record Hrel Hr) as (Hv & s' & Hs & Hphase).
  destruct (from_pending_ok _ Hv) as (envelope & Henv & Hval & _).
  exists envelope, (set_session s' t).
  destruct (take_pending_persistence_refines hw e d0 open _ _ s' Hrel Hs) as (_ & d' & open' & Hrel' & _).
  unfold pending_record_envelope, transfer_take_pending_persistence, on_session, zoom. cbn [pn_envelope pn_transfer].
  rewrite Hs. cbn [map_err]. rewrite Henv. split_and!; [done|by exists s'| | |done].
  - apply (same_stored t); [by exists s'| |done..]. by exists hw, e, d', open'.
  - cbn. by rewrite Hphase.
Qed.

Lemma confirm_ready (receipt : DurableReceipt) (s s' : NodeSession) u :
  confirm_durable receipt s = (Ok u, s') -> ns_phase s' = Ready.
Proof. intros H. unfold confirm_durable, on_cursors in H. st_run H; by simplify_eq. Qed.

Lemma transfer_confirm_stored (receipt : DurableReceipt) (t t' : MeasurementTransfer) r :
  transfer_stored t -> transfer_confirm_durable receipt t = (r, t') ->
  r <> Panic /\ same_transfer t t' /\ transfer_stored t' /\ (forall u, r = Ok u -> ns_phase (mt_session t') = Ready).
Proof.
  intros [(hw & e & d & open & Hhw & He & Hrel & Hmax) Ht Hr] H. unfold transfer_confirm_durable in H.
  pose proof (on_session_same _ _ _ _ H) as Hsame. unfold on_session, zoom in H.
  destruct (confirm_durable receipt (mt_session t)) as [x s] eqn:Hs. injection H as <- <-.
  destruct (confirm_durable_refines hw e receipt d open _ x s Hrel Hs) as (Hexp & d' & open' & Hrel' & _).
  split_and!; [by destruct x|done| |].
  - apply (same_stored t); [done| |done..]. by exists hw, e, d', open'.
  - intros u Hu. destruct x as [v| |]; [|done..]. by eapply confirm_ready.
Qed.

Section Sink.
Context {S E : Type} `{DurableMeasurementSink S E}.

(** A sink that answers for records it can encode; nothing is asked of what it stores. *)
Definition answers : Prop :=
forall (s : S) record, persistable record -> no_panic (fst (persist_record (E:=E) record s)).

Definition plain_sink (Hsink : answers) : DurableSink S E.
Proof.
refine (Build_DurableSink S E _ (fun _ _ => True) (fun _ => True) (fun _ _ _ => I) _).
intros s l record _ Hr _. pose proof (Hsink s record Hr) as Hnp. by destruct (persist_record record s) as [[]].
Defined.

Lemma persist_pending_frame (t t' : MeasurementTransfer) (s s' : S) r :
persist_pending (E:=E) (t, s) = (r, (t', s')) ->
same_transfer t t' /\ (forall receipt, r = Ok receipt -> ns_phase (mt_session t') = Ready).
Proof.
intros Hp.
assert (Hself : same_transfer t t) by (exists (mt_session t); by destruct t).
unfold persist_pending, on_sink, on_transfer, transfer_confirm_durable, on_session in Hp.
st_run Hp; simplify_eq; (split; [first [exact Hself | by eexists]|]);
  intros receipt Hr; try discriminate Hr; by eapply confirm_ready.
Qed.

Lemma persist_lent (t t' : MeasurementTransfer) (s s' : S) r :
answers -> transfer_lent t -> is_persisting (ns_phase (mt_session t)) = true ->
persist_pending (E:=E) (t, s) = (r, (t', s')) ->
r <> Panic /\ same_transfer t t' /\
(forall receipt, r = Ok receipt -> transfer_stored t' /\ ns_phase (mt_session t') = Ready) /\
(forall error, r = Err error -> t' = t /\ exists e, error = PersistSink e).
Proof.
intros Hsink [Hok Ht Hw] Hph Hp. destruct (Hw Hph) as [Hrec Hrep].
destruct (persist_pending_frame t t' s s' r Hp) as [Hsame Hready].
destruct Hok as (hw & e & d & open & Hhw & He & Hrel).
pose proof (persist_pending_spec (H0:=plain_sink Hsink) hw e d open t s [] Hrel I (fun _ _ => I)) as Hspec.
rewrite Hp in Hspec. split_and!; [|done| |].
- by destruct r.
- intros receipt ->. split; [|by eapply Hready].
  destruct Hspec as (record & end_ & _ & _ & _ & _ & _ & _ & Hrel' & _).
  apply (same_stored t); [done| |done..]. by exists hw, e, end_, None.
- intros error ->. destruct error; try done.
  + destruct Hspec as [_ ->]. destruct Hrel as [Hrel _]. by rewrite (rest_not_persisting _ _ _ _ Hrel) in Hph.
  + destruct Hspec as (_ & Hnone & _). by rewrite Hnone in Hrec.
  + destruct Hspec as (_ & Hnone & _). by rewrite Hnone in Hrec.
  + split; [apply Hspec|by eexists].
Qed.
End Sink.

(** ** The agent's other calls *)

(** No call of the wire changes the node of a transfer. *)
Lemma evolves_address (t t' : MeasurementTransfer) :
  evolves t t' -> mt_node_address t' = mt_node_address t.
Proof.
  intros (cs & _ & <-). revert t. induction cs as [|c cs IH]; intros t; [done|]. cbn [transfer_run].
  destruct (transfer_call c t) as [r t1] eqn:H. specialize (IH t1).
  destruct (transfer_run cs t1) as [rs t2]. cbn [snd] in *. rewrite IH. by eapply transfer_call_address.
Qed.

(** A call that neither submits nor takes a measurement. *)
Definition plain_call (c : AgentCall) : Prop :=
  match c with ASubmitMeasurement _ | ATakeMeasurement => False | _ => True end.

Lemma agent_inv_held (limit : Z) owed (a : ChannelAgent) :
  agent_inv limit owed a -> agent_inv limit (held a) a.
Proof. intros []. by split. Qed.

Lemma plain_call_keeps (limit : Z) (c : AgentCall) (a a' : ChannelAgent) r :
  call_typed c -> plain_call c -> agent_inv limit (held a) a -> agent_call c a = (r, a') ->
  sound_result r /\ agent_inv limit (held a') a' /\ Forall2 evolves (held a) (held a').
Proof.
  intros Ht Hc Ha H. destruct (agent_call_settles limit c (held a) a r a' Ht Ha H)
    as (Hs & paid & owed & Howed & Hpaid & Ha').
  assert (accepted_transfer c r = []) as Hacc by by destruct c.
  assert (returned_transfer r = []) as Hret.
  { destruct c; try done; cbn [agent_call] in H; apply st_bind_pure in H as (r0 & _ & ->); by destruct r0. }
  rewrite Hret in Hpaid. apply Forall2_nil_inv_r in Hpaid as ->. rewrite Hacc, app_nil_r in Howed. cbn in Howed. rewrite <- Howed in Ha'.
  split_and!; [done|by eapply agent_inv_held|apply (inv_owed _ _ _ Ha')].
Qed.

(** Taking the completed measurement empties the agent's hands of it. *)
Lemma take_completed_cases (limit : Z) (a : ChannelAgent) :
  agent_inv limit (held a) a ->
  exists a', take_completed_measurement a = (Ok (ag_completed_measurement a), a') /\
    agent_inv limit (held a') a' /\
    held a = option_list (ag_completed_measurement a) ++ held a'.
Proof.
  intros Ha. unfold take_completed_measurement. st_eval. eexists. split; [reflexivity|].
  destruct (agent_call ATakeMeasurement a) as [r a'] eqn:Hcall.
  pose proof (settles_take_measurement limit (held a) a r a' Ha Hcall) as (_ & paid & owed & _ & _ & Ha').
  cbn [agent_call] in Hcall. unfold take_completed_measurement in Hcall. st_unfold Hcall. injection Hcall as _ <-.
  split; [by eapply agent_inv_held|]. unfold held. cbn. by destruct (ag_completed_measurement a).
Qed.
