(* ===== verification/CoordinatorSteps.v ===== *)
(** * What a coordinator's calls do to its books

    The books of a channel's work coordinator and those of its runtime agree:
    the delivery session of every node is at rest or away with a measurement the
    runtime counts as outstanding. One lemma per call for dispatching, settling,
    handing over and confirming, each for whatever the wire, the sink and the
    writer answer. *)

From stdpp Require Import list list_tactics.
From S2P Require Export CoordinatorTransfers RuntimeEffects.

(** ** The coordinator's books *)

(** The four slots of the coordinator for the runtime's current dispatch. *)
Definition slots (c : ChannelWorkCoordinator) :
    option MeasurementDispatch * option ServiceDispatch * option ServiceDispatch * option ServiceDispatch :=
  (wc_active_dispatch c, wc_active_recovery c, wc_active_time_sync c, wc_active_telemetry c).

Definition slots_of (active : option ChannelDispatch) :
    option MeasurementDispatch * option ServiceDispatch * option ServiceDispatch * option ServiceDispatch :=
  match active with
  | None => (None, None, None, None)
  | Some (DispatchMeasurement d) => (Some d, None, None, None)
  | Some (DispatchRecovery d) => (None, Some d, None, None)
  | Some (DispatchTimeSync d) => (None, None, Some d, None)
  | Some (DispatchTelemetry d) => (None, None, None, Some d)
  end.

Definition write_dispatches (writes : list InFlightWrite) : list ChannelDispatch :=
  DispatchMeasurement <$> (iw_dispatch <$> writes).

(** Measurements whose session is away. *)
Definition away (c : ChannelWorkCoordinator) : list Z :=
  md_node_address <$> (option_list (wc_active_dispatch c) ++ (iw_dispatch <$> wc_in_flight_writes c)).

Definition rest_address (m : ManagedSession) : option Z :=
  if is_some (ms_session m) then Some (ms_node_address m) else None.
Definition at_rest (sessions : list ManagedSession) : list Z := omap rest_address sessions.

Definition managed_ok (m : ManagedSession) : Prop := forall s, ms_session m = Some s -> session_rest s.

Definition write_ok (w : InFlightWrite) : Prop :=
  transfer_stored (iw_transfer w) /\ mt_node_address (iw_transfer w) = md_node_address (iw_dispatch w).

Record coord_inv (clock : Z) (c : ChannelWorkCoordinator) : Prop := {
  ci_runtime : runtime_inv (wc_runtime c);
  ci_clock : observed_by clock (wc_runtime c);
  ci_sessions : ms_node_address <$> wc_sessions c = addresses (wc_runtime c);
  ci_slots : slots c = slots_of (rt_active_dispatch (wc_runtime c));
  ci_out : outstanding (wc_runtime c) ≡ₚ
    option_list (rt_active_dispatch (wc_runtime c)) ++ write_dispatches (wc_in_flight_writes c);
  ci_rest : Forall managed_ok (wc_sessions c);
  ci_writes : Forall write_ok (wc_in_flight_writes c);
  ci_places : at_rest (wc_sessions c) ++ away c ≡ₚ addresses (wc_runtime c);
  ci_services : forall s d, rt_active_dispatch (wc_runtime c) = Some (periodic_dispatch s d) ->
    sd_node_address d ∈ at_rest (wc_sessions c)
}.

(** A completion waiting in the coordinator: not yet handed over, or refused by
    the writer after the handover. *)
Definition pending_ok (p : PendingCompletion) : Prop :=
  mt_node_address (pn_transfer p) = md_node_address (pn_dispatch p) /\
  match pn_envelope p with
  | None => transfer_lent (pn_transfer p)
  | Some envelope => envelope_valid envelope /\ transfer_stored (pn_transfer p) /\
                     is_persisting (ns_phase (mt_session (pn_transfer p))) = true
  end.

(** Where the transfer of the current measurement is. *)
Definition transfer_place (active : option MeasurementDispatch) (pending : option PendingCompletion)
    (held : list MeasurementTransfer) : Prop :=
  match active, pending, held with
  | None, None, [] => True
  | Some d, Some p, [] => pn_dispatch p = d /\ pending_ok p
  | Some d, None, [t] => mt_node_address t = md_node_address d /\ transfer_lent t
  | _, _, _ => False
  end.

(** The drain reads the node at the front of its queue. *)
Definition drain_ok (c : ChannelWorkCoordinator) : Prop :=
  forall nodes, wc_shutdown_drain_nodes c = Some nodes ->
  Forall (fun address => address ∈ addresses (wc_runtime c)) nodes /\
  forall d, wc_active_dispatch c = Some d -> head nodes = Some (md_node_address d).

(** [limit] is the capacity of the agent's queue. *)
Record channel_inv (limit clock : Z) (c : ChannelWorkCoordinator) (a : ChannelAgent) : Prop := {
  ch_coord : coord_inv clock c;
  ch_agent : agent_inv limit (held a) a;
  ch_place : transfer_place (wc_active_dispatch c) (wc_pending_completion c) (held a);
  ch_drain : drain_ok c
}.

(** ** Managed sessions *)

Lemma at_rest_app (l1 l2 : list ManagedSession) : at_rest (l1 ++ l2) = at_rest l1 ++ at_rest l2.
Proof. apply omap_app. Qed.

Lemma at_rest_middle (l1 l2 : list ManagedSession) (m : ManagedSession) :
  at_rest (l1 ++ m :: l2) ≡ₚ option_list (rest_address m) ++ at_rest (l1 ++ l2).
Proof.
  rewrite !at_rest_app. unfold at_rest at 2. cbn [omap list_omap].
  destruct (rest_address m); cbn [option_list]; fold (at_rest l2); solve_Permutation.
Qed.

Definition managed_at (c : ChannelWorkCoordinator) (address : Z) (i : nat) (m : ManagedSession) : Prop :=
  exists l1 l2, wc_sessions c = l1 ++ m :: l2 /\ i = length l1 /\ ms_node_address m = address.

Lemma managed_session_spec (address : Z) (c : ChannelWorkCoordinator) :
  (exists i m, managed_session address c = (Ok (i, m), c) /\ managed_at c address i m) \/
  (managed_session address c = (Err (CoordUnknownNode address), c) /\
   (address ∉ (ms_node_address <$> wc_sessions c))).
Proof.
  unfold managed_session. rewrite st_bind_get. destruct (position _ _) as [[i m]|] eqn:Hp; [left|right].
  - exists i, m. split; [done|]. destruct (position_split _ _ _ _ Hp) as (l1 & l2 & Hl & Hi & Ha).
    exists l1, l2. unfold has_address in Ha. to_prop. done.
  - split; [done|]. intros (m & -> & Hm)%list_elem_of_fmap. pose proof (position_none _ _ _ Hp Hm) as Hno.
    unfold has_address in Hno. by rewrite Z.eqb_refl in Hno.
Qed.

Lemma put_managed_at (c : ChannelWorkCoordinator) l1 l2 m m' :
  wc_sessions c = l1 ++ m :: l2 ->
  put_managed (length l1) m' c = (Ok tt, set_wc_sessions (l1 ++ m' :: l2) c).
Proof. intros Hl. unfold put_managed, modify. by rewrite Hl, insert_at. Qed.

(** ** What the books say about a node *)

Section Books.
Context (clock : Z) (c : ChannelWorkCoordinator) (Hc : coord_inv clock c).

Lemma books_NoDup : NoDup (at_rest (wc_sessions c) ++ away c).
Proof. rewrite (ci_places _ _ Hc). apply (ri_addresses _ (ci_runtime _ _ Hc)). Qed.

Lemma sessions_NoDup : NoDup (ms_node_address <$> wc_sessions c).
Proof. rewrite (ci_sessions _ _ Hc). apply (ri_addresses _ (ci_runtime _ _ Hc)). Qed.

Lemma managed_of (address : Z) :
  address ∈ addresses (wc_runtime c) ->
  exists l1 l2 m, managed_session address c = (Ok (length l1, m), c) /\ wc_sessions c = l1 ++ m :: l2 /\
    ms_node_address m = address.
Proof.
  rewrite <- (ci_sessions _ _ Hc). intros Hin.
  destruct (managed_session_spec address c) as [(i & m & H & l1 & l2 & Hl & -> & Ha)|[_ Hno]]; [|by destruct Hno].
  by exists l1, l2, m.
Qed.

(** A session that is there is in nobody else's hands. *)
Lemma present_not_away (m : ManagedSession) s :
  m ∈ wc_sessions c -> ms_session m = Some s -> ms_node_address m ∉ away c.
Proof.
  intros Hm Hs Haway. pose proof books_NoDup as Hn. apply list.NoDup_app in Hn as (_ & Hn & _).
  apply (Hn (ms_node_address m)); [|done]. apply list_elem_of_omap. exists m. split; [done|].
  unfold rest_address. by rewrite Hs.
Qed.

Lemma absent_away (m : ManagedSession) :
  m ∈ wc_sessions c -> ms_session m = None -> ms_node_address m ∈ away c.
Proof.
  intros Hm Hs. assert (ms_node_address m ∈ at_rest (wc_sessions c) ++ away c) as Hin.
  { rewrite (ci_places _ _ Hc), <- (ci_sessions _ _ Hc). by apply list_elem_of_fmap_2. }
  apply elem_of_app in Hin as [Hin|]; [|done]. apply list_elem_of_omap in Hin as (m' & Hm' & Hr).
  unfold rest_address in Hr. destruct (ms_session m') eqn:Hs'; [|done]. injection Hr as Hr.
  rewrite (fmap_NoDup_inj ms_node_address (wc_sessions c) m m') in Hs; [congruence|apply sessions_NoDup|done..].
Qed.

Lemma present_rest (l1 l2 : list ManagedSession) (m : ManagedSession) :
  wc_sessions c = l1 ++ m :: l2 -> ms_node_address m ∉ away c -> exists s, ms_session m = Some s /\ session_rest s.
Proof.
  intros Hl Ha. assert (m ∈ wc_sessions c) as Hm by (rewrite Hl; apply elem_of_app; right; by left).
  destruct (ms_session m) as [s|] eqn:Hs; [|by destruct Ha; apply absent_away]. exists s. split; [done|].
  pose proof (ci_rest _ _ Hc) as Hr. rewrite list.Forall_forall in Hr. by apply (Hr m).
Qed.
End Books.

(** ** Moves *)

Lemma rest_updated (l1 l2 : list ManagedSession) (m m' : ManagedSession) :
  Forall managed_ok (l1 ++ m :: l2) -> managed_ok m' -> Forall managed_ok (l1 ++ m' :: l2).
Proof.
  intros [H1 [_ H2]%Forall_cons_1]%Forall_app Hm. apply Forall_app_2; [done|by constructor].
Qed.

(** The runtime's other tables may change as long as the dispatches do not. *)
Lemma inv_runtime (clock now : Z) (c : ChannelWorkCoordinator) (r : ChannelRuntime) :
  coord_inv clock c -> clock <= now -> runtime_inv r -> keeps now (wc_runtime c) r ->
  outstanding (wc_runtime c) ≡ₚ outstanding r -> rt_active_dispatch r = rt_active_dispatch (wc_runtime c) ->
  coord_inv now (set_wc_runtime r c).
Proof.
  intros [] Hle Hr [Ha Ho] Hout Hact.
  split; cbn [set_wc_runtime wc_runtime wc_sessions wc_in_flight_writes]; rewrite ?Ha, ?Hact; try done.
  - apply Ho; [done|]. by eapply observed_by_le.
  - by rewrite <- Hout.
Qed.

(** A measurement goes out: its session leaves the coordinator. *)
Lemma inv_lent (clock now : Z) (c c' : ChannelWorkCoordinator) l1 l2 m m' d :
  coord_inv clock c -> clock <= now -> runtime_inv (wc_runtime c') -> keeps now (wc_runtime c) (wc_runtime c') ->
  wc_sessions c = l1 ++ m :: l2 -> wc_sessions c' = l1 ++ m' :: l2 ->
  is_some (ms_session m) = true -> ms_session m' = None ->
  ms_node_address m = md_node_address d -> ms_node_address m' = md_node_address d ->
  rt_active_dispatch (wc_runtime c) = None -> rt_active_dispatch (wc_runtime c') = Some (DispatchMeasurement d) ->
  outstanding (wc_runtime c) ++ [DispatchMeasurement d] ≡ₚ outstanding (wc_runtime c') ->
  slots c' = slots_of (Some (DispatchMeasurement d)) -> wc_in_flight_writes c' = wc_in_flight_writes c ->
  coord_inv now c'.
Proof.
  intros Hc Hle Hr [Ha Ho] Hl Hl' Hm Hm' Hma Hma' Hact Hact' Hout Hsl Hw.
  pose proof Hc as [_ Hclock Hs Hslots Hout0 Hrest Hwr Hpl Hsv].
  assert (wc_active_dispatch c = None) as Hno by (rewrite Hact in Hslots; by injection Hslots).
  assert (wc_active_dispatch c' = Some d) as Hyes by by injection Hsl.
  split; rewrite ?Ha, ?Hact', ?Hw; try done.
  - apply Ho; [done|]. by eapply observed_by_le.
  - rewrite <- Hs, Hl, Hl', !fmap_app, !fmap_cons. by rewrite Hma, Hma'.
  - rewrite <- Hout, Hout0, Hact. cbn [option_list app]. solve_Permutation.
  - rewrite Hl', Hl in *. eapply rest_updated; [done|]. intros s. by rewrite Hm'.
  - rewrite <- Hpl, Hl, Hl', !at_rest_middle. unfold away. rewrite Hyes, Hno, Hw. unfold rest_address.
    rewrite Hm, Hm', Hma. cbn [option_list app fmap list_fmap]. solve_Permutation.
  - by intros [].
Qed.

(** A measurement is over: its session comes back, and its dispatch leaves the
    books of the coordinator and of the runtime. *)
Lemma inv_returned (clock now : Z) (c c' : ChannelWorkCoordinator) l1 l2 m m' s d :
  coord_inv clock c -> clock <= now -> runtime_inv (wc_runtime c') -> keeps now (wc_runtime c) (wc_runtime c') ->
  wc_sessions c = l1 ++ m :: l2 -> wc_sessions c' = l1 ++ m' :: l2 ->
  ms_node_address m = md_node_address d -> ms_node_address m' = md_node_address d ->
  ms_session m' = Some s -> session_rest s ->
  outstanding (wc_runtime c) ≡ₚ DispatchMeasurement d :: outstanding (wc_runtime c') ->
  slots c' = slots_of (rt_active_dispatch (wc_runtime c')) ->
  option_list (rt_active_dispatch (wc_runtime c)) ++ write_dispatches (wc_in_flight_writes c) ≡ₚ
    DispatchMeasurement d :: option_list (rt_active_dispatch (wc_runtime c')) ++ write_dispatches (wc_in_flight_writes c') ->
  away c ≡ₚ md_node_address d :: away c' -> Forall write_ok (wc_in_flight_writes c') ->
  (forall x, rt_active_dispatch (wc_runtime c') = Some x -> rt_active_dispatch (wc_runtime c) = Some x) ->
  coord_inv now c'.
Proof.
  intros Hc Hle Hr [Ha Ho] Hl Hl' Hma Hma' Hm' Hrs Hout Hsl Hbooks Haway Hwr' Hactive.
  pose proof Hc as [_ Hclock Hs Hslots Hout0 Hrest Hwr Hpl Hsv].
  assert (ms_session m = None) as Hm.
  { destruct (ms_session m) as [s0|] eqn:Hm; [|done]. destruct (present_not_away clock c Hc m s0); [|done|].
    - rewrite Hl. apply elem_of_app. right. by left.
    - rewrite Haway, Hma. by left. }
  split; rewrite ?Ha; try done.
  - apply Ho; [done|]. by eapply observed_by_le.
  - rewrite <- Hs, Hl, Hl', !fmap_app, !fmap_cons. by rewrite Hma, Hma'.
  - apply (Permutation_cons_inv (a:=DispatchMeasurement d)). by rewrite <- Hout, Hout0, Hbooks.
  - rewrite Hl', Hl in *. eapply rest_updated; [done|]. intros s1. rewrite Hm'. by intros [= <-].
  - rewrite <- Hpl, Hl, Hl', !at_rest_middle, Haway. unfold rest_address.
    rewrite Hm, Hm', Hma'. cbn [is_some option_list app]. solve_Permutation.
  - intros sv x Hx. apply Hactive in Hx. apply Hsv in Hx. rewrite Hl in Hx. rewrite Hl'.
    rewrite at_rest_middle in Hx |- *. unfold rest_address in *. rewrite Hm in Hx. rewrite Hm'. cbn in Hx |- *.
    by right.
Qed.

(** A session at rest is published or replaced where it is. *)
Lemma inv_updated (clock : Z) (c : ChannelWorkCoordinator) l1 l2 m m' :
  coord_inv clock c -> wc_sessions c = l1 ++ m :: l2 -> ms_node_address m' = ms_node_address m ->
  is_some (ms_session m') = is_some (ms_session m) -> managed_ok m' ->
  coord_inv clock (set_wc_sessions (l1 ++ m' :: l2) c).
Proof.
  intros [] Hl Ha Hm Hok. split; cbn [set_wc_sessions wc_runtime wc_sessions wc_in_flight_writes]; try done.
  - rewrite <- ci_sessions0, Hl, !fmap_app, !fmap_cons. by rewrite Ha.
  - rewrite Hl in ci_rest0. by eapply rest_updated.
  - rewrite <- ci_places0, Hl, !at_rest_middle. unfold rest_address. rewrite Ha, Hm. reflexivity.
  - intros s d Hd. specialize (ci_services0 s d Hd). rewrite Hl in ci_services0.
    rewrite at_rest_middle in ci_services0 |- *. unfold rest_address in *. by rewrite Ha, Hm.
Qed.

(** ** Running the operations *)

Lemma on_self_bind {A B : Type} (m : coordinator A) (k : A -> channel_work B) c a x c' :
  m c = (x, c') ->
  (on_self m ≫= k) (c, a) =
  match x with Ok y => k y (c', a) | Err e => (Err e, (c', a)) | Panic => (Panic, (c', a)) end.
Proof. intros H. unfold on_self, zoom. cbv [mbind st_bind]. cbn [fst snd]. rewrite H. by destruct x. Qed.

Lemma on_self_eval {A : Type} (m : coordinator A) c a x c' :
  m c = (x, c') -> on_self m (c, a) = (x, (c', a)).
Proof. intros H. unfold on_self, zoom. cbn [fst snd]. rewrite H. by destruct x. Qed.

Lemma on_runtime_bind {A B : Type} (m : runtime A) (k : A -> coordinator B) c x r :
  m (wc_runtime c) = (x, r) ->
  (on_runtime m ≫= k) c =
  match x with
  | Ok y => k y (set_wc_runtime r c)
  | Err e => (Err (CoordRuntime e), set_wc_runtime r c)
  | Panic => (Panic, set_wc_runtime r c)
  end.
Proof. intros H. unfold on_runtime, zoom. cbv [mbind st_bind]. rewrite H. by destruct x. Qed.

Lemma on_runtime_eval {A : Type} (m : runtime A) c x r :
  m (wc_runtime c) = (x, r) -> on_runtime m c = (map_err CoordRuntime x, set_wc_runtime r c).
Proof. intros H. unfold on_runtime, zoom. by rewrite H. Qed.

Lemma on_agent_eval {A : Type} (m : agent A) c a x a' :
  m a = (x, a') -> on_agent m (c, a) = (map_err CoordAgent x, (c, a')).
Proof. intros H. unfold on_agent, zoom. cbn [fst snd]. by rewrite H. Qed.

Lemma on_agent_bind {A B : Type} (m : agent A) (k : A -> channel_work B) c a x a' :
  m a = (x, a') ->
  (on_agent m ≫= k) (c, a) =
  match x with Ok y => k y (c, a') | Err e => (Err (CoordAgent e), (c, a')) | Panic => (Panic, (c, a')) end.
Proof. intros H. cbv [mbind st_bind]. rewrite (on_agent_eval m c a x a' H). by destruct x. Qed.

Lemma attempt_eval {S E F A : Type} (m : st S E A) s x s' :
  m s = (x, s') ->
  attempt (F:=F) m s = (match x with Ok a => Ok (inl a) | Err e => Ok (inr e) | Panic => Panic end, s').
Proof. intros H. unfold attempt. rewrite H. by destruct x. Qed.

Lemma managed_session_same (address : Z) (c c' : ChannelWorkCoordinator) x :
  wc_sessions c' = wc_sessions c -> managed_session address c = (Ok x, c) ->
  managed_session address c' = (Ok x, c').
Proof.
  unfold managed_session. rewrite !st_bind_get. intros ->. unfold lift. destruct (ok_or _ _); congruence.
Qed.

Lemma position_replaced {A : Type} (p : A -> bool) (l1 l2 : list A) (x y : A) :
  position p (l1 ++ x :: l2) = Some (length l1, x) -> p y = true ->
  position p (l1 ++ y :: l2) = Some (length l1, y).
Proof.
  intros H Hy. induction l1 as [|z l1 IH]; cbn in *; [by rewrite Hy|].
  destruct (p z); [done|]. destruct (position p (l1 ++ x :: l2)) as [[j w]|]; [|done].
  injection H as -> ->. by rewrite IH.
Qed.

Lemma managed_session_replaced (address : Z) (c c' : ChannelWorkCoordinator) l1 l2 m m' :
  wc_sessions c = l1 ++ m :: l2 -> managed_session address c = (Ok (length l1, m), c) ->
  wc_sessions c' = l1 ++ m' :: l2 -> ms_node_address m' = address ->
  managed_session address c' = (Ok (length l1, m'), c').
Proof.
  unfold managed_session. rewrite !st_bind_get. intros -> H -> Ha. unfold lift in *.
  destruct (position _ (l1 ++ m :: l2)) as [[i x]|] eqn:Hp; [|done]. injection H as -> ->.
  rewrite (position_replaced _ _ _ m m' Hp); [done|]. unfold has_address. by rewrite Ha, Z.eqb_refl.
Qed.

Lemma same_sessions (c : ChannelWorkCoordinator) l : wc_sessions c = l -> set_wc_sessions l c = c.
Proof. intros <-. by destruct c. Qed.

(** ** The runtime's answers *)

(** A call that takes the current dispatch back. *)
Definition taken_back (now : Z) (d : ChannelDispatch) (r r' : ChannelRuntime) : Prop :=
  runtime_inv r' /\ keeps now r r' /\ rt_active_dispatch r' = None /\
  outstanding r ≡ₚ d :: outstanding r'.

(** A call that fails and changes nothing that matters. *)
Definition untouched_by (now : Z) (r r' : ChannelRuntime) : Prop :=
  runtime_inv r' /\ keeps now r r' /\ rt_active_dispatch r' = rt_active_dispatch r /\
  outstanding r ≡ₚ outstanding r'.

Definition is_regressed (e : ChannelRuntimeError) : bool :=
  match e with StreamRegressed => true | _ => false end.

(** The failures left to a call about a measurement that is out: time or work
    ids have run out, or the answer contradicts itself. *)
Definition local_failure (e : ChannelRuntimeError) : Prop := e = ReceivedAheadOfProduced \/ call_failed e.

(** The two ways a settling call ends. *)
Lemma settling_cases (now : Z) (d : ChannelDispatch) (r : ChannelRuntime) (x : runtime_out unit) r' :
  step_ok none_handed (Some d) r (x, r') ->
  effect now (cleared (rt_active_dispatch r)) r (x, r') ->
  match x with
  | Ok _ => taken_back now d r r'
  | Err e => if is_regressed e then taken_back now d r r' else untouched_by now r r'
  | Panic => False
  end.
Proof.
  intros ((Hnp & Hni) & Hr & Hout) (Hk & Ha). cbn [fst snd] in *. unfold taken_back, untouched_by.
  destruct x as [u|e|]; [| |done].
  - cbn in Hout, Ha. by rewrite app_nil_r in Hout.
  - assert (Hhand : handed none_handed (Err e : runtime_out unit) = []) by done.
    rewrite Hhand, app_nil_r in Hout. by destruct e.
Qed.

Lemma complete_current (now : Z) (r r' : ChannelRuntime) d progress x :
  runtime_inv r -> rt_active_dispatch r = Some (DispatchMeasurement d) -> typed progress -> u64 now ->
  complete_measurement d progress now r = (x, r') ->
  match x with
  | Ok _ => taken_back now (DispatchMeasurement d) r r'
  | Err e => if is_regressed e then taken_back now (DispatchMeasurement d) r r' else untouched_by now r r' /\ local_failure e
  | Panic => False
  end.
Proof.
  intros Hr Hact Hp Hnow H.
  pose proof (settling_cases now (DispatchMeasurement d) r x r') as Hcases. rewrite <- H in Hcases.
  specialize (Hcases (complete_measurement_ok r d progress now Hr Hp Hnow)
    (complete_measurement_effect now r d progress Hr Hp Hnow)).
  destruct x as [u|e|]; [done| |done]. destruct (is_regressed e) eqn:He; [done|]. split; [done|].
  unfold complete_measurement in H.
  destruct (progress_validate_spec progress) as [[Hv Hle]|Hv]; rewrite Hv in H; [|injection H as <- _; by left].
  rewrite st_bind_lift_Ok in H. destruct (current_node_at r d Hr Hact) as (i & node & Hi & Hat & _).
  cbv [mbind st_bind] in H. rewrite Hi in H. destruct Hat as (l1 & l2 & Hl & -> & _).
  destruct (stream_regressed node progress).
  - rewrite (put_node_at _ l1 l2 node) in H by done. cbv [modify throw] in H. by injection H as <- _.
  - destruct (advance_node_spec r l1 l2 node progress now) as
      (n & _ & [(ready & id & _ & _ & Ha)|(e' & He' & Ha)]); try done; rewrite Ha in H; [done|].
    injection H as <- _. by right.
Qed.

Lemma fail_current (now : Z) (r r' : ChannelRuntime) d x :
  runtime_inv r -> rt_active_dispatch r = Some (DispatchMeasurement d) ->
  fail_measurement d now r = (x, r') ->
  match x with
  | Ok _ => taken_back now (DispatchMeasurement d) r r'
  | Err e => untouched_by now r r' /\ local_failure e
  | Panic => False
  end.
Proof.
  intros Hr Hact H.
  pose proof (settling_cases now (DispatchMeasurement d) r x r') as Hcases. rewrite <- H in Hcases.
  specialize (Hcases (fail_measurement_ok r d now Hr) (fail_measurement_effect now r d Hr)).
  destruct x as [u|e|]; [done| |done].
  assert (e = RuntimeTimeOverflow) as ->; [|split; [done|by right; left]].
  unfold fail_measurement in H. destruct (current_node_at r d Hr Hact) as (i & node & Hi & Hat & _).
  pose proof (node_at_ok r _ i node Hr Hat) as Hok.
  cbv [mbind st_bind lift] in H. rewrite Hi in H. destruct Hat as (l1 & l2 & Hl & -> & _).
  destruct (retry_delay_spec (nd_config node) (saturating_add 8 (failures (nd_availability node)) 1))
    as (delay & Hd & _); [apply Hok..|]. rewrite Hd in H.
  rewrite (put_node_at _ l1 l2 node) in H by done. unfold monotonic_checked_add in H.
  destruct (checked_add 64 now delay) as [ready|]; cbn [ok_or] in H; [|by injection H as <- _].
  by erewrite put_node_at in H by done.
Qed.

Lemma require_current (now : Z) (r : ChannelRuntime) d cause :
  runtime_inv r -> rt_active_dispatch r = Some (DispatchMeasurement d) -> u64 now ->
  exists r', require_recovery d cause now r = (Ok tt, r') /\ taken_back now (DispatchMeasurement d) r r'.
Proof.
  intros Hr Hact Hnow. destruct (require_recovery d cause now r) as [x r'] eqn:H. exists r'.
  pose proof (settling_cases now (DispatchMeasurement d) r x r') as Hcases. rewrite <- H in Hcases.
  specialize (Hcases (require_recovery_ok r d cause now Hr Hnow) (require_recovery_effect now r d cause Hr)).
  unfold require_recovery in H. destruct (current_node_at r d Hr Hact) as (i & node & Hi & Hat & _).
  cbv [mbind st_bind] in H. rewrite Hi in H. destruct Hat as (l1 & l2 & Hl & -> & _).
  rewrite (put_node_at _ l1 l2 node) in H by done. cbv [modify] in H. by injection H as <- <-.
Qed.

Lemma cancel_current (now : Z) (r : ChannelRuntime) d :
  runtime_inv r -> rt_active_dispatch r = Some (DispatchMeasurement d) ->
  exists r', cancel_measurement d r = (Ok tt, r') /\ taken_back now (DispatchMeasurement d) r r'.
Proof.
  intros Hr Hact. destruct (cancel_measurement d r) as [x r'] eqn:H. exists r'.
  pose proof (settling_cases now (DispatchMeasurement d) r x r') as Hcases. rewrite <- H in Hcases.
  specialize (Hcases (cancel_measurement_ok r d Hr) (cancel_measurement_effect now r d Hr)).
  unfold cancel_measurement in H. destruct (current_node_at r d Hr Hact) as (i & node & Hi & Hat & _).
  cbv [mbind st_bind] in H. rewrite Hi in H. destruct Hat as (l1 & l2 & Hl & -> & _).
  rewrite (put_node_at _ l1 l2 node) in H by done. cbv [modify] in H. by injection H as <- <-.
Qed.

Lemma park_current (now : Z) (r : ChannelRuntime) d :
  runtime_inv r -> rt_active_dispatch r = Some (DispatchMeasurement d) ->
  exists r', park_measurement d r = (Ok tt, r') /\ runtime_inv r' /\ keeps now r r' /\
    rt_active_dispatch r' = None /\ outstanding r ≡ₚ outstanding r'.
Proof.
  intros Hr Hact. destruct (park_measurement d r) as [x r'] eqn:H. exists r'.
  pose proof (park_measurement_ok r d Hr) as (_ & Hr' & Hout). pose proof (park_measurement_effect now r d Hr) as [Hk Ha].
  rewrite H in *. cbn [fst snd] in *.
  unfold park_measurement in H. destruct (current_node_at r d Hr Hact) as (i & node & Hi & _).
  cbv [mbind st_bind] in H. rewrite Hi in H. cbv [modify] in H. injection H as <- <-.
  cbn in Hout, Ha. rewrite app_nil_r in Hout. done.
Qed.

(** A parked measurement completes without touching the current dispatch. *)
Lemma complete_parked_current (now : Z) (r r' : ChannelRuntime) d progress x :
  runtime_inv r -> DispatchMeasurement d ∈ outstanding r -> rt_active_dispatch r <> Some (DispatchMeasurement d) ->
  typed progress -> u64 now -> complete_parked_measurement d progress now r = (x, r') ->
  runtime_inv r' /\ keeps now r r' /\ rt_active_dispatch r' = rt_active_dispatch r /\
  match x with
  | Ok _ => outstanding r ≡ₚ DispatchMeasurement d :: outstanding r'
  | Err e => if is_regressed e then outstanding r ≡ₚ DispatchMeasurement d :: outstanding r'
             else outstanding r ≡ₚ outstanding r' /\ local_failure e
  | Panic => False
  end.
Proof.
  intros Hr Hin Hact Hp Hnow H.
  assert (DispatchRecovery (mkServiceDispatch (md_work_id d) (md_node_address d)) ∉ outstanding r) as Hno.
  { intros Hrec. assert (NoDup (dispatch_work_id <$> outstanding r)) as Hn
      by (eapply sublist_NoDup; [apply (ri_ids r Hr)|apply outstanding_ids]).
    apply (fmap_NoDup_inj _ _ _ _ Hn Hin) in Hrec; done. }
  pose proof (complete_parked_ok r d progress now Hr Hp Hnow Hno Hact) as (Hs & Hr' & Hout).
  pose proof (complete_parked_effect now r d progress Hr Hp Hnow) as [Hk Ha].
  rewrite H in *. cbn [fst snd] in *. split_and!; [done..|].
  destruct x as [u|e|]; [cbn in Hout; by rewrite app_nil_r in Hout| |by destruct Hs].
  assert (Hhand : handed none_handed (Err e : runtime_out unit) = []) by done. rewrite Hhand, app_nil_r in Hout.
  destruct (is_regressed e) eqn:He; [by destruct e|]. split; [by destruct e|].
  unfold complete_parked_measurement in H. rewrite st_bind_get, bool_decide_false in H by done.
  destruct (progress_validate_spec progress) as [[Hv Hle]|Hv]; rewrite Hv in H; [|injection H as <- _; by left].
  rewrite st_bind_lift_Ok in H. destruct (outstanding_node_at r d Hr Hin) as (i & node & Hi & Hat & _).
  cbv [mbind st_bind] in H. rewrite Hi in H. destruct Hat as (l1 & l2 & Hl & -> & _).
  destruct (stream_regressed node progress).
  - rewrite (put_node_at _ l1 l2 node) in H by done. cbv [throw] in H. by injection H as <- _.
  - destruct (advance_node_spec r l1 l2 node progress now) as
      (n & _ & [(ready & id & _ & _ & Hadv)|(e' & He' & Hadv)]); try done; rewrite Hadv in H; [done|].
    injection H as <- _. by right.
Qed.

Lemma snapshot_current (now : Z) (r : ChannelRuntime) (address : Z) :
  runtime_inv r -> observed_by now r -> u64 now -> address ∈ addresses r ->
  exists node, snapshot address now r = Ok node.
Proof.
  intros Hr Ho Hnow (node & -> & Hn)%list_elem_of_fmap.
  destruct (position_of node_address (rt_nodes r) node (ri_addresses r Hr) Hn) as (l1 & l2 & Hl & Hp).
  unfold snapshot, at_address. unfold node_address in Hp at 1. rewrite Hp. cbn [ok_or mbind outcome_bind snd].
  unfold node_snapshot. pose proof (ri_nodes r Hr) as Hok. rewrite list.Forall_forall in Hok.
  rewrite overflow_spec by auto. unfold observed_by in Ho. rewrite list.Forall_forall in Ho.
  rewrite (proj2 (Z.ltb_ge _ _)) by auto. cbn [mbind outcome_bind]. by eexists.
Qed.

(** ** Dispatching *)

(** The errors of a coordinator whose books disagree with its runtime's. *)
Definition coord_internal (e : MeasurementCoordinatorError) : bool :=
  match e with
  | CoordInvariantViolation | WrongCompletedNode | SessionUnavailable _ | CoordUnknownNode _
  | MissingObservedProgress | CoordTransfer _ | ShutdownDrainOrder
  | CoordRuntime (StaleDispatch | UnknownNode _ | RuntimeInvariantViolation) => true
  | _ => false
  end.

Definition coord_sound {A : Type} (x : outcome MeasurementCoordinatorError A) : Prop :=
  match x with Ok _ => True | Err e => coord_internal e = false | Panic => False end.

(** The runtime has just selected [d]. *)
Definition selected (now : Z) (d : ChannelDispatch) (r r' : ChannelRuntime) : Prop :=
  runtime_inv r' /\ keeps now r r' /\ rt_active_dispatch r = None /\
  rt_active_dispatch r' = Some d /\ outstanding r ++ [d] ≡ₚ outstanding r'.

Lemma measurements_written (ws : list InFlightWrite) :
  omap measurement_dispatch (write_dispatches ws) = iw_dispatch <$> ws.
Proof. induction ws as [|w ws IH]; [done|]. cbn. by f_equal. Qed.

(** The session of a selected measurement's node is at rest. *)
Lemma selected_session (clock now : Z) (c : ChannelWorkCoordinator) r d :
  coord_inv clock c -> selected now (DispatchMeasurement d) (wc_runtime c) r ->
  u16 (md_max_samples d) /\ md_max_samples d <> 0 /\
  exists l1 l2 m s, managed_session (md_node_address d) c = (Ok (length l1, m), c) /\
    wc_sessions c = l1 ++ m :: l2 /\ ms_node_address m = md_node_address d /\
    ms_session m = Some s /\ session_rest s.
Proof.
  intros Hc (Hr & Hk & Hact & Hact' & Hout). pose proof (ri_active r Hr _ Hact') as Hin.
  destruct (outstanding_measurement_ok r d Hr Hin) as (Hmax & Hne & Haddr). split_and!; [done..|].
  rewrite (keeps_addresses _ _ _ Hk) in Haddr.
  destruct (managed_of clock c Hc _ Haddr) as (l1 & l2 & m & Hm & Hl & Ha).
  destruct (present_rest clock c Hc l1 l2 m Hl) as (s & Hs & Hrest); [|by exists l1, l2, m, s].
  pose proof (measurement_addresses_NoDup r Hr) as Hn. rewrite <- Hout, (ci_out _ _ Hc), Hact in Hn.
  cbn [option_list app] in Hn. rewrite omap_app, fmap_app in Hn. apply list.NoDup_app in Hn as (_ & Hn & _).
  pose proof (ci_slots _ _ Hc) as Hsl. rewrite Hact in Hsl. injection Hsl as Hno _ _ _.
  unfold away. rewrite Hno, Ha. cbn [option_list app]. intros Hin2. apply (Hn (md_node_address d)); [|by left].
  change (option_list None ++ write_dispatches ?ws) with (write_dispatches ws). by rewrite measurements_written.
Qed.

Lemma lend_session_eval (c c1 : ChannelWorkCoordinator) l1 l2 m s d :
  wc_sessions c = l1 ++ m :: l2 -> managed_session (md_node_address d) c = (Ok (length l1, m), c) ->
  wc_sessions c1 = wc_sessions c -> ms_session m = Some s ->
  lend_session d c1 = (map_err CoordTransfer (transfer_new (md_node_address d) (md_max_samples d) s),
    set_wc_sessions (l1 ++ mkManaged (ms_node_address m) None (ms_metrics m) :: l2) c1).
Proof.
  intros Hl Hm Hs Hsome. unfold lend_session. cbv [mbind st_bind].
  rewrite (managed_session_same _ c c1 _ Hs Hm), Hsome. cbn [ok_or lift].
  rewrite (put_managed_at _ l1 l2 m) by (by rewrite Hs). done.
Qed.

Lemma return_session_eval (c c2 : ChannelWorkCoordinator) l1 l2 m s address :
  wc_sessions c = l1 ++ m :: l2 -> managed_session address c = (Ok (length l1, m), c) ->
  ms_node_address m = address -> ms_session m = Some s ->
  wc_sessions c2 = l1 ++ mkManaged (ms_node_address m) None (ms_metrics m) :: l2 ->
  return_session address s c2 = (Ok tt, set_wc_sessions (wc_sessions c) c2).
Proof.
  intros Hl Hm Ha Hs H2. unfold return_session. cbv [mbind st_bind].
  rewrite (managed_session_replaced address c c2 l1 l2 m _ Hl Hm H2) by done.
  rewrite (put_managed_at _ l1 l2 _ _ H2). cbn [ms_node_address ms_metrics]. rewrite Hl. destruct m. cbn in *. by subst.
Qed.

Lemma submit_measurement_cases (limit : Z) (a : ChannelAgent) (t : MeasurementTransfer) :
  agent_inv limit (held a) a -> transfer_ok t ->
  submit_measurement t a = (Err QueueFull, a) \/
  exists a', submit_measurement t a = (Ok tt, a') /\ agent_inv limit (held a') a' /\ held a' = held a ++ [t].
Proof.
  intros Ha Ht. unfold submit_measurement, ensure_queue_capacity. cbv [mbind st_bind get].
  destruct (Z.leb_spec (max_pending_work_items (ag_policy a)) (queued_work_items a)); [by left|right].
  eexists. split; [reflexivity|].
  assert (held (set_pending (ag_pending a ++ [WorkMeasurement t]) a) = held a ++ [t]) as Hh.
  { unfold held. rewrite all_work_push_back, omap_app, (assoc_L (++)). done. }
  rewrite Hh. split; [|done]. by apply (inv_push_back limit (held a) a (WorkMeasurement t)).
Qed.

(** The state after a step: the invariant at the step's time and a sound result. *)
Definition channel_ok {A : Type} (limit now : Z)
    (res : outcome MeasurementCoordinatorError A * (ChannelWorkCoordinator * ChannelAgent)) : Prop :=
  coord_sound (fst res) /\ channel_inv limit now (fst (snd res)) (snd (snd res)).

Lemma no_current (c : ChannelWorkCoordinator) (a : ChannelAgent) :
  transfer_place (wc_active_dispatch c) (wc_pending_completion c) (held a) -> wc_active_dispatch c = None ->
  wc_pending_completion c = None /\ held a = [].
Proof. intros H Hn. rewrite Hn in H. cbn in H. by destruct (wc_pending_completion c), (held a). Qed.

Lemma idle_slots (clock : Z) (c : ChannelWorkCoordinator) :
  coord_inv clock c -> rt_active_dispatch (wc_runtime c) = None ->
  wc_active_dispatch c = None /\ wc_active_recovery c = None /\ wc_active_time_sync c = None /\
  wc_active_telemetry c = None.
Proof. intros Hc Ha. pose proof (ci_slots _ _ Hc) as H. rewrite Ha in H. by injection H. Qed.

Lemma drain_kept (c c' : ChannelWorkCoordinator) :
  addresses (wc_runtime c') = addresses (wc_runtime c) ->
  wc_shutdown_drain_nodes c' = wc_shutdown_drain_nodes c -> wc_active_dispatch c' = wc_active_dispatch c ->
  drain_ok c -> drain_ok c'.
Proof. unfold drain_ok. by intros -> -> ->. Qed.

Lemma drain_kept_idle (c c' : ChannelWorkCoordinator) :
  addresses (wc_runtime c') = addresses (wc_runtime c) ->
  wc_shutdown_drain_nodes c' = wc_shutdown_drain_nodes c -> wc_active_dispatch c' = None ->
  drain_ok c -> drain_ok c'.
Proof. unfold drain_ok. intros -> -> -> H nodes Hn. split; [by apply H|done]. Qed.

(** A dispatch that could not be submitted leaves no trace. *)
Lemma inv_cancelled (limit clock now : Z) (c : ChannelWorkCoordinator) (a : ChannelAgent) r r' d :
  channel_inv limit clock c a -> clock <= now -> selected now d (wc_runtime c) r -> taken_back now d r r' ->
  channel_inv limit now (set_wc_runtime r' c) a.
Proof.
  intros [Hc Ha Hp Hd] Hle (Hr & Hk & Hact & Hact' & Hout) (Hr' & Hk' & Hact2 & Hout').
  split; [|done|done|].
  2: { apply (drain_kept c); [|done..]. cbn. by rewrite (keeps_addresses _ _ _ Hk'), (keeps_addresses _ _ _ Hk). }
  eapply inv_runtime; [exact Hc|done|done|by etransitivity| |by rewrite Hact2].
  apply (Permutation_cons_inv (a:=d)). rewrite <- Hout', <- Hout. solve_Permutation.
Qed.

Lemma dispatch_measurement_ok (limit clock now : Z) (c : ChannelWorkCoordinator) (a : ChannelAgent) r d :
  channel_inv limit clock c a -> clock <= now -> selected now (DispatchMeasurement d) (wc_runtime c) r ->
  (forall nodes, wc_shutdown_drain_nodes c = Some nodes -> head nodes = Some (md_node_address d)) ->
  channel_ok limit now (dispatch_measurement d (set_wc_runtime r c, a)).
Proof.
  intros Hch Hle Hsel Hdrain. pose proof Hch as [Hc Ha Hp Hd].
  destruct (selected_session clock now c r d Hc Hsel) as (Hmax & Hne & l1 & l2 & m & s & Hm & Hl & Hma & Hs & Hrest).
  destruct (transfer_new_lent (md_node_address d) (md_max_samples d) s Hrest Hmax Hne) as (t & Hnew & Hlent & Hta & Hts).
  pose proof Hsel as (Hr & Hk & Hact & Hact' & Hout).
  destruct (idle_slots clock c Hc Hact) as (Hno & _). destruct (no_current c a Hp Hno) as [Hpend Hheld].
  unfold dispatch_measurement, or_cancel, coordinator_submit_measurement.
  set (c1 := set_wc_runtime r c).
  set (c2 := set_wc_sessions (l1 ++ mkManaged (ms_node_address m) None (ms_metrics m) :: l2) c1).
  pose proof (lend_session_eval c c1 l1 l2 m s d Hl Hm eq_refl Hs) as Hlend. rewrite Hnew in Hlend. cbn [map_err] in Hlend.
  destruct (submit_measurement_cases limit a t Ha (lent_ok t Hlent)) as [Hsub|(a' & Hsub & Ha' & Hheld')].
  - assert (Hsubmit : (t ← on_self (lend_session d); submitted ← try_submit_measurement t;
        match submitted with
        | inl _ => mret tt
        | inr error => _ ← on_self (return_session (md_node_address d) (mt_session t)); throw (CoordAgent error)
        end) (c1, a) = (Err (CoordAgent QueueFull), (c1, a))).
    { rewrite (on_self_bind _ _ _ _ _ _ Hlend). unfold try_submit_measurement.
      rewrite (on_agent_bind _ _ _ _ _ _ (attempt_eval (F:=ChannelAgentError) _ _ _ _ Hsub)).
      assert (Hret : return_session (md_node_address d) (mt_session t) c2 = (Ok tt, c1)).
      { rewrite Hts, (return_session_eval c c2 l1 l2 m s _ Hl Hm Hma Hs eq_refl).
        unfold c2, c1. by destruct c. }
      by rewrite (on_self_bind _ _ _ _ _ _ Hret). }
    destruct (cancel_current now r d Hr Hact') as (r' & Hcancel & Hback).
    cbv [mbind st_bind]. rewrite (attempt_eval _ _ _ _ Hsubmit).
    rewrite (on_self_eval _ c1 a _ _ (on_runtime_eval _ c1 _ _ Hcancel)). split; [done|].
    replace (fst (snd _)) with (set_wc_runtime r' c) by by destruct c. by eapply inv_cancelled.
  - assert (Hsubmit : (t ← on_self (lend_session d); submitted ← try_submit_measurement t;
        match submitted with
        | inl _ => mret tt
        | inr error => _ ← on_self (return_session (md_node_address d) (mt_session t)); throw (CoordAgent error)
        end) (c1, a) = (Ok tt, (c2, a'))).
    { rewrite (on_self_bind _ _ _ _ _ _ Hlend). unfold try_submit_measurement.
      by rewrite (on_agent_bind _ _ _ _ _ _ (attempt_eval (F:=ChannelAgentError) _ _ _ _ Hsub)). }
    cbv [mbind st_bind]. rewrite (attempt_eval _ _ _ _ Hsubmit).
    split; [done|]. cbn [fst snd]. rewrite Hheld in Hheld'. split.
    + destruct (idle_slots clock c Hc Hact) as (_ & H2 & H3 & H4).
      eapply (inv_lent clock now c _ l1 l2 m); try done; [by rewrite Hs|].
      unfold slots. cbn. by rewrite H2, H3, H4.
    + exact Ha'.
    + cbn. by rewrite Hpend, Hheld'.
    + intros nodes Hn. cbn in Hn |- *. rewrite (keeps_addresses _ _ _ Hk). split; [by apply Hd|].
      intros d0 [= <-]. by apply Hdrain.
Qed.

Lemma inv_later (limit clock now : Z) (c : ChannelWorkCoordinator) (a : ChannelAgent) :
  channel_inv limit clock c a -> clock <= now -> channel_inv limit now c a.
Proof. intros [[] Ha Hp Hd] Hle. split; [|done..]. split; try done. by eapply observed_by_le. Qed.

(** A change of the runtime that leaves its dispatches alone. *)
Lemma inv_untouched (limit clock now : Z) (c : ChannelWorkCoordinator) (a : ChannelAgent) r :
  channel_inv limit clock c a -> clock <= now -> untouched_by now (wc_runtime c) r ->
  channel_inv limit now (set_wc_runtime r c) a.
Proof.
  intros [Hc Ha Hp Hd] Hle (Hr & Hk & Hact & Hout). split; [by eapply inv_runtime|done..|].
  apply (drain_kept c); [by apply keeps_addresses with now|done..].
Qed.

(** What a selection leaves behind. *)
Lemma selection_cases {A : Type} (now : Z) (f : A -> option ChannelDispatch) (r r' : ChannelRuntime) (x : runtime_out A) :
  step_ok (fun a => option_list (f a)) None r (x, r') ->
  effect now (selected_next f (rt_active_dispatch r)) r (x, r') -> rt_active_dispatch r = None ->
  match x with
  | Ok a =>
      match f a with
      | None => untouched_by now r r'
      | Some d => selected now d r r'
      end
  | Err e => untouched_by now r r' /\ e <> RuntimeInvariantViolation
  | Panic => False
  end.
Proof.
  intros ((Hnp & Hni) & Hr & Hout) (Hk & Ha) Hnone. cbn [fst snd] in *. unfold untouched_by, selected.
  destruct x as [a|e|]; [| |done]; cbn in Hout, Ha.
  - destruct (f a); cbn in Hout; [done|]. by rewrite app_nil_r in Hout.
  - rewrite app_nil_r in Hout. split; [|congruence]. split_and!; try done. by destruct e.
Qed.

Lemma dispatch_drain_ok (limit clock now : Z) (c : ChannelWorkCoordinator) (a : ChannelAgent) nodes :
  channel_inv limit clock c a -> clock <= now -> wc_shutdown_drain_nodes c = Some nodes ->
  rt_active_dispatch (wc_runtime c) = None ->
  channel_ok limit now (dispatch_drain nodes now (c, a)).
Proof.
  intros Hch Hle Hn Hact. pose proof Hch as [Hc Ha Hp Hd]. destruct nodes as [|address nodes]; cbn [dispatch_drain].
  { split; [done|]. by eapply inv_later. }
  destruct (Hd _ Hn) as [Hin%Forall_cons_1 _]. destruct Hin as [Hin _].
  destruct (select_shutdown_present now _ address Hin) as [x Hx].
  pose proof (select_shutdown_ok (wc_runtime c) address now (ci_runtime _ _ Hc)) as Hstep.
  pose proof (select_shutdown_effect now (wc_runtime c) address) as [Heff Haddr].
  destruct (select_shutdown_measurement address now (wc_runtime c)) as [y r] eqn:Hsel. cbn [fst] in Hx, Haddr. subst y.
  rewrite (on_self_bind _ _ _ _ _ _ (on_runtime_eval _ _ _ _ Hsel)). cbn [map_err].
  pose proof (selection_cases now (fun d => DispatchMeasurement <$> d) _ r (Ok x) Hstep Heff Hact) as Hcases.
  destruct x as [d|]; cbn in Hcases; [|split; [done|by eapply inv_untouched]].
  pose proof (dispatch_measurement_ok limit clock now c a r d Hch Hle) as Hok.
  specialize (Hok Hcases). rewrite Hn in Hok.
  assert (forall nodes0, Some (address :: nodes) = Some nodes0 -> head nodes0 = Some (md_node_address d)) as Hhead.
  { intros n [= <-]. cbn. by rewrite (Haddr d eq_refl). }
  specialize (Hok Hhead). cbv [mbind st_bind].
  destruct (dispatch_measurement d (set_wc_runtime r c, a)) as [[u|e|] s]; exact Hok.
Qed.

(** *** Services *)

Lemma cancel_service (now : Z) (s : PeriodicService) (r : ChannelRuntime) d :
  runtime_inv r -> rt_active_dispatch r = Some (periodic_dispatch s d) ->
  exists r', cancel_periodic s d r = (Ok tt, r') /\ taken_back now (periodic_dispatch s d) r r'.
Proof.
  intros Hr Hact. destruct (cancel_periodic s d r) as [x r'] eqn:H. exists r'.
  pose proof (settling_cases now (periodic_dispatch s d) r x r') as Hcases. rewrite <- H in Hcases.
  specialize (Hcases (cancel_periodic_ok s r d Hr) (cancel_periodic_effect now s r d)).
  unfold cancel_periodic in H. destruct (current_periodic_at s r d Hr Hact) as (i & state & Hi & Hat).
  cbv [mbind st_bind] in H. rewrite Hi in H. destruct Hat as (l1 & l2 & Hl & ->).
  rewrite (put_periodic_at _ _ l1 l2 state) in H by done. cbv [modify] in H. by injection H as <- <-.
Qed.

(** A dispatch that needs no session is in the books. *)
Lemma inv_selected (clock now : Z) (c c' : ChannelWorkCoordinator) d :
  coord_inv clock c -> clock <= now -> selected now d (wc_runtime c) (wc_runtime c') ->
  wc_sessions c' = wc_sessions c -> wc_in_flight_writes c' = wc_in_flight_writes c ->
  wc_active_dispatch c' = None -> slots c' = slots_of (Some d) ->
  (forall s x, d = periodic_dispatch s x -> sd_node_address x ∈ at_rest (wc_sessions c)) -> coord_inv now c'.
Proof.
  intros Hc Hle (Hr & [Ha Ho] & Hact & Hact' & Hout) Hs Hw Hd Hsl Hat.
  destruct (idle_slots clock c Hc Hact) as (Hno & _). pose proof Hc as [_ Hclock Hs0 _ Hout0 Hrest Hwr Hpl Hsv].
  split; rewrite ?Ha, ?Hact', ?Hw, ?Hs; try done.
  - apply Ho; [done|]. by eapply observed_by_le.
  - rewrite <- Hout, Hout0, Hact. cbn [option_list app]. solve_Permutation.
  - unfold away in *. by rewrite Hd, Hw, <- Hno.
  - intros s x [= ->]. by apply (Hat s).
Qed.

(** An agent call that hands over no transfer. *)
Definition agent_kept {A : Type} (limit : Z) (m : agent A) (a : ChannelAgent) : Prop :=
  exists x a', m a = (x, a') /\ x <> Panic /\ agent_inv limit (held a') a' /\ Forall2 evolves (held a) (held a').

Lemma place_kept (active : option MeasurementDispatch) pending (l l' : list MeasurementTransfer) :
  Forall2 evolves l l' -> transfer_place active pending l -> transfer_place active pending l'.
Proof.
  intros H. destruct H as [|t t' l l' Ht Hl]; [done|]. destruct Hl; [|by destruct active, pending].
  destruct active as [d|], pending; cbn; try done. intros [Ha Hlent].
  split; [by rewrite (evolves_address t t' Ht)|by eapply evolves_lent].
Qed.

Definition service_slot (s : PeriodicService) (d : option ServiceDispatch) :
    ChannelWorkCoordinator -> ChannelWorkCoordinator :=
  match s with TimeSyncService => set_wc_time_sync d | TelemetryService => set_wc_telemetry d end.

Lemma dispatch_service_ok (limit clock now : Z) (c : ChannelWorkCoordinator) (a : ChannelAgent) r
    (s : PeriodicService) d (m : agent unit) :
  channel_inv limit clock c a -> clock <= now -> selected now (periodic_dispatch s d) (wc_runtime c) r ->
  sd_node_address d ∈ at_rest (wc_sessions c) -> agent_kept limit m a ->
  channel_ok limit now ((_ ← or_cancel (on_agent m) (cancel_periodic s d);
    on_self (modify (service_slot s (Some d)))) (set_wc_runtime r c, a)).
Proof.
  intros Hch Hle Hsel Hat (x & a' & Hm & Hnp & Ha' & Hev). pose proof Hch as [Hc Ha Hp Hd].
  pose proof Hsel as (Hr & Hk & Hact & Hact' & Hout). destruct (idle_slots clock c Hc Hact) as (H1 & H2 & H3 & H4).
  unfold or_cancel. cbv [mbind st_bind]. rewrite (attempt_eval _ _ _ _ (on_agent_eval m (set_wc_runtime r c) a x a' Hm)).
  destruct x as [u|e|]; [| |done]; cbn [map_err].
  - split; [done|]. cbn [on_self zoom modify fst snd mret st_ret].
    split.
    + eapply (inv_selected clock now c _ (periodic_dispatch s d)); destruct s; try done;
        first [by unfold slots; cbn; rewrite H1, H2, ?H3, ?H4 | by intros [] ? [= <-]].
    + done.
    + destruct s; cbn; by eapply place_kept.
    + apply (drain_kept c); [|by destruct s..|done]. destruct s; by apply keeps_addresses with now.
  - destruct (cancel_service now s r d Hr Hact') as (r' & Hcancel & Hback).
    rewrite (on_self_eval _ (set_wc_runtime r c) a' _ _ (on_runtime_eval _ (set_wc_runtime r c) _ _ Hcancel)).
    split; [done|]. cbn [map_err throw fst snd].
    replace (set_wc_runtime r' (set_wc_runtime r c)) with (set_wc_runtime r' c) by by destruct c.
    pose proof (inv_cancelled limit clock now c a r r' _ Hch Hle Hsel Hback) as [Hc' _ Hp' Hd'].
    split; try done. by eapply place_kept.
Qed.

Lemma submission_kept (limit : Z) (sub : Submission) (m : agent unit) (a : ChannelAgent) :
  submission_typed sub -> submit sub = (_ ← m; mret None) -> agent_inv limit (held a) a -> agent_kept limit m a.
Proof.
  intros Ht Hsub Ha. destruct (m a) as [x a'] eqn:Hm. exists x, a'. split; [done|].
  destruct (agent_call (ASubmit sub) a) as [r a2] eqn:Hcall.
  destruct (plain_call_keeps limit (ASubmit sub) a a2 r Ht I Ha Hcall) as (Hs & Ha2 & Hev).
  cbn [agent_call] in Hcall. rewrite Hsub in Hcall. cbv [mbind st_bind] in Hcall. rewrite Hm in Hcall.
  destruct x as [u|e|]; injection Hcall as <- <-; by split_and!.
Qed.

(** A node that is not in flight has its session at rest. *)
Lemma books_outstanding (clock : Z) (c : ChannelWorkCoordinator) d :
  coord_inv clock c -> d ∈ option_list (wc_active_dispatch c) ++ (iw_dispatch <$> wc_in_flight_writes c) ->
  DispatchMeasurement d ∈ outstanding (wc_runtime c).
Proof.
  intros Hc Hd. rewrite (ci_out _ _ Hc). apply elem_of_app in Hd as [Hd|Hd]; apply elem_of_app; [left|right].
  - pose proof (ci_slots _ _ Hc) as Hsl. destruct (wc_active_dispatch c) as [d0|] eqn:Ha; [|by apply not_elem_of_nil in Hd].
    apply list_elem_of_singleton in Hd as ->.
    unfold slots in Hsl. rewrite Ha in Hsl. destruct (rt_active_dispatch (wc_runtime c)) as [[]|]; try discriminate Hsl.
    injection Hsl as -> _ _ _. by left.
  - by apply list_elem_of_fmap_2.
Qed.

Lemma free_session (clock : Z) (c c1 : ChannelWorkCoordinator) address :
  coord_inv clock c -> node_free address (wc_runtime c) -> wc_sessions c1 = wc_sessions c ->
  address ∈ at_rest (wc_sessions c) /\ exists s, session_of address c1 = (Ok s, c1) /\ session_rest s.
Proof.
  intros Hc (node & Hn & Ha & Hf) Hs.
  assert (address ∈ addresses (wc_runtime c)) as Hin by (rewrite <- Ha; by apply list_elem_of_fmap_2).
  destruct (managed_of clock c Hc address Hin) as (l1 & l2 & m & Hm & Hl & Hma).
  destruct (present_rest clock c Hc l1 l2 m Hl) as (s & Hsome & Hrest).
  - rewrite Hma. unfold away. intros (d & -> & Hd)%list_elem_of_fmap.
    apply (books_outstanding clock c d Hc) in Hd. apply outstanding_measurement in Hd as (node' & Hn' & Hd).
    assert (nd_in_flight node' = true /\ node_address node' = md_node_address d) as [Hf' Ha'].
    { unfold node_dispatch in Hd. destruct (nd_in_flight node'); [|done].
      destruct (is_some _); [done|]. injection Hd as <-. done. }
    rewrite (fmap_NoDup_inj node_address _ node node' (ri_addresses _ (ci_runtime _ _ Hc)) Hn Hn') in Hf; congruence.
  - split.
    { rewrite Hl, at_rest_middle. unfold rest_address. rewrite Hsome, Hma. by left. }
    exists s. split; [|done]. unfold session_of. cbv [mbind st_bind].
    rewrite (managed_session_same address c c1 _ Hs Hm). cbn [snd]. by rewrite Hsome.
Qed.

Lemma dispatch_next_work_ok (limit clock now : Z) (c : ChannelWorkCoordinator) (a : ChannelAgent) :
  channel_inv limit clock c a -> clock <= now -> u64 now ->
  channel_ok limit now (dispatch_next_work now (c, a)).
Proof.
  intros Hch Hle Hnow. pose proof Hch as [Hc Ha Hp Hd]. pose proof (inv_later limit clock now c a Hch Hle) as Hlater.
  unfold dispatch_next_work. rewrite (on_self_bind _ _ _ _ (Ok c) c) by done.
  destruct (has_active_dispatch c || has_pending_completion c) eqn:Hbusy; [by split|].
  assert (rt_active_dispatch (wc_runtime c) = None) as Hact.
  { pose proof (ci_slots _ _ Hc) as Hsl. unfold slots in Hsl. unfold has_active_dispatch in Hbusy.
    destruct (rt_active_dispatch (wc_runtime c)) as [[]|]; [..|done]; injection Hsl as H1 H2 H3 H4;
      rewrite H1, H2, H3, H4 in Hbusy; discriminate Hbusy. }
  destruct (wc_shutdown_drain_nodes c) as [nodes|] eqn:Hn; [by eapply dispatch_drain_ok|].
  destruct (wc_quiescing c); [by split|].
  pose proof (select_work_ok (wc_runtime c) now (ci_runtime _ _ Hc) Hnow) as Hstep.
  pose proof (select_work_effect now (wc_runtime c) (ci_runtime _ _ Hc) Hnow) as Heff.
  destruct (select_work now (wc_runtime c)) as [x r] eqn:Hsel.
  pose proof (selection_cases now id _ r x Hstep Heff Hact) as Hcases.
  rewrite (on_self_bind _ _ _ _ _ _ (on_runtime_eval _ _ _ _ Hsel)).
  destruct x as [[d|]|e|]; cbn [map_err]; [| | |done]; cbn in Hcases.
  - destruct d as [d|d|d|d].
    + pose proof (dispatch_measurement_ok limit clock now c a r d Hch Hle Hcases) as Hok. rewrite Hn in Hok.
      specialize (Hok ltac:(done)). cbv [mbind st_bind].
      destruct (dispatch_measurement d (set_wc_runtime r c, a)) as [[u|e|] s]; exact Hok.
    + change (channel_ok limit now (Ok (Some (DispatchRecovery d)),
        (set_wc_recovery (Some d) (set_wc_runtime r c), a))).
      split; [done|]. destruct (idle_slots clock c Hc Hact) as (H1 & H2 & H3 & H4).
      split; [|done..|]; cbn [fst snd].
      * eapply (inv_selected clock now c _ (DispatchRecovery d)); try done; [|by intros []].
        unfold slots. cbn. by rewrite H1, H3, H4.
      * pose proof Hcases as (_ & Hk & _). apply (drain_kept c); [by apply keeps_addresses with now|done..].
    + destruct (free_session clock c (set_wc_runtime r c) (sd_node_address d) Hc) as (Hat & s & Hs & _); [|done|].
      { by eapply (select_work_free now _ r TimeSyncService); [apply Hc|..]. }
      unfold dispatch_time_sync.
      pose proof (dispatch_service_ok limit clock now c a r TimeSyncService d
        (submit_time_sync (sd_node_address d) (ns_boot_epoch s)) Hch Hle Hcases Hat) as Hok.
      specialize (Hok (submission_kept limit (SubmitTimeSync (sd_node_address d) (ns_boot_epoch s)) _ a I eq_refl Ha)).
      cbv [mbind st_bind] in Hok |- *. rewrite (on_self_eval _ _ a _ _ Hs).
      change (cancel_time_sync d) with (cancel_periodic TimeSyncService d).
      destruct (or_cancel _ _ _) as [[u|e|] st]; exact Hok.
    + destruct (free_session clock c c (sd_node_address d) Hc) as (Hat & _); [|done|].
      { by eapply (select_work_free now _ r TelemetryService); [apply Hc|..]. }
      pose proof (dispatch_service_ok limit clock now c a r TelemetryService d
        (submit_telemetry (sd_node_address d)) Hch Hle Hcases Hat) as Hok.
      specialize (Hok (submission_kept limit (SubmitTelemetry (sd_node_address d)) _ a I eq_refl Ha)).
      unfold dispatch_telemetry. cbv [mbind st_bind] in Hok |- *.
      change (cancel_telemetry d) with (cancel_periodic TelemetryService d).
      destruct (or_cancel _ _ _) as [[u|e|] st]; exact Hok.
  - split; [done|]. by eapply inv_untouched.
  - destruct Hcases as [Hun _]. split; [|by eapply inv_untouched].
    destruct (select_work_errors now (wc_runtime c) r e (ci_runtime _ _ Hc) Hnow Hsel) as [->|[error ->]]; done.
Qed.

(** ** Settling *)

(** The completion is out of its slot, in the hands of the running call. *)
Record in_hand (limit clock : Z) (p : PendingCompletion) (c : ChannelWorkCoordinator) (a : ChannelAgent) : Prop := {
  ih_coord : coord_inv clock c;
  ih_agent : agent_inv limit (held a) a;
  ih_held : held a = [];
  ih_active : wc_active_dispatch c = Some (pn_dispatch p);
  ih_empty : wc_pending_completion c = None;
  ih_pending : pending_ok p;
  ih_drain : drain_ok c
}.

Lemma inv_set_pending (clock : Z) (c : ChannelWorkCoordinator) x :
  coord_inv clock c -> coord_inv clock (set_wc_pending x c).
Proof. by intros []; split. Qed.

Lemma inv_put_back (limit clock : Z) (p p' : PendingCompletion) (c : ChannelWorkCoordinator) (a : ChannelAgent) :
  in_hand limit clock p c a -> pn_dispatch p' = pn_dispatch p -> pending_ok p' ->
  channel_inv limit clock (set_wc_pending (Some p') c) a.
Proof.
  intros [Hc Ha Hh Hact He Hp Hd] Hp' Hok. split; [by apply inv_set_pending|done| |done].
  change (transfer_place (wc_active_dispatch c) (Some p') (held a)). by rewrite Hact, Hh.
Qed.

Lemma in_hand_later (limit clock now : Z) (p : PendingCompletion) (c : ChannelWorkCoordinator) (a : ChannelAgent) :
  in_hand limit clock p c a -> clock <= now -> in_hand limit now p c a.
Proof. intros [[] Ha Hh Hact He Hp Hd] Hle. split; try done. split; try done. by eapply observed_by_le. Qed.

Lemma in_hand_untouched (limit clock now : Z) (p : PendingCompletion) (c : ChannelWorkCoordinator) (a : ChannelAgent) r :
  in_hand limit clock p c a -> clock <= now -> untouched_by now (wc_runtime c) r ->
  in_hand limit now p (set_wc_runtime r c) a.
Proof.
  intros [Hc Ha Hh Hact He Hp Hd] Hle (Hr & Hk & Hact' & Hout). split; try done; [by eapply inv_runtime|].
  apply (drain_kept c); [by apply keeps_addresses with now|done..].
Qed.

Lemma current_measurement (clock : Z) (c : ChannelWorkCoordinator) d :
  coord_inv clock c -> wc_active_dispatch c = Some d ->
  rt_active_dispatch (wc_runtime c) = Some (DispatchMeasurement d) /\
  wc_active_recovery c = None /\ wc_active_time_sync c = None /\ wc_active_telemetry c = None.
Proof.
  intros Hc Ha. pose proof (ci_slots _ _ Hc) as Hsl. unfold slots in Hsl. rewrite Ha in Hsl.
  destruct (rt_active_dispatch (wc_runtime c)) as [[]|]; try discriminate Hsl. by injection Hsl as -> -> -> ->.
Qed.

Lemma ensure_pending_ok (limit clock : Z) (c : ChannelWorkCoordinator) (a : ChannelAgent) :
  channel_inv limit clock c a ->
  match (_ ← ensure_pending; on_self take_pending) (c, a) with
  | (Ok p, (c', a')) => in_hand limit clock p c' a'
  | (Err e, (c', a')) => coord_internal e = false /\ channel_inv limit clock c' a'
  | (Panic, _) => False
  end.
Proof.
  intros [Hc Ha Hp Hd]. unfold ensure_pending, has_pending_completion.
  cbv [mbind st_bind]. rewrite (on_self_eval _ _ _ (Ok c) c) by done.
  destruct (wc_pending_completion c) as [p|] eqn:Hpend; cbn [is_some].
  { unfold transfer_place in Hp. destruct (wc_active_dispatch c) as [d|] eqn:Hact; [|done].
    destruct (held a) eqn:Hheld; [|done]. destruct Hp as [<- Hok].
    unfold take_pending, on_self, zoom. st_eval. rewrite Hpend.
    split; try done; [by apply inv_set_pending|by rewrite Hheld]. }
  destruct (wc_active_dispatch c) as [d|] eqn:Hact; cbn [ok_or lift].
  2: { split; [done|]. split; [done..| |done]. by rewrite Hact, Hpend. }
  destruct (take_completed_cases limit a Ha) as (a' & Htake & Ha' & Hheld).
  rewrite (on_agent_eval _ c a _ _ Htake). cbn [map_err].
  destruct (ag_completed_measurement a) as [t|] eqn:Hcomp.
  2: { change (held a = held a') in Hheld. split; [done|]. split; try done. by rewrite Hact, Hpend, <- Hheld. }
  change (held a = t :: held a') in Hheld. rewrite Hheld in Hp. cbn in Hp. destruct (held a') eqn:Hempty; [|done]. destruct Hp as [Hta Hlent].
  cbn [ok_or]. rewrite (proj2 (Z.eqb_eq _ _) Hta). cbn [negb].
  unfold take_pending, on_self, zoom. st_eval. cbn [set_wc_pending wc_pending_completion].
  replace (set_wc_pending None _) with (set_wc_pending None c) by by destruct c.
  split; try done; [by apply inv_set_pending|by rewrite Hempty].
Qed.

(** The settled measurement's session is ready or needs a recovery. *)
Definition settlement_node (settlement : MeasurementSettlement) : Z :=
  match settlement with
  | Persisted node _ _ | SettledNoData node _ | RetryScheduled node | SettledRecovery node _ => node
  end.

Lemma progress_of (t : MeasurementTransfer) produced :
  transfer_ok t -> produced_typed t -> mt_observed_produced t = Some produced ->
  typed (mkProgress (received (ns_cursors (mt_session t))) produced).
Proof.
  intros (hw & e & d & open & _ & _ & Hrel & _) Ht Hp. split; [|by apply Ht].
  destruct (session_rel_cursors hw e d open _ Hrel) as (Hwf & Hd & Hr). cbn. rewrite Hr.
  destruct Hrel; cbn; unfold unsigned; lia.
Qed.

Lemma settle_pending_ok (limit clock now : Z) (p : PendingCompletion) (c : ChannelWorkCoordinator) (a : ChannelAgent)
    (before : SessionPhase) (kind : option PersistenceKind) :
  in_hand limit clock p c a -> clock <= now -> u64 now -> transfer_lent (pn_transfer p) -> pn_envelope p = None ->
  (ns_phase (mt_session (pn_transfer p)) = Ready -> before <> Ready -> is_some kind = true) ->
  match settle_pending p before kind now c with
  | (Ok settlement, c') => exists r, c' = set_wc_runtime r c /\
      taken_back now (DispatchMeasurement (pn_dispatch p)) (wc_runtime c) r /\
      session_rest (mt_session (pn_transfer p)) /\ settlement_node settlement = md_node_address (pn_dispatch p)
  | (Err e, c') => coord_internal e = false /\ channel_inv limit now c' a
  | (Panic, _) => False
  end.
Proof.
  intros Hin Hle Hnow Hlent Henv Hkind. pose proof Hin as [Hc Ha Hh Hact He Hp Hd].
  destruct (current_measurement clock c _ Hc Hact) as (Hcur & _).
  pose proof (ci_runtime _ _ Hc) as Hr.
  assert (Hback : forall r e, untouched_by now (wc_runtime c) r -> local_failure e ->
    coord_internal (CoordRuntime e) = false /\ channel_inv limit now (set_wc_pending (Some p) (set_wc_runtime r c)) a).
  { intros r e Hun Hloc. split; [by destruct Hloc as [->|[->| ->]]|].
    by eapply inv_put_back; [eapply in_hand_untouched|..]. }
  assert (Hrest : is_persisting (ns_phase (mt_session (pn_transfer p))) = false -> session_rest (mt_session (pn_transfer p)))
    by (apply transfer_ok_rest, Hlent).
  unfold settle_pending. destruct (ns_phase (mt_session (pn_transfer p))) eqn:Hphase;
    try (split; [done|]; by eapply inv_put_back; [eapply in_hand_later|..]).
  - unfold settle_ready. destruct (mt_observed_produced (pn_transfer p)) as [produced|] eqn:Hprod.
    + set (progress := mkProgress _ produced).
      assert (typed progress) as Hpt by (apply progress_of; [apply Hlent..|done]).
      destruct (complete_measurement (pn_dispatch p) progress now (wc_runtime c)) as [x r] eqn:Hcomp.
      pose proof (complete_current now _ r _ progress x Hr Hcur Hpt Hnow Hcomp) as Hcases.
      rewrite (on_runtime_bind _ _ _ _ _ (attempt_eval (F:=ChannelRuntimeError) _ _ _ _ Hcomp)).
      destruct x as [u|e|]; [| |done].
      * case_bool_decide as Hb; [exists r; by split_and!; [..|apply Hrest|]|].
        destruct kind as [k|]; [|by discriminate Hkind]. exists r. by split_and!; [..|apply Hrest|].
      * destruct e; cbn [is_regressed] in Hcases; try (destruct Hcases; by apply Hback).
        exists r. by split_and!; [..|apply Hrest|].
    + destruct (fail_measurement (pn_dispatch p) now (wc_runtime c)) as [x r] eqn:Hfail.
      pose proof (fail_current now _ r _ x Hr Hcur Hfail) as Hcases. unfold or_keep.
      cbv [mbind st_bind]. rewrite (on_runtime_eval _ _ _ _ (attempt_eval (F:=ChannelRuntimeError) _ _ _ _ Hfail)).
      destruct x as [u|e|]; [exists r; by split_and!; [..|apply Hrest|]|destruct Hcases; by apply Hback|done].
  - unfold settle_recovery, or_keep.
    destruct (require_current now (wc_runtime c) (pn_dispatch p)
      (from_option cause_of_recovery CauseInvalidResponse (mt_recovery_reason (pn_transfer p))) Hr Hcur Hnow)
      as (r & Hreq & Hback').
    cbv [mbind st_bind]. rewrite (on_runtime_eval _ _ _ _ (attempt_eval (F:=ChannelRuntimeError) _ _ _ _ Hreq)).
    exists r. by split_and!; [..|apply Hrest|].
Qed.

Lemma settle_session_eval (now : Z) (settlement : MeasurementSettlement) (address : Z) (s : NodeSession)
    (produced : option Z) (c : ChannelWorkCoordinator) l1 l2 m :
  runtime_inv (wc_runtime c) -> observed_by now (wc_runtime c) -> u64 now -> address ∈ addresses (wc_runtime c) ->
  managed_session address c = (Ok (length l1, m), c) -> wc_sessions c = l1 ++ m :: l2 ->
  exists metrics, settle_session settlement address s produced now c =
    (Ok tt, set_wc_sessions (l1 ++ mkManaged (ms_node_address m) (Some s) metrics :: l2) c).
Proof.
  intros Hr Ho Hnow Hin Hm Hl. destruct (snapshot_current now _ address Hr Ho Hnow Hin) as [node Hnode].
  unfold settle_session, restore_session. cbv [mbind st_bind get lift]. rewrite Hnode. cbn [map_err].
  rewrite Hm. eexists. by apply put_managed_at with m.
Qed.

(** What a settlement does to the drain. *)
Definition drained (settlement : MeasurementSettlement) (drain : option (list Z)) : option (list Z) :=
  match settlement with SettledNoData _ _ => tail <$> drain | _ => drain end.

(** Only the node at the front of the drain is settled while it runs. *)
Definition drains (settlement : MeasurementSettlement) (before after : option (list Z)) : Prop :=
  after = drained settlement before /\
  forall nodes, before = Some nodes -> head nodes = Some (settlement_node settlement).

Lemma observe_shutdown_ok (c : ChannelWorkCoordinator) (settlement : MeasurementSettlement) :
  (forall nodes, wc_shutdown_drain_nodes c = Some nodes -> head nodes = Some (settlement_node settlement)) ->
  observe_shutdown_settlement settlement c =
  (Ok tt, set_wc_admission (wc_quiescing c) (drained settlement (wc_shutdown_drain_nodes c)) c).
Proof.
  intros Hhead. assert (Hself : set_wc_admission (wc_quiescing c) (wc_shutdown_drain_nodes c) c = c) by by destruct c.
  unfold observe_shutdown_settlement, drained. destruct settlement; try (by rewrite Hself). rewrite st_bind_get.
  destruct (wc_shutdown_drain_nodes c) as [[|front nodes]|] eqn:Hn; [| |by cbn; rewrite Hself].
  - by specialize (Hhead _ eq_refl).
  - specialize (Hhead _ eq_refl). injection Hhead as ->. cbn [settlement_node]. by rewrite Z.eqb_refl.
Qed.

Lemma finish_settlement_ok (limit clock now : Z) (p : PendingCompletion) (c : ChannelWorkCoordinator)
    (a : ChannelAgent) r (settlement : MeasurementSettlement) :
  in_hand limit clock p c a -> clock <= now -> u64 now ->
  taken_back now (DispatchMeasurement (pn_dispatch p)) (wc_runtime c) r ->
  session_rest (mt_session (pn_transfer p)) -> settlement_node settlement = md_node_address (pn_dispatch p) ->
  exists c', finish_settlement p settlement now (set_wc_runtime r c) = (Ok settlement, c') /\
    channel_inv limit now c' a /\
    drains settlement (wc_shutdown_drain_nodes c) (wc_shutdown_drain_nodes c').
Proof.
  intros [Hc Ha Hh Hact He Hp Hd] Hle Hnow (Hr & Hk & Hidle & Hout) Hrest Hnode.
  destruct (current_measurement clock c _ Hc Hact) as (Hcur & H2 & H3 & H4).
  set (d := pn_dispatch p) in *. set (c1 := set_wc_runtime r c).
  assert (md_node_address d ∈ addresses (wc_runtime c)) as Hin.
  { apply outstanding_measurement_ok; [apply Hc|]. apply (ri_active _ (ci_runtime _ _ Hc)). done. }
  destruct (managed_of clock c Hc _ Hin) as (l1 & l2 & m & Hm & Hl & Hma).
  assert (observed_by now r) as Ho.
  { apply (keeps_observed _ _ _ Hk); [done|]. eapply observed_by_le; [exact Hle|apply Hc]. }
  destruct (settle_session_eval now settlement (md_node_address d) (mt_session (pn_transfer p))
    (mp_produced <$> settlement_progress settlement) c1 l1 l2 m) as [metrics Hsettle]; try done.
  { cbn. by rewrite (keeps_addresses _ _ _ Hk). }
  { by apply (managed_session_same _ c c1). }
  unfold finish_settlement. cbv [mbind st_bind]. fold d. rewrite Hsettle. cbv [modify].
  set (c2 := set_wc_dispatch None _). rewrite observe_shutdown_ok.
  2: { intros nodes Hn. rewrite Hnode. by apply (Hd nodes Hn). }
  eexists. split; [reflexivity|]. split; [|split; [done|]; intros nodes Hn; rewrite Hnode; by apply (Hd nodes Hn)]. split.
  - eapply (inv_returned clock now c _ l1 l2 m _ _ d Hc Hle); try done.
    + cbn. unfold slots. cbn. by rewrite H2, H3, H4, Hidle.
    + rewrite Hcur. cbn. by rewrite Hidle.
    + unfold away. rewrite Hact. done.
    + apply Hc.
    + cbn. by rewrite Hidle.
  - done.
  - cbn. by rewrite He, Hh.
  - intros nodes Hn. cbn in Hn. split; [|done]. cbn. rewrite (keeps_addresses _ _ _ Hk).
    destruct settlement; cbn in Hn; try (by apply (Hd nodes Hn)).
    destruct (wc_shutdown_drain_nodes c) as [l|] eqn:Hnodes; [|done]. injection Hn as <-.
    destruct (Hd l Hnodes) as [Hall _]. by destruct Hall.
Qed.

(** ** What no call but the drain's own changes *)

(** The observation [f] of the state is the same after [m]. *)
Definition fixed {T F A X : Type} (f : T -> X) (m : st T F A) : Prop := forall s, f (snd (m s)) = f s.

Section Fixed.
Context {T F X : Type} (f : T -> X).

Lemma fixed_ret {A : Type} (a : A) : fixed f (mret a : st T F A).
Proof. by intros s. Qed.
Lemma fixed_throw {A : Type} (e : F) : fixed f (throw e : st T F A).
Proof. by intros s. Qed.
Lemma fixed_get : fixed f (get : st T F T).
Proof. by intros s. Qed.
Lemma fixed_lift {A : Type} (m : outcome F A) : fixed f (lift m : st T F A).
Proof. by intros s. Qed.
Lemma fixed_modify (g : T -> T) : (forall s, f (g s) = f s) -> fixed f (modify g : st T F unit).
Proof. intros H s. apply H. Qed.
Lemma fixed_bind {A B : Type} (m : st T F A) (k : A -> st T F B) :
  fixed f m -> (forall a, fixed f (k a)) -> fixed f (m ≫= k).
Proof.
  intros Hm Hk s. cbv [mbind st_bind]. specialize (Hm s). destruct (m s) as [[a|e|] s1]; cbn in Hm |- *; [|done..].
  by rewrite Hk.
Qed.
Lemma fixed_attempt {G A : Type} (m : st T G A) : fixed f m -> fixed f (attempt (F:=F) m).
Proof. intros Hm s. specialize (Hm s). unfold attempt. by destruct (m s) as [[] s1]. Qed.
Lemma fixed_zoom {U G A : Type} (view : T -> U) (set : U -> T -> T) (conv : G -> F) (m : st U G A) (g : U -> X) :
  (forall u s, f (set u s) = g u) -> (forall s, f s = g (view s)) -> fixed g m -> fixed f (zoom view set conv m).
Proof.
  intros Hset Hview Hm s. unfold zoom. specialize (Hm (view s)). destruct (m (view s)) as [r u].
  cbn in Hm |- *. by rewrite Hset, Hm, Hview.
Qed.
Lemma fixed_aside {U G A : Type} (view : T -> U) (set : U -> T -> T) (conv : G -> F) (m : st U G A) :
  (forall u s, f (set u s) = f s) -> fixed f (zoom view set conv m).
Proof. intros Hset s. unfold zoom. destruct (m (view s)) as [r u]. apply Hset. Qed.
End Fixed.

(** Walks through a computation whose calls keep the drain. *)
Ltac keep_drain :=
  repeat first
    [ apply fixed_ret | apply fixed_throw | apply fixed_get | apply fixed_lift
    | apply fixed_bind; [|intros ?] | apply fixed_attempt
    | (apply fixed_modify; done)
    | match goal with
      | |- fixed _ (on_runtime _) => by apply fixed_aside
      | |- fixed _ (on_agent _) => by apply fixed_aside
      | |- fixed _ (on_self _) => apply (fixed_zoom _ _ _ _ _ wc_shutdown_drain_nodes); [done|done|]
      end
    | progress cbv beta iota zeta
    | case_match
    | done ].

Definition channel_drain (x : ChannelWorkCoordinator * ChannelAgent) : option (list Z) :=
  wc_shutdown_drain_nodes (fst x).

Lemma put_managed_drain i m : fixed wc_shutdown_drain_nodes (put_managed i m).
Proof. by apply fixed_modify. Qed.

Lemma ensure_pending_drain (c : ChannelWorkCoordinator) (a : ChannelAgent) :
  wc_shutdown_drain_nodes (fst (snd ((_ ← ensure_pending; on_self take_pending) (c, a)))) = wc_shutdown_drain_nodes c.
Proof.
  assert (fixed channel_drain (_ ← ensure_pending; on_self take_pending)) as H; [|exact (H (c, a))].
  unfold ensure_pending, take_pending. keep_drain.
Qed.

Lemma zoom_pair {T Y F A : Type} (conv : MeasurementCoordinatorError -> F) (m1 : st T MeasurementCoordinatorError unit)
    (m2 : st T MeasurementCoordinatorError A) {B : Type} (k : A -> st (T * Y) F B) (x : T) (y : Y) :
  (_ ← zoom fst (fun x z => (x, snd z)) conv m1; a ← zoom fst (fun x z => (x, snd z)) conv m2; k a) (x, y) =
  match (_ ← m1; m2) x with
  | (Ok a, x') => k a (x', y)
  | (Err e, x') => (Err (conv e), (x', y))
  | (Panic, x') => (Panic, (x', y))
  end.
Proof.
  cbv [mbind st_bind zoom]. cbn [fst snd]. destruct (m1 x) as [[u|e|] x1]; cbn; [|done..].
  by destruct (m2 x1) as [[a|e|] x2].
Qed.

Section SettleCompletedOk.
Context {S E : Type} `{DurableMeasurementSink S E} (Hsink : answers (S:=S) (E:=E)).

Definition settle_sound (x : outcome (MeasurementSettlementError E) MeasurementSettlement) : Prop :=
match x with
| Ok _ | Err (SettlePersistence (PersistSink _)) => True
| Err (SettleCoordinator e) => coord_internal e = false
| _ => False
end.

Lemma in_channel_pair {A B : Type} (m1 : channel_work unit) (m2 : channel_work A)
  (k : A -> st (ChannelWorkCoordinator * ChannelAgent * S) (MeasurementSettlementError E) B) x (s : S) :
(_ ← in_channel m1; a ← in_channel m2; k a) (x, s) =
match (_ ← m1; m2) x with
| (Ok a, x') => k a (x', s)
| (Err e, x') => (Err (SettleCoordinator e), (x', s))
| (Panic, x') => (Panic, (x', s))
end.
Proof. apply zoom_pair. Qed.

Lemma in_channel_eval {A : Type} (m : coordinator A) c a (s : S) x c' :
m c = (x, c') -> in_channel (E:=E) (on_self m) (c, a, s) = (map_err SettleCoordinator x, (c', a, s)).
Proof. intros Hm. unfold in_channel, zoom. cbn [fst snd]. by rewrite (on_self_eval m c a x c' Hm). Qed.

(** What is settled after the record, if there was one, was stored. *)
Lemma persist_if_pending_ok (limit clock : Z) (p : PendingCompletion) (c : ChannelWorkCoordinator) (a : ChannelAgent) (s : S) :
in_hand limit clock p c a -> pn_envelope p = None ->
match persist_if_pending (E:=E) p (c, a, s) with
| (Ok p', (c', a', _)) => c' = c /\ a' = a /\ pn_dispatch p' = pn_dispatch p /\ pn_envelope p' = None /\
    in_hand limit clock p' c a /\ transfer_lent (pn_transfer p') /\
    (ns_phase (mt_session (pn_transfer p')) = Ready -> ns_phase (mt_session (pn_transfer p)) <> Ready ->
      is_some (mt_persistence_kind (pn_transfer p)) = true)
| (Err error, (c', a', _)) => settle_sound (Err error) /\ channel_inv limit clock c' a' /\
    wc_shutdown_drain_nodes c' = wc_shutdown_drain_nodes c
| (Panic, _) => False
end.
Proof.
intros Hin Henv. pose proof (ih_pending _ _ _ _ _ Hin) as [Hpa Hok]. rewrite Henv in Hok.
unfold persist_if_pending. destruct (is_persisting (ns_phase (mt_session (pn_transfer p)))) eqn:Hph; cbn [negb].
2: { cbv [mret st_ret]. by split_and!. }
cbv [mbind st_bind persist_taken]. cbn [snd fst].
destruct (persist_pending (pn_transfer p, s)) as [r [t s']] eqn:Hp.
destruct (persist_lent _ _ _ _ _ Hsink Hok Hph Hp) as (Hnp & Hsame & Hstored & Hfailed).
destruct r as [receipt|error|]; [| |done].
- destruct (Hstored receipt eq_refl) as [[Htok Htt Htr] Hready].
  destruct (same_transfer_fields _ _ Hsame) as (Haddr & Hprod & Hkind & _).
  assert (transfer_lent t) as Hlent by (split; [done|done|apply waits_not_stored; by rewrite Hready]).
  cbv [mret st_ret]. cbn [pn_transfer pn_dispatch pn_envelope]. split_and!; try done.
  + destruct Hin as [Hc Ha Hh Hact He _ Hd]. split; try done. split; cbn; [by rewrite Haddr|by rewrite Henv].
  + intros _ _. rewrite <- Hkind. apply Htr.
- destruct (Hfailed error eq_refl) as (-> & e & ->).
  unfold in_channel, on_self, zoom. cbn [fst snd map_err modify throw].
  split_and!; [done| |done]. eapply inv_put_back; [exact Hin|done|].
  split; cbn; [done|by rewrite Henv].
Qed.

Lemma settle_completed_ok (limit clock now : Z) (c : ChannelWorkCoordinator) (a : ChannelAgent) (s : S) :
channel_inv limit clock c a -> clock <= now -> u64 now ->
match settle_completed (E:=E) now (c, a, s) with
| (x, (c', a', _)) => settle_sound x /\ channel_inv limit now c' a' /\
    match x with
    | Ok settlement => drains settlement (wc_shutdown_drain_nodes c) (wc_shutdown_drain_nodes c')
    | _ => wc_shutdown_drain_nodes c' = wc_shutdown_drain_nodes c
    end
end.
Proof.
intros Hch Hle Hnow. unfold settle_completed. rewrite in_channel_pair.
pose proof (ensure_pending_ok limit clock c a Hch) as Hens.
pose proof (ensure_pending_drain c a) as Hdrain.
destruct ((_ ← ensure_pending; on_self take_pending) (c, a)) as [[p|e|] [c1 a1]]; cbn [snd fst] in Hdrain; [| |done].
2: { destruct Hens as [He Hens]. split_and!; [done|by eapply inv_later|done]. }
destruct (pn_envelope p) as [envelope|] eqn:Henv; cbn [is_some].
{ rewrite (in_channel_eval _ c1 a1 s (Err PersistenceAlreadyHandedOff) (set_wc_pending (Some p) c1)) by done.
  split_and!; [done| |done]. eapply inv_put_back; [by eapply in_hand_later|done|apply Hens]. }
pose proof (persist_if_pending_ok limit clock p c1 a1 s Hens Henv) as Hper.
cbv [mbind st_bind].
destruct (persist_if_pending p (c1, a1, s)) as [[p'|error|] [[c2 a2] s2]]; [| |done].
2: { destruct Hper as (He & Hper & Hd2). split_and!; [done|by eapply inv_later|by rewrite Hd2]. }
destruct Hper as (-> & -> & Hd' & Henv' & Hin' & Hlent' & Hkind).
pose proof (settle_pending_ok limit clock now p' c1 a1 (ns_phase (mt_session (pn_transfer p)))
  (mt_persistence_kind (pn_transfer p)) Hin' Hle Hnow Hlent' Henv' Hkind) as Hset.
assert (fixed wc_shutdown_drain_nodes (settle_pending p' (ns_phase (mt_session (pn_transfer p)))
  (mt_persistence_kind (pn_transfer p)) now)) as Hfix.
{ unfold settle_pending, settle_ready, settle_recovery, or_keep, keep_pending. keep_drain. }
specialize (Hfix c1).
destruct (settle_pending p' _ _ now c1) as [[settlement|e|] c2] eqn:Hsp; cbn [snd] in Hfix; [| |done].
- destruct Hset as (r & -> & Hback & Hrest & Hnode).
  destruct (finish_settlement_ok limit clock now p' c1 a1 r settlement Hin' Hle Hnow Hback Hrest Hnode)
    as (c3 & Hfin & Hinv & Hd3).
  rewrite (in_channel_eval _ c1 a1 s2 (Ok settlement) c3) by (by rewrite Hsp).
  split_and!; [done|done|]. by rewrite <- Hdrain.
- destruct Hset as [He Hinv]. rewrite (in_channel_eval _ c1 a1 s2 (Err e) c2) by (by rewrite Hsp).
  split_and!; [done|done|by rewrite Hfix].
Qed.
End SettleCompletedOk.

(** ** Handing over *)

Section HandoffOk.
Context {Q : Type} `{PersistenceSubmitter Q}.

(** A writer that answers, and gives a refused envelope back. *)
Definition gives_back : Prop :=
forall envelope (q : Q), envelope_valid envelope ->
match fst (submit_record envelope q) with
| Ok _ => True
| Err error => BoundedWriter.se_envelope error = envelope
| Panic => False
end.

Context (Hwriter : gives_back).

Definition handoff_sound (x : outcome MeasurementHandoffError BoundedWriter.WriteJobId) : Prop :=
match x with
| Ok _ | Err (HandoffSubmit _) => True
| Err (HandoffCoordinator e) => coord_internal e = false
| _ => False
end.

Lemma for_handoff_pair {A B : Type} (m1 : channel_work unit) (m2 : channel_work A)
  (k : A -> st (ChannelWorkCoordinator * ChannelAgent * Q) MeasurementHandoffError B) x (q : Q) :
(_ ← for_handoff m1; a ← for_handoff m2; k a) (x, q) =
match (_ ← m1; m2) x with
| (Ok a, x') => k a (x', q)
| (Err e, x') => (Err (HandoffCoordinator e), (x', q))
| (Panic, x') => (Panic, (x', q))
end.
Proof. apply zoom_pair. Qed.

Lemma for_handoff_eval {A : Type} (m : coordinator A) c a (q : Q) x c' :
m c = (x, c') -> for_handoff (on_self m) (c, a, q) = (map_err HandoffCoordinator x, (c', a, q)).
Proof. intros Hm. unfold for_handoff, zoom. cbn [fst snd]. by rewrite (on_self_eval m c a x c' Hm). Qed.

(** The envelope of a waiting record, fresh or refused before. *)
Lemma pending_envelope_ok (p : PendingCompletion) :
pending_ok p -> is_persisting (ns_phase (mt_session (pn_transfer p))) = true ->
exists envelope t, pending_record_envelope p = Ok (envelope, t) /\ envelope_valid envelope /\
  mt_node_address t = md_node_address (pn_dispatch p) /\ transfer_stored t /\
  is_persisting (ns_phase (mt_session t)) = true.
Proof.
intros [Ha Hok] Hph. destruct p as [d t0 [envelope|]]; cbn in *.
- destruct Hok as (Hv & Hs & Hp). by exists envelope, t0.
- destruct (handover_ok d t0 Hok Hph) as (envelope & t & He & Hsame & Hs & Hp & Hv). exists envelope, t.
  destruct (same_transfer_fields _ _ Hsame) as (Haddr & _). split_and!; try done. by rewrite Haddr.
Qed.

Lemma park_write_ok (limit clock : Z) (p : PendingCompletion) (c : ChannelWorkCoordinator) (a : ChannelAgent) id t :
in_hand limit clock p c a -> mt_node_address t = md_node_address (pn_dispatch p) -> transfer_stored t ->
exists c', park_write id (pn_dispatch p) t c = (Ok id, c') /\ channel_inv limit clock c' a /\
  wc_shutdown_drain_nodes c' = wc_shutdown_drain_nodes c.
Proof.
intros [Hc Ha Hh Hact He _ Hd] Hta Hst. destruct (current_measurement clock c _ Hc Hact) as (Hcur & H2 & H3 & H4).
destruct (park_current clock _ _ (ci_runtime _ _ Hc) Hcur) as (r & Hpark & Hr & Hk & Hidle & Hout).
unfold park_write. cbv [mbind st_bind modify].
set (c1 := set_wc_writes _ c). rewrite (on_runtime_eval _ c1 _ _ Hpark). cbn [map_err].
eexists. split; [reflexivity|]. split; [|done]. split.
- destruct Hc as [_ Hclock Hs _ Hout0 Hrest Hwr Hpl Hsv]. split;
    cbn [set_wc_dispatch set_wc_runtime c1 set_wc_writes wc_runtime wc_sessions wc_in_flight_writes].
  + done.
  + by apply (keeps_observed _ _ _ Hk).
  + by rewrite (keeps_addresses _ _ _ Hk).
  + rewrite Hidle. unfold slots. cbn. by rewrite H2, H3, H4.
  + rewrite Hidle, <- Hout, Hout0, Hcur. unfold write_dispatches. rewrite !fmap_app. cbn. solve_Permutation.
  + done.
  + apply Forall_app_2; [done|]. by constructor.
  + rewrite (keeps_addresses _ _ _ Hk), <- Hpl. unfold away. cbn. rewrite Hact, !fmap_app. cbn. solve_Permutation.
  + by rewrite Hidle.
- done.
- cbn. by rewrite He, Hh.
- apply (drain_kept_idle c); [by apply keeps_addresses with clock|done..].
Qed.

Lemma handoff_completed_ok (limit clock : Z) (c : ChannelWorkCoordinator) (a : ChannelAgent) (q : Q) :
channel_inv limit clock c a ->
match handoff_completed (c, a, q) with
| (x, (c', a', _)) => handoff_sound x /\ channel_inv limit clock c' a' /\
    wc_shutdown_drain_nodes c' = wc_shutdown_drain_nodes c
end.
Proof.
intros Hch. unfold handoff_completed. rewrite for_handoff_pair.
pose proof (ensure_pending_ok limit clock c a Hch) as Hens.
pose proof (ensure_pending_drain c a) as Hdrain.
destruct ((_ ← ensure_pending; on_self take_pending) (c, a)) as [[p|e|] [c1 a1]]; cbn [snd fst] in Hdrain; [| |done].
2: { destruct Hens as [He Hens]. by split_and!. }
pose proof (ih_pending _ _ _ _ _ Hens) as Hok.
destruct (is_persisting (ns_phase (mt_session (pn_transfer p)))) eqn:Hph; cbn [negb].
2: { rewrite (for_handoff_eval _ c1 a1 q (Err UnexpectedSessionPhase) (set_wc_pending (Some p) c1)) by done.
     split_and!; [done| |done]. by eapply inv_put_back. }
destruct (pending_envelope_ok p Hok Hph) as (envelope & t & Hmade & Hval & Hta & Hst & Hpt).
rewrite Hmade, st_bind_lift_Ok. pose proof (Hwriter envelope q Hval) as Hw.
unfold zoom at 1. cbv [mbind st_bind]. cbn [snd fst].
destruct (submit_record envelope q) as [x q'] eqn:Hsub. rewrite (attempt_eval _ _ _ _ Hsub). cbn [fst] in Hw.
destruct x as [id|error|]; cbn [map_err]; [| |done].
- destruct (park_write_ok limit clock p c1 a1 id t Hens Hta Hst) as (c2 & Hpark & Hinv & Hd2).
  rewrite (for_handoff_eval _ c1 a1 q' _ _ Hpark). split_and!; [done|done|by rewrite Hd2].
- rewrite (for_handoff_eval _ c1 a1 q' (Ok tt)
    (set_wc_pending (Some (mkPendingCompletion (pn_dispatch p) t (Some (BoundedWriter.se_envelope error)))) c1)) by done.
  split_and!; [done| |done]. eapply inv_put_back; [exact Hens|done|]. by rewrite Hw.
Qed.
End HandoffOk.

(** ** Settling writes *)

(** The coordinator's part of a step that leaves the channel's work alone. *)
Definition beside (now : Z) (c c' : ChannelWorkCoordinator) : Prop :=
  coord_inv now c' /\ wc_active_dispatch c' = wc_active_dispatch c /\
  wc_pending_completion c' = wc_pending_completion c /\
  wc_shutdown_drain_nodes c' = wc_shutdown_drain_nodes c /\
  addresses (wc_runtime c') = addresses (wc_runtime c).

Lemma beside_channel (limit clock now : Z) (c c' : ChannelWorkCoordinator) (a : ChannelAgent) :
  channel_inv limit clock c a -> beside now c c' -> channel_inv limit now c' a.
Proof.
  intros [Hc Ha Hp Hd] (Hc' & Hact & Hpend & Hdrain & Haddr). split; [done|done|by rewrite Hact, Hpend|].
  by apply (drain_kept c).
Qed.

Lemma write_not_current (clock : Z) (c : ChannelWorkCoordinator) w1 w2 w :
  coord_inv clock c -> wc_in_flight_writes c = w1 ++ w :: w2 ->
  DispatchMeasurement (iw_dispatch w) ∈ outstanding (wc_runtime c) /\
  rt_active_dispatch (wc_runtime c) <> Some (DispatchMeasurement (iw_dispatch w)).
Proof.
  intros Hc Hw.
  assert (DispatchMeasurement (iw_dispatch w) ∈ write_dispatches (wc_in_flight_writes c)) as Hin.
  { unfold write_dispatches. rewrite Hw. do 2 apply list_elem_of_fmap_2. apply elem_of_app. right. by left. }
  split; [rewrite (ci_out _ _ Hc); apply elem_of_app; by right|]. intros Hact.
  pose proof (outstanding_NoDup _ (ci_runtime _ _ Hc)) as Hn. rewrite (ci_out _ _ Hc), Hact in Hn.
  cbn in Hn. apply list.NoDup_cons in Hn as [Hn _]. done.
Qed.

Lemma write_settled_ok (clock now : Z) (c : ChannelWorkCoordinator) r w1 w w2 (settlement : MeasurementSettlement) produced :
  coord_inv clock c -> clock <= now -> u64 now -> wc_in_flight_writes c = w1 ++ w :: w2 ->
  session_rest (mt_session (iw_transfer w)) ->
  runtime_inv r -> keeps now (wc_runtime c) r -> rt_active_dispatch r = rt_active_dispatch (wc_runtime c) ->
  outstanding (wc_runtime c) ≡ₚ DispatchMeasurement (iw_dispatch w) :: outstanding r ->
  exists c', (_ ← modify (fun self => set_wc_writes (delete (length w1) (wc_in_flight_writes self)) self);
    _ ← settle_session settlement (md_node_address (iw_dispatch w)) (mt_session (iw_transfer w)) produced now;
    mret settlement) (set_wc_runtime r c) = (Ok settlement, c') /\ beside now c c'.
Proof.
  intros Hc Hle Hnow Hw Hrest Hr Hk Hact Hout. set (d := iw_dispatch w) in *.
  destruct (write_not_current clock c w1 w2 w Hc Hw) as [Hin _].
  destruct (outstanding_measurement_ok _ d (ci_runtime _ _ Hc) Hin) as (_ & _ & Haddr).
  destruct (managed_of clock c Hc _ Haddr) as (l1 & l2 & m & Hm & Hl & Hma).
  set (c2 := set_wc_writes (w1 ++ w2) (set_wc_runtime r c)).
  assert (observed_by now r) as Ho.
  { apply (keeps_observed _ _ _ Hk); [done|]. eapply observed_by_le; [exact Hle|apply Hc]. }
  destruct (settle_session_eval now settlement (md_node_address d) (mt_session (iw_transfer w)) produced c2 l1 l2 m)
    as [metrics Hsettle]; try done.
  { cbn. by rewrite (keeps_addresses _ _ _ Hk). }
  { by apply (managed_session_same _ c c2). }
  cbv [mbind st_bind modify]. cbn [set_wc_runtime wc_in_flight_writes]. rewrite Hw, delete_middle.
  change (set_wc_writes (w1 ++ w2) _) with c2. rewrite Hsettle. cbv [mret st_ret].
  eexists. split; [reflexivity|]. unfold beside. split_and!; try done; [|by apply keeps_addresses with now].
  pose proof (ci_slots _ _ Hc) as Hslots. pose proof (ci_writes _ _ Hc) as Hwr. rewrite Hw in Hwr.
  eapply (inv_returned clock now c _ l1 l2 m _ _ d Hc Hle); try done.
  - cbn. rewrite Hact. exact Hslots.
  - cbn. rewrite Hact, Hw. unfold write_dispatches. rewrite !fmap_app, !fmap_cons. fold d. solve_Permutation.
  - unfold away. cbn. rewrite Hw, !fmap_app, !fmap_cons. fold d. solve_Permutation.
  - cbn. apply Forall_app in Hwr as [Hw1 [_ Hw2]%Forall_cons_1]. by apply Forall_app_2.
  - cbn. by rewrite Hact.
Qed.

Lemma finish_durable_write_ok (clock now : Z) (c : ChannelWorkCoordinator) w1 w w2 :
  coord_inv clock c -> clock <= now -> u64 now -> wc_in_flight_writes c = w1 ++ w :: w2 ->
  is_persisting (ns_phase (mt_session (iw_transfer w))) = false ->
  match finish_durable_write (length w1) w now c with
  | (x, c') => coord_sound x /\ beside now c c'
  end.
Proof.
  intros Hc Hle Hnow Hw Hph.
  assert (write_ok w) as [[Hok Hty [Hprod Hkind]] Hta].
  { pose proof (ci_writes _ _ Hc) as H. rewrite Hw in H. apply Forall_app in H as [_ H]. by apply Forall_cons_1 in H as [H _]. }
  pose proof (transfer_ok_rest _ Hok Hph) as Hrest. unfold finish_durable_write, complete_write.
  destruct (mt_observed_produced (iw_transfer w)) as [produced|] eqn:Hp; [|done].
  destruct (mt_persistence_kind (iw_transfer w)) as [kind|] eqn:Hkd; [|done].
  cbn [ok_or]. rewrite !st_bind_lift_Ok. set (progress := mkProgress _ produced).
  assert (typed progress) as Hpt by (by apply progress_of).
  destruct (write_not_current clock c w1 w2 w Hc Hw) as [Hin Hncur].
  destruct (complete_parked_measurement (iw_dispatch w) progress now (wc_runtime c)) as [x r] eqn:Hcomp.
  destruct (complete_parked_current now _ r _ progress x (ci_runtime _ _ Hc) Hin Hncur Hpt Hnow Hcomp)
    as (Hr & Hk & Hact & Hcases).
  assert (Hfail : forall e, outstanding (wc_runtime c) ≡ₚ outstanding r -> local_failure e ->
    coord_sound (Err (CoordRuntime e) : outcome MeasurementCoordinatorError MeasurementSettlement) /\
    beside now c (set_wc_runtime r c)).
  { intros e Hout Hloc. split; [by destruct Hloc as [->|[->| ->]]|].
    split_and!; try done; [by eapply inv_runtime|by apply keeps_addresses with now]. }
  rewrite !st_bind_assoc.
  rewrite (on_runtime_bind _ _ _ _ _ (attempt_eval (F:=ChannelRuntimeError) _ _ _ _ Hcomp)).
  destruct x as [u|e|]; [| |done].
  - rewrite st_bind_ret. destruct (write_settled_ok clock now c r w1 w w2
      (Persisted (md_node_address (iw_dispatch w)) progress kind) (Some produced) Hc Hle Hnow Hw Hrest Hr Hk Hact Hcases)
      as (c' & -> & Hb). done.
  - destruct e; cbn [is_regressed] in Hcases; try (rewrite st_bind_throw; destruct Hcases; by apply Hfail).
    rewrite st_bind_ret. destruct (write_settled_ok clock now c r w1 w w2
      (SettledRecovery (md_node_address (iw_dispatch w)) RecoverStreamRegressed) (Some produced)
      Hc Hle Hnow Hw Hrest Hr Hk Hact Hcases) as (c' & -> & Hb). done.
Qed.
