(* ===== verification/CoordinatorServices.v ===== *)
(** * The coordinator's other calls

    What the calls for durable writes, recoveries, periodic services,
    registration, configuration, quiescing and the shutdown drain do to the
    coordinator's books; each keeps them in agreement with the runtime's. *)

From stdpp Require Import list list_tactics.
From S2P Require Export CoordinatorSteps.

(** ** Durable writes *)

Section Writes.
Context {E : Type}.

Definition write_sound (x : outcome (MeasurementWriteSettlementError E) MeasurementSettlement) : Prop :=
match x with
| Err (WriteCoordinator e) => coord_internal e = false
| Panic => False
| _ => True
end.

Lemma beside_refl (clock now : Z) (c : ChannelWorkCoordinator) :
coord_inv clock c -> clock <= now -> beside now c c.
Proof. intros [] Hle. split; [|done]. split; try done. by eapply observed_by_le. Qed.

Lemma beside_trans (now : Z) (c1 c2 c3 : ChannelWorkCoordinator) :
beside now c1 c2 -> beside now c2 c3 -> beside now c1 c3.
Proof. intros (_ & A1 & A2 & A3 & A4) (Hc & B1 & B2 & B3 & B4). split; [done|]. split_and!; congruence. Qed.

(** A receipt changes the transfer of its write and nothing else. *)
Lemma confirm_write_ok (clock : Z) (c : ChannelWorkCoordinator) w1 w w2 receipt :
coord_inv clock c -> wc_in_flight_writes c = w1 ++ w :: w2 ->
match confirm_write (E:=E) (length w1) w receipt c with
| (x, c') => beside clock c c' /\
    match x with
    | Ok w' => wc_in_flight_writes c' = w1 ++ w' :: w2 /\ ns_phase (mt_session (iw_transfer w')) = Ready
    | Err e => exists error, e = WriteTransfer error
    | Panic => False
    end
end.
Proof.
intros Hc Hw. unfold confirm_write. destruct (transfer_confirm_durable receipt (iw_transfer w)) as [r t] eqn:Hr.
pose proof (ci_writes _ _ Hc) as Hwr. rewrite Hw in Hwr.
apply Forall_app in Hwr as [Hw1 [[Hst Ha] Hw2]%Forall_cons_1].
destruct (transfer_confirm_stored receipt _ _ _ Hst Hr) as (Hnp & Hsame & Hst' & Hready).
destruct (same_transfer_fields _ _ Hsame) as (Haddr & _). rewrite Hw, insert_at.
assert (beside clock c (set_wc_writes (w1 ++ mkInFlight (iw_job_id w) (iw_dispatch w) t :: w2) c)) as Hb.
{ assert (iw_dispatch <$> (w1 ++ mkInFlight (iw_job_id w) (iw_dispatch w) t :: w2) =
    iw_dispatch <$> wc_in_flight_writes c) as Hd by (by rewrite Hw, !fmap_app, !fmap_cons).
  split; [|done]. destruct Hc as [H1 H2 H3 H4 H5 H6 H7 H8 H9]. split; try done; cbn.
  - unfold write_dispatches in *. by rewrite Hd.
  - apply Forall_app_2; [done|]. constructor; [|done]. split; [done|]. cbn. by rewrite Haddr.
  - unfold away in *. cbn. by rewrite Hd. }
split; [done|]. destruct r as [u|error|]; [|by eexists|done]. split; [done|]. by apply (Hready u).
Qed.

Lemma zoom_whole {S' F G A : Type} (conv : F -> G) (m : st S' F A) s :
zoom id (fun s _ => s) conv m s = (map_err conv (fst (m s)), snd (m s)).
Proof. unfold zoom. cbn. by destruct (m s). Qed.

Lemma settle_write_completion_ok (clock now : Z) (c : ChannelWorkCoordinator) (completion : BoundedWriter.WriteCompletion E) :
coord_inv clock c -> clock <= now -> u64 now ->
match settle_write_completion completion now c with
| (x, c') => write_sound x /\ beside now c c'
end.
Proof.
intros Hc Hle Hnow. pose proof (beside_refl clock now c Hc Hle) as Hrefl.
unfold settle_write_completion. rewrite st_bind_get.
destruct (position _ _) as [[i w]|] eqn:Hp; cbn [ok_or]; [|done]. rewrite st_bind_lift_Ok.
destruct (position_split _ _ _ _ Hp) as (w1 & w2 & Hw & <- & _).
destruct (BoundedWriter.completion_result completion) as [receipt|error]; [|done].
pose proof (confirm_write_ok clock c w1 w w2 receipt Hc Hw) as Hcon. cbv [mbind st_bind].
destruct (confirm_write (length w1) w receipt c) as [[w'|e|] c1]; destruct Hcon as [Hb Hcon]; [| |done].
2: { destruct Hcon as [error ->]. split; [done|]. apply (beside_trans now c c1); [|by eapply beside_refl; [apply Hb|]].
     destruct Hb as (Hc1 & Hb). split; [|done]. by apply (beside_refl clock now c1). }
destruct Hcon as [Hw' Hready].
pose proof (finish_durable_write_ok clock now c1 w1 w' w2 (proj1 Hb) Hle Hnow Hw') as Hfin.
rewrite Hready in Hfin. specialize (Hfin eq_refl). rewrite zoom_whole.
destruct (finish_durable_write (length w1) w' now c1) as [x c2]. cbn [fst snd]. destruct Hfin as [Hs Hb2].
split; [by destruct x|]. destruct Hb as (_ & Hb). destruct Hb2 as (Hc2 & Hb2). split; [done|].
destruct Hb as (A1 & A2 & A3 & A4), Hb2 as (B1 & B2 & B3 & B4). split_and!; congruence.
Qed.
End Writes.

Lemma retry_durable_ok (clock now : Z) (c : ChannelWorkCoordinator) id :
  coord_inv clock c -> clock <= now -> u64 now ->
  match retry_durable_settlement id now c with
  | (x, c') => coord_sound x /\ beside now c c'
  end.
Proof.
  intros Hc Hle Hnow. pose proof (beside_refl clock now c Hc Hle) as Hrefl.
  unfold retry_durable_settlement. rewrite st_bind_get.
  destruct (position _ _) as [[i w]|] eqn:Hp; cbn [ok_or]; [|done]. rewrite st_bind_lift_Ok.
  destruct (position_split _ _ _ _ Hp) as (w1 & w2 & Hw & <- & _).
  case_bool_decide as Hready; cbn [negb]; [|done].
  apply finish_durable_write_ok with clock w2; try done. by rewrite Hready.
Qed.

(** ** The runtime's answers about recoveries and services *)

(** A call about the current dispatch takes it back or fails, out of time or of
    work ids. *)
Definition settles_now (now : Z) (d : ChannelDispatch) (r : ChannelRuntime)
    (res : runtime_out unit * ChannelRuntime) : Prop :=
  match fst res with
  | Ok _ => taken_back now d r (snd res)
  | Err e => untouched_by now r (snd res) /\ call_failed e
  | Panic => False
  end.

Lemma settles_now_intro (now : Z) d r (res : runtime_out unit * ChannelRuntime) :
  step_ok none_handed (Some d) r res -> effect now (cleared (rt_active_dispatch r)) r res ->
  (forall e, fst res = Err e -> call_failed e) -> settles_now now d r res.
Proof.
  intros Hs He Hf. destruct res as [x r']. pose proof (settling_cases now d r x r' Hs He) as H.
  unfold settles_now. cbn [fst snd] in *. destruct x as [u|e|]; [done| |done]. specialize (Hf e eq_refl).
  split; [|done]. by destruct Hf as [->| ->].
Qed.

Lemma current_recovery_at (r : ChannelRuntime) d :
  runtime_inv r -> rt_active_dispatch r = Some (DispatchRecovery d) ->
  exists i node, active_recovery_index d r = (Ok (i, node), r) /\ node_at r (sd_node_address d) i node /\
    nd_in_flight node = true /\ is_some (recovery_cause (nd_availability node)) = true.
Proof.
  intros Hr Hact. pose proof (ri_active r Hr _ Hact) as Hin.
  assert (exists node, node ∈ rt_nodes r /\ node_dispatch node = Some (DispatchRecovery d)) as (node & Hn & Hd).
  { unfold outstanding in Hin. rewrite !elem_of_app, !list_elem_of_omap in Hin.
    destruct Hin as [(node & Hn & H)|[(state & _ & H)|(state & _ & H)]]; [by exists node|..];
      unfold state_dispatch in H; by destruct (ps_in_flight state). }
  unfold node_dispatch in Hd. destruct (nd_in_flight node) eqn:Hf; [|done].
  destruct (is_some (recovery_cause (nd_availability node))) eqn:Hc; [|done]. injection Hd as <-.
  destruct (position_of node_address (rt_nodes r) node (ri_addresses r Hr) Hn) as (l1 & l2 & Hl & Hp).
  exists (length l1), node. split_and!; [|by exists l1, l2|done..].
  unfold active_recovery_index, find_node, at_address. cbv [mbind st_bind get lift].
  rewrite bool_decide_true by done. unfold node_address in Hp. cbn [negb sd_node_address sd_work_id] in *.
  rewrite Hp. cbn [ok_or snd]. rewrite Hf, Z.eqb_refl. done.
Qed.

Lemma complete_recovery_current (now : Z) (r : ChannelRuntime) d recovered produced :
  runtime_inv r -> rt_active_dispatch r = Some (DispatchRecovery d) ->
  u64 recovered -> u64 produced -> u64 now -> recovered <= produced ->
  settles_now now (DispatchRecovery d) r (complete_recovery d recovered produced now r).
Proof.
  intros Hr Hact H1 H2 H3 Hle. apply settles_now_intro; [by apply complete_recovery_ok|by apply complete_recovery_effect|].
  intros e. unfold complete_recovery. destruct (current_recovery_at r d Hr Hact) as (i & node & Hi & Hat & _ & Hc).
  cbv [mbind st_bind]. rewrite Hi, Hc. cbn [negb]. rewrite (proj2 (Z.ltb_ge _ _)) by lia.
  destruct Hat as (l1 & l2 & Hl & -> & _).
  destruct (rejoin_node_spec r l1 l2 node recovered produced now Hr Hl) as (n & _ & [(id & _ & ->)|(e' & He & ->)]); [done|].
  by intros [= ->].
Qed.

Lemma fail_recovery_current (now : Z) (r : ChannelRuntime) d :
  runtime_inv r -> rt_active_dispatch r = Some (DispatchRecovery d) ->
  settles_now now (DispatchRecovery d) r (fail_recovery d now r).
Proof.
  intros Hr Hact. apply settles_now_intro; [by apply fail_recovery_ok|by apply fail_recovery_effect|].
  intros e. unfold fail_recovery. destruct (current_recovery_at r d Hr Hact) as (i & node & Hi & Hat & _ & Hc).
  pose proof (node_at_ok r _ i node Hr Hat) as Hok. destruct Hat as (l1 & l2 & Hl & -> & _).
  cbv [mbind st_bind lift]. rewrite Hi.
  destruct (recovery_cause (nd_availability node)) as [cause|]; [|done]. cbn [ok_or].
  destruct (retry_delay_spec (nd_config node) (saturating_add 8 (failures (nd_availability node)) 1))
    as (delay & -> & _); [apply Hok..|].
  rewrite (put_node_at _ l1 l2 node) by done. unfold monotonic_checked_add.
  destruct (checked_add 64 now delay); cbn [ok_or]; [by erewrite put_node_at by done|]. intros [= <-]. by left.
Qed.

Lemma complete_periodic_current (now : Z) (s : PeriodicService) (r : ChannelRuntime) d :
  runtime_inv r -> rt_active_dispatch r = Some (periodic_dispatch s d) ->
  settles_now now (periodic_dispatch s d) r (complete_periodic s d now r).
Proof.
  intros Hr Hact. apply settles_now_intro; [by apply complete_periodic_ok|by apply complete_periodic_effect|].
  intros e. unfold complete_periodic. destruct (current_periodic_at s r d Hr Hact) as (i & state & Hi & _).
  cbv [mbind st_bind lift]. rewrite Hi. destruct (monotonic_checked_add _ _); cbn [ok_or]; [|intros [= <-]; by left].
  destruct (allocate_spec r Hr) as ([id|e'|] & n & -> & _ & Hx); [|intros [= <-]; by right|done].
  cbv [put_periodic modify]. done.
Qed.

Lemma fail_periodic_current (now : Z) (s : PeriodicService) (r : ChannelRuntime) d :
  runtime_inv r -> rt_active_dispatch r = Some (periodic_dispatch s d) ->
  settles_now now (periodic_dispatch s d) r (fail_periodic s d now r).
Proof.
  intros Hr Hact. apply settles_now_intro; [by apply fail_periodic_ok|apply fail_periodic_effect|].
  intros e. unfold fail_periodic. destruct (current_periodic_at s r d Hr Hact) as (i & state & Hi & _).
  cbv [mbind st_bind lift]. rewrite Hi. destruct (monotonic_checked_add _ _); cbn [ok_or]; [done|intros [= <-]; by left].
Qed.

(** ** Sessions published and replaced in place *)

(** One session of the list is published, or replaced by one as good. *)
Definition in_place (l l' : list ManagedSession) : Prop :=
  exists l1 m l2 m', l = l1 ++ m :: l2 /\ l' = l1 ++ m' :: l2 /\ ms_node_address m' = ms_node_address m /\
    is_some (ms_session m') = is_some (ms_session m) /\ (managed_ok m -> managed_ok m').

Lemma inv_in_place (limit clock : Z) (c : ChannelWorkCoordinator) (a : ChannelAgent) l :
  channel_inv limit clock c a -> in_place (wc_sessions c) l -> channel_inv limit clock (set_wc_sessions l c) a.
Proof.
  intros [Hc Ha Hp Hd] (l1 & m & l2 & m' & Hl & -> & Haddr & Hs & Hok). split; [|done|done|].
  - pose proof (ci_rest _ _ Hc) as Hr. rewrite Hl in Hr. apply Forall_app in Hr as [_ [Hm _]%Forall_cons_1].
    by eapply inv_updated; eauto.
  - by apply (drain_kept c).
Qed.

Section InPlace.
Context (clock : Z) (c : ChannelWorkCoordinator) (Hc : coord_inv clock c) (c1 : ChannelWorkCoordinator)
  (Hsame : wc_sessions c1 = wc_sessions c).

Lemma observe_eval ops address :
  address ∈ addresses (wc_runtime c) ->
  exists l, MeasurementCoordinator.observe ops address c1 = (Ok tt, set_wc_sessions l c1) /\ in_place (wc_sessions c) l.
Proof.
  intros Hin. destruct (managed_of clock c Hc _ Hin) as (l1 & l2 & m & Hm & Hl & Ha).
  unfold MeasurementCoordinator.observe. cbv [mbind st_bind]. rewrite (managed_session_same address c c1 _ Hsame Hm).
  eexists. rewrite (put_managed_at c1 l1 l2 m) by (by rewrite Hsame). split; [done|].
  exists l1, m, l2. eexists. split_and!; [done..|]. intros Hok. exact Hok.
Qed.

Lemma at_rest_managed address :
  address ∈ at_rest (wc_sessions c) -> exists l1 l2 m s, managed_session address c = (Ok (length l1, m), c) /\
    wc_sessions c = l1 ++ m :: l2 /\ ms_node_address m = address /\ ms_session m = Some s /\ session_rest s.
Proof.
  intros Hin. assert (address ∈ addresses (wc_runtime c)) as Haddr.
  { rewrite <- (ci_places _ _ Hc). apply elem_of_app. by left. }
  destruct (managed_of clock c Hc _ Haddr) as (l1 & l2 & m & Hm & Hl & Ha). exists l1, l2, m.
  destruct (present_rest clock c Hc l1 l2 m Hl) as (s & Hs & Hr); [|by exists s].
  rewrite Ha. intros Haway. pose proof (books_NoDup clock c Hc) as Hn. apply list.NoDup_app in Hn as (_ & Hn & _).
  by apply (Hn address).
Qed.

Lemma rest_session address :
  address ∈ at_rest (wc_sessions c) -> exists s, session_of address c1 = (Ok s, c1) /\ session_rest s.
Proof.
  intros Hin. destruct (at_rest_managed address Hin) as (l1 & l2 & m & s & Hm & _ & _ & Hs & Hr). exists s. split; [|done].
  unfold session_of. cbv [mbind st_bind]. rewrite (managed_session_same address c c1 _ Hsame Hm). cbn [snd].
  by rewrite Hs.
Qed.

Lemma restore_eval ops address s :
  address ∈ at_rest (wc_sessions c) -> session_rest s ->
  exists l, restore_session address ops s c1 = (Ok tt, set_wc_sessions l c1) /\ in_place (wc_sessions c) l.
Proof.
  intros Hin Hs. destruct (at_rest_managed address Hin) as (l1 & l2 & m & s0 & Hm & Hl & Ha & Hs0 & _).
  unfold restore_session. cbv [mbind st_bind]. rewrite (managed_session_same address c c1 _ Hsame Hm).
  eexists. rewrite (put_managed_at c1 l1 l2 m) by (by rewrite Hsame). split; [done|].
  exists l1, m, l2. eexists. split_and!; [done|done|done|by rewrite Hs0|]. intros _ s1. by intros [= <-].
Qed.
End InPlace.

(** *** Recoveries *)

(** The slot of a dispatch that is not a measurement. *)
Definition clear_slot (d : ChannelDispatch) : ChannelWorkCoordinator -> ChannelWorkCoordinator :=
  match d with
  | DispatchMeasurement _ => id
  | DispatchRecovery _ => set_wc_recovery None
  | DispatchTimeSync _ => set_wc_time_sync None
  | DispatchTelemetry _ => set_wc_telemetry None
  end.

Lemma inv_cleared (limit clock now : Z) (c : ChannelWorkCoordinator) (a : ChannelAgent) r d :
  channel_inv limit clock c a -> clock <= now -> rt_active_dispatch (wc_runtime c) = Some d ->
  measurement_dispatch d = None -> taken_back now d (wc_runtime c) r ->
  channel_inv limit now (clear_slot d (set_wc_runtime r c)) a.
Proof.
  intros [Hc Ha Hp Hd] Hle Hact Hno (Hr & Hk & Hidle & Hout).
  pose proof Hc as [_ Hclock Hs Hslots Hout0 Hrest Hwr Hpl Hsv]. rewrite Hact in Hslots, Hout0.
  assert (wc_active_dispatch c = None) as Hnone by (unfold slots in Hslots; by destruct d; injection Hslots).
  set (c' := clear_slot d (set_wc_runtime r c)).
  assert (wc_runtime c' = r /\ wc_sessions c' = wc_sessions c /\ wc_active_dispatch c' = wc_active_dispatch c /\
    wc_pending_completion c' = wc_pending_completion c /\ wc_in_flight_writes c' = wc_in_flight_writes c /\
    wc_shutdown_drain_nodes c' = wc_shutdown_drain_nodes c /\ slots c' = slots_of None)
    as (E1 & E2 & E3 & E4 & E5 & E6 & E7).
  { unfold slots in *. destruct d; try done; injection Hslots as A B C D; split_and!; try done; cbn; congruence. }
  split.
  - split; rewrite ?E1, ?E2, ?E5, ?Hidle, ?(keeps_addresses _ _ _ Hk); try done.
    + apply (keeps_observed _ _ _ Hk); [done|]. by eapply observed_by_le.
    + apply (Permutation_cons_inv (a:=d)). by rewrite <- Hout, Hout0.
    + unfold away. by rewrite E3, E5.
  - done.
  - by rewrite E3, E4.
  - apply (drain_kept c); [|done..]. rewrite E1. by apply keeps_addresses with now.
Qed.

Lemma recovery_current (clock : Z) (c : ChannelWorkCoordinator) d :
  coord_inv clock c -> wc_active_recovery c = Some d -> rt_active_dispatch (wc_runtime c) = Some (DispatchRecovery d).
Proof.
  intros Hc Ha. pose proof (ci_slots _ _ Hc) as Hsl. unfold slots in Hsl. rewrite Ha in Hsl.
  destruct (rt_active_dispatch (wc_runtime c)) as [[]|]; try discriminate Hsl. by injection Hsl as _ -> _ _.
Qed.

(** A node whose recovery is under way has its session at rest. *)
Lemma recovering_at_rest (clock : Z) (c : ChannelWorkCoordinator) d :
  coord_inv clock c -> rt_active_dispatch (wc_runtime c) = Some (DispatchRecovery d) ->
  sd_node_address d ∈ at_rest (wc_sessions c).
Proof.
  intros Hc Hact. destruct (current_recovery_at _ d (ci_runtime _ _ Hc) Hact) as (i & node & _ & Hat & Hf & Hcause).
  pose proof (node_at_elem _ _ _ _ Hat) as Hn. destruct Hat as (l1 & l2 & _ & _ & Ha).
  assert (sd_node_address d ∈ at_rest (wc_sessions c) ++ away c) as Hin.
  { rewrite (ci_places _ _ Hc), <- Ha. by apply list_elem_of_fmap_2. }
  apply elem_of_app in Hin as [|Haway]; [done|exfalso].
  unfold away in Haway. apply list_elem_of_fmap in Haway as (m & Hm & Hd).
  apply (books_outstanding clock c m Hc) in Hd. apply outstanding_measurement in Hd as (node' & Hn' & Hd).
  assert (node = node') as <-.
  { apply (fmap_NoDup_inj node_address _ node node' (ri_addresses _ (ci_runtime _ _ Hc)) Hn Hn').
    rewrite Ha, Hm. unfold node_dispatch in Hd. destruct (nd_in_flight node'); [|done].
    destruct (is_some (recovery_cause (nd_availability node'))); [done|].
    by injection Hd as <-. }
  unfold node_dispatch in Hd. by rewrite Hf, Hcause in Hd.
Qed.

Lemma reconciled_rest (expected : ExpectedStreamState) (capture : CaptureRecoveryEvidence) (node : StreamState) r :
  hardware_id_typed (ex_hardware_id expected) -> u64 (ex_boot_epoch expected) -> u64 (ce_durable_cursor capture) ->
  typed node -> reconcile_existing_capture expected capture node = Ok r ->
  session_rest (rs_session r) /\ received (ns_cursors (rs_session r)) = ce_durable_cursor capture /\
  ce_durable_cursor capture <= ss_produced node.
Proof.
  intros Hhw He Hd Hn Hrec. pose proof (reconcile_spec expected capture node) as H. rewrite Hrec in H.
  destruct H as (_ & _ & Hb & Hs & _). split_and!; [|by rewrite Hs|lia].
  apply (recovered_rest (ex_hardware_id expected) (ex_boot_epoch expected) (ce_durable_cursor capture) (ss_released node));
    [done..|apply Hn|].
  rewrite Hs. unfold recovered, cursors_new. by rewrite Z.ltb_irrefl, (proj2 (Z.ltb_ge _ _)) by lia.
Qed.

(** What a session at rest carries into a recovery of the same stream. *)
Lemma rest_identity (s : NodeSession) :
  session_rest s -> hardware_id_typed (ns_hardware_id s) /\ u64 (ns_boot_epoch s) /\
  u64 (durable (ns_cursors s)) /\ u64 (received (ns_cursors s)).
Proof. intros (hw & e & d & Hhw & He & Hrel). inversion Hrel; subst; cbn; split_and!; done || ilia. Qed.

Section Recoveries.
Context (limit clock now : Z) (c : ChannelWorkCoordinator) (a : ChannelAgent).
Context (Hch : channel_inv limit clock c a) (Hle : clock <= now) (Hnow : u64 now).

(** The state after a call of the coordinator alone. *)
Definition beside_ok {A : Type} (res : outcome MeasurementCoordinatorError A * ChannelWorkCoordinator) : Prop :=
coord_sound (fst res) /\ channel_inv limit now (snd res) a.

Lemma refused_ok {A : Type} (e : MeasurementCoordinatorError) :
coord_internal e = false -> beside_ok (Err e : outcome _ A, c).
Proof. intros He. split; [done|]. by eapply inv_later. Qed.

Lemma settle_bind {B : Type} (m : runtime unit) (k : unit -> coordinator B) d :
settles_now now d (wc_runtime c) (m (wc_runtime c)) ->
(forall r, taken_back now d (wc_runtime c) r -> beside_ok (k tt (set_wc_runtime r c))) ->
beside_ok ((on_runtime m ≫= k) c).
Proof.
intros Hm Hk. unfold settles_now in Hm. destruct (m (wc_runtime c)) as [x r] eqn:Hx. cbn [fst snd] in Hm.
rewrite (on_runtime_bind _ _ _ _ _ Hx). destruct x as [[]|e|]; [by apply Hk| |done].
destruct Hm as [Hun He]. split; [by destruct He as [->| ->]|by eapply inv_untouched].
Qed.

Lemma ensure_recovery_eval d : wc_active_recovery c = Some d -> ensure_recovery d c = (Ok tt, c).
Proof. intros Ha. unfold ensure_recovery. by rewrite st_bind_get, bool_decide_true. Qed.

Lemma fail_online_recovery_ok d : wc_active_recovery c = Some d -> beside_ok (fail_online_recovery d now c).
Proof.
intros Ha. pose proof (ch_coord _ _ _ _ Hch) as Hc. pose proof (recovery_current clock c d Hc Ha) as Hact.
pose proof (recovering_at_rest clock c d Hc Hact) as Hrest.
assert (sd_node_address d ∈ addresses (wc_runtime c)) as Hin by (rewrite <- (ci_places _ _ Hc); apply elem_of_app; by left).
unfold fail_online_recovery. cbv [mbind st_bind]. rewrite (ensure_recovery_eval d Ha).
apply (settle_bind _ _ (DispatchRecovery d)); [by apply fail_recovery_current; [apply Hc|]|].
intros r Hback. pose proof Hback as (Hr & Hk & _). cbv [get lift].
destruct (snapshot_current now r (sd_node_address d)) as [node Hnode]; [done| |done|by rewrite (keeps_addresses _ _ _ Hk)|].
{ apply (keeps_observed _ _ _ Hk); [done|]. eapply observed_by_le; [exact Hle|apply Hc]. }
cbn [set_wc_runtime wc_runtime]. rewrite Hnode. cbn [map_err].
destruct (observe_eval clock c Hc (set_wc_runtime r c) eq_refl (observe_availability (sn_availability node)) _ Hin)
  as (l & Hobs & Hl).
change (mkCoordinator _ r _ _ _ _ _ _ _ _ _) with (set_wc_runtime r c). rewrite Hobs. split; [done|].
exact (inv_in_place limit now _ a l (inv_cleared limit clock now c a r (DispatchRecovery d) Hch Hle Hact eq_refl Hback) Hl).
Qed.

Lemma finish_recovery_ok d reconciled stream received_cursor :
wc_active_recovery c = Some d -> session_rest (rs_session reconciled) -> u64 received_cursor ->
u64 (ss_produced stream) -> received_cursor <= ss_produced stream ->
beside_ok (finish_recovery d received_cursor reconciled stream now c).
Proof.
intros Ha Hs H1 H2 H3. pose proof (ch_coord _ _ _ _ Hch) as Hc. pose proof (recovery_current clock c d Hc Ha) as Hact.
pose proof (recovering_at_rest clock c d Hc Hact) as Hrest.
apply (settle_bind _ _ (DispatchRecovery d)); [by apply complete_recovery_current; [apply Hc|..]|].
intros r Hback. cbv [mbind st_bind].
destruct (restore_eval clock c Hc (set_wc_runtime r c) eq_refl
  (observe_session_cursors (rs_session reconciled) (Some (ss_produced stream)) ++ observe_availability Online)
  _ _ Hrest Hs) as (l & -> & Hl). split; [done|].
exact (inv_in_place limit now _ a l (inv_cleared limit clock now c a r (DispatchRecovery d) Hch Hle Hact eq_refl Hback) Hl).
Qed.

Lemma reconcile_bind {B : Type} expected capture stream (k : ReconciledStream -> coordinator B) :
hardware_id_typed (ex_hardware_id expected) -> u64 (ex_boot_epoch expected) ->
u64 (ce_durable_cursor capture) -> typed stream ->
(forall r, session_rest (rs_session r) -> received (ns_cursors (rs_session r)) = ce_durable_cursor capture ->
  ce_durable_cursor capture <= ss_produced stream -> beside_ok (k r c)) ->
beside_ok ((reconcile expected capture stream ≫= k) c).
Proof.
intros H1 H2 H3 H4 Hk. pose proof (reconcile_spec expected capture stream) as Hspec. unfold reconcile.
cbv [mbind st_bind lift]. destruct (reconcile_existing_capture expected capture stream) as [r|e|] eqn:Hr; cbn [map_err].
- destruct (reconciled_rest expected capture stream r H1 H2 H3 H4 Hr) as (? & ? & ?). by apply Hk.
- by apply refused_ok.
- done.
Qed.

Lemma reconcile_online_ok d capacity stream :
wc_active_recovery c = Some d -> typed stream -> beside_ok (reconcile_online_recovery d capacity stream now c).
Proof.
intros Ha Ht. pose proof (ch_coord _ _ _ _ Hch) as Hc. pose proof (recovery_current clock c d Hc Ha) as Hact.
destruct (rest_session clock c Hc c eq_refl _ (recovering_at_rest clock c d Hc Hact)) as (s & Hs & Hrest).
destruct (rest_identity s Hrest) as (I1 & I2 & I3 & _).
unfold reconcile_online_recovery, same_session_evidence. cbv [mbind st_bind]. rewrite (ensure_recovery_eval d Ha), Hs.
apply reconcile_bind; [done..|]. intros r Hr Heq Hb. apply finish_recovery_ok; [done..| |apply Ht|]; rewrite Heq; done.
Qed.

Lemma ensure_same_hardware_cases address expected :
address ∈ at_rest (wc_sessions c) ->
ensure_same_hardware address expected c = (Ok tt, c) \/
ensure_same_hardware address expected c = (Err (ResumeHardwareMismatch address), c).
Proof.
intros Hin. destruct (rest_session clock c (ch_coord _ _ _ _ Hch) c eq_refl _ Hin) as (s & Hs & _).
unfold ensure_same_hardware. cbv [mbind st_bind]. rewrite Hs. case_bool_decide; [by left|by right].
Qed.

Lemma replace_online_ok d expected durable_cursor stream :
wc_active_recovery c = Some d -> hardware_id_typed (ex_hardware_id expected) -> u64 (ex_boot_epoch expected) ->
u64 durable_cursor -> typed stream ->
beside_ok (replace_online_recovery d expected durable_cursor stream now c).
Proof.
intros Ha H1 H2 H3 Ht. pose proof (ch_coord _ _ _ _ Hch) as Hc. pose proof (recovery_current clock c d Hc Ha) as Hact.
unfold replace_online_recovery. cbv [mbind st_bind]. rewrite (ensure_recovery_eval d Ha).
destruct (ensure_same_hardware_cases _ expected (recovering_at_rest clock c d Hc Hact)) as [->| ->]; [|by apply refused_ok].
apply reconcile_bind; [done..|]. intros r Hr Heq Hb. by apply finish_recovery_ok; [..|apply Ht|].
Qed.
End Recoveries.

(** *** Calls about a node that is not dispatched *)

(** The call leaves the dispatches alone, whatever it answers. *)
Definition leaves_alone (now : Z) (r : ChannelRuntime) (res : runtime_out unit * ChannelRuntime) : Prop :=
  untouched_by now r (snd res) /\ fst res <> Panic /\
  forall e, fst res = Err e -> coord_internal (CoordRuntime e) = false.

Lemma leaves_intro (now : Z) (r : ChannelRuntime) (res : runtime_out unit * ChannelRuntime) :
  step_ok none_handed None r res -> effect now (fun _ => rt_active_dispatch r) r res ->
  (forall e, fst res = Err e -> coord_internal (CoordRuntime e) = false) -> leaves_alone now r res.
Proof.
  intros ((Hnp & _) & Hr & Hout) (Hk & Ha) He. split; [|done]. split_and!; [done..|].
  assert (settled None (fst res) = []) as Hset by (by destruct (fst res) as [|[]|]).
  assert (handed none_handed (fst res) = []) as Hhand by by destruct (fst res).
  by rewrite Hset, Hhand, app_nil_r in Hout.
Qed.

Lemma find_node_present (address : Z) (r : ChannelRuntime) :
  address ∈ addresses r -> exists i node, find_node address r = (Ok (i, node), r) /\ node_at r address i node.
Proof.
  intros (node & -> & Hn)%list_elem_of_fmap. destruct (find_node_spec (node_address node) r) as [H|Hf]; [done|exfalso].
  unfold find_node in Hf. rewrite st_bind_get in Hf. destruct (position _ _) as [|] eqn:Hp; [done|].
  pose proof (position_none _ _ _ Hp Hn) as Hno. unfold at_address, node_address in Hno. by rewrite Z.eqb_refl in Hno.
Qed.

(** No refusal of a configuration is an internal error. *)
Lemma config_error_external (e : ChannelRuntimeError) :
  config_error e = true -> coord_internal (CoordRuntime e) = false.
Proof. by destruct e. Qed.
Lemma call_failed_external (e : ChannelRuntimeError) : call_failed e -> coord_internal (CoordRuntime e) = false.
Proof. by intros [->| ->]. Qed.
#[local] Hint Resolve config_error_external call_failed_external : rust.

Lemma allocate_external (r : ChannelRuntime) e : runtime_inv r -> fst (allocate_work_id r) = Err e -> e = WorkIdExhausted.
Proof. intros Hr. by destruct (allocate_spec r Hr) as ([id|e'|] & n & -> & _ & Hx); [|intros [= <-]|]. Qed.

Section Undispatched.
Context (now : Z) (r : ChannelRuntime) (Hr : runtime_inv r).

Lemma resume_node_alone address recovered produced :
address ∈ addresses r -> node_idle address r = true -> u64 recovered -> u64 produced -> u64 now ->
leaves_alone now r (resume_node address recovered produced now r).
Proof.
intros Hin Hidle H1 H2 H3. apply leaves_intro; [by apply resume_node_ok|by apply resume_node_effect|].
intros e. unfold resume_node. rewrite st_bind_get. destruct (is_some _); [by intros [= <-]|].
cbv [mbind st_bind]. destruct (find_node_present address r Hin) as (i & node & -> & _).
destruct (is_some _); [by intros [= <-]|]. destruct (negb _); [by intros [= <-]|].
destruct (allocate_spec r Hr) as ([id|e'|] & n & -> & _ & Hx); [done|intros [= <-]; by subst|done].
Qed.

Lemma replace_quiesced_alone address recovered produced :
address ∈ addresses r -> node_idle address r = true -> u64 recovered -> u64 produced -> u64 now ->
leaves_alone now r (replace_quiesced_node address recovered produced now r).
Proof.
intros Hin Hidle H1 H2 H3. apply leaves_intro; [by apply replace_quiesced_node_ok|by apply replace_quiesced_node_effect|].
intros e. unfold replace_quiesced_node. rewrite st_bind_get. destruct (is_some _); [by intros [= <-]|].
cbv [mbind st_bind]. destruct (find_node_present address r Hin) as (i & node & -> & (l1 & l2 & Hl & -> & _)).
destruct (rejoin_node_spec r l1 l2 node recovered produced now Hr Hl) as (n & _ & [(id & _ & ->)|(e' & He & ->)]);
  [done|]. intros [= ->]. by apply call_failed_external.
Qed.

Lemma reconfigure_node_alone config :
nc_node_address config ∈ addresses r -> typed config -> u64 now ->
leaves_alone now r (reconfigure_node config now r).
Proof.
intros Hin Ht Hnow. apply leaves_intro; [by apply reconfigure_node_ok|by apply reconfigure_node_effect|].
intros e. unfold reconfigure_node. cbv [mbind st_bind lift get].
destruct (node_config_validate_cases config) as [->|(e' & -> & He)]; [|intros [= ->]; by apply config_error_external].
destruct (is_some _); [by intros [= <-]|]. destruct (find_node_present _ r Hin) as (i & node & -> & _).
destruct (_ || _); [by intros [= <-]|done].
Qed.

Lemma configure_periodic_alone s address config deadline :
address ∈ addresses r -> leaves_alone now r (configure_periodic s address config deadline r).
Proof.
intros Hin. apply leaves_intro; [by apply configure_periodic_ok|by apply configure_periodic_effect|].
intros e. unfold configure_periodic. cbv [mbind st_bind lift get].
destruct (periodic_validate s config) as [v|e'|] eqn:Hv; [|intros [= ->]|done].
2: { unfold periodic_validate in Hv. by destruct s; repeat case_match; simplify_eq. }
destruct (find_node_present address r Hin) as (i & node & -> & _). destruct (is_some _); [by intros [= <-]|].
destruct (existsb _ _); [by destruct s; intros [= <-]|].
destruct (allocate_spec r Hr) as ([id|e'|] & n & -> & _ & Hx); [done|intros [= <-]; by subst|done].
Qed.

Lemma reconfigure_telemetry_alone address config :
leaves_alone now r (reconfigure_telemetry address config now r).
Proof.
apply leaves_intro; [by apply reconfigure_telemetry_ok|by apply reconfigure_telemetry_effect|].
intros e. unfold reconfigure_telemetry. cbv [mbind st_bind lift get].
destruct (periodic_validate TelemetryService config) as [v|e'|] eqn:Hv; [|intros [= ->]|done].
2: { unfold periodic_validate in Hv. by repeat case_match; simplify_eq. }
destruct (position _ _) as [[i state]|]; cbn [ok_or]; [|by intros [= <-]].
cbv [put_periodic modify]. destruct (ps_in_flight state); [done|].
destruct (monotonic_checked_add _ _); cbn [ok_or]; [done|by intros [= <-]].
Qed.
End Undispatched.

(** *** Quiescent channels *)

Lemma quiescent_books (clock : Z) (c : ChannelWorkCoordinator) :
  coord_inv clock c -> is_quiescent c = true ->
  rt_active_dispatch (wc_runtime c) = None /\ outstanding (wc_runtime c) = [] /\
  at_rest (wc_sessions c) ≡ₚ addresses (wc_runtime c).
Proof.
  intros Hc Hq. unfold is_quiescent, has_active_dispatch, no_writes in Hq. to_prop.
  assert (rt_active_dispatch (wc_runtime c) = None) as Hact.
  { pose proof (ci_slots _ _ Hc) as Hsl. unfold slots in Hsl.
    destruct (rt_active_dispatch (wc_runtime c)) as [[]|]; [..|done]; injection Hsl as A B C D;
      rewrite A, B, C, D in *; discriminate. }
  destruct (idle_slots clock c Hc Hact) as (Hno & _). pose proof (ci_out _ _ Hc) as Hout.
  assert (wc_in_flight_writes c = []) as Hw by (by apply length_zero_iff_nil, Nat.eqb_eq).
  rewrite Hact, Hw in Hout. cbn in Hout. apply Permutation_nil_r in Hout. split_and!; [done..|].
  pose proof (ci_places _ _ Hc) as Hp. unfold away in Hp. rewrite Hno, Hw in Hp. cbn in Hp. by rewrite app_nil_r in Hp.
Qed.

Lemma nothing_outstanding_idle (r : ChannelRuntime) address : outstanding r = [] -> node_idle address r = true.
Proof.
  intros Hout. unfold node_idle. apply forallb_forall. intros node Hn%list_elem_of_In.
  destruct (nd_in_flight node) eqn:Hf; [|by rewrite andb_false_r]. exfalso.
  assert (exists d, node_dispatch node = Some d) as [d Hd].
  { unfold node_dispatch. rewrite Hf. destruct (is_some _); by eexists. }
  assert (d ∈ outstanding r) as Hin; [|rewrite Hout in Hin; by apply not_elem_of_nil in Hin].
  unfold outstanding. apply elem_of_app. left. apply list_elem_of_omap. by exists node.
Qed.

Section Quiet.
Context (limit clock now : Z) (c : ChannelWorkCoordinator) (a : ChannelAgent).
Context (Hch : channel_inv limit clock c a) (Hle : clock <= now) (Hnow : u64 now).

Abbreviation ok := (beside_ok limit now a).

Lemma leave_bind {B : Type} (m : runtime unit) (k : unit -> coordinator B) :
leaves_alone now (wc_runtime c) (m (wc_runtime c)) ->
(forall r, untouched_by now (wc_runtime c) r -> ok (k tt (set_wc_runtime r c))) ->
ok ((on_runtime m ≫= k) c).
Proof.
intros (Hun & Hnp & He) Hk. destruct (m (wc_runtime c)) as [x r] eqn:Hx. cbn [fst snd] in *.
rewrite (on_runtime_bind _ _ _ _ _ Hx). destruct x as [[]|e|]; [by apply Hk| |done].
split; [by apply He|by eapply inv_untouched].
Qed.

Lemma leave_ok (m : runtime unit) : leaves_alone now (wc_runtime c) (m (wc_runtime c)) -> ok (on_runtime m c).
Proof.
intros (Hun & Hnp & He). destruct (m (wc_runtime c)) as [x r] eqn:Hx. cbn [fst snd] in *.
rewrite (on_runtime_eval _ _ _ _ Hx). split; [|by eapply inv_untouched]. destruct x as [u|e|]; [done|by apply He|done].
Qed.

Lemma resumable_cases {B : Type} (k : unit -> coordinator B) :
(is_quiescent c = true -> ok (k tt c)) -> ok ((ensure_resumable ≫= k) c).
Proof.
intros Hk. unfold ensure_resumable. cbv [mbind st_bind get]. destruct (is_quiescent c) eqn:Hq; cbn [negb orb].
- destruct (is_some _); [by apply (refused_ok limit clock)|by apply Hk].
- by apply (refused_ok limit clock).
Qed.

Lemma finish_resume_ok address rejoin reconciled stream :
is_quiescent c = true -> address ∈ addresses (wc_runtime c) -> session_rest (rs_session reconciled) ->
leaves_alone now (wc_runtime c) (rejoin (wc_runtime c)) ->
ok (finish_resume address rejoin reconciled stream now c).
Proof.
intros Hq Hin Hs Hre. pose proof (ch_coord _ _ _ _ Hch) as Hc. destruct (quiescent_books clock c Hc Hq) as (_ & _ & Hp).
apply leave_bind; [done|]. intros r Hun. cbv [mbind st_bind].
destruct (restore_eval clock c Hc (set_wc_runtime r c) eq_refl
  (observe_session (rs_session reconciled) (Some (ss_produced stream)) now) address (rs_session reconciled))
  as (l & -> & Hl); [by rewrite Hp|done|].
split; [done|]. exact (inv_in_place limit now _ a l (inv_untouched limit clock now c a r Hch Hle Hun) Hl).
Qed.

Lemma reconcile_resume_ok address capacity stream :
address ∈ addresses (wc_runtime c) -> typed stream ->
ok (reconcile_resume_stream address capacity stream now c).
Proof.
intros Hin Ht. pose proof (ch_coord _ _ _ _ Hch) as Hc. unfold reconcile_resume_stream, same_session_evidence.
apply resumable_cases. intros Hq. destruct (quiescent_books clock c Hc Hq) as (_ & Hout & Hp).
destruct (rest_session clock c Hc c eq_refl address) as (s & Hs & Hrest); [by rewrite Hp|].
destruct (rest_identity s Hrest) as (I1 & I2 & I3 & _). cbv [mbind st_bind]. rewrite Hs.
apply (reconcile_bind limit clock); [done..|]. intros r Hr Heq Hb. apply finish_resume_ok; [done..|].
apply resume_node_alone; [apply Hc|done|by apply nothing_outstanding_idle|by rewrite Heq|apply Ht|done].
Qed.

Lemma replace_resume_ok address expected durable_cursor stream :
address ∈ addresses (wc_runtime c) -> hardware_id_typed (ex_hardware_id expected) ->
u64 (ex_boot_epoch expected) -> u64 durable_cursor -> typed stream ->
ok (replace_resume_stream address expected durable_cursor stream now c).
Proof.
intros Hin H1 H2 H3 Ht. pose proof (ch_coord _ _ _ _ Hch) as Hc. unfold replace_resume_stream.
apply resumable_cases. intros Hq. destruct (quiescent_books clock c Hc Hq) as (_ & Hout & Hp). cbv [mbind st_bind].
destruct (ensure_same_hardware_cases limit clock c a Hch address expected) as [->| ->];
  [by rewrite Hp| |by apply (refused_ok limit clock)].
apply (reconcile_bind limit clock); [done..|]. intros r Hr Heq Hb. apply finish_resume_ok; [done..|].
apply replace_quiesced_alone; [apply Hc|done|by apply nothing_outstanding_idle|done|apply Ht|done].
Qed.

Lemma coordinator_reconfigure_ok config :
nc_node_address config ∈ addresses (wc_runtime c) -> typed config -> ok (coordinator_reconfigure_node config now c).
Proof.
intros Hin Ht. unfold coordinator_reconfigure_node. rewrite st_bind_get.
destruct (_ || _); [by apply (refused_ok limit clock)|]. apply leave_ok, reconfigure_node_alone; [apply Hch|done..].
Qed.

Lemma observe_configuration_ok address configuration :
address ∈ addresses (wc_runtime c) -> ok (observe_configuration address configuration c).
Proof.
intros Hin. unfold observe_configuration.
destruct (observe_eval clock c (ch_coord _ _ _ _ Hch) c eq_refl (metrics_observe_configuration configuration) address Hin)
  as (l & -> & Hl).
split; [done|]. exact (inv_in_place limit now _ a l (inv_later limit clock now c a Hch Hle) Hl).
Qed.

(** *** Registration *)

Lemma coordinator_register_ok config s :
typed config -> session_rest s -> ok (coordinator_register_node config s now c).
Proof.
intros Ht Hs. pose proof (ch_coord _ _ _ _ Hch) as Hc. destruct (rest_identity s Hs) as (_ & _ & _ & Hrecv).
unfold coordinator_register_node. rewrite st_bind_get. destruct (existsb _ _); [by apply (refused_ok limit clock)|].
pose proof (register_node_ok (wc_runtime c) config (received (ns_cursors s)) now (ci_runtime _ _ Hc) Ht Hrecv Hnow)
  as ((Hnp & Hni) & Hr & Hout).
pose proof (register_node_effect now (wc_runtime c) config (received (ns_cursors s)) (ci_runtime _ _ Hc)) as Heff.
assert (forall e, fst (register_node config (received (ns_cursors s)) now (wc_runtime c)) = Err e ->
  coord_internal (CoordRuntime e) = false) as Hext.
{ intros e. unfold register_node. cbv [mbind st_bind lift get].
  destruct (node_config_validate_cases config) as [->|(e' & -> & He)]; [|intros [= ->]; by apply config_error_external].
  destruct (_ <=? _)%nat; [by intros [= <-]|]. destruct (existsb _ _); [by intros [= <-]|].
  destruct (allocate_spec (wc_runtime c) (ci_runtime _ _ Hc)) as ([id|e'|] & n & -> & _ & Hx);
    [done|intros [= <-]; by subst|done]. }
destruct (register_node config (received (ns_cursors s)) now (wc_runtime c)) as [x r] eqn:Hreg. cbn [fst snd] in *.
rewrite (on_runtime_bind _ _ _ _ _ Hreg). destruct x as [u|e|]; [| |done].
2: { destruct Heff as [Hk Ha]. split; [by apply Hext|]. eapply inv_untouched; [done..|]. cbn [fst snd] in *.
     assert (settled None (Err e : runtime_out unit) = []) as Hset by (by destruct e).
     rewrite Hset in Hout. cbn in Hout. rewrite app_nil_r in Hout. done. }
cbn in Hout. rewrite app_nil_r in Hout. destruct Heff as (Haddr & Ho & Hact). split; [done|].
destruct Hch as [_ Ha Hp Hd]. destruct Hc as [H1 H2 H3 H4 H5 H6 H7 H8 H9]. split; [|done|done|].
- split; cbn; rewrite ?Hact, ?Haddr; try done.
  + apply Ho; [done|]. by eapply observed_by_le.
  + by rewrite fmap_app, H3.
  + by rewrite <- Hout.
  + apply Forall_app_2; [done|]. constructor; [|done]. intros s0. cbn. by intros [= <-].
  + rewrite at_rest_app. cbn. rewrite <- H8. unfold away. cbn. solve_Permutation.
  + intros sv d Hsd. rewrite at_rest_app. apply elem_of_app. left. by apply (H9 sv).
- intros nodes Hn. cbn in Hn |- *. rewrite Haddr. destruct (Hd nodes Hn) as [Hall Hhead]. split; [|done].
  eapply list.Forall_impl; [exact Hall|]. intros x Hx. apply elem_of_app. by left.
Qed.
End Quiet.

(** *** Quiescing and the drain *)

Section Admission.
Context (limit clock now : Z) (c : ChannelWorkCoordinator) (a : ChannelAgent).
Context (Hch : channel_inv limit clock c a) (Hle : clock <= now).

Lemma inv_admission quiescing drain :
(forall nodes, drain = Some nodes -> Forall (fun address => address ∈ addresses (wc_runtime c)) nodes /\
  forall d, wc_active_dispatch c = Some d -> head nodes = Some (md_node_address d)) ->
channel_inv limit now (set_wc_admission quiescing drain c) a.
Proof.
intros Hd. destruct (inv_later limit clock now c a Hch Hle) as [[] Ha Hp _]. split; [by split|done|done|exact Hd].
Qed.

Lemma begin_quiesce_ok : beside_ok limit now a (begin_quiesce c).
Proof. split; [done|]. apply inv_admission, Hch. Qed.

(** The drain starts with every node that needs no recovery. *)
Lemma drainable_spec (r : ChannelRuntime) (sessions : list ManagedSession) :
Forall (fun m => ms_node_address m ∈ addresses r) sessions ->
exists nodes, drainable r sessions = Ok nodes /\ nodes `sublist_of` ms_node_address <$> sessions /\
  forall address, address ∈ ms_node_address <$> sessions ->
  (address ∈ nodes \/ exists cause, runtime_recovery_cause address r = Ok (Some cause)).
Proof.
intros Hs. induction Hs as [|m sessions Hm Hs (nodes & IH & Hsub & Hall)]; cbn [drainable].
{ exists []. split_and!; [done|constructor|]. by intros ? ?%not_elem_of_nil. }
assert (exists cause, runtime_recovery_cause (ms_node_address m) r = Ok cause) as [cause Hc].
{ apply list_elem_of_fmap in Hm as (node & Ha & Hn). unfold runtime_recovery_cause.
  destruct (position _ _) as [[i x]|] eqn:Hp; [by eexists|]. exfalso.
  pose proof (position_none _ _ _ Hp Hn) as Hno. unfold at_address, node_address in *. by rewrite Ha, Z.eqb_refl in Hno. }
rewrite Hc. cbn [map_err mbind outcome_bind]. rewrite IH. cbn [mbind outcome_bind]. eexists. split; [done|].
destruct cause as [cause|]; cbn [is_some]; (split; [by constructor|]); intros address Ha;
  rewrite fmap_cons in Ha; apply elem_of_cons in Ha as [->|Ha].
- right. by exists cause.
- by apply Hall.
- left. by left.
- destruct (Hall address Ha) as [|H]; [left; by right|by right].
Qed.

Lemma begin_shutdown_drain_ok : beside_ok limit now a (begin_shutdown_drain c).
Proof.
pose proof (ch_coord _ _ _ _ Hch) as Hc. unfold begin_shutdown_drain. rewrite st_bind_get.
destruct (is_quiescent c) eqn:Hq; cbn [negb orb]; [|by apply (refused_ok limit clock)].
destruct (is_some (wc_shutdown_drain_nodes c)); [by apply (refused_ok limit clock)|].
destruct (drainable_spec (wc_runtime c) (wc_sessions c)) as (nodes & Hn & Hsub & _).
{ apply list.Forall_forall. intros m Hm. rewrite <- (ci_sessions _ _ Hc). by apply list_elem_of_fmap_2. }
rewrite Hn, st_bind_lift_Ok. split; [done|]. apply inv_admission. intros l [= <-].
split.
- apply list.Forall_forall. intros x Hx. rewrite <- (ci_sessions _ _ Hc). by eapply elem_of_sublist.
- intros d Hd. destruct (quiescent_books clock c Hc Hq) as (Hact & _).
  destruct (idle_slots clock c Hc Hact) as (Hno & _). congruence.
Qed.

Lemma finish_shutdown_drain_ok : beside_ok limit now a (finish_shutdown_drain c).
Proof.
unfold finish_shutdown_drain. rewrite st_bind_get. destruct (negb _); [by apply (refused_ok limit clock)|].
split; [done|]. by apply inv_admission.
Qed.

Lemma abort_shutdown_drain_ok : beside_ok limit now a (abort_shutdown_drain c).
Proof.
unfold abort_shutdown_drain. rewrite st_bind_get. destruct (negb _); [by apply (refused_ok limit clock)|].
split; [done|]. by apply inv_admission.
Qed.

Lemma resume_scheduling_ok : beside_ok limit now a (resume_scheduling c).
Proof.
unfold resume_scheduling. rewrite st_bind_get. destruct (_ || _); [by apply (refused_ok limit clock)|].
split; [done|]. apply inv_admission, Hch.
Qed.
End Admission.

(** *** Events of the periodic services *)

Lemma service_current (clock : Z) (c : ChannelWorkCoordinator) d :
  coord_inv clock c ->
  (wc_active_time_sync c = Some d -> rt_active_dispatch (wc_runtime c) = Some (periodic_dispatch TimeSyncService d)) /\
  (wc_active_telemetry c = Some d -> rt_active_dispatch (wc_runtime c) = Some (periodic_dispatch TelemetryService d)).
Proof.
  intros Hc. pose proof (ci_slots _ _ Hc) as Hsl. unfold slots in Hsl.
  split; intros Ha; rewrite Ha in Hsl; destruct (rt_active_dispatch (wc_runtime c)) as [[]|]; try discriminate Hsl;
    by injection Hsl as; subst.
Qed.

Section ServiceEvents.
Context {T : Type} (limit clock now : Z) (c : ChannelWorkCoordinator) (a : ChannelAgent).
Context (Hch : channel_inv limit clock c a) (Hle : clock <= now) (Hnow : u64 now).

Definition pair_ok {A : Type} (res : outcome MeasurementCoordinatorError A * (ChannelWorkCoordinator * T)) : Prop :=
coord_sound (fst res) /\ channel_inv limit now (fst (snd res)) a.

Lemma in_coordinator_bind {A B : Type} (m : coordinator A) (k : A -> st (ChannelWorkCoordinator * T) _ B) c0 t x c' :
m c0 = (x, c') ->
(in_coordinator m ≫= k) (c0, t) =
match x with Ok y => k y (c', t) | Err e => (Err e, (c', t)) | Panic => (Panic, (c', t)) end.
Proof. intros H. unfold in_coordinator, zoom. cbv [mbind st_bind]. cbn [fst snd]. rewrite H. by destruct x. Qed.

Lemma try_submit_bind {E A B : Type} (m : st T E A) (k : A + E -> st (ChannelWorkCoordinator * T) _ B) c0 t :
no_panic (fst (m t)) -> (forall x t', pair_ok (k x (c0, t'))) -> pair_ok ((try_submit m ≫= k) (c0, t)).
Proof.
intros Hnp Hk. unfold try_submit, zoom, attempt. cbv [mbind st_bind]. cbn [fst snd].
destruct (m t) as [[y|e|] t'] eqn:Hm; [by apply Hk..|]. by destruct Hnp.
Qed.

Lemma pair_settle {B : Type} (m : runtime unit) (k : unit -> st (ChannelWorkCoordinator * T) _ B) d c0 t :
channel_inv limit clock c0 a -> settles_now now d (wc_runtime c0) (m (wc_runtime c0)) ->
(forall r, taken_back now d (wc_runtime c0) r -> pair_ok (k tt (set_wc_runtime r c0, t))) ->
pair_ok ((in_coordinator (on_runtime m) ≫= k) (c0, t)).
Proof.
intros H0 Hm Hk. unfold settles_now in Hm. destruct (m (wc_runtime c0)) as [x r] eqn:Hx. cbn [fst snd] in Hm.
rewrite (in_coordinator_bind _ _ _ _ _ _ (on_runtime_eval _ _ _ _ Hx)).
destruct x as [[]|e|]; cbn [map_err]; [by apply Hk| |done].
destruct Hm as [Hun He]. split; [by destruct He as [->| ->]|by eapply inv_untouched].
Qed.

(** The session of a service's node is there when its answer arrives. *)
Lemma service_session (sv : PeriodicService) d :
rt_active_dispatch (wc_runtime c) = Some (periodic_dispatch sv d) ->
sd_node_address d ∈ addresses (wc_runtime c) /\ exists s, session_of (sd_node_address d) c = (Ok s, c).
Proof.
intros Hact. pose proof (ch_coord _ _ _ _ Hch) as Hc. pose proof (ci_services _ _ Hc sv d Hact) as Hrest. split.
- rewrite <- (ci_places _ _ Hc). apply elem_of_app. by left.
- destruct (rest_session clock c Hc c eq_refl _ Hrest) as (s & Hs & _). by exists s.
Qed.

(** A service that failed: its slot is cleared. *)
Lemma service_failed {A : Type} (sv : PeriodicService) d (x : A) c0 (t : T) :
channel_inv limit clock c0 a -> rt_active_dispatch (wc_runtime c0) = Some (periodic_dispatch sv d) ->
pair_ok ((_ ← in_coordinator (on_runtime (fail_periodic sv d now));
  _ ← in_coordinator (modify (clear_slot (periodic_dispatch sv d))); mret x) (c0, t)).
Proof.
intros H0 Hact. apply (pair_settle _ _ (periodic_dispatch sv d)); [done|by apply fail_periodic_current; [apply H0|]|].
intros r Hback. split; [done|].
refine (inv_cleared limit clock now c0 a r _ H0 Hle Hact _ Hback). by destruct sv.
Qed.

Lemma settle_time_sync_event_ok `{TimeObservationSubmitter T} event (t : T) :
(forall record (t : T), no_panic (fst (time_try_submit record t))) ->
(forall d node, wc_active_time_sync c = Some d -> time_sync_event_node event = Some node -> node = sd_node_address d) ->
pair_ok (settle_time_sync_event event now (c, t)).
Proof.
intros Hwriter Hnode. pose proof (ch_coord _ _ _ _ Hch) as Hc. pose proof (inv_later limit clock now c a Hch Hle) as Hlater.
unfold settle_time_sync_event. rewrite (in_coordinator_bind _ _ c t (Ok c) c) by done.
destruct (wc_active_time_sync c) as [d|] eqn:Hsync; [|by split].
destruct (time_sync_event_node event) as [node|] eqn:Hev; [|by split].
rewrite (Hnode d node eq_refl eq_refl), Z.eqb_refl. cbn [negb].
pose proof (proj1 (service_current clock c d Hc) Hsync) as Hact.
assert (Hfail : forall c0 t0 (x : TimeSyncSettlement), channel_inv limit clock c0 a -> wc_runtime c0 = wc_runtime c ->
  pair_ok ((_ ← in_coordinator (on_runtime (fail_time_sync d now));
    _ ← in_coordinator (modify (set_wc_time_sync None)); mret (Some x)) (c0, t0))).
{ intros c0 t0 x H0 Hsame. apply (service_failed TimeSyncService d (Some x) c0 t0 H0). by rewrite Hsame. }
destruct event; try discriminate Hev; try (rewrite st_bind_assoc; by apply Hfail).
unfold submit_time_observation. rewrite !st_bind_assoc.
destruct (service_session TimeSyncService d Hact) as (Hin & s & Hs).
rewrite (in_coordinator_bind _ _ _ _ _ _ Hs), st_bind_assoc.
destruct (time_record_new (ns_hardware_id s) (sd_node_address d) observation) as [record|e|] eqn:Hrec;
  [|by split|by unfold time_record_new in Hrec; destruct (_ || _)].
cbn [map_err]. rewrite st_bind_lift_Ok, st_bind_assoc.
apply try_submit_bind; [apply Hwriter|]. intros x t'.
destruct x as [u|error]; rewrite st_bind_assoc; [|by apply Hfail].
apply (pair_settle _ _ (periodic_dispatch TimeSyncService d)); [done|by apply complete_periodic_current; [apply Hc|]|].
intros r Hback. rewrite st_bind_assoc.
destruct (observe_eval clock c Hc (set_wc_runtime r c) eq_refl (observe_time_sync now) _ Hin) as (l & Hobs & Hl).
rewrite (in_coordinator_bind _ _ _ _ _ _ Hobs). split; [done|].
exact (inv_in_place limit now _ a l (inv_cleared limit clock now c a r _ Hch Hle Hact eq_refl Hback) Hl).
Qed.

Lemma settle_telemetry_event_ok `{TelemetryObservationSubmitter T} event (t : T) :
(forall record (t : T), no_panic (fst (telemetry_try_submit record t))) ->
(forall d node, wc_active_telemetry c = Some d -> telemetry_event_node event = Some node -> node = sd_node_address d) ->
pair_ok (settle_telemetry_event event now (c, t)).
Proof.
intros Hwriter Hnode. pose proof (ch_coord _ _ _ _ Hch) as Hc. pose proof (inv_later limit clock now c a Hch Hle) as Hlater.
unfold settle_telemetry_event. rewrite (in_coordinator_bind _ _ c t (Ok c) c) by done.
destruct (wc_active_telemetry c) as [d|] eqn:Htel; [|by split].
destruct (telemetry_event_node event) as [node|] eqn:Hev; [|by split].
rewrite (Hnode d node eq_refl eq_refl), Z.eqb_refl. cbn [negb].
pose proof (proj2 (service_current clock c d Hc) Htel) as Hact.
assert (Hfail : forall c0 t0 (x : TelemetrySettlement), channel_inv limit clock c0 a -> wc_runtime c0 = wc_runtime c ->
  pair_ok ((_ ← in_coordinator (on_runtime (fail_telemetry d now));
    _ ← in_coordinator (modify (set_wc_telemetry None)); mret (Some x)) (c0, t0))).
{ intros c0 t0 x H0 Hsame. apply (service_failed TelemetryService d (Some x) c0 t0 H0). by rewrite Hsame. }
destruct event; try discriminate Hev; try (rewrite st_bind_assoc; by apply Hfail).
unfold submit_telemetry_observation. rewrite !st_bind_assoc.
destruct (service_session TelemetryService d Hact) as (Hin & s & Hs).
rewrite (in_coordinator_bind _ _ _ _ _ _ Hs), st_bind_assoc.
destruct (telemetry_record_new (ns_hardware_id s) (sd_node_address d) (ns_boot_epoch s) snapshot) as [record|e|] eqn:Hrec;
  [|by split|by unfold telemetry_record_new in Hrec; repeat case_match].
cbn [map_err]. rewrite st_bind_lift_Ok, st_bind_assoc.
apply try_submit_bind; [apply Hwriter|]. intros x t'.
destruct x as [u|error]; rewrite st_bind_assoc; [|by apply Hfail].
destruct (observe_eval clock c Hc c eq_refl (observe_telemetry snapshot now) _ Hin) as (l & Hobs & Hl).
rewrite (in_coordinator_bind _ _ _ _ _ _ Hobs), st_bind_assoc.
pose proof (inv_in_place limit clock c a l Hch Hl) as Hch'.
apply (pair_settle _ _ (periodic_dispatch TelemetryService d)); [done|by apply complete_periodic_current; [apply Hc|]|].
intros r Hback. split; [done|].
exact (inv_cleared limit clock now (set_wc_sessions l c) a r _ Hch' Hle Hact eq_refl Hback).
Qed.
End ServiceEvents.
