(* ===== verification/CoordinatorHistory.v ===== *)
(** * Histories of a channel's work coordinator

    Any history of the coordinator's calls and of its agent's, with a sink, a
    writer and two observation queues that answer as they like: the session of
    every node is in exactly one place, no call finds the books in disagreement,
    and a shutdown drain reads exactly the nodes it set out to read. *)

From stdpp Require Import list list_tactics.
From S2P Require Export CoordinatorServices.

(** ** The channel and its calls *)

Inductive CoordinatorCall (E : Type) :=
| CallRegister (config : NodeScheduleConfig) (s : NodeSession) (now : MonotonicMicros)
| CallConfigureTimeSync (address : Z) (config : PeriodicConfig) (deadline : MonotonicMicros)
| CallConfigureTelemetry (address : Z) (config : PeriodicConfig) (deadline : MonotonicMicros)
| CallReconfigureTelemetry (address : Z) (config : PeriodicConfig) (now : MonotonicMicros)
| CallReconfigureNode (config : NodeScheduleConfig) (now : MonotonicMicros)
| CallObserveConfiguration (address : Z) (configuration : ObservedConfiguration)
| CallDispatch (now : MonotonicMicros)
| CallTimeSyncEvent (event : ChannelEvent) (now : MonotonicMicros)
| CallTelemetryEvent (event : ChannelEvent) (now : MonotonicMicros)
| CallSettle (now : MonotonicMicros)
| CallHandoff
| CallSettleWrite (completion : BoundedWriter.WriteCompletion E) (now : MonotonicMicros)
| CallRetryDurable (id : BoundedWriter.WriteJobId) (now : MonotonicMicros)
| CallFailRecovery (d : ServiceDispatch) (now : MonotonicMicros)
| CallReconcileRecovery (d : ServiceDispatch) (capacity : Z) (stream : StreamState) (now : MonotonicMicros)
| CallReplaceRecovery (d : ServiceDispatch) (expected : ExpectedStreamState) (durable_cursor : SequenceCursor)
    (stream : StreamState) (now : MonotonicMicros)
| CallReconcileResume (address capacity : Z) (stream : StreamState) (now : MonotonicMicros)
| CallReplaceResume (address : Z) (expected : ExpectedStreamState) (durable_cursor : SequenceCursor)
    (stream : StreamState) (now : MonotonicMicros)
| CallQuiesce
| CallBeginDrain
| CallFinishDrain
| CallAbortDrain
| CallResumeScheduling
| CallAgent (call : AgentCall).
Arguments CallRegister {E}.
Arguments CallConfigureTimeSync {E}.
Arguments CallConfigureTelemetry {E}.
Arguments CallReconfigureTelemetry {E}.
Arguments CallReconfigureNode {E}.
Arguments CallObserveConfiguration {E}.
Arguments CallDispatch {E}.
Arguments CallTimeSyncEvent {E}.
Arguments CallTelemetryEvent {E}.
Arguments CallSettle {E}.
Arguments CallHandoff {E}.
Arguments CallSettleWrite {E}.
Arguments CallRetryDurable {E}.
Arguments CallFailRecovery {E}.
Arguments CallReconcileRecovery {E}.
Arguments CallReplaceRecovery {E}.
Arguments CallReconcileResume {E}.
Arguments CallReplaceResume {E}.
Arguments CallQuiesce {E}.
Arguments CallBeginDrain {E}.
Arguments CallFinishDrain {E}.
Arguments CallAbortDrain {E}.
Arguments CallResumeScheduling {E}.
Arguments CallAgent {E}.

Inductive ChannelReply :=
| ReplyUnit
| ReplyDispatched (d : option ChannelDispatch)
| ReplyTimeSync (settlement : option TimeSyncSettlement)
| ReplyTelemetry (settlement : option TelemetrySettlement)
| ReplySettled (settlement : MeasurementSettlement)
| ReplyWritten (settlement : MeasurementSettlement)
| ReplyHandedOff (id : BoundedWriter.WriteJobId)
| ReplyContinuity (continuity : RecoveryContinuity)
| ReplyAgent (reply : AgentReply).

Inductive ChannelError (E : Type) :=
| FromCoordinator (error : MeasurementCoordinatorError)
| FromSettlement (error : MeasurementSettlementError E)
| FromHandoff (error : MeasurementHandoffError)
| FromWrite (error : MeasurementWriteSettlementError E)
| FromAgent (error : ChannelAgentError).
Arguments FromCoordinator {E}.
Arguments FromSettlement {E}.
Arguments FromHandoff {E}.
Arguments FromWrite {E}.
Arguments FromAgent {E}.

(** The errors that would mean the books disagree. *)
Definition channel_internal {E : Type} (error : ChannelError E) : Prop :=
  match error with
  | FromCoordinator e | FromSettlement (SettleCoordinator e) | FromHandoff (HandoffCoordinator e)
  | FromWrite (WriteCoordinator e) => coord_internal e = true
  | FromSettlement (SettlePersistence (PersistSink _)) => False
  | FromSettlement (SettlePersistence _) | FromHandoff (HandoffTransfer _ | HandoffEnvelope _) => True
  | FromAgent e => e = InvariantViolation
  | _ => False
  end.

Definition channel_sound {E A : Type} (x : outcome (ChannelError E) A) : Prop :=
  match x with Ok _ => True | Err e => ~ channel_internal e | Panic => False end.

(** ** What leaves the drain alone *)

Abbreviation drain := wc_shutdown_drain_nodes.

Lemma observe_drain ops address : fixed drain (MeasurementCoordinator.observe ops address).
Proof. unfold MeasurementCoordinator.observe, managed_session, put_managed. keep_drain. Qed.
Lemma restore_session_drain address ops s : fixed drain (restore_session address ops s).
Proof. unfold restore_session, managed_session, put_managed. keep_drain. Qed.
Lemma session_of_drain address : fixed drain (session_of address).
Proof. unfold session_of, managed_session. keep_drain. Qed.

Ltac keeps_drain :=
  repeat first
    [ apply observe_drain | apply restore_session_drain | apply session_of_drain
    | progress keep_drain ].

Lemma recoveries_drain :
  (forall d now, fixed drain (fail_online_recovery d now)) /\
  (forall d capacity stream now, fixed drain (reconcile_online_recovery d capacity stream now)) /\
  (forall d expected cursor stream now, fixed drain (replace_online_recovery d expected cursor stream now)).
Proof.
  unfold fail_online_recovery, reconcile_online_recovery, replace_online_recovery, finish_recovery, ensure_recovery,
    ensure_same_hardware, reconcile. split_and!; intros; keeps_drain.
Qed.

Lemma resumes_drain :
  (forall address capacity stream now, fixed drain (reconcile_resume_stream address capacity stream now)) /\
  (forall address expected cursor stream now, fixed drain (replace_resume_stream address expected cursor stream now)) /\
  fixed drain resume_scheduling /\ fixed drain begin_quiesce.
Proof.
  split_and!; [..|intros c; unfold resume_scheduling; rewrite st_bind_get; by destruct (_ || _)|by intros c].
  all: intros; unfold reconcile_resume_stream, replace_resume_stream, finish_resume,
    ensure_resumable, ensure_same_hardware, reconcile; keeps_drain.
Qed.

Lemma setup_drain :
  (forall config s now, fixed drain (coordinator_register_node config s now)) /\
  (forall address config deadline, fixed drain (coordinator_configure_time_sync address config deadline)) /\
  (forall address config deadline, fixed drain (coordinator_configure_telemetry address config deadline)) /\
  (forall address config now, fixed drain (coordinator_reconfigure_telemetry address config now)) /\
  (forall config now, fixed drain (coordinator_reconfigure_node config now)) /\
  (forall address configuration, fixed drain (observe_configuration address configuration)).
Proof.
  unfold coordinator_register_node, coordinator_configure_time_sync, coordinator_configure_telemetry,
    coordinator_reconfigure_telemetry, coordinator_reconfigure_node, observe_configuration.
  split_and!; intros; keeps_drain.
Qed.

Lemma writes_drain :
  (forall id now, fixed drain (retry_durable_settlement id now)) /\
  (forall E (completion : BoundedWriter.WriteCompletion E) now, fixed drain (settle_write_completion completion now)).
Proof.
  assert (forall i w now, fixed drain (finish_durable_write i w now)) as Hfin.
  { intros. unfold finish_durable_write, complete_write, settle_session. keeps_drain. }
  assert (forall E i w receipt, fixed drain (confirm_write (E:=E) i w receipt)) as Hcon.
  { intros E i w receipt c. unfold confirm_write. by destruct (transfer_confirm_durable receipt (iw_transfer w)). }
  split; intros; unfold retry_durable_settlement, settle_write_completion;
    repeat first [apply Hfin | apply Hcon | apply (fixed_zoom _ _ _ _ _ drain); [done|done|] | progress keeps_drain].
Qed.

(** A channel beside something else. *)
Definition beside_drain {X : Type} (x : ChannelWorkCoordinator * X) : option (list Z) := drain (fst x).
Definition channel_beside_drain {X : Type} (x : ChannelWorkCoordinator * ChannelAgent * X) : option (list Z) :=
  channel_drain (fst x).

Lemma time_event_drain {T : Type} `{TimeObservationSubmitter T} event now :
  fixed beside_drain (settle_time_sync_event (T:=T) event now).
Proof.
  unfold settle_time_sync_event, submit_time_observation, in_coordinator, try_submit.
  repeat first [ apply (fixed_zoom _ _ _ _ _ drain); [done|done|] | by apply fixed_aside | progress keeps_drain ].
Qed.

Lemma telemetry_event_drain {T : Type} `{TelemetryObservationSubmitter T} event now :
  fixed beside_drain (settle_telemetry_event (T:=T) event now).
Proof.
  unfold settle_telemetry_event, submit_telemetry_observation, in_coordinator, try_submit.
  repeat first [ apply (fixed_zoom _ _ _ _ _ drain); [done|done|] | by apply fixed_aside | progress keeps_drain ].
Qed.

Lemma handoff_drain {Q : Type} `{PersistenceSubmitter Q} : fixed channel_beside_drain (handoff_completed (Q:=Q)).
Proof.
  unfold handoff_completed, for_handoff, ensure_pending, take_pending, keep_pending, park_write.
  repeat first [ apply (fixed_zoom _ _ _ _ _ channel_drain); [done|done|] | by apply fixed_aside | progress keeps_drain ].
Qed.

Lemma dispatch_drain_kept now : fixed channel_drain (dispatch_next_work now).
Proof.
  unfold dispatch_next_work, dispatch_drain, dispatch_measurement, dispatch_time_sync, dispatch_telemetry, or_cancel,
    coordinator_submit_measurement, try_submit_measurement, lend_session, return_session, managed_session, put_managed.
  keeps_drain.
Qed.

Section History.
Context {S E Q T L : Type} `{DurableMeasurementSink S E, PersistenceSubmitter Q, TimeObservationSubmitter T,
  TelemetryObservationSubmitter L}.

Record Channel := mkChannel {
  ch_coordinator : ChannelWorkCoordinator;
  ch_agent_state : ChannelAgent;
  ch_sink : S;
  ch_writer : Q;
  ch_time : T;
  ch_telemetry : L
}.

Abbreviation channel := (st Channel (ChannelError E)).

Definition set_coordinator (x : ChannelWorkCoordinator) (w : Channel) : Channel :=
mkChannel x (ch_agent_state w) (ch_sink w) (ch_writer w) (ch_time w) (ch_telemetry w).
Definition set_agent (x : ChannelAgent) (w : Channel) : Channel :=
mkChannel (ch_coordinator w) x (ch_sink w) (ch_writer w) (ch_time w) (ch_telemetry w).

(** A call of the coordinator alone, with the agent, and with each of the others. *)
Definition alone {A : Type} (m : coordinator A) : channel A := zoom ch_coordinator set_coordinator FromCoordinator m.
Definition with_agent {A : Type} (m : channel_work A) : channel A :=
zoom (fun w => (ch_coordinator w, ch_agent_state w)) (fun x w => set_agent (snd x) (set_coordinator (fst x) w))
  FromCoordinator m.
Definition with_sink {A : Type} (m : st (ChannelWorkCoordinator * ChannelAgent * S) (MeasurementSettlementError E) A) :
  channel A :=
zoom (fun w => (ch_coordinator w, ch_agent_state w, ch_sink w))
  (fun x w => mkChannel (fst (fst x)) (snd (fst x)) (snd x) (ch_writer w) (ch_time w) (ch_telemetry w))
  FromSettlement m.
Definition with_writer {A : Type} (m : st (ChannelWorkCoordinator * ChannelAgent * Q) MeasurementHandoffError A) :
  channel A :=
zoom (fun w => (ch_coordinator w, ch_agent_state w, ch_writer w))
  (fun x w => mkChannel (fst (fst x)) (snd (fst x)) (ch_sink w) (snd x) (ch_time w) (ch_telemetry w))
  FromHandoff m.
Definition with_time {A : Type} (m : st (ChannelWorkCoordinator * T) MeasurementCoordinatorError A) : channel A :=
zoom (fun w => (ch_coordinator w, ch_time w))
  (fun x w => mkChannel (fst x) (ch_agent_state w) (ch_sink w) (ch_writer w) (snd x) (ch_telemetry w))
  FromCoordinator m.
Definition with_telemetry {A : Type} (m : st (ChannelWorkCoordinator * L) MeasurementCoordinatorError A) : channel A :=
zoom (fun w => (ch_coordinator w, ch_telemetry w))
  (fun x w => mkChannel (fst x) (ch_agent_state w) (ch_sink w) (ch_writer w) (ch_time w) (snd x))
  FromCoordinator m.

Definition replied {A : Type} (f : A -> ChannelReply) (m : channel A) : channel ChannelReply := a ← m; mret (f a).
Definition unit_reply (_ : unit) : ChannelReply := ReplyUnit.

Definition channel_step (call : CoordinatorCall E) : channel ChannelReply :=
match call with
| CallRegister config s now => replied unit_reply (alone (coordinator_register_node config s now))
| CallConfigureTimeSync address config deadline =>
    replied unit_reply (alone (coordinator_configure_time_sync address config deadline))
| CallConfigureTelemetry address config deadline =>
    replied unit_reply (alone (coordinator_configure_telemetry address config deadline))
| CallReconfigureTelemetry address config now =>
    replied unit_reply (alone (coordinator_reconfigure_telemetry address config now))
| CallReconfigureNode config now => replied unit_reply (alone (coordinator_reconfigure_node config now))
| CallObserveConfiguration address configuration => replied unit_reply (alone (observe_configuration address configuration))
| CallDispatch now => replied ReplyDispatched (with_agent (dispatch_next_work now))
| CallTimeSyncEvent event now => replied ReplyTimeSync (with_time (settle_time_sync_event event now))
| CallTelemetryEvent event now => replied ReplyTelemetry (with_telemetry (settle_telemetry_event event now))
| CallSettle now => replied ReplySettled (with_sink (settle_completed now))
| CallHandoff => replied ReplyHandedOff (with_writer handoff_completed)
| CallSettleWrite completion now =>
    replied ReplyWritten (zoom ch_coordinator set_coordinator FromWrite (settle_write_completion completion now))
| CallRetryDurable id now => replied ReplyWritten (alone (retry_durable_settlement id now))
| CallFailRecovery d now => replied unit_reply (alone (fail_online_recovery d now))
| CallReconcileRecovery d capacity stream now =>
    replied ReplyContinuity (alone (reconcile_online_recovery d capacity stream now))
| CallReplaceRecovery d expected durable_cursor stream now =>
    replied ReplyContinuity (alone (replace_online_recovery d expected durable_cursor stream now))
| CallReconcileResume address capacity stream now =>
    replied ReplyContinuity (alone (reconcile_resume_stream address capacity stream now))
| CallReplaceResume address expected durable_cursor stream now =>
    replied ReplyContinuity (alone (replace_resume_stream address expected durable_cursor stream now))
| CallQuiesce => replied unit_reply (alone begin_quiesce)
| CallBeginDrain => replied unit_reply (alone begin_shutdown_drain)
| CallFinishDrain => replied unit_reply (alone finish_shutdown_drain)
| CallAbortDrain => replied unit_reply (alone abort_shutdown_drain)
| CallResumeScheduling => replied unit_reply (alone resume_scheduling)
| CallAgent call => replied ReplyAgent (zoom ch_agent_state set_agent FromAgent (agent_call call))
end.

Fixpoint channel_run (calls : list (CoordinatorCall E)) (w : Channel) :
  list (outcome (ChannelError E) ChannelReply) * Channel :=
match calls with
| [] => ([], w)
| call :: calls =>
    let '(x, w) := channel_step call w in
    let '(xs, w) := channel_run calls w in
    (x :: xs, w)
end.

(** ** What the callers respect *)

Definition call_time (call : CoordinatorCall E) : option Z :=
match call with
| CallRegister _ _ now | CallReconfigureTelemetry _ _ now | CallReconfigureNode _ now | CallDispatch now
| CallTimeSyncEvent _ now | CallTelemetryEvent _ now | CallSettle now | CallSettleWrite _ now | CallRetryDurable _ now
| CallFailRecovery _ now | CallReconcileRecovery _ _ _ now | CallReplaceRecovery _ _ _ _ now
| CallReconcileResume _ _ _ now | CallReplaceResume _ _ _ _ now => Some now
| _ => None
end.
Definition call_clock (clock : Z) (call : CoordinatorCall E) : Z := from_option id clock (call_time call).

(** Typed arguments; nodes of this channel; the recovery under way; answers of
    the node a service was dispatched for. Measurements are handed to the agent
    and taken from it by the coordinator only. *)
Definition call_allowed (call : CoordinatorCall E) (c : ChannelWorkCoordinator) : Prop :=
match call with
| CallRegister config s _ => typed config /\ session_rest s
| CallConfigureTimeSync address _ _ | CallConfigureTelemetry address _ _ | CallObserveConfiguration address _ =>
    address ∈ addresses (wc_runtime c)
| CallReconfigureNode config _ => typed config /\ nc_node_address config ∈ addresses (wc_runtime c)
| CallTimeSyncEvent event _ => forall d node,
    wc_active_time_sync c = Some d -> time_sync_event_node event = Some node -> node = sd_node_address d
| CallTelemetryEvent event _ => forall d node,
    wc_active_telemetry c = Some d -> telemetry_event_node event = Some node -> node = sd_node_address d
| CallFailRecovery d _ => wc_active_recovery c = Some d
| CallReconcileRecovery d _ stream _ => wc_active_recovery c = Some d /\ typed stream
| CallReplaceRecovery d expected durable_cursor stream _ => wc_active_recovery c = Some d /\
    hardware_id_typed (ex_hardware_id expected) /\ u64 (ex_boot_epoch expected) /\ u64 durable_cursor /\ typed stream
| CallReconcileResume address _ stream _ => address ∈ addresses (wc_runtime c) /\ typed stream
| CallReplaceResume address expected durable_cursor stream _ => address ∈ addresses (wc_runtime c) /\
    hardware_id_typed (ex_hardware_id expected) /\ u64 (ex_boot_epoch expected) /\ u64 durable_cursor /\ typed stream
| CallAgent call => call_typed call /\ plain_call call
| _ => True
end.

(** Time does not run backwards. *)
Definition channel_allowed (clock : Z) (call : CoordinatorCall E) (w : Channel) : Prop :=
clock <= call_clock clock call /\ (forall now, call_time call = Some now -> u64 now) /\
call_allowed call (ch_coordinator w).

Fixpoint channel_run_allowed (clock : Z) (calls : list (CoordinatorCall E)) (w : Channel) : Prop :=
match calls with
| [] => True
| call :: calls =>
    channel_allowed clock call w /\ channel_run_allowed (call_clock clock call) calls (snd (channel_step call w))
end.

(** What answers the channel: a sink and a writer, whatever they store, and two
    queues. *)
Record environment_answers : Prop := {
  sink_answers : answers (S:=S) (E:=E);
  writer_gives_back : gives_back (Q:=Q);
  time_answers : forall record (t : T), no_panic (fst (time_try_submit record t));
  telemetry_answers : forall record (l : L), no_panic (fst (telemetry_try_submit record l))
}.

(** ** One call *)

Definition channel_good (limit clock : Z) (w : Channel) : Prop :=
channel_inv limit clock (ch_coordinator w) (ch_agent_state w).

Definition step_good {A : Type} (limit now : Z) (res : outcome (ChannelError E) A * Channel) : Prop :=
channel_sound (fst res) /\ channel_good limit now (snd res).

Lemma replied_good {A : Type} (limit now : Z) (f : A -> ChannelReply) (m : channel A) w :
step_good limit now (m w) -> step_good limit now (replied f m w).
Proof. intros Hm. unfold replied. cbv [mbind st_bind]. destruct (m w) as [[a|e|] w']; exact Hm. Qed.

Lemma coord_sound_channel {A : Type} (x : outcome MeasurementCoordinatorError A) :
coord_sound x -> channel_sound (E:=E) (map_err FromCoordinator x).
Proof. destruct x as [a|e|]; cbn; [done| |done]. intros ->. done. Qed.

Lemma alone_good {A : Type} (limit now : Z) (m : coordinator A) w :
beside_ok limit now (ch_agent_state w) (m (ch_coordinator w)) -> step_good limit now (alone m w).
Proof.
intros [Hs Hi]. unfold step_good, alone, zoom. destruct (m (ch_coordinator w)) as [x c]. cbn [fst snd] in *.
split; [by apply coord_sound_channel|done].
Qed.

Lemma agent_good limit now c a call :
call_typed call -> plain_call call -> channel_inv limit now c a ->
match agent_call call a with (x, a') => sound_result x /\ channel_inv limit now c a' end.
Proof.
intros Ht Hp [Hc Ha Hpl Hd]. destruct (agent_call call a) as [x a'] eqn:Hcall.
destruct (plain_call_keeps limit call a a' x Ht Hp Ha Hcall) as (Hs & Ha' & Hev).
split; [done|]. split; try done. by eapply place_kept.
Qed.

(** Every call keeps the channel in order. *)
Lemma channel_step_good limit clock call w :
environment_answers -> channel_good limit clock w -> channel_allowed clock call w ->
step_good limit (call_clock clock call) (channel_step call w).
Proof.
intros [Hsink Hwriter Htime Htel] Hg (Hle & Hnow & Hall). set (now := call_clock clock call) in *.
assert (Hbeside : forall c', beside now (ch_coordinator w) c' -> channel_inv limit now c' (ch_agent_state w)).
{ intros c' Hb. by eapply beside_channel. }
pose proof (ch_coord _ _ _ _ Hg) as Hc.
destruct call; cbn [channel_step call_allowed] in *; apply replied_good; subst now;
  unfold call_clock in *; cbn [call_time from_option Datatypes.id] in *.
all: try (specialize (Hnow _ eq_refl)).
all: try (apply alone_good).
- destruct Hall. by apply (coordinator_register_ok limit clock).
- apply (leave_ok limit clock); [done..|]. apply configure_periodic_alone; [apply Hc|done].
- apply (leave_ok limit clock); [done..|]. apply configure_periodic_alone; [apply Hc|done].
- apply (leave_ok limit clock); [done..|]. apply reconfigure_telemetry_alone, Hc.
- destruct Hall. by apply (coordinator_reconfigure_ok limit clock).
- by apply (observe_configuration_ok limit clock).
- pose proof (dispatch_next_work_ok limit clock _ _ _ Hg Hle Hnow) as [Hs Hi].
  unfold step_good, with_agent, zoom. destruct (dispatch_next_work _ _) as [x [c a]]. cbn [fst snd] in *.
  split; [by apply coord_sound_channel|done].
- pose proof (settle_time_sync_event_ok limit clock _ _ _ Hg Hle event (ch_time w) Htime Hall) as [Hs Hi].
  unfold step_good, with_time, zoom. destruct (settle_time_sync_event event _ _) as [x [c t]]. cbn [fst snd] in *.
  split; [by apply coord_sound_channel|done].
- pose proof (settle_telemetry_event_ok limit clock _ _ _ Hg Hle event (ch_telemetry w) Htel Hall) as [Hs Hi].
  unfold step_good, with_telemetry, zoom. destruct (settle_telemetry_event event _ _) as [x [c t]]. cbn [fst snd] in *.
  split; [by apply coord_sound_channel|done].
- pose proof (settle_completed_ok Hsink limit clock _ _ _ (ch_sink w) Hg Hle Hnow) as Hok.
  unfold step_good, with_sink, zoom. destruct (settle_completed _ _) as [x [[c a] s]]. cbn [fst snd] in *.
  destruct Hok as (Hs & Hi & _). split; [|done]. destruct x as [y|[e|[]]|]; cbn in *; first [done | by rewrite Hs | by intros []].
- pose proof (handoff_completed_ok Hwriter limit clock _ _ (ch_writer w) Hg) as Hok.
  unfold step_good, with_writer, zoom. destruct (handoff_completed _) as [x [[c a] q]]. cbn [fst snd] in *.
  destruct Hok as (Hs & Hi & _). split; [|done]. destruct x as [y|[]|]; cbn in *; first [done | by rewrite Hs | by intros []].
- pose proof (settle_write_completion_ok clock _ _ completion Hc Hle Hnow) as Hok.
  unfold step_good, zoom. destruct (settle_write_completion completion _ _) as [x c]. cbn [fst snd] in *.
  destruct Hok as [Hs Hb]. split; [|by apply Hbeside]. destruct x as [y|[]|]; cbn in *; first [done | by rewrite Hs | by intros []].
- pose proof (retry_durable_ok clock _ _ id Hc Hle Hnow) as Hok.
  destruct (retry_durable_settlement id _ _) as [x c]. destruct Hok as [Hs Hb]. split; [done|by apply Hbeside].
- by apply (fail_online_recovery_ok limit clock).
- destruct Hall. by apply (reconcile_online_ok limit clock).
- destruct Hall as (? & ? & ? & ? & ?). by apply (replace_online_ok limit clock).
- destruct Hall. by apply (reconcile_resume_ok limit clock).
- destruct Hall as (? & ? & ? & ? & ?). by apply (replace_resume_ok limit clock).
- by apply (begin_quiesce_ok limit clock).
- by apply (begin_shutdown_drain_ok limit clock).
- by apply (finish_shutdown_drain_ok limit clock).
- by apply (abort_shutdown_drain_ok limit clock).
- by apply (resume_scheduling_ok limit clock).
- destruct Hall as [Ht Hp]. pose proof (agent_good limit clock _ _ call Ht Hp Hg) as Hok.
  unfold step_good, zoom. destruct (agent_call call _) as [x a]. destruct Hok as [Hs Hi]. cbn [fst snd].
  split; [by destruct x|done].
Qed.

Lemma untimed_good limit clock call w :
environment_answers -> channel_good limit clock w -> call_time call = None -> call_allowed call (ch_coordinator w) ->
step_good limit clock (channel_step call w).
Proof.
intros Henv Hg Ht Hall. assert (call_clock clock call = clock) as Hclock by (unfold call_clock; by rewrite Ht).
rewrite <- Hclock. apply (channel_step_good limit clock); [done..|]. unfold channel_allowed. rewrite Hclock, Ht. by split.
Qed.

Definition run_clock (clock : Z) (calls : list (CoordinatorCall E)) : Z := fold_left call_clock calls clock.

Lemma channel_run_good limit clock calls w :
environment_answers -> channel_good limit clock w -> channel_run_allowed clock calls w ->
let '(xs, w') := channel_run calls w in
Forall channel_sound xs /\ channel_good limit (run_clock clock calls) w'.
Proof.
intros Henv. revert clock w. induction calls as [|call calls IH]; intros clock w Hg Hall; cbn [channel_run].
{ split; [constructor|done]. }
destruct Hall as [Hcall Hall]. destruct (channel_step_good limit clock call w Henv Hg Hcall) as [Hs Hg'].
destruct (channel_step call w) as [x w1]. cbn [snd] in *. specialize (IH _ w1 Hg' Hall).
destruct (channel_run calls w1) as [xs w2]. destruct IH as [Hxs Hw]. split; [by constructor|done].
Qed.

(** ** The drain *)

Definition drain_of (w : Channel) : option (list Z) := wc_shutdown_drain_nodes (ch_coordinator w).

Definition drain_call (call : CoordinatorCall E) : bool :=
match call with CallBeginDrain | CallFinishDrain | CallAbortDrain => true | _ => false end.

(** What a reply does to the nodes left to drain. *)
Definition drained_by (x : outcome (ChannelError E) ChannelReply) (before after : option (list Z)) : Prop :=
match x with Ok (ReplySettled settlement) => drains settlement before after | _ => after = before end.

Lemma drained_fixed {A : Type} (f : A -> ChannelReply) (m : channel A) w :
(forall a, match f a with ReplySettled _ => False | _ => True end) -> fixed drain_of m ->
drained_by (fst (replied f m w)) (drain_of w) (drain_of (snd (replied f m w))).
Proof.
intros Hf Hm. specialize (Hm w). unfold replied. cbv [mbind st_bind]. destruct (m w) as [[a|e|] w']; cbn [fst snd] in *;
  [|exact Hm..]. cbv [mret st_ret]. cbn. specialize (Hf a). by destruct (f a).
Qed.

Lemma alone_drain {A : Type} (m : coordinator A) : fixed drain m -> fixed drain_of (alone m).
Proof. apply fixed_zoom; done. Qed.

Lemma channel_step_drain limit clock call w :
environment_answers -> channel_good limit clock w -> channel_allowed clock call w -> drain_call call = false ->
drained_by (fst (channel_step call w)) (drain_of w) (drain_of (snd (channel_step call w))).
Proof.
intros [Hsink Hwriter _ _] Hg (Hle & Hnow & _) Hd. pose proof (ch_coord _ _ _ _ Hg) as Hc.
destruct call; try discriminate Hd; cbn [channel_step];
  unfold call_clock in *; cbn [call_time from_option Datatypes.id] in *.
all: try (specialize (Hnow _ eq_refl)).
all: try (apply drained_fixed; [done|]).
all: try (apply alone_drain; first [apply setup_drain | apply recoveries_drain | apply resumes_drain | apply writes_drain]).
- apply (fixed_zoom _ _ _ _ _ channel_drain); [done|done|apply dispatch_drain_kept].
- apply (fixed_zoom _ _ _ _ _ beside_drain); [done|done|apply time_event_drain].
- apply (fixed_zoom _ _ _ _ _ beside_drain); [done|done|apply telemetry_event_drain].
- pose proof (settle_completed_ok Hsink limit clock _ _ _ (ch_sink w) Hg Hle Hnow) as Hok.
  unfold replied, with_sink, zoom. cbv [mbind st_bind]. destruct (settle_completed _ _) as [x [[c a] s]].
  destruct Hok as (_ & _ & Hok). by destruct x.
- apply (fixed_zoom _ _ _ _ _ channel_beside_drain); [done|done|apply handoff_drain].
- apply (fixed_zoom _ _ _ _ _ drain); [done|done|apply writes_drain].
- by apply fixed_aside.
Qed.

(** The nodes whose reads found no data, in order. *)
Definition no_data_node (x : outcome (ChannelError E) ChannelReply) : option Z :=
match x with Ok (ReplySettled (SettledNoData node _)) => Some node | _ => None end.
Definition no_data_nodes (xs : list (outcome (ChannelError E) ChannelReply)) : list Z := omap no_data_node xs.

Lemma channel_run_drain limit clock calls w nodes :
environment_answers -> channel_good limit clock w -> channel_run_allowed clock calls w ->
Forall (fun call => drain_call call = false) calls -> drain_of w = Some nodes ->
let '(xs, w') := channel_run calls w in
exists rest, drain_of w' = Some rest /\ nodes = no_data_nodes xs ++ rest.
Proof.
intros Henv. revert clock w nodes. induction calls as [|call calls IH]; intros clock w nodes Hg Hall Hd Hn; cbn [channel_run].
{ by exists nodes. }
destruct Hall as [Hcall Hall]. apply Forall_cons_1 in Hd as [Hd1 Hd].
destruct (channel_step_good limit clock call w Henv Hg Hcall) as [_ Hg'].
pose proof (channel_step_drain limit clock call w Henv Hg Hcall Hd1) as Hdrain.
destruct (channel_step call w) as [x w1]. cbn [fst snd] in *.
assert (exists nodes1, drain_of w1 = Some nodes1 /\ nodes = option_list (no_data_node x) ++ nodes1) as (nodes1 & Hn1 & ->).
{ unfold drained_by, drains in Hdrain. rewrite Hn in Hdrain.
  destruct x as [[]|e|]; try (exists nodes; by split).
  destruct Hdrain as [Hafter Hhead]. destruct settlement; try (exists nodes; by split).
  specialize (Hhead nodes eq_refl). destruct nodes as [|front rest]; [done|]. injection Hhead as ->.
  exists rest. by split. }
specialize (IH _ w1 nodes1 Hg' Hall Hd Hn1). destruct (channel_run calls w1) as [xs w2].
destruct IH as (rest & Hrest & ->). exists rest. split; [done|]. rewrite app_assoc. f_equal.
unfold no_data_nodes. cbn [omap list_omap]. by destruct (no_data_node x).
Qed.

(** ** A new channel *)

Definition channel_new (r : ChannelRuntime) (channel_id : Z) (a : ChannelAgent) (s : S) (q : Q) (t : T) (l : L) : Channel :=
mkChannel (coordinator_new r channel_id) a s q t l.

Lemma channel_new_good policy observability max_nodes seed r channel_id transaction operations quarantine work a s q t l clock :
runtime_new policy observability max_nodes seed = Ok r -> u64 seed ->
u32 operations -> 0 <= max_pending_work_items work ->
agent_new transaction operations quarantine work = Ok a ->
channel_good (max_pending_work_items work) clock (channel_new r channel_id a s q t l).
Proof.
intros Hr Hseed Hop Hmax Ha. pose proof (agent_new_inv _ _ _ _ a Hop Hmax Ha) as Hinv.
assert (held a = []) as Hheld by (by eapply Forall2_nil_inv_l, inv_owed).
pose proof (runtime_new_inv _ _ _ _ _ Hr Hseed) as Hri. unfold runtime_new in Hr. run_in Hr. subst r.
split; [split; first [done | by constructor]| | |done].
- change (agent_inv (max_pending_work_items work) (held a) a). by rewrite Hheld.
- change (transfer_place None None (held a)). by rewrite Hheld.
Qed.

(** ** Where the sessions are *)

(** At rest with the coordinator; in the hands of the agent; waiting to be
    settled; on the way to storage. *)
Definition places (w : Channel) : list Z :=
let c := ch_coordinator w in
at_rest (wc_sessions c) ++ (mt_node_address <$>
  (held (ch_agent_state w) ++ option_list (pn_transfer <$> wc_pending_completion c)
   ++ (iw_transfer <$> wc_in_flight_writes c))).

Lemma good_places limit clock w :
channel_good limit clock w -> places w ≡ₚ addresses (wc_runtime (ch_coordinator w)).
Proof.
intros [Hc Ha Hp Hd]. rewrite <- (ci_places _ _ Hc). unfold places. apply Permutation_app_head.
unfold away. rewrite app_assoc, !fmap_app. apply Permutation_app.
- destruct (wc_active_dispatch _) as [d|], (wc_pending_completion _) as [p|], (held _) as [|t' []]; try done; cbn in Hp |- *.
  + by destruct Hp as [<- [-> _]].
  + by destruct Hp as [-> _].
- pose proof (ci_writes _ _ Hc) as Hw. induction Hw as [|x writes [_ Hx] Hw IH]; [done|].
  rewrite !fmap_cons. by rewrite Hx, IH.
Qed.

(** C6. Every session is in exactly one place: over any history of a channel's
    coordinator and agent, whatever the wire brings, the sink and the writer
    answer and the observation queues refuse, no call panics or reports that the
    coordinator's books disagree with the runtime's; the addresses of the
    sessions at rest, of the transfers in the agent's hands, of the one waiting
    to be settled and of those on their way to storage are the registered nodes,
    each once; the session slots are the nodes in order; and what the runtime
    counts as outstanding is its current dispatch and the writes in flight. *)
Theorem sessions_in_one_place policy observability max_nodes seed r channel_id transaction operations quarantine work a
  (s : S) (q : Q) (t : T) (l : L) clock (calls : list (CoordinatorCall E)) :
environment_answers ->
runtime_new policy observability max_nodes seed = Ok r -> u64 seed ->
agent_new transaction operations quarantine work = Ok a -> u32 operations -> 0 <= max_pending_work_items work ->
channel_run_allowed clock calls (channel_new r channel_id a s q t l) ->
let '(xs, w) := channel_run calls (channel_new r channel_id a s q t l) in
let c := ch_coordinator w in
Forall channel_sound xs /\
NoDup (places w) /\ places w ≡ₚ addresses (wc_runtime c) /\
ms_node_address <$> wc_sessions c = addresses (wc_runtime c) /\
outstanding (wc_runtime c) ≡ₚ
  option_list (rt_active_dispatch (wc_runtime c)) ++ write_dispatches (wc_in_flight_writes c) /\
Forall (fun m => forall s, ms_session m = Some s -> session_rest s) (wc_sessions c).
Proof.
intros Henv Hr Hseed Ha Hop Hmax Hall.
pose proof (channel_new_good _ _ _ _ r channel_id _ _ _ _ a s q t l clock Hr Hseed Hop Hmax Ha) as Hg.
pose proof (channel_run_good _ clock calls _ Henv Hg Hall) as Hrun.
destruct (channel_run calls _) as [xs w]. destruct Hrun as [Hxs Hw]. pose proof (ch_coord _ _ _ _ Hw) as Hc.
split_and!; [done| |by eapply good_places|apply Hc|apply Hc|apply Hc].
rewrite (good_places _ _ w Hw). apply (ri_addresses _ (ci_runtime _ _ Hc)).
Qed.

(** ** The shutdown drain *)

Definition needs_no_recovery (r : ChannelRuntime) (address : Z) : bool :=
match runtime_recovery_cause address r with Ok None => true | _ => false end.

Lemma drainable_filter (r : ChannelRuntime) (sessions : list ManagedSession) nodes :
drainable r sessions = Ok nodes -> nodes = List.filter (needs_no_recovery r) (ms_node_address <$> sessions).
Proof.
revert nodes. induction sessions as [|m sessions IH]; intros nodes; cbn [drainable]; [by intros [= <-]|].
intros (cause & Hcause & (rest & Hrest & [= <-])%outcome_bind_Ok)%outcome_bind_Ok.
rewrite fmap_cons. cbn [List.filter]. unfold needs_no_recovery at 1.
destruct (runtime_recovery_cause (ms_node_address m) r) as [x|e|]; try discriminate Hcause. injection Hcause as ->.
rewrite <- (IH rest Hrest). by destruct cause.
Qed.

Lemma begin_drain_nodes (w w1 : Channel) :
channel_step CallBeginDrain w = (Ok ReplyUnit, w1) ->
drain_of w1 = Some (List.filter (needs_no_recovery (wc_runtime (ch_coordinator w)))
                      (ms_node_address <$> wc_sessions (ch_coordinator w))).
Proof.
cbn [channel_step]. unfold replied, alone, zoom, begin_shutdown_drain. cbv [mbind st_bind get].
destruct (_ || _); [done|]. destruct (drainable _ _) as [nodes|e|] eqn:Hn; [|done..].
cbn [lift]. cbv [modify]. cbn [map_err]. intros [= <-]. by apply drainable_filter in Hn as ->.
Qed.

Lemma finish_drain_cases (w w1 : Channel) :
channel_step CallFinishDrain w = (Ok ReplyUnit, w1) ->
drain_of w = Some [] /\ is_quiescent (ch_coordinator w1) = true.
Proof.
cbn [channel_step]. unfold replied, alone, zoom, finish_shutdown_drain. cbv [mbind st_bind get].
destruct (is_shutdown_drain_complete (ch_coordinator w)) eqn:Hc; cbn [negb]; [|done].
cbv [modify]. cbn [map_err]. intros [= <-]. unfold is_shutdown_drain_complete in Hc. unfold drain_of.
destruct (wc_shutdown_drain_nodes _) as [[]|]; try discriminate Hc. by split.
Qed.

(** A drained node whose read ends in recovery stays at the front: selection
    passes over it and no settlement removes it, so nothing after it is read. *)
Lemma recovering_front_stalls_drain (w : Channel) (now : MonotonicMicros) (address : Z) (rest : list Z)
  (cause : RecoveryCause) :
drain_of w = Some (address :: rest) ->
runtime_recovery_cause address (wc_runtime (ch_coordinator w)) = Ok (Some cause) ->
channel_step (CallDispatch now) w = (Ok (ReplyDispatched None), w).
Proof.
destruct w as [[channel_id r sessions d dr dt dl pending writes quiescing drain] a s q t l].
unfold drain_of, runtime_recovery_cause. cbn. intros -> Hcause.
unfold replied, with_agent, dispatch_next_work, dispatch_drain, on_self, on_runtime, select_shutdown_measurement,
  find_node, zoom. cbv [mbind st_bind mret st_ret get lift]. cbn.
destruct (_ || _); [done|]. cbn. destruct (is_some (rt_active_dispatch r)); [done|].
destruct (position _ _) as [[i node]|]; [|done]. cbn in *. injection Hcause as ->. done.
Qed.

(** C7. A shutdown drain reads what it set out to read: it starts with the
    nodes, in the order of their sessions, that need no recovery; the nodes
    whose reads ended without more data are, in order, always a beginning of
    that list; and it finishes only when they are the whole list, with the
    channel quiescent and every session at rest again. *)
Theorem shutdown_drain_exact policy observability max_nodes seed r channel_id transaction operations quarantine work a
  (s : S) (q : Q) (t : T) (l : L) clock (before calls : list (CoordinatorCall E)) (w1 w2 w3 : Channel) xs :
environment_answers ->
runtime_new policy observability max_nodes seed = Ok r -> u64 seed ->
agent_new transaction operations quarantine work = Ok a -> u32 operations -> 0 <= max_pending_work_items work ->
let w0 := snd (channel_run before (channel_new r channel_id a s q t l)) in
channel_run_allowed clock before (channel_new r channel_id a s q t l) ->
channel_step CallBeginDrain w0 = (Ok ReplyUnit, w1) ->
channel_run_allowed (run_clock clock before) calls w1 ->
Forall (fun call => drain_call call = false) calls ->
channel_run calls w1 = (xs, w2) ->
let nodes := List.filter (needs_no_recovery (wc_runtime (ch_coordinator w0))) (addresses (wc_runtime (ch_coordinator w0))) in
no_data_nodes xs `prefix_of` nodes /\
(channel_step CallFinishDrain w2 = (Ok ReplyUnit, w3) ->
 no_data_nodes xs = nodes /\ is_quiescent (ch_coordinator w3) = true /\
 at_rest (wc_sessions (ch_coordinator w3)) ≡ₚ addresses (wc_runtime (ch_coordinator w3))).
Proof.
intros Henv Hr Hseed Ha Hop Hmax w0 Hbefore Hbegin Hall Hd Hrun nodes.
pose proof (channel_new_good _ _ _ _ r channel_id _ _ _ _ a s q t l clock Hr Hseed Hop Hmax Ha) as Hg.
pose proof (channel_run_good _ clock before _ Henv Hg Hbefore) as Hg0.
destruct (channel_run before _) as [xs0 w]. subst w0. cbn [snd] in *. destruct Hg0 as [_ Hg0].
pose proof (begin_drain_nodes w w1 Hbegin) as Hn. rewrite (ci_sessions _ _ (ch_coord _ _ _ _ Hg0)) in Hn. fold nodes in Hn.
pose proof (untimed_good _ _ CallBeginDrain w Henv Hg0 eq_refl I) as [_ Hg1]. rewrite Hbegin in Hg1. cbn [snd] in Hg1.
pose proof (channel_run_drain _ _ calls w1 nodes Henv Hg1 Hall Hd Hn) as Hdrain.
pose proof (channel_run_good _ _ calls w1 Henv Hg1 Hall) as Hg2. rewrite Hrun in Hdrain, Hg2.
destruct Hdrain as (rest & Hrest & Hnodes). destruct Hg2 as [_ Hg2].
split; [by exists rest|]. intros Hfinish. destruct (finish_drain_cases w2 w3 Hfinish) as [Hempty Hq].
pose proof (untimed_good _ _ CallFinishDrain w2 Henv Hg2 eq_refl I) as [_ Hg3]. rewrite Hfinish in Hg3. cbn [snd] in Hg3.
split_and!; [|done|].
- rewrite Hrest in Hempty. injection Hempty as ->. by rewrite app_nil_r in Hnodes.
- by apply (quiescent_books _ _ (ch_coord _ _ _ _ Hg3)).
Qed.
End History.

(** ** An example channel *)

#[local] Instance record_list : DurableMeasurementSink (list PersistenceRecord) unit := {
  persist_chunk hardware_id chunk := modify (fun l => l ++ [RecordChunk hardware_id chunk]);
  persist_gap gap := modify (fun l => l ++ [RecordGap gap]);
  persist_continuity_break observed := modify (fun l => l ++ [RecordContinuityBreak observed])
}.

Abbreviation demo_writer := (BoundedWriter.BoundedPersistenceWorker (list PersistenceRecord) unit).

(** The bounded worker gives a refused envelope back. *)
Lemma worker_gives_back : gives_back (Q:=demo_writer).
Proof.
  intros envelope q _. unfold submit_record, worker_submitter, BoundedWriter.submit. rewrite st_bind_get.
  destruct (BoundedWriter.bw_faulted q); [done|]. destruct (_ <=? _)%nat; [done|].
  unfold checked_add. by destruct (_ <? _).
Qed.

Lemma demo_answers : environment_answers (S:=list PersistenceRecord) (E:=unit) (Q:=demo_writer)
  (T:=RejectingTimeObservationSubmitter) (L:=RejectingTelemetryObservationSubmitter).
Proof.
  split; [|exact worker_gives_back|by intros|by intros].
  intros s record _. by destruct record.
Qed.

Definition demo_session : NodeSession :=
  mkSession sample_hw sample_epoch (mkCursors 20 20 16) Ready None None None None None.

Lemma demo_session_rest : session_rest demo_session.
Proof.
  exists sample_hw, sample_epoch, 20. split; [done|]. split; [vm_compute; split; congruence|].
  by apply (recovered_rel sample_hw sample_epoch 20 16); [ilia|ilia|].
Qed.

Definition demo_world : Channel :=
  channel_new demo_channel 3 sample_agent ([] : list PersistenceRecord)
    (BoundedWriter.mkWorker [] 4 1 [] None [] false : demo_writer) TimeRejecting TelemetryRejecting.

(** What node [node] answers to a pull, and the exchange at time [t]. *)
Definition node_reply (node id : Z) (payload : bytes) : Frame :=
  mkFrame Response HOST_ADDRESS node 2 2 id (payload ++ zeros (MAX_PAYLOAD_BYTES - length payload)) (length payload).
Definition wire_at (t : Z) (reply : Frame) : list (CoordinatorCall unit) :=
  CallAgent <$> send_at t ++ [AReceive (t + 50) reply; APoll (t + 60)].
Definition no_data_payload : bytes :=
  [z2b 0; z2b 1] ++ stream_state_wire (mkStreamState sample_epoch 20 20 20 4096 0).

Definition demo_setup : list (CoordinatorCall unit) :=
  [CallRegister (demo_config 7) demo_session 0; CallRegister (demo_config 8) demo_session 0].

(** A chunk of node 7 is handed to the writer, and its node goes to the wire for
    the second node while the record is on its way. *)
Definition demo_history : list (CoordinatorCall unit) :=
  demo_setup ++ [CallDispatch 10] ++ wire_at 10 (node_reply 7 100 golden_chunk_payload)
  ++ [CallHandoff; CallDispatch 80] ++ (CallAgent <$> send_at 90).

(** Both nodes are read once more after acquisition stopped. *)
Definition demo_drain : list (CoordinatorCall unit) :=
  [CallDispatch 10] ++ wire_at 10 (node_reply 7 100 no_data_payload) ++ [CallSettle 80; CallDispatch 90]
  ++ wire_at 100 (node_reply 8 101 no_data_payload) ++ [CallSettle 170].

Ltac history_by_compute :=
  repeat first [exact I | exact demo_session_rest | done
               | intros ? [= <-]; split; vm_compute; congruence
               | refine (bool_decide_unpack _ _); vm_compute; exact I
               | split]; vm_compute; congruence.

Lemma demo_history_allowed : channel_run_allowed 0 demo_history demo_world.
Proof. history_by_compute. Qed.

Lemma sessions_in_one_place_witness :
  let '(xs, w) := channel_run demo_history demo_world in
  at_rest (wc_sessions (ch_coordinator w)) = [] /\
  mt_node_address <$> held (ch_agent_state w) = [8] /\ length (wc_in_flight_writes (ch_coordinator w)) = 1%nat /\
  places w ≡ₚ [7; 8] /\ Forall channel_sound xs.
Proof.
  pose proof (sessions_in_one_place demo_policy Production 4 7 demo_channel 3 100 1 500 (mkChannelPolicy 1000 200 2 4)
    sample_agent ([] : list PersistenceRecord) (BoundedWriter.mkWorker [] 4 1 [] None [] false : demo_writer)
    TimeRejecting TelemetryRejecting 0 demo_history demo_answers eq_refl ltac:(ilia) eq_refl ltac:(ilia) ltac:(cbn; lia)
    demo_history_allowed) as H.
  change (channel_new _ _ _ _ _ _ _) with demo_world in H.
  assert (at_rest (wc_sessions (ch_coordinator (snd (channel_run demo_history demo_world)))) = [] /\
    mt_node_address <$> held (ch_agent_state (snd (channel_run demo_history demo_world))) = [8] /\
    length (wc_in_flight_writes (ch_coordinator (snd (channel_run demo_history demo_world)))) = 1%nat /\
    addresses (wc_runtime (ch_coordinator (snd (channel_run demo_history demo_world)))) = [7; 8]) as (H1 & H2 & H3 & H4)
    by (vm_compute; split; [|split; [|split]]; reflexivity).
  destruct (channel_run demo_history demo_world) as [xs w]. cbn [snd] in *. destruct H as (Hs & _ & Hp & _).
  rewrite H4 in Hp. split; [exact H1|]. split; [exact H2|]. split; [exact H3|]. split; [exact Hp|exact Hs].
Defined.

Definition demo_ready : Channel := snd (channel_run (demo_setup ++ [CallQuiesce]) demo_world).
Definition demo_draining : Channel := snd (channel_step CallBeginDrain demo_ready).

Lemma demo_drain_allowed : channel_run_allowed 0 demo_drain demo_draining.
Proof. history_by_compute. Qed.

Lemma shutdown_drain_exact_witness :
  let '(xs, w) := channel_run demo_drain demo_draining in
  no_data_nodes xs = [7; 8] /\
  exists w3, channel_step CallFinishDrain w = (Ok ReplyUnit, w3) /\
  at_rest (wc_sessions (ch_coordinator w3)) ≡ₚ [7; 8].
Proof.
  pose proof (shutdown_drain_exact demo_policy Production 4 7 demo_channel 3 100 1 500 (mkChannelPolicy 1000 200 2 4)
    sample_agent ([] : list PersistenceRecord) (BoundedWriter.mkWorker [] 4 1 [] None [] false : demo_writer)
    TimeRejecting TelemetryRejecting 0 (demo_setup ++ [CallQuiesce]) demo_drain demo_draining
    (snd (channel_run demo_drain demo_draining))
    (snd (channel_step CallFinishDrain (snd (channel_run demo_drain demo_draining))))
    (fst (channel_run demo_drain demo_draining))
    demo_answers eq_refl ltac:(ilia) eq_refl ltac:(ilia) ltac:(cbn; lia)) as H.
  cbv zeta in H. change (snd (channel_run (demo_setup ++ [CallQuiesce]) _)) with demo_ready in H.
  specialize (H ltac:(history_by_compute) ltac:(vm_compute; reflexivity) demo_drain_allowed
    ltac:(repeat constructor) ltac:(by destruct (channel_run demo_drain demo_draining))) as [_ H].
  assert (channel_step CallFinishDrain (snd (channel_run demo_drain demo_draining)) =
    (Ok ReplyUnit, snd (channel_step CallFinishDrain (snd (channel_run demo_drain demo_draining))))) as Hfin
    by (vm_compute; reflexivity).
  destruct (H Hfin) as (H1 & _ & H3).
  assert (addresses (wc_runtime (ch_coordinator (snd (channel_step CallFinishDrain (snd (channel_run demo_drain demo_draining))))))
    = [7; 8]) as Ha by (vm_compute; reflexivity).
  rewrite Ha in H3.
  assert (List.filter (needs_no_recovery (wc_runtime (ch_coordinator demo_ready)))
    (addresses (wc_runtime (ch_coordinator demo_ready))) = [7; 8]) as Hn by (vm_compute; reflexivity).
  rewrite Hn in H1. destruct (channel_run demo_drain demo_draining) as [xs w]. cbn [fst snd] in *.
  split; [exact H1|]. eexists. split; [exact Hfin|exact H3].
Defined.
