(* ===== verification/SyncChannel.v ===== *)
(** * Bounded channels between threads (std::sync::mpsc::sync_channel)

    A queue with a bound, one sender and one receiver. The calls that do not
    wait are computations; a call that would have to wait has no next state, so
    that a thread standing before it makes no step. Every bound in the program
    is positive: there is no rendezvous. *)

From S2P Require Import Prelude.

Record SyncChannel (A : Type) := mkSync {
  sc_items : list A;
  sc_bound : nat;
  sc_sender : bool;
  sc_receiver : bool
}.
Arguments mkSync {A}.
Arguments sc_items {A}.
Arguments sc_bound {A}.
Arguments sc_sender {A}.
Arguments sc_receiver {A}.

Inductive TrySendError (A : Type) := SendFull (item : A) | SendDisconnected (item : A).
Arguments SendFull {A}.
Arguments SendDisconnected {A}.

Inductive TryRecvError := RecvEmpty | RecvDisconnected.

Section SyncChannel.
Context {A : Type}.

Definition sync_channel (bound : nat) : SyncChannel A := mkSync [] bound true true.

Definition channel_full (self : SyncChannel A) : bool := (sc_bound self <=? length (sc_items self))%nat.
Definition queue_push (item : A) (self : SyncChannel A) : SyncChannel A :=
mkSync (sc_items self ++ [item]) (sc_bound self) (sc_sender self) (sc_receiver self).
Definition set_items (items : list A) (self : SyncChannel A) : SyncChannel A :=
mkSync items (sc_bound self) (sc_sender self) (sc_receiver self).

Definition drop_sender (self : SyncChannel A) : SyncChannel A :=
mkSync (sc_items self) (sc_bound self) false (sc_receiver self).
(** What was queued is dropped with the receiver. *)
Definition drop_receiver (self : SyncChannel A) : SyncChannel A :=
mkSync [] (sc_bound self) (sc_sender self) false.

(** The calls that never wait. *)
Definition try_send (item : A) : st (SyncChannel A) (TrySendError A) unit := fun self =>
if negb (sc_receiver self) then (Err (SendDisconnected item), self)
else if channel_full self then (Err (SendFull item), self)
else (Ok tt, queue_push item self).

Definition try_recv : st (SyncChannel A) TryRecvError A := fun self =>
match sc_items self with
| item :: items => (Ok item, set_items items self)
| [] => (Err (if sc_sender self then RecvEmpty else RecvDisconnected), self)
end.

(** The calls that wait: [None]. Otherwise whether the item was sent, and the
    item received, if the other end is still there. *)
Definition send (item : A) (self : SyncChannel A) : option (bool * SyncChannel A) :=
if negb (sc_receiver self) then Some (false, self)
else if channel_full self then None
else Some (true, queue_push item self).

Definition recv (self : SyncChannel A) : option (option A * SyncChannel A) :=
match sc_items self with
| item :: items => Some (Some item, set_items items self)
| [] => if sc_sender self then None else Some (None, self)
end.

(** What a channel holds fits its bound. *)
Definition channel_fits (self : SyncChannel A) : Prop := (length (sc_items self) <= sc_bound self)%nat.

Lemma sync_channel_fits bound : channel_fits (sync_channel bound).
Proof. unfold channel_fits. cbn. lia. Qed.

Lemma queue_push_fits item (self : SyncChannel A) : channel_full self = false -> channel_fits (queue_push item self).
Proof. unfold channel_full, channel_fits, queue_push. cbn. rewrite length_app. cbn. intros H%Nat.leb_gt. lia. Qed.

Lemma try_send_cases item (self : SyncChannel A) r self' :
try_send item self = (r, self') ->
match r with
| Ok _ => sc_receiver self = true /\ self' = queue_push item self /\ (channel_fits self -> channel_fits self')
| Err (SendFull x) => x = item /\ self' = self /\ channel_full self = true
| Err (SendDisconnected x) => x = item /\ self' = self /\ sc_receiver self = false
| Panic => False
end.
Proof.
unfold try_send. destruct (sc_receiver self) eqn:Hr; cbn [negb]; [|by intros [= <- <-]].
destruct (channel_full self) eqn:Hf; intros [= <- <-]; [done|].
split_and!; [done|done|]. intros _. by apply queue_push_fits.
Qed.

Lemma try_recv_cases (self self' : SyncChannel A) r :
try_recv self = (r, self') ->
match r with
| Ok item => sc_items self = item :: sc_items self' /\ self' = set_items (sc_items self') self
| Err RecvEmpty => self' = self /\ sc_items self = [] /\ sc_sender self = true
| Err RecvDisconnected => self' = self /\ sc_items self = [] /\ sc_sender self = false
| Panic => False
end.
Proof.
unfold try_recv. destruct (sc_items self) as [|item items] eqn:Hi.
- intros [= <- <-]. by destruct (sc_sender self) eqn:Hs.
- by intros [= <- <-].
Qed.

Lemma send_cases item (self self' : SyncChannel A) sent :
send item self = Some (sent, self') ->
if sent then sc_receiver self = true /\ self' = queue_push item self /\ channel_fits self'
else sc_receiver self = false /\ self' = self.
Proof.
unfold send. destruct (sc_receiver self) eqn:Hr; cbn [negb]; [|by intros [= <- <-]].
destruct (channel_full self) eqn:Hf; intros [= <- <-]. split_and!; [done|done|]. by apply queue_push_fits.
Qed.

Lemma send_waits item (self : SyncChannel A) :
send item self = None -> sc_receiver self = true /\ channel_full self = true.
Proof. unfold send. destruct (sc_receiver self); cbn [negb]; [|done]. by destruct (channel_full self). Qed.

Lemma recv_cases (self self' : SyncChannel A) received :
recv self = Some (received, self') ->
match received with
| Some item => sc_items self = item :: sc_items self' /\ self' = set_items (sc_items self') self
| None => self' = self /\ sc_items self = [] /\ sc_sender self = false
end.
Proof.
unfold recv. destruct (sc_items self) as [|item items] eqn:Hi.
- destruct (sc_sender self) eqn:Hs; [done|]. by intros [= <- <-].
- by intros [= <- <-].
Qed.

Lemma recv_waits (self : SyncChannel A) : recv self = None -> sc_items self = [] /\ sc_sender self = true.
Proof. unfold recv. destruct (sc_items self); [|done]. by destruct (sc_sender self). Qed.

Lemma set_items_fits items (self : SyncChannel A) :
(length items <= length (sc_items self))%nat -> channel_fits self -> channel_fits (set_items items self).
Proof. unfold channel_fits. cbn. lia. Qed.
End SyncChannel.
