(* ===== verification/PersistenceExecutor.v ===== *)
(** * The storage thread of a channel (crates/sensor-host/src/persistence_executor.rs)

    [PersistenceExecutor]: the handle its owner keeps and the thread that owns
    the sink, joined by bounded channels. Both move in any interleaving, one
    channel operation at a time. *)

From Stdlib Require Import Sorted.
From stdpp Require Import relations.
From S2P Require Export SyncChannel.
From S2P Require Import Core NodeSession Persistence WalStorage BoundedWriter GroupedWriter.

Inductive PersistenceExecutorError :=
| ExecutorZeroCapacity
| ExecutorSpawn
| WorkerDisconnected
| RecoveryAlreadyPending
| ManagementRequiresIdle
| ManagementAlreadyPending
| AlreadyShutdown
| WorkerPanicked
| RecoveredSinkUnavailable.

Inductive RecoveryCommand (S : Type) :=
| ReplaceSink (sink : S) (disposition : RecoveryDisposition)
| ShutdownRecovery.
Arguments ReplaceSink {S}.
Arguments ShutdownRecovery {S}.

Record PersistenceShutdown (S E : Type) := mkShutdown {
  sd_sink : S;
  sd_completions : list (WriteCompletion E)
}.
Arguments mkShutdown {S E}.
Arguments sd_sink {S E}.
Arguments sd_completions {S E}.

(** Where the thread stands: at [writes.recv()], at the write of a command, at
    [completions.send(..)], at [recovery.recv()], at its return, before handing
    its sink over, or at its end. *)
Inductive ExecutorThread (S E : Type) :=
| Receiving (sink : S)
| Writing (sink : S) (command : WriteJob)
| Reporting (sink : S) (command : WriteJob) (completion : WriteCompletion E)
| AwaitingRecovery (sink : S) (command : WriteJob)
| Returning (sink : S)
| Leaving (sink : S)
| Exited
| ThreadPanicked.
Arguments Receiving {S E}.
Arguments Writing {S E}.
Arguments Reporting {S E}.
Arguments AwaitingRecovery {S E}.
Arguments Returning {S E}.
Arguments Leaving {S E}.
Arguments Exited {S E}.
Arguments ThreadPanicked {S E}.

(** The handle and the thread. A sender the handle has dropped is [None] in the
    code; [ex_next_job_id] belongs to the handle. *)
Record PersistenceExecutor (S E : Type) := mkExecutor {
  ex_writes : SyncChannel WriteJob;
  ex_recovery : SyncChannel (RecoveryCommand S);
  ex_completions : SyncChannel (WriteCompletion E);
  ex_stopped_sink : SyncChannel S;
  ex_next_job_id : Z;
  ex_thread : ExecutorThread S E
}.
Arguments mkExecutor {S E}.
Arguments ex_writes {S E}.
Arguments ex_recovery {S E}.
Arguments ex_completions {S E}.
Arguments ex_stopped_sink {S E}.
Arguments ex_next_job_id {S E}.
Arguments ex_thread {S E}.

(** What [shutdown] is doing: collecting the completions, joining the thread, or
    done. *)
Inductive ShutdownPhase (S E : Type) :=
| Collecting (completions : list (WriteCompletion E))
| Joining (completions : list (WriteCompletion E))
| ShutDown (result : outcome PersistenceExecutorError (PersistenceShutdown S E)).
Arguments Collecting {S E}.
Arguments Joining {S E}.
Arguments ShutDown {S E}.

Section Executor.
Context {S E : Type} `{DurableMeasurementSink S E}.

Abbreviation executor := (PersistenceExecutor S E).

Definition set_ex_writes (x : SyncChannel WriteJob) (self : executor) : executor :=
mkExecutor x (ex_recovery self) (ex_completions self) (ex_stopped_sink self) (ex_next_job_id self) (ex_thread self).
Definition set_ex_recovery (x : SyncChannel (RecoveryCommand S)) (self : executor) : executor :=
mkExecutor (ex_writes self) x (ex_completions self) (ex_stopped_sink self) (ex_next_job_id self) (ex_thread self).
Definition set_ex_completions (x : SyncChannel (WriteCompletion E)) (self : executor) : executor :=
mkExecutor (ex_writes self) (ex_recovery self) x (ex_stopped_sink self) (ex_next_job_id self) (ex_thread self).
Definition set_ex_stopped (x : SyncChannel S) (self : executor) : executor :=
mkExecutor (ex_writes self) (ex_recovery self) (ex_completions self) x (ex_next_job_id self) (ex_thread self).
Definition set_ex_next (x : Z) (self : executor) : executor :=
mkExecutor (ex_writes self) (ex_recovery self) (ex_completions self) (ex_stopped_sink self) x (ex_thread self).
Definition set_ex_thread (x : ExecutorThread S E) (self : executor) : executor :=
mkExecutor (ex_writes self) (ex_recovery self) (ex_completions self) (ex_stopped_sink self) (ex_next_job_id self) x.

(** ** The handle *)

(** [spawned]: the operating system gave a thread. *)
Definition executor_start (sink : S) (capacity : nat) (spawned : bool) : outcome PersistenceExecutorError executor :=
if (capacity =? 0)%nat then Err ExecutorZeroCapacity
else if negb spawned then Err ExecutorSpawn
else Ok (mkExecutor (sync_channel capacity) (sync_channel 1) (sync_channel (capacity + 1)) (sync_channel 1) 1
           (Receiving sink)).

Definition executor_try_completion : st executor PersistenceExecutorError (option (WriteCompletion E)) := fun self =>
match try_recv (ex_completions self) with
| (Ok completion, completions) => (Ok (Some completion), set_ex_completions completions self)
| (Err RecvEmpty, _) => (Ok None, self)
| (Err RecvDisconnected, _) => (Err WorkerDisconnected, self)
| (Panic, _) => (Panic, self)
end.

Definition executor_replace_recovered_sink (sink : S) (disposition : RecoveryDisposition) :
  st executor PersistenceExecutorError unit := fun self =>
if negb (sc_sender (ex_recovery self)) then (Err AlreadyShutdown, self)
else
  match try_send (ReplaceSink sink disposition) (ex_recovery self) with
  | (Ok _, recovery) => (Ok tt, set_ex_recovery recovery self)
  | (Err (SendFull _), _) => (Err RecoveryAlreadyPending, self)
  | (Err (SendDisconnected _), _) => (Err WorkerDisconnected, self)
  | (Panic, _) => (Panic, self)
  end.

(** A job number is used up even when its record is refused. *)
Definition allocate_job_id : st executor SubmitError (option WriteJobId) := fun self =>
match checked_add 64 (ex_next_job_id self) 1 with
| Some next => (Ok (Some (ex_next_job_id self)), set_ex_next next self)
| None => (Ok None, self)
end.

(** [writes.try_send(..)], the command given back when it is refused. *)
Definition send_command (command : WriteJob) : st executor SubmitError WriteJobId := fun self =>
if negb (sc_sender (ex_writes self)) then (Err (mkSubmitError WorkerFaulted (job_envelope command)), self)
else
  match try_send command (ex_writes self) with
  | (Ok _, writes) => (Ok (job_id command), set_ex_writes writes self)
  | (Err (SendFull command), _) => (Err (mkSubmitError QueueFull (job_envelope command)), self)
  | (Err (SendDisconnected command), _) => (Err (mkSubmitError WorkerFaulted (job_envelope command)), self)
  | (Panic, _) => (Panic, self)
  end.

Definition executor_submit_record (envelope : PersistenceEnvelope) : st executor SubmitError WriteJobId :=
allocated ← allocate_job_id;
id ← lift (ok_or allocated (mkSubmitError JobIdExhausted envelope));
send_command (mkJob id envelope).

(** [recovery.take()], a last [Shutdown] if there is room for it, and
    [writes.take()]. *)
Definition close_inputs (self : executor) : executor :=
let recovery := snd (try_send ShutdownRecovery (ex_recovery self)) in
set_ex_writes (drop_sender (ex_writes self))
  (set_ex_recovery (if sc_sender (ex_recovery self) then drop_sender recovery else ex_recovery self) self).

(** [Drop]: the handle's receivers go with it; the thread is detached. *)
Definition executor_drop (self : executor) : executor :=
let self := close_inputs self in
set_ex_stopped (drop_receiver (ex_stopped_sink self)) (set_ex_completions (drop_receiver (ex_completions self)) self).

(** The waiting part of [shutdown], one operation at a time. *)
Definition shutdown_step (self : executor) (phase : ShutdownPhase S E) : option (executor * ShutdownPhase S E) :=
match phase with
| Collecting completions =>
    match recv (ex_completions self) with
    | Some (Some completion, ch) => Some (set_ex_completions ch self, Collecting (completions ++ [completion]))
    | Some (None, _) => Some (self, Joining completions)
    | None => None
    end
| Joining completions =>
    match ex_thread self with
    | Exited =>
        match recv (ex_stopped_sink self) with
        | Some (Some sink, ch) => Some (set_ex_stopped ch self, ShutDown (Ok (mkShutdown sink completions)))
        | Some (None, _) => Some (self, ShutDown (Err RecoveredSinkUnavailable))
        | None => None
        end
    | ThreadPanicked => Some (self, ShutDown (Err WorkerPanicked))
    | _ => None
    end
| ShutDown _ => None
end.

(** ** The thread *)

(** The channel ends of [run_executor] are dropped when it returns or unwinds. *)
Definition drop_ends (self : executor) : executor :=
set_ex_writes (drop_receiver (ex_writes self))
  (set_ex_recovery (drop_receiver (ex_recovery self))
     (set_ex_completions (drop_sender (ex_completions self)) self)).

Definition after_report (sink : S) (command : WriteJob) (completion : WriteCompletion E) : ExecutorThread S E :=
match completion_result completion with inl _ => Receiving sink | inr _ => AwaitingRecovery sink command end.

(** One operation of the thread; [None] when it waits or has ended. *)
Definition thread_step (self : executor) : option executor :=
match ex_thread self with
| Receiving sink =>
    match recv (ex_writes self) with
    | Some (Some command, ch) => Some (set_ex_thread (Writing sink command) (set_ex_writes ch self))
    | Some (None, _) => Some (set_ex_thread (Returning sink) self)
    | None => None
    end
| Writing sink command =>
    match envelope_persist (job_envelope command) sink with
    | (Ok _, sink) => Some (set_ex_thread (Reporting sink command (completed command)) self)
    | (Err error, sink) =>
        Some (set_ex_thread (Reporting sink command (mkCompletion (job_id command) (inr error))) self)
    | (Panic, _) =>
        Some (set_ex_thread ThreadPanicked (set_ex_stopped (drop_sender (ex_stopped_sink self)) (drop_ends self)))
    end
| Reporting sink command completion =>
    match send completion (ex_completions self) with
    | Some (true, ch) => Some (set_ex_thread (after_report sink command completion) (set_ex_completions ch self))
    | Some (false, _) => Some (set_ex_thread (Returning sink) self)
    | None => None
    end
| AwaitingRecovery sink command =>
    match recv (ex_recovery self) with
    | Some (Some (ReplaceSink recovered ConfirmAlreadyDurable), ch) =>
        Some (set_ex_thread (Reporting recovered command (completed command)) (set_ex_recovery ch self))
    | Some (Some (ReplaceSink recovered RetryUncommitted), ch) =>
        Some (set_ex_thread (Writing recovered command) (set_ex_recovery ch self))
    | Some (Some ShutdownRecovery, ch) => Some (set_ex_thread (Returning sink) (set_ex_recovery ch self))
    | Some (None, _) => Some (set_ex_thread (Returning sink) self)
    | None => None
    end
| Returning sink => Some (set_ex_thread (Leaving sink) (drop_ends self))
| Leaving sink =>
    Some (set_ex_thread Exited (set_ex_stopped (drop_sender (snd (try_send sink (ex_stopped_sink self)))) self))
| Exited | ThreadPanicked => None
end.
End Executor.

(** ** Histories *)

(** What the owner of the handle is doing. *)
Inductive ExecutorOwner (S E : Type) :=
| Owned
| ShuttingDown (phase : ShutdownPhase S E)
| Dropped.
Arguments Owned {S E}.
Arguments ShuttingDown {S E}.
Arguments Dropped {S E}.

(** An executor with its owner, the jobs it has accepted and the completions
    polled before the shutdown. *)
Record executor_state (S E : Type) := mkExecutorState {
  xs_executor : PersistenceExecutor S E;
  xs_owner : ExecutorOwner S E;
  xs_accepted : list WriteJob;
  xs_polled : list (WriteCompletion E)
}.
Arguments mkExecutorState {S E}.
Arguments xs_executor {S E}.
Arguments xs_owner {S E}.
Arguments xs_accepted {S E}.
Arguments xs_polled {S E}.

Section ExecutorHistory.
Context {S E : Type} `{DurableSink S E}.
(** The log of the first sink. *)
Context (log : list PersistenceRecord).

Abbreviation executor := (PersistenceExecutor S E).

(** The jobs the thread has taken and not settled. *)
Definition thread_jobs (t : ExecutorThread S E) : list WriteJob :=
match t with
| Writing _ command | AwaitingRecovery _ command => [command]
| Reporting _ command completion => match completion_result completion with inl _ => [] | inr _ => [command] end
| _ => []
end.
Definition in_hand (t : ExecutorThread S E) : list (WriteCompletion E) :=
match t with Reporting _ _ completion => [completion] | _ => [] end.

Definition collected (o : ExecutorOwner S E) : list (WriteCompletion E) :=
match o with
| ShuttingDown (Collecting completions | Joining completions) => completions
| ShuttingDown (ShutDown (Ok result)) => sd_completions result
| _ => []
end.

(** Every completion so far, in order: seen by the owner, queued, in hand. *)
Definition seen_completions (x : executor_state S E) : list (WriteCompletion E) :=
xs_polled x ++ collected (xs_owner x).
Definition executor_completions (x : executor_state S E) : list (WriteCompletion E) :=
seen_completions x ++ sc_items (ex_completions (xs_executor x)) ++ in_hand (ex_thread (xs_executor x)).

Definition queued_jobs (x : executor) : list WriteJob := thread_jobs (ex_thread x) ++ sc_items (ex_writes x).

(** A recovered sink tells the truth: it holds the settled jobs, and the
    uncertain one if it is said to be durable. *)
Definition recovered (sink : S) (disposition : RecoveryDisposition) (settled : list WriteJob) (command : WriteJob) : Prop :=
holds sink (log_of log (match disposition with
                        | RetryUncommitted => settled
                        | ConfirmAlreadyDurable => settled ++ [command]
                        end)).

Inductive executor_step : executor_state S E -> executor_state S E -> Prop :=
| executor_thread_moves x owner accepted polled x' :
  admits (S:=S) (log ++ map job_record accepted) -> thread_step x = Some x' ->
  executor_step (mkExecutorState x owner accepted polled) (mkExecutorState x' owner accepted polled)
| executor_submits x accepted polled envelope id x' :
  envelope_valid envelope -> executor_submit_record envelope x = (Ok id, x') ->
  executor_step (mkExecutorState x Owned accepted polled)
    (mkExecutorState x' Owned (accepted ++ [mkJob id envelope]) polled)
| executor_refuses x accepted polled envelope error x' :
  executor_submit_record envelope x = (Err error, x') ->
  executor_step (mkExecutorState x Owned accepted polled) (mkExecutorState x' Owned accepted polled)
| executor_polls x accepted polled completion x' :
  executor_try_completion x = (Ok (Some completion), x') ->
  executor_step (mkExecutorState x Owned accepted polled) (mkExecutorState x' Owned accepted (polled ++ [completion]))
| executor_recovers x accepted polled sink disposition lost command settled x' :
  ex_thread x = AwaitingRecovery lost command -> accepted = settled ++ queued_jobs x ->
  recovered sink disposition settled command ->
  executor_replace_recovered_sink sink disposition x = (Ok tt, x') ->
  executor_step (mkExecutorState x Owned accepted polled) (mkExecutorState x' Owned accepted polled)
| executor_shuts_down x accepted polled :
  executor_step (mkExecutorState x Owned accepted polled)
    (mkExecutorState (close_inputs x) (ShuttingDown (Collecting [])) accepted polled)
| executor_collects x phase accepted polled x' phase' :
  shutdown_step x phase = Some (x', phase') ->
  executor_step (mkExecutorState x (ShuttingDown phase) accepted polled)
    (mkExecutorState x' (ShuttingDown phase') accepted polled)
| executor_dropped x accepted polled :
  executor_step (mkExecutorState x Owned accepted polled) (mkExecutorState (executor_drop x) Dropped accepted polled).

Inductive executor_reachable : executor_state S E -> Prop :=
| executor_started sink capacity x :
  holds sink log -> executor_start sink capacity true = Ok x ->
  executor_reachable (mkExecutorState x Owned [] [])
| executor_next x y : executor_reachable x -> executor_step x y -> executor_reachable y.

(** ** The invariant *)

Definition thread_running (t : ExecutorThread S E) : bool :=
match t with Receiving _ | Writing _ _ | Reporting _ _ _ | AwaitingRecovery _ _ => true | _ => false end.
Definition holds_ends (t : ExecutorThread S E) : bool :=
match t with Leaving _ | Exited | ThreadPanicked => false | _ => true end.

(** The thread's sink when it has stopped: about to be handed over, handed over,
    or with the owner. *)
Definition final_sink (x : executor_state S E) : option S :=
match ex_thread (xs_executor x) with
| Returning sink | Leaving sink => Some sink
| Exited =>
    match sc_items (ex_stopped_sink (xs_executor x)) with
    | sink :: _ => Some sink
    | [] => match xs_owner x with ShuttingDown (ShutDown (Ok result)) => Some (sd_sink result) | _ => None end
    end
| _ => None
end.

(** How a thread stops: with everything written, or at a failure it reported
    and nobody recovered. *)
Definition ended (x : executor_state S E) (settled opened : list WriteJob) (sink : S) : Prop :=
(opened = [] /\ holds sink (log_of log settled)) \/
(exists command rest error, opened = command :: rest /\
   list.last (executor_completions x) = Some (mkCompletion (job_id command) (inr error))).

Definition thread_ok (x : executor_state S E) (settled opened : list WriteJob) : Prop :=
match ex_thread (xs_executor x) with
| Receiving sink | Writing sink _ => holds sink (log_of log settled)
| Reporting sink command completion =>
    (completion = completed command /\ holds sink (log_of log settled)) \/
    exists error, completion = mkCompletion (job_id command) (inr error)
| AwaitingRecovery _ command =>
    xs_owner x <> Dropped ->
    exists error, list.last (executor_completions x) = Some (mkCompletion (job_id command) (inr error))
| Returning _ | Leaving _ | Exited =>
    xs_owner x <> Dropped -> exists sink, final_sink x = Some sink /\ ended x settled opened sink
| ThreadPanicked => False
end.

(** A sink waiting to be taken was recovered for the job the thread holds. *)
Definition recovery_ok (x : executor) (settled : list WriteJob) : Prop :=
match sc_items (ex_recovery x) with
| [] | [ShutdownRecovery] => True
| [ReplaceSink sink disposition] =>
    exists lost command, ex_thread x = AwaitingRecovery lost command /\ recovered sink disposition settled command
| _ => False
end.

Definition owner_ok (x : executor) (o : ExecutorOwner S E) : Prop :=
match o with
| Owned => sc_sender (ex_writes x) = true /\ sc_sender (ex_recovery x) = true /\
           sc_receiver (ex_completions x) = true /\ sc_receiver (ex_stopped_sink x) = true /\
           thread_running (ex_thread x) = true /\ sc_items (ex_recovery x) <> [ShutdownRecovery]
| Dropped => sc_sender (ex_writes x) = false /\ sc_sender (ex_recovery x) = false /\
             sc_receiver (ex_completions x) = false
| ShuttingDown phase =>
    sc_sender (ex_writes x) = false /\ sc_sender (ex_recovery x) = false /\
    sc_receiver (ex_completions x) = true /\ sc_receiver (ex_stopped_sink x) = true /\
    match phase with
    | Collecting _ => True
    | Joining _ => holds_ends (ex_thread x) = false /\ sc_items (ex_completions x) = []
    | ShutDown result => ex_thread x = Exited /\ sc_items (ex_completions x) = [] /\
                         sc_items (ex_stopped_sink x) = [] /\ exists r, result = Ok r
    end
end.

Record executor_inv (x : executor_state S E) (settled opened : list WriteJob) : Prop := {
  xi_split : xs_accepted x = settled ++ opened;
  xi_open : thread_running (ex_thread (xs_executor x)) = true -> opened = queued_jobs (xs_executor x);
  xi_settle : xs_owner x <> Dropped -> settle (xs_accepted x) (executor_completions x) = Some opened;
  xi_valid : Forall (fun j => envelope_valid (job_envelope j)) (xs_accepted x);
  xi_ids : StronglySorted Z.lt (map job_id (xs_accepted x));
  xi_next : Forall (fun j => 1 <= job_id j < ex_next_job_id (xs_executor x)) (xs_accepted x);
  xi_range : 1 <= ex_next_job_id (xs_executor x) < 2 ^ 64;
  xi_thread : thread_ok x settled opened;
  xi_recovery : recovery_ok (xs_executor x) settled;
  xi_owner : owner_ok (xs_executor x) (xs_owner x);
  xi_ends : sc_receiver (ex_writes (xs_executor x)) = holds_ends (ex_thread (xs_executor x)) /\
            sc_receiver (ex_recovery (xs_executor x)) = holds_ends (ex_thread (xs_executor x)) /\
            sc_sender (ex_completions (xs_executor x)) = holds_ends (ex_thread (xs_executor x));
  xi_stopped : match ex_thread (xs_executor x) with
               | Exited => sc_sender (ex_stopped_sink (xs_executor x)) = false
               | _ => sc_items (ex_stopped_sink (xs_executor x)) = []
               end /\ sc_bound (ex_stopped_sink (xs_executor x)) = 1%nat /\ channel_fits (ex_stopped_sink (xs_executor x));
  xi_fits : channel_fits (ex_writes (xs_executor x)) /\ channel_fits (ex_recovery (xs_executor x)) /\
            channel_fits (ex_completions (xs_executor x));
  xi_bounds : sc_bound (ex_recovery (xs_executor x)) = 1%nat /\
              (0 < sc_bound (ex_writes (xs_executor x)))%nat /\
              sc_bound (ex_completions (xs_executor x)) = (sc_bound (ex_writes (xs_executor x)) + 1)%nat
}.

Lemma executor_start_inv sink capacity x :
holds sink log -> executor_start sink capacity true = Ok x -> executor_inv (mkExecutorState x Owned [] []) [] [].
Proof.
intros Hsink. unfold executor_start. destruct (Nat.eqb_spec capacity 0) as [|Hcap]; [done|]. cbn [negb].
intros [= <-]. split; cbn; try done; try (split_and!; done).
- constructor.
- unfold thread_ok. cbn. unfold log_of. by rewrite app_nil_r.
- split_and!; [done|done|apply sync_channel_fits].
- split_and!; apply sync_channel_fits.
- split_and!; [done|lia|done].
Qed.

Ltac executor_cbn :=
unfold thread_ok, recovery_ok, ended, final_sink, executor_completions, seen_completions, queued_jobs in *;
cbn [xs_executor xs_owner xs_accepted xs_polled ex_writes ex_recovery ex_completions ex_stopped_sink ex_next_job_id
  ex_thread sc_items sc_bound sc_sender sc_receiver set_ex_thread set_ex_writes set_ex_recovery set_ex_completions
  set_ex_stopped set_ex_next drop_ends drop_sender drop_receiver set_items queue_push thread_running holds_ends
  thread_jobs in_hand app collected] in *.

(** With no sink waiting to be taken. *)
Lemma no_replacement (x : executor) settled :
recovery_ok x settled -> (forall sink command, ex_thread x <> AwaitingRecovery sink command) ->
sc_items (ex_recovery x) = [] \/ sc_items (ex_recovery x) = [ShutdownRecovery].
Proof.
unfold recovery_ok. destruct (sc_items (ex_recovery x)) as [|[] []]; try done; [by left| |by right].
intros (lost & command & Ht & _) Hno. by destruct (Hno lost command).
Qed.

(** Opens an executor into its parts. *)
Ltac open_executor x :=
destruct x as [[wi wb ws wr] [ri rb rs rr] [ci cb cs cr] [si sb ss sr] next t].

Ltac fits := unfold channel_fits in *; executor_cbn; rewrite ?length_app; cbn [length] in *; lia.
Ltac owner_cases owner := destruct owner as [|[| |]|]; unfold owner_ok in *; cbn in *; try done; try tauto; try (intuition congruence).

Lemma settle_snoc jobs opened rest (seen queued : list (WriteCompletion E)) c :
settle jobs (seen ++ queued ++ []) = Some opened -> settle opened [c] = Some rest ->
settle jobs (seen ++ queued ++ [c]) = Some rest.
Proof. rewrite app_nil_r. intros Hs Hc. by rewrite app_assoc, settle_app, Hs. Qed.

Lemma receiving_inv x owner accepted polled settled opened sink x' :
ex_thread x = Receiving sink -> executor_inv (mkExecutorState x owner accepted polled) settled opened ->
thread_step x = Some x' -> executor_inv (mkExecutorState x' owner accepted polled) settled opened.
Proof.
intros Ht Hinv. unfold thread_step. rewrite Ht. pose proof Hinv as [].
assert (Hrec : sc_items (ex_recovery x) = [] \/ sc_items (ex_recovery x) = [ShutdownRecovery]).
{ eapply no_replacement; [done|]. cbn. by rewrite Ht. }
open_executor x. cbn in Ht. subst t. executor_cbn.
specialize (xi_open0 eq_refl). subst opened. unfold recv. executor_cbn.
destruct wi as [|command wi]; [destruct ws; [done|]|]; intros [= <-]; split; executor_cbn; try done.
- intros Ho. exists sink. split; [done|]. by left.
- by destruct Hrec as [-> | ->].
- owner_cases owner.
- by destruct Hrec as [-> | ->].
- owner_cases owner.
- fits.
Qed.

Lemma writing_inv x owner accepted polled settled opened sink command x' :
admits (S:=S) (log ++ map job_record accepted) ->
ex_thread x = Writing sink command -> executor_inv (mkExecutorState x owner accepted polled) settled opened ->
thread_step x = Some x' -> exists settled' opened', executor_inv (mkExecutorState x' owner accepted polled) settled' opened'.
Proof.
intros Hadm Ht Hinv. unfold thread_step. rewrite Ht. pose proof Hinv as [].
assert (Hrec : sc_items (ex_recovery x) = [] \/ sc_items (ex_recovery x) = [ShutdownRecovery]).
{ eapply no_replacement; [done|]. cbn. by rewrite Ht. }
open_executor x. cbn in Ht. subst t. executor_cbn. specialize (xi_open0 eq_refl). subst opened.
assert (Hjob : envelope_valid (job_envelope command)).
{ rewrite xi_split0 in xi_valid0. apply Forall_app in xi_valid0 as (_ & Hv). by inversion Hv. }
assert (Hadm' : admits (S:=S) (log_of log settled ++ [job_record command])).
{ apply (admits_prefix _ (map job_record wi)). unfold log_of. rewrite xi_split0, map_app in Hadm.
  by rewrite <- !app_assoc. }
pose proof (persist_durable sink (log_of log settled) (job_record command) xi_thread0 (proj1 Hjob) Hadm') as Hp.
unfold envelope_persist. fold (job_record command).
destruct (persist_record (job_record command) sink) as [[u|error|] sink']; [| |done]; intros [= <-].
- exists (settled ++ [command]), wi. split; executor_cbn; try done.
  + by rewrite <- app_assoc.
  + intros Ho. eapply settle_snoc; [by apply xi_settle0|apply settle_ok].
  + left. split; [done|]. by rewrite log_of_snoc.
  + by destruct Hrec as [-> | ->].
  + owner_cases owner.
- exists settled, (command :: wi). split; executor_cbn; try done.
  + intros Ho. eapply settle_snoc; [by apply xi_settle0|apply settle_err].
  + right. by eexists.
  + by destruct Hrec as [-> | ->].
  + owner_cases owner.
Qed.

Lemma reporting_inv x owner accepted polled settled opened sink command completion x' :
ex_thread x = Reporting sink command completion ->
executor_inv (mkExecutorState x owner accepted polled) settled opened ->
thread_step x = Some x' -> executor_inv (mkExecutorState x' owner accepted polled) settled opened.
Proof.
intros Ht Hinv. unfold thread_step. rewrite Ht. pose proof Hinv as [].
assert (Hrec : sc_items (ex_recovery x) = [] \/ sc_items (ex_recovery x) = [ShutdownRecovery]).
{ eapply no_replacement; [done|]. cbn. by rewrite Ht. }
open_executor x. cbn in Ht. subst t. unfold after_report, send, channel_full. executor_cbn.
specialize (xi_open0 eq_refl). subst opened.
destruct cr; cbn [negb].
- destruct (Nat.leb_spec cb (length ci)) as [|Hroom]; intros [= <-].
  destruct xi_thread0 as [[-> Hsink]|(error & ->)]; cbn [completion_result completed] in *; split; executor_cbn; try done;
    try (by destruct Hrec as [-> | ->]); try (by owner_cases owner); try fits.
  all: try (intros Ho; specialize (xi_settle0 Ho); by rewrite app_nil_r).
  intros _. exists error. by rewrite app_nil_r, app_assoc, last_snoc.
- intros [= <-]. assert (owner = Dropped) as -> by (destruct owner as [|[| |]|]; cbn in xi_owner0; intuition congruence).
  split; executor_cbn; try done. by destruct Hrec as [-> | ->].
Qed.

Lemma awaiting_inv x owner accepted polled settled opened sink command x' :
ex_thread x = AwaitingRecovery sink command ->
executor_inv (mkExecutorState x owner accepted polled) settled opened ->
thread_step x = Some x' -> exists settled' opened', executor_inv (mkExecutorState x' owner accepted polled) settled' opened'.
Proof.
intros Ht Hinv. unfold thread_step. rewrite Ht. pose proof Hinv as [].
open_executor x. cbn in Ht. subst t. unfold recv. executor_cbn.
specialize (xi_open0 eq_refl). subst opened.
assert (Hend : owner <> Dropped -> exists lost, Some sink = Some lost /\
  ((command :: wi = [] /\ holds lost (log_of log settled)) \/
   exists command0 rest error, command :: wi = command0 :: rest /\
     list.last ((polled ++ collected owner) ++ ci ++ []) = Some (mkCompletion (job_id command0) (inr error)))).
{ intros Ho. exists sink. split; [done|]. right. destruct (xi_thread0 Ho) as [error He]. by exists command, wi, error. }
destruct ri as [|[recovered_sink [|]|] []]; [destruct rs; [done|]|..]; try done; intros [= <-].
- exists settled, (command :: wi). split; executor_cbn; try done. owner_cases owner.
- destruct xi_recovery0 as (lost & command' & [= _ <-] & Hs).
  exists settled, (command :: wi). split; executor_cbn; try done; [owner_cases owner|fits].
- destruct xi_recovery0 as (lost & command' & [= _ <-] & Hs).
  exists (settled ++ [command]), wi. split; executor_cbn; try done; [| | |owner_cases owner|fits].
  + by rewrite <- app_assoc.
  + intros Ho. eapply settle_snoc; [by apply xi_settle0|apply settle_ok].
  + by left.
- exists settled, (command :: wi). split; executor_cbn; try done; [owner_cases owner|fits].
Qed.

Lemma leaving_inv x owner accepted polled settled opened sink x' :
ex_thread x = Returning sink \/ ex_thread x = Leaving sink ->
executor_inv (mkExecutorState x owner accepted polled) settled opened ->
thread_step x = Some x' -> executor_inv (mkExecutorState x' owner accepted polled) settled opened.
Proof.
intros Ht Hinv. unfold thread_step. pose proof Hinv as [].
assert (Hrec : sc_items (ex_recovery x) = [] \/ sc_items (ex_recovery x) = [ShutdownRecovery]).
{ eapply no_replacement; [done|]. cbn. by destruct Ht as [-> | ->]. }
open_executor x. cbn in Ht. destruct Ht as [-> | ->]; cbn [ex_thread]; intros [= <-].
- split; executor_cbn; try done; [owner_cases owner|fits].
- executor_cbn. destruct xi_stopped0 as (-> & -> & Hsf).
  assert (snd (try_send sink (mkSync [] 1 ss sr)) = mkSync (if sr then [sink] else []) 1 ss sr) as -> by by destruct sr.
  executor_cbn. split; executor_cbn; try done.
  + intros Ho. assert (sr = true) as -> by (destruct owner as [|[| |]|]; cbn in xi_owner0; tauto).
    destruct (xi_thread0 Ho) as (s & [= <-] & He). by exists sink.
  + by destruct Hrec as [-> | ->].
  + destruct owner as [|[| |]|]; unfold owner_ok in *; cbn in *; [tauto..| |tauto].
    by destruct xi_owner0 as (_ & _ & _ & _ & ? & _).
  + split_and!; [done|done|]. unfold channel_fits. destruct sr; cbn; lia.
Qed.

Lemma thread_moves_inv x owner accepted polled settled opened x' :
admits (S:=S) (log ++ map job_record accepted) ->
executor_inv (mkExecutorState x owner accepted polled) settled opened -> thread_step x = Some x' ->
exists settled' opened', executor_inv (mkExecutorState x' owner accepted polled) settled' opened'.
Proof.
intros Hadm Hinv Hstep. destruct (ex_thread x) as [sink|sink command|sink command completion|sink command|sink|sink| |] eqn:Ht.
- exists settled, opened. by eapply receiving_inv.
- by eapply writing_inv.
- exists settled, opened. by eapply reporting_inv.
- by eapply awaiting_inv.
- exists settled, opened. eapply leaving_inv; eauto.
- exists settled, opened. eapply leaving_inv; eauto.
- unfold thread_step in Hstep. by rewrite Ht in Hstep.
- unfold thread_step in Hstep. by rewrite Ht in Hstep.
Qed.

(** A submission: the number is fresh, and an accepted record joins the queue. *)
Lemma submit_cases envelope (x x' : executor) r :
executor_submit_record envelope x = (r, x') ->
match r with
| Ok id => id = ex_next_job_id x /\ id + 1 < 2 ^ 64 /\ channel_full (ex_writes x) = false /\
    x' = set_ex_writes (queue_push (mkJob id envelope) (ex_writes x)) (set_ex_next (id + 1) x)
| Err error => se_envelope error = envelope /\
    (x' = x \/ (ex_next_job_id x + 1 < 2 ^ 64 /\ x' = set_ex_next (ex_next_job_id x + 1) x))
| Panic => False
end.
Proof.
unfold executor_submit_record, allocate_job_id. cbv [mbind st_bind].
destruct (checked_add 64 (ex_next_job_id x) 1) as [next|] eqn:Hn; cbn [lift ok_or].
2: { intros [= <- <-]. by split; [|left]. }
apply checked_add_Some in Hn as (-> & Hn).
unfold send_command, try_send. cbn [set_ex_next ex_writes job_id job_envelope].
destruct (sc_sender (ex_writes x)); cbn [negb]; [|intros [= <- <-]; split; [done|by right]].
destruct (sc_receiver (ex_writes x)); cbn [negb]; [|intros [= <- <-]; split; [done|by right]].
destruct (channel_full (ex_writes x)); intros [= <- <-]; [split; [done|by right]|done].
Qed.

Lemma increasing_snoc (l : list Z) (n : Z) :
StronglySorted Z.lt l -> Forall (fun k => k < n) l -> StronglySorted Z.lt (l ++ [n]).
Proof.
induction 1 as [|k l Hl IH Hk]; intros Hn; cbn; [by repeat constructor|].
apply Forall_cons_1 in Hn as [Hkn Hn]. constructor; [by apply IH|]. apply Forall_app. by repeat constructor.
Qed.

Lemma ids_below (jobs : list WriteJob) (n : Z) :
Forall (fun j => 1 <= job_id j < n) jobs -> Forall (fun k => k < n) (map job_id jobs).
Proof. induction 1; cbn; constructor; [lia|done]. Qed.

Lemma submits_inv x accepted polled settled opened envelope id x' :
executor_inv (mkExecutorState x Owned accepted polled) settled opened -> envelope_valid envelope ->
executor_submit_record envelope x = (Ok id, x') ->
executor_inv (mkExecutorState x' Owned (accepted ++ [mkJob id envelope]) polled) settled (opened ++ [mkJob id envelope]).
Proof.
intros Hinv Hval Hs. apply submit_cases in Hs as (-> & Hnext & Hroom & ->). pose proof Hinv as [].
open_executor x. executor_cbn. unfold channel_full in Hroom. cbn in Hroom. apply Nat.leb_gt in Hroom.
split; executor_cbn; try done.
- by rewrite xi_split0, app_assoc.
- intros Hr. by rewrite (xi_open0 Hr), app_assoc.
- intros Ho. by apply settle_more, xi_settle0.
- apply Forall_app. split; [done|]. by apply Forall_singleton.
- rewrite map_app. apply increasing_snoc; [done|]. by apply ids_below.
- apply Forall_app. split; [eapply List.Forall_impl; [|exact xi_next0]; cbn; lia|]. repeat constructor; cbn; lia.
- lia.
- destruct xi_owner0 as (_ & _ & _ & _ & Hrun & _). by destruct t.
- fits.
Qed.

Lemma refuses_inv x accepted polled settled opened envelope error x' :
executor_inv (mkExecutorState x Owned accepted polled) settled opened ->
executor_submit_record envelope x = (Err error, x') ->
executor_inv (mkExecutorState x' Owned accepted polled) settled opened.
Proof.
intros Hinv Hs. apply submit_cases in Hs as (_ & [-> | [Hnext ->]]); [done|]. pose proof Hinv as [].
open_executor x. executor_cbn. split; executor_cbn; try done; [|lia]. eapply List.Forall_impl; [|exact xi_next0]. cbn. lia.
Qed.

Lemma polls_inv x accepted polled settled opened completion x' :
executor_inv (mkExecutorState x Owned accepted polled) settled opened ->
executor_try_completion x = (Ok (Some completion), x') ->
executor_inv (mkExecutorState x' Owned accepted (polled ++ [completion])) settled opened.
Proof.
intros Hinv. pose proof Hinv as []. unfold executor_try_completion, try_recv.
open_executor x. executor_cbn. destruct ci as [|c ci]; [by destruct cs|]. intros [= <- <-].
split; executor_cbn; try done.
- intros Ho. specialize (xi_settle0 Ho). rewrite app_nil_r in *. by rewrite <- app_assoc.
- destruct t; rewrite ?app_nil_r, <- ?app_assoc in *; done.
- fits.
Qed.

Lemma recovers_inv x accepted polled settled opened sink disposition lost command settled' x' :
executor_inv (mkExecutorState x Owned accepted polled) settled opened ->
ex_thread x = AwaitingRecovery lost command -> accepted = settled' ++ queued_jobs x ->
recovered sink disposition settled' command -> executor_replace_recovered_sink sink disposition x = (Ok tt, x') ->
executor_inv (mkExecutorState x' Owned accepted polled) settled opened.
Proof.
intros Hinv Ht Hacc Htrue. pose proof Hinv as []. unfold executor_replace_recovered_sink, try_send, channel_full.
open_executor x. cbn in Ht. subst t. executor_cbn. specialize (xi_open0 eq_refl). subst opened.
assert (settled' = settled) as -> by (rewrite Hacc in xi_split0; by simplify_list_eq).
destruct xi_bounds0 as (-> & Hwb & Hcb). destruct rs, rr; cbn [negb]; try done.
destruct ri as [|? [|? ?]]; cbn [length Nat.leb]; try done. intros [= <-].
split; executor_cbn; try done; [by exists lost, command| |by fits].
by destruct xi_owner0 as (? & ? & ? & ? & ? & ?).
Qed.

(** What closing the inputs does to the recovery channel. *)
Lemma close_recovery (ch : SyncChannel (RecoveryCommand S)) :
sc_bound ch = 1%nat -> channel_fits ch ->
let ch' := if sc_sender ch then drop_sender (snd (try_send ShutdownRecovery ch)) else ch in
sc_sender ch' = false /\ sc_receiver ch' = sc_receiver ch /\ sc_bound ch' = 1%nat /\ channel_fits ch' /\
(sc_items ch' = sc_items ch \/ (sc_items ch = [] /\ sc_items ch' = [ShutdownRecovery])).
Proof.
destruct ch as [items bound sender receiver]. unfold try_send, channel_full, channel_fits. cbn. intros -> Hfit.
destruct sender, receiver, items as [|c [|]]; cbn in *; split_and!; try done; try lia; by (left + (right; done)).
Qed.

Lemma close_inputs_inv x accepted polled settled opened :
executor_inv (mkExecutorState x Owned accepted polled) settled opened ->
executor_inv (mkExecutorState (close_inputs x) (ShuttingDown (Collecting [])) accepted polled) settled opened.
Proof.
intros Hinv. pose proof Hinv as []. destruct xi_bounds0 as (Hrb & Hwb & Hcb).
destruct (close_recovery (ex_recovery x) Hrb (proj1 (proj2 xi_fits0))) as (Hs & Hr & Hb & Hf & Hi).
unfold close_inputs. set (ch := if sc_sender (ex_recovery x) then _ else _) in *.
destruct xi_owner0 as (How & Hor & Hoc & Hos & Hrun & Hno).
open_executor x. executor_cbn. split; executor_cbn; try done.
- intros _. by apply xi_settle0.
- destruct t; done || (intros _; by apply xi_thread0).
- destruct Hi as [-> | [-> ->]]; [by destruct ri as [|[] []]|done].
- by rewrite Hr.
- unfold channel_fits in *. executor_cbn. tauto.
Qed.

Lemma collects_inv x phase accepted polled settled opened x' phase' :
executor_inv (mkExecutorState x (ShuttingDown phase) accepted polled) settled opened ->
shutdown_step x phase = Some (x', phase') ->
executor_inv (mkExecutorState x' (ShuttingDown phase') accepted polled) settled opened.
Proof.
intros Hinv. pose proof Hinv as []. unfold shutdown_step, recv. open_executor x. executor_cbn.
destruct xi_owner0 as (How & Hor & Hoc & Hos & Hph). executor_cbn. subst cr ws rs.
assert (Ho : ShuttingDown phase <> Dropped) by done. specialize (xi_settle0 Ho).
destruct phase as [cs'|cs'|]; [| |done]; executor_cbn.
- destruct ci as [|c ci]; [destruct cs; [done|]|]; intros [= <- <-].
  + split; executor_cbn; try done; [by destruct t; try done; intros _; apply xi_thread0|]. destruct xi_ends0 as (_ & _ & He). cbn. by rewrite <- He.
  + assert (Hall : forall h, (polled ++ cs' ++ [c]) ++ ci ++ h = (polled ++ cs') ++ (c :: ci) ++ h)
      by (intros; by rewrite <- !app_assoc).
    split; executor_cbn; rewrite ?Hall; try done; [|fits].
    by destruct t; rewrite ?Hall; try done; intros _; apply xi_thread0.
- destruct Hph as [He ->]. destruct t; cbn in He; try done.
  destruct xi_stopped0 as (-> & Hsb & Hsf). destruct (xi_thread0 Ho) as (sink & Hfin & Hend).
  destruct si as [|s si]; [done|]. injection Hfin as ->. intros [= <- <-].
  assert (si = []) as -> by (unfold channel_fits in Hsf; cbn in *; destruct si; [done|cbn in *; lia]).
  split; executor_cbn; try done.
  + intros _. exists sink. by split.
  + split_and!; try done. by eexists.
  + split_and!; [done|done|]. unfold channel_fits. cbn. lia.
Qed.

Lemma dropped_inv x accepted polled settled opened :
executor_inv (mkExecutorState x Owned accepted polled) settled opened ->
executor_inv (mkExecutorState (executor_drop x) Dropped accepted polled) settled opened.
Proof.
intros Hinv. pose proof Hinv as []. destruct xi_bounds0 as (Hrb & Hwb & Hcb).
destruct (close_recovery (ex_recovery x) Hrb (proj1 (proj2 xi_fits0))) as (Hs & Hr & Hb & Hf & Hi).
unfold executor_drop, close_inputs. set (ch := if sc_sender (ex_recovery x) then _ else _) in *.
destruct xi_owner0 as (How & Hor & Hoc & Hos & Hrun & Hno).
open_executor x. executor_cbn. split; executor_cbn; try done.
- by destruct t.
- destruct Hi as [-> | [-> ->]]; [by destruct ri as [|[] []]|done].
- by rewrite Hr.
- split_and!; [|apply xi_stopped0|unfold channel_fits; cbn; lia]. by destruct t.
- unfold channel_fits in *. executor_cbn. cbn. split_and!; [tauto|tauto|lia].
Qed.

Lemma executor_reachable_inv x : executor_reachable x -> exists settled opened, executor_inv x settled opened.
Proof.
induction 1 as [sink capacity x Hsink Hstart|x y _ (settled & opened & IH) Hstep].
{ exists [], []. by eapply executor_start_inv. }
destruct Hstep.
- by eapply thread_moves_inv.
- do 2 eexists. by eapply submits_inv.
- do 2 eexists. by eapply refuses_inv.
- do 2 eexists. by eapply polls_inv.
- do 2 eexists. by eapply recovers_inv.
- do 2 eexists. by eapply close_inputs_inv.
- do 2 eexists. by eapply collects_inv.
- do 2 eexists. by eapply dropped_inv.
Qed.

(** ** Waiting *)

(** A thread that makes no step waits for work, for room among the completions
    or for a recovered sink; or it has ended. *)
Lemma thread_waits (x : executor) :
thread_step x = None ->
match ex_thread x with
| Receiving _ => sc_items (ex_writes x) = [] /\ sc_sender (ex_writes x) = true
| Reporting _ _ _ => sc_receiver (ex_completions x) = true /\ channel_full (ex_completions x) = true
| AwaitingRecovery _ _ => sc_items (ex_recovery x) = [] /\ sc_sender (ex_recovery x) = true
| Exited | ThreadPanicked => True
| _ => False
end.
Proof.
unfold thread_step. destruct (ex_thread x) as [sink|sink command|sink command completion|sink command|sink|sink| |]; try done.
- destruct (recv (ex_writes x)) as [[[]]|] eqn:Hr; try done. intros _. by apply recv_waits.
- by destruct (envelope_persist _ _) as [[]].
- destruct (send _ _) as [[[]]|] eqn:Hs; try done. intros _. by eapply send_waits.
- destruct (recv (ex_recovery x)) as [[[[? []|]|]]|] eqn:Hr; try done. intros _. by apply recv_waits.
Qed.

(** ** Termination *)

Definition thread_weight (t : ExecutorThread S E) : nat :=
match t with
| Writing _ _ => 6 | Reporting _ _ _ => 5 | Receiving _ | AwaitingRecovery _ _ => 3
| Returning _ => 2 | Leaving _ => 1 | Exited | ThreadPanicked => 0
end.
Definition phase_weight (phase : ShutdownPhase S E) : nat :=
match phase with Collecting _ => 2 | Joining _ => 1 | ShutDown _ => 0 end.
Definition executor_weight (x : executor) : nat :=
(4 * length (sc_items (ex_writes x)) + 4 * length (sc_items (ex_recovery x)) + length (sc_items (ex_completions x))
 + thread_weight (ex_thread x))%nat.

Lemma thread_step_weight (x x' : executor) :
thread_step x = Some x' ->
(executor_weight x' < executor_weight x)%nat /\
sc_bound (ex_writes x') = sc_bound (ex_writes x).
Proof.
unfold thread_step, executor_weight, recv, send, channel_full, after_report. open_executor x. executor_cbn.
destruct t as [sink|sink command|sink command completion|sink command|sink|sink| |]; try done.
- destruct wi as [|command wi]; [destruct ws; [done|]|]; intros [= <-]; cbn; lia.
- destruct (envelope_persist _ _) as [[]]; intros [= <-]; cbn; lia.
- destruct cr; cbn [negb]; [|intros [= <-]; cbn; lia].
  destruct (cb <=? length ci)%nat; intros [= <-]. executor_cbn. rewrite length_app.
  destruct (completion_result completion); cbn; lia.
- destruct ri as [|[? []|] ri]; [destruct rs; [done|]|..]; intros [= <-]; cbn; lia.
- intros [= <-]. cbn. lia.
- intros [= <-]. cbn. lia.
Qed.

Lemma shutdown_step_weight (x x' : executor) phase phase' :
shutdown_step x phase = Some (x', phase') ->
(executor_weight x' + phase_weight phase' < executor_weight x + phase_weight phase)%nat /\
sc_bound (ex_writes x') = sc_bound (ex_writes x).
Proof.
unfold shutdown_step, executor_weight, recv. open_executor x. executor_cbn.
destruct phase as [cs'|cs'|]; [| |done].
- destruct ci as [|c ci]; [destruct cs; [done|]|]; intros [= <- <-]; cbn; lia.
- destruct t; try done; [|intros [= <- <-]; cbn; lia].
  destruct si as [|sink si]; [destruct ss; [done|]|]; intros [= <- <-]; cbn; lia.
Qed.

(** A shutdown under way is never stuck. *)
Lemma shutdown_moves x phase accepted polled settled opened :
executor_inv (mkExecutorState x (ShuttingDown phase) accepted polled) settled opened ->
(forall result, phase <> ShutDown result) -> thread_step x <> None \/ shutdown_step x phase <> None.
Proof.
intros Hinv Hphase. destruct (thread_step x) as [x'|] eqn:Hstep; [by left|right].
apply thread_waits in Hstep. pose proof Hinv as []. open_executor x. executor_cbn. unfold shutdown_step, recv, channel_full in *.
destruct xi_owner0 as (How & Hor & Hoc & Hos & Hph). executor_cbn. subst ws rs cr. destruct xi_bounds0 as (_ & Hwb & Hcb).
destruct phase as [cs'|cs'|result]; [| |by destruct (Hphase result)].
- destruct ci as [|c ci]; [|done]. destruct xi_ends0 as (_ & _ & He).
  destruct t; try done; [by destruct Hstep|by destruct Hstep as [_ ?%Nat.leb_le]; cbn in *; lia|by destruct Hstep|..]; by rewrite He.
- destruct Hph as [He _]. destruct t; try done. destruct xi_stopped0 as [-> _].
  destruct si; done.
Qed.

(** A shutdown only moves the thread and collects. *)
Lemma shutdown_run k x phase y :
xs_owner x = ShuttingDown phase -> nsteps executor_step k x y ->
exists phase', xs_owner y = ShuttingDown phase' /\ xs_accepted y = xs_accepted x /\ xs_polled y = xs_polled x /\
  (k + executor_weight (xs_executor y) + phase_weight phase' <= executor_weight (xs_executor x) + phase_weight phase)%nat.
Proof.
intros Ho Hrun. revert phase Ho. induction Hrun as [x|k x y z Hstep Hrun IH]; intros phase Ho.
{ exists phase. split_and!; [done..|lia]. }
destruct Hstep as [x owner accepted polled x' _ Hmove|x|x|x|x|x|x phase0 accepted polled x' phase' Hmove|x];
  cbn [xs_owner xs_executor xs_accepted xs_polled] in *; try done; subst.
- destruct (thread_step_weight _ _ Hmove) as [Hw _]. destruct (IH phase eq_refl) as (phase' & H1 & H2 & H3 & H4).
  exists phase'. split_and!; [done..|lia].
- injection Ho as ->. destruct (shutdown_step_weight _ _ _ _ Hmove) as [Hw _].
  destruct (IH phase' eq_refl) as (phase'' & H1 & H2 & H3 & H4). exists phase''. split_and!; [done..|lia].
Qed.

Lemma shut_down_stuck (e : executor) result accepted polled :
ex_thread e = Exited ->
forall z, ~ executor_step (mkExecutorState e (ShuttingDown (ShutDown result)) accepted polled) z.
Proof.
intros Ht z Hz. inversion Hz; subst; [|done].
match goal with H : thread_step _ = Some _ |- _ => unfold thread_step in H; rewrite Ht in H; done end.
Qed.

Lemma executor_reachable_run k x y : executor_reachable x -> nsteps executor_step k x y -> executor_reachable y.
Proof. intros Hx. induction 1 as [|k x y z Hstep _ IH]; [done|]. apply IH. by eapply executor_next. Qed.

(** The weight of a shutdown, within the bounds of the channels. *)
Lemma shutdown_weight x settled opened phase :
executor_inv x settled opened ->
(executor_weight (xs_executor x) + phase_weight phase <= 5 * sc_bound (ex_writes (xs_executor x)) + 13)%nat.
Proof.
intros []. destruct xi_fits0 as (Hw & Hr & Hc), xi_bounds0 as (Hrb & _ & Hcb). unfold channel_fits, executor_weight in *.
assert (thread_weight (ex_thread (xs_executor x)) <= 6)%nat by (destruct (ex_thread _); cbn; lia).
assert (phase_weight phase <= 2)%nat by (destruct phase; cbn; lia). lia.
Qed.
End ExecutorHistory.

(** C34. The storage thread writes every accepted record once, in order, under
    every interleaving with its owner: over submissions, polls, recoveries whose
    sink truly holds what it is said to hold, a shutdown or a drop of the handle
    at any moment, and the thread's own operations one at a time, the accepted
    jobs, numbered upwards, are a settled prefix and the open jobs; the
    completions seen, queued and in the thread's hand settle exactly that prefix,
    each with its own receipt, and a failure names the first open job; the sink
    of a thread between jobs holds exactly the settled records after the
    original log; a thread that waits for a recovered sink has reported the
    failure, and one that stops has written everything or stops at a reported
    failure; the thread never panics, the queues keep to their bounds, and the
    thread waits only for work, for a recovered sink, or for its owner to take a
    completion. *)
Theorem executor_exactly_once {S E : Type} `{DurableSink S E} (log : list PersistenceRecord) (x : executor_state S E) :
  executor_reachable log x ->
  let e := xs_executor x in
  exists settled opened,
    xs_accepted x = settled ++ opened /\ StronglySorted Z.lt (map job_id (xs_accepted x)) /\
    (thread_running (ex_thread e) = true -> opened = queued_jobs e) /\
    (xs_owner x <> Dropped ->
       settle (xs_accepted x) (executor_completions x) = Some opened /\
       confirmed (executor_completions x) = map (fun j => (job_id j, pe_receipt (job_envelope j))) settled) /\
    thread_ok log x settled opened /\
    (length (sc_items (ex_writes e)) <= sc_bound (ex_writes e))%nat /\
    (length (sc_items (ex_completions e)) <= sc_bound (ex_writes e) + 1)%nat /\
    (thread_step e = None ->
       match ex_thread e with
       | Receiving _ => opened = [] /\ xs_owner x = Owned
       | Reporting _ _ _ => channel_full (ex_completions e) = true /\ xs_owner x <> Dropped
       | AwaitingRecovery _ _ => sc_items (ex_recovery e) = [] /\ xs_owner x = Owned
       | Exited => True
       | _ => False
       end).
Proof.
  intros Hreach e. destruct (executor_reachable_inv log x Hreach) as (settled & opened & Hinv).
  exists settled, opened. pose proof Hinv as []. destruct xi_fits0 as (Hw & _ & Hc), xi_bounds0 as (_ & _ & Hcb).
  unfold channel_fits in *. fold e in Hw, Hc, Hcb, xi_open0. split_and!; [done|done|done| |done|done|lia|].
  - intros Ho. pose proof (xi_settle0 Ho) as Hset. split; [done|].
    destruct (settle_prefix _ _ _ Hset) as (settled' & Hacc & Hok). rewrite Hok.
    rewrite xi_split0 in Hacc. by simplify_list_eq.
  - intros Hwait%thread_waits. unfold thread_ok in xi_thread0. fold e in xi_thread0, xi_owner0.
    destruct (ex_thread e) eqn:Ht; try done.
    + destruct Hwait as [Hi Hs]. split.
      * rewrite (xi_open0 eq_refl). unfold queued_jobs. by rewrite Ht, Hi.
      * destruct (xs_owner x); [done|..]; cbn in xi_owner0; destruct xi_owner0; congruence.
    + destruct Hwait as [Hr Hf]. split; [done|]. intros Ho. rewrite Ho in xi_owner0. cbn in xi_owner0.
      destruct xi_owner0 as (_ & _ & ?). congruence.
    + destruct Hwait as [Hi Hs]. split; [done|].
      destruct (xs_owner x); [done|..]; cbn in xi_owner0; destruct xi_owner0 as (_ & ? & _); congruence.
Qed.

(** C35. A shutdown of the storage thread ends: from the moment [shutdown] closes
    the inputs, under every interleaving of the thread with the collection of
    its completions, at most five operations per queue slot and thirteen more
    happen; and when none is left, the thread has ended without a panic and
    [shutdown] returned the sink with every completion, which settle all the
    accepted records, and then the sink holds exactly them, or those before a job
    whose failure is the last completion. *)
Theorem executor_shutdown_ends {S E : Type} `{DurableSink S E} (log : list PersistenceRecord)
    (x y : executor_state S E) (phase : ShutdownPhase S E) (k : nat) :
  executor_reachable log x -> xs_owner x = ShuttingDown phase ->
  admits (S:=S) (log ++ map job_record (xs_accepted x)) -> nsteps (executor_step log) k x y ->
  (k <= 5 * sc_bound (ex_writes (xs_executor x)) + 13)%nat /\
  ((forall z, ~ executor_step log y z) ->
   exists sink completions settled lost,
     xs_owner y = ShuttingDown (ShutDown (Ok (mkShutdown sink completions))) /\
     ex_thread (xs_executor y) = Exited /\ xs_accepted y = xs_accepted x /\ xs_accepted y = settled ++ lost /\
     settle (xs_accepted y) (xs_polled y ++ completions) = Some lost /\
     ((lost = [] /\ holds sink (log_of log settled)) \/
      exists command rest error, lost = command :: rest /\
        list.last (xs_polled y ++ completions) = Some (mkCompletion (job_id command) (inr error)))).
Proof.
  intros Hreach Ho Hadm Hrun. destruct (executor_reachable_inv log x Hreach) as (settled0 & opened0 & Hinv0).
  destruct (shutdown_run log k x phase y Ho Hrun) as (phase' & Ho' & Hacc & Hpol & Hweight).
  split; [pose proof (shutdown_weight log x _ _ phase Hinv0); lia|]. intros Hstuck.
  pose proof (executor_reachable_run log k x y Hreach Hrun) as Hreach'.
  destruct (executor_reachable_inv log y Hreach') as (settled & lost & Hinv).
  destruct y as [e owner accepted polled]. cbn [xs_owner xs_accepted xs_polled xs_executor] in *. subst owner.
  assert (exists result, phase' = ShutDown result) as [result ->].
  { destruct phase' as [cs|cs|result]; [| |by eexists]; exfalso;
      (destruct (shutdown_moves log _ _ _ _ _ _ Hinv) as [Hmove|Hmove]; [done|..]).
    - destruct (thread_step e) as [e'|] eqn:He; [|done]. eapply Hstuck, executor_thread_moves; [by rewrite Hacc|done].
    - destruct (shutdown_step e _) as [[e' phase']|] eqn:He; [|done]. by eapply Hstuck, executor_collects.
    - destruct (thread_step e) as [e'|] eqn:He; [|done]. eapply Hstuck, executor_thread_moves; [by rewrite Hacc|done].
    - destruct (shutdown_step e _) as [[e' phase']|] eqn:He; [|done]. by eapply Hstuck, executor_collects. }
  pose proof Hinv as []. destruct xi_owner0 as (_ & _ & _ & _ & Hex & Hempty & Hgone & [sink completions] & ->).
  unfold thread_ok, ended, final_sink, executor_completions, seen_completions in *. cbn [xs_executor xs_owner xs_accepted xs_polled] in *.
  rewrite Hex, Hempty, Hgone in *. cbn [collected in_hand app sd_completions sd_sink] in *. rewrite !app_nil_r in *.
  destruct (xi_thread0 ltac:(done)) as (s & [= <-] & Hend).
  exists sink, completions, settled, lost. split_and!; try done. by apply xi_settle0.
Qed.

(** ** A thread whose second write fails *)

#[local] Instance executor_storage : DurableSink CaptureWal.CaptureWalSink CaptureWal.CaptureWalError :=
  wal_durable_sink CaptureRecovery.sample_config CaptureRecovery.sample_config_typed [].

(** Lets the thread make [n] operations, as long as it does not wait. *)
Definition thread_runs {S E : Type} `{DurableMeasurementSink S E} (n : nat) (x : PersistenceExecutor S E) :
    PersistenceExecutor S E :=
  Nat.iter n (fun x => default x (thread_step x)) x.

Lemma thread_runs_reachable {S E : Type} `{DurableSink S E} log n (x : PersistenceExecutor S E) owner accepted polled :
  admits (S:=S) (log ++ map job_record accepted) ->
  executor_reachable log (mkExecutorState x owner accepted polled) ->
  executor_reachable log (mkExecutorState (thread_runs n x) owner accepted polled).
Proof.
  intros Hadm Hx. induction n as [|n IH]; [done|].
  assert (thread_runs (Datatypes.S n) x = default (thread_runs n x) (thread_step (thread_runs n x))) as -> by done.
  destruct (thread_step (thread_runs n x)) as [x'|] eqn:Hstep; [|done].
  eapply executor_next; [exact IH|]. by apply executor_thread_moves.
Qed.

Abbreviation wal_executor := (PersistenceExecutor CaptureWal.CaptureWalSink CaptureWal.CaptureWalError).

Definition demo_started : wal_executor :=
  mkExecutor (sync_channel 2) (sync_channel 1) (sync_channel 3) (sync_channel 1) 1 (Receiving CaptureSink.opened_sink).
Definition demo_queued : wal_executor :=
  snd (executor_submit_record chunk_envelope (snd (executor_submit_record gap_envelope demo_started))).
Definition demo_jobs : list WriteJob := [mkJob 1 gap_envelope; mkJob 2 chunk_envelope].
Definition demo_failed : wal_executor := thread_runs 6 demo_queued.
Definition demo_ended : wal_executor := thread_runs 3 (close_inputs demo_failed).

Lemma demo_admits : admits (S:=CaptureWal.CaptureWalSink) ([] ++ map job_record demo_jobs).
Proof. split; vm_compute; reflexivity. Qed.

Lemma demo_failed_reachable : executor_reachable [] (mkExecutorState demo_failed Owned demo_jobs []).
Proof.
  apply thread_runs_reachable; [exact demo_admits|].
  eapply (executor_next _ (mkExecutorState (snd (executor_submit_record gap_envelope demo_started)) Owned
    [mkJob 1 gap_envelope] []));
    [|apply (executor_submits _ _ [mkJob 1 gap_envelope] [] chunk_envelope 2); [|vm_compute; reflexivity]].
  - eapply (executor_next _ (mkExecutorState demo_started Owned [] []));
      [|apply (executor_submits _ _ [] [] gap_envelope 1); [|vm_compute; reflexivity]].
    + by apply (executor_started _ CaptureSink.opened_sink 2); [apply WalStorage.opened_sink_holds|].
    + split; [typed_by_compute|reflexivity].
  - split; [typed_by_compute|reflexivity].
Qed.

Lemma executor_exactly_once_witness :
  exists settled,
    demo_jobs = settled ++ [mkJob 2 chunk_envelope] /\
    map job_id settled = [1] /\
    confirmed (sc_items (ex_completions demo_failed)) = map (fun j => (job_id j, pe_receipt (job_envelope j))) settled /\
    ex_thread demo_failed = AwaitingRecovery (match ex_thread demo_failed with AwaitingRecovery s _ => s | _ => CaptureSink.opened_sink end)
      (mkJob 2 chunk_envelope).
Proof.
  destruct (executor_exactly_once [] _ demo_failed_reachable) as (settled & opened & Hacc & _ & Hopen & Hset & _).
  assert (opened = [mkJob 2 chunk_envelope]) as -> by (rewrite Hopen; vm_compute; reflexivity).
  cbn [xs_accepted] in Hacc. exists settled. split; [exact Hacc|].
  assert (settled = [mkJob 1 gap_envelope]) as -> by (apply (app_inv_tail [mkJob 2 chunk_envelope]); rewrite <- Hacc; reflexivity).
  split; [reflexivity|]. split; [|vm_compute; reflexivity].
  destruct (Hset ltac:(done)) as [_ Hconf]. exact Hconf.
Defined.

(** The owner shuts down: three operations of the thread, two completions, the
    end of the completions and the join. *)
Definition demo_collect (n : nat) : wal_executor * ShutdownPhase CaptureWal.CaptureWalSink CaptureWal.CaptureWalError :=
  Nat.iter n (fun x => default x (shutdown_step (fst x) (snd x))) (demo_ended, Collecting []).
Definition demo_collecting (n : nat) : executor_state CaptureWal.CaptureWalSink CaptureWal.CaptureWalError :=
  mkExecutorState (fst (demo_collect n)) (ShuttingDown (snd (demo_collect n))) demo_jobs [].
Definition demo_ending (n : nat) : executor_state CaptureWal.CaptureWalSink CaptureWal.CaptureWalError :=
  mkExecutorState (thread_runs n (close_inputs demo_failed)) (ShuttingDown (Collecting [])) demo_jobs [].

Lemma demo_ending_done : demo_ending 3 = demo_collecting 0.
Proof. unfold demo_collecting, demo_collect. cbn [Nat.iter nat_rect fst snd]. unfold demo_ending, demo_ended. reflexivity. Qed.

Lemma demo_ending_reachable : executor_reachable [] (demo_ending 0).
Proof.
  unfold demo_ending, thread_runs. cbn [Nat.iter nat_rect].
  exact (executor_next _ _ _ demo_failed_reachable (executor_shuts_down _ demo_failed demo_jobs [])).
Qed.

Lemma demo_shutdown : nsteps (executor_step []) 7 (demo_ending 0) (demo_collecting 4).
Proof.
  assert (forall n, thread_step (thread_runs n (close_inputs demo_failed)) =
    Some (thread_runs (S n) (close_inputs demo_failed)) -> executor_step [] (demo_ending n) (demo_ending (S n))) as Hmove
    by (intros; by apply executor_thread_moves; [exact demo_admits|]).
  assert (forall n, shutdown_step (fst (demo_collect n)) (snd (demo_collect n)) =
    Some (fst (demo_collect (S n)), snd (demo_collect (S n))) -> executor_step [] (demo_collecting n) (demo_collecting (S n)))
    as Hcollect by (intros; by apply executor_collects).
  do 3 (eapply nsteps_l; [apply Hmove; vm_compute; reflexivity|]). rewrite demo_ending_done.
  do 4 (eapply nsteps_l; [apply Hcollect; vm_compute; reflexivity|]). constructor.
Qed.

Lemma executor_shutdown_ends_witness :
  exists sink completions settled lost,
    xs_owner (demo_collecting 4) = ShuttingDown (ShutDown (Ok (mkShutdown sink completions))) /\
    demo_jobs = settled ++ lost /\ lost = [mkJob 2 chunk_envelope] /\
    confirmed completions = [(1, mkReceipt CaptureWindow.window_hw CaptureWindow.window_epoch 20)].
Proof.
  pose proof demo_ending_reachable as Hreach.
  destruct (executor_shutdown_ends [] (demo_ending 0) (demo_collecting 4) (Collecting []) 7 Hreach eq_refl demo_admits
    demo_shutdown) as [_ Hend].
  destruct Hend as (sink & completions & settled & lost & Ho & _ & _ & Hacc & Hset & _).
  { assert (exists result, snd (demo_collect 4) = ShutDown result /\ ex_thread (fst (demo_collect 4)) = Exited)
      as (result & Hph & Hth) by (eexists; split; vm_compute; reflexivity).
    unfold demo_collecting. rewrite Hph. exact (shut_down_stuck [] _ result demo_jobs [] Hth). }
  exists sink, completions, settled, lost. split; [exact Ho|]. split; [exact Hacc|].
  pose proof (f_equal collected Ho) as Hc. cbn [collected sd_completions] in Hc. rewrite <- Hc in *.
  split; [|vm_compute; reflexivity].
  assert (settle (xs_accepted (demo_collecting 4)) (xs_polled (demo_collecting 4) ++ collected (xs_owner (demo_collecting 4)))
    = Some [mkJob 2 chunk_envelope]) as Hlost by (vm_compute; reflexivity).
  rewrite Hlost in Hset. by injection Hset as <-.
Defined.
